(* ===== verification/_CoqProject ===== *)
-Q . S2P
Prelude.v
GoTime.v
GoStrings.v
GoDate.v
GoNet.v
MailAddress.v
Classify.v
Retry.v
QueueModel.v
SRS.v
Prog.v
Outbound.v
Dsn.v
Smtp.v
Send.v
SendSafety.v
Delivery.v
DeliverySafety.v
ConnLimiter.v
MailStore.v
Queue.v
AdminQueue.v
QueueSafety.v
QueueBounds.v
Samples.v
Grants.v
GoCodec.v
AuditLog.v
AuditFacts.v
GrantStore.v
GrantLoad.v
GrantChange.v
GrantSafety.v
GrantCache.v
GrantWitnesses.v
Pipeline.v
PipelineFacts.v
AuthResults.v
Emails.v
Greylist.v
RateLimit.v
SenderAuth.v
SendLimits.v
SendLimitsSafety.v
StorageQuota.v
Recipients.v
Auth.v
Accounts.v
SignIn.v
Sessions.v
Custody.v
AccountsFacts.v
SessionsSafety.v
SignInProof.v
Access.v
AccessFacts.v
AccessSafety.v
Threads.v
MessageStore.v
GoBase64.v
Messages.v
StorageExact.v
MailRuns.v
MailAccess.v
Forwards.v
SmtpText.v
LocalDelivery.v
SmtpTextFacts.v
LocalFacts.v
ComposeText.v
Compose.v
ComposeFacts.v
SmtpSession.v
SmtpSafety.v
SmtpReplies.v
Witnesses.v
MailWitnesses.v
