(* ===== verification/Prelude.v ===== *)
(** * A verification library of the REST Mail server

    REST Mail is a mail server in Go. This library models its core and proves what makes
    it correct; it follows the code, definition by definition, under the code's names.

    ** The program's parts, and where they are

    Mail comes in over SMTP (internal/gateway/smtp) or RESTMAIL, passes a pipeline of filters
    (internal/pipeline) and is delivered to mailboxes here; what is submitted for elsewhere
    becomes rows of a queue (internal/db/models/queue.go) that workers (internal/gateway/queue)
    deliver. The API (internal/api) signs accounts in and holds every request to what its
    account is granted (internal/grants).

    *** Outbound
    - [QueueModel.Row] is the queue's row, [MailStore] the tables around it and the mailbox
      lookup (internal/db/repositories/mailbox.go, internal/mail/mailbox.go);
    - [Queue] is the row's life (worker.go, suppression.go, smtp_timeouts.go): [claim],
      [refreshClaim], [process], [recordFailure], [generateBounce], [bounceSuppressed];
      [AdminQueue] is what an administrator does to it (internal/api/handlers/queue.go,
      domain_outbound_stop.go);
    - [Delivery.Route.deliver] is one attempt: the sending domain's relay
      ([Delivery.Relay], relay.go), the RESTMAIL upgrade over HTTPS ([Delivery.Restmail],
      restmail_discovery.go) or SMTP to the MX hosts in turn;
    - [Send.deliverSMTPWith] is one SMTP conversation (worker.go, smtp_timeouts.go,
      smtputf8.go, dane.go, tlsrpt.go), with [Outbound] preparing the message
      (internal/outbound/prepare.go) and [SRS] rewriting a forward's sender
      (internal/srs/srs.go);
    - [Classify] reads what an attempt failed with (classify.go, worker.go), [Retry]
      schedules the next (retry.go), [Dsn] writes the bounce message (worker.go);
    - [GoNet.SSRF] is the guard on every outbound connection (ssrf.go).
    [ConnLimiter] (internal/gateway/connlimiter) is the gateways' connection caps and
    authentication bans.

    *** Inbound
    - [SmtpSession] is a connection's session on port 25 and the submission ports (session.go,
      spool.go), [SmtpText] the readers it uses (smtputf8.go, received.go, tarpit.go);
    - [Pipeline] is the engine (internal/pipeline), [AuthResults] how verdicts are recorded and
      read back (auth.go, dkim_coverage.go), [Emails] the message the filters see;
      [SenderAuth], [Greylist] and [RateLimit] are filters (internal/pipeline/filters);
    - [Recipients] resolves aliases and subaddresses (internal/db/repositories/recipient.go);
    - [SendLimits] (internal/sendlimits, internal/ratelimit) and [StorageQuota]
      (internal/db/repositories/storage_quota.go) are what an account may send and keep.

    *** Accounts
    - [Grants] is scopes and what is held (scope.go, held.go), [GrantStore] the tables and how
      grants are loaded, [GrantChange] changing them (change.go, activation.go,
      internal/api/handlers/grants.go), [GrantLoad] what loading reaches and [GrantCache] the
      cache of it;
    - [AuditLog] is the hash-chained audit log (internal/audit), over [GoCodec]'s SHA-256 and
      JSON;
    - [Auth] is claims, passwords and secrets (internal/auth), [Accounts] the tables of accounts,
      credentials and sessions with every statement on them, [SignIn] the handlers of
      internal/api/handlers/auth.go and two_factor.go, [Sessions] all of their requests
      interleaved, [Access] how the other credentials are checked, the middleware
      (internal/api/middleware) and which mailbox a request reaches.

    ** How effects are modelled

    Code that talks to the DNS, the database, a client or the clock is an interaction program
    ([Prog]): a tree whose nodes are questions ([Smtp.Outside], [SmtpSession.Q], [SignIn.Q])
    and whose branches are every answer. A theorem [always t p] says that no run of [p],
    whatever the answers, asks a question the test [t] rejects; [wp m s p] lets the test
    keep a state; [History.guarded g log p post] lets it look at all that was asked and
    answered. The programs are finite trees, so every one of them ends.
    Tables are passed explicitly; [broken] names the statements the database refuses, and every
    clock reading is an argument or a question. Concurrency is a step relation over atomic
    steps: [QueueSafety.move] for workers, heartbeats, crashes and administrators,
    [ConnLimiter.step] for the goroutines of Accept and Release, [GrantCache.step] for readers
    and changes, [Sessions.step] for the requests of the sign-in routes, a question at a time.
    A statement or a transaction is one step: so are Reserve, ReserveStorage, a grant's load, and
    what the greylist and the rate limiter do under a lock.
    Go errors are [Prelude.result]; Go's [int64] time arithmetic wraps or saturates as the
    language says ([GoTime]); strings are bytes ([GoStrings]), decoded as UTF-8 where the
    code does; the retry jitter is computed in binary64 ([Retry]).

    *** Fuel
    Recursion that is not structural has fuel, and enough of it: the text's length in
    [Send.write_blocks], [Dsn.read_block], [SmtpText.index_loop] and the unfolding of a header
    field, each of which takes at least a byte a turn; a word a turn in [GoCodec.blocks], a
    field a turn in the IPv6 reader; 65 for chains of owners, which the code cuts at 64, and 8
    for the owners of a load, the code's maxOwnerDepth ([GrantLoad.load_ends]: it never runs
    out); one more than the table's rows for quota chains; 8 alias hops, the code's own bound;
    any number of batches that holds the log, when it is verified in batches.

    ** Code outside the repository

    Each library a model relies on is a class whose instance is an argument: [Unicode] (case
    mapping outside ASCII), [MailLib] (IDNA, net/mail), [Mtasts] and [MtastsText]
    (go-mtasts), [WebLib] (net/url, JSON, %q), [SRSMac] (HMAC-SHA1, base32), [TextLib]
    (PostgreSQL's LOWER and ILIKE, NFC), [DkimLib], [SenderAuth.AuthLib] and [MailReader] (header and
    DKIM readers), [Auth.AuthLib] (bcrypt, the imported schemes, SHA-256, AES). Laws are assumed,
    by name, where a theorem needs them: [evaluate_enforces] (RFC 8461 section 5 as go-mtasts
    documents Evaluate), [SRS.b32_macs] (a MAC's text is base32 of 56 characters),
    [SmtpTextFacts.folds_alone] (no letter outside ASCII lowers to one inside). [Sessions] assumes that random values do not
    repeat and that only tokens the server signed parse. [Samples] has instances;
    [Witnesses], [GrantWitnesses], [PipelineWitnesses], [FilterWitnesses], [LimitWitnesses],
    [SmtpWitnesses] and [AuthWitnesses] apply every conditional theorem to concrete inputs.

    ** What is proved

    - Delivery ([SendSafety], [DeliverySafety]): protected mail is never exposed; commands
      are single lines; every step is timed; success means a server took the message; an
      enforced policy, a relay and a RESTMAIL pin are never bypassed.
    - The queue ([QueueSafety], [QueueBounds]): a claim takes the row due longest; one worker
      per row, provided a heartbeat reaches its row within half the reclaim interval (the
      defaults, 90 s of 12 min, do, with one beat missed); a failed row waits until a moment
      before it expires or is bounced and its sender told; notices are bounded in every
      window and never loop; suppressed recipients are spared exactly until expiry; an
      outbound stop costs no lifetime.
    - SMTP sessions ([SmtpSafety], [SubmissionSafety], [SmtpReplies], [SmtpLogin]): port 25 relays
      for nobody; a submission is authorized, checked and charged; DATA's reply says what
      was committed; every recipient is served; failed logins are counted once.
    - The pipeline ([PipelineFacts], [AuthResults], [SenderFacts]): an accepted message passed
      what the pipeline requires; running it in stages is running it once; verdicts read back
      as recorded; DMARC's disposition; known senders are proven.
    - Limits ([SendLimitsFacts], [SendLimitsSafety], [StorageQuota], [RecipientFacts], [Greylist],
      [RateLimit]): bounds in every window, quotas of every owner, recipients checked at RCPT
      arrive.
    - Grants and the audit log ([GrantsFacts], [GrantLoad], [GrantSafety], [GrantCache],
      [AuditFacts]): nobody grants more than held; an owned account stays within its owner; a
      superadmin remains; the cache is as good as a load; rewriting the log is noticed.
    - Authentication ([SignInProof], [SessionsSafety], [AccessFacts], [AccessSafety]; [Custody],
      [HandlersKeep], [AccountsFacts], [SessionsOnce] and [SessionsInv] carry the invariants): a
      session is earned; ended sessions stay ended; sessions do not fork; one-time things are used once;
      a request is served only as who it proved to be, within live grants.
    - Pure parts: classification, retry schedules, SRS round trip, Bcc stripping, bounce
      fields, the SSRF guard, connection caps and bans.

    ** What is not modelled

    Logging, metrics other than the ones an outcome moves, process start, configuration and poll
    loops; cryptography (TLS, DKIM, JWT, bcrypt, DANE certificate matching, ARC sealing) and
    the MIME and address parsers, which are questions or classes; the sieve, vacation and
    content-scanner filters; TLS-RPT reports; message storage, search, contacts and the other
    handlers over SQL; the session cache and the failure budget; creating and revoking credentials; the IMAP and POP3
    gateways; the operator's commands.
    The interval [restartOutbound] gives back is exact here; the code passes it as a number
    of seconds in floating point. *)

From stdpp Require Export base gmap strings list fin_maps sets option sorting.
From Stdlib Require Export ZArith Lia.

(** ** Errors

    Go functions that answer [(T, error)] are modelled with [result E T]: either the
    value or the error, never both. [E] is the error type of the component. *)

Inductive result (E A : Type) : Type :=
| Ok (a : A)
| Err (e : E).
Arguments Ok {E A} a.
Arguments Err {E A} e.

#[global] Instance result_ret {E} : MRet (result E) := fun A a => Ok a.
#[global] Instance result_bind {E} : MBind (result E) :=
  fun A B f r => match r with Ok a => f a | Err e => Err e end.
#[global] Instance result_fmap {E} : FMap (result E) :=
  fun A B f r => match r with Ok a => Ok (f a) | Err e => Err e end.

Definition is_ok {E A} (r : result E A) : bool :=
  match r with Ok _ => true | Err _ => false end.

#[global] Instance result_eq_dec {E A} `{EqDecision E, EqDecision A} :
  EqDecision (result E A).
Proof. solve_decision. Defined.

Lemma result_bind_ok {E A B} (r : result E A) (f : A -> result E B) b :
  (r ≫= f) = Ok b <-> exists a, r = Ok a /\ f a = Ok b.
Proof.
  destruct r as [a|e]; simpl; split.
  - intros H. by exists a.
  - intros (a' & Heq & H). by simplify_eq.
  - done.
  - intros (a' & Heq & H). done.
Qed.

(** ** Automation

    [bprop] rewrites boolean tests of the code into propositions; [bool_lia] does the
    rewriting everywhere and calls [lia]. *)

Create Rewrite HintDb bprop.
#[export] Hint Rewrite
  Bool.andb_true_iff Bool.andb_false_iff Bool.orb_true_iff Bool.orb_false_iff
  Bool.negb_true_iff Bool.negb_false_iff
  Z.ltb_lt Z.ltb_ge Z.leb_le Z.leb_gt Z.eqb_eq Z.eqb_neq
  Nat.ltb_lt Nat.ltb_ge Nat.leb_le Nat.leb_gt Nat.eqb_eq Nat.eqb_neq
  bool_decide_eq_true bool_decide_eq_false
  : bprop.

Ltac bprop := autorewrite with bprop in *.
Ltac bool_lia := bprop; lia.

(** Case analysis on the first [if] or [match] of the goal, with its equation, closing
    the impossible branches. *)
Ltac cases :=
  repeat (case_match; simplify_eq; try done).

(** Go maps a string key to [true] to build a set; so do these definitions. *)
Abbreviation strset := (gset string).

(** ** Lists *)

Definition existsb_In {A} (f : A -> bool) (l : list A) : Prop :=
  exists x, x ∈ l /\ f x = true.

Lemma existsb_elem {A} (f : A -> bool) l :
  existsb f l = true <-> exists x, x ∈ l /\ f x = true.
Proof.
  rewrite existsb_exists. setoid_rewrite list_elem_of_In. done.
Qed.

Lemma existsb_false {A} (f : A -> bool) l :
  existsb f l = false <-> forall x, x ∈ l -> f x = false.
Proof.
  rewrite <- Bool.not_true_iff_false, existsb_elem. split.
  - intros H x Hx. destruct (f x) eqn:E; [exfalso; apply H; eauto | done].
  - intros H (x & Hx & E). rewrite H in E; done.
Qed.

Lemma forallb_elem {A} (f : A -> bool) l :
  forallb f l = true <-> forall x, x ∈ l -> f x = true.
Proof. rewrite forallb_forall. setoid_rewrite list_elem_of_In. done. Qed.
