(* ===== verification/GoTime.v ===== *)
(** * Go's integers, [time.Time] and [time.Duration]

    A [time.Time] is the number of nanoseconds since Go's zero time (so [IsZero] is
    equality with 0); a [time.Duration] is a signed 64-bit count of nanoseconds. [Add] on
    a [Time] is exact (Go's [Time] spans billions of years); [Sub] and [Since] saturate,
    and arithmetic on durations and ints wraps, as in Go. *)

From S2P Require Import Prelude.
Local Open Scope Z_scope.

Module GoInt.
Definition min_int64 : Z := - 2 ^ 63.
Definition max_int64 : Z := 2 ^ 63 - 1.

(** Two's complement wrap-around of int64 and int32 arithmetic. *)
Definition wrap64 (z : Z) : Z := (z + 2 ^ 63) mod 2 ^ 64 - 2 ^ 63.
Definition wrap32 (z : Z) : Z := (z + 2 ^ 31) mod 2 ^ 32 - 2 ^ 31.

Definition in64 (z : Z) : Prop := min_int64 <= z <= max_int64.
Definition in32 (z : Z) : Prop := - 2 ^ 31 <= z <= 2 ^ 31 - 1.

Lemma wrap64_id z : in64 z -> wrap64 z = z.
Proof.
  unfold in64, wrap64, min_int64, max_int64. intros H.
  rewrite Z.mod_small; lia.
Qed.

Lemma wrap64_range z : in64 (wrap64 z).
Proof.
  unfold in64, wrap64, min_int64, max_int64.
  pose proof (Z.mod_pos_bound (z + 2 ^ 63) (2 ^ 64)). lia.
Qed.

Lemma wrap32_id z : in32 z -> wrap32 z = z.
Proof.
  unfold in32, wrap32. intros H. rewrite Z.mod_small; lia.
Qed.

(** What [time.Sub] does to a difference that does not fit. *)
Definition clamp64 (z : Z) : Z := Z.max min_int64 (Z.min max_int64 z).

Lemma clamp64_id z : in64 z -> clamp64 z = z.
Proof. unfold in64, clamp64. lia. Qed.

Lemma clamp64_gt z d : in64 d -> (d <? clamp64 z) = true -> d < z.
Proof. unfold in64, clamp64. intros. bprop. lia. Qed.

Lemma clamp64_le z d : in64 d -> (d <? clamp64 z) = false -> z <= d \/ d = max_int64.
Proof. unfold in64, clamp64. intros. bprop. lia. Qed.
End GoInt.
#[export] Hint Resolve GoInt.wrap64_range : core.

Module GoTime.
Definition Time := Z.
Definition Duration := Z.

Definition Nanosecond : Duration := 1.
Definition Microsecond : Duration := 1000.
Definition Millisecond : Duration := 1000000.
Definition Second : Duration := 1000000000.
Definition Minute : Duration := 60 * Second.
Definition Hour : Duration := 60 * Minute.

Definition zero : Time := 0.
Definition IsZero (t : Time) : bool := t =? 0.
Definition Add (t : Time) (d : Duration) : Time := t + d.
Definition After (t u : Time) : bool := u <? t.
Definition Before (t u : Time) : bool := t <? u.
Definition Sub (t u : Time) : Duration := GoInt.clamp64 (t - u).

(** Seconds between Go's zero time and the Unix epoch; [Unix] rounds down. *)
Definition unix_epoch : Z := 62135596800.
Definition Unix (t : Time) : Z := t / Second - unix_epoch.

(** [time.Duration(n) * unit]: 64-bit multiplication. *)
Definition times (n : Z) (unit : Duration) : Duration := GoInt.wrap64 (n * unit).
End GoTime.
