(* ===== verification/GoStrings.v ===== *)
(** * Go's [strings] package, on byte strings

    A Go string is a sequence of bytes, as is [string] here. The functions the code uses
    are defined on every byte string. Three of them consult Unicode's case tables once a
    byte is not ASCII; those tables are the [Unicode] class's operations, consulted
    exactly where Go leaves its ASCII fast path. *)

From S2P Require Import Prelude.
From Stdlib Require Import Ascii.
From stdpp Require Import pretty.
Local Open Scope Z_scope.

Module GoStrings.

Definition byte_z (a : ascii) : Z := Z.of_N (N_of_ascii a).
Definition byte (n : nat) : ascii := ascii_of_nat n.

Definition is_ascii_byte (a : ascii) : bool := (nat_of_ascii a <? 128)%nat.
Definition lower_byte (a : ascii) : ascii :=
  let n := nat_of_ascii a in
  if (65 <=? n)%nat && (n <=? 90)%nat then ascii_of_nat (n + 32) else a.
Definition upper_byte (a : ascii) : ascii :=
  let n := nat_of_ascii a in
  if (97 <=? n)%nat && (n <=? 122)%nat then ascii_of_nat (n - 32) else a.

Fixpoint smap (f : ascii -> ascii) (s : string) : string :=
  match s with
  | EmptyString => EmptyString
  | String a s => String (f a) (smap f s)
  end.
Fixpoint sforall (f : ascii -> bool) (s : string) : bool :=
  match s with
  | EmptyString => true
  | String a s => f a && sforall f s
  end.
Definition sexists (f : ascii -> bool) (s : string) : bool :=
  negb (sforall (fun a => negb (f a)) s).

Definition is_ascii (s : string) : bool := sforall is_ascii_byte s.
Definition len (s : string) : Z := Z.of_nat (String.length s).

(** The parts of Unicode's case mapping and simple folding that are not ASCII. *)
Class Unicode := {
  uni_lower : string -> string;
  uni_upper : string -> string;
  uni_fold : string -> string -> bool;
}.

(** An instance for evaluation: no case mapping outside ASCII. *)
Definition unicode_caseless : Unicode := {|
  uni_lower := smap lower_byte;
  uni_upper := smap upper_byte;
  uni_fold s t := bool_decide (smap lower_byte s = smap lower_byte t);
|}.

Section Case.
Context `{Unicode}.

Definition ToLower (s : string) : string :=
  if is_ascii s then smap lower_byte s else uni_lower s.
Definition ToUpper (s : string) : string :=
  if is_ascii s then smap upper_byte s else uni_upper s.
Definition EqualFold (s t : string) : bool :=
  if is_ascii s && is_ascii t then bool_decide (smap lower_byte s = smap lower_byte t)
  else uni_fold s t.
End Case.

(** [CutPrefix], [HasPrefix], [TrimPrefix] and their suffix versions. *)
Fixpoint cut_prefix (p s : string) : option string :=
  match p, s with
  | EmptyString, _ => Some s
  | String a p, String b s => if ascii_dec a b then cut_prefix p s else None
  | _, EmptyString => None
  end.
Definition HasPrefix (s p : string) : bool :=
  match cut_prefix p s with Some _ => true | None => false end.
Definition TrimPrefix (s p : string) : string := default s (cut_prefix p s).

Fixpoint srev_app (s acc : string) : string :=
  match s with
  | EmptyString => acc
  | String a s => srev_app s (String a acc)
  end.
Definition srev (s : string) : string := srev_app s EmptyString.

Definition cut_suffix (p s : string) : option string := srev <$> cut_prefix (srev p) (srev s).
Definition TrimSuffix (s p : string) : string := default s (cut_suffix p s).
Definition HasSuffix (s p : string) : bool :=
  match cut_suffix p s with Some _ => true | None => false end.

(** [Cut]: around the first occurrence of [sep]. *)
Fixpoint Cut (s sep : string) : option (string * string) :=
  match cut_prefix sep s with
  | Some rest => Some (EmptyString, rest)
  | None =>
      match s with
      | EmptyString => None
      | String a s' => match Cut s' sep with
                       | Some (before, after) => Some (String a before, after)
                       | None => None
                       end
      end
  end.
Definition Contains (s sub : string) : bool :=
  match Cut s sub with Some _ => true | None => false end.
(** [ContainsAny] with a set of ASCII bytes. *)
Definition ContainsAny (s : string) (bytes : list ascii) : bool :=
  sexists (fun a => bool_decide (a ∈ bytes)) s.
Definition contains_byte (a : ascii) (s : string) : bool :=
  sexists (fun b => bool_decide (a = b)) s.

(** [Split] and [SplitN] on a one-byte separator. *)
Fixpoint split_byte (c : ascii) (s : string) : list string :=
  match s with
  | EmptyString => [EmptyString]
  | String a s =>
      if ascii_dec a c then EmptyString :: split_byte c s
      else match split_byte c s with
           | w :: ws => String a w :: ws
           | [] => [String a EmptyString]
           end
  end.
(** Around the first, and around the last, occurrence of a byte. *)
Fixpoint cut_byte (c : ascii) (s : string) : option (string * string) :=
  match s with
  | EmptyString => None
  | String a s =>
      if ascii_dec a c then Some (EmptyString, s)
      else match cut_byte c s with
           | Some (b, r) => Some (String a b, r)
           | None => None
           end
  end.
Fixpoint cut_last (c : ascii) (s : string) : option (string * string) :=
  match s with
  | EmptyString => None
  | String a s =>
      match cut_last c s with
      | Some (b, r) => Some (String a b, r)
      | None => if ascii_dec a c then Some (EmptyString, s) else None
      end
  end.
Fixpoint splitn_byte (c : ascii) (s : string) (n : nat) : list string :=
  match n with
  | 0%nat => []
  | 1%nat => [s]
  | S n => match cut_byte c s with
           | Some (b, r) => b :: splitn_byte c r n
           | None => [s]
           end
  end.

(** [unicode.IsSpace]: the length in bytes of the white space a string starts with (0
    for none): ASCII space, U+0085, U+00A0, U+1680, U+2000 to U+200A, U+2028, U+2029,
    U+202F, U+205F, U+3000. Each encoding starts with a lead byte, so a search byte by
    byte finds exactly the runes Go's decoding finds. *)
Definition space1 (a : ascii) : bool :=
  let n := nat_of_ascii a in ((9 <=? n) && (n <=? 13) || (n =? 32))%nat.
Definition space2 (a b : ascii) : bool :=
  let n := nat_of_ascii b in
  ((nat_of_ascii a =? 194) && ((n =? 133) || (n =? 160)))%nat.
Definition space3 (a b c : ascii) : bool :=
  let na := nat_of_ascii a in let nb := nat_of_ascii b in let nc := nat_of_ascii c in
  ((na =? 225) && (nb =? 154) && (nc =? 128)
   || (na =? 226) && (nb =? 128) && ((128 <=? nc) && (nc <=? 138)
                                     || (nc =? 168) || (nc =? 169) || (nc =? 175))
   || (na =? 226) && (nb =? 129) && (nc =? 159)
   || (na =? 227) && (nb =? 128) && (nc =? 128))%nat.

Definition space_len (s : string) : nat :=
  match s with
  | EmptyString => 0
  | String a s1 =>
      if space1 a then 1
      else match s1 with
           | EmptyString => 0
           | String b s2 =>
               if space2 a b then 2
               else match s2 with
                    | EmptyString => 0
                    | String c _ => if space3 a b c then 3 else 0
                    end
           end
  end%nat.

Fixpoint trim_left (s : string) : string :=
  match s with
  | EmptyString => EmptyString
  | String a s1 =>
      if space1 a then trim_left s1
      else match s1 with
           | EmptyString => s
           | String b s2 =>
               if space2 a b then trim_left s2
               else match s2 with
                    | EmptyString => s
                    | String c s3 => if space3 a b c then trim_left s3 else s
                    end
           end
  end.
(** The same on a reversed string, whose spaces are reversed. *)
Fixpoint trim_left_rev (s : string) : string :=
  match s with
  | EmptyString => EmptyString
  | String a s1 =>
      if space1 a then trim_left_rev s1
      else match s1 with
           | EmptyString => s
           | String b s2 =>
               if space2 b a then trim_left_rev s2
               else match s2 with
                    | EmptyString => s
                    | String c s3 => if space3 c b a then trim_left_rev s3 else s
                    end
           end
  end.
Definition TrimSpace (s : string) : string := srev (trim_left_rev (srev (trim_left s))).

(** [Fields]: the non-empty words between white space. *)
Definition push (a : ascii) (ws : list string) : list string :=
  match ws with
  | w :: ws => String a w :: ws
  | [] => [String a EmptyString]
  end.
Fixpoint split_space (s : string) : list string :=
  match s with
  | EmptyString => [EmptyString]
  | String a s1 =>
      if space1 a then EmptyString :: split_space s1
      else match s1 with
           | EmptyString => push a (split_space s1)
           | String b s2 =>
               if space2 a b then EmptyString :: split_space s2
               else match s2 with
                    | EmptyString => push a (split_space s1)
                    | String c s3 =>
                        if space3 a b c then EmptyString :: split_space s3
                        else push a (split_space s1)
                    end
           end
  end.
Definition Fields (s : string) : list string := filter (fun w => w <> EmptyString) (split_space s).

Fixpoint Join (ws : list string) (sep : string) : string :=
  match ws with
  | [] => EmptyString
  | [w] => w
  | w :: ws => w +:+ sep +:+ Join ws sep
  end.

(** *** Runes

    [range] over a string decodes UTF-8: each step yields a well-formed sequence, or
    one byte Go reads as U+FFFD. *)

Inductive rune := Rune (chunk : string) | Bad.
#[export] Instance rune_eq_dec : EqDecision rune.
Proof. solve_decision. Defined.

Definition in_range (lo hi : nat) (a : ascii) : bool :=
  let n := nat_of_ascii a in (lo <=? n)%nat && (n <=? hi)%nat.
(** The second byte's range after a lead byte, with the length of the sequence: the
    rows of [utf8.first]. *)
Definition lead (a : ascii) : option (nat * (nat * nat)) :=
  let n := nat_of_ascii a in
  if (194 <=? n)%nat && (n <=? 223)%nat then Some (2, (128, 191))%nat
  else if (n =? 224)%nat then Some (3, (160, 191))%nat
  else if (n =? 237)%nat then Some (3, (128, 159))%nat
  else if (225 <=? n)%nat && (n <=? 239)%nat then Some (3, (128, 191))%nat
  else if (n =? 240)%nat then Some (4, (144, 191))%nat
  else if (241 <=? n)%nat && (n <=? 243)%nat then Some (4, (128, 191))%nat
  else if (n =? 244)%nat then Some (4, (128, 143))%nat
  else None.
Definition cont (a : ascii) : bool := in_range 128 191 a.

Fixpoint runes (s : string) : list rune :=
  match s with
  | EmptyString => []
  | String a s1 =>
      if is_ascii_byte a then Rune (String a EmptyString) :: runes s1
      else match lead a, s1 with
           | Some (k, (lo, hi)), String b s2 =>
               if in_range lo hi b then
                 match k, s2 with
                 | 2%nat, _ => Rune (String a (String b EmptyString)) :: runes s2
                 | 3%nat, String c s3 =>
                     if cont c then Rune (String a (String b (String c EmptyString))) :: runes s3
                     else Bad :: runes s1
                 | 4%nat, String c (String d s4) =>
                     if cont c && cont d then
                       Rune (String a (String b (String c (String d EmptyString)))) :: runes s4
                     else Bad :: runes s1
                 | _, _ => Bad :: runes s1
                 end
               else Bad :: runes s1
           | _, _ => Bad :: runes s1
           end
  end.
Definition ValidString (s : string) : bool := forallb (fun r => bool_decide (r <> Bad)) (runes s).

(** [WriteRune]: what a rune read from a string is written back as. *)
Definition rune_error : string :=
  String (byte 239) (String (byte 191) (String (byte 189) EmptyString)).
Definition write_rune (r : rune) : string :=
  match r with Rune c => c | Bad => rune_error end.
Definition concat_all (ws : list string) : string := foldr String.append EmptyString ws.

(** *** Numbers in text *)

Definition itoa (z : Z) : string := pretty z.
Definition is_digit (a : ascii) : bool := in_range 48 57 a.
Definition digit_z (a : ascii) : Z := Z.of_nat (nat_of_ascii a) - 48.
Fixpoint digits_z (acc : Z) (s : string) : option Z :=
  match s with
  | EmptyString => Some acc
  | String a s => if is_digit a then digits_z (10 * acc + digit_z a) s else None
  end.
(** [strconv.Atoi]: an optional sign, one digit or more, the value within int64. *)
Definition Atoi (s : string) : option Z :=
  let '(neg, body) := match s with
                      | String a r => if ascii_dec a "-"%char then (true, r)
                                      else if ascii_dec a "+"%char then (false, r) else (false, s)
                      | EmptyString => (false, s)
                      end in
  match body with
  | EmptyString => None
  | _ => z ← digits_z 0 body;
         let z := if neg then (- z)%Z else z in
         if (- 2 ^ 63 <=? z)%Z && (z <=? 2 ^ 63 - 1)%Z then Some z else None
  end.

(** [strings.Trim] with a set of ASCII bytes. *)
Fixpoint trim_left_set (f : ascii -> bool) (s : string) : string :=
  match s with
  | String a r => if f a then trim_left_set f r else s
  | EmptyString => EmptyString
  end.
Definition Trim (f : ascii -> bool) (s : string) : string :=
  srev (trim_left_set f (srev (trim_left_set f s))).

(** [len(s) > n ? s[:n] : s]. *)
Fixpoint take_bytes (n : nat) (s : string) : string :=
  match n, s with
  | S n, String a s => String a (take_bytes n s)
  | _, _ => EmptyString
  end.

Fixpoint drop_bytes (n : nat) (s : string) : string :=
  match n, s with
  | S n, String _ r => drop_bytes n r
  | _, _ => s
  end.

Definition cr : ascii := byte 13.
Definition lf : ascii := byte 10.
Definition crlf : string := String cr (String lf EmptyString).
Definition quote : string := String (byte 34) EmptyString.

(** ** Bytes that every operation keeps

    Each operation that cuts or joins strings gives back bytes it was given, so a
    property of every byte survives it. *)

Section Sforall.
Context (f : ascii -> bool).

Lemma sforall_app s t : sforall f (s +:+ t) = sforall f s && sforall f t.
Proof. induction s as [|a s IH]; [done|].
  change (String a s +:+ t) with (String a (s +:+ t)). simpl. by rewrite IH, andb_assoc. Qed.

Lemma sforall_srev_app s acc : sforall f (srev_app s acc) = sforall f s && sforall f acc.
Proof.
  revert acc. induction s as [|a s IH]; intros acc; [done|]. simpl. rewrite IH. simpl.
  destruct (f a), (sforall f s); done.
Qed.
Lemma sforall_srev s : sforall f (srev s) = sforall f s.
Proof. unfold srev. rewrite sforall_srev_app. apply andb_true_r. Qed.

Lemma cut_prefix_app p r : cut_prefix p (p +:+ r) = Some r.
Proof.
  induction p as [|a p IH]; [done|]. change (String a p +:+ r) with (String a (p +:+ r)). simpl.
  by destruct (ascii_dec a a).
Qed.
Lemma cut_prefix_spec p s r : cut_prefix p s = Some r -> s = p +:+ r.
Proof.
  revert s. induction p as [|a p IH]; intros s; simpl; [by intros [= ->]|].
  destruct s as [|b s]; [done|]. destruct (ascii_dec a b) as [->|]; [|done].
  intros E. by rewrite (IH _ E).
Qed.
Lemma sforall_cut_prefix p s r :
  cut_prefix p s = Some r -> sforall f s = true -> sforall f r = true.
Proof.
  revert s. induction p as [|a p IH]; intros [|b s]; simpl; intros H Hs; simplify_eq; try done.
  destruct (ascii_dec a b); [|done]. apply andb_true_iff in Hs as [_ Hs]. by apply (IH s).
Qed.

Lemma sforall_Cut s sep b r :
  Cut s sep = Some (b, r) -> sforall f s = true -> sforall f b = true /\ sforall f r = true.
Proof.
  revert b. induction s as [|a s IH]; intros b H Hs; simpl in H.
  - destruct (cut_prefix sep _) eqn:E; [|done]. simplify_eq. split; [done|].
    by eapply sforall_cut_prefix.
  - destruct (cut_prefix sep _) eqn:E.
    + simplify_eq. split; [done|]. by eapply sforall_cut_prefix.
    + destruct (Cut s sep) as [[b' r']|]; [|done]. simplify_eq.
      apply andb_true_iff in Hs as [Ha Hs]. destruct (IH _ eq_refl Hs). simpl. by rewrite Ha.
Qed.

Lemma sforall_Join ws sep :
  (forall w, w ∈ ws -> sforall f w = true) -> sforall f sep = true ->
  sforall f (Join ws sep) = true.
Proof.
  intros H Hs. induction ws as [|w ws IH]; [done|].
  assert (sforall f (Join ws sep) = true) as IH' by (apply IH; intros; apply H; by right).
  assert (sforall f w = true) as Hw by (apply H; by left).
  destruct ws as [|w' ws]; [done|]. change (sforall f (w +:+ sep +:+ Join (w' :: ws) sep) = true).
  by rewrite !sforall_app, Hw, Hs, IH'.
Qed.

Lemma sforall_push a ws :
  f a = true -> Forall (fun w => sforall f w = true) ws ->
  Forall (fun w => sforall f w = true) (push a ws).
Proof. intros Ha H. destruct H; simpl; repeat constructor; simpl; by rewrite ?Ha. Qed.

Lemma sforall_split_space s :
  sforall f s = true -> Forall (fun w => sforall f w = true) (split_space s).
Proof.
  remember (String.length s) as n eqn:Hn. revert s Hn.
  induction n as [n IH] using (well_founded_induction lt_wf). intros s -> Hs.
  destruct s as [|a s1]; [by repeat constructor|]. simpl in Hs.
  apply andb_true_iff in Hs as [Ha Hs].
  assert (forall t, (String.length t < String.length (String a s1))%nat -> sforall f t = true ->
            Forall (fun w => sforall f w = true) (split_space t)) as Hrec
    by (intros; by eapply IH).
  clear IH. simpl.
  assert (Forall (fun w => sforall f w = true) (split_space s1)) as H1
    by (apply Hrec; simpl; [lia|done]).
  destruct (space1 a); [by constructor|].
  destruct s1 as [|b s2]; [by apply sforall_push|]. simpl in Hs.
  apply andb_true_iff in Hs as [Hb Hs].
  destruct (space2 a b); [constructor; [done|]; apply Hrec; simpl; [lia|done]|].
  destruct s2 as [|c s3]; [by apply sforall_push|]. simpl in Hs.
  apply andb_true_iff in Hs as [Hc Hs].
  destruct (space3 a b c); [constructor; [done|]; apply Hrec; simpl; [lia|done]|].
  by apply sforall_push.
Qed.

Lemma sforall_Fields s w : sforall f s = true -> w ∈ Fields s -> sforall f w = true.
Proof.
  intros Hs Hw. unfold Fields in Hw. apply list_elem_of_filter in Hw as [_ Hw].
  pose proof (sforall_split_space s Hs) as Hf. rewrite Forall_forall in Hf. by apply Hf.
Qed.

Lemma sforall_concat_all ws :
  Forall (fun w => sforall f w = true) ws -> sforall f (concat_all ws) = true.
Proof. induction 1 as [|w ws Hw _ IH]; [done|]. simpl. by rewrite sforall_app, Hw, IH. Qed.

Lemma sforall_take_bytes n s : sforall f s = true -> sforall f (take_bytes n s) = true.
Proof.
  revert s. induction n as [|n IH]; intros [|a s]; simpl; try done.
  rewrite !andb_true_iff. intros [Ha Hs]. split; [done|by apply IH].
Qed.

Lemma sforall_impl (g : ascii -> bool) s :
  (forall a, f a = true -> g a = true) -> sforall f s = true -> sforall g s = true.
Proof.
  intros H. induction s as [|a s IH]; [done|]. simpl. rewrite !andb_true_iff.
  intros [Ha Hs]. split; [by apply H|by apply IH].
Qed.
End Sforall.

(** A string without the byte [c]. *)
Definition free (c : ascii) (s : string) : bool := sforall (fun b => negb (bool_decide (b = c))) s.

Lemma string_app_cons a s t : String a s +:+ t = String a (s +:+ t).
Proof. reflexivity. Qed.

Lemma cut_byte_app c x y : free c x = true -> cut_byte c (x +:+ String c y) = Some (x, y).
Proof.
  induction x as [|a x IH]; intros Hx.
  - simpl. by destruct (ascii_dec c c).
  - unfold free in *. simpl in Hx. apply andb_true_iff in Hx as [Ha Hx].
    rewrite string_app_cons. simpl. apply negb_true_iff, bool_decide_eq_false in Ha.
    destruct (ascii_dec a c); [done|]. by rewrite IH.
Qed.
Lemma cut_last_free c y : free c y = true -> cut_last c y = None.
Proof.
  induction y as [|a y IH]; intros Hy; [done|]. unfold free in *. simpl in Hy.
  apply andb_true_iff in Hy as [Ha Hy]. apply negb_true_iff, bool_decide_eq_false in Ha.
  simpl. rewrite IH by done. by destruct (ascii_dec a c).
Qed.
Lemma cut_last_app c x y : free c y = true -> cut_last c (x +:+ String c y) = Some (x, y).
Proof.
  intros Hy. induction x as [|a x IH]; [|rewrite string_app_cons; simpl; by rewrite IH].
  simpl. rewrite cut_last_free by done. by destruct (ascii_dec c c).
Qed.
Lemma cut_last_Some c s x y : cut_last c s = Some (x, y) -> s = x +:+ String c y.
Proof.
  revert x. induction s as [|a s IH]; intros x; simpl; [done|].
  destruct (cut_last c s) as [[b r]|].
  - intros [= <- <-]. rewrite string_app_cons. f_equal. by apply IH.
  - destruct (ascii_dec a c) as [->|]; [|done]. by intros [= <- <-].
Qed.
Lemma take_bytes_app x y : take_bytes (String.length x) (x +:+ y) = x.
Proof. induction x as [|a x IH]; [by destruct y|]. rewrite string_app_cons. simpl. by rewrite IH. Qed.
Lemma drop_bytes_app x y : drop_bytes (String.length x) (x +:+ y) = y.
Proof. induction x as [|a x IH]; [done|]. apply IH. Qed.
Lemma length_app_string x y : String.length (x +:+ y) = (String.length x + String.length y)%nat.
Proof. induction x as [|a x IH]; [done|]. rewrite string_app_cons. simpl. by rewrite IH. Qed.
Lemma app_string_assoc x y z : (x +:+ y) +:+ z = x +:+ (y +:+ z).
Proof. induction x as [|a x IH]; [done|]. rewrite !string_app_cons. by rewrite IH. Qed.

Lemma srev_app_acc s acc : srev_app s acc = srev s +:+ acc.
Proof.
  unfold srev. revert acc. induction s as [|a s IH]; intros acc; [done|]. simpl.
  rewrite IH, (IH (String a "")), app_string_assoc. done.
Qed.
Lemma srev_cons a s : srev (String a s) = srev s +:+ String a "".
Proof. unfold srev at 1. simpl. apply srev_app_acc. Qed.
Lemma app_string_nil s : s +:+ "" = s.
Proof. induction s as [|a s IH]; [done|]. rewrite string_app_cons. by rewrite IH. Qed.
Lemma srev_app_string s t : srev (s +:+ t) = srev t +:+ srev s.
Proof.
  induction s as [|a s IH]; [by rewrite app_string_nil|].
  by rewrite string_app_cons, !srev_cons, IH, app_string_assoc.
Qed.

Lemma digits_pretty_N_go n s :
  sforall is_digit s = true -> sforall is_digit (pretty_N_go n s) = true.
Proof.
  revert s. induction n as [n IH] using (well_founded_induction N.lt_wf_0). intros s Hs.
  destruct (decide (0 < n)%N) as [Hn|Hn].
  - rewrite pretty_N_go_step by done. apply IH; [by apply N.div_lt|]. simpl. rewrite Hs, andb_true_r.
    assert (n `mod` 10 < 10)%N as Hm by (by apply N.mod_lt).
    set (m := (n `mod` 10)%N) in *. clearbody m. clear -Hm.
    unfold pretty_N_char. assert (m = 0 \/ m = 1 \/ m = 2 \/ m = 3 \/ m = 4 \/ m = 5 \/ m = 6
      \/ m = 7 \/ m = 8 \/ m = 9)%N as Hc by lia.
    by destruct Hc as [->|[->|[->|[->|[->|[->|[->|[->|[->| ->]]]]]]]]].
  - replace n with 0%N by lia. by rewrite pretty_N_go_0.
Qed.

(** A number is printed with digits and a sign. *)
Definition number_byte (a : ascii) : bool := is_digit a || bool_decide (a = "-"%char).
Lemma sforall_itoa z : sforall number_byte (itoa z) = true.
Proof.
  assert (forall n : N, sforall number_byte (pretty n) = true) as HN.
  { intros n. unfold pretty, pretty_N. destruct (decide (n = 0)%N); [done|].
    apply (sforall_impl is_digit); [|by apply digits_pretty_N_go].
    intros a Ha. unfold number_byte. by rewrite Ha. }
  unfold itoa. destruct z as [|p|p]; [done|apply (HN (Npos p))|]. apply (HN (Npos p)).
Qed.

Lemma lower_byte_ascii a : is_ascii_byte (lower_byte a) = is_ascii_byte a.
Proof. by destruct a as [[] [] [] [] [] [] [] []]. Qed.
Lemma lower_byte_idem a : lower_byte (lower_byte a) = lower_byte a.
Proof. by destruct a as [[] [] [] [] [] [] [] []]. Qed.
Lemma smap_lower_ascii s : is_ascii (smap lower_byte s) = is_ascii s.
Proof. unfold is_ascii. induction s; [done|]. simpl. by rewrite lower_byte_ascii, IHs. Qed.
Lemma smap_lower_idem s : smap lower_byte (smap lower_byte s) = smap lower_byte s.
Proof. induction s; [done|]. simpl. by rewrite lower_byte_idem, IHs. Qed.


(** ** Splitting *)

Lemma split_byte_some c s : split_byte c s <> [].
Proof. destruct s as [|a s]; simpl; [done|]. destruct (ascii_dec a c); [done|]. by destruct (split_byte c s). Qed.
Lemma split_byte_app c x y : free c x = true -> split_byte c (x +:+ String c y) = x :: split_byte c y.
Proof.
  induction x as [|a x IH]; intros F; [simpl; by destruct (ascii_dec c c)|].
  unfold free in F. simpl in F. apply andb_prop in F as [A F]. apply negb_true_iff, bool_decide_eq_false in A.
  rewrite string_app_cons. simpl. destruct (ascii_dec a c); [done|]. by rewrite IH.
Qed.
Lemma split_byte_free c x : free c x = true -> split_byte c x = [x].
Proof.
  induction x as [|a x IH]; intros F; [done|].
  unfold free in F. simpl in F. apply andb_prop in F as [A F]. apply negb_true_iff, bool_decide_eq_false in A.
  simpl. destruct (ascii_dec a c); [done|]. by rewrite IH.
Qed.
Lemma cut_byte_Some c s x y : cut_byte c s = Some (x, y) -> s = x +:+ String c y /\ free c x = true.
Proof.
  revert x. induction s as [|a s IH]; intros x; simpl; [done|]. destruct (ascii_dec a c) as [->|N]; [by intros [= <- <-]|].
  destruct (cut_byte c s) as [[b r]|]; [|done]. intros [= <- <-]. destruct (IH b eq_refl) as [-> F].
  split; [done|]. unfold free in *. simpl. by rewrite bool_decide_eq_false_2.
Qed.
Lemma cut_byte_None c s : cut_byte c s = None -> free c s = true.
Proof.
  unfold free. induction s as [|a s IH]; simpl; [done|]. destruct (ascii_dec a c) as [->|N]; [done|].
  destruct (cut_byte c s) as [[b r]|]; [done|]. intros _. rewrite bool_decide_eq_false_2 by done. by apply IH.
Qed.
End GoStrings.

(** Sanity checks against the documented behaviour of the Go functions. *)
Section Examples.
Import GoStrings.
Example split_ex : split_byte "."%char "a.b..c" = ["a"; "b"; ""; "c"].
Proof. reflexivity. Qed.
Example splitn_ex : splitn_byte "="%char "h=t=d=l=m" 4 = ["h"; "t"; "d"; "l=m"].
Proof. reflexivity. Qed.
Example cut_ex : Cut "a--b--c" "--" = Some ("a", "b--c").
Proof. reflexivity. Qed.
Example cut_last_ex : cut_last "@"%char "a@b@c" = Some ("a@b", "c").
Proof. reflexivity. Qed.
Example trim_ex : TrimSpace "  a b " = "a b".
Proof. reflexivity. Qed.
Example fields_ex : Fields "  a  bc d " = ["a"; "bc"; "d"].
Proof. reflexivity. Qed.
Example trim_suffix_ex : TrimSuffix "mx.test." "." = "mx.test".
Proof. reflexivity. Qed.
Example runes_ex : runes (String (byte 195) (String (byte 169) (String (byte 255) "a"))) =
  [Rune (String (byte 195) (String (byte 169) "")); Bad; Rune "a"].
Proof. reflexivity. Qed.
Example atoi_ex : (Atoi "-042", Atoi "+7", Atoi "", Atoi "1_0", Atoi "9223372036854775808")
  = (Some (-42), Some 7, None, None, None).
Proof. reflexivity. Qed.
Example itoa_ex : (itoa 0, itoa (-120), itoa 451) = ("0", "-120", "451").
Proof. vm_compute. reflexivity. Qed.
Example trim_digits_ex : Trim is_digit "12a45" = "a".
Proof. reflexivity. Qed.
Example join_ex : Join ["a"; "b"; "c"] ", " = "a, b, c".
Proof. reflexivity. Qed.
End Examples.
