(* ===== verification/GoDate.v ===== *)
(** * Dates as text: [time.Time.Format]

    The layouts the code uses, for a time in a zone [offset] seconds east of UTC. The
    civil date is counted from 1 March of year 0 in 400-year eras. *)

From S2P Require Import Prelude GoTime GoStrings.
From Stdlib Require Import Ascii.
Import GoTime GoStrings.
Local Open Scope Z_scope.

Module GoDate.
(** Whole seconds and days since 1 January of year 1. *)
Definition seconds (t : Time) (offset : Z) : Z := t / Second + offset.
Definition days (s : Z) : Z := s / 86400.

Record date := { year : Z; month : Z; mday : Z }.
Definition civil (d : Z) : date :=
  let z := d + 306 in
  let era := z / 146097 in
  let doe := z mod 146097 in
  let yoe := (doe - doe / 1460 + doe / 36524 - doe / 146096) / 365 in
  let doy := doe - (365 * yoe + yoe / 4 - yoe / 100) in
  let mp := (5 * doy + 2) / 153 in
  let m := if mp <? 10 then mp + 3 else mp - 9 in
  {| year := yoe + era * 400 + (if m <=? 2 then 1 else 0);
     month := m; mday := doy - (153 * mp + 2) / 5 + 1 |}.

Definition nth_str (l : list string) (n : Z) : string := nth (Z.to_nat n) l "".
Definition weekdays := ["Mon"; "Tue"; "Wed"; "Thu"; "Fri"; "Sat"; "Sun"].
Definition months := ["Jan"; "Feb"; "Mar"; "Apr"; "May"; "Jun"; "Jul"; "Aug"; "Sep"; "Oct"; "Nov"; "Dec"].
Definition long_months := ["January"; "February"; "March"; "April"; "May"; "June"; "July"; "August";
  "September"; "October"; "November"; "December"].

Definition pad (width : nat) (n : Z) : string :=
  let s := itoa n in concat_all (replicate (width - String.length s) "0") +:+ s.

Definition clock_text (s : Z) (with_seconds : bool) : string :=
  let r := s mod 86400 in
  pad 2 (r / 3600) +:+ ":" +:+ pad 2 (r / 60 mod 60)
  +:+ (if with_seconds then ":" +:+ pad 2 (r mod 60) else "").

Definition zone_text (offset : Z) : string :=
  (if offset <? 0 then "-" else "+") +:+ pad 2 (Z.abs offset / 3600) +:+ pad 2 (Z.abs offset / 60 mod 60).

(** "Mon, 02 Jan 2006 15:04:05 -0700" *)
Definition RFC1123Z (t : Time) (offset : Z) : string :=
  let s := seconds t offset in
  let d := civil (days s) in
  nth_str weekdays (days s mod 7) +:+ ", " +:+ pad 2 (mday d) +:+ " " +:+ nth_str months (month d - 1)
  +:+ " " +:+ pad 4 (year d) +:+ " " +:+ clock_text s true +:+ " " +:+ zone_text offset.

(** "2006-01-02", in UTC. *)
Definition ISODate (t : Time) : string :=
  let d := civil (days (seconds t 0)) in
  pad 4 (year d) +:+ "-" +:+ pad 2 (month d) +:+ "-" +:+ pad 2 (mday d).

(** "2 January 2006 15:04 MST", in UTC. *)
Definition LongUTC (t : Time) : string :=
  let s := seconds t 0 in
  let d := civil (days s) in
  itoa (mday d) +:+ " " +:+ nth_str long_months (month d - 1) +:+ " " +:+ pad 4 (year d) +:+ " "
  +:+ clock_text s false +:+ " UTC".

Definition at_unix (s : Z) : Time := (s + unix_epoch) * Second.
Example go_layout : RFC1123Z (at_unix 1136239445) (-25200) = "Mon, 02 Jan 2006 15:04:05 -0700".
Proof. vm_compute. reflexivity. Qed.
Example leap_day : ISODate (at_unix 951782400) = "2000-02-29".
Proof. vm_compute. reflexivity. Qed.
Example new_year : LongUTC (at_unix 1767225599) = "31 December 2025 23:59 UTC".
Proof. vm_compute. reflexivity. Qed.

(** Every byte of a formatted time is printable: no control character. *)
Definition printable (a : ascii) : bool := in_range 32 126 a.
Lemma printable_itoa z : sforall printable (itoa z) = true.
Proof.
  apply (sforall_impl number_byte); [|apply sforall_itoa].
  intros a. by destruct a as [[] [] [] [] [] [] [] []].
Qed.
Lemma printable_pad w n : sforall printable (pad w n) = true.
Proof.
  unfold pad. rewrite sforall_app, printable_itoa, andb_true_r.
  apply sforall_concat_all. apply Forall_forall. intros x Hx.
  apply list_elem_of_In, repeat_spec in Hx || apply elem_of_replicate in Hx as [-> _]; by subst.
Qed.
Lemma printable_nth l n : forallb (sforall printable) l = true -> sforall printable (nth_str l n) = true.
Proof.
  intros H. unfold nth_str. destruct (nth_in_or_default (Z.to_nat n) l "") as [Hin| ->]; [|done].
  rewrite forallb_forall in H. by apply H.
Qed.
Lemma printable_RFC1123Z t offset : sforall printable (RFC1123Z t offset) = true.
Proof.
  unfold RFC1123Z, clock_text, zone_text.
  rewrite !sforall_app, !printable_pad, !printable_nth by done. by destruct (offset <? 0).
Qed.
End GoDate.
