(* ===== verification/GoNet.v ===== *)
(** * Go's [net.IP] and the outbound SSRF guard

    [GoNet] models [net.ParseIP] (through [netip.ParseAddr]), [net.SplitHostPort] and the
    address classes of [net.IP]; [SSRF] models internal/gateway/queue/ssrf.go, the hook
    every outbound connection is made through. *)

From S2P Require Import Prelude GoStrings.
From Stdlib Require Import Ascii.
Import GoStrings.
Local Open Scope Z_scope.

Module GoNet.
(** A parsed address: its 16 bytes, an IPv4 address mapped as [::ffff:a.b.c.d]. *)
Definition IP := list Z.

Definition v4in6 : list Z := [0;0;0;0; 0;0;0;0; 0;0;255;255].
Definition IPv6unspecified : IP := replicate 16 0.
Definition IPv6loopback : IP := replicate 15 0 ++ [1].
Definition IPv4zero : IP := v4in6 ++ [0;0;0;0].

Definition octet (s : string) : option Z :=
  match s with
  | EmptyString => None
  | String a EmptyString => digits_z 0 s
  | String a _ =>
      if ascii_dec a "0"%char then None
      else v ← (if (3 <? String.length s)%nat then None else digits_z 0 s);
           if 255 <? v then None else Some v
  end.
Definition parseIPv4 (s : string) : option (list Z) :=
  let fs := split_byte "."%char s in
  if (List.length fs =? 4)%nat then mapM octet fs else None.

Definition hex_val (a : ascii) : option Z :=
  let n := Z.of_nat (nat_of_ascii a) in
  if (48 <=? n) && (n <=? 57) then Some (n - 48)
  else if (97 <=? n) && (n <=? 102) then Some (n - 87)
  else if (65 <=? n) && (n <=? 70) then Some (n - 55)
  else None.
(** The hex digits a field starts with: their value, how many, and the rest. *)
Fixpoint hex_run (acc : Z) (k : nat) (s : string) : Z * nat * string :=
  match s with
  | String a r => match hex_val a with
                  | Some v => hex_run (16 * acc + v) (S k) r
                  | None => (acc, k, s)
                  end
  | EmptyString => (acc, k, s)
  end.

(** The loop over the fields: the bytes so far, where "::" was, and the rest. A turn
    adds two bytes, so eight turns fill the address. *)
Fixpoint ipv6_fields (fuel : nat) (bs : list Z) (ellipsis : option nat) (s : string)
  : option (list Z * option nat * string) :=
  match fuel with
  | O => Some (bs, ellipsis, s)
  | S fuel =>
      let '(acc, off, rest) := hex_run 0 0 s in
      if (4 <? off)%nat then None
      else if (off =? 0)%nat then None
      else match rest with
           | String "."%char _ =>
               if (match ellipsis with None => negb (List.length bs =? 12)%nat | Some _ => false end)
                  || (16 <? List.length bs + 4)%nat then None
               else v4 ← parseIPv4 s; Some (bs ++ v4, ellipsis, EmptyString)
           | EmptyString => Some (bs ++ [acc / 256; acc mod 256], ellipsis, EmptyString)
           | String c r =>
               let bs := bs ++ [acc / 256; acc mod 256] in
               if ascii_dec c ":"%char then
                 match r with
                 | EmptyString => None
                 | String ":"%char r2 =>
                     match ellipsis with
                     | Some _ => None
                     | None => match r2 with
                               | EmptyString => Some (bs, Some (List.length bs), EmptyString)
                               | _ => ipv6_fields fuel bs (Some (List.length bs)) r2
                               end
                     end
                 | _ => ipv6_fields fuel bs ellipsis r
                 end
               else None
           end
  end.
Definition parseIPv6 (s : string) : option IP :=
  let '(ellipsis, body) := match s with
                           | String ":"%char (String ":"%char r) => (Some 0%nat, r)
                           | _ => (None, s)
                           end in
  if bool_decide (ellipsis = Some 0%nat /\ body = EmptyString) then Some IPv6unspecified
  else '(bs, e, rest) ← ipv6_fields 8 [] ellipsis body;
       if bool_decide (rest = EmptyString) then
         if (List.length bs <? 16)%nat then
           k ← e; Some (take k bs ++ replicate (16 - List.length bs) 0 ++ drop k bs)
         else match e with Some _ => None | None => Some bs end
       else None.

(** The first of '.', ':' and '%' decides the family; a zone is never accepted. *)
Fixpoint first_mark (s : string) : option ascii :=
  match s with
  | EmptyString => None
  | String a r => if ascii_dec a "."%char then Some a
                  else if ascii_dec a ":"%char then Some a
                  else if ascii_dec a "%"%char then Some a else first_mark r
  end.
Definition ParseIP (s : string) : option IP :=
  match first_mark s with
  | Some "."%char => bs ← parseIPv4 s; Some (v4in6 ++ bs)
  | Some ":"%char => if contains_byte "%"%char s then None else parseIPv6 s
  | _ => None
  end.

Definition To4 (ip : IP) : option (list Z) :=
  if (List.length ip =? 4)%nat then Some ip
  else if (List.length ip =? 16)%nat && bool_decide (take 12 ip = v4in6) then Some (drop 12 ip)
  else None.
Definition byte_at (ip : list Z) (i : nat) : Z := nth i ip 0.

Definition IsLoopback (ip : IP) : bool :=
  match To4 ip with
  | Some ip4 => byte_at ip4 0 =? 127
  | None => bool_decide (ip = IPv6loopback)
  end.
Definition IsLinkLocalUnicast (ip : IP) : bool :=
  match To4 ip with
  | Some ip4 => (byte_at ip4 0 =? 169) && (byte_at ip4 1 =? 254)
  | None => (List.length ip =? 16)%nat && (byte_at ip 0 =? 254) && (Z.land (byte_at ip 1) 192 =? 128)
  end.
Definition IsLinkLocalMulticast (ip : IP) : bool :=
  match To4 ip with
  | Some ip4 => (byte_at ip4 0 =? 224) && (byte_at ip4 1 =? 0) && (byte_at ip4 2 =? 0)
  | None => (List.length ip =? 16)%nat && (byte_at ip 0 =? 255) && (Z.land (byte_at ip 1) 15 =? 2)
  end.
Definition IsPrivate (ip : IP) : bool :=
  match To4 ip with
  | Some ip4 => (byte_at ip4 0 =? 10)
                || (byte_at ip4 0 =? 172) && (Z.land (byte_at ip4 1) 240 =? 16)
                || (byte_at ip4 0 =? 192) && (byte_at ip4 1 =? 168)
  | None => (List.length ip =? 16)%nat && (Z.land (byte_at ip 0) 254 =? 252)
  end.
Definition IsUnspecified (ip : IP) : bool :=
  bool_decide (To4 ip = Some [0;0;0;0]) || bool_decide (ip = IPv6unspecified).

(** [net.SplitHostPort]. *)
Definition SplitHostPort (hostport : string) : option (string * string) :=
  match cut_last ":"%char hostport with
  | None => None
  | Some (before, port) =>
      match hostport with
      | String "["%char inner =>
          match cut_byte "]"%char inner with
          | None => None
          | Some (host, after) =>
              if bool_decide (after = String ":"%char port) then
                if contains_byte "["%char inner || contains_byte "]"%char after then None
                else Some (host, port)
              else None
          end
      | _ => if contains_byte ":"%char before then None
             else if contains_byte "["%char hostport || contains_byte "]"%char hostport then None
             else Some (before, port)
      end
  end.

Example ip4_ex : ParseIP "169.254.169.254" = Some (v4in6 ++ [169;254;169;254]).
Proof. reflexivity. Qed.
Example ip4_bad_ex : (ParseIP "01.2.3.4", ParseIP "1.2.3.256", ParseIP "1.2.3") = (None, None, None).
Proof. reflexivity. Qed.
Example ip6_ex : ParseIP "fe80::1" = Some ([254;128] ++ replicate 13 0 ++ [1]).
Proof. reflexivity. Qed.
Example ip6_mapped_ex : ParseIP "::ffff:10.0.0.1" = Some (v4in6 ++ [10;0;0;1]).
Proof. reflexivity. Qed.
Example ip6_bad_ex : (ParseIP "1::2::3", ParseIP "fe80::1%eth0", ParseIP "1:2:3:4:5:6:7::8", ParseIP "12345::")
  = (None, None, None, None).
Proof. reflexivity. Qed.
Example ip6_full_ex : ParseIP "1:2:3:4:5:6:7:8" = Some [0;1;0;2;0;3;0;4;0;5;0;6;0;7;0;8].
Proof. reflexivity. Qed.
Example split_ex6 : SplitHostPort "[::1]:25" = Some ("::1", "25").
Proof. reflexivity. Qed.
Example split_ex4 : SplitHostPort "10.0.0.1:25" = Some ("10.0.0.1", "25").
Proof. reflexivity. Qed.
Example split_bad_ex : (SplitHostPort "::1:25", SplitHostPort "host") = (None, None).
Proof. reflexivity. Qed.
End GoNet.

(** ** internal/gateway/queue/ssrf.go *)
Module SSRF.
Import GoNet.

Definition blockedOutboundIP (ip : IP) : bool :=
  IsLoopback ip || IsLinkLocalUnicast ip || IsLinkLocalMulticast ip || IsPrivate ip
  || IsUnspecified ip.

Inductive dial_error := BadDialAddress | NonIPAddress | NonPublicAddress.

(** The dialer's Control hook: it is given the concrete address about to be dialed. *)
Definition outboundDialControl (allowPrivate : bool) (address : string) : result dial_error unit :=
  if allowPrivate then Ok tt
  else match SplitHostPort address with
       | None => Err BadDialAddress
       | Some (host, _) =>
           match ParseIP host with
           | None => Err NonIPAddress
           | Some ip => if blockedOutboundIP ip then Err NonPublicAddress else Ok tt
           end
       end.

(** ** The ranges in CIDR notation *)

(** The number an address is, and a block [base/len] of [w]-bit addresses. *)
Definition num (bs : list Z) : Z := fold_left (fun n b => 256 * n + b) bs 0.
Record cidr := { base : list Z; len : Z }.
Definition width (c : cidr) : Z := 8 * Z.of_nat (List.length (base c)).
Definition inside (c : cidr) (bs : list Z) : bool :=
  num bs / 2 ^ (width c - len c) =? num (base c) / 2 ^ (width c - len c).

Definition blocked4 : list cidr := [
  {| base := [127;0;0;0]; len := 8 |};
  {| base := [169;254;0;0]; len := 16 |};
  {| base := [224;0;0;0]; len := 24 |};
  {| base := [10;0;0;0]; len := 8 |};
  {| base := [172;16;0;0]; len := 12 |};
  {| base := [192;168;0;0]; len := 16 |};
  {| base := [0;0;0;0]; len := 32 |} ].

Definition is_byte (b : Z) : Prop := 0 <= b < 256.

(** A test of one byte against a mask is a test of its range: all 256 are tried. *)
Lemma byte_cases (P : Z -> bool) b :
  is_byte b -> forallb P (seqZ 0 256) = true -> P b = true.
Proof.
  intros Hb H. rewrite forallb_elem in H. apply H. apply elem_of_seqZ. unfold is_byte in Hb. lia.
Qed.
Lemma mask_240 b : is_byte b -> (Z.land b 240 =? 16) = (b / 16 =? 1).
Proof.
  intros Hb. apply Bool.eqb_prop.
  apply (byte_cases (fun b => Bool.eqb (Z.land b 240 =? 16) (b / 16 =? 1)) b Hb). reflexivity.
Qed.

Lemma div_byte n b k : is_byte b -> 0 <= n -> 8 <= k -> (256 * n + b) / 2 ^ k = n / 2 ^ (k - 8).
Proof.
  intros Hb Hn Hk. replace (2 ^ k) with (256 * 2 ^ (k - 8)).
  - rewrite <- Z.div_div by (try lia; apply Z.pow_pos_nonneg; lia). f_equal.
    unfold is_byte in Hb. rewrite Z.mul_comm, Z.div_add_l by lia.
    rewrite Z.div_small; lia.
  - change 256 with (2 ^ 8). rewrite <- Z.pow_add_r by lia. f_equal. lia.
Qed.

Section V4.
Context (a b c d : Z) (Ha : is_byte a) (Hb : is_byte b) (Hc : is_byte c) (Hd : is_byte d).

Definition quad : list Z := [a; b; c; d].
Lemma num_quad : num quad = 256 * (256 * (256 * a + b) + c) + d.
Proof. unfold num, quad. cbn [fold_left]. lia. Qed.

(** The leading octets of an address. *)
Lemma quad_8 : num quad / 2 ^ 24 = a.
Proof.
  unfold is_byte in *. rewrite num_quad.
  rewrite !div_byte by (unfold is_byte; lia). simpl. apply Z.div_1_r.
Qed.
Lemma quad_16 : num quad / 2 ^ 16 = 256 * a + b.
Proof.
  unfold is_byte in *. rewrite num_quad.
  rewrite !div_byte by (unfold is_byte; lia). simpl. apply Z.div_1_r.
Qed.
Lemma quad_24 : num quad / 2 ^ 8 = 256 * (256 * a + b) + c.
Proof.
  unfold is_byte in *. rewrite num_quad.
  rewrite !div_byte by (unfold is_byte; lia). simpl. apply Z.div_1_r.
Qed.
Lemma quad_12 : num quad / 2 ^ 20 = 16 * a + b / 16.
Proof.
  unfold is_byte in *. rewrite num_quad.
  rewrite !div_byte by (unfold is_byte; lia).
  change (2 ^ (20 - 8 - 8)) with 16. replace (256 * a + b) with (16 * a * 16 + b) by lia.
  rewrite Z.div_add_l by lia. done.
Qed.
End V4.

Lemma To4_mapped a b c d : To4 (v4in6 ++ quad a b c d) = Some (quad a b c d).
Proof. reflexivity. Qed.
Lemma unspecified_mapped a b c d :
  IsUnspecified (v4in6 ++ quad a b c d) = true <-> a = 0 /\ b = 0 /\ c = 0 /\ d = 0.
Proof.
  unfold IsUnspecified. rewrite To4_mapped, orb_true_iff, !bool_decide_eq_true. unfold quad.
  split; [by intros [[=]|[=]]|]. intros (-> & -> & -> & ->). by left.
Qed.

(** the SSRF guard blocks an IPv4 destination exactly when it lies in one of the
    blocks 127.0.0.0/8, 169.254.0.0/16, 224.0.0.0/24, 10.0.0.0/8, 172.16.0.0/12,
    192.168.0.0/16 or is 0.0.0.0, whatever the port and however the address is written
    in dotted or IPv4-mapped form. *)
Theorem blocked_ipv4_exact a b c d :
  is_byte a -> is_byte b -> is_byte c -> is_byte d ->
  blockedOutboundIP (v4in6 ++ quad a b c d) = existsb (fun r => inside r (quad a b c d)) blocked4.
Proof.
  intros Ha Hb Hc Hd. apply Bool.eq_iff_eq_true.
  unfold blockedOutboundIP. rewrite orb_true_iff, unspecified_mapped.
  unfold IsLoopback, IsLinkLocalUnicast, IsLinkLocalMulticast, IsPrivate.
  rewrite To4_mapped. unfold byte_at. cbn [nth quad].
  rewrite mask_240 by done. unfold blocked4, inside, width. cbn [existsb base len List.length].
  change (8 * Z.of_nat 4 - 8) with 24. change (8 * Z.of_nat 4 - 16) with 16.
  change (8 * Z.of_nat 4 - 24) with 8. change (8 * Z.of_nat 4 - 12) with 20.
  change (8 * Z.of_nat 4 - 32) with 0. rewrite !Z.div_1_r.
  rewrite quad_8, quad_16, quad_24, quad_12, num_quad by done.
  unfold num. cbn [fold_left]. unfold is_byte in *.
  assert (0 <= b / 16 < 16) by (split; [apply Z.div_pos; lia|apply Z.div_lt_upper_bound; lia]).
  rewrite !orb_true_iff, !andb_true_iff, !Z.eqb_eq. generalize dependent (b / 16).
  intros q Hq. vm_compute (_ / _ ^ _). lia.
Qed.

Lemma blocked_ipv4_exact_witness :
  blockedOutboundIP (v4in6 ++ quad 172 31 0 9) = true /\
  blockedOutboundIP (v4in6 ++ quad 172 32 0 9) = false.
Proof.
  split; rewrite blocked_ipv4_exact by (unfold is_byte; lia); vm_compute; reflexivity.
Defined.
End SSRF.
