(* ===== verification/MailAddress.v ===== *)
(** * Addresses and header values: internal/mail

    internal/mail/address.go and idn.go: the control-character test, the sanitizer the
    bounce messages rely on, and the ASCII form of a domain or envelope address. The IDNA
    mapping itself (golang.org/x/net/idna) and [net/mail]'s address parser are the
    operations of the class [MailLib]. *)

From S2P Require Import Prelude GoStrings GoNet.
From Stdlib Require Import Ascii.
Import GoStrings GoNet.
Local Open Scope Z_scope.

(** What golang.org/x/net/idna's lookup profile answers, and the address
    [mail.ParseAddress] finds. *)
Class MailLib := {
  idna_ToASCII : string -> option string;
  idna_ToUnicode : string -> option string;
  mail_ParseAddress : string -> option string;
}.

Module MailAddress.
(** A control character: below 0x20, or DEL. *)
Definition is_ctl (a : ascii) : bool :=
  let n := nat_of_ascii a in (n <? 32)%nat || (n =? 127)%nat.
Definition not_ctl (a : ascii) : bool := negb (is_ctl a).
Definition ctl_rune (r : rune) : bool :=
  match r with Rune (String a EmptyString) => is_ctl a | _ => false end.

Definition ContainsControlChar (s : string) : bool := existsb ctl_rune (runes s).

Definition sanitize_rune (r : rune) : string := if ctl_rune r then " " else write_rune r.
Definition SanitizeHeaderValue (s : string) : string :=
  Join (Fields (concat_all (map sanitize_rune (runes s)))) " ".

Section Idn.
Context `{MailLib}.

Definition DomainASCII (domain : string) : option string :=
  if bool_decide (domain = "") || negb (ValidString domain) || ContainsControlChar domain then None
  else let absolute := HasSuffix domain "." in
       ascii ← idna_ToASCII (TrimSuffix domain ".");
       Some (if absolute then ascii +:+ "." else ascii).

Definition DomainUnicode (domain : string) : option string :=
  ascii ← DomainASCII domain; idna_ToUnicode ascii.

Definition SMTPAddressASCII (address : string) : option string :=
  if negb (ValidString address) || ContainsControlChar address then None
  else if bool_decide (address = "") then Some ""
  else match cut_last "@"%char address with
       | None => None
       | Some (local, domain) =>
           if bool_decide (local = "") then None
           else if HasPrefix domain "[" && HasSuffix domain "]" then
             let literal := TrimSuffix (TrimPrefix domain "[") "]" in
             match ParseIP (TrimPrefix literal "IPv6:") with
             | None => None
             | Some _ => Some address
             end
           else ascii ← DomainASCII domain; Some (local +:+ "@" +:+ ascii)
       end.

Definition MXPatternASCII (pattern : string) : option string :=
  let wildcard := HasPrefix pattern "*." in
  ascii ← DomainASCII (TrimPrefix pattern "*.");
  Some (if wildcard then "*." +:+ ascii else ascii).

(** [ValidateAddress] answers no error. *)
Definition ValidateAddress (addr : string) : bool :=
  if negb (ValidString addr) then false
  else if bool_decide (TrimSpace addr = "") then false
  else if ContainsControlChar addr then false
  else match mail_ParseAddress addr with
       | None => false
       | Some parsed => match SMTPAddressASCII parsed with Some _ => true | None => false end
       end.
End Idn.

(** ** Lemmas *)

(** Every byte of a multi-byte sequence is outside ASCII, so a control byte is always a
    rune of its own. *)
Definition high_or_clean (r : rune) : Prop :=
  match r with
  | Rune (String a EmptyString) => is_ascii_byte a = true
  | Rune c => sforall not_ctl c = true
  | Bad => True
  end.

Lemma in_range_not_ctl lo hi a : (128 <= lo)%nat -> in_range lo hi a = true -> not_ctl a = true.
Proof.
  unfold in_range, not_ctl, is_ctl. intros Hlo H. bprop. destruct H as [H1 H2].
  split; lia.
Qed.
Lemma lead_spec a k lo hi : lead a = Some (k, (lo, hi)) -> not_ctl a = true /\ (128 <= lo)%nat.
Proof.
  unfold lead, not_ctl, is_ctl. intros H.
  assert (194 <= nat_of_ascii a /\ 128 <= lo)%nat as [H1 H2].
  { repeat (case_match; simplify_eq); bprop; lia. }
  split; [|done]. bprop. split; lia.
Qed.

Lemma runes_clean s : Forall high_or_clean (runes s).
Proof.
  remember (String.length s) as n eqn:Hn. revert s Hn.
  induction n as [n IH] using (well_founded_induction lt_wf). intros s ->.
  assert (forall t, (String.length t < String.length s)%nat -> Forall high_or_clean (runes t)) as Hrec
    by (intros; by eapply IH). clear IH.
  destruct s as [|a s1]; [constructor|]. simpl.
  destruct (is_ascii_byte a) eqn:Ha; [constructor; [done|apply Hrec; simpl; lia]|].
  assert (Forall high_or_clean (Bad :: runes s1)) as Hbad
    by (constructor; [done|apply Hrec; simpl; lia]).
  destruct (lead a) as [[k [lo hi]]|] eqn:El; [|done].
  apply lead_spec in El as [Hna Hlo].
  destruct s1 as [|b s2]; [done|].
  destruct (in_range lo hi b) eqn:Eb; [|done]. apply in_range_not_ctl in Eb; [|done].
  assert (forall c, cont c = true -> not_ctl c = true) as Hc
    by (intros c; apply in_range_not_ctl; lia).
  destruct k as [|[|[|[|[|k]]]]]; try done.
  - constructor; [simpl; by rewrite Hna, Eb|apply Hrec; simpl; lia].
  - destruct s2 as [|c s3]; [done|]. destruct (cont c) eqn:Ec; [|done].
    constructor; [simpl; by rewrite Hna, Eb, Hc|apply Hrec; simpl; lia].
  - destruct s2 as [|c [|d s4]]; try done. destruct (cont c && cont d) eqn:Ec; [|done].
    apply andb_true_iff in Ec as [Ec Ed].
    constructor; [simpl; by rewrite Hna, Eb, !Hc|apply Hrec; simpl; lia].
Qed.

(** Nothing [SanitizeHeaderValue] returns can end a line or carry a control byte. *)
Lemma sanitize_not_ctl s : sforall not_ctl (SanitizeHeaderValue s) = true.
Proof.
  unfold SanitizeHeaderValue. apply sforall_Join; [|done].
  intros w Hw. eapply sforall_Fields; [|exact Hw].
  apply sforall_concat_all, Forall_map.
  eapply Forall_impl; [apply runes_clean|]. intros [c|] Hr; unfold sanitize_rune; simpl in *.
  - destruct c as [|a [|b c]]; [done| |done].
    simpl. destruct (is_ctl a) eqn:E; [done|]. simpl. unfold not_ctl. by rewrite E.
  - done.
Qed.
End MailAddress.
