(* ===== verification/Classify.v ===== *)
(** * Delivery errors and what they mean: internal/gateway/queue/classify.go

    [Errors] models Go's error values as the delivery path builds them: a chain of
    wrapped errors that [errors.As] and [errors.Is] walk. It holds [SMTPError] with the
    functions of worker.go that read replies. [Failure] models db/models/queue.go's
    [FailureCategory]; [Classify] models classify.go. *)

From S2P Require Import Prelude GoStrings.
From Stdlib Require Import Ascii.
Import GoStrings.
Local Open Scope Z_scope.

(** The texts of go-mtasts' [EnforceError] and [ErrNoPolicy]. *)
Class MtastsText := {
  enforce_error_text : string -> string -> string -> string;
  no_policy_text : string;
}.

Module Errors.
Record SMTPError := {
  Code : Z;
  Enhanced : string;
  Message : string;
  RemoteMTA : string
}.
#[export] Instance SMTPError_eq : EqDecision SMTPError.
Proof. solve_decision. Defined.

(** An error value. [ENet] is any other [net.Error] ([net.OpError], a socket timeout),
    [ECertVerify] is [tls.CertificateVerificationError] and the three before it the
    x509 errors it wraps; [EText] an error with nothing but its text. *)
Inductive error :=
| ESMTP (e : SMTPError)
| EReply (code : Z) (msg : string)                       (* textproto.Error *)
| EDNS (IsNotFound : bool) (text : string)               (* net.DNSError *)
| EEnforce (Domain MXHost Reason : string)               (* mtasts.EnforceError *)
| ENet (timeout : bool) (text : string)
| ENetWrap (timeout : bool) (prefix : string) (inner : error)  (* net.OpError *)
| EEOF | EUnexpectedEOF
| ECanceled | EDeadlineExceeded | EClosed
| EPolicyInvalid (text : string) | EPolicyFetch (prefix : string) (inner : error) | ENoPolicy
| EHostname (text : string) | ECertInvalid (expired : bool) (text : string)
| EUnknownAuthority (text : string)
| ECertVerify (inner : error)
| EDANENoMatch
| ERESTMAILNotHosted
| EText (text : string)
| EWrap (prefix : string) (inner : error).               (* fmt.Errorf("...: %w") *)

#[export] Instance error_eq : EqDecision error.
Proof. solve_decision. Defined.

(** The wrap chain, outermost first. *)
Fixpoint chain (e : error) : list error :=
  e :: match e with
       | ENetWrap _ _ i | EPolicyFetch _ i | ECertVerify i | EWrap _ i => chain i
       | _ => []
       end.
Definition first {B} (f : error -> option B) (e : error) : option B :=
  foldr (fun x r => match f x with Some b => Some b | None => r end) None (chain e).
Definition has (f : error -> bool) (e : error) : bool := existsb f (chain e).
Definition Is (e target : error) : bool := has (fun x => bool_decide (x = target)) e.

Definition as_smtp (e : error) : option SMTPError :=
  first (fun x => match x with ESMTP s => Some s | _ => None end) e.
Definition as_reply (e : error) : option (Z * string) :=
  first (fun x => match x with EReply c m => Some (c, m) | _ => None end) e.
Definition as_dns (e : error) : option bool :=
  first (fun x => match x with EDNS n _ => Some n | _ => None end) e.
Definition is_enforce (e : error) : bool :=
  has (fun x => match x with EEnforce _ _ _ => true | _ => false end) e.
(** The first [net.Error] of the chain, as its [Timeout()]. DNS errors, an expired
    deadline and a closed socket are net errors too. *)
Definition as_net (e : error) : option bool :=
  first (fun x => match x with
                  | ENet t _ | ENetWrap t _ _ => Some t
                  | EDNS _ _ | EClosed => Some false
                  | EDeadlineExceeded => Some true
                  | _ => None
                  end) e.

Definition pad3 (z : Z) : string :=
  let s := itoa z in
  if (String.length s <? 2)%nat then "00" +:+ s else if (String.length s <? 3)%nat then "0" +:+ s else s.

Section Text.
Context `{MtastsText}.

Definition SMTPError_text (e : SMTPError) : string :=
  if bool_decide (Enhanced e <> "")
  then "SMTP " +:+ itoa (Code e) +:+ " " +:+ Enhanced e +:+ ": " +:+ Message e
  else "SMTP " +:+ itoa (Code e) +:+ ": " +:+ Message e.

(** [err.Error()]. *)
Fixpoint Error (e : error) : string :=
  match e with
  | ESMTP s => SMTPError_text s
  | EReply c m => pad3 c +:+ " " +:+ m
  | EDNS _ t | ENet _ t | EPolicyInvalid t | EHostname t | ECertInvalid _ t
  | EUnknownAuthority t | EText t => t
  | EEnforce d h r => enforce_error_text d h r
  | ENetWrap _ p i | EPolicyFetch p i | EWrap p i => p +:+ Error i
  | ECertVerify i => "tls: failed to verify certificate: " +:+ Error i
  | EEOF => "EOF"
  | EUnexpectedEOF => "unexpected EOF"
  | ECanceled => "context canceled"
  | EDeadlineExceeded => "context deadline exceeded"
  | EClosed => "use of closed network connection"
  | ENoPolicy => no_policy_text
  | EDANENoMatch => "dane: no TLSA record matches the server's certificate"
  | ERESTMAILNotHosted => "RESTMAIL discovery: domain not hosted by MX"
  end.
End Text.

(** [isEnhancedStatus]: class.subject.detail, the class 2, 4 or 5. *)
Definition isEnhancedStatus (s : string) : bool :=
  match split_byte "."%char s with
  | [p0; p1; p2] =>
      if negb (String.length p0 =? 1)%nat || negb (ContainsAny p0 ["2"; "4"; "5"]%char) then false
      else forallb (fun p => negb (bool_decide (p = "") || (3 <? String.length p)%nat
                                   || bool_decide (Trim is_digit p <> ""))) [p1; p2]
  | _ => false
  end.

Section Replies.
Context `{MtastsText}.

Definition parseSMTPError (err : error) : SMTPError :=
  match as_reply err with
  | None => {| Code := 0; Enhanced := ""; Message := Error err; RemoteMTA := "" |}
  | Some (code, msg) =>
      let text := TrimSpace msg in
      let '(first, rest) := default (text, "") (Cut text " ") in
      if isEnhancedStatus first
      then {| Code := code; Enhanced := first; Message := rest; RemoteMTA := "" |}
      else {| Code := code; Enhanced := ""; Message := text; RemoteMTA := "" |}
  end.

(** [smtpErrorFrom]: the structured error, or a bare reply read as one. *)
Definition smtpErrorFrom (err : error) : option SMTPError :=
  match as_smtp err with
  | Some se => Some se
  | None => match as_reply err with
            | Some (c, m) => Some (parseSMTPError (EReply c m))
            | None => None
            end
  end.
End Replies.

Definition dsnStatusCode (smtpErr : option SMTPError) : string :=
  match smtpErr with
  | Some e =>
      if bool_decide (Enhanced e <> "") then Enhanced e
      else if (400 <=? Code e) && (Code e <? 600) then itoa (Z.quot (Code e) 100) +:+ ".0.0"
      else "5.0.0"
  | None => "5.0.0"
  end.

(** What is read out of a chain does not depend on how the error was wrapped. *)
Lemma first_wrap {B} (f : error -> option B) p e :
  f (EWrap p e) = None -> first f (EWrap p e) = first f e.
Proof. unfold first. simpl. by intros ->. Qed.
Lemma smtpErrorFrom_wrap `{MtastsText} p e : smtpErrorFrom (EWrap p e) = smtpErrorFrom e.
Proof. unfold smtpErrorFrom, as_smtp, as_reply. by rewrite !first_wrap. Qed.
End Errors.

(** ** db/models/queue.go: the failure categories *)
Module Failure.
Inductive FailureCategory :=
| FailureNone                     (* "": no attempt has failed yet *)
| FailureBadMailbox | FailureBadDomain | FailurePolicy | FailureOtherPermanent
| FailureMailboxFull | FailureGreylisted | FailureRateLimited | FailureConnection
| FailureTLS | FailureDNS | FailureOtherTransient.
#[export] Instance FailureCategory_eq : EqDecision FailureCategory.
Proof. solve_decision. Defined.

Definition Permanent (c : FailureCategory) : bool :=
  match c with
  | FailureBadMailbox | FailureBadDomain | FailurePolicy | FailureOtherPermanent => true
  | _ => false
  end.
Definition Suppresses (c : FailureCategory) : bool :=
  bool_decide (c = FailureBadMailbox) || bool_decide (c = FailureBadDomain).

Definition Description (c : FailureCategory) : string :=
  match c with
  | FailureBadMailbox => "The recipient's mailbox does not exist."
  | FailureBadDomain => "The recipient's domain does not exist or accepts no mail."
  | FailurePolicy => "The recipient's server refused the message by its policy, for example as spam or for failing sender authentication."
  | FailureOtherPermanent => "The recipient's server refused the message."
  | FailureMailboxFull => "The recipient's mailbox is full."
  | FailureGreylisted => "The recipient's server kept asking for the message to be sent again later."
  | FailureRateLimited => "The recipient's server is limiting how much mail it accepts from this server."
  | FailureConnection => "The recipient's server could not be reached."
  | FailureTLS => "A secure connection to the recipient's server could not be made."
  | FailureDNS => "The recipient's domain could not be looked up."
  | FailureOtherTransient => "The recipient's server could not accept the message."
  | FailureNone => ""
  end.
End Failure.

(** ** internal/gateway/queue/classify.go *)
Module Classify.
Import Errors Failure.

Definition containsAny (text : string) (phrases : list string) : bool :=
  existsb (fun p => Contains text p) phrases.

Definition greylistPhrases := ["greylist"; "graylist"; "grey-list"; "gray-list"].
Definition rateLimitPhrases := [
  "rate limit"; "rate-limit"; "ratelimit"; "at a rate"; "unusual rate"; "too many";
  "too quickly"; "too fast"; "throttl"; "unexpected volume"; "concurrent"; "server busy"].
Definition mailboxFullPhrases := [
  "mailbox full"; "mailbox is full"; "inbox is full"; "over quota"; "quota exceeded";
  "exceeded storage"; "out of storage"].
Definition tlsPhrases := ["starttls"; "tls required"; "requires tls"; "must use tls"].
Definition badMailboxPhrases := [
  "does not exist"; "doesn't exist"; "no such user"; "user unknown"; "unknown user";
  "recipient not found"; "recipnotfound"; "recipientnotfound"; "mailbox unavailable";
  "mailbox not found"; "invalid recipient"; "doesn't have a"; "does not have a";
  "disabled"; "inactive"].
Definition policyPhrases := [
  "spam"; "block"; "blacklist"; "listed"; "reputation"; "policy"; "dmarc"; "spf";
  "dkim"; "unauthenticated"; "denied"].
Definition messageSizePhrases := ["size"; "too large"; "too big"].

(** Subject and detail of an RFC 3463 code. *)
Definition parseEnhanced (enhanced : string) : option (Z * Z) :=
  match split_byte "."%char enhanced with
  | [p0; p1; p2] =>
      if negb (bool_decide (p0 = "2")) && negb (bool_decide (p0 = "4")) && negb (bool_decide (p0 = "5"))
      then None
      else subject ← Atoi p1; detail ← Atoi p2; Some (subject, detail)
  | _ => None
  end.

(** [FailureNone] is the "" of the code: the status code does not say. *)
Definition byStatusCode (permanent : bool) (subject detail : Z) : FailureCategory :=
  if (subject =? 2) && (detail =? 2) then FailureMailboxFull
  else if negb permanent then
    if (subject =? 1) && (detail =? 2) then FailureDNS
    else if (subject =? 4) && ((detail =? 1) || (detail =? 2)) then FailureConnection
    else if (subject =? 4) && (detail =? 3) then FailureDNS
    else if (subject =? 4) && (detail =? 5) then FailureRateLimited
    else FailureNone
  else if subject =? 1 then
    if (detail =? 1) || (detail =? 3) || (detail =? 4) || (detail =? 6) || (detail =? 10)
    then FailureBadMailbox
    else if detail =? 2 then FailureBadDomain
    else if (detail =? 7) || (detail =? 8) then FailurePolicy
    else FailureNone
  else if subject =? 4 then
    if detail =? 1 then FailureBadMailbox
    else if detail =? 4 then FailureBadDomain
    else FailureNone
  else if subject =? 7 then FailurePolicy
  else FailureNone.

(** The rest of [classifyReply], once neither the code nor the status decided. *)
Definition byText (permanent : bool) (code : Z) (text : string) : FailureCategory :=
  if containsAny text mailboxFullPhrases then FailureMailboxFull
  else if negb permanent && containsAny text tlsPhrases then FailureTLS
  else if permanent && containsAny text policyPhrases then FailurePolicy
  else if permanent && containsAny text badMailboxPhrases then FailureBadMailbox
  else if (code =? 551) || (code =? 553) then FailureBadMailbox
  else if (code =? 552) && negb (containsAny text messageSizePhrases) then FailureMailboxFull
  else if code =? 530 then FailurePolicy
  else if permanent then FailureOtherPermanent
  else FailureOtherTransient.

Section Classification.
Context `{Unicode, MtastsText}.

Definition classifyReply (code : Z) (enhanced text : string) : FailureCategory :=
  let permanent := 500 <=? code in
  let text := ToLower text in
  if (code =? 521) || (code =? 556) then FailureBadDomain
  else if negb permanent && containsAny text greylistPhrases then FailureGreylisted
  else if negb permanent && containsAny text rateLimitPhrases then FailureRateLimited
  else match parseEnhanced enhanced with
       | Some (subject, detail) =>
           match byStatusCode permanent subject detail with
           | FailureNone => byText permanent code text
           | c => c
           end
       | None => byText permanent code text
       end.

Definition classifyNoReply (err : error) : FailureCategory :=
  match as_dns err with
  | Some notFound => if notFound then FailureBadDomain else FailureDNS
  | None =>
      if is_enforce err then FailureTLS
      else match smtpErrorFrom err with
           | Some _ => FailureConnection
           | None =>
               if bool_decide (as_net err <> None) || Is err EEOF || Is err EUnexpectedEOF
               then FailureConnection else FailureOtherTransient
           end
  end.

Definition ClassifyFailure (err : error) : FailureCategory :=
  match smtpErrorFrom err with
  | Some reply =>
      if (400 <=? Code reply) && (Code reply <? 600)
      then classifyReply (Code reply) (Enhanced reply) (Message reply)
      else classifyNoReply err
  | None => classifyNoReply err
  end.

(** ** The classification *)

Ltac decide_tests := repeat (case_match; simplify_eq; try done); bprop; try lia; try done.

Lemma byText_permanence permanent code text :
  permanent = (500 <=? code) ->
  byText permanent code text <> FailureNone /\
  Permanent (byText permanent code text)
  = permanent && negb (bool_decide (byText permanent code text = FailureMailboxFull)).
Proof.
  intros ->. unfold byText.
  destruct (containsAny text mailboxFullPhrases); [simpl; rewrite ?andb_false_r; done|].
  destruct (500 <=? code) eqn:E; simpl; decide_tests.
Qed.

Lemma byStatusCode_permanence permanent s d :
  byStatusCode permanent s d <> FailureNone ->
  Permanent (byStatusCode permanent s d)
  = permanent && negb (bool_decide (byStatusCode permanent s d = FailureMailboxFull)).
Proof. unfold byStatusCode. intros Hn. destruct permanent; simpl in *; decide_tests. Qed.

Lemma classifyReply_permanence code enhanced text :
  Permanent (classifyReply code enhanced text)
  = (500 <=? code) && negb (bool_decide (classifyReply code enhanced text = FailureMailboxFull)).
Proof.
  unfold classifyReply.
  destruct ((code =? 521) || (code =? 556)) eqn:E1.
  { simpl. bprop. destruct E1 as [-> | ->]; done. }
  pose proof (byText_permanence (500 <=? code) code (ToLower text) eq_refl) as [Ht Hp].
  generalize dependent (500 <=? code). intros p Ht Hp.
  destruct (negb p && containsAny _ greylistPhrases) eqn:E2; [by destruct p|].
  destruct (negb p && containsAny _ rateLimitPhrases) eqn:E3; [by destruct p|].
  destruct (parseEnhanced enhanced) as [[s d]|]; [|done].
  pose proof (byStatusCode_permanence p s d) as Hs.
  destruct (byStatusCode p s d) eqn:E; try (by apply Hs). done.
Qed.

Lemma ClassifyFailure_wrap p e : ClassifyFailure (EWrap p e) = ClassifyFailure e.
Proof.
  unfold ClassifyFailure, classifyNoReply. rewrite smtpErrorFrom_wrap.
  unfold as_dns, as_net. by rewrite !first_wrap.
Qed.

(** a failure bounces the message at once exactly when the remote answered with a
    permanent code (5xx) and did not mean a full mailbox, or when there was no reply
    and the DNS says the name does not exist; and wrapping the error, however often,
    changes nothing. *)
Theorem permanent_exact prefixes e :
  Permanent (ClassifyFailure (foldr EWrap e prefixes)) = true <->
  match smtpErrorFrom e with
  | Some r =>
      if (400 <=? Code r) && (Code r <? 600)
      then 500 <= Code r /\ ClassifyFailure e <> FailureMailboxFull
      else as_dns e = Some true
  | None => as_dns e = Some true
  end.
Proof.
  assert (ClassifyFailure (foldr EWrap e prefixes) = ClassifyFailure e) as ->.
  { induction prefixes as [|p ps IH]; [done|]. simpl. by rewrite ClassifyFailure_wrap. }
  assert (Permanent (classifyNoReply e) = true <-> as_dns e = Some true) as Hno.
  { unfold classifyNoReply. destruct (as_dns e) as [[]|]; simpl; [done|done|].
    split; [|done]. by repeat case_match. }
  unfold ClassifyFailure. destruct (smtpErrorFrom e) as [r|]; [|done].
  destruct ((400 <=? Code r) && (Code r <? 600)) eqn:E; [|done].
  rewrite classifyReply_permanence, andb_true_iff, negb_true_iff, bool_decide_eq_false.
  by rewrite Z.leb_le.
Qed.
End Classification.

(** *** Status codes *)

Lemma trim_left_set_nil f s : trim_left_set f s = "" -> sforall f s = true.
Proof. induction s as [|a s IH]; [done|]. simpl. by destruct (f a). Qed.
Lemma trim_left_set_head f s a r : trim_left_set f s = String a r -> f a = false.
Proof.
  induction s as [|b s IH]; [done|]. simpl. destruct (f b) eqn:E; [done|]. by intros [= -> ->].
Qed.
Lemma srev_nil s : srev s = "" -> s = "".
Proof.
  intros H. destruct s as [|a s]; [done|]. exfalso.
  assert (forall t acc, String.length (srev_app t acc) = String.length t + String.length acc)%nat as L.
  { intros t. induction t as [|b t IH]; intros acc; simpl; [done|]. rewrite IH. simpl. lia. }
  pose proof (L (String a s) "") as HL. fold (srev (String a s)) in HL. rewrite H in HL. simpl in HL. lia.
Qed.
Lemma Trim_nil f s : Trim f s = "" -> sforall f s = true.
Proof.
  unfold Trim. intros H. apply srev_nil, trim_left_set_nil in H. rewrite sforall_srev in H.
  destruct (trim_left_set f s) as [|a r] eqn:E; [by apply trim_left_set_nil|].
  apply trim_left_set_head in E. simpl in H. by rewrite E in H.
Qed.

Lemma sforall_split_byte f c s :
  f c = true -> Forall (fun w => sforall f w = true) (split_byte c s) -> sforall f s = true.
Proof.
  intros Hc. induction s as [|a s IH]; [done|]. simpl. destruct (ascii_dec a c) as [->|].
  - rewrite Forall_cons, Hc. intros [_ H]. by apply IH.
  - destruct (split_byte c s) as [|w ws]; rewrite !Forall_cons; simpl; rewrite andb_true_iff.
    + intros [[-> _] _]. apply IH. constructor.
    + intros [[-> Hw] H]. apply IH. by constructor.
Qed.

Lemma digit_range a : is_digit a = true -> 0 <= digit_z a <= 9.
Proof. unfold is_digit, in_range, digit_z. intros H. bprop. lia. Qed.
Lemma digits_z_bound s acc :
  sforall is_digit s = true -> 0 <= acc ->
  exists v, digits_z acc s = Some v /\ 0 <= v < (acc + 1) * 10 ^ Z.of_nat (String.length s).
Proof.
  revert acc. induction s as [|a s IH]; intros acc Hs Hacc.
  - exists acc. simpl. split; [done|lia].
  - simpl in Hs. apply andb_true_iff in Hs as [Ha Hs]. pose proof (digit_range a Ha).
    simpl digits_z. rewrite Ha. destruct (IH (10 * acc + digit_z a)) as (v & Hv & Hb); [done|lia|].
    exists v. split; [done|]. split; [lia|]. eapply Z.lt_le_trans; [apply Hb|].
    simpl String.length. rewrite Nat2Z.inj_succ, Z.pow_succ_r by lia.
    assert (0 < 10 ^ Z.of_nat (String.length s)) by (apply Z.pow_pos_nonneg; lia). nia.
Qed.

(** A part of a status code: one to three digits. *)
Lemma Atoi_part p :
  negb (bool_decide (p = "") || (3 <? String.length p)%nat || bool_decide (Trim is_digit p <> "")) = true ->
  sforall is_digit p = true /\ exists v, Atoi p = Some v /\ 0 <= v <= 999.
Proof.
  rewrite negb_true_iff, !orb_false_iff, !bool_decide_eq_false, Nat.ltb_ge.
  intros [[Hne Hl] Ht]. apply dec_stable, Trim_nil in Ht. split; [done|].
  destruct (digits_z_bound p 0 Ht ltac:(lia)) as (v & Hv & Hb). exists v.
  assert (0 <= v <= 999) as Hr.
  { split; [lia|]. assert (10 ^ Z.of_nat (String.length p) <= 10 ^ 3) by (apply Z.pow_le_mono_r; lia).
    change (10 ^ 3) with 1000 in *. lia. }
  split; [|done]. destruct p as [|a r]; [done|]. unfold Atoi.
  assert (is_digit a = true) as Ha by (simpl in Ht; by apply andb_true_iff in Ht as [? _]).
  destruct (ascii_dec a "-"%char) as [->|]; [done|]. destruct (ascii_dec a "+"%char) as [->|]; [done|].
  rewrite Hv. simpl. change (- 2 ^ 63) with (-9223372036854775808).
  change (2 ^ 63 - 1) with 9223372036854775807.
  replace ((_ <=? v) && (v <=? _)) with true; [done|]. symmetry. bprop. lia.
Qed.

Definition status_byte (a : ascii) : bool := is_digit a || bool_decide (a = "."%char).

(** a reply's first word the delivery code takes for an RFC 3463 status is one the
    classifier can read, with a subject and a detail of at most three digits; and it
    holds only digits and dots, so it can be written into a bounce verbatim. *)
Theorem enhanced_status_reads s :
  isEnhancedStatus s = true ->
  (exists subject detail, parseEnhanced s = Some (subject, detail) /\
     0 <= subject <= 999 /\ 0 <= detail <= 999) /\
  sforall status_byte s = true.
Proof.
  unfold isEnhancedStatus, parseEnhanced. intros H.
  destruct (split_byte "."%char s) as [|p0 [|p1 [|p2 [|]]]] eqn:E; try done.
  destruct (negb (String.length p0 =? 1)%nat || _) eqn:E0; [done|].
  rewrite orb_false_iff, !negb_false_iff, Nat.eqb_eq in E0. destruct E0 as [Hl Hc].
  cbn [forallb] in H. rewrite !andb_true_iff in H. destruct H as (H1 & H2 & _).
  apply Atoi_part in H1 as (D1 & v1 & A1 & R1). apply Atoi_part in H2 as (D2 & v2 & A2 & R2).
  destruct p0 as [|a [|]]; try done.
  assert (a = "2"%char \/ a = "4"%char \/ a = "5"%char) as Ha.
  { unfold ContainsAny, sexists in Hc. simpl in Hc.
    rewrite negb_true_iff, andb_true_r, negb_false_iff, bool_decide_eq_true in Hc. set_solver. }
  split.
  - exists v1, v2. rewrite A1, A2. by destruct Ha as [->|[->| ->]].
  - apply (sforall_split_byte _ "."%char); [done|]. rewrite E.
    assert (forall p, sforall is_digit p = true -> sforall status_byte p = true) as Hp.
    { intros p. apply sforall_impl. unfold status_byte. by intros b ->. }
    repeat constructor; [|by apply Hp|by apply Hp]. by destruct Ha as [->|[->| ->]].
Qed.

Lemma enhanced_status_reads_witness : parseEnhanced "5.7.510" = Some (7, 510).
Proof.
  destruct (enhanced_status_reads "5.7.510" eq_refl) as [(s & d & E & _) _].
  rewrite E. vm_compute in E. by simplify_eq.
Defined.

Example classify_greylist : @classifyReply unicode_caseless 450 "4.2.0" "Greylisted, try later" = FailureGreylisted.
Proof. vm_compute. reflexivity. Qed.
Example classify_full : @classifyReply unicode_caseless 552 "5.2.2" "Mailbox full" = FailureMailboxFull.
Proof. vm_compute. reflexivity. Qed.
Example classify_nouser : @classifyReply unicode_caseless 550 "5.1.1" "User unknown" = FailureBadMailbox.
Proof. vm_compute. reflexivity. Qed.
Example classify_spam : @classifyReply unicode_caseless 550 "" "No such user or spam" = FailurePolicy.
Proof. vm_compute. reflexivity. Qed.
End Classify.
