(* ===== verification/Retry.v ===== *)
(** * When a failed message is retried: internal/gateway/queue/retry.go

    The retry schedules of each failure category, the doubling delay with its jitter, and
    [retryAt], which grants the next attempt or ends retrying. The jitter's float64
    arithmetic is IEEE 754 double arithmetic ([SpecFloat], binary64), driven by the draw
    of [rand.Float64]: [k / 2^53] for the [k] drawn. *)

From S2P Require Import Prelude GoTime GoStrings Classify.
From Stdlib Require Import SpecFloat.
Import GoInt GoTime Failure.
Local Open Scope Z_scope.

(** What the queue row holds that the schedule reads, and the defaults of
    [OutboundQueue.BeforeCreate] (db/models/queue.go). *)
Module RowLimits.
Definition QueueLifetime : Duration := 5 * 24 * Hour.
Definition DefaultMaxRetries : Z := 60.
End RowLimits.

Module Retry.
Import RowLimits.

Record retrySchedule := { first : Duration; max : Duration; maxAge : Duration }.

(** [retrySchedules]: none for a permanent category. *)
Definition retrySchedules (c : FailureCategory) : option retrySchedule :=
  match c with
  | FailureGreylisted => Some {| first := 7 * Minute; max := 4 * Hour; maxAge := QueueLifetime |}
  | FailureRateLimited => Some {| first := 15 * Minute; max := 4 * Hour; maxAge := QueueLifetime |}
  | FailureMailboxFull => Some {| first := Hour; max := 8 * Hour; maxAge := QueueLifetime |}
  | FailureTLS => Some {| first := 15 * Minute; max := 4 * Hour; maxAge := QueueLifetime |}
  | FailureDNS => Some {| first := 5 * Minute; max := 4 * Hour; maxAge := QueueLifetime |}
  | FailureConnection => Some {| first := 5 * Minute; max := 4 * Hour; maxAge := QueueLifetime |}
  | FailureOtherTransient => Some {| first := 5 * Minute; max := 4 * Hour; maxAge := QueueLifetime |}
  | _ => None
  end.

Definition other_transient : retrySchedule :=
  {| first := 5 * Minute; max := 4 * Hour; maxAge := QueueLifetime |}.
Definition scheduleFor (c : FailureCategory) : retrySchedule :=
  default other_transient (retrySchedules c).

(** [for i := 1; i < attempts && d < s.max; i++ { d *= 2 }] *)
Fixpoint double_up (s : retrySchedule) (turns : nat) (d : Duration) : Duration :=
  match turns with
  | O => d
  | S turns => if d <? max s then double_up s turns (wrap64 (2 * d)) else d
  end.
Definition delay (s : retrySchedule) (attempts : Z) : Duration :=
  Z.min (double_up s (Z.to_nat (attempts - 1)) (first s)) (max s).

(** *** The jitter *)

Definition float64 (m e : Z) : spec_float := binary_normalize 53 1024 m e false.
Definition c08 : spec_float := float64 7205759403792794 (-53).   (* 1 - 0.20 *)
Definition c04 : spec_float := float64 7205759403792794 (-54).   (* 2 * 0.20 *)
Definition jitter_factor (k : Z) : spec_float :=
  SFadd 53 1024 c08 (SFmul 53 1024 (float64 k (-53)) c04).
(** [time.Duration(f)]: towards zero. *)
Definition truncate (f : spec_float) : Z :=
  match f with
  | S754_finite s m e =>
      let v := if 0 <=? e then Zpos m * 2 ^ e else Zpos m / 2 ^ (- e) in
      if s then - v else v
  | _ => 0
  end.
Definition scaled (d : Duration) (k : Z) : Duration :=
  truncate (SFmul 53 1024 (float64 d 0) (jitter_factor k)).

Definition jitteredDelay (s : retrySchedule) (attempts k : Z) : Duration :=
  let d := scaled (delay s attempts) k in
  let d := if max s <? d then max s else d in
  if d <=? 0 then Second else d.

(** The fields of an [OutboundQueue] row [retryAt] reads. *)
Record budget := { Attempts : Z; MaxRetries : Z; CreatedAt : Time; ExpiresAt : Time }.

Definition retryAt (item : budget) (category : FailureCategory) (now : Time) (k : Z) : option Time :=
  if MaxRetries item <=? Attempts item then None
  else
    let s := scheduleFor category in
    let next := Add now (jitteredDelay s (Attempts item) k) in
    let deadline := Add (CreatedAt item) (maxAge s) in
    let deadline := if Before (ExpiresAt item) deadline then ExpiresAt item else deadline in
    if negb (Before next deadline) then None else Some next.

Example jitter_short : jitteredDelay (scheduleFor FailureGreylisted) 1 0 = 336 * Second.
Proof. vm_compute. reflexivity. Qed.
Example jitter_long : jitteredDelay (scheduleFor FailureConnection) 3 (2 ^ 53 - 1) = 1440 * Second.
Proof. vm_compute. reflexivity. Qed.

(** ** The delay *)

Definition sane (s : retrySchedule) : Prop := 0 < first s /\ Second <= max s <= 2 ^ 62.

Lemma schedules_sane c : sane (scheduleFor c).
Proof. unfold sane. destruct c; vm_compute; intuition discriminate. Qed.

Lemma double_up_spec s turns d :
  sane s -> 0 < d -> Z.min (double_up s turns d) (max s) = Z.min (d * 2 ^ Z.of_nat turns) (max s).
Proof.
  intros [_ Hm]. revert d. induction turns as [|n IH]; intros d Hd; [simpl; f_equal; lia|].
  assert (0 < 2 ^ Z.of_nat n) by (apply Z.pow_pos_nonneg; lia).
  rewrite Nat2Z.inj_succ, Z.pow_succ_r by lia. simpl.
  destruct (d <? max s) eqn:E; bprop.
  - rewrite wrap64_id by (unfold in64, min_int64, max_int64; lia).
    rewrite IH by lia. f_equal. lia.
  - nia.
Qed.

Lemma delay_range s attempts : sane s -> 0 < delay s attempts <= max s.
Proof.
  intros Hs. unfold delay. rewrite double_up_spec by (try apply Hs; done).
  destruct Hs as [Hf Hm]. unfold Second in Hm.
  assert (0 < 2 ^ Z.of_nat (Z.to_nat (attempts - 1))) by (apply Z.pow_pos_nonneg; lia). nia.
Qed.

(** the wait doubles from the schedule's first delay and stops at its cap, however
    many attempts have failed: it never overflows into the past. *)
Theorem delay_exact c attempts :
  1 <= attempts ->
  delay (scheduleFor c) attempts
  = Z.min (first (scheduleFor c) * 2 ^ (attempts - 1)) (max (scheduleFor c)) /\
  0 < delay (scheduleFor c) attempts.
Proof.
  intros Ha. pose proof (schedules_sane c) as Hs. split; [|exact (proj1 (delay_range _ _ Hs))].
  unfold delay. rewrite double_up_spec; [by rewrite Z2Nat.id by lia|exact Hs|exact (proj1 Hs)].
Qed.

Lemma delay_exact_witness : delay (scheduleFor FailureConnection) 1000 = 4 * Hour.
Proof.
  destruct (delay_exact FailureConnection 1000 ltac:(lia)) as [E _]. rewrite E.
  vm_compute. reflexivity.
Defined.

Lemma jittered_range s attempts k : sane s -> 0 < jitteredDelay s attempts k <= max s.
Proof.
  intros [_ Hm]. unfold jitteredDelay, Second in *.
  destruct (max s <? _) eqn:E1; bprop.
  - destruct (max s <=? 0) eqn:E2; bprop; lia.
  - destruct (_ <=? 0) eqn:E2; bprop; lia.
Qed.

Lemma before_min next a b :
  Before next (if Before a b then a else b) = true <-> next < a /\ next < b.
Proof. unfold Before. destruct (a <? b) eqn:E; bprop; lia. Qed.

Lemma retryAt_future item c now k next :
  retryAt item c now k = Some next -> now < next < ExpiresAt item.
Proof.
  unfold retryAt, Add. pose proof (jittered_range (scheduleFor c) (Attempts item) k (schedules_sane c)).
  destruct (MaxRetries item <=? Attempts item); [done|].
  match goal with |- context [Before ?n (if Before ?a ?b then ?a else ?b)] =>
    pose proof (before_min n a b) as HB; destruct (Before n (if Before a b then a else b)) end; [|done].
  intros [= <-]. destruct (proj1 HB eq_refl). simpl in *. lia.
Qed.

(** a retry is granted exactly when the budget is not spent and the jittered delay
    ends before both the row's own expiry and the category's maximum age; a granted
    retry is in the future, and no further off than the category's cap. A row is
    therefore never left deferred past its expiry. *)
Theorem retryAt_exact item c now k next :
  retryAt item c now k = Some next <->
  Attempts item < MaxRetries item /\
  next = now + jitteredDelay (scheduleFor c) (Attempts item) k /\
  now < next <= now + max (scheduleFor c) /\
  next < ExpiresAt item /\
  next < CreatedAt item + maxAge (scheduleFor c).
Proof.
  unfold retryAt, Add. pose proof (jittered_range (scheduleFor c) (Attempts item) k (schedules_sane c)).
  destruct (MaxRetries item <=? Attempts item) eqn:E; bprop; [split; [done|lia]|].
  match goal with |- context [Before ?n (if Before ?a ?b then ?a else ?b)] =>
    pose proof (before_min n a b) as HB; destruct (Before n (if Before a b then a else b)) end; simpl.
  - destruct (proj1 HB eq_refl). split; [intros [= <-]|intros (_ & -> & _)]; [lia|done].
  - split; [done|]. intros (_ & -> & _ & H1 & H2). destruct HB as [_ HB]. by discriminate HB.
Qed.

(** ** The budget outlasts the schedule *)

(** The slowest the doubling can be: every category waits at least as long as the
    catch-all one. *)
Lemma delay_floor c attempts : delay other_transient attempts <= delay (scheduleFor c) attempts.
Proof.
  unfold delay. rewrite (double_up_spec other_transient); [|apply (schedules_sane FailureOtherTransient)|done].
  rewrite (double_up_spec (scheduleFor c)); [|apply schedules_sane|apply (proj1 (schedules_sane c))].
  assert (first other_transient <= first (scheduleFor c) /\ max other_transient <= max (scheduleFor c)) as [H1 H2]
    by (destruct c; vm_compute; intuition discriminate).
  assert (0 < 2 ^ Z.of_nat (Z.to_nat (attempts - 1))) by (apply Z.pow_pos_nonneg; lia). nia.
Qed.

Definition categories : list FailureCategory := [
  FailureNone; FailureBadMailbox; FailureBadDomain; FailurePolicy; FailureOtherPermanent;
  FailureMailboxFull; FailureGreylisted; FailureRateLimited; FailureConnection;
  FailureTLS; FailureDNS; FailureOtherTransient].

(** A draw that takes no more than a quarter off any delay of the budget. The code asks
    [rand.Float64] for factors in [0.8, 1.2): every one of them does. *)
Definition fair (k : Z) : bool :=
  forallb (fun c => forallb (fun n =>
    3 * delay (scheduleFor c) n <=? 4 * jitteredDelay (scheduleFor c) n k) (seqZ 1 60)) categories.

Lemma fair_spec k c n : fair k = true -> 1 <= n <= 60 ->
  3 * delay (scheduleFor c) n <= 4 * jitteredDelay (scheduleFor c) n k.
Proof.
  unfold fair. rewrite forallb_elem. intros H Hn.
  assert (c ∈ categories) as Hc by (apply (bool_decide_unpack _); destruct c; vm_compute; exact I).
  apply H in Hc. rewrite forallb_elem in Hc.
  specialize (Hc n). apply Z.leb_le, Hc. apply elem_of_seqZ. lia.
Qed.

(** A row's attempts: attempt [n] fails at or after [t], in any category each time, and
    the worker makes attempt [n + 1] at or after the time the retry was granted for. *)
Inductive attempted (created expires : Time) : Z -> Time -> Prop :=
| attempt_first t : created <= t -> attempted created expires 1 t
| attempt_next n t now c k next t' :
    attempted created expires n t -> t <= now -> fair k = true ->
    retryAt {| Attempts := n; MaxRetries := DefaultMaxRetries; CreatedAt := created;
               ExpiresAt := expires |} c now k = Some next ->
    next <= t' ->
    attempted created expires (n + 1) t'.

Fixpoint waited (n : nat) : Z :=
  match n with O => 0 | S m => waited m + delay other_transient (Z.of_nat n) end.

Lemma attempted_waited created expires n t :
  attempted created expires n t ->
  1 <= n < DefaultMaxRetries /\ 3 * waited (Z.to_nat (n - 1)) <= 4 * (t - created).
Proof.
  unfold DefaultMaxRetries. induction 1 as [t Ht|n t now c k next t' _ [Hn IH] Hnow Hk Hr Ht'].
  - simpl. lia.
  - apply retryAt_exact in Hr as (_ & Hnext & _ & _ & Hage).
    cbn [Attempts MaxRetries CreatedAt ExpiresAt] in *.
    pose proof (fair_spec k c n Hk ltac:(lia)). pose proof (delay_floor c n).
    assert (waited (Z.to_nat (n + 1 - 1)) = waited (Z.to_nat (n - 1)) + delay other_transient n) as Hw.
    { replace (Z.to_nat (n + 1 - 1)) with (S (Z.to_nat (n - 1))) by lia. simpl.
      do 2 f_equal. lia. }
    rewrite Hw. split; [|lia]. split; [lia|].
    destruct (decide (n = 59)) as [->|]; [|lia]. exfalso.
    assert (maxAge (scheduleFor c) = QueueLifetime) as HQ by (destruct c; reflexivity).
    rewrite HQ in Hage. change (Z.to_nat (59 - 1)) with 58%nat in *.
    assert (4 * QueueLifetime <= 3 * (waited 58 + delay other_transient 59))
      by (vm_compute; discriminate). lia.
Qed.

(** with the default budget it is always the deadline that ends retrying: whatever
    kinds of failure a message meets and whatever jitter is drawn, the budget is never
    spent by the time its last granted retry is made. *)
Theorem budget_outlasts_lifetime created expires n t c now k :
  attempted created expires n t ->
  let item := {| Attempts := n; MaxRetries := DefaultMaxRetries; CreatedAt := created;
                 ExpiresAt := expires |} in
  retryAt item c now k = None ->
  expires <= now + jitteredDelay (scheduleFor c) n k \/
  created + QueueLifetime <= now + jitteredDelay (scheduleFor c) n k.
Proof.
  intros Ha item Hr. apply attempted_waited in Ha as [Hn _].
  destruct (decide (now + jitteredDelay (scheduleFor c) n k < expires)) as [H1|]; [|lia].
  destruct (decide (now + jitteredDelay (scheduleFor c) n k < created + QueueLifetime)) as [H2|]; [|lia].
  exfalso. assert (maxAge (scheduleFor c) = QueueLifetime) as HQ by (destruct c; reflexivity).
  pose proof (jittered_range (scheduleFor c) n k (schedules_sane c)).
  assert (retryAt item c now k = Some (now + jitteredDelay (scheduleFor c) n k)) as E.
  { apply retryAt_exact. unfold item. simpl. rewrite HQ. lia. }
  by rewrite E in Hr.
Qed.

(** A message queued at 0 whose first attempt is greylisted, and whose second fails too
    close to an early expiry. *)
Lemma budget_outlasts_lifetime_witness :
  let created := 0 in let expires := 1000 * Second in
  retryAt {| Attempts := 2; MaxRetries := DefaultMaxRetries; CreatedAt := created; ExpiresAt := expires |}
    FailureConnection (700 * Second) 0 = None /\
  expires <= 700 * Second + jitteredDelay (scheduleFor FailureConnection) 2 0.
Proof.
  intros created expires.
  assert (retryAt {| Attempts := 2; MaxRetries := DefaultMaxRetries; CreatedAt := created; ExpiresAt := expires |}
    FailureConnection (700 * Second) 0 = None) as Hr by (vm_compute; reflexivity).
  split; [exact Hr|].
  destruct (budget_outlasts_lifetime created expires 2 (336 * Second) FailureConnection (700 * Second) 0)
    as [H|H].
  - apply (attempt_next created expires 1 0 0 FailureGreylisted 0 (336 * Second)).
    + apply attempt_first. vm_compute. discriminate.
    + lia.
    + vm_compute. reflexivity.
    + vm_compute. reflexivity.
    + lia.
  - exact Hr.
  - exact H.
  - exfalso. revert H. vm_compute. intuition discriminate.
Defined.
End Retry.
