(* ===== verification/QueueModel.v ===== *)
(** * The outbound queue row: internal/db/models/queue.go

    [OutboundQueue] with every field, the failure category aside modelled in [Failure],
    the hosted domain a row is sent as, and [BeforeCreate]. *)

From S2P Require Import Prelude GoTime GoStrings Classify Retry.
From Stdlib Require Import Ascii.
Import GoTime GoStrings Failure RowLimits.
Local Open Scope Z_scope.

Module Row.
Inductive QueueStatus := Pending | Delivering | Deferred | Delivered | Bounced | Expired.
#[export] Instance QueueStatus_eq : EqDecision QueueStatus.
Proof. solve_decision. Defined.

(** [Transport]: "", TransportRESTMAIL, TransportSMTP. *)
Inductive DeliveryTransport := TransportNone | TransportRESTMAIL | TransportSMTP.
#[export] Instance DeliveryTransport_eq : EqDecision DeliveryTransport.
Proof. solve_decision. Defined.

Record OutboundQueue := {
  ID : Z;
  MessageID : option Z;
  Sender : string;
  Recipient : string;
  Domain : string;
  SendingDomain : string;
  RawMessage : string;
  BodyType : string;
  Status : QueueStatus;
  Attempts : Z;
  LastAttempt : option Time;
  NextAttempt : Time;
  LastError : string;
  LastErrorCode : Z;
  Category : FailureCategory;
  MaxRetries : Z;
  IsDSN : bool;
  CreatedAt : Time;
  ExpiresAt : Time;
  ARCResults : string;
  ARCChain : string;
  TLSReport : bool;
  RequireTLS : bool;
  Transport : DeliveryTransport
}.

(** The fields the worker writes, one setter each group. *)
Definition with_message (q : OutboundQueue) (sender raw : string) : OutboundQueue := {|
  ID := ID q; MessageID := MessageID q; Sender := sender; Recipient := Recipient q;
  Domain := Domain q; SendingDomain := SendingDomain q; RawMessage := raw; BodyType := BodyType q;
  Status := Status q; Attempts := Attempts q; LastAttempt := LastAttempt q;
  NextAttempt := NextAttempt q; LastError := LastError q; LastErrorCode := LastErrorCode q;
  Category := Category q; MaxRetries := MaxRetries q; IsDSN := IsDSN q; CreatedAt := CreatedAt q;
  ExpiresAt := ExpiresAt q; ARCResults := ARCResults q; ARCChain := ARCChain q;
  TLSReport := TLSReport q; RequireTLS := RequireTLS q; Transport := Transport q |}.

Definition with_attempt (q : OutboundQueue) (st : QueueStatus) (attempts : Z) (last : option Time)
  : OutboundQueue := {|
  ID := ID q; MessageID := MessageID q; Sender := Sender q; Recipient := Recipient q;
  Domain := Domain q; SendingDomain := SendingDomain q; RawMessage := RawMessage q;
  BodyType := BodyType q; Status := st; Attempts := attempts; LastAttempt := last;
  NextAttempt := NextAttempt q; LastError := LastError q; LastErrorCode := LastErrorCode q;
  Category := Category q; MaxRetries := MaxRetries q; IsDSN := IsDSN q; CreatedAt := CreatedAt q;
  ExpiresAt := ExpiresAt q; ARCResults := ARCResults q; ARCChain := ARCChain q;
  TLSReport := TLSReport q; RequireTLS := RequireTLS q; Transport := Transport q |}.

Definition with_failure (q : OutboundQueue) (st : QueueStatus) (next : Time) (err : string) (code : Z)
  (c : FailureCategory) : OutboundQueue := {|
  ID := ID q; MessageID := MessageID q; Sender := Sender q; Recipient := Recipient q;
  Domain := Domain q; SendingDomain := SendingDomain q; RawMessage := RawMessage q;
  BodyType := BodyType q; Status := st; Attempts := Attempts q; LastAttempt := LastAttempt q;
  NextAttempt := next; LastError := err; LastErrorCode := code;
  Category := c; MaxRetries := MaxRetries q; IsDSN := IsDSN q; CreatedAt := CreatedAt q;
  ExpiresAt := ExpiresAt q; ARCResults := ARCResults q; ARCChain := ARCChain q;
  TLSReport := TLSReport q; RequireTLS := RequireTLS q; Transport := Transport q |}.

Definition with_limits (q : OutboundQueue) (retries : Z) (expires : Time) : OutboundQueue := {|
  ID := ID q; MessageID := MessageID q; Sender := Sender q; Recipient := Recipient q;
  Domain := Domain q; SendingDomain := SendingDomain q; RawMessage := RawMessage q;
  BodyType := BodyType q; Status := Status q; Attempts := Attempts q; LastAttempt := LastAttempt q;
  NextAttempt := NextAttempt q; LastError := LastError q; LastErrorCode := LastErrorCode q;
  Category := Category q; MaxRetries := retries; IsDSN := IsDSN q; CreatedAt := CreatedAt q;
  ExpiresAt := expires; ARCResults := ARCResults q; ARCChain := ARCChain q;
  TLSReport := TLSReport q; RequireTLS := RequireTLS q; Transport := Transport q |}.

Definition with_id (q : OutboundQueue) (id : Z) : OutboundQueue := {|
  ID := id; MessageID := MessageID q; Sender := Sender q; Recipient := Recipient q;
  Domain := Domain q; SendingDomain := SendingDomain q; RawMessage := RawMessage q;
  BodyType := BodyType q; Status := Status q; Attempts := Attempts q; LastAttempt := LastAttempt q;
  NextAttempt := NextAttempt q; LastError := LastError q; LastErrorCode := LastErrorCode q;
  Category := Category q; MaxRetries := MaxRetries q; IsDSN := IsDSN q; CreatedAt := CreatedAt q;
  ExpiresAt := ExpiresAt q; ARCResults := ARCResults q; ARCChain := ARCChain q;
  TLSReport := TLSReport q; RequireTLS := RequireTLS q; Transport := Transport q |}.

Definition BeforeCreate (q : OutboundQueue) (now : Time) : OutboundQueue :=
  with_limits q
    (if MaxRetries q =? 0 then DefaultMaxRetries else MaxRetries q)
    (if IsZero (ExpiresAt q) then Add now QueueLifetime else ExpiresAt q).

(** What [retryAt] reads of a row. *)
Definition row_budget (q : OutboundQueue) : Retry.budget := {|
  Retry.Attempts := Attempts q; Retry.MaxRetries := MaxRetries q;
  Retry.CreatedAt := CreatedAt q; Retry.ExpiresAt := ExpiresAt q |}.

(** internal/mail/messageid.go. *)
Definition DomainFromAddress (email : string) : string :=
  match cut_last "@"%char email with Some (_, d) => d | None => email end.

(** [sendsAs] (worker.go): the hosted domain a message is sent as. *)
Definition sendsAs (item : OutboundQueue) : string :=
  if bool_decide (SendingDomain item <> "") then SendingDomain item
  else DomainFromAddress (Sender item).
End Row.
