(* ===== verification/SRS.v ===== *)
(** * The Sender Rewriting Scheme: internal/srs/srs.go

    The address a forward's envelope sender becomes, and what is read back out of it.
    [hmac.New(sha256.New, secret)] and the base 32 encoding of its sum are the operation
    [mac] of the class [SRSMac]: the 52 characters of the encoded MAC. *)

From S2P Require Import Prelude GoTime GoStrings.
From Stdlib Require Import Ascii.
Import GoTime GoStrings.
Local Open Scope Z_scope.

Class SRSMac := mac : string -> string -> string.

Module SRS.
Definition Lifetime : Z := 21.
Definition prefix : string := "SRS0=".
Definition hashLength : nat := 4.
Definition timeAlphabet : string := "ABCDEFGHIJKLMNOPQRSTUVWXYZ234567".
Definition timeSlots : Z := 1024.
Definition secondsInDay : Z := 86400.

Inductive srs_error := ErrForged | ErrExpired | ErrNotRewritable.

Record Signer := { current : string; previous : option string }.
Definition New (current previous : string) : option Signer :=
  if bool_decide (current = "") then None
  else Some {| current := current;
               previous := if bool_decide (previous = "") then None else Some previous |}.

Definition str (a : ascii) : string := String a EmptyString.
Definition alphabet_at (n : Z) : ascii := default "A"%char (String.get (Z.to_nat n) timeAlphabet).

(** Unix and [%] round towards zero from 1970 on. *)
Definition daySlot (now : Time) : Z := Z.rem (Z.quot (Unix now) secondsInDay) timeSlots.
Definition stamp_of (slot : Z) : string :=
  str (alphabet_at (Z.shiftr slot 5)) +:+ str (alphabet_at (Z.land slot 31)).
Definition timestamp (now : Time) : string := stamp_of (daySlot now).

Fixpoint index_byte (a : ascii) (s : string) : option Z :=
  match s with
  | EmptyString => None
  | String b r => if ascii_dec a b then Some 0 else Z.succ <$> index_byte a r
  end.

Section SRS.
Context `{Unicode, SRSMac}.

Definition parseTimestamp (stamp : string) : option Z :=
  if negb (String.length stamp =? 2)%nat then None
  else match ToUpper stamp with
       | String h (String l _) =>
           high ← index_byte h timeAlphabet;
           low ← index_byte l timeAlphabet;
           Some (Z.lor (Z.shiftl high 5) low)
       | _ => None
       end.

Definition IsAddress (address : string) : bool :=
  (String.length prefix <=? String.length address)%nat
  && EqualFold (take_bytes (String.length prefix) address) prefix.

(** Each field in lower case and ended by a zero byte. *)
Definition hash (secret stamp domain local : string) : string :=
  let nul := str (byte 0) in
  take_bytes hashLength
    (mac secret (ToLower stamp +:+ nul +:+ ToLower domain +:+ nul +:+ ToLower local +:+ nul)).

Definition signed (s : Signer) (tag stamp domain local : string) : bool :=
  let tag := ToUpper tag in
  bool_decide (tag = hash (current s) stamp domain local)
  || match previous s with
     | Some p => bool_decide (tag = hash p stamp domain local)
     | None => false
     end.

Definition Rewrite (s : Signer) (sender forwardingDomain : string) (now : Time)
  : result srs_error string :=
  if bool_decide (sender = "") then Ok ""
  else match cut_last "@"%char sender with
       | None => Err ErrNotRewritable
       | Some (local, domain) =>
           if bool_decide (local = "") || bool_decide (domain = "")
              || bool_decide (forwardingDomain = "") then Err ErrNotRewritable
           else if ContainsAny domain ["="; "["; "]"]%char then Err ErrNotRewritable
           else let stamp := timestamp now in
                Ok (prefix +:+ hash (current s) stamp domain local +:+ "=" +:+ stamp +:+ "="
                    +:+ domain +:+ "=" +:+ local +:+ "@" +:+ forwardingDomain)
       end.

Definition Reverse (s : Signer) (address : string) (now : Time) : result srs_error string :=
  match cut_last "@"%char address with
  | None => Err ErrForged
  | Some (before, _) =>
      if negb (IsAddress address) then Err ErrForged
      else match splitn_byte "="%char (drop_bytes (String.length prefix) before) 4 with
           | [tag; stamp; domain; local] =>
               if negb (String.length tag =? hashLength)%nat || bool_decide (domain = "")
                  || bool_decide (local = "") then Err ErrForged
               else match parseTimestamp stamp with
                    | None => Err ErrForged
                    | Some slot =>
                        if negb (signed s tag stamp domain local) then Err ErrForged
                        else if Lifetime <? Z.rem (daySlot now - slot + timeSlots) timeSlots
                        then Err ErrExpired
                        else Ok (local +:+ "@" +:+ domain)
                    end
           | _ => Err ErrForged
           end
  end.
End SRS.

Lemma Rewrite_nonempty `{Unicode, SRSMac} s sender fwd now a :
  Rewrite s sender fwd now = Ok a -> sender <> "" -> a <> "".
Proof.
  unfold Rewrite. intros E Hs. rewrite (bool_decide_eq_false_2 _ Hs) in E.
  repeat case_match; try done. injection E as <-. done.
Qed.

(** ** What base 32 gives *)

Definition b32_byte (a : ascii) : bool := in_range 65 90 a || in_range 50 55 a.
(** The MAC's text: 32 bytes are 52 base 32 characters, in upper case, and four of
    padding. *)
Definition b32_macs `{SRSMac} : Prop :=
  forall secret data, String.length (mac secret data) = 56%nat /\
    sforall b32_byte (take_bytes hashLength (mac secret data)) = true.

Lemma upper_b32 `{Unicode} s : sforall b32_byte s = true -> ToUpper s = s.
Proof.
  intros Hs. assert (is_ascii s = true /\ smap upper_byte s = s) as [Ha Hm].
  { unfold is_ascii. induction s as [|a s IH]; [done|]. simpl in *.
    apply andb_true_iff in Hs as [Hb Hs]. destruct (IH Hs) as [-> ->]. clear IH Hs.
    assert (is_ascii_byte a = true /\ upper_byte a = a) as [-> ->]; [|done].
    by destruct a as [[] [] [] [] [] [] [] []]; try discriminate Hb. }
  unfold ToUpper. by rewrite Ha.
Qed.
Lemma free_b32 s c : b32_byte c = false -> sforall b32_byte s = true -> free c s = true.
Proof.
  intros Hc. apply sforall_impl. intros a Ha. apply negb_true_iff, bool_decide_eq_false.
  intros ->. congruence.
Qed.

(** Every slot's two characters read back as the slot: all 1024 are tried. *)
Lemma parse_stamp `{Unicode} slot : 0 <= slot < timeSlots ->
  parseTimestamp (stamp_of slot) = Some slot /\ sforall b32_byte (stamp_of slot) = true.
Proof.
  intros Hs.
  assert (forallb (fun n => bool_decide (parseTimestamp (stamp_of n) = Some n)
                            && sforall b32_byte (stamp_of n)) (seqZ 0 timeSlots) = true) as Hall
    by (vm_compute; reflexivity).
  rewrite forallb_elem in Hall. specialize (Hall slot).
  rewrite andb_true_iff, bool_decide_eq_true in Hall. apply Hall. apply elem_of_seqZ. lia.
Qed.

Definition day (t : Time) : Z := Unix t / secondsInDay.
Lemma daySlot_mod t : 0 <= Unix t -> daySlot t = day t mod timeSlots /\ 0 <= daySlot t < timeSlots.
Proof.
  intros Ht. unfold daySlot, day, secondsInDay, timeSlots.
  rewrite Z.quot_div_nonneg by lia.
  assert (0 <= Unix t / 86400) by (apply Z.div_pos; lia).
  rewrite Z.rem_mod_nonneg by lia. split; [done|]. apply Z.mod_pos_bound. lia.
Qed.
Lemma age_mod t0 t1 : 0 <= Unix t0 -> 0 <= Unix t1 ->
  Z.rem (daySlot t1 - daySlot t0 + timeSlots) timeSlots = (day t1 - day t0) mod timeSlots.
Proof.
  intros H0 H1. destruct (daySlot_mod t0 H0) as [E0 R0], (daySlot_mod t1 H1) as [E1 R1].
  unfold timeSlots in *. rewrite Z.rem_mod_nonneg by lia. rewrite E0, E1.
  rewrite <- Zplus_mod_idemp_r, Z_mod_same_full, Z.add_0_r. symmetry. apply Zminus_mod.
Qed.

(** A signer that still accepts what [s] signed: [s] itself, or one whose previous secret
    is [s]'s. *)
Definition accepts (s' s : Signer) : Prop :=
  current s' = current s \/ previous s' = Some (current s).

Section RoundTrip.
Context `{UC : Unicode, MC : SRSMac} (Hmac : b32_macs).

Lemma hash_b32 k stamp d l :
  String.length (hash k stamp d l) = hashLength /\ sforall b32_byte (hash k stamp d l) = true.
Proof.
  unfold hash. set (t := _ +:+ _). destruct (Hmac k t) as [HL HB]. split; [|done].
  unfold hashLength. clear HB. destruct (mac k t) as [|? [|? [|? [|? r]]]]; simpl in *; lia.
Qed.

(** an address made by [Rewrite] gives the sender back to any signer that still
    accepts its secret for 21 days, and is refused as expired after, until the day
    count wraps at 1024. *)
Theorem reverse_rewrite s s' sender fwd t0 t1 address :
  Rewrite s sender fwd t0 = Ok address -> sender <> "" ->
  accepts s' s -> free "@"%char fwd = true -> 0 <= Unix t0 -> 0 <= Unix t1 ->
  Reverse s' address t1
  = if Lifetime <? (day t1 - day t0) mod timeSlots then Err ErrExpired else Ok sender.
Proof.
  unfold Rewrite. intros HR Hne Hacc Hfwd H0 H1.
  rewrite bool_decide_eq_false_2 in HR by done.
  destruct (cut_last "@"%char sender) as [[local domain]|] eqn:Ecut; [|done].
  destruct (bool_decide (local = "") || _ || _) eqn:Ee; [done|].
  destruct (ContainsAny domain _) eqn:Ed; [done|]. simplify_eq.
  rewrite !orb_false_iff, !bool_decide_eq_false in Ee. destruct Ee as [[Hl Hd] Hf].
  apply cut_last_Some in Ecut as ->.
  set (tag := hash _ _ _ _). destruct (hash_b32 (current s) (timestamp t0) domain local) as [TL TB].
  fold tag in TL, TB.
  destruct (daySlot_mod t0 H0) as [_ R0]. destruct (parse_stamp _ R0) as [PS SB].
  fold (timestamp t0) in PS, SB. unfold Reverse.
  replace (prefix +:+ tag +:+ "=" +:+ timestamp t0 +:+ "=" +:+ domain +:+ "=" +:+ local +:+ "@" +:+ fwd)
    with ((prefix +:+ tag +:+ "=" +:+ timestamp t0 +:+ "=" +:+ domain +:+ "=" +:+ local) +:+ String "@" fwd)
    by (rewrite !app_string_assoc; done).
  rewrite cut_last_app by done.
  assert (forall r, IsAddress (prefix +:+ r) = true) as HI.
  { intros r. unfold IsAddress. rewrite take_bytes_app, length_app_string.
    rewrite (proj2 (Nat.leb_le _ _)) by lia. reflexivity. }
  rewrite app_string_assoc, HI, drop_bytes_app. cbn [negb splitn_byte].
  change ("=" +:+ timestamp t0 +:+ "=" +:+ domain +:+ "=" +:+ local)
    with (String "=" (timestamp t0 +:+ String "=" (domain +:+ String "=" local))).
  rewrite cut_byte_app by (by apply free_b32).
  rewrite cut_byte_app by (by apply free_b32).
  rewrite cut_byte_app; cycle 1.
  { unfold ContainsAny, sexists in Ed. apply negb_false_iff in Ed.
    revert Ed. apply sforall_impl. intros a. rewrite !negb_true_iff, !bool_decide_eq_false. set_solver. }
  rewrite TL, !bool_decide_eq_false_2 by done. cbn [negb orb hashLength Nat.eqb].
  rewrite PS. unfold signed. rewrite (upper_b32 tag TB).
  assert (bool_decide (tag = hash (current s') (timestamp t0) domain local)
          || match previous s' with
             | Some p => bool_decide (tag = hash p (timestamp t0) domain local)
             | None => false
             end = true) as ->.
  { unfold tag. apply orb_true_iff.
    destruct Hacc as [-> | ->]; [left|right]; by apply bool_decide_eq_true_2. }
  cbn [negb]. rewrite age_mod by done. by destruct (Lifetime <? _).
Qed.
End RoundTrip.

(** A stand-in MAC whose text is well formed; the secret's length moves it. *)
Definition toy_mac : SRSMac := fun secret data =>
  let a := str (alphabet_at (Z.of_nat (String.length secret + String.length data) mod 32)) in
  concat_all (replicate 56 a).
Lemma toy_mac_b32 : @b32_macs toy_mac.
Proof.
  intros k d. unfold mac, toy_mac. set (n := _ mod 32).
  assert (0 <= n < 32) as Hn by (apply Z.mod_pos_bound; lia). clearbody n.
  assert (forallb (fun n => let t := concat_all (replicate 56 (str (alphabet_at n))) in
    (String.length t =? 56)%nat && sforall b32_byte (take_bytes hashLength t)) (seqZ 0 32) = true) as Hall
    by (vm_compute; reflexivity).
  rewrite forallb_elem in Hall. specialize (Hall n ltac:(apply elem_of_seqZ; lia)).
  apply andb_true_iff in Hall as [H1 H2]. apply Nat.eqb_eq in H1. done.
Qed.

(** Seconds since 1970 as a time. *)
Definition at_unix (s : Z) : Time := (s + unix_epoch) * Second.

Lemma reverse_rewrite_witness :
  let s := {| current := "old"; previous := None |} in
  let s' := {| current := "fresh"; previous := Some "old" |} in
  exists address,
    @Rewrite unicode_caseless toy_mac s "alice@orig.example" "forward.example" (at_unix 1700000000) = Ok address /\
    @Reverse unicode_caseless toy_mac s' address (at_unix 1701800000) = Ok "alice@orig.example".
Proof.
  intros s s'. eexists. split; [vm_compute; reflexivity|].
  match goal with |- @Reverse _ _ _ ?a ?t = _ =>
    assert (@Rewrite unicode_caseless toy_mac s "alice@orig.example" "forward.example" (at_unix 1700000000) = Ok a)
      as HR by (vm_compute; reflexivity) end.
  rewrite (@reverse_rewrite unicode_caseless toy_mac toy_mac_b32 s s' "alice@orig.example"
    "forward.example" (at_unix 1700000000) (at_unix 1701800000) _ HR); try done.
  - by right.
Defined.
End SRS.
