(* ===== verification/Prog.v ===== *)
(** * Programs that ask their surroundings

    Code that talks to the database, the DNS, a socket or the clock is a tree of questions:
    [Q X] is a question whose answer is an [X], and a program either returns or asks one
    and goes on with whatever answer comes. A theorem about a program therefore holds for
    every answer the outside can give, at every point, however it changes its mind.

    [wp] follows a monitor along every run: a monitor reads each question, with the state
    it has built from the earlier ones and their answers, and either forbids it or moves
    on. [run] evaluates a program against one concrete outside. *)

From S2P Require Import Prelude.

Module Prog.
Section Prog.
Context {Q : Type -> Type}.

Inductive prog (A : Type) : Type :=
| Ret (a : A)
| Ask {X : Type} (q : Q X) (k : X -> prog A).
Arguments Ret {A} a.
Arguments Ask {A X} q k.

Definition ask {X} (q : Q X) : prog X := Ask q Ret.
Fixpoint bind {A B} (p : prog A) (f : A -> prog B) : prog B :=
  match p with
  | Ret a => f a
  | Ask q k => Ask q (fun x => bind (k x) f)
  end.

(** ** Monitors *)

Definition monitor (S : Type) := forall X, S -> Q X -> X -> option S.

Fixpoint wp {S A} (m : monitor S) (s : S) (p : prog A) (post : S -> A -> Prop) : Prop :=
  match p with
  | Ret a => post s a
  | Ask q k => forall x, match m _ s q x with
                         | Some s' => wp m s' (k x) post
                         | None => False
                         end
  end.

Lemma wp_mono {S A} (m : monitor S) s (p : prog A) (post post' : S -> A -> Prop) :
  (forall s a, post s a -> post' s a) -> wp m s p post -> wp m s p post'.
Proof.
  intros Hpost. revert s. induction p as [a|X q k IH]; simpl; intros s Hp; [by apply Hpost|].
  intros x. specialize (Hp x). destruct (m X s q x); [by apply IH|done].
Qed.

Lemma wp_bind {S A B} (m : monitor S) s (p : prog A) (f : A -> prog B) post :
  wp m s (bind p f) post <-> wp m s p (fun s a => wp m s (f a) post).
Proof.
  revert s. induction p as [a|X q k IH]; simpl; intros s; [done|].
  split; intros Hp x; specialize (Hp x); destruct (m X s q x); try done; by apply IH.
Qed.

Lemma wp_and {S A} (m : monitor S) s (p : prog A) post post' :
  wp m s p post -> wp m s p post' -> wp m s p (fun s a => post s a /\ post' s a).
Proof.
  revert s. induction p as [a|X q k IH]; simpl; intros s H1 H2; [done|].
  intros x. specialize (H1 x). specialize (H2 x). destruct (m X s q x); [by apply IH|done].
Qed.

(** A test of each question by itself: no run asks a question it rejects. *)
Definition test := forall X, Q X -> bool.
Definition stateless (t : test) : monitor unit :=
  fun X _ q _ => if t X q then Some tt else None.
Definition always {A} (t : test) (p : prog A) (post : A -> Prop) : Prop :=
  wp (stateless t) tt p (fun _ a => post a).

Lemma always_bind {A B} t (p : prog A) (f : A -> prog B) post :
  always t (bind p f) post <-> always t p (fun a => always t (f a) post).
Proof.
  unfold always. rewrite wp_bind. split; apply wp_mono; by intros [] a.
Qed.
Lemma always_mono {A} t (p : prog A) (post post' : A -> Prop) :
  (forall a, post a -> post' a) -> always t p post -> always t p post'.
Proof. intros H. apply wp_mono. auto. Qed.
Lemma always_ask {A X} t (q : Q X) (k : X -> prog A) post :
  t X q = true -> (forall x, always t (k x) post) -> always t (Ask q k) post.
Proof. intros Ht Hk x. unfold stateless. rewrite Ht. apply Hk. Qed.

(** A test that accepts more. *)
Lemma always_weaken {A} (t t' : test) (p : prog A) post :
  (forall X q, t X q = true -> t' X q = true) -> always t p post -> always t' p post.
Proof.
  intros Ht. unfold always. induction p as [a|X q k IH]; simpl; [done|].
  intros Hp x. specialize (Hp x). unfold stateless in *. destruct (t X q) eqn:E; [|done].
  rewrite (Ht _ _ E). by apply IH.
Qed.
(** A program whose questions leave a monitor's state alone. *)
Lemma wp_neutral {S A} (m : monitor S) s (t : test) (p : prog A) post :
  (forall X q x, t X q = true -> m X s q x = Some s) -> always t p post ->
  wp m s p (fun s' a => s' = s /\ post a).
Proof.
  intros Hm. unfold always. induction p as [a|X q k IH]; simpl; [done|].
  intros Hp x. specialize (Hp x). unfold stateless in *. destruct (t X q) eqn:E; [|done].
  rewrite (Hm X q x E). by apply IH.
Qed.
Lemma always_and {A} (t : test) (p : prog A) post post' :
  always t p post -> always t p post' -> always t p (fun a => post a /\ post' a).
Proof. apply wp_and. Qed.
(** Two tests at once. *)
Lemma always_both {A} (t t' : test) (p : prog A) post :
  always t p post -> always t' p (fun _ => True) ->
  always (fun X q => t X q && t' X q) p post.
Proof.
  unfold always. induction p as [a|X q k IH]; simpl; [done|].
  intros H1 H2 x. specialize (H1 x). specialize (H2 x). unfold stateless in *.
  destruct (t X q), (t' X q); try done. by apply IH.
Qed.
Lemma always_ret {A} t (a : A) (post : A -> Prop) : post a -> always t (Ret a) post.
Proof. done. Qed.

(** ** Running against one outside *)

Definition outside := forall X, Q X -> X.
Fixpoint run {A} (h : outside) (p : prog A) : A :=
  match p with
  | Ret a => a
  | Ask q k => run h (k (h _ q))
  end.

(** What a monitor makes of one run. *)
Fixpoint watch {S A} (m : monitor S) (s : S) (h : outside) (p : prog A) : option (S * A) :=
  match p with
  | Ret a => Some (s, a)
  | Ask q k => match m _ s q (h _ q) with
               | Some s' => watch m s' h (k (h _ q))
               | None => None
               end
  end.

(** What [wp] proves of every run is what a monitor finds on each. *)
Lemma wp_watch {S A} (m : monitor S) h s (p : prog A) post :
  wp m s p post -> exists s', watch m s h p = Some (s', run h p) /\ post s' (run h p).
Proof.
  revert s. induction p as [a|X q k IH]; simpl; intros s Hp; [by exists s|].
  specialize (Hp (h X q)). destruct (m X s q (h X q)); [by apply IH|done].
Qed.
End Prog.

Arguments prog Q A : clear implicits.
Arguments Ret {Q A} a.
Arguments Ask {Q A X} q k.
Arguments monitor Q S : clear implicits.
Arguments test Q : clear implicits.
Arguments outside Q : clear implicits.

(** A program that asks its own kind of question, within one that asks another. *)
Fixpoint within {Q Q' : Type -> Type} (f : forall X, Q X -> Q' X) {A} (p : prog Q A) : prog Q' A :=
  match p with
  | Ret a => Ret a
  | Ask q k => Ask (f _ q) (fun x => within f (k x))
  end.

#[export] Instance prog_ret {Q} : MRet (prog Q) := fun A a => Ret a.
#[export] Instance prog_bind {Q} : MBind (prog Q) := fun A B f p => bind p f.

(** [if err != nil { return err }] and its value-carrying version, in a program whose
    result is an error or a value. *)
Definition try_ {Q E A B} (p : prog Q (result E A)) (f : A -> prog Q (result E B)) : prog Q (result E B) :=
  bind p (fun r => match r with Ok a => f a | Err e => Ret (Err e) end).

Declare Scope prog_scope.
Delimit Scope prog_scope with prog.
Notation "x <- p ; q" := (bind p (fun x => q))
  (at level 100, p at next level, right associativity, only parsing) : prog_scope.
Notation "let* pat <- p ; q" := (bind p (fun pat => q))
  (at level 100, pat strict pattern, p at next level, right associativity, only parsing) : prog_scope.
Notation "x <-! p ; q" := (try_ p (fun x => q))
  (at level 100, p at next level, right associativity, only parsing) : prog_scope.
Notation "p ;; q" := (bind p (fun _ => q))
  (at level 100, right associativity, only parsing) : prog_scope.

Lemma always_try {Q E A B} (t : test Q) (p : prog Q (result E A)) (f : A -> prog Q (result E B)) post :
  always t p (fun r => match r with Ok a => always t (f a) post | Err e => post (Err e) end) ->
  always t (try_ p f) post.
Proof.
  intros H. unfold try_. apply always_bind. eapply always_mono; [|exact H]. by intros [a|e].
Qed.
Lemma wp_try {Q E A B S} (m : monitor Q S) s (p : prog Q (result E A)) (f : A -> prog Q (result E B)) post :
  wp m s p (fun s r => match r with Ok a => wp m s (f a) post | Err e => post s (Err e) end) ->
  wp m s (try_ p f) post.
Proof.
  intros H. unfold try_. apply wp_bind. eapply wp_mono; [|exact H]. by intros s' [a|e].
Qed.
Lemma always_then {Q A B} (t : test Q) (p : prog Q A) (f : A -> prog Q B) post :
  always t p (fun a => always t (f a) post) -> always t (bind p f) post.
Proof. apply always_bind. Qed.
Lemma always_ask_done {Q X} (t : test Q) (q : Q X) (post : X -> Prop) :
  t X q = true -> (forall x, post x) -> always t (ask q) post.
Proof. intros Ht Hp x. unfold stateless. rewrite Ht. apply Hp. Qed.

Lemma wp_then {Q A B S} (m : monitor Q S) s (p : prog Q A) (f : A -> prog Q B) post :
  wp m s p (fun s a => wp m s (f a) post) -> wp m s (bind p f) post.
Proof. apply wp_bind. Qed.
Lemma wp_ask {Q X S} (m : monitor Q S) s (q : Q X) (post : S -> X -> Prop) :
  (forall x, match m X s q x with Some s' => post s' x | None => False end) -> wp m s (ask q) post.
Proof. intros H x. specialize (H x). by destruct (m X s q x). Qed.
Lemma watch_then {Q A B S} (m : monitor Q S) s h (p : prog Q A) (f : A -> prog Q B) s' a :
  watch m s h p = Some (s', a) -> watch m s h (bind p f) = watch m s' h (f a).
Proof.
  revert s. induction p as [b|X q k IH]; simpl; intros s; [by intros [= -> ->]|].
  destruct (m X s q (h X q)); [apply IH|done].
Qed.
Lemma wp_ret {Q A S} (m : monitor Q S) s (a : A) (post : S -> A -> Prop) : post s a -> wp m s (Ret a) post.
Proof. done. Qed.

(** The same walk for a monitor, whose step [unf] unfolds at each question. *)
Ltac wp_step unf :=
  lazymatch goal with
  | |- forall _, _ => intro
  | |- wp _ _ (try_ _ _) _ => apply wp_try
  | |- wp _ _ (bind _ _) _ => apply wp_then
  | |- wp _ _ (ask _) _ => apply wp_ask; intro; unf tt
  | |- wp _ _ (Ret _) _ => apply wp_ret
  | |- wp _ _ (match ?x with _ => _ end) _ => destruct x eqn:?
  | |- match ?x with Ok _ => _ | Err _ => _ end => destruct x eqn:?
  end.
Ltac wp_walk unf := repeat (cbn beta iota zeta; wp_step unf); cbn beta iota zeta.

(** Walks a program question by question: answers are taken apart where the program
    does, and the test is evaluated at each question. *)
Ltac walk_step :=
  lazymatch goal with
  | |- forall _, _ => intro
  | |- always _ (try_ _ _) _ => apply always_try
  | |- always _ (bind _ _) _ => apply always_then
  | |- always _ (ask _) _ => apply always_ask_done; [try reflexivity|]
  | |- always _ (Ask _ _) _ => apply always_ask; [try reflexivity|]
  | |- always _ (Ret _) _ => apply always_ret
  | |- always _ (match ?x with _ => _ end) _ => destruct x eqn:?
  | |- match ?x with Ok _ => _ | Err _ => _ end => destruct x eqn:?
  | |- always _ (let _ := _ in _) _ => cbv zeta
  end.
Ltac walk := repeat (cbn beta iota zeta; walk_step); cbn beta iota zeta.
End Prog.

(** * What a program may ask, given what it has been told

    [guarded g log p post]: on every run of [p], each question is one the guard [g] allows
    after the questions and answers so far, [log]; and what [p] returns, with the log it
    ends with, satisfies [post]. *)

Module History.
Import Prog.
Section History.
Context {Q : Type -> Type}.

Inductive event :=
| Event {X : Type} (q : Q X) (x : X).
Definition guard := list event -> forall X, Q X -> Prop.
Fixpoint guarded {A} (g : guard) (log : list event) (p : prog Q A) (post : list event -> A -> Prop) : Prop :=
  match p with
  | Ret a => post log a
  | Ask q k => forall x, g log _ q /\ guarded g (Event q x :: log) (k x) post
  end.

(** Nothing that happened is forgotten. *)
Definition grows (log log' : list event) : Prop := forall e, e ∈ log -> e ∈ log'.
Lemma grows_refl log : grows log log.
Proof. by intros e. Qed.
Lemma grows_cons e log : grows log (e :: log).
Proof. intros x I. by right. Qed.
Lemma grows_trans a b c : grows a b -> grows b c -> grows a c.
Proof. unfold grows. auto. Qed.

Lemma guarded_mono {A} g log (p : prog Q A) (post post' : list event -> A -> Prop) :
  (forall l a, grows log l -> post l a -> post' l a) -> guarded g log p post -> guarded g log p post'.
Proof.
  revert log. induction p as [a|X q k IH]; cbn; intros log M; [intros P; by apply M|].
  intros K x. destruct (K x) as [G K']. split; [done|]. apply IH; [|done]. intros l a W. apply M. eapply grows_trans; [apply grows_cons|exact W].
Qed.
Lemma guarded_then {A B} g log (p : prog Q A) (f : A -> prog Q B) post :
  guarded g log p (fun l a => guarded g l (f a) post) -> guarded g log (bind p f) post.
Proof.
  revert log. induction p as [a|X q k IH]; cbn; intros log; [done|]. intros K x. destruct (K x) as [G K']. split; [done|]. by apply IH.
Qed.
Lemma guarded_try {E A B} g log (p : prog Q (result E A)) (f : A -> prog Q (result E B)) post :
  guarded g log p (fun l r => match r with Ok a => guarded g l (f a) post | Err e => post l (Err e) end) ->
  guarded g log (try_ p f) post.
Proof. intros W. apply guarded_then. eapply guarded_mono; [|exact W]. by intros l [a|e] _. Qed.
Lemma guarded_ask {X} (g : guard) log (q : Q X) (post : list event -> X -> Prop) :
  g log X q -> (forall x, post (Event q x :: log) x) -> guarded g log (ask q) post.
Proof. intros G P x. split; [done|apply P]. Qed.
Lemma guarded_ret {A} g log (a : A) (post : list event -> A -> Prop) : post log a -> guarded g log (Ret a) post.
Proof. done. Qed.

(** A program that asks only what the guard always allows. *)
Lemma guarded_always {A} (g : guard) (t : test Q) log (p : prog Q A) (post : A -> Prop) (post' : list event -> A -> Prop) :
  (forall l X q, t X q = true -> g l X q) -> always t p post ->
  (forall l a, grows log l -> post a -> post' l a) -> guarded g log p post'.
Proof.
  intros T. unfold always. revert log. induction p as [a|X q k IH]; cbn; intros log W M; [apply M; [apply grows_refl|apply W]|].
  intros x. specialize (W x). unfold stateless in W. destruct (t X q) eqn:E; [|done]. split; [by apply T|].
  apply IH; [done|]. intros l a L. apply M. eapply grows_trans; [apply grows_cons|exact L].
Qed.
End History.
Arguments event Q : clear implicits.
Arguments guard Q : clear implicits.
End History.
