(* ===== verification/Outbound.v ===== *)
(** * The outbound transforms: internal/outbound/prepare.go

    What every message goes through just before it is relayed: the Bcc field is removed
    and the message signed. The header is read line by line as the code reads it. *)

From S2P Require Import Prelude GoStrings.
From Stdlib Require Import Ascii.
Import GoStrings.

Module Outbound.
Definition crlf2 : string := crlf +:+ crlf.
Definition lf1 : string := String lf EmptyString.
Definition lf2 : string := lf1 +:+ lf1.
Definition tab : string := String (byte 9) EmptyString.

(** The header with the blank line that ends it, the body, and the line ending. *)
Definition headerBodySplit (raw : string) : string * string * string :=
  match Cut raw crlf2 with
  | Some (h, b) => (h +:+ crlf2, b, crlf)
  | None => match Cut raw lf2 with
            | Some (h, b) => (h +:+ lf2, b, lf1)
            | None => (raw, "", crlf)
            end
  end.

(** [strings.Split] on CRLF or LF. *)
Fixpoint split_crlf (s : string) : list string :=
  match s with
  | EmptyString => [""]
  | String a r =>
      match r with
      | String b r2 =>
          if ascii_dec a cr then
            if ascii_dec b lf then "" :: split_crlf r2 else push a (split_crlf r)
          else push a (split_crlf r)
      | EmptyString => push a (split_crlf r)
      end
  end.
Definition split_lines (s eol : string) : list string :=
  if bool_decide (eol = crlf) then split_crlf s else split_byte lf s.

Definition blank_byte (a : ascii) : bool := bool_decide (a = " "%char) || bool_decide (a = byte 9).
Definition TrimRight (s : string) : string := srev (trim_left_set blank_byte (srev s)).
Definition folded (line : string) : bool := HasPrefix line " " || HasPrefix line tab.

#[local] Arguments folded : simpl never.
Section Fields.
Context `{Unicode}.

Definition hasHeaderName (line name : string) : bool :=
  match cut_byte ":"%char line with
  | None => false
  | Some (before, _) => EqualFold (TrimRight before) name
  end.

(** The loop of [StripBcc]: the lines kept, and whether any was removed. *)
Fixpoint strip_lines (name : string) (skipping : bool) (lines : list string) : list string * bool :=
  match lines with
  | [] => ([], false)
  | line :: rest =>
      if skipping && folded line then
        let '(out, removed) := strip_lines name skipping rest in (out, removed)
      else if hasHeaderName line name then
        let '(out, _) := strip_lines name true rest in (out, true)
      else let '(out, removed) := strip_lines name false rest in (line :: out, removed)
  end.

Definition StripBcc (raw : string) : string :=
  let '(header, body, eol) := headerBodySplit raw in
  let '(out, removed) := strip_lines "Bcc" false (split_lines header eol) in
  if removed then Join out eol +:+ body else raw.

Definition HasDKIMSignature (raw : string) : bool :=
  let '(header, _, eol) := headerBodySplit raw in
  existsb (fun line => hasHeaderName line "DKIM-Signature") (split_lines header eol).

(** The loop of [TLSOptional]: the field's values, unfolded. *)
Fixpoint tls_values (inField : bool) (values : list string) (lines : list string) : list string :=
  match lines with
  | [] => values
  | line :: rest =>
      if folded line then
        tls_values inField
          (if inField then match reverse values with
                           | v :: vs => reverse ((v +:+ line) :: vs)
                           | [] => values
                           end else values) rest
      else if hasHeaderName line "TLS-Required" then
        tls_values true (values ++ [match cut_byte ":"%char line with Some (_, v) => v | None => "" end]) rest
      else tls_values false values rest
  end.
Definition TLSOptional (raw : string) : bool :=
  let '(header, _, eol) := headerBodySplit raw in
  match tls_values false [] (split_lines header eol) with
  | [v] => EqualFold (TrimSpace v) "No"
  | _ => false
  end.

(** ** Removing a field *)

(** Lines grouped into fields: a line and the folded lines after it. *)
Fixpoint group (lines : list string) : list (list string) :=
  match lines with
  | [] => []
  | line :: rest =>
      match group rest with
      | (f0 :: more) :: fields =>
          if folded f0 then (line :: f0 :: more) :: fields else [line] :: (f0 :: more) :: fields
      | other => [line] :: other
      end
  end.
Definition named (name : string) (field : list string) : bool :=
  match field with l :: _ => hasHeaderName l name | [] => false end.

Definition keep (name : string) (lines : list string) : list string :=
  concat (filter (fun f => named name f = false) (group lines)).

(** A folded line never starts a field of the name. *)
Definition unfoldable (name : string) : Prop :=
  forall line, folded line = true -> hasHeaderName line name = false.

(** The folded lines a list starts with belong to the field before it. *)
Lemma group_cons_folded l rest f fields :
  group rest = f :: fields ->
  group (l :: rest) = if match f with f0 :: _ => folded f0 | [] => false end
                      then (l :: f) :: fields else [l] :: f :: fields.
Proof. simpl. intros ->. destruct f as [|f0 f]; [done|]. by destruct (folded f0). Qed.

Lemma group_cons_shape line rest : exists more fields, group (line :: rest) = (line :: more) :: fields.
Proof.
  simpl. destruct (group rest) as [|[|f0 f] fs]; [by exists [], []|by eexists _, _|].
  destruct (folded f0); by eexists _, _.
Qed.

Definition after_field (name : string) (skipping : bool) (lines : list string) : list string :=
  match lines with
  | l :: _ => if skipping && folded l
              then concat (filter (fun f => named name f = false) (tail (group lines)))
              else keep name lines
  | [] => []
  end.

Lemma keep_cons name line rest :
  unfoldable name ->
  keep name (line :: rest)
  = if hasHeaderName line name then after_field name true rest
    else line :: keep name rest.
Proof.
  intros Hu. unfold keep. destruct rest as [|l rest].
  - simpl. destruct (hasHeaderName line name) eqn:E;
      [rewrite filter_cons_False by (simpl; congruence)|rewrite filter_cons_True by done]; done.
  - destruct (group_cons_shape l rest) as (more & fs & Eg).
    rewrite (group_cons_folded _ _ _ _ Eg). cbn [after_field andb]. unfold keep. rewrite Eg. cbn [tail].
    destruct (folded l) eqn:Ef; cbn [named].
    + pose proof (Hu l Ef) as Hl.
      rewrite (filter_cons_True _ (l :: more)) by done.
      destruct (hasHeaderName line name) eqn:E;
        [rewrite filter_cons_False by (simpl; congruence)|rewrite filter_cons_True by done]; done.
    + destruct (hasHeaderName line name) eqn:E;
        [rewrite (filter_cons_False _ [line]) by (simpl; congruence)
        |rewrite (filter_cons_True _ [line]) by done]; done.
Qed.

Lemma after_field_cons_folded name line rest :
  folded line = true -> after_field name true (line :: rest) = after_field name true rest.
Proof.
  intros Hf. cbn [after_field andb]. rewrite Hf. destruct rest as [|l rest]; [done|].
  destruct (group_cons_shape l rest) as (more & fs & Eg).
  rewrite (group_cons_folded _ _ _ _ Eg). cbn [after_field andb]. unfold keep. rewrite Eg.
  by destruct (folded l).
Qed.

(** The loop keeps exactly the fields that are not named [name], with all their lines. *)
Lemma strip_lines_spec name skipping lines :
  unfoldable name ->
  (strip_lines name skipping lines).1 = after_field name skipping lines /\
  ((strip_lines name skipping lines).2 = false -> skipping = false ->
   (strip_lines name skipping lines).1 = lines).
Proof.
  intros Hu. revert skipping. induction lines as [|line rest IH]; intros skipping; [done|].
  simpl. destruct (skipping && folded line) eqn:Es.
  - apply andb_true_iff in Es as [-> Hf].
    destruct (IH true) as [IH1 _]. destruct (strip_lines name true rest) as [out r]. simpl in *.
    split; [|done]. rewrite IH1. symmetry. pose proof (after_field_cons_folded name line rest Hf) as E.
    simpl in E. rewrite Hf in E. exact E.
  - rewrite keep_cons by done. destruct (hasHeaderName line name) eqn:En.
    + destruct (IH true) as [IH1 _]. by destruct (strip_lines name true rest) as [out r].
    + destruct (IH false) as [IH1 IH2]. destruct (strip_lines name false rest) as [out r]. simpl in *.
      split; [f_equal; rewrite IH1|intros H1 _; f_equal; by apply IH2].
      by destruct rest.
Qed.

(** [StripBcc] keeps the body and every header field not named Bcc with all its
    folded lines, drops every field named Bcc with all of its, and returns a message
    without one byte for byte. *)
Theorem strip_bcc_exact raw header body eol :
  unfoldable "Bcc" -> headerBodySplit raw = (header, body, eol) ->
  let lines := split_lines header eol in
  StripBcc raw = Join (keep "Bcc" lines) eol +:+ body \/
  StripBcc raw = raw /\ keep "Bcc" lines = lines.
Proof.
  intros Hu Eh lines. unfold StripBcc. rewrite Eh. fold lines.
  destruct (strip_lines_spec "Bcc" false lines Hu) as [E1 E2].
  assert (after_field "Bcc" false lines = keep "Bcc" lines) as Ek by (by destruct lines).
  destruct (strip_lines "Bcc" false lines) as [out removed]. simpl in *. rewrite Ek in E1.
  destruct removed; [left; by rewrite E1|]. right. split; [done|]. by rewrite <- E1, E2.
Qed.
End Fields.

Lemma folded_no_bcc : @unfoldable unicode_caseless "Bcc".
Proof.
  intros line Hf. unfold hasHeaderName. destruct (cut_byte ":"%char line) as [[b r]|] eqn:E; [|done].
  destruct line as [|a line]; [done|].
  assert (a = " "%char \/ a = byte 9) as Ha.
  { unfold folded, HasPrefix, tab in Hf. cbn [cut_prefix] in Hf.
    destruct (ascii_dec " " a); [by left|]. destruct (ascii_dec (byte 9) a); [by right|done]. }
  simpl in E. destruct (ascii_dec a ":"%char) as [->|]; [by destruct Ha|].
  destruct (cut_byte ":"%char line) as [[b' r']|]; [|done]. simplify_eq.
  assert (TrimRight (String a b') = "" \/ exists t, TrimRight (String a b') = String a t) as [-> | [t ->]].
  { unfold TrimRight. rewrite srev_cons. generalize (srev b'). intros x.
    induction x as [|c x IH].
    - left. by destruct Ha as [-> | ->].
    - rewrite string_app_cons. simpl. destruct (blank_byte c); [done|]. right.
      rewrite srev_cons, srev_app_string. by eexists. }
  - done.
  - unfold EqualFold, uni_fold, unicode_caseless.
    assert (smap lower_byte (String a t) <> smap lower_byte "Bcc") as Hne
      by (intros Heq; apply (f_equal (String.get 0)) in Heq; destruct Ha as [-> | ->];
          vm_compute in Heq; discriminate Heq).
    destruct (_ && _); by rewrite bool_decide_eq_false_2.
Qed.

Definition mail_with_bcc : string :=
  "From: a@b.example" +:+ crlf +:+ "Bcc: c@d.example," +:+ crlf +:+ " e@f.example" +:+ crlf
  +:+ "Subject: hi" +:+ crlf2 +:+ "Bcc: stays in the body".
Lemma strip_bcc_exact_witness :
  @StripBcc unicode_caseless mail_with_bcc
  = "From: a@b.example" +:+ crlf +:+ "Subject: hi" +:+ crlf2 +:+ "Bcc: stays in the body".
Proof.
  destruct (headerBodySplit mail_with_bcc) as [[h b] eol] eqn:E.
  destruct (@strip_bcc_exact unicode_caseless mail_with_bcc h b eol folded_no_bcc E) as [H|[_ H]];
    vm_compute in E; simplify_eq.
  - rewrite H. vm_compute. reflexivity.
Defined.
End Outbound.
