(* ===== verification/Dsn.v ===== *)
(** * The bounce message: worker.go's [buildDSNMessage]

    The RFC 3464 report a failed message's sender gets. It is assembled from lines, each
    ended by CRLF, and carries text from the remote peer and from the failed row's
    envelope; the theorem says none of it can add or forge a field. *)

From S2P Require Import Prelude GoTime GoStrings GoDate MailAddress Classify QueueModel Outbound.
From Stdlib Require Import Ascii.
Import GoTime GoStrings GoDate MailAddress Errors Failure Row Outbound.
Local Open Scope Z_scope.

Module Dsn.
Record builtDSN := { messageID : string; raw : string; subject : string; humanPart : string }.

(** ["%X"] of an ASCII rune. *)
Definition hex_digit (k : Z) : string :=
  String (default "0"%char (String.get (Z.to_nat k) "0123456789ABCDEF")) "".
Definition hex_small (n : Z) : string :=
  if n <? 16 then hex_digit n else hex_digit (n / 16) +:+ hex_digit (n mod 16).

Definition unitext_rune (r : rune) : string :=
  match r with
  | Rune (String a EmptyString) =>
      let n := byte_z a in
      if (127 <? n) || (32 <? n) && (n <? 127) && negb (n =? 43) && negb (n =? 61) && negb (n =? 92)
      then String a EmptyString
      else "\x{" +:+ hex_small n +:+ "}"
  | r => write_rune r
  end.
Definition dsnRecipientField (addr : string) : string :=
  if is_ascii addr then "rfc822; " +:+ addr
  else "utf-8; " +:+ concat_all (map unitext_rune (runes addr)).

(** Lines, each ended by CRLF. *)
Definition lines (ls : list string) : string := concat_all (map (fun l => l +:+ crlf) ls).

Definition UnixNano (t : Time) : Z := GoInt.wrap64 (t - unix_epoch * Second).

Section Dsn.
(** The zone times are formatted in, in seconds east of UTC at each time. *)
Context (zone : Time -> Z).
Definition date_text (t : Time) : string := RFC1123Z t (zone t).

Definition diagnostic (smtpErr : option SMTPError) : string :=
  match smtpErr with
  | None => "smtp; delivery failed"
  | Some e => if 0 <? Code e
              then "smtp; " +:+ itoa (Code e) +:+ " " +:+ SanitizeHeaderValue (Message e)
              else "smtp; " +:+ SanitizeHeaderValue (Message e)
  end.
Definition remote_mta (smtpErr : option SMTPError) : string :=
  match smtpErr with None => "" | Some e => SanitizeHeaderValue (RemoteMTA e) end.

Definition original_headers (raw : string) : string :=
  match Cut raw crlf2 with
  | Some (h, _) => h
  | None => match Cut raw lf2 with Some (h, _) => h | None => raw end
  end.

(** Part 1, for a person. *)
Definition human_part (hostname : string) (item : OutboundQueue) (smtpErr : option SMTPError) : string :=
  let d := Description (Category item) in
  "This is the mail delivery system at " +:+ hostname +:+ "." +:+ crlf2
  +:+ "Your message could not be delivered to the following recipient:" +:+ crlf2
  +:+ "    " +:+ SanitizeHeaderValue (Recipient item) +:+ crlf2
  +:+ (if bool_decide (d <> "") then d +:+ crlf2 else "")
  +:+ (if 0 <? Attempts item
       then "The delivery has been attempted " +:+ itoa (Attempts item) +:+ " time(s)." +:+ crlf2 else "")
  +:+ "Error: " +:+ diagnostic smtpErr +:+ crlf.

(** Part 2, for a program: the message's fields, then the recipient's. *)
Definition message_fields (hostname : string) (item : OutboundQueue) : list string := [
  "Reporting-MTA: dns; " +:+ hostname;
  "Arrival-Date: " +:+ date_text (CreatedAt item)].
Definition recipient_fields (item : OutboundQueue) (smtpErr : option SMTPError) (lastAttempt : Time) : list string :=
  ["Final-Recipient: " +:+ dsnRecipientField (SanitizeHeaderValue (Recipient item));
   "Action: failed";
   "Status: " +:+ dsnStatusCode smtpErr]
  ++ (if bool_decide (remote_mta smtpErr <> "") then ["Remote-MTA: dns; " +:+ remote_mta smtpErr] else [])
  ++ ["Diagnostic-Code: " +:+ diagnostic smtpErr;
      "Last-Attempt-Date: " +:+ date_text lastAttempt].
Definition dsn_part (hostname : string) (item : OutboundQueue) (smtpErr : option SMTPError)
    (lastAttempt : Time) : string :=
  lines (message_fields hostname item) +:+ crlf +:+ lines (recipient_fields item smtpErr lastAttempt).

Definition header_fields (hostname : string) (item : OutboundQueue) (smtpErr : option SMTPError)
    (now lastAttempt : Time) : list string :=
  let boundary := "=_restmail_dsn_" +:+ itoa (UnixNano now) in
  let reportType := if is_ascii (dsn_part hostname item smtpErr lastAttempt)
                    then "delivery-status" else "global-delivery-status" in
  ["From: mailer-daemon@" +:+ hostname;
   "To: " +:+ SanitizeHeaderValue (Sender item);
   "Subject: Undelivered Mail Returned to Sender <" +:+ SanitizeHeaderValue (Recipient item) +:+ ">";
   "Date: " +:+ date_text now;
   "Message-ID: <dsn-" +:+ itoa (ID item) +:+ "-" +:+ itoa (UnixNano now) +:+ "@" +:+ hostname +:+ ">";
   "Auto-Submitted: auto-generated";
   "MIME-Version: 1.0";
   "Content-Type: multipart/report; report-type=" +:+ reportType +:+ "; boundary="
     +:+ quote +:+ boundary +:+ quote].

Definition buildDSNMessage (hostname : string) (item : OutboundQueue) (smtpErr : option SMTPError)
    (now lastAttempt : Time) : builtDSN :=
  let boundary := "=_restmail_dsn_" +:+ itoa (UnixNano now) in
  let msgID := "<dsn-" +:+ itoa (ID item) +:+ "-" +:+ itoa (UnixNano now) +:+ "@" +:+ hostname +:+ ">" in
  let originalHeaders := original_headers (RawMessage item) in
  let human := human_part hostname item smtpErr in
  let dsnPart := dsn_part hostname item smtpErr lastAttempt in
  let reportType := if is_ascii dsnPart then "delivery-status" else "global-delivery-status" in
  let headersType := if is_ascii originalHeaders then "text/rfc822-headers" else "message/global-headers" in
  {| messageID := msgID;
     raw := lines (header_fields hostname item smtpErr now lastAttempt) +:+ crlf
            +:+ lines ["--" +:+ boundary; "Content-Type: text/plain; charset=utf-8"; ""]
            +:+ human +:+ crlf
            +:+ lines ["--" +:+ boundary; "Content-Type: message/" +:+ reportType; ""]
            +:+ dsnPart +:+ crlf
            +:+ lines ["--" +:+ boundary; "Content-Type: " +:+ headersType; ""]
            +:+ originalHeaders +:+ crlf
            +:+ "--" +:+ boundary +:+ "--" +:+ crlf;
     subject := "Undelivered Mail Returned to Sender <" +:+ SanitizeHeaderValue (Recipient item) +:+ ">";
     humanPart := human |}.

(** ** What a reader sees *)

(** Lines up to the first empty one, and the rest: how a header block is read. *)
Fixpoint read_block (fuel : nat) (s : string) : list string * string :=
  match fuel with
  | O => ([], s)
  | S fuel =>
      match Cut s crlf with
      | None => ([], s)
      | Some (l, r) => if bool_decide (l = "") then ([], r)
                       else let '(ls, rest) := read_block fuel r in (l :: ls, rest)
      end
  end.
Definition field_name (l : string) : string :=
  match cut_byte ":"%char l with Some (n, _) => n | None => l end.

Lemma Cut_line l r : sforall not_ctl l = true -> Cut (l +:+ crlf +:+ r) crlf = Some (l, r).
Proof.
  induction l as [|a l IH]; intros Hl.
  - assert (cut_prefix crlf (String cr (String lf r)) = Some r) as E by done.
    change ("" +:+ crlf +:+ r) with (String cr (String lf r)). cbn [Cut]. by rewrite E.
  - simpl in Hl. apply andb_true_iff in Hl as [Ha Hl]. rewrite string_app_cons.
    assert (cut_prefix crlf (String a (l +:+ crlf +:+ r)) = None) as E.
    { unfold crlf. cbn [cut_prefix]. destruct (ascii_dec cr a) as [<-|]; done. }
    cbn [Cut]. by rewrite E, IH.
Qed.

(** A block of non-empty lines free of control characters reads back as itself. *)
Lemma read_lines fuel ls rest :
  (List.length ls < fuel)%nat ->
  Forall (fun l => l <> "" /\ sforall not_ctl l = true) ls ->
  read_block fuel (lines ls +:+ crlf +:+ rest) = (ls, rest).
Proof.
  intros Hf Hls. revert fuel Hf. induction Hls as [|l ls [Hne Hl] _ IH]; intros [|fuel] Hf;
    cbn [List.length] in Hf; try lia; unfold lines; cbn [map concat_all foldr read_block].
  - change (EmptyString +:+ crlf +:+ rest) with ("" +:+ crlf +:+ rest). rewrite Cut_line by done. done.
  - fold (concat_all (map (fun l => l +:+ crlf) ls)). fold (lines ls).
    rewrite !app_string_assoc, Cut_line by done. rewrite bool_decide_eq_false_2 by done.
    by rewrite IH by lia.
Qed.

(** *** Every line is clean *)

Lemma printable_not_ctl s : sforall printable s = true -> sforall not_ctl s = true.
Proof. apply sforall_impl. intros a. by destruct a as [[] [] [] [] [] [] [] []]. Qed.
Lemma itoa_not_ctl z : sforall not_ctl (itoa z) = true.
Proof. apply printable_not_ctl, printable_itoa. Qed.
Lemma date_not_ctl t : sforall not_ctl (date_text t) = true.
Proof. apply printable_not_ctl, printable_RFC1123Z. Qed.

(** A rune of the utf-8 form is printable, or not ASCII, or spelt out. *)
Lemma unitext_not_ctl r : high_or_clean r -> sforall not_ctl (unitext_rune r) = true.
Proof.
  destruct r as [c|]; [|done]. destruct c as [|a [|b c]]; [done| |by intros].
  intros _. by destruct a as [[] [] [] [] [] [] [] []].
Qed.
Lemma recipient_not_ctl s : sforall not_ctl s = true -> sforall not_ctl (dsnRecipientField s) = true.
Proof.
  intros Hs. unfold dsnRecipientField. destruct (is_ascii s); rewrite sforall_app; [by rewrite Hs|].
  apply andb_true_iff. split; [done|]. apply sforall_concat_all, Forall_map.
  eapply Forall_impl; [apply runes_clean|]. apply unitext_not_ctl.
Qed.

Definition clean_error (smtpErr : option SMTPError) : Prop :=
  match smtpErr with Some e => sforall not_ctl (Enhanced e) = true | None => True end.
Lemma diagnostic_not_ctl e : sforall not_ctl (diagnostic e) = true.
Proof.
  destruct e as [e|]; [|done]. unfold diagnostic.
  destruct (0 <? Code e); by rewrite ?sforall_app, ?itoa_not_ctl, ?sanitize_not_ctl.
Qed.
Lemma remote_not_ctl e : sforall not_ctl (remote_mta e) = true.
Proof. destruct e; [apply sanitize_not_ctl|done]. Qed.
Lemma status_not_ctl e : clean_error e -> sforall not_ctl (dsnStatusCode e) = true.
Proof.
  destruct e as [e|]; [|done]. unfold clean_error, dsnStatusCode. intros He.
  destruct (bool_decide _); [done|]. destruct (_ && _); [|done]. by rewrite sforall_app, itoa_not_ctl.
Qed.

Ltac clean_lines := repeat first
  [ rewrite sforall_app | rewrite itoa_not_ctl | rewrite sanitize_not_ctl
  | rewrite date_not_ctl | rewrite diagnostic_not_ctl | rewrite remote_not_ctl
  | rewrite status_not_ctl by done
  | rewrite recipient_not_ctl by apply sanitize_not_ctl
  | match goal with Hh : sforall not_ctl ?h = true |- context [sforall not_ctl ?h] => rewrite Hh end ];
  try reflexivity.

Definition fine (l : string) : Prop := l <> "" /\ sforall not_ctl l = true.

Lemma header_fine hostname item e now last :
  sforall not_ctl hostname = true -> Forall fine (header_fields hostname item e now last).
Proof.
  intros Hh. unfold header_fields. repeat constructor; try done; clean_lines.
  by destruct (is_ascii _).
Qed.
Lemma message_fine hostname item :
  sforall not_ctl hostname = true -> Forall fine (message_fields hostname item).
Proof. intros Hh. unfold message_fields. repeat constructor; try done; clean_lines. Qed.
Lemma recipient_fine item e last : clean_error e -> Forall fine (recipient_fields item e last).
Proof.
  intros He. unfold recipient_fields. repeat (apply Forall_app; split).
  - repeat constructor; try done; clean_lines.
  - destruct (bool_decide _); repeat constructor; try done; clean_lines.
  - repeat constructor; try done; clean_lines.
Qed.

(** whatever the remote answered and whatever the failed row's envelope holds, the
    bounce reads back with exactly its eight header fields, among them
    Auto-Submitted; its status part with exactly its two blocks of RFC 3464 fields;
    nothing the peer or the row supplied can add, forge or end a field. *)
Theorem bounce_fields_exact hostname item e now last :
  sforall not_ctl hostname = true -> clean_error e ->
  (exists body, read_block 20 (raw (buildDSNMessage hostname item e now last))
                = (header_fields hostname item e now last, body)) /\
  map field_name (header_fields hostname item e now last)
  = ["From"; "To"; "Subject"; "Date"; "Message-ID"; "Auto-Submitted"; "MIME-Version"; "Content-Type"] /\
  (let '(fields1, rest) := read_block 20 (dsn_part hostname item e last) in
   map field_name fields1 = ["Reporting-MTA"; "Arrival-Date"] /\
   map field_name (fst (read_block 20 (rest +:+ crlf)))
   = ["Final-Recipient"; "Action"; "Status"]
     ++ (if bool_decide (remote_mta e <> "") then ["Remote-MTA"] else [])
     ++ ["Diagnostic-Code"; "Last-Attempt-Date"]).
Proof.
  intros Hh He. split_and!.
  - eexists. unfold buildDSNMessage. cbn [raw]. apply read_lines; [simpl; lia|by apply header_fine].
  - unfold header_fields. by destruct (is_ascii _).
  - unfold dsn_part. rewrite read_lines; [|simpl; lia|by apply message_fine]. split; [done|].
    rewrite <- (app_string_nil crlf), read_lines; [|unfold recipient_fields; destruct (bool_decide _); simpl; lia|by apply recipient_fine].
    unfold recipient_fields. cbn [fst]. rewrite !map_app. by destruct (bool_decide _).
Qed.
End Dsn.

(** A multi-line reply and a poisoned recipient that try to inject fields. *)
Definition hostile_item : OutboundQueue := {|
  ID := 7; MessageID := None; Sender := "alice@a.example";
  Recipient := "bob@b.example" +:+ crlf +:+ "Bcc: victim@c.example"; Domain := "b.example";
  SendingDomain := ""; RawMessage := "Subject: hi" +:+ crlf2 +:+ "text"; BodyType := "";
  Status := Bounced; Attempts := 1; LastAttempt := None; NextAttempt := 0; LastError := "";
  LastErrorCode := 550; Category := FailurePolicy; MaxRetries := 60; IsDSN := false; CreatedAt := 0;
  ExpiresAt := 0; ARCResults := ""; ARCChain := ""; TLSReport := false; RequireTLS := false;
  Transport := TransportNone |}.
Definition hostile_error : SMTPError := {|
  Code := 550; Enhanced := "5.7.1"; Message := "no" +:+ crlf2 +:+ "Action: delivered";
  RemoteMTA := "mx.b.example" |}.

Lemma bounce_fields_exact_witness :
  map field_name (fst (read_block 20 (raw (buildDSNMessage (fun _ => 0) "mail.a.example" hostile_item
    (Some hostile_error) (at_unix 1700000000) (at_unix 1700000000)))))
  = ["From"; "To"; "Subject"; "Date"; "Message-ID"; "Auto-Submitted"; "MIME-Version"; "Content-Type"].
Proof.
  destruct (bounce_fields_exact (fun _ => 0) "mail.a.example" hostile_item (Some hostile_error)
    (at_unix 1700000000) (at_unix 1700000000) eq_refl eq_refl) as ([body E] & N & _).
  rewrite E. exact N.
Defined.
End Dsn.
