(* ===== verification/Smtp.v ===== *)
(** * The outside of a delivery

    Everything an outbound delivery asks: the clock, the DNS, the database, the sockets of
    an SMTP conversation and the RESTMAIL requests. The code that asks is in [Tls] (the
    TLS-RPT records and DANE lookups), [Send] and [Delivery]. *)

From S2P Require Import Prelude GoTime GoStrings GoDate GoNet MailAddress Classify SRS Prog Outbound.
From Stdlib Require Import Ascii.
Import GoTime GoStrings Errors Prog.
Local Open Scope Z_scope.

(** ** Third-party code *)

Module Sts.
(** github.com/rest-mail/go-mtasts: a policy, and what [Evaluate] is given. *)
Record Policy := { Version : string; Mode : string; MX : list string; MaxAge : Z }.
Definition ModeEnforce : string := "enforce".
Definition ModeTesting : string := "testing".
Record EvalInput := {
  EPolicy : option Policy; EDomain : string; EMXHost : string;
  STARTTLS : bool; CertValid : bool; AllowInsecureDowngrade : bool
}.
End Sts.

Class Mtasts := {
  MatchesMX : Sts.Policy -> string -> bool;
  Evaluate : Sts.EvalInput -> option error;
}.
(** RFC 8461 section 5, as the library documents [Evaluate]: an enforce policy refuses a
    session without TLS, or with a certificate that does not verify, unless the caller
    allows the downgrade. *)
Definition evaluate_enforces `{Mtasts} : Prop :=
  forall i p, Sts.EPolicy i = Some p -> Sts.Mode p = Sts.ModeEnforce ->
    Sts.AllowInsecureDowngrade i = false -> Sts.STARTTLS i && Sts.CertValid i = false ->
    Evaluate i <> None.

(** [net/url], [encoding/json]: the operations the RESTMAIL hop uses. *)
Record URL := {
  Scheme : string; Hostname : string; has_user : bool; RawQuery : string;
  ForceQuery : bool; Fragment : string; Opaque : string
}.
Class WebLib := {
  url_Parse : string -> result error URL;
  url_QueryEscape : string -> string;
  strconv_Quote : string -> string;                 (* "%q" *)
  json_strings : list string -> string;
  json_endpoint : string -> result error string;    (* decode a discovery document *)
  json_error_code : string -> option string;        (* decode an error body *)
}.

(** ** The data *)

Module Wire.
Record MX := { Host : string; Pref : Z }.
Inductive Security := Insecure | Secure | Bogus.
#[export] Instance Security_eq : EqDecision Security.
Proof. solve_decision. Defined.
Record TLSA := { Usage : Z; Selector : Z; MatchingType : Z; Data : list Z }.

(** A connected socket, with both its ends' addresses. *)
Record conn := { cid : nat; localIP : string; remoteIP : string }.
(** The EHLO extensions a server offered, with their parameters. *)
Definition extensions := list (string * string).

Inductive transport := transportAuthenticated | transportEncrypted | transportCleartext.
#[export] Instance transport_eq : EqDecision transport.
Proof. solve_decision. Defined.

(** [smtpLink], with the EHLO answer its [client] holds and the host it was opened for. *)
Record smtpLink := {
  lconn : conn;
  lhost : string;
  exts : extensions;
  security : transport;
  tlsErr : option error;
  certErr : option error
}.
Definition Extension (x : extensions) (name : string) : option string :=
  snd <$> find (fun e => bool_decide (fst e = name)) x.
Definition offers (x : extensions) (name : string) : bool :=
  match Extension x name with Some _ => true | None => false end.

(** How the certificate of a handshake is judged. *)
Inductive verification :=
| VRequired (host : string)                          (* crypto/tls verifies it for the host *)
| VRecorded (host : string)                          (* judged, the verdict only recorded *)
| VDANE (records : list TLSA) (host : string).       (* dane.Verify *)

(** The steps of a conversation that have a timer each. *)
Inductive step := SGreeting | SHello | SStartTLS | SAuth | SMail | SRcpt | SData | SDataBlock
                | SFinalReply | SQuit.
#[export] Instance step_eq : EqDecision step.
Proof. solve_decision. Defined.

(** models.TLSRPTSession and models.RESTMAILCapability. *)
Record TLSRPTSession := {
  Day : string; PolicyDomain : string; PolicyType : string; PolicyString : string; MXHost : string;
  ReceivingMX : string; ReceivingIP : string; SendingIP : string;
  ResultType : string; FailureReason : string
}.
Record Capability := {
  CapDomain : string; CapMXHost : string; Supported : bool; LastProbed : Time; CapExpiresAt : Time
}.
(** models.DomainRelay, without its keys. *)
Record DomainRelay := {
  RTransport : string; RHost : string; Port : Z; TLSMode : string; Username : string; PasswordEnc : string
}.
(** What [domainKey] reads of a hosted domain. *)
Record DomainKey := { KName : string; DKIMSelector : string; DKIMPrivateKey : string }.
End Wire.

(** ** The questions *)

Module Outside.
Import Wire.

Inductive Q : Type -> Type :=
(* the clock and the DNS *)
| QNow : Q Time
| QLookupMX (name : string) : Q (result error (list MX))
| QLookupHost (name : string) : Q (result error unit)
| QMXSecure (domain : string) : Q (result error Security)
| QTLSA (host : string) (port : Z) : Q (result error (list TLSA * Security))
| QResolveSTS (domain : string) : Q (result error Sts.Policy)
(* the database *)
| QHostedCount (ascii : string) : Q (result error Z)
| QRelayRow (domain : string) : Q (result error (option DomainRelay))
| QDecrypt (ciphertext : string) : Q (result error string)
| QDomainKey (domain : string) : Q (option DomainKey)
| QFindCapability (domain : string) : Q (option Capability)
| QStoreCapability (c : Capability) : Q unit
| QPin (id : Z) : Q (result error unit)
| QNoteSMTP (id : Z) : Q unit
| QStoreSession (row : TLSRPTSession) : Q unit
(* signing: the key's at-rest form decrypted, parsed and used *)
| QDKIMSign (key : DomainKey) (ascii raw : string) : Q (result error string)
| QSealARC (domain raw results chain : string) : Q (result error string)
(* an SMTP conversation with an MX *)
| QDial (addr : string) : Q (result error conn)
| QArm (c : conn) (s : step) (d : Duration) : Q unit
| QGreeting (c : conn) (host : string) : Q (result error unit)
| QHello (c : conn) (hostname : string) : Q (result error extensions)
| QStartTLS (c : conn) (v : verification) (rearm : step * Duration) : Q (result error (extensions * option error))
| QMail (l : smtpLink) (cmd : string) : Q (result error unit)
| QRcpt (l : smtpLink) (cmd : string) : Q (result error unit)
| QData (l : smtpLink) : Q (result error unit)
| QWrite (l : smtpLink) (block : string) : Q (result error unit)
| QFlush (l : smtpLink) : Q (result error unit)
| QAbort (l : smtpLink) : Q unit                     (* wc.Close() after a failed write *)
| QFinal (l : smtpLink) : Q (result error unit)
| QQuit (c : conn) : Q unit
| QClose (c : conn) : Q unit
(* a conversation with a relay *)
| QDialRelay (host : string) (port : Z) : Q (result error conn)
| QHandshake (c : conn) (host : string) : Q (result error unit)
| QVerifiedTLS (c : conn) : Q bool
| QAuthPlain (c : conn) (username password host : string) : Q (result error unit)
(* RESTMAIL over HTTPS *)
| QProbeDial (addr : string) : Q (result error conn)
| QGet (url : string) : Q (result error (Z * result error string))
| QPost (url from to raw : string) (budget : Duration) : Q (result error (Z * string)).

Definition prog A := Prog.prog Q A.
Definition outcome := prog (result error unit).
Definition ok : outcome := Ret (Ok tt).
Definition fail {A} (e : error) : prog (result error A) := Ret (Err e).
End Outside.
