(* ===== verification/Send.v ===== *)
(** * One SMTP conversation: worker.go, smtp_timeouts.go, smtputf8.go, tlsrpt.go, dane.go

    [Tls] models what a session's TLS came to, as TLS-RPT reports it, and the DANE lookups.
    [Send] models a delivery to one MX: preparing the message, opening the conversation,
    the checks on its TLS, and the commands, each under its own timer. *)

From S2P Require Import Prelude GoTime GoStrings GoDate GoNet MailAddress Classify QueueModel SRS Prog Outbound Smtp.
From Stdlib Require Import Ascii.
Import GoTime GoStrings GoDate MailAddress Errors Prog Outbound Wire Outside Row.
Local Open Scope Z_scope.
Local Open Scope prog_scope.

(** The configuration of a [Worker] a delivery reads. *)
Record Worker := {
  hostname : string;
  stsEnforce : bool;
  dane_on : bool;                      (* [w.dane != nil] *)
  masterKey : string;
  srs : option SRS.Signer;
  sendDeadline : Z -> Duration;
  smtpTimeouts : step -> Duration
}.

Definition smtp_error (code : Z) (enhanced message mta : string) : error :=
  ESMTP {| Code := code; Enhanced := enhanced; Message := message; RemoteMTA := mta |}.

Module Tls.
Definition tlsrptPolicySTS : string := "sts".
Definition tlsrptNoPolicyFound : string := "no-policy-found".
Definition tlsrptStartTLSNotSupported : string := "starttls-not-supported".
Definition tlsrptCertHostMismatch : string := "certificate-host-mismatch".
Definition tlsrptCertExpired : string := "certificate-expired".
Definition tlsrptCertNotTrusted : string := "certificate-not-trusted".
Definition tlsrptValidationFailure : string := "validation-failure".
Definition tlsrptSTSPolicyFetchError : string := "sts-policy-fetch-error".
Definition tlsrptSTSPolicyInvalid : string := "sts-policy-invalid".
Definition tlsrptSTSWebPKIInvalid : string := "sts-webpki-invalid".
Definition tlsrptPolicyTLSA : string := "tlsa".
Definition tlsrptTLSAInvalid : string := "tlsa-invalid".
Definition tlsrptDNSSECInvalid : string := "dnssec-invalid".

Definition is_hostname (e : error) : bool := has (fun x => match x with EHostname _ => true | _ => false end) e.
Definition as_invalid (e : error) : option bool :=
  first (fun x => match x with ECertInvalid expired _ => Some expired | _ => None end) e.
Definition is_unknown_authority (e : error) : bool :=
  has (fun x => match x with EUnknownAuthority _ => true | _ => false end) e.
Definition is_verification (e : error) : bool :=
  has (fun x => match x with ECertVerify _ => true | _ => false end) e.
Definition is_policy_invalid (e : error) : bool :=
  has (fun x => match x with EPolicyInvalid _ => true | _ => false end) e.
Definition is_policy_fetch (e : error) : bool :=
  has (fun x => match x with EPolicyFetch _ _ => true | _ => false end) e.

Definition isCertificateError (err : error) : bool :=
  is_verification err || is_hostname err || bool_decide (as_invalid err <> None) || is_unknown_authority err.

Section Tls.
Context `{MailLib, MtastsText, Mtasts, WebLib}.

Definition reasonCode (err : error) : string := take_bytes 255 (Error err).

(** [classifyTLSError], with [None] for a nil error. *)
Definition classifyTLSError (err : option error) : string * string :=
  match err with
  | None => (tlsrptValidationFailure, "")
  | Some err =>
      let reason := reasonCode err in
      if is_hostname err then (tlsrptCertHostMismatch, reason)
      else if bool_decide (as_invalid err = Some true) then (tlsrptCertExpired, reason)
      else if is_unknown_authority err || bool_decide (as_invalid err <> None)
      then (tlsrptCertNotTrusted, reason)
      else (tlsrptValidationFailure, reason)
  end.

Definition tlsOutcome (stsPolicy : option Sts.Policy) (host : string) (link : smtpLink) : string * string :=
  match tlsErr link with
  | Some e => classifyTLSError (Some e)
  | None =>
      if bool_decide (security link = transportCleartext) then (tlsrptStartTLSNotSupported, "")
      else match stsPolicy with
           | None => ("", "")
           | Some p =>
               if bool_decide (security link <> transportAuthenticated) then classifyTLSError (certErr link)
               else if (0 <? Z.of_nat (List.length (Sts.MX p))) && negb (MatchesMX p host)
               then (tlsrptValidationFailure, "MX host not named by the MTA-STS policy")
               else ("", "")
           end
  end.

Definition stsDiscoveryFailure (err : option error) : string * string :=
  match err with
  | None => ("", "")
  | Some e =>
      if is_policy_invalid e then (tlsrptSTSPolicyInvalid, reasonCode e)
      else if is_policy_fetch e && isCertificateError e then (tlsrptSTSWebPKIInvalid, reasonCode e)
      else if is_policy_fetch e then (tlsrptSTSPolicyFetchError, reasonCode e)
      else ("", "")
  end.

Definition stsPolicyLines (p : Sts.Policy) : list string :=
  ["version: " +:+ Sts.Version p; "mode: " +:+ Sts.Mode p]
  ++ map (fun mx => "mx: " +:+ mx) (Sts.MX p)
  ++ ["max_age: " +:+ itoa (Sts.MaxAge p)].

Definition recordTLSSession (recipientDomain host : string) (stsPolicy : option Sts.Policy)
    (stsErr : option error) (link : smtpLink) (now : Time) : prog unit :=
  match DomainASCII recipientDomain with
  | None => Ret tt
  | Some domain =>
      let '(result, reason) := tlsOutcome stsPolicy host link in
      let row ptype pstring mx result reason := {|
        Day := ISODate now; PolicyDomain := domain; PolicyType := ptype; PolicyString := pstring;
        MXHost := mx; ReceivingMX := host; ReceivingIP := remoteIP (lconn link);
        SendingIP := localIP (lconn link); ResultType := result; FailureReason := reason |} in
      match stsPolicy with
      | Some p => ask (QStoreSession (row tlsrptPolicySTS (json_strings (stsPolicyLines p))
                                          (json_strings (Sts.MX p)) result reason))
      | None =>
          let '(failure, why) := stsDiscoveryFailure stsErr in
          if bool_decide (failure <> "")
          then ask (QStoreSession (row tlsrptPolicySTS "" "" failure why))
          else ask (QStoreSession (row tlsrptNoPolicyFound "" "" result reason))
      end
  end.

(** *** dane.go and internal/dane *)

Definition hex_digit (n : Z) : ascii := default "0"%char (String.get (Z.to_nat n) "0123456789ABCDEF").
Definition hex_upper (bs : list Z) : string :=
  concat_all (map (fun b => String (hex_digit (b / 16)) (String (hex_digit (b mod 16)) "")) bs).
Definition tlsa_line (r : TLSA) : string :=
  itoa (Usage r) +:+ " " +:+ itoa (Selector r) +:+ " " +:+ itoa (MatchingType r) +:+ " " +:+ hex_upper (Data r).

(** [link] is absent when the session never started. *)
Definition recordDANESession (recipientDomain host : string) (records : list TLSA)
    (link : option smtpLink) (now : Time) : prog unit :=
  match DomainASCII recipientDomain with
  | None => Ret tt
  | Some domain =>
      let '(result, reason) :=
        match link with
        | None => (tlsrptDNSSECInvalid, "the TLSA records failed DNSSEC validation")
        | Some l =>
            match tlsErr l with
            | Some e => if Is e EDANENoMatch then (tlsrptTLSAInvalid, Error e)
                        else (tlsrptValidationFailure, Error e)
            | None => if bool_decide (security l = transportCleartext)
                      then (tlsrptStartTLSNotSupported, "") else ("", "")
            end
        end in
      ask (QStoreSession {|
        Day := ISODate now; PolicyDomain := domain; PolicyType := tlsrptPolicyTLSA;
        PolicyString := json_strings (map tlsa_line records); MXHost := ""; ReceivingMX := host;
        ReceivingIP := match link with Some l => remoteIP (lconn l) | None => "" end;
        SendingIP := match link with Some l => localIP (lconn l) | None => "" end;
        ResultType := result; FailureReason := reason |})
  end.

Definition Usable (records : list TLSA) : list TLSA :=
  filter (fun r => ((Usage r =? 2) || (Usage r =? 3)) && (Selector r <=? 1) && (MatchingType r <=? 2) = true) records.

Definition daneMXSecure (w : Worker) (dnsDomain : string) : prog (result error bool) :=
  if negb (dane_on w) then Ret (Ok false)
  else r <- ask (QMXSecure dnsDomain);
       match r with
       | Err _ => fail (smtp_error 451 "4.4.3"
           "DANE: the validating resolver gave no answer for the recipient domain's MX records" "")
       | Ok Bogus => fail (smtp_error 451 "4.4.3"
           "DANE: the recipient domain's MX records failed DNSSEC validation" "")
       | Ok sec => Ret (Ok (bool_decide (sec = Secure)))
       end.

(** The usable records of a host, [None] (nil) when DANE does not apply to it. *)
Definition daneRecords (domain host : string) (report : bool) : prog (result error (option (list TLSA))) :=
  r <- ask (QTLSA host 25);
  match r with
  | Err _ => fail (smtp_error 451 "4.4.3"
      ("DANE: the validating resolver gave no answer for " +:+ host +:+ "'s TLSA records") host)
  | Ok (records, Bogus) =>
      (if report then now <- ask QNow; recordDANESession domain host [] None now else Ret tt) ;;
      fail (smtp_error 451 "4.4.3" ("DANE: " +:+ host +:+ "'s TLSA records failed DNSSEC validation") host)
  | Ok (records, Insecure) => Ret (Ok None)
  | Ok (records, Secure) =>
      let usable := Usable records in
      Ret (Ok (if (List.length usable =? 0)%nat then None else Some usable))
  end.

Definition daneRefusal (host : string) (link : smtpLink) : error :=
  let reason := match tlsErr link with Some e => Error e | None => "it does not offer STARTTLS" end in
  smtp_error 451 "4.7.5" ("DANE: no TLS session authenticated by " +:+ host +:+ "'s TLSA records: " +:+ reason) host.
End Tls.
End Tls.

(** internal/config/config.go: [OutboundSMTPTimeouts], a timer for each step. *)
Module Timeouts.
Definition timers := step -> Duration.
Definition DefaultOutboundSMTPTimeouts : timers := fun s =>
  match s with
  | SGreeting | SMail | SRcpt | SHello | SStartTLS | SAuth | SQuit => 5 * Minute
  | SData => 2 * Minute
  | SDataBlock => 3 * Minute
  | SFinalReply => 10 * Minute
  end.
Definition fields : list step :=
  [SGreeting; SMail; SRcpt; SData; SDataBlock; SFinalReply; SHello; SStartTLS; SAuth; SQuit].
Definition WithDefaults (t : timers) : timers := fun s =>
  if t s =? 0 then DefaultOutboundSMTPTimeouts s else t s.
Definition Longest (t : timers) : Duration :=
  fold_left (fun longest s => Z.max longest (WithDefaults t s)) fields 0.
Definition staleDeliveringReclaimMargin : Duration := 2 * Minute.
Definition Reclaim (t : timers) : Duration := GoInt.wrap64 (Longest t + staleDeliveringReclaimMargin).
End Timeouts.

Module Send.
Import Tls Timeouts.

Definition messageRequires8BitTransport `{Unicode} (bodyType raw : string) : bool :=
  let t := ToUpper (TrimSpace bodyType) in
  bool_decide (t = "8BITMIME") || bool_decide (t = "BINARYMIME") || negb (is_ascii raw).
Definition containsNonASCII (s : string) : bool := negb (is_ascii s).

(** [net.JoinHostPort] with port 25. *)
Definition smtpAddrOf (host : string) : string :=
  if contains_byte ":"%char host then "[" +:+ host +:+ "]:25" else host +:+ ":25".

(** smtputf8.go *)
Definition smtpEnvelope `{MailLib} (item : OutboundQueue) : result error (string * string) :=
  match SMTPAddressASCII (Sender item), SMTPAddressASCII (Recipient item) with
  | Some sender, Some recipient =>
      if bool_decide (recipient = "")
      then Err (smtp_error 550 "5.1.3" "invalid SMTP envelope address" "")
      else Ok (sender, recipient)
  | _, _ => Err (smtp_error 550 "5.1.3" "invalid SMTP envelope address" "")
  end.

Definition checkSMTPUTF8 (x : extensions) (sender recipient raw host : string) : result error unit :=
  let status :=
    if containsNonASCII sender || containsNonASCII recipient then "5.6.7"
    else let headers := match Cut raw crlf2 with
                        | Some (h, _) => h
                        | None => match Cut raw lf2 with Some (h, _) => h | None => raw end
                        end in
         if containsNonASCII headers then "5.6.9" else "" in
  if bool_decide (status <> "") then
    if offers x "SMTPUTF8" then
      if negb (offers x "8BITMIME")
      then Err (smtp_error 550 "5.6.3" "SMTPUTF8 next hop does not support required 8BITMIME" host)
      else Ok tt
    else Err (smtp_error 550 status "next hop does not support required SMTPUTF8" host)
  else Ok tt.

Definition line_bad (s : string) : bool := ContainsAny s [cr; lf].
Definition line_error : error := EText "smtp: a line must not contain CR or LF".

(** net/smtp's [Mail], and [mailRequireTLS], which adds REQUIRETLS: the command a sender
    becomes. *)
Definition mail_command (x : extensions) (requireTLS : bool) (from : string) : result error string :=
  if line_bad from then Err line_error
  else Ok ("MAIL FROM:<" +:+ from +:+ ">"
           +:+ (if offers x "8BITMIME" then " BODY=8BITMIME" else "")
           +:+ (if offers x "SMTPUTF8" then " SMTPUTF8" else "")
           +:+ (if requireTLS then " REQUIRETLS" else "")).
Definition rcpt_command (to : string) : result error string :=
  if line_bad to then Err line_error else Ok ("RCPT TO:<" +:+ to +:+ ">").

Section Send.
Context `{Unicode, MailLib, MtastsText, Mtasts, WebLib, SRSMac}.
Context (w : Worker).

Definition timeouts : timers := WithDefaults (smtpTimeouts w).
Definition armStep (c : conn) (s : step) : prog unit := ask (QArm c s (timeouts s)).

(** *** Preparing the message *)

(** [domainKey] and [SignDKIM]: nothing to sign with leaves the message as it is; a key
    that cannot be used is an error. *)
Definition SignDKIM (senderDomain raw : string) : prog (result error string) :=
  if bool_decide (senderDomain = "") then Ret (Ok raw)
  else key <- ask (QDomainKey senderDomain);
       match key with
       | None => Ret (Ok raw)
       | Some k =>
           if bool_decide (DKIMPrivateKey k = "") || bool_decide (DKIMSelector k = "") then Ret (Ok raw)
           else match DomainASCII (KName k) with
                | None => fail (EWrap ("dkim: sign for " +:+ senderDomain +:+ ": ") (EText "invalid domain"))
                | Some ascii =>
                    val <-! ask (QDKIMSign k ascii raw);
                    Ret (Ok ("DKIM-Signature: " +:+ val +:+ crlf +:+ raw))
                end
       end.

Definition Prepare (senderDomain raw : string) : prog (result error string) :=
  let raw := StripBcc raw in
  if HasDKIMSignature raw then Ret (Ok raw) else SignDKIM senderDomain raw.

Definition prepareOutbound (item : OutboundQueue) : prog (result error string) :=
  if bool_decide (ARCResults item <> "") then
    raw <-! SignDKIM (sendsAs item) (StripBcc (RawMessage item));
    ask (QSealARC (sendsAs item) raw (ARCResults item) (ARCChain item))
  else Prepare (sendsAs item) (RawMessage item).

(** db/repositories/mailbox.go *)
Definition IsHostedDomain (domain : string) : prog (result error bool) :=
  match DomainASCII domain with
  | None => Ret (Ok false)
  | Some ascii => n <-! ask (QHostedCount ascii); Ret (Ok (0 <? n))
  end.

Definition forwardSender (item : OutboundQueue) : prog (result error string) :=
  match srs w with
  | None => Ret (Ok (Sender item))
  | Some signer =>
      if bool_decide (ARCResults item = "") || bool_decide (Sender item = "") then Ret (Ok (Sender item))
      else
        hosted <- IsHostedDomain (DomainFromAddress (Sender item));
        match hosted with
        | Err e => fail (EWrap "check whether the sender's domain is hosted here: " e)
        | Ok true => Ret (Ok (Sender item))
        | Ok false =>
            match SMTPAddressASCII (Sender item) with
            | None => Ret (Ok (Sender item))
            | Some sender =>
                now <- ask QNow;
                match SRS.Rewrite signer sender (SendingDomain item) now with
                | Err _ => Ret (Ok (Sender item))
                | Ok rewritten => Ret (Ok rewritten)
                end
            end
        end
  end.

(** *** The conversation *)

Definition wrap_err {A} (prefix : string) (p : prog (result error A)) : prog (result error A) :=
  r <- p; Ret (match r with Ok a => Ok a | Err e => Err (EWrap prefix e) end).

Definition openSMTP (addr host : string) (tryTLS requireVerified : bool) (records : option (list TLSA))
    : prog (result error smtpLink) :=
  c <-! wrap_err ("connect to " +:+ addr +:+ ": ") (ask (QDial addr));
  armStep c SGreeting ;;
  g <- ask (QGreeting c host);
  match g with
  | Err e => ask (QClose c) ;; fail (EWrap ("SMTP client for " +:+ addr +:+ ": ") e)
  | Ok _ =>
      armStep c SHello ;;
      h <- ask (QHello c (hostname w));
      match h with
      | Err e => ask (QClose c) ;; fail (EWrap ("EHLO to " +:+ host +:+ ": ") e)
      | Ok x =>
          let link := {| lconn := c; lhost := host; exts := x; security := transportCleartext;
                         tlsErr := None; certErr := None |} in
          if negb tryTLS || negb (offers x "STARTTLS") then Ret (Ok link)
          else
            let v := match records with
                     | Some rs => VDANE rs host
                     | None => if requireVerified then VRequired host else VRecorded host
                     end in
            armStep c SStartTLS ;;
            t <- ask (QStartTLS c v (SHello, timeouts SHello));
            match t with
            | Err e => Ret (Ok {| lconn := c; lhost := host; exts := x; security := transportCleartext;
                                  tlsErr := Some e; certErr := None |})
            | Ok (x', verdict) =>
                (* the verdict is recorded only where the code records one *)
                let verifyErr := match v with VRecorded _ => verdict | _ => None end in
                Ret (Ok {| lconn := c; lhost := host; exts := x';
                           security := match verifyErr with
                                       | None => transportAuthenticated
                                       | Some _ => transportEncrypted
                                       end;
                           tlsErr := None; certErr := verifyErr |})
            end
      end
  end.

(** smtp_timeouts.go: [writeDataBlocks], each block and the flush under a new timer. *)
Definition dataBlockSize : nat := N.to_nat (64 * 1024).
#[global] Arguments dataBlockSize : simpl never.
Fixpoint write_blocks (fuel : nat) (l : smtpLink) (raw : string) : outcome :=
  match fuel, raw with
  | _, EmptyString => ok
  | O, _ => ok
  | S fuel, _ =>
      let block := take_bytes dataBlockSize raw in
      armStep (lconn l) SDataBlock ;;
      _ <-! ask (QWrite l block);
      write_blocks fuel l (drop_bytes dataBlockSize raw)
  end.
Definition writeDataBlocks (l : smtpLink) (raw : string) : outcome :=
  _ <-! write_blocks (String.length raw) l raw;
  armStep (lconn l) SDataBlock ;;
  ask (QFlush l).

(** A reply's error with the peer it came from. *)
Definition from_peer (host : string) (p : outcome) : outcome :=
  r <- p;
  match r with
  | Ok _ => ok
  | Err e => let se := parseSMTPError e in
             fail (smtp_error (Code se) (Enhanced se) (Message se) host)
  end.

(** From MAIL to the final reply. *)
Definition transmit (l : smtpLink) (host sender recipient raw : string) (requireTLS : bool) : outcome :=
  armStep (lconn l) SMail ;;
  _ <-! from_peer host (match mail_command (exts l) requireTLS sender with
                        | Err e => fail e
                        | Ok cmd => ask (QMail l cmd)
                        end);
  armStep (lconn l) SRcpt ;;
  _ <-! from_peer host (match rcpt_command recipient with
                        | Err e => fail e
                        | Ok cmd => ask (QRcpt l cmd)
                        end);
  armStep (lconn l) SData ;;
  _ <-! wrap_err ("DATA to " +:+ host +:+ ": ") (ask (QData l));
  written <- writeDataBlocks l raw;
  match written with
  | Err e => ask (QAbort l) ;; fail (EWrap ("write message to " +:+ host +:+ ": ") e)
  | Ok _ =>
      armStep (lconn l) SFinalReply ;;
      _ <-! from_peer host (ask (QFinal l));
      armStep (lconn l) SQuit ;;
      ask (QQuit (lconn l)) ;;
      ok
  end.

Definition quit_refusing (link : smtpLink) (e : error) {A} : prog (result error A) :=
  armStep (lconn link) SQuit ;; ask (QQuit (lconn link)) ;; fail e.

Definition no_tls (link : smtpLink) : bool :=
  bool_decide (tlsErr link <> None) || bool_decide (security link <> transportAuthenticated).

(** The checks a session's TLS has to pass before it is used: DANE's, then
    REQUIRETLS's. *)
Definition tls_gates (host : string) (records : option (list TLSA)) (requireTLS : bool)
    (link : smtpLink) : outcome :=
  if bool_decide (records <> None) && no_tls link
  then ask (QClose (lconn link)) ;; fail (daneRefusal host link)
  else if requireTLS && no_tls link
  then quit_refusing link (smtp_error 550 "5.7.10"
         ("REQUIRETLS: no TLS session with a certificate verified for " +:+ host) host)
  else if requireTLS && negb (offers (exts link) "REQUIRETLS")
  then quit_refusing link (smtp_error 550 "5.7.30"
         ("REQUIRETLS support required: " +:+ host +:+ " does not offer REQUIRETLS") host)
  else ok.

(** The MTA-STS mode a session is held to, enforce downgraded when it is not enforced. *)
Definition effective_enforce (stsPolicy : option Sts.Policy) : bool :=
  match stsPolicy with
  | Some p => bool_decide (Sts.Mode p = Sts.ModeEnforce) && stsEnforce w
  | None => false
  end.

(** The end of the attempt on an open, checked link: the MTA-STS decision, the 8-bit
    and SMTPUTF8 checks, and the commands. The link is closed whatever happens. *)
Definition converse (host : string) (item : OutboundQueue) (sender recipient : string)
    (stsPolicy : option Sts.Policy) (requireTLS : bool) (link : smtpLink) : outcome :=
  r <- (match Evaluate {| Sts.EPolicy := stsPolicy; Sts.EDomain := Domain item; Sts.EMXHost := host;
                          Sts.STARTTLS := bool_decide (security link <> transportCleartext);
                          Sts.CertValid := bool_decide (security link = transportAuthenticated);
                          Sts.AllowInsecureDowngrade := negb (stsEnforce w) |} with
        | Some decision => fail decision
        | None =>
            if negb (offers (exts link) "8BITMIME")
               && messageRequires8BitTransport (BodyType item) (RawMessage item)
            then fail (smtp_error 550 "5.6.3"
                   "next hop does not support 8BITMIME and 7-bit conversion is not implemented" host)
            else match checkSMTPUTF8 (exts link) sender recipient (RawMessage item) host with
                 | Err e => fail e
                 | Ok _ => transmit link host sender recipient (RawMessage item) requireTLS
                 end
        end);
  ask (QClose (lconn link)) ;;
  Ret r.

(** What the session's TLS came to is stored for the domain's TLS-RPT report, but for a
    report itself. *)
Definition record_session (host : string) (item : OutboundQueue) (stsPolicy : option Sts.Policy)
    (stsErr : option error) (link : smtpLink) : prog unit :=
  if TLSReport item then Ret tt
  else now <- ask QNow; recordTLSSession (Domain item) host stsPolicy stsErr link now.
Definition record_dane (host : string) (item : OutboundQueue) (records : option (list TLSA))
    (link : smtpLink) : prog unit :=
  match records with
  | Some rs => if TLSReport item then Ret tt
               else now <- ask QNow; recordDANESession (Domain item) host rs (Some link) now
  | None => Ret tt
  end.

Definition deliverSMTPWith (addr host : string) (item : OutboundQueue) (stsPolicy : option Sts.Policy)
    (stsErr : option error) (records : option (list TLSA)) : outcome :=
  let stsPolicy := match records with Some _ => None | None => stsPolicy end in
  let stsErr := match records with Some _ => None | None => stsErr end in
  prepared <-! wrap_err "prepare outbound message: " (prepareOutbound item);
  from <-! forwardSender (with_message item (Sender item) prepared);
  let item := with_message item from prepared in
  match smtpEnvelope item with
  | Err e => fail e
  | Ok (sender, recipient) =>
      let requireTLS := RequireTLS item && bool_decide (Sender item <> "") in
      if requireTLS && bool_decide (records = None)
         && match stsPolicy with
            | None => true
            | Some p => (List.length (Sts.MX p) =? 0)%nat || negb (MatchesMX p host)
            end
      then fail (smtp_error 550 "5.7.10"
             ("REQUIRETLS: " +:+ host +:+ " is not an MX the recipient domain's MTA-STS policy names, and REST Mail does not validate DNSSEC") host)
      else
        let enforce := effective_enforce stsPolicy || requireTLS && bool_decide (records = None) in
        link <-! openSMTP addr host true enforce records;
        record_dane host item records link ;;
        _ <-! tls_gates host records requireTLS link;
        (if bool_decide (records = None) then record_session host item stsPolicy stsErr link else Ret tt) ;;
        if bool_decide (tlsErr link <> None) && negb enforce then
          ask (QClose (lconn link)) ;;
          link <-! openSMTP addr host false false None;
          converse host item sender recipient stsPolicy requireTLS link
        else converse host item sender recipient stsPolicy requireTLS link
  end.

Definition deliverToHost (host : string) (item : OutboundQueue) (stsPolicy : option Sts.Policy)
    (stsErr : option error) (records : option (list TLSA)) : outcome :=
  deliverSMTPWith (smtpAddrOf host) host item stsPolicy stsErr records.
End Send.
End Send.
