(* ===== verification/SendSafety.v ===== *)
(** * What one SMTP conversation guarantees

    Theorems about [Send.deliverSMTPWith] for every behaviour of the DNS, the database and
    the MX: no message on an unprotected session where protection is required, no command
    a hostile address can inject into, every step under its own timer, and a delivery
    reported exactly when the MX took the message. *)

From S2P Require Import Prelude GoTime GoStrings GoDate GoNet MailAddress Classify QueueModel SRS Prog Outbound Smtp Send.
From Stdlib Require Import Ascii.
Import GoTime GoStrings MailAddress Errors Prog Outbound Wire Outside Row Tls Timeouts Send.
Local Open Scope Z_scope.
Local Open Scope prog_scope.

Module SendSafety.
(** The questions that hand the message, or its envelope, to a peer. *)
Definition message_link {X} (q : Q X) : option smtpLink :=
  match q with
  | QMail l _ | QRcpt l _ | QData l | QWrite l _ | QFlush l | QFinal l => Some l
  | _ => None
  end.
Definition on_link (P : smtpLink -> bool) : test Q := fun X q =>
  match message_link q with Some l => P l | None => true end.
Definition is_post {X} (q : Q X) : bool := match q with QPost _ _ _ _ _ => true | _ => false end.
Definition quiet : test Q := fun X q =>
  match message_link q with Some _ => false | None => negb (is_post q) end.

Lemma quiet_on_link {A} P (p : prog A) post : always quiet p post -> always (on_link P) p post.
Proof.
  apply always_weaken. intros X q. unfold quiet, on_link. by destruct (message_link q).
Qed.

Lemma on_link_message P {X} (q : Q X) l : message_link q = Some l -> P l = true -> on_link P X q = true.
Proof. unfold on_link. by intros ->. Qed.

#[local] Abbreviation anything := (fun _ _ => True).

Section Safety.
Context `{UC : Unicode, ML : MailLib, MT : MtastsText, MS : Mtasts, WL : WebLib, SM : SRSMac}.
Context (w : Worker).

Lemma prepare_quiet item : always quiet (prepareOutbound item) (fun _ => True).
Proof. unfold prepareOutbound, Prepare, SignDKIM. walk; done. Qed.
Lemma forward_quiet item : always quiet (forwardSender w item) (fun _ => True).
Proof. unfold forwardSender, IsHostedDomain. walk; done. Qed.
Lemma record_quiet host item p e l : always quiet (record_session host item p e l) (fun _ => True).
Proof. unfold record_session, recordTLSSession. walk; done. Qed.
Lemma record_dane_quiet host item rs l : always quiet (record_dane host item rs l) (fun _ => True).
Proof. unfold record_dane, recordDANESession. walk; done. Qed.

(** An opened link: to the host, and authenticated as soon as it is protected at all
    where the certificate had to verify. *)
Definition opened (host : string) (strict : bool) (l : smtpLink) : Prop :=
  lhost l = host /\
  (strict = true -> security l = transportAuthenticated \/ security l = transportCleartext) /\
  (tlsErr l <> None -> security l = transportCleartext).

Lemma open_quiet addr host tryTLS strict records :
  always quiet (openSMTP w addr host tryTLS strict records)
    (fun r => match r with
              | Ok l => opened host (strict || bool_decide (records <> None)) l
              | Err _ => True
              end).
Proof.
  unfold openSMTP, wrap_err, armStep. walk; try done; unfold opened; simpl;
    (split_and!; [done| |]); try done; try (by right);
    destruct records, strict, o; simpl; intros; simplify_eq; first [done|by left|by right].
Qed.

(** The gates let a link through only when it has the TLS they ask for. *)
Lemma gates_quiet host records requireTLS l :
  always quiet (tls_gates w host records requireTLS l)
    (fun r => match r with
              | Ok _ => (records <> None \/ requireTLS = true ->
                         tlsErr l = None /\ security l = transportAuthenticated) /\
                        (requireTLS = true -> offers (exts l) "REQUIRETLS" = true)
              | Err _ => True
              end).
Proof.
  unfold tls_gates, quit_refusing, armStep, fail, ok. walk; try done.
  assert (no_tls l = false -> tlsErr l = None /\ security l = transportAuthenticated) as Hn.
  { unfold no_tls. rewrite orb_false_iff, !bool_decide_eq_false. intros [H1 H2].
    split; by apply dec_stable. }
  split.
  - intros [Hr| ->]; apply Hn; [|done]. by rewrite bool_decide_eq_true_2 in Heqb.
  - intros ->. by apply negb_false_iff.
Qed.

Lemma blocks_on_link P l fuel raw : P l = true ->
  always (on_link P) (write_blocks w fuel l raw) (fun _ => True).
Proof.
  intros HP. revert raw. induction fuel as [|fuel IH]; intros [|a raw]; cbn [write_blocks]; try done.
  apply always_then, always_ask_done; [done|]. intros _.
  apply always_try, always_ask_done; [by apply (on_link_message P _ l)|].
  intros []; [apply IH|done].
Qed.

Lemma transmit_on_link P l host sender recipient raw req : P l = true ->
  always (on_link P) (transmit w l host sender recipient raw req) (fun _ => True).
Proof.
  intros HP. unfold transmit, writeDataBlocks, from_peer, wrap_err, armStep, fail, ok.
  walk; try done; try (by apply (on_link_message P _ l));
    (eapply always_mono; [|by apply blocks_on_link]); intros [] _; walk; try done;
    try (by apply (on_link_message P _ l)).
Qed.

(** The input of the MTA-STS decision on a link. *)
Definition decision (host : string) (item : OutboundQueue) (p : option Sts.Policy) (l : smtpLink) :=
  Evaluate {| Sts.EPolicy := p; Sts.EDomain := Domain item; Sts.EMXHost := host;
              Sts.STARTTLS := bool_decide (security l <> transportCleartext);
              Sts.CertValid := bool_decide (security l = transportAuthenticated);
              Sts.AllowInsecureDowngrade := negb (stsEnforce w) |}.

Lemma converse_on_link P host item sender recipient p req l :
  (decision host item p l = None -> P l = true) ->
  always (on_link P) (converse w host item sender recipient p req l) (fun _ => True).
Proof.
  intros HP. unfold converse. fold (decision host item p l).
  apply always_then. destruct (decision host item p l) eqn:E; [walk; done|].
  specialize (HP eq_refl). unfold fail. walk; try done.
  eapply always_mono; [|by apply transmit_on_link]. intros; walk; done.
Qed.

Lemma enforced_decision host item p l :
  evaluate_enforces -> effective_enforce w p = true ->
  decision host item p l = None -> security l = transportAuthenticated.
Proof.
  intros Hlaw He Hd. destruct p as [p|]; [|done]. unfold effective_enforce in He. bprop.
  destruct He as [He Hs]. destruct (decide (security l = transportAuthenticated)) as [|Hne]; [done|].
  exfalso. revert Hd. unfold decision. eapply Hlaw; simpl; try done.
  - by rewrite Hs.
  - by rewrite (bool_decide_eq_false_2 _ Hne), andb_false_r.
Qed.

Lemma SMTPAddressASCII_nonempty a s : SMTPAddressASCII a = Some s -> a <> "" -> s <> "".
Proof.
  unfold SMTPAddressASCII. destruct (negb _ || _); [done|]. intros E Ha ->.
  rewrite (bool_decide_eq_false_2 _ Ha) in E.
  destruct (cut_last _ _) as [[l d]|]; [|done]. destruct (bool_decide (l = "")) eqn:El; [done|].
  destruct (_ && _).
  - destruct (GoNet.ParseIP _); [|done]. by simplify_eq.
  - destruct (DomainASCII d); [|done]. simpl in E. simplify_eq. by destruct l.
Qed.

(** A sender that is not null stays so through SRS. *)
Lemma forward_nonempty item :
  always quiet (forwardSender w item)
    (fun r => match r with Ok s => Sender item <> "" -> s <> "" | Err _ => True end).
Proof.
  unfold forwardSender, IsHostedDomain. walk; try done.
  all: eapply SRS.Rewrite_nonempty; [eassumption|]; by eapply SMTPAddressASCII_nonempty.
Qed.

(** The message must not leave on a session that is not authenticated: an enforced
    MTA-STS policy, a host with TLSA records, or a message that requires TLS. *)
Definition must_authenticate (item : OutboundQueue) (p : option Sts.Policy)
    (records : option (list TLSA)) : Prop :=
  (records = None /\ effective_enforce w p = true) \/ records <> None \/
  (RequireTLS item = true /\ Sender item <> "").

Lemma open_strict addr host strict records :
  always quiet (openSMTP w addr host true strict records)
    (fun r => match r with Ok l => lhost l = host | Err _ => True end).
Proof.
  eapply always_mono; [|apply open_quiet]. intros [l|e]; [|done]. by intros [? _].
Qed.

Lemma protected_links addr host item p stsErr records :
  evaluate_enforces -> must_authenticate item p records ->
  always (on_link (fun l => bool_decide (lhost l = host /\ security l = transportAuthenticated)))
    (deliverSMTPWith w addr host item p stsErr records) (fun _ => True).
Proof.
  intros Hlaw Hm. unfold deliverSMTPWith. apply always_try. unfold wrap_err.
  apply always_then, quiet_on_link. eapply always_mono; [|apply prepare_quiet].
  intros [raw|e] _; [|done]. cbn beta iota. apply always_ret, always_try, quiet_on_link.
  eapply always_mono; [|apply forward_nonempty]. intros [from|e] Hfrom; [|done].
  cbn [Sender with_message] in Hfrom. set (item' := with_message item from raw).
  destruct (smtpEnvelope item') as [[sender recipient]|e]; [|done].
  set (req := RequireTLS item' && bool_decide (Sender item' <> "")).
  destruct (req && _ && _); [done|].
  set (p' := match records with Some _ => None | None => p end).
  set (strict := effective_enforce w p' || _).
  apply always_try, quiet_on_link. eapply always_mono; [|apply open_quiet].
  intros [l|e]; [|done]. intros (Hl & _ & Ht).
  apply always_then, quiet_on_link. eapply always_mono; [|apply record_dane_quiet]. intros _ _.
  apply always_try, quiet_on_link. eapply always_mono; [|apply gates_quiet].
  intros [[]|e]; [|done]. intros [Hg _].
  assert (records <> None \/ req = true \/ (records = None /\ effective_enforce w p' = true)) as Hcase.
  { destruct Hm as [[-> He]|[Hr|[Hr Hs]]]; [right; by right|by left|]. right; left.
    unfold req, item'. cbn. rewrite Hr. by apply bool_decide_eq_true_2, Hfrom. }
  assert (decision host item' p' l = None -> security l = transportAuthenticated) as Hsec.
  { destruct Hcase as [Hr|[Hr|[_ He]]]; [intros _; apply Hg; by left|intros _; apply Hg; by right|].
    by apply enforced_decision. }
  apply always_then. destruct (bool_decide (records = None)) eqn:Er;
    [apply quiet_on_link; eapply always_mono; [|apply record_quiet]; intros _ _|apply always_ret];
    (destruct (bool_decide (tlsErr l <> None) && negb strict) eqn:Eretry;
      [|apply converse_on_link; intros Hd; apply bool_decide_eq_true_2; split; [done|by apply Hsec]]).
  all: exfalso; apply andb_true_iff in Eretry as [E1 E2]; apply bool_decide_eq_true in E1;
    apply negb_true_iff, orb_false_iff in E2 as [E2 E3].
  all: destruct Hcase as [Hr|[Hr|[Hr He]]];
    [destruct (Hg (or_introl Hr)); done|destruct (Hg (or_intror Hr)); done|congruence].
Qed.


(** A property of the questions of a whole delivery is a property of the commands. *)
Lemma deliver_always (t : test Q) addr host item p stsErr records :
  (forall X q, quiet X q = true -> t X q = true) ->
  (forall l host sender recipient raw req,
    always t (transmit w l host sender recipient raw req) (fun _ => True)) ->
  always t (deliverSMTPWith w addr host item p stsErr records) (fun _ => True).
Proof.
  intros Hq Ht.
  assert (forall A (q : prog A) (post : A -> Prop), always quiet q (fun _ => True) ->
            (forall a, post a) -> always t q post) as Hquiet.
  { intros A q post Ha Hp. eapply always_weaken; [exact Hq|]. eapply always_mono; [|exact Ha]. auto. }
  assert (forall host item s r p req l, always t (converse w host item s r p req l) (fun _ => True)) as Hconv.
  { intros. unfold converse. apply always_then. eapply always_mono with (post := fun _ => True).
    - intros a _. apply always_then, always_ask_done; [by apply Hq|done].
    - repeat (case_match; try done; try apply Ht). }
  assert (forall addr host b s rs, always quiet (openSMTP w addr host b s rs) (fun _ => True)) as Hopen.
  { intros. eapply always_mono; [|apply open_quiet]. done. }
  unfold deliverSMTPWith, wrap_err. apply always_try, always_then, Hquiet; [apply prepare_quiet|].
  intros [raw|e]; [|done]. apply always_ret, always_try, Hquiet; [apply forward_quiet|].
  intros [from|e]; [|done]. destruct (smtpEnvelope _) as [[sender recipient]|e]; [|done].
  destruct (_ && _ && _); [done|]. apply always_try, Hquiet; [apply Hopen|].
  intros [l|e]; [|done]. apply always_then, Hquiet; [apply record_dane_quiet|]. intros _.
  apply always_try, Hquiet; [eapply always_mono; [|apply gates_quiet]; done|].
  intros [[]|e]; [|done]. apply always_then.
  eapply always_mono with (post := fun _ => True); [intros _ _|destruct (bool_decide _);
    [apply Hquiet; [apply record_quiet|done]|done]].
  destruct (bool_decide _ && _); [|apply Hconv].
  apply always_then, always_ask_done; [by apply Hq|]. intros _.
  apply always_try, Hquiet; [apply Hopen|]. intros [l'|e]; [apply Hconv|done].
Qed.

(** *** One line per command *)

Definition one_line (cmd : string) : bool := free cr cmd && free lf cmd.
Definition single_lines : test Q := fun X q =>
  match q with QMail _ cmd | QRcpt _ cmd => one_line cmd | _ => true end.

Lemma line_ok s : line_bad s = false -> one_line s = true.
Proof.
  unfold line_bad, ContainsAny, sexists, one_line, free. intros Hs. apply negb_false_iff in Hs.
  apply andb_true_iff. split; revert Hs; apply sforall_impl; intros a;
    rewrite !negb_true_iff, !bool_decide_eq_false; set_solver.
Qed.
Lemma one_line_app s t : one_line (s +:+ t) = one_line s && one_line t.
Proof.
  unfold one_line, free. rewrite !sforall_app.
  by destruct (sforall _ s), (sforall _ t), (sforall _ s), (sforall _ t).
Qed.
Lemma mail_one_line x req s cmd : mail_command x req s = Ok cmd -> one_line cmd = true.
Proof.
  unfold mail_command. destruct (line_bad s) eqn:E; [done|]. apply line_ok in E. intros [= <-].
  rewrite !one_line_app, E. by destruct (offers x "8BITMIME"), (offers x "SMTPUTF8"), req.
Qed.
Lemma rcpt_one_line s cmd : rcpt_command s = Ok cmd -> one_line cmd = true.
Proof.
  unfold rcpt_command. destruct (line_bad s) eqn:E; [done|]. apply line_ok in E. intros [= <-].
  by rewrite !one_line_app, E.
Qed.

(** whatever the queue row and the forwarding rewrite put in the envelope, each
    MAIL and RCPT command the client sends is a single line: no address can inject a
    second SMTP command. *)
Theorem commands_are_single_lines addr host item p stsErr records :
  always single_lines (deliverSMTPWith w addr host item p stsErr records) (fun _ => True).
Proof.
  apply deliver_always; [intros X q Hq; by destruct q|]. intros.
  assert (forall fuel raw l, always single_lines (write_blocks w fuel l raw) (fun _ => True)) as Hb.
  { intros fuel. induction fuel as [|fuel IH]; intros [|a raw0] l0; cbn [write_blocks]; try done.
    apply always_then, always_ask_done; [done|]. intros _. apply always_try, always_ask_done; [done|].
    intros []; [apply IH|done]. }
  unfold transmit, writeDataBlocks, from_peer, wrap_err, armStep, fail, ok.
  walk; try done.
  all: try (cbn; first [eapply mail_one_line; eassumption|eapply rcpt_one_line; eassumption]).
  eapply always_mono; [|apply Hb]. intros [] _; walk; done.
Qed.

(** *** The message arrives whole *)

(** What an MX has been given on this attempt, and whether it took it. *)
Record given := { mail : option string; rcpt : option string; sent : string; taken : bool }.
Definition nothing : given := {| mail := None; rcpt := None; sent := ""; taken := false |}.

(** Once it took the message, nothing more of it is sent. *)
Definition giving : monitor Q given := fun X s q =>
  match q in Q X return X -> option given with
  | QMail _ cmd => fun x => if taken s then None else
      Some {| mail := if is_ok x then Some cmd else mail s; rcpt := rcpt s; sent := sent s; taken := false |}
  | QRcpt _ cmd => fun x => if taken s then None else
      Some {| mail := mail s; rcpt := if is_ok x then Some cmd else rcpt s; sent := sent s; taken := false |}
  | QWrite _ block => fun x => if taken s then None else
      Some {| mail := mail s; rcpt := rcpt s; sent := if is_ok x then sent s +:+ block else sent s;
              taken := false |}
  | QFinal _ => fun x => if taken s then None else
      Some {| mail := mail s; rcpt := rcpt s; sent := sent s; taken := is_ok x |}
  | QData _ | QFlush _ => fun _ => if taken s then None else Some s
  | _ => fun _ => Some s
  end.

Lemma take_drop n s : take_bytes n s +:+ drop_bytes n s = s.
Proof.
  revert s. induction n as [|n IH]; intros [|a s]; try done. simpl. rewrite string_app_cons. by rewrite IH.
Qed.
Lemma drop_shorter s : s <> "" -> (String.length (drop_bytes dataBlockSize s) < String.length s)%nat.
Proof.
  intros Hs. assert (exists n, dataBlockSize = S n) as [n ->] by (exists (pred dataBlockSize); done).
  destruct s as [|a s]; [done|]. clear Hs. simpl.
  assert (forall m t, (String.length (drop_bytes m t) <= String.length t)%nat) as H.
  { intros m. induction m as [|m IH]; intros [|b t]; simpl; try lia. specialize (IH t). lia. }
  specialize (H n s). lia.
Qed.

(** Either every block was written, in order, or the write failed: fuel for one byte a
    block is enough. *)
Lemma blocks_sent l fuel raw s :
  taken s = false -> (String.length raw <= fuel)%nat ->
  wp giving s (write_blocks w fuel l raw) (fun s' r =>
    taken s' = false /\ mail s' = mail s /\ rcpt s' = rcpt s /\
    (is_ok r = true -> sent s' = sent s +:+ raw)).
Proof.
  revert raw s. induction fuel as [|fuel IH]; intros [|a raw] s Ht Hl; cbn [write_blocks].
  - simpl. by rewrite app_string_nil.
  - simpl in Hl. lia.
  - simpl. by rewrite app_string_nil.
  - set (t := String a raw) in *. apply wp_then, wp_ask. intros []. cbn [giving].
    apply wp_try, wp_ask. intros x. cbn [giving]. rewrite Ht. destruct x as [[]|e]; [|done].
    pose proof (drop_shorter t ltac:(done)).
    eapply wp_mono; [|apply IH; [done|lia]]. cbn. intros s' r (H1 & H2 & H3 & H4).
    split_and!; try done. intros Hr. rewrite H4, app_string_assoc, take_drop; done.
Qed.

Ltac giving_step _ :=
  cbn [giving nothing mail rcpt sent taken is_ok];
  try match goal with Ht : taken _ = false |- _ => rewrite Ht end.

(** an attempt on an open link succeeds exactly when the MX acknowledged the whole
    message; it was then given the envelope's two commands and the message's bytes,
    each once and in order, and nothing after. *)
Theorem transmit_exact l host sender recipient raw req :
  wp giving nothing (transmit w l host sender recipient raw req) (fun s r =>
    taken s = is_ok r /\
    (is_ok r = true ->
      (exists cmd, mail_command (exts l) req sender = Ok cmd /\ mail s = Some cmd) /\
      (exists cmd, rcpt_command recipient = Ok cmd /\ rcpt s = Some cmd) /\
      sent s = raw)).
Proof.
  unfold transmit, from_peer, wrap_err, writeDataBlocks, armStep, fail, ok.
  wp_walk giving_step; try done.
  eapply wp_mono; [|apply blocks_sent; [done|reflexivity]]. cbn [nothing mail rcpt sent taken is_ok].
  intros s r (Ht & Hm & Hr & Hs). wp_walk giving_step; try done.
  cbn. split; [done|]. intros _. split_and!; [by eexists|by eexists|by apply Hs].
Qed.

(** *** Custody *)

(** Whether some server has taken the message: an MX or a relay by its final reply, a
    RESTMAIL server by a 2xx answer. Once one has, nothing is offered to another. *)
Definition posted (x : result error (Z * string)) : bool :=
  match x with Ok (status, _) => (200 <=? status) && (status <? 300) | Err _ => false end.
Definition custody : monitor Q bool := fun X s q =>
  match q in Q X return X -> option bool with
  | QFinal _ => fun x => if s then None else Some (is_ok x)
  | QPost _ _ _ _ _ => fun x => if s then None else Some (posted x)
  | QMail _ _ | QRcpt _ _ | QData _ | QWrite _ _ | QFlush _ | QDial _ | QDialRelay _ _
  | QProbeDial _ | QGet _ => fun _ => if s then None else Some s
  | _ => fun _ => Some s
  end.
Definition holds (s : bool) (r : result error unit) : Prop := s = is_ok r.

(** Questions that leave custody where it was, while nobody has the message. *)
Definition undecided : test Q := fun X q =>
  match q with QFinal _ | QPost _ _ _ _ _ => false | _ => true end.
Lemma undecided_neutral X (q : Q X) x : undecided X q = true -> custody X false q x = Some false.
Proof. by destruct q. Qed.
Lemma quiet_undecided {A} (p : prog A) post : always quiet p post -> always undecided p post.
Proof. apply always_weaken. intros X q. by destruct q. Qed.

Lemma custody_quiet {A} (p : prog A) (pre : A -> Prop) (post : bool -> A -> Prop) :
  always quiet p pre -> (forall a, pre a -> post false a) -> wp custody false p post.
Proof.
  intros Hp Hpost. eapply wp_mono; [|eapply wp_neutral; [apply undecided_neutral|by apply quiet_undecided]].
  intros s a [-> Ha]. by apply Hpost.
Qed.

Ltac custody_step _ := cbn [custody is_ok].

Lemma transmit_custody l host sender recipient raw req :
  wp custody false (transmit w l host sender recipient raw req) holds.
Proof.
  assert (forall fuel raw, wp custody false (write_blocks w fuel l raw) (fun s _ => s = false)) as Hb.
  { intros fuel raw'. eapply wp_mono; [|eapply wp_neutral; [apply undecided_neutral|]];
      [intros s a [-> _]; reflexivity|].
    instantiate (1 := fun _ => True). revert raw'.
    induction fuel as [|fuel IH]; intros [|a raw']; cbn [write_blocks]; try done.
    apply always_then, always_ask_done; [done|]. intros _. apply always_try, always_ask_done; [done|].
    intros []; [apply IH|done]. }
  unfold transmit, from_peer, wrap_err, writeDataBlocks, armStep, fail, ok, holds.
  wp_walk custody_step; try done.
  eapply wp_mono; [|apply Hb]. intros s r ->. wp_walk custody_step; done.
Qed.

Lemma converse_custody host item sender recipient p req l :
  wp custody false (converse w host item sender recipient p req l) holds.
Proof.
  unfold converse, fail, holds. apply wp_then.
  assert (forall s r, holds s r -> wp custody s (bind (ask (QClose (lconn l))) (fun _ => Ret r)) holds) as Hc.
  { intros s r Hs. apply wp_then, wp_ask. intros []. exact Hs. }
  repeat (case_match; try (by apply Hc)).
  eapply wp_mono; [|apply transmit_custody]. auto.
Qed.

Lemma deliverSMTPWith_custody addr host item p stsErr records :
  wp custody false (deliverSMTPWith w addr host item p stsErr records) holds.
Proof.
  unfold deliverSMTPWith, wrap_err. apply wp_try, wp_then.
  eapply custody_quiet; [apply prepare_quiet|]. intros [raw|e] _; [|done]. apply wp_ret, wp_try.
  eapply custody_quiet; [apply forward_quiet|]. intros [from|e] _; [|done].
  destruct (smtpEnvelope _) as [[sender recipient]|e]; [|done]. destruct (_ && _ && _); [done|].
  apply wp_try. eapply custody_quiet; [apply open_quiet|]. intros [l|e] _; [|done].
  apply wp_then. eapply custody_quiet; [apply record_dane_quiet|]. intros _ _.
  apply wp_try. eapply custody_quiet; [apply gates_quiet|]. intros [[]|e] _; [|done].
  apply wp_then. eapply wp_mono with (post := fun s _ => s = false);
    [intros s a ->|destruct (bool_decide _); [eapply custody_quiet; [apply record_quiet|done]|done]].
  destruct (bool_decide _ && _); [|apply converse_custody].
  apply wp_then, wp_ask. intros []. cbn [custody]. apply wp_try.
  eapply custody_quiet; [apply open_quiet|]. intros [l'|e] _; [apply converse_custody|done].
Qed.

(** *** A timer for each step *)

Definition step_of {X} (q : Q X) : option step :=
  match q with
  | QGreeting _ _ => Some SGreeting
  | QHello _ _ => Some SHello
  | QStartTLS _ _ _ | QHandshake _ _ => Some SStartTLS
  | QAuthPlain _ _ _ _ => Some SAuth
  | QMail _ _ => Some SMail
  | QRcpt _ _ => Some SRcpt
  | QData _ => Some SData
  | QWrite _ _ | QFlush _ => Some SDataBlock
  | QFinal _ => Some SFinalReply
  | QQuit _ => Some SQuit
  | _ => None
  end.
(** The timer running on the socket. A step must find its own, armed for it; the EHLO
    after STARTTLS is rearmed by the handshake. *)
Definition timed : monitor Q (option (step * Duration)) := fun X s q x =>
  match q with
  | QArm _ st d => Some (Some (st, d))
  | QStartTLS _ _ (st, d) =>
      if bool_decide (s = Some (SStartTLS, timeouts w SStartTLS))
         && bool_decide ((st, d) = (SHello, timeouts w SHello))
      then Some None else None
  | _ => match step_of q with
         | Some st => if bool_decide (s = Some (st, timeouts w st)) then Some None else None
         | None => Some s
         end
  end.

Ltac timed_step _ := cbn [timed step_of]; repeat rewrite bool_decide_eq_true_2 by done; cbn [andb].

Definition untimed : test Q := fun X q =>
  match q with QArm _ _ _ => false | _ => match step_of q with Some _ => false | None => true end end.
Lemma timed_neutral s {A} (p : prog A) (post : option (step * Duration) -> A -> Prop) :
  always untimed p (fun _ => True) -> (forall a, post s a) -> wp timed s p post.
Proof.
  intros Hp Hpost. eapply wp_mono; [|eapply (wp_neutral timed s untimed); [|exact Hp]].
  - intros s' a [-> _]. apply Hpost.
  - intros X q x. by destruct q.
Qed.

Lemma prepare_untimed item : always untimed (prepareOutbound item) (fun _ => True).
Proof. unfold prepareOutbound, Prepare, SignDKIM. walk; done. Qed.
Lemma forward_untimed item : always untimed (forwardSender w item) (fun _ => True).
Proof. unfold forwardSender, IsHostedDomain. walk; done. Qed.
Lemma record_untimed host item p e l : always untimed (record_session host item p e l) (fun _ => True).
Proof. unfold record_session, recordTLSSession. walk; done. Qed.
Lemma record_dane_untimed host item rs l : always untimed (record_dane host item rs l) (fun _ => True).
Proof. unfold record_dane, recordDANESession. walk; done. Qed.


Lemma open_timed s addr host tryTLS strict records :
  wp timed s (openSMTP w addr host tryTLS strict records) anything.
Proof.
  unfold openSMTP, wrap_err, armStep. wp_walk timed_step; done.
Qed.

Lemma transmit_timed s l host sender recipient raw req :
  wp timed s (transmit w l host sender recipient raw req) anything.
Proof.
  assert (forall fuel raw s, wp timed s (write_blocks w fuel l raw) anything) as Hb.
  { intros fuel. induction fuel as [|fuel IH]; intros [|a raw'] s'; cbn [write_blocks]; try done.
    apply wp_then, wp_ask. intros []. cbn [timed step_of]. apply wp_try, wp_ask. intros x.
    cbn [timed step_of]. rewrite bool_decide_eq_true_2 by done. destruct x; [apply IH|done]. }
  unfold transmit, writeDataBlocks, from_peer, wrap_err, armStep, fail, ok.
  wp_walk timed_step; try done.
  eapply wp_mono; [|apply Hb]. intros s' r _. wp_walk timed_step; done.
Qed.

Lemma converse_timed s host item sender recipient p req l :
  wp timed s (converse w host item sender recipient p req l) anything.
Proof.
  unfold converse, fail. apply wp_then.
  eapply wp_mono with (post := anything); [intros s' r _; apply wp_then, wp_ask; intros []; done|].
  repeat (case_match; try done). apply transmit_timed.
Qed.

Lemma gates_timed s host records req l : wp timed s (tls_gates w host records req l) anything.
Proof. unfold tls_gates, quit_refusing, armStep, fail, ok. wp_walk timed_step; done. Qed.

Lemma longest_spec t s : (forall s, 0 <= t s) -> 0 < WithDefaults t s <= Longest t.
Proof.
  intros Ht. split.
  - unfold WithDefaults. destruct (t s =? 0) eqn:E; bprop; [by destruct s|]. specialize (Ht s). lia.
  - unfold Longest. cbn [fields fold_left]. destruct s; lia.
Qed.

(** no step of an SMTP conversation waits without a timer: each is preceded, on its
    own socket, by arming that step's own timer, which is positive and shorter than
    the interval after which a row in delivery counts as orphaned. *)
Theorem every_step_timed addr host item p stsErr records :
  (forall s, 0 <= smtpTimeouts w s) -> Longest (smtpTimeouts w) < 2 ^ 62 ->
  wp timed None (deliverSMTPWith w addr host item p stsErr records) anything /\
  forall s, 0 < timeouts w s < Reclaim (smtpTimeouts w).
Proof.
  intros Ht Hlong. split; cycle 1.
  { intros s. unfold timeouts, Reclaim. pose proof (longest_spec _ s Ht).
    assert (0 < staleDeliveringReclaimMargin < 2 ^ 62) by (vm_compute; done).
    rewrite GoInt.wrap64_id; [lia|]. unfold GoInt.in64, GoInt.min_int64, GoInt.max_int64. lia. }
  unfold deliverSMTPWith, wrap_err. apply wp_try, wp_then, timed_neutral; [apply prepare_untimed|].
  intros [raw|e]; [|done]. apply wp_ret, wp_try, timed_neutral; [apply forward_untimed|].
  intros [from|e]; [|done]. destruct (smtpEnvelope _) as [[sender recipient]|e]; [|done].
  destruct (_ && _ && _); [done|]. apply wp_try. eapply wp_mono; [|apply open_timed].
  intros s [l|e] _; [|done]. apply wp_then, timed_neutral; [apply record_dane_untimed|]. intros _.
  apply wp_try. eapply wp_mono; [|apply gates_timed]. intros s' [[]|e] _; [|done].
  apply wp_then. eapply wp_mono with (post := anything);
    [intros s2 a _|destruct (bool_decide _); [apply timed_neutral; [apply record_untimed|done]|done]].
  destruct (bool_decide _ && _); [|apply converse_timed].
  apply wp_then, wp_ask. intros []. cbn [timed step_of]. apply wp_try.
  eapply wp_mono; [|apply open_timed]. intros s3 [l'|e] _; [apply converse_timed|done].
Qed.
End Safety.
End SendSafety.
