(* ===== verification/Delivery.v ===== *)
(** * Routing one message: worker.go, relay.go, restmail_discovery.go

    [Relay] models a delivery through a sending domain's smarthost, [Restmail] the RESTMAIL
    hop over HTTPS, and [Route] the choice between them and the MXes: [deliver]. *)

From S2P Require Import Prelude GoTime GoStrings GoDate GoNet MailAddress Classify QueueModel SRS Prog Outbound Smtp Send.
From Stdlib Require Import Ascii.
Import GoTime GoStrings MailAddress Errors Prog Outbound Wire Outside Row Tls Timeouts Send.
Local Open Scope Z_scope.
Local Open Scope prog_scope.

(** ** relay.go, db/models/relay.go *)
Module Relay.
Inductive relayTLSMode := relaySTARTTLS | relayImplicitTLS.
#[export] Instance relayTLSMode_eq : EqDecision relayTLSMode.
Proof. solve_decision. Defined.
Record relaySettings := {
  host : string; port : Z; mode : relayTLSMode; username : string; password : string
}.

Definition host_byte (a : ascii) : bool :=
  in_range 97 122 a || in_range 65 90 a || in_range 48 57 a || bool_decide (a = "-"%char).
Definition valid_label (label : string) : bool :=
  match label with
  | EmptyString => false
  | String a _ =>
      negb (63 <? String.length label)%nat && negb (bool_decide (a = "-"%char))
      && negb (HasSuffix label "-") && sforall host_byte label
  end.
Definition ValidRelayHost (host : string) : bool :=
  match GoNet.ParseIP host with
  | Some _ => true
  | None =>
      if (String.length host =? 0)%nat || (253 <? String.length host)%nat then false
      else forallb valid_label (split_byte "."%char host)
  end.

Definition validate (s : relaySettings) : result error unit :=
  if negb (ValidRelayHost (host s)) || (port s <? 1) || (65535 <? port s)
  then Err (EText "relay: invalid endpoint")
  else if negb (Bool.eqb (bool_decide (username s = "")) (bool_decide (password s = "")))
          || ContainsControlChar (username s) || ContainsControlChar (password s)
  then Err (EText "relay: invalid credentials")
  else Ok tt.

(** Only status fields of a reply, and safe errors, survive. The delivery's own context
    never ends early. *)
Definition safe_errors : list error := [ECanceled; EDeadlineExceeded; EEOF; EUnexpectedEOF; EClosed].
Definition relayFailure (stage host : string) (err : error) : error :=
  match as_reply err with
  | Some (code, msg) =>
      let text := TrimSpace msg in
      let enhanced := match Cut text " " with Some (f, _) => f | None => text end in
      let enhanced := if isEnhancedStatus enhanced then enhanced else "" in
      smtp_error code enhanced ("relay " +:+ stage +:+ " rejected") host
  | None =>
      if bool_decide (as_net err = Some true)
      then EWrap ("relay " +:+ stage +:+ ": ") EDeadlineExceeded
      else match find (fun safe => Is err safe) safe_errors with
           | Some safe => EWrap ("relay " +:+ stage +:+ ": ") safe
           | None => EText ("relay " +:+ stage +:+ " failed")
           end
  end.

Definition relayHasMechanism `{Unicode} (list want : string) : bool :=
  existsb (fun m => EqualFold m want) (Fields list).

Section Relay.
Context `{Unicode, MailLib, MtastsText, Mtasts, WebLib, SRSMac}.
Context (w : Worker).

(** [fail(stage, err)]. *)
Definition at_stage {A} (stage : string) (s : relaySettings) (p : prog (result error A)) : prog (result error A) :=
  r <- p; Ret (match r with Ok a => Ok a | Err e => Err (relayFailure stage (host s) e) end).

(** LoadRelayPassword. *)
Definition RelayPasswordCipherPrefix : string := "relay:v1:".
Definition ErrRelayPasswordUndecryptable : error :=
  EText "relay: stored password cannot be decrypted with MASTER_KEY".
Definition LoadRelayPassword (stored : string) : prog (result error string) :=
  if bool_decide (stored = "") then Ret (Ok "")
  else if bool_decide (masterKey w = "") || negb (HasPrefix stored RelayPasswordCipherPrefix)
  then fail ErrRelayPasswordUndecryptable
  else r <- ask (QDecrypt (TrimPrefix stored RelayPasswordCipherPrefix));
       Ret (match r with
            | Ok pw => Ok pw
            | Err e => Err (EText (Error ErrRelayPasswordUndecryptable +:+ ": " +:+ Error e))
            end).

(** The relay a message must go through, [None] when its domain sends direct. *)
Definition relayRoute (item : OutboundQueue) : prog (result error (option relaySettings)) :=
  let domain := sendsAs item in
  if bool_decide (domain = "") then Ret (Ok None)
  else
    row <- ask (QRelayRow domain);
    match row with
    | Err e => fail (EWrap ("relay: load settings for " +:+ domain +:+ ": ") e)
    | Ok None => Ret (Ok None)
    | Ok (Some rel) =>
        if bool_decide (RTransport rel <> "relay") then Ret (Ok None)
        else
          pw <- LoadRelayPassword (PasswordEnc rel);
          match pw with
          | Err e => fail (EWrap ("relay: credentials for " +:+ domain +:+ ": ") e)
          | Ok password =>
              let settings m := Ret (Ok (Some {| host := RHost rel; port := Port rel; mode := m;
                                                 username := Username rel; password := password |})) in
              if bool_decide (TLSMode rel = "implicit") then settings relayImplicitTLS
              else if bool_decide (TLSMode rel = "starttls") then settings relaySTARTTLS
              else fail (EText ("relay: invalid TLS mode for " +:+ domain))
          end
    end.

Definition arm (c : conn) (s : step) : prog unit := ask (QArm c s (timeouts w s)).

(** From the connected socket to the relay's acceptance. *)
Definition relay_greet (s : relaySettings) (c : conn) : prog (result error extensions) :=
  _ <-! (if bool_decide (mode s = relayImplicitTLS)
         then arm c SStartTLS ;; at_stage "TLS handshake" s (ask (QHandshake c (host s)))
         else ok);
  arm c SGreeting ;;
  _ <-! at_stage "greeting" s (ask (QGreeting c (host s)));
  arm c SHello ;;
  x <-! at_stage "EHLO" s (ask (QHello c (hostname w)));
  if bool_decide (mode s = relaySTARTTLS) then
    if negb (offers x "STARTTLS") then fail (EText "relay: required STARTTLS unavailable")
    else
      arm c SStartTLS ;;
      t <-! at_stage "STARTTLS" s (ask (QStartTLS c (VRequired (host s)) (SHello, timeouts w SHello)));
      Ret (Ok (fst t))
  else Ret (Ok x).

Definition relay_auth (s : relaySettings) (c : conn) (x : extensions) : outcome :=
  if bool_decide (username s <> "") then
    match Extension x "AUTH" with
    | Some mechanisms =>
        if negb (relayHasMechanism mechanisms "PLAIN") then fail (EText "relay: AUTH PLAIN unavailable")
        else arm c SAuth ;;
             at_stage "AUTH" s (ask (QAuthPlain c (username s) (password s) (host s)))
    | None => fail (EText "relay: AUTH PLAIN unavailable")
    end
  else ok.

Definition relay_send (s : relaySettings) (item : OutboundQueue) (sender recipient : string)
    (l : smtpLink) : outcome :=
  let requireTLS := RequireTLS item && bool_decide (Sender item <> "") in
  arm (lconn l) SMail ;;
  _ <-! at_stage "MAIL" s (match mail_command (exts l) requireTLS sender with
                           | Err e => fail e
                           | Ok cmd => ask (QMail l cmd)
                           end);
  arm (lconn l) SRcpt ;;
  _ <-! at_stage "RCPT" s (match rcpt_command recipient with
                           | Err e => fail e
                           | Ok cmd => ask (QRcpt l cmd)
                           end);
  arm (lconn l) SData ;;
  _ <-! at_stage "DATA" s (ask (QData l));
  _ <-! at_stage "DATA write" s (writeDataBlocks w l (RawMessage item));
  arm (lconn l) SFinalReply ;;
  at_stage "DATA reply" s (ask (QFinal l)).

Definition relay_converse (s : relaySettings) (item : OutboundQueue) (sender recipient : string)
    (c : conn) : outcome :=
  x <-! relay_greet s c;
  verified <- ask (QVerifiedTLS c);
  if negb verified then fail (EText "relay: verified TLS required")
  else if RequireTLS item && bool_decide (Sender item <> "") && negb (offers x "REQUIRETLS")
  then fail (smtp_error 550 "5.7.30"
         ("REQUIRETLS support required: the relay " +:+ host s +:+ " does not offer REQUIRETLS") (host s))
  else
    _ <-! relay_auth s c x;
    if negb (offers x "8BITMIME") && messageRequires8BitTransport (BodyType item) (RawMessage item)
    then fail (smtp_error 550 "5.6.3" "relay requires 8BITMIME" (host s))
    else match checkSMTPUTF8 x sender recipient (RawMessage item) (host s) with
         | Err e => fail e
         | Ok _ => relay_send s item sender recipient
                     {| lconn := c; lhost := host s; exts := x; security := transportAuthenticated;
                        tlsErr := None; certErr := None |}
         end.

Definition deliverToRelay (s : relaySettings) (item : OutboundQueue) : outcome :=
  match validate s with
  | Err e => fail e
  | Ok _ =>
      if ContainsControlChar (Sender item) || ContainsControlChar (Recipient item)
      then fail (smtp_error 550 "5.1.3" "address contains control characters" "")
      else if negb (ValidRelayHost (hostname w)) then fail (EText "relay: invalid EHLO hostname")
      else
        from <-! forwardSender w item;
        let item := with_message item from (RawMessage item) in
        match smtpEnvelope item with
        | Err e => fail e
        | Ok (sender, recipient) =>
            c <-! at_stage "connect" s (ask (QDialRelay (host s) (port s)));
            r <- relay_converse s item sender recipient c;
            ask (QClose c) ;;
            Ret r
        end
  end.

Definition deliverViaRelay (s : relaySettings) (item : OutboundQueue) : outcome :=
  prepared <-! wrap_err "prepare outbound message: " (prepareOutbound item);
  deliverToRelay s (with_message item (Sender item) prepared).
End Relay.
End Relay.

(** ** The RESTMAIL hop: restmail_discovery.go and worker.go *)
Module Restmail.
Definition maxRESTMAILDiscoveryBody : Z := 4096.
Definition maxRESTMAILErrorBody : Z := 65536.

(** The cached row may be reused for this domain's current MX, and has not expired. *)
Definition capabilityApplies (c : Capability) (domain mxHost : string) (now : Time) : bool :=
  bool_decide (CapDomain c = domain) && bool_decide (CapMXHost c = mxHost) && After (CapExpiresAt c) now.

Section Restmail.
Context `{Unicode, MailLib, MtastsText, Mtasts, WebLib, SRSMac}.
Context (w : Worker).

Definition restmailDiscoveryURL (mxHost domain : string) : string :=
  "https://" +:+ TrimSuffix mxHost "." +:+ "/.well-known/restmail?domain=" +:+ url_QueryEscape domain.

Definition restmailUpgradePermitted (endpointURL : string) (stsPolicy : option Sts.Policy)
    (enforcing : bool) : bool :=
  if negb enforcing then true
  else match stsPolicy with
       | None => false
       | Some p =>
           let raw := if Contains endpointURL "://" then endpointURL else "https://" +:+ endpointURL in
           match url_Parse raw with
           | Err _ => false
           | Ok u => if bool_decide (Scheme u <> "https") then false
                       else if bool_decide (Hostname u = "") then false
                       else MatchesMX p (Hostname u)
           end
       end.

Definition validRESTMAILEndpoint (raw : string) : result error string :=
  match url_Parse raw with
  | Err e => Err (EWrap ("endpoint " +:+ strconv_Quote raw +:+ " invalid: ") e)
  | Ok u =>
      if bool_decide (Scheme u <> "https") || bool_decide (Hostname u = "") || has_user u
         || bool_decide (RawQuery u <> "") || ForceQuery u || bool_decide (Fragment u <> "")
         || bool_decide (Opaque u <> "")
      then Err (EText ("endpoint " +:+ strconv_Quote raw
             +:+ " refused: want an https URL with a host and no credentials, query or fragment"))
      else Ok (TrimSuffix raw "/")
  end.

Definition discoverRESTMAILEndpoint (discoveryURL : string) : prog (result error string) :=
  let wrap e := EWrap ("RESTMAIL discovery " +:+ discoveryURL +:+ ": ") e in
  resp <- ask (QGet discoveryURL);
  match resp with
  | Err e => fail (wrap e)
  | Ok (status, body) =>
      if (status =? 404) || (status =? 410) then fail ERESTMAILNotHosted
      else if negb (status =? 200)
      then fail (EText ("RESTMAIL discovery " +:+ discoveryURL +:+ " got " +:+ itoa status))
      else match body with
           | Err e => fail (wrap e)
           | Ok body =>
               if maxRESTMAILDiscoveryBody <? len body
               then fail (wrap (EText ("response exceeds " +:+ itoa maxRESTMAILDiscoveryBody +:+ " bytes")))
               else match json_endpoint body with
                    | Err e => fail (wrap e)
                    | Ok endpoint => Ret (match validRESTMAILEndpoint endpoint with
                                          | Ok u => Ok u
                                          | Err e => Err (wrap e)
                                          end)
                    end
           end
  end.

Definition restmailErrorCode (body : string) : string := default "" (json_error_code body).

(** A non-2xx answer to the POST, as a reply the queue classifies. *)
Definition restmailRefusal (status : Z) (body : string) : SMTPError :=
  let text := take_bytes 512 (TrimSpace body) in
  let msg := "RESTMAIL delivery got HTTP " +:+ itoa status +:+ ": " +:+ text in
  let reply code enhanced m := {| Code := code; Enhanced := enhanced; Message := m; RemoteMTA := "" |} in
  if (status =? 503) && bool_decide (restmailErrorCode body = "deferred")
  then reply 451 "4.7.1" ("deferred by the receiving server's inbound pipeline (greylisting or another filter), retry later: " +:+ msg)
  else if status =? 429 then reply 451 "4.7.0" ("rate limited: " +:+ msg)
  else if (status =? 408) || (status =? 425) || (status <? 400) || (500 <=? status)
  then reply 451 "4.3.0" msg
  else if status =? 413 then reply 552 "5.3.4" msg
  else reply 550 "5.0.0" msg.

Definition deliverRESTMAILHTTPS (endpointURL : string) (item : OutboundQueue) : outcome :=
  raw <-! wrap_err "prepare outbound message: " (prepareOutbound item);
  let messagesURL := endpointURL +:+ "/messages" in
  let messagesURL := if Contains messagesURL "://" then messagesURL else "https://" +:+ messagesURL in
  match url_Parse messagesURL with
  | Err e => fail (EWrap ("RESTMAIL endpoint " +:+ strconv_Quote endpointURL +:+ " invalid: ") e)
  | Ok u =>
      if bool_decide (Scheme u <> "https")
      then fail (EText ("RESTMAIL endpoint " +:+ strconv_Quote endpointURL
             +:+ " refused: only https is permitted, got scheme " +:+ strconv_Quote (Scheme u)))
      else
        resp <- ask (QPost messagesURL (Sender item) (Recipient item) raw (sendDeadline w (len raw)));
        match resp with
        | Err e => fail (EWrap ("RESTMAIL POST to " +:+ messagesURL +:+ ": ") e)
        | Ok (status, body) =>
            if (200 <=? status) && (status <? 300) then ok
            else fail (ESMTP (restmailRefusal status body))
        end
  end.

Definition deliverRESTMAILDiscovered (discoveryURL : string) (item : OutboundQueue) : outcome :=
  endpoint <-! discoverRESTMAILEndpoint discoveryURL;
  deliverRESTMAILHTTPS endpoint item.

(** What a RESTMAIL attempt's error means for the message. *)
Definition restmailFailure (host : string) (item : OutboundQueue) (r : result error unit) : result error unit :=
  match r with
  | Ok _ => Ok tt
  | Err e =>
      if Is e ERESTMAILNotHosted
      then Err (smtp_error 550 "5.7.1" ("the REST Mail server " +:+ host +:+ " does not accept mail for "
                  +:+ Domain item +:+ " (RESTMAIL discovery answered not hosted)") "")
      else Err (EWrap ("RESTMAIL delivery via " +:+ host +:+ " failed, not retried by SMTP: ") e)
  end.

Definition pinRESTMAIL (item : OutboundQueue) : outcome :=
  if ID item =? 0 then ok
  else wrap_err "pin message to RESTMAIL: " (ask (QPin (ID item))).

Definition noteSMTP (item : OutboundQueue) : prog unit :=
  if (ID item =? 0) || bool_decide (Transport item <> TransportNone) then Ret tt
  else ask (QNoteSMTP (ID item)).

Definition cacheCapability (domain mxHost : string) (supported : bool) : prog unit :=
  now <- ask QNow;
  let ttl := if supported then 1 * Hour else 15 * Minute in
  ask (QStoreCapability {| CapDomain := domain; CapMXHost := mxHost; Supported := supported;
                           LastProbed := now; CapExpiresAt := Add now ttl |}).

(** [probeRESTMAIL]: [None] when the probe failed, else whether the host offers RESTMAIL. *)
Definition probeRESTMAIL (addr serverName : string) : prog (option bool) :=
  d <- ask (QProbeDial addr);
  match d with
  | Err _ => Ret None
  | Ok c =>
      armStep w c SGreeting ;;
      g <- ask (QGreeting c serverName);
      match g with
      | Err _ => ask (QClose c) ;; Ret None
      | Ok _ =>
          armStep w c SHello ;;
          h <- ask (QHello c (hostname w));
          match h with
          | Err _ => ask (QClose c) ;; Ret None
          | Ok x =>
              armStep w c SQuit ;;
              ask (QQuit c) ;;
              ask (QClose c) ;;
              Ret (Some (offers x "RESTMAIL"))
          end
      end
  end.

(** Discovery and delivery once the upgrade is taken, by way of the pin. *)
Definition deliver_upgraded (discoveryURL host : string) (item : OutboundQueue) : outcome :=
  _ <-! pinRESTMAIL item;
  r <- deliverRESTMAILDiscovered discoveryURL item;
  Ret (restmailFailure host item r).

(** [None] when the message was not upgraded. *)
Definition tryRESTMAIL (host dnsDomain : string) (item : OutboundQueue) (stsPolicy : option Sts.Policy)
    (enforcing : bool) : prog (option (result error unit)) :=
  probed <- probeRESTMAIL (smtpAddrOf host) host;
  match probed with
  | None => Ret None
  | Some false => cacheCapability (Domain item) host false ;; Ret None
  | Some true =>
      cacheCapability (Domain item) host true ;;
      let discoveryURL := restmailDiscoveryURL host dnsDomain in
      if negb (restmailUpgradePermitted discoveryURL stsPolicy enforcing) then Ret None
      else r <- deliver_upgraded discoveryURL host item; Ret (Some r)
  end.

Definition deliverPinnedRESTMAIL (item : OutboundQueue) (firstHost dnsDomain : string)
    (stsPolicy : option Sts.Policy) (enforcing daneSecure : bool) : outcome :=
  if daneSecure
  then fail (EText ("message pinned to RESTMAIL (#291): " +:+ Domain item
                    +:+ " is now covered by DANE, which RESTMAIL cannot meet, and it is not sent by SMTP instead"))
  else
    let discoveryURL := restmailDiscoveryURL firstHost dnsDomain in
    if negb (restmailUpgradePermitted discoveryURL stsPolicy enforcing)
    then fail (EEnforce (Domain item) firstHost
           "RESTMAIL discovery host not named by policy; the message is pinned to RESTMAIL and is not sent by SMTP (#291)")
    else r <- deliverRESTMAILDiscovered discoveryURL item; Ret (restmailFailure firstHost item r).
End Restmail.
End Restmail.

(** ** The route: worker.go's [deliver] *)
Module Route.
Import Relay Restmail.

Section Route.
Context `{Unicode, MailLib, MtastsText, Mtasts, WebLib, SRSMac}.
Context (w : Worker).

Definition errNoMailHost : error :=
  smtp_error 550 "5.1.2" "recipient domain does not exist or has no mail host" "".

Definition mxHosts (dnsDomain : string) : prog (result error (list MX)) :=
  mx <- ask (QLookupMX dnsDomain);
  let implicit :=
    (h <- ask (QLookupHost dnsDomain);
     match h with
     | Err e => if bool_decide (as_dns e = Some true) then fail errNoMailHost
                else fail (EWrap ("address lookup failed for " +:+ dnsDomain +:+ ": ") e)
     | Ok _ => Ret (Ok [{| Host := dnsDomain; Pref := 0 |}])
     end) in
  match mx with
  | Ok (m :: ms) => Ret (Ok (m :: ms))
  | Ok [] => implicit
  | Err e => if bool_decide (as_dns e = Some true) then implicit
             else fail (EWrap ("MX lookup failed for " +:+ dnsDomain +:+ ": ") e)
  end.

Definition errTLSOptional : error := EText "queue: TLS-Required: No, the recipient's policy is not applied".
Definition recipientPolicy (item : OutboundQueue) (dnsDomain : string) : prog (result error Sts.Policy) :=
  if TLSReport item then fail ENoPolicy
  else if negb (RequireTLS item) && TLSOptional (RawMessage item) then fail errTLSOptional
  else ask (QResolveSTS dnsDomain).

(** The loop over the MX hosts: [lastErr] and [transientErr]. *)
Fixpoint mx_loop (item : OutboundQueue) (stsPolicy : option Sts.Policy) (stsErr : option error)
    (enforcing daneSecure : bool) (mxs : list MX) (lastErr transientErr : option error)
    : prog (option (option error * option error)) :=
  match mxs with
  | [] => Ret (Some (lastErr, transientErr))
  | mx :: rest =>
      let host := TrimSuffix (Host mx) "." in
      found <- (if daneSecure then daneRecords (Domain item) host (negb (TLSReport item)) else Ret (Ok None));
      match found with
      | Err e => mx_loop item stsPolicy stsErr enforcing daneSecure rest (Some e) (Some e)
      | Ok records =>
          if bool_decide (records = None)
             && match stsPolicy with
                | Some p => negb (List.length (Sts.MX p) =? 0)%nat && negb (MatchesMX p host)
                | None => false
                end
             && enforcing
          then mx_loop item stsPolicy stsErr enforcing daneSecure rest
                 (Some (EEnforce (Domain item) host "MX host not named by policy")) transientErr
          else
            r <- deliverToHost w host item stsPolicy stsErr records;
            match r with
            | Ok _ => Ret None
            | Err e =>
                let transient := match as_smtp e with
                                 | Some refused => Code refused <? 500
                                 | None => true
                                 end in
                mx_loop item stsPolicy stsErr enforcing daneSecure rest (Some e)
                  (if transient then Some e else transientErr)
            end
      end
  end.

Definition deliver_smtp (item : OutboundQueue) (stsPolicy : option Sts.Policy) (stsErr : option error)
    (enforcing daneSecure : bool) (mxs : list MX) : outcome :=
  noteSMTP item ;;
  left <- mx_loop item stsPolicy stsErr enforcing daneSecure mxs None None;
  match left with
  | None => ok
  | Some (lastErr, transientErr) =>
      let lastErr := match transientErr with
                     | Some t => if RequireTLS item then Some t else lastErr
                     | None => lastErr
                     end in
      fail (match lastErr with
            | Some e => EWrap "all MX hosts failed: " e
            | None => EText "all MX hosts failed: %!w(<nil>)"
            end)
  end.

(** The direct path, past the relay and the lookups. *)
Definition deliver_direct (item : OutboundQueue) (dnsDomain firstHost : string) (mxs : list MX)
    (daneSecure : bool) (stsPolicy : option Sts.Policy) (stsErr : option error) : outcome :=
  let enforcing := effective_enforce w stsPolicy in
  if bool_decide (Transport item = TransportRESTMAIL)
  then deliverPinnedRESTMAIL w item firstHost dnsDomain stsPolicy enforcing daneSecure
  else
    let by_smtp := deliver_smtp item stsPolicy stsErr enforcing daneSecure mxs in
    let upgrade := negb (RequireTLS item) && negb daneSecure in
    cap <- (if upgrade then ask (QFindCapability (Domain item)) else Ret None);
    hit <- match cap with
           | Some c => now <- ask QNow; Ret (if capabilityApplies c (Domain item) firstHost now then Some c else None)
           | None => Ret None
           end;
    match hit with
    | Some c =>
        if Supported c && restmailUpgradePermitted (restmailDiscoveryURL firstHost dnsDomain) stsPolicy enforcing
        then deliver_upgraded w (restmailDiscoveryURL firstHost dnsDomain) firstHost item
        else by_smtp
    | None =>
        if upgrade then
          tried <- tryRESTMAIL w firstHost dnsDomain item stsPolicy enforcing;
          match tried with
          | Some r => Ret r
          | None => by_smtp
          end
        else by_smtp
    end.

Definition deliver (item : OutboundQueue) : outcome :=
  if ContainsControlChar (Sender item) || ContainsControlChar (Recipient item)
  then fail (smtp_error 550 "5.1.3" "address contains control characters" "")
  else match smtpEnvelope item with
  | Err e => fail e
  | Ok _ =>
      route <-! relayRoute w item;
      match route with
      | Some settings => deliverViaRelay w settings item
      | None =>
          match DomainASCII (Domain item) with
          | None => fail (smtp_error 550 "5.1.2" "invalid recipient domain" "")
          | Some dnsDomain =>
              mxs <-! mxHosts dnsDomain;
              match mxs with
              | [] => fail errNoMailHost   (* never: mxHosts answers at least one *)
              | mx0 :: rest =>
                  if bool_decide (rest = []) && bool_decide (Host mx0 = ".")
                  then fail (smtp_error 556 "5.1.10" "recipient domain accepts no mail (null MX)" "")
                  else
                    let firstHost := TrimSuffix (Host mx0) "." in
                    daneSecure <-! daneMXSecure w dnsDomain;
                    found <- recipientPolicy item dnsDomain;
                    let '(stsPolicy, stsErr) := match found with
                                                | Ok p => (Some p, None)
                                                | Err e => (None, Some e)
                                                end in
                    deliver_direct item dnsDomain firstHost mxs daneSecure stsPolicy stsErr
              end
          end
      end
  end.
End Route.
End Route.
