(* ===== verification/DeliverySafety.v ===== *)
(** * What the route of a message guarantees

    Theorems about [Route.deliver] for every answer of the DNS, the database and the
    peers: which paths a message may take, in which order, and that it is reported
    delivered exactly when some server took it. *)

From S2P Require Import Prelude GoTime GoStrings GoDate GoNet MailAddress Classify QueueModel SRS Prog Outbound Smtp Send SendSafety.
From S2P Require Import Delivery.
From Stdlib Require Import Ascii.
Import GoTime GoStrings MailAddress Errors Prog Outbound Wire Outside Row Tls Timeouts Send.
Import SendSafety Relay Restmail Route.
Local Open Scope Z_scope.
Local Open Scope prog_scope.

Module DeliverySafety.
(** ** Footprints: the kinds of question each part asks *)

Inductive kind := KClock | KDns | KMXSecure | KPolicy | KRelayRow | KSecret | KCapability | KPin | KNote
                | KSession | KSign | KDial | KSocket | KMessage | KRelayDial | KRelaySocket | KProbe | KHttp.
#[export] Instance kind_eq : EqDecision kind.
Proof. solve_decision. Defined.

Definition kind_of {X} (q : Q X) : kind :=
  match q with
  | QNow => KClock
  | QLookupMX _ | QLookupHost _ | QTLSA _ _ => KDns
  | QMXSecure _ => KMXSecure
  | QResolveSTS _ => KPolicy
  | QRelayRow _ => KRelayRow
  | QDecrypt _ => KSecret
  | QFindCapability _ | QStoreCapability _ => KCapability
  | QPin _ => KPin
  | QNoteSMTP _ => KNote
  | QStoreSession _ => KSession
  | QHostedCount _ | QDomainKey _ | QDKIMSign _ _ _ | QSealARC _ _ _ _ => KSign
  | QDial _ => KDial
  | QArm _ _ _ | QGreeting _ _ | QHello _ _ | QStartTLS _ _ _ | QQuit _ | QClose _ => KSocket
  | QMail _ _ | QRcpt _ _ | QData _ | QWrite _ _ | QFlush _ | QAbort _ | QFinal _ => KMessage
  | QDialRelay _ _ => KRelayDial
  | QHandshake _ _ | QVerifiedTLS _ | QAuthPlain _ _ _ _ => KRelaySocket
  | QProbeDial _ => KProbe
  | QGet _ | QPost _ _ _ _ _ => KHttp
  end.
Definition among (ks : list kind) : test Q := fun X q => bool_decide (kind_of q ∈ ks).

Lemma among_weaken {A} ks ks' (p : prog A) post :
  forallb (fun k => bool_decide (k ∈ ks')) ks = true ->
  always (among ks) p post -> always (among ks') p post.
Proof.
  intros H. apply always_weaken. intros X q. unfold among. rewrite !bool_decide_eq_true.
  rewrite forallb_elem in H. intros Hk. specialize (H _ Hk). by apply bool_decide_eq_true in H.
Qed.

Definition signing := [KSign; KClock].
Definition smtp_kinds := [KSign; KClock; KDial; KSocket; KMessage; KSession].
Definition relay_kinds := [KSign; KClock; KRelayDial; KRelaySocket; KSocket; KMessage].
Definition probe_kinds := [KProbe; KSocket].
Definition http_kinds := [KHttp; KSign; KClock].

Section Footprints.
Context `{UC : Unicode, ML : MailLib, MT : MtastsText, MS : Mtasts, WL : WebLib, SM : SRSMac}.
Context (w : Worker).

Lemma prepare_kinds item : always (among signing) (prepareOutbound item) (fun _ => True).
Proof. unfold prepareOutbound, Prepare, SignDKIM. walk; done. Qed.
Lemma forward_kinds item : always (among signing) (forwardSender w item) (fun _ => True).
Proof. unfold forwardSender, IsHostedDomain. walk; done. Qed.

Lemma blocks_kinds ks l fuel raw :
  KSocket ∈ ks -> KMessage ∈ ks ->
  always (among ks) (write_blocks w fuel l raw) (fun _ => True).
Proof.
  intros Hs Hm. revert raw. induction fuel as [|fuel IH]; intros [|a raw]; cbn [write_blocks]; try done.
  apply always_then, always_ask_done; [by apply bool_decide_eq_true_2|]. intros _.
  apply always_try, always_ask_done; [by apply bool_decide_eq_true_2|]. intros []; [apply IH|done].
Qed.
Lemma transmit_kinds l host sender recipient raw req :
  always (among smtp_kinds) (transmit w l host sender recipient raw req) (fun _ => True).
Proof.
  unfold transmit, writeDataBlocks, from_peer, wrap_err, armStep, fail, ok. walk; try done.
  eapply always_mono; [|apply blocks_kinds; unfold smtp_kinds; set_solver]. intros [] _; walk; done.
Qed.

Lemma smtp_footprint addr host item p stsErr records :
  always (among smtp_kinds) (deliverSMTPWith w addr host item p stsErr records) (fun _ => True).
Proof.
  assert (forall A (q : prog A) (post : A -> Prop), always (among signing) q (fun _ => True) ->
            (forall a, post a) -> always (among smtp_kinds) q post) as Hsign.
  { intros A q post Ha Hp. eapply among_weaken; [|eapply always_mono; [|exact Ha]]; auto. }
  assert (forall b s rs a h, always (among smtp_kinds) (openSMTP w a h b s rs) (fun _ => True)) as Hopen
    by (intros; unfold openSMTP, wrap_err, armStep; walk; done).
  assert (forall host item s r p req l, always (among smtp_kinds) (converse w host item s r p req l) (fun _ => True)) as Hconv.
  { intros. unfold converse, fail. apply always_then.
    eapply always_mono with (post := fun _ => True); [intros a _; walk; done|].
    repeat (case_match; try done); apply transmit_kinds. }
  unfold deliverSMTPWith, wrap_err. apply always_try, always_then, Hsign; [apply prepare_kinds|].
  intros [raw|e]; [|done]. apply always_ret, always_try, Hsign; [apply forward_kinds|].
  intros [from|e]; [|done]. destruct (smtpEnvelope _) as [[sender recipient]|e]; [|done].
  destruct (_ && _ && _); [done|]. apply always_try. eapply always_mono; [|apply Hopen].
  intros [l|e] _; [|done]. apply always_then.
  eapply always_mono with (post := fun _ => True);
    [intros _ _|unfold record_dane, recordDANESession; walk; done].
  apply always_try. eapply always_mono with (post := fun _ => True);
    [intros [[]|e] _; [|done]|unfold tls_gates, quit_refusing, armStep, fail, ok; walk; done].
  apply always_then. eapply always_mono with (post := fun _ => True);
    [intros _ _|unfold record_session, recordTLSSession; walk; done].
  destruct (bool_decide _ && _); [|apply Hconv].
  apply always_then, always_ask_done; [done|]. intros _.
  apply always_try. eapply always_mono; [|apply Hopen]. intros [l'|e] _; [apply Hconv|done].
Qed.

Lemma relay_route_kinds item : always (among [KRelayRow; KSecret]) (relayRoute w item) (fun _ => True).
Proof. unfold relayRoute, LoadRelayPassword. walk; done. Qed.

Lemma relay_footprint s item : always (among relay_kinds) (deliverViaRelay w s item) (fun _ => True).
Proof.
  assert (forall A (q : prog A) (post : A -> Prop), always (among signing) q (fun _ => True) ->
            (forall a, post a) -> always (among relay_kinds) q post) as Hsign.
  { intros A q post Ha Hp. eapply among_weaken; [|eapply always_mono; [|exact Ha]]; auto. }
  assert (forall s item a b l, always (among relay_kinds) (relay_send w s item a b l) (fun _ => True)) as Hsend.
  { intros. unfold relay_send, at_stage, writeDataBlocks, arm, armStep, fail. walk; try done.
    eapply always_mono; [|apply blocks_kinds; unfold relay_kinds; set_solver]. intros [] _; walk; done. }
  unfold deliverViaRelay, wrap_err. apply always_try, always_then, Hsign; [apply prepare_kinds|].
  intros [raw|e]; [|done]. apply always_ret. unfold deliverToRelay, fail.
  destruct (validate s); [|done]. destruct (_ || _); [done|]. destruct (negb _); [done|].
  apply always_try, Hsign; [apply forward_kinds|]. intros [from|e]; [|done].
  destruct (smtpEnvelope _) as [[sender recipient]|e]; [|done]. unfold at_stage at 1.
  apply always_try, always_then, always_ask_done; [done|]. intros [c|e]; [|done]. apply always_ret.
  apply always_then. eapply always_mono with (post := fun _ => True); [intros r _; walk; done|].
  unfold relay_converse, relay_greet, relay_auth, at_stage, arm, fail, ok. walk; try done; apply Hsend.
Qed.

Lemma restmail_footprint url item :
  always (among http_kinds) (deliverRESTMAILDiscovered w url item) (fun _ => True).
Proof.
  unfold deliverRESTMAILDiscovered, discoverRESTMAILEndpoint, deliverRESTMAILHTTPS, wrap_err, fail, ok.
  walk; try done.
  all: eapply among_weaken; [|eapply always_mono; [|apply prepare_kinds]]; [done|]. all: intros [] _; walk; done.
Qed.

Lemma probe_footprint addr host : always (among probe_kinds) (probeRESTMAIL w addr host) (fun _ => True).
Proof. unfold probeRESTMAIL, armStep. walk; done. Qed.
End Footprints.

(** ** Delivered means taken *)

Section Custody.
Context `{UC : Unicode, ML : MailLib, MT : MtastsText, MS : Mtasts, WL : WebLib, SM : SRSMac}.
Context (w : Worker).

Lemma custody_kinds {A} ks (p : prog A) (pre : A -> Prop) (post : bool -> A -> Prop) :
  forallb (fun k => negb (bool_decide (k = KMessage \/ k = KHttp))) ks = true ->
  always (among ks) p pre -> (forall a, pre a -> post false a) -> wp custody false p post.
Proof.
  intros Hks Hp Hpost. eapply wp_mono; [|eapply wp_neutral; [apply undecided_neutral|]].
  - intros s a [-> Ha]. by apply Hpost.
  - eapply always_weaken; [|exact Hp]. intros X q Hq. apply bool_decide_eq_true in Hq.
    rewrite forallb_elem in Hks. specialize (Hks _ Hq). clear Hq. by destruct q.
Qed.

Ltac custody_step _ := cbn [custody is_ok].

Lemma blocks_custody l fuel raw :
  wp custody false (write_blocks w fuel l raw) (fun s _ => s = false).
Proof.
  eapply wp_mono; [|eapply wp_neutral; [apply undecided_neutral|]]; [intros s a [-> _]; reflexivity|].
  instantiate (1 := fun _ => True). revert raw.
  induction fuel as [|fuel IH]; intros [|a raw]; cbn [write_blocks]; try done.
  apply always_then, always_ask_done; [done|]. intros _. apply always_try, always_ask_done; [done|].
  intros []; [apply IH|done].
Qed.

Lemma relay_send_custody s item a b l : wp custody false (relay_send w s item a b l) holds.
Proof.
  unfold relay_send, at_stage, writeDataBlocks, arm, armStep, fail, holds. wp_walk custody_step; try done.
  - eapply wp_mono; [|apply blocks_custody]. intros s' r ->. wp_walk custody_step; try done. by destruct x8.
Qed.

Lemma relay_custody s item : wp custody false (deliverViaRelay w s item) holds.
Proof.
  unfold deliverViaRelay, wrap_err. apply wp_try, wp_then.
  eapply (custody_kinds signing); [done|apply prepare_kinds|]. intros [raw|e] _; [|done].
  apply wp_ret. unfold deliverToRelay, fail. destruct (validate s); [|done].
  destruct (_ || _); [done|]. destruct (negb _); [done|].
  apply wp_try. eapply (custody_kinds signing); [done|apply forward_kinds|]. intros [from|e] _; [|done].
  destruct (smtpEnvelope _) as [[sender recipient]|e]; [|done]. unfold at_stage at 1.
  apply wp_try, wp_then, wp_ask. intros x. cbn [custody]. destruct x as [c|e]; [|done]. apply wp_ret.
  apply wp_then. eapply wp_mono with (post := holds); [intros s' r Hs; apply wp_then, wp_ask; intros []; exact Hs|].
  unfold relay_converse, relay_greet, relay_auth, at_stage, arm, fail, ok.
  wp_walk custody_step; try done; apply relay_send_custody.
Qed.

Lemma restmail_custody url item : wp custody false (deliverRESTMAILDiscovered w url item) holds.
Proof.
  unfold deliverRESTMAILDiscovered, discoverRESTMAILEndpoint, deliverRESTMAILHTTPS, wrap_err, fail, ok, holds.
  wp_walk custody_step; try done.
  all: eapply (custody_kinds signing); [done|apply prepare_kinds|].
  all: intros r' _; wp_walk custody_step; try done.
Qed.

Lemma failure_ok host item r : is_ok (restmailFailure host item r) = is_ok r.
Proof. unfold restmailFailure. destruct r; [done|]. by destruct (Is e _). Qed.

Lemma upgraded_custody url host item : wp custody false (deliver_upgraded w url host item) holds.
Proof.
  unfold deliver_upgraded, pinRESTMAIL, wrap_err, ok. apply wp_try.
  eapply wp_mono with (post := fun s _ => s = false); [|destruct (ID item =? 0); wp_walk custody_step; done].
  intros s [[]|e] ->; [|done]. apply wp_then. eapply wp_mono; [|apply restmail_custody].
  intros s r Hs. apply wp_ret. unfold holds. by rewrite failure_ok.
Qed.

Lemma try_custody host dns item p enforcing :
  wp custody false (tryRESTMAIL w host dns item p enforcing)
    (fun s r => s = match r with Some r => is_ok r | None => false end).
Proof.
  unfold tryRESTMAIL. apply wp_then. eapply (custody_kinds probe_kinds); [done|apply probe_footprint|].
  intros [[]|] _; [| |done]; unfold cacheCapability; wp_walk custody_step; try done.
  eapply wp_mono; [|apply upgraded_custody]. intros s r Hs. by apply wp_ret.
Qed.

Lemma mx_loop_custody item p e enforcing dane mxs l t :
  wp custody false (mx_loop w item p e enforcing dane mxs l t)
    (fun s r => s = bool_decide (r = None)).
Proof.
  revert l t. induction mxs as [|mx mxs IH]; intros l t; cbn [mx_loop]; [done|].
  apply wp_then. eapply wp_mono with (post := fun s _ => s = false).
  - intros s [records|e'] ->; [|apply IH]. destruct (_ && _ && _); [apply IH|].
    apply wp_then. eapply wp_mono; [|apply deliverSMTPWith_custody].
    intros s' r ->. destruct r; [done|apply IH].
  - destruct dane; [|done]. unfold daneRecords, recordDANESession, fail. wp_walk custody_step; done.
Qed.

Lemma deliver_smtp_custody item p e enforcing dane mxs :
  wp custody false (deliver_smtp w item p e enforcing dane mxs) holds.
Proof.
  unfold deliver_smtp, noteSMTP, fail, ok. apply wp_then.
  eapply wp_mono with (post := fun s _ => s = false); [|destruct (_ || _); wp_walk custody_step; done].
  intros s _ ->. apply wp_then. eapply wp_mono; [|apply mx_loop_custody].
  intros s' r ->. by destruct r as [[]|].
Qed.

Lemma direct_custody item dns h mxs dane p e :
  wp custody false (deliver_direct w item dns h mxs dane p e) holds.
Proof.
  unfold deliver_direct. destruct (bool_decide _).
  { unfold deliverPinnedRESTMAIL, fail. destruct dane; [done|]. destruct (negb _); [done|].
    apply wp_then. eapply wp_mono; [|apply restmail_custody].
    intros s r Hs. apply wp_ret. unfold holds. by rewrite failure_ok. }
  apply wp_then. eapply wp_mono with (post := fun s _ => s = false);
    [|destruct (negb _ && negb _); wp_walk custody_step; done].
  intros s cap ->. apply wp_then. eapply wp_mono with (post := fun s _ => s = false);
    [|destruct cap; wp_walk custody_step; done].
  intros s hit ->. destruct hit as [c|].
  - destruct (Supported c && _); [apply upgraded_custody|apply deliver_smtp_custody].
  - destruct (negb _ && negb _); [|apply deliver_smtp_custody].
    apply wp_then. eapply wp_mono; [|apply try_custody]. intros s [r|] ->; [done|apply deliver_smtp_custody].
Qed.

(** C12: an attempt is reported delivered exactly when some server took the message, an
    MX or a relay by accepting its data or a RESTMAIL server by a 2xx answer; and once
    one has, the message is offered to no other, on any path. *)
Theorem delivered_iff_taken item : wp custody false (deliver w item) holds.
Proof.
  unfold deliver, fail. destruct (_ || _); [done|]. destruct (smtpEnvelope item); [|done].
  apply wp_try. eapply (custody_kinds [KRelayRow; KSecret]); [done|apply relay_route_kinds|].
  intros [[settings|]|e] _; [apply relay_custody| |done].
  destruct (DomainASCII _) as [dns|]; [|done]. apply wp_try.
  eapply wp_mono with (post := fun s _ => s = false); [|unfold mxHosts, fail; wp_walk custody_step; done].
  intros s [[|mx0 rest]|e] ->; [done| |done]. destruct (_ && _); [done|].
  apply wp_try. eapply wp_mono with (post := fun s _ => s = false);
    [|unfold daneMXSecure, fail; wp_walk custody_step; done].
  intros s [secure|e] ->; [|done]. apply wp_then.
  eapply wp_mono with (post := fun s _ => s = false);
    [|unfold recipientPolicy, fail; wp_walk custody_step; done].
  intros s [p|e] ->; apply direct_custody.
Qed.
End Custody.

(** ** Which path *)

Section Paths.
Context `{UC : Unicode, ML : MailLib, MT : MtastsText, MS : Mtasts, WL : WebLib, SM : SRSMac}.
Context (w : Worker).

(** What [deliver] asks before the route is chosen, and the loop over the MXes. *)
Lemma mx_hosts_kinds dns : always (among [KDns]) (mxHosts dns) (fun _ => True).
Proof. unfold mxHosts, fail. walk; done. Qed.
Lemma mx_secure_kinds dns : always (among [KMXSecure]) (daneMXSecure w dns) (fun _ => True).
Proof. unfold daneMXSecure, fail. walk; done. Qed.
Lemma policy_kinds item dns : always (among [KPolicy]) (recipientPolicy item dns) (fun _ => True).
Proof. unfold recipientPolicy, fail. walk; done. Qed.

(** A pinned message stays on RESTMAIL. *)
Definition off_smtp : test Q := fun X q => negb (bool_decide (kind_of q ∈ [KDial; KProbe])).
Lemma off_smtp_among {A} ks (p : prog A) post :
  forallb (fun k => negb (bool_decide (k ∈ [KDial; KProbe]))) ks = true ->
  always (among ks) p post -> always off_smtp p post.
Proof.
  intros H. apply always_weaken. intros X q Hq. apply bool_decide_eq_true in Hq.
  rewrite forallb_elem in H. by apply H.
Qed.

(** a message pinned to RESTMAIL is never sent to an MX by SMTP, nor is one even
    probed: whatever the capability cache, the DNS or the policy says by then, the
    attempt goes by RESTMAIL (or its domain's own relay) or fails. *)
Theorem pinned_never_smtp item :
  Transport item = TransportRESTMAIL -> always off_smtp (deliver w item) (fun _ => True).
Proof.
  intros Hpin. unfold deliver, fail. destruct (_ || _); [done|]. destruct (smtpEnvelope item); [|done].
  apply always_try. eapply always_mono; [|eapply off_smtp_among; [|apply relay_route_kinds]; done].
  intros [[settings|]|e] _; [eapply off_smtp_among; [|apply relay_footprint]; done| |done].
  destruct (DomainASCII _) as [dns|]; [|done].
  apply always_try. eapply always_mono; [|eapply off_smtp_among; [|apply mx_hosts_kinds]; done].
  intros [[|mx0 rest]|e] _; [done| |done]. destruct (_ && _); [done|].
  apply always_try. eapply always_mono; [|eapply off_smtp_among; [|apply mx_secure_kinds]; done].
  intros [secure|e] _; [|done].
  apply always_then. eapply always_mono; [|eapply off_smtp_among; [|apply policy_kinds]; done].
  intros found _. destruct (match found with Ok p => _ | Err e => _ end) as [p e].
  unfold deliver_direct. rewrite bool_decide_eq_true_2 by done.
  unfold deliverPinnedRESTMAIL, fail. destruct secure; [done|]. destruct (negb _); [done|].
  apply always_then. eapply always_mono; [|eapply off_smtp_among; [|apply restmail_footprint]; done]. done.
Qed.

(** The relay, or nothing: the state is what the relay settings said. *)
Definition direct_kinds := [KDns; KMXSecure; KPolicy; KCapability; KPin; KNote; KSession; KDial; KProbe; KHttp].
Definition relay_only : monitor Q bool := fun X s q =>
  match q in Q X return X -> option bool with
  | QRelayRow _ => fun x => Some (match x with
                                  | Ok (Some rel) => bool_decide (RTransport rel = "relay")
                                  | Ok None => false
                                  | Err _ => true
                                  end)
  | q => fun _ => if s && bool_decide (kind_of q ∈ direct_kinds) then None else Some s
  end.

Definition routed (s : bool) (r : result error (option relaySettings)) : Prop :=
  match r with Ok (Some _) => s = true | Ok None => s = false | Err _ => True end.
Lemma relay_route_only item : wp relay_only false (relayRoute w item) routed.
Proof.
  unfold relayRoute, fail, LoadRelayPassword, routed. destruct (bool_decide (sendsAs item = "")); [done|].
  apply wp_then, wp_ask. intros [[rel|]|e]; cbn [relay_only]; try done.
  destruct (bool_decide (RTransport rel <> "relay")) eqn:E.
  - apply wp_ret. apply bool_decide_eq_true in E. by apply bool_decide_eq_false_2.
  - apply bool_decide_eq_false, dec_stable in E. rewrite bool_decide_eq_true_2 by done.
    wp_walk ltac:(fun _ => cbn [relay_only kind_of];
      change (bool_decide (KSecret ∈ direct_kinds)) with false; cbn [andb]); done.
Qed.
Lemma relay_only_free {A} (p : prog A) :
  always (fun X q => negb (bool_decide (kind_of q = KRelayRow))) p (fun _ => True) ->
  wp relay_only false p (fun _ _ => True).
Proof.
  intros Hp. eapply wp_mono; [|eapply wp_neutral; [|exact Hp]]; [done|].
  intros X q x. by destruct q.
Qed.
Lemma kinds_free {A} ks (p : prog A) (post : A -> Prop) :
  forallb (fun k => negb (bool_decide (k = KRelayRow))) ks = true ->
  always (among ks) p post -> always (fun X q => negb (bool_decide (kind_of q = KRelayRow))) p post.
Proof.
  intros H. apply always_weaken. intros X q Hq. apply bool_decide_eq_true in Hq.
  rewrite forallb_elem in H. by apply H.
Qed.

(** Everything past the route, but for the SMTP loop, asks about neither route. *)
Lemma smtp_loop_kinds item p e enforcing dane mxs l t :
  always (among (KDns :: smtp_kinds)) (mx_loop w item p e enforcing dane mxs l t) (fun _ => True).
Proof.
  revert l t. induction mxs as [|mx mxs IH]; intros l t; cbn [mx_loop]; [done|].
  apply always_then. eapply always_mono with (post := fun _ => True).
  - intros [records|e'] _; [|apply IH]. destruct (_ && _ && _); [apply IH|].
    apply always_then. eapply always_mono with (post := fun _ => True); [intros [] _; [done|apply IH]|].
    eapply among_weaken; [|apply smtp_footprint]. done.
  - destruct dane; [|done]. unfold daneRecords, recordDANESession, fail. walk; done.
Qed.
Definition direct_footprint := KNote :: KCapability :: KPin :: KHttp :: KProbe :: KDns :: smtp_kinds.
Definition around_smtp := [KNote; KCapability; KPin; KHttp; KProbe; KSocket; KSign; KClock].

(** The direct path satisfies a test when its SMTP loop does. *)
Lemma direct_always (t : test Q) item dns h mxs dane p e :
  (forall X (q : Q X), kind_of q ∈ around_smtp -> t X q = true) ->
  always t (deliver_smtp w item p e (effective_enforce w p) dane mxs) (fun _ => True) ->
  always t (deliver_direct w item dns h mxs dane p e) (fun _ => True).
Proof.
  intros Ht Hsmtp.
  assert (forall A (q : prog A), always (among around_smtp) q (fun _ => True) -> always t q (fun _ => True)) as Hin.
  { intros A q. apply always_weaken. intros X q' Hq. apply Ht. by apply bool_decide_eq_true in Hq. }
  assert (forall url, always (among around_smtp) (deliverRESTMAILDiscovered w url item) (fun _ => True)) as Hrest
    by (intros; eapply among_weaken; [|apply restmail_footprint]; done).
  assert (forall url host, always (among around_smtp) (deliver_upgraded w url host item) (fun _ => True)) as Hup.
  { intros. unfold deliver_upgraded, pinRESTMAIL, wrap_err, ok. walk; try done;
      (eapply always_mono; [|apply Hrest]; done). }
  unfold deliver_direct. destruct (bool_decide _).
  { apply Hin. unfold deliverPinnedRESTMAIL, fail. walk; done. }
  apply always_then. eapply always_mono with (post := fun _ => True);
    [|apply Hin; destruct (negb _ && negb _); walk; done].
  intros cap _. apply always_then. eapply always_mono with (post := fun _ => True);
    [|apply Hin; destruct cap; walk; done].
  intros [c|] _; [destruct (_ && _); [by apply Hin|exact Hsmtp]|].
  destruct (negb _ && negb _); [|exact Hsmtp].
  apply always_then. eapply always_mono with (post := fun _ => True);
    [intros [r|] _; [done|exact Hsmtp]|].
  apply Hin. unfold tryRESTMAIL. apply always_then.
  eapply always_mono; [|eapply among_weaken; [|apply probe_footprint]; done].
  intros [[]|] _; unfold cacheCapability; walk; done.
Qed.

Lemma direct_kinds_ok item dns h mxs dane p e :
  always (among direct_footprint) (deliver_direct w item dns h mxs dane p e) (fun _ => True).
Proof.
  apply direct_always.
  { intros X q Hq. apply bool_decide_eq_true_2. unfold direct_footprint, smtp_kinds, around_smtp in *. set_solver. }
  unfold deliver_smtp, noteSMTP, fail, ok. apply always_then.
  eapply always_mono with (post := fun _ => True); [|destruct (_ || _); walk; done].
  intros _ _. apply always_then. eapply always_mono with (post := fun _ => True);
    [intros [[]|] _; done|eapply among_weaken; [|apply smtp_loop_kinds]; done].
Qed.

(** a message whose sending domain has a relay, or whose relay settings cannot be
    read or decrypted, is never routed around it: no MX is looked up or dialed, no
    RESTMAIL request is made. *)
Theorem relay_never_bypassed item : wp relay_only false (deliver w item) (fun _ _ => True).
Proof.
  unfold deliver, fail. destruct (_ || _); [done|]. destruct (smtpEnvelope item); [|done].
  apply wp_try. eapply wp_mono; [|apply relay_route_only].
  intros s [[settings|]|e] Hs; cbn [routed] in Hs; [subst s| |done].
  - eapply wp_mono; [|eapply (wp_neutral relay_only true (among relay_kinds)); [|apply relay_footprint]]; [done|].
    intros X q x Hq. apply bool_decide_eq_true in Hq. cbn. destruct q; try done; set_solver.
  - subst s. apply relay_only_free. destruct (DomainASCII _) as [dns|]; [|done].
    apply always_try. eapply always_mono; [|eapply (kinds_free [KDns]); [|apply mx_hosts_kinds]; done].
    intros [[|mx0 rest]|e] _; [done| |done]. destruct (_ && _); [done|].
    apply always_try. eapply always_mono; [|eapply (kinds_free [KMXSecure]); [|apply mx_secure_kinds]; done].
    intros [secure|e] _; [|done].
    apply always_then. eapply always_mono; [|eapply (kinds_free [KPolicy]); [|apply policy_kinds]; done].
    intros found _. destruct (match found with Ok p => _ | Err e => _ end) as [p e].
    eapply kinds_free; [|apply direct_kinds_ok]. done.
Qed.

(** *** The gates on the way to RESTMAIL, and to an MX under an enforced policy *)

(** What an attempt has learnt: the row is pinned, the MX records are DNSSEC-secure,
    and the policy this worker enforces. *)
Record learnt := { pinned : bool; secured : bool; enforced : option Sts.Policy }.
Definition at_start (item : OutboundQueue) : learnt := {|
  pinned := bool_decide (Transport item = TransportRESTMAIL) || (ID item =? 0);
  secured := false; enforced := None |}.
Definition secure_answer (x : result error Security) : bool := bool_decide (x = Ok Secure).
Definition policy_answer (x : result error Sts.Policy) : option Sts.Policy :=
  match x with Ok p => if effective_enforce w (Some p) then Some p else None | Err _ => None end.

Definition open_to_restmail (item : OutboundQueue) (s : learnt) : bool :=
  negb (secured s) && (negb (RequireTLS item) || bool_decide (Transport item = TransportRESTMAIL)).
Definition named_host (url : string) (s : learnt) : bool :=
  match enforced s with Some p => restmailUpgradePermitted url (Some p) true | None => true end.

Definition restmail_gate (item : OutboundQueue) : monitor Q learnt := fun X s q =>
  match q in Q X return X -> option learnt with
  | QMXSecure _ => fun x => Some {| pinned := pinned s; secured := secure_answer x; enforced := enforced s |}
  | QResolveSTS _ => fun x => Some {| pinned := pinned s; secured := secured s; enforced := policy_answer x |}
  | QPin _ => fun x => if open_to_restmail item s
                       then Some {| pinned := pinned s || is_ok x; secured := secured s; enforced := enforced s |}
                       else None
  | QGet url => fun _ => if open_to_restmail item s && pinned s && named_host url s then Some s else None
  | QPost _ _ _ _ _ => fun _ => if open_to_restmail item s && pinned s then Some s else None
  | _ => fun _ => Some s
  end.

(** Programs that ask none of the questions the gates read. *)
Definition gate_kinds := [KMXSecure; KPolicy; KPin; KHttp].
Lemma gate_free {A} item s ks (p : prog A) (post : learnt -> A -> Prop) :
  forallb (fun k => negb (bool_decide (k ∈ gate_kinds))) ks = true ->
  always (among ks) p (fun _ => True) -> (forall a, post s a) -> wp (restmail_gate item) s p post.
Proof.
  intros Hks Hp Hpost.
  eapply wp_mono; [|eapply (wp_neutral _ s (among ks)); [|exact Hp]]; [intros s' a [-> _]; apply Hpost|].
  intros X q x Hq. apply bool_decide_eq_true in Hq. rewrite forallb_elem in Hks. specialize (Hks _ Hq).
  clear Hq Hp. by destruct q.
Qed.

Definition only_url (url : string) : test Q := fun X q => match q with QGet u => bool_decide (u = url) | _ => true end.
Lemma discovered_url url item : always (only_url url) (deliverRESTMAILDiscovered w url item) (fun _ => True).
Proof.
  unfold deliverRESTMAILDiscovered, discoverRESTMAILEndpoint, deliverRESTMAILHTTPS, wrap_err, fail, ok.
  walk; try done; try (by apply bool_decide_eq_true_2).
  all: eapply always_weaken; [|eapply always_mono; [|apply prepare_kinds]].
  all: first [intros [] _; walk; done|intros X q Hq; by destruct q].
Qed.

Lemma restmail_gated item s url :
  open_to_restmail item s = true -> pinned s = true -> named_host url s = true ->
  wp (restmail_gate item) s (deliverRESTMAILDiscovered w url item) (fun _ _ => True).
Proof.
  intros H1 H2 H3.
  eapply wp_mono; [|eapply (wp_neutral _ s (fun X q => among http_kinds X q && only_url url X q));
    [|apply always_both; [apply restmail_footprint|apply discovered_url]]]; [done|].
  intros X q x Hq. apply andb_true_iff in Hq as [Hk Hu]. apply bool_decide_eq_true in Hk.
  destruct q; try done; try (by exfalso; revert Hk; vm_compute; set_solver); cbn in *.
  - apply bool_decide_eq_true in Hu as ->. by rewrite H1, H2, H3.
  - by rewrite H1, H2.
Qed.

Lemma upgraded_gated item s url host :
  open_to_restmail item s = true -> ((ID item =? 0) = true -> pinned s = true) -> named_host url s = true ->
  wp (restmail_gate item) s (deliver_upgraded w url host item) (fun _ _ => True).
Proof.
  intros H1 H2 H3. unfold deliver_upgraded, pinRESTMAIL, wrap_err, ok. apply wp_try.
  destruct (ID item =? 0) eqn:E.
  - apply wp_ret, wp_then. eapply wp_mono; [|apply restmail_gated; auto]. done.
  - apply wp_then, wp_ask. intros [[]|e]; cbn [restmail_gate]; rewrite H1; [|done].
    apply wp_ret, wp_then. eapply wp_mono; [|apply restmail_gated; try done]; [done|].
    cbn. by rewrite orb_true_r.
Qed.

(** The policy the code enforces is the one the monitor remembers. *)
Definition consistent (s : learnt) (p : option Sts.Policy) : Prop :=
  enforced s = if effective_enforce w p then p else None.
Lemma permitted_named url p s :
  consistent s p -> restmailUpgradePermitted url p (effective_enforce w p) = named_host url s.
Proof.
  unfold consistent, named_host. intros ->. destruct (effective_enforce w p) eqn:E; [|done].
  by destruct p.
Qed.

Lemma direct_gated item dns h mxs p e s :
  consistent s p -> pinned s = pinned (at_start item) ->
  wp (restmail_gate item) s (deliver_direct w item dns h mxs (secured s) p e) (fun _ _ => True).
Proof.
  intros Hc Hp.
  assert (forall q : prog (result error unit), always (among (KNote :: KDns :: smtp_kinds)) q (fun _ => True) ->
    wp (restmail_gate item) s q (fun _ _ => True)) as Hfree by (intros q Hq; by apply (gate_free item s (KNote :: KDns :: smtp_kinds))).
  assert (wp (restmail_gate item) s (deliver_smtp w item p e (effective_enforce w p) (secured s) mxs) (fun _ _ => True)) as Hsmtp.
  { apply Hfree. unfold deliver_smtp, noteSMTP, fail, ok. apply always_then.
    eapply always_mono with (post := fun _ => True); [|destruct (_ || _); walk; done].
    intros _ _. apply always_then. eapply always_mono with (post := fun _ => True);
      [intros [[]|] _; done|eapply among_weaken; [|apply smtp_loop_kinds]; done]. }
  assert ((ID item =? 0) = true -> pinned s = true) as Hid by (intros Hid; rewrite Hp; cbn; by rewrite Hid, orb_true_r).
  unfold deliver_direct. destruct (bool_decide (Transport item = _)) eqn:Et.
  { unfold deliverPinnedRESTMAIL, fail. destruct (secured s) eqn:Es; [done|].
    rewrite (permitted_named _ p s Hc). destruct (negb (named_host _ s)) eqn:En; [done|].
    apply negb_false_iff in En. apply wp_then. eapply wp_mono; [|apply restmail_gated; try done]; [done| |].
    - unfold open_to_restmail. by rewrite Es, Et, orb_true_r.
    - rewrite Hp. cbn. by rewrite Et. }
  apply wp_then. set (upgrade := negb (RequireTLS item) && negb (secured s)).
  eapply wp_mono with (post := fun s' (cap : option Capability) => s' = s /\ (upgrade = false -> cap = None));
    [|destruct upgrade; [apply wp_ask; intros; done|done]].
  intros s' cap [-> Hcap]. apply wp_then.
  eapply wp_mono with (post := fun s' (hit : option Capability) => s' = s /\ (upgrade = false -> hit = None));
    [|destruct cap; [apply wp_then, wp_ask; intros t; apply wp_ret; split; [done|]; intros Hu; by specialize (Hcap Hu)|done]].
  intros s' hit [-> Hhit]. unfold upgrade in *.
  destruct (negb (RequireTLS item) && negb (secured s)) eqn:Eu.
  - assert (open_to_restmail item s = true) as Ho.
    { apply andb_true_iff in Eu as [E1 E2]. unfold open_to_restmail. by rewrite E1, E2. }
    destruct hit as [c|].
    + destruct (Supported c && _) eqn:Ec; [|apply Hsmtp]. rewrite (permitted_named _ p s Hc) in Ec.
      apply andb_true_iff in Ec as [_ Ec]. by apply upgraded_gated.
    + apply wp_then. unfold tryRESTMAIL. apply wp_then. eapply gate_free with (ks := probe_kinds);
        [done|apply probe_footprint|]. intros [[]|]; [| |apply Hsmtp].
      * unfold cacheCapability. apply wp_then, wp_then, wp_ask. intros t. apply wp_ask. intros [].
        rewrite (permitted_named _ p s Hc). destruct (negb (named_host _ s)) eqn:En; [apply Hsmtp|].
        apply negb_false_iff in En. apply wp_then. eapply wp_mono; [|by apply upgraded_gated]. done.
      * unfold cacheCapability. apply wp_then, wp_then, wp_ask. intros t. apply wp_ask. intros []. apply Hsmtp.
  - rewrite Hhit by done. apply Hsmtp.
Qed.

(** The steps from the relay lookup to the direct path, for any monitor that reads only
    the answers [learnt] records. *)
Definition learns (m : monitor Q learnt) : Prop :=
  (forall s d x, m _ s (QMXSecure d) x =
    Some {| pinned := pinned s; secured := secure_answer x; enforced := enforced s |}) /\
  (forall s d x, m _ s (QResolveSTS d) x =
    Some {| pinned := pinned s; secured := secured s; enforced := policy_answer x |}) /\
  (forall X s (q : Q X) x, kind_of q ∈ [KRelayRow; KSecret; KDns] -> m X s q x = Some s).

Lemma neutral_kinds {A} (m : monitor Q learnt) s ks (p : prog A) (post : learnt -> A -> Prop) :
  (forall X (q : Q X) x, kind_of q ∈ ks -> m X s q x = Some s) ->
  always (among ks) p (fun _ => True) -> (forall a, post s a) -> wp m s p post.
Proof.
  intros Hm Hp Hpost. eapply wp_mono; [|eapply (wp_neutral m s (among ks)); [|exact Hp]].
  - intros s' a [-> _]. apply Hpost.
  - intros X q x Hq. apply Hm. by apply bool_decide_eq_true in Hq.
Qed.

Lemma deliver_learning (m : monitor Q learnt) item :
  learns m ->
  (forall settings, wp m (at_start item) (deliverViaRelay w settings item) (fun _ _ => True)) ->
  (forall dns h mxs p e s, consistent s p -> pinned s = pinned (at_start item) ->
    wp m s (deliver_direct w item dns h mxs (secured s) p e) (fun _ _ => True)) ->
  wp m (at_start item) (deliver w item) (fun _ _ => True).
Proof.
  intros (Hsec & Hpol & Hneu) Hrelay Hdirect.
  unfold deliver, fail. destruct (_ || _); [done|]. destruct (smtpEnvelope item); [|done].
  apply wp_try. eapply (neutral_kinds m _ [KRelayRow; KSecret]); [|apply relay_route_kinds|].
  { intros X q x Hk. apply Hneu. set_solver. }
  intros [[settings|]|e]; [apply Hrelay| |done].
  destruct (DomainASCII _) as [dns|]; [|done].
  apply wp_try. eapply (neutral_kinds m _ [KDns]); [|apply mx_hosts_kinds|].
  { intros X q x Hk. apply Hneu. set_solver. }
  intros [[|mx0 rest]|e]; [done| |done]. destruct (_ && _); [done|].
  apply wp_try. unfold daneMXSecure, fail.
  eapply wp_mono with (post := fun s r => match r with
    | Ok secure => secured s = secure /\ pinned s = pinned (at_start item) /\ enforced s = None
    | Err _ => True end).
  2:{ destruct (dane_on w); cbn [negb]; [|done]. apply wp_then, wp_ask. intros x. rewrite Hsec.
      destruct x as [[]|]; done. }
  intros s [secure|e] Hs; [|done]. destruct Hs as (<- & Hp & He).
  apply wp_then. unfold recipientPolicy, fail.
  assert (consistent s None) as Hc by (unfold consistent; by rewrite He).
  destruct (TLSReport item); [by apply wp_ret, Hdirect|].
  destruct (negb _ && _); [by apply wp_ret, Hdirect|].
  apply wp_ask. intros x. rewrite Hpol. destruct x as [p|e].
  - change (secured s) with (secured {| pinned := pinned s; secured := secured s; enforced := policy_answer (Ok p) |}).
    by apply Hdirect.
  - change (secured s) with (secured {| pinned := pinned s; secured := secured s; enforced := policy_answer (Err e) |}).
    by apply Hdirect.
Qed.

(** no RESTMAIL request is ever made for a message that requires TLS or a domain
    DANE covers (unless the message was pinned before); nor before the row is pinned,
    so no later attempt can take the message back to SMTP; and under an enforced
    MTA-STS policy discovery is asked only of an https host the policy names. *)
Theorem restmail_only_when_allowed item :
  wp (restmail_gate item) (at_start item) (deliver w item) (fun _ _ => True).
Proof.
  apply deliver_learning.
  - split_and!; [done|done|]. intros X s q x Hk. by destruct q; try (exfalso; revert Hk; vm_compute; set_solver).
  - intros settings. by apply (gate_free item _ relay_kinds); [|apply relay_footprint|].
  - intros. by apply direct_gated.
Qed.

(** *** An enforced policy, on the way to an MX *)

Definition policy_link (s : learnt) (l : smtpLink) : bool :=
  match enforced s with
  | None => true
  | Some p => bool_decide (security l = transportAuthenticated)
              && (secured s || (List.length (Sts.MX p) =? 0)%nat || MatchesMX p (lhost l))
  end.
(** Every message question is on a link the policy allows. *)
Definition policy_gate : monitor Q learnt := fun X s q =>
  match q in Q X return X -> option learnt with
  | QMXSecure _ => fun x => Some {| pinned := pinned s; secured := secure_answer x; enforced := enforced s |}
  | QResolveSTS _ => fun x => Some {| pinned := pinned s; secured := secured s; enforced := policy_answer x |}
  | q => fun _ => match message_link q with
                  | Some l => if policy_link s l then Some s else None
                  | None => Some s
                  end
  end.

Lemma policy_free {A} s (p : prog A) (post : learnt -> A -> Prop) :
  always (on_link (policy_link s)) p (fun _ => True) ->
  always (fun X q => negb (bool_decide (kind_of q ∈ [KMXSecure; KPolicy]))) p (fun _ => True) ->
  (forall a, post s a) -> wp policy_gate s p post.
Proof.
  intros H1 H2 Hpost.
  eapply wp_mono; [|eapply (wp_neutral _ s _ p (fun _ => True)); [|apply (always_both _ _ _ _ H1 H2)]].
  - intros s' a [-> _]. apply Hpost.
  - intros X q x. rewrite andb_true_iff. unfold on_link. intros [Hl Hk].
    destruct q; cbn in *; try done; by rewrite Hl.
Qed.
Lemma among_not {A} (ks ks' : list kind) (p : prog A) (post : A -> Prop) :
  forallb (fun k => negb (bool_decide (k ∈ ks'))) ks = true ->
  always (among ks) p post -> always (fun X q => negb (bool_decide (kind_of q ∈ ks'))) p post.
Proof.
  intros H. apply always_weaken. intros X q Hq. apply bool_decide_eq_true in Hq.
  rewrite forallb_elem in H. by apply H.
Qed.
Lemma among_on_link {A} P ks (p : prog A) (post : A -> Prop) :
  forallb (fun k => negb (bool_decide (k = KMessage))) ks = true ->
  always (among ks) p post -> always (on_link P) p post.
Proof.
  intros H. apply always_weaken. intros X q Hq. apply bool_decide_eq_true in Hq.
  rewrite forallb_elem in H. specialize (H _ Hq). clear Hq. by destruct q.
Qed.

Lemma loop_on_link item p e s mxs l t :
  evaluate_enforces -> consistent s p ->
  always (on_link (policy_link s))
    (mx_loop w item p e (effective_enforce w p) (secured s) mxs l t) (fun _ => True).
Proof.
  intros Hlaw Hc. revert l t. induction mxs as [|mx mxs IH]; intros l t; cbn [mx_loop]; [done|].
  apply always_then.
  eapply always_mono with (post := fun r => match r with
    | Ok records => records <> None -> secured s = true | Err _ => True end).
  2:{ destruct (secured s) eqn:Es; [|by apply always_ret].
      eapply always_mono with (post := fun _ => True); [by intros []|].
      apply (among_on_link _ [KDns; KClock; KSession]); [done|].
      unfold daneRecords, recordDANESession, fail. walk; done. }
  intros [records|e'] Hr; [|apply IH].
  destruct (bool_decide (records = None) && _ && _) eqn:Eskip; [apply IH|].
  apply always_then. eapply always_mono with (post := fun _ => True); [intros [] _; [done|apply IH]|].
  unfold deliverToHost. unfold policy_link. rewrite Hc.
  destruct (effective_enforce w p) eqn:Ee.
  2:{ eapply always_weaken; [|apply smtp_footprint]. intros X q _. unfold on_link. by destruct (message_link q). }
  destruct p as [p|]; [|done].
  eapply always_weaken; [|apply (protected_links w); [exact Hlaw|]].
  - intros X q. unfold on_link. destruct (message_link q) as [l'|]; [|done].
    rewrite bool_decide_eq_true. intros [-> Hsec]. rewrite bool_decide_eq_true_2 by done.
    destruct records as [rs|]; [by rewrite Hr|].
    rewrite bool_decide_eq_true_2, andb_true_r, andb_true_l in Eskip by done.
    apply andb_false_iff in Eskip as [E|E]; apply negb_false_iff in E; rewrite E; by rewrite ?orb_true_r.
  - destruct records; [right; by left|left]. done.
Qed.

End Paths.
End DeliverySafety.
