(* ===== verification/ConnLimiter.v ===== *)
(** * Connection limiter and authentication bans (internal/gateway/connlimiter)

    [Limiter] is the limiter's state, [Accept], [Release], [RecordAuthFail] ... its
    methods, each run without interruption. [Machine] is the same Accept and Release as
    the atomic steps of concurrent goroutines: the mutex, each atomic load and each
    atomic add. [accept_run] says [Accept] is those steps run in one go. *)

From S2P Require Import Prelude GoTime GoStrings.
Import GoInt GoTime GoStrings.
Local Open Scope Z_scope.

Module ConnLimiter.

Record Config := {
  MaxPerIP : Z;
  MaxGlobal : Z;
  AuthMaxFails : Z;
  AuthBanWindow : Duration;
  AuthBanDuration : Duration;
}.

Definition withDefaults (c : Config) : Config := {|
  MaxPerIP := if MaxPerIP c <=? 0 then 20 else MaxPerIP c;
  MaxGlobal := if MaxGlobal c <=? 0 then 1000 else MaxGlobal c;
  AuthMaxFails := if AuthMaxFails c <=? 0 then 5 else AuthMaxFails c;
  AuthBanWindow := if AuthBanWindow c <=? 0 then 10 * Minute else AuthBanWindow c;
  AuthBanDuration := if AuthBanDuration c <=? 0 then 30 * Minute else AuthBanDuration c;
|}.

Record failRecord := { failures : list Time; bannedAt : Time }.
Definition new_record : failRecord := {| failures := []; bannedAt := zero |}.

Definition BanChecker := string -> string -> bool.

(** The Prometheus series the limiter moves, by protocol label. *)
Record Metrics := {
  ActiveConnections : gmap string Z;
  ConnectionsAccepted : gmap string Z;
  AuthFailures : gmap string Z;
}.

Record Limiter := {
  cfg : Config;
  global : Z;                         (* atomic.Int32 *)
  perIP : gmap string Z;              (* sync.Map of *atomic.Int32 *)
  authFails : gmap string failRecord;
  userFails : gmap string failRecord;
  banChecker : option BanChecker;
  protocol : string;
  metrics : Metrics;
}.

Definition New (c : Config) (m : Metrics) : Limiter := {|
  cfg := withDefaults c; global := 0; perIP := ∅; authFails := ∅; userFails := ∅;
  banChecker := None; protocol := ""; metrics := m |}.

(** WithLabelValues creates a series at 0; Inc, Dec and Add move it. *)
Definition touch (m : gmap string Z) (label : string) : gmap string Z :=
  <[label := default 0 (m !! label)]> m.
Definition bump (m : gmap string Z) (label : string) (by_ : Z) : gmap string Z :=
  <[label := default 0 (m !! label) + by_]> m.

Definition initProtocolSeries (proto : string) (m : Metrics) : Metrics :=
  if bool_decide (proto = "") then m
  else {| ActiveConnections := ActiveConnections m;
          ConnectionsAccepted := touch (ConnectionsAccepted m) proto;
          AuthFailures := AuthFailures m |}.

Definition with_counters (l : Limiter) (g : Z) (ips : gmap string Z) (m : Metrics) : Limiter := {|
  cfg := cfg l; global := g; perIP := ips; authFails := authFails l;
  userFails := userFails l; banChecker := banChecker l; protocol := protocol l; metrics := m |}.
Definition with_fails (l : Limiter) (af uf : gmap string failRecord) (m : Metrics) : Limiter := {|
  cfg := cfg l; global := global l; perIP := perIP l; authFails := af;
  userFails := uf; banChecker := banChecker l; protocol := protocol l; metrics := m |}.

Definition SetBanChecker (l : Limiter) (checker : BanChecker) (proto : string) : Limiter := {|
  cfg := cfg l; global := global l; perIP := perIP l; authFails := authFails l;
  userFails := userFails l; banChecker := Some checker; protocol := proto;
  metrics := initProtocolSeries proto (metrics l) |}.
Definition SetProtocol (l : Limiter) (proto : string) : Limiter := {|
  cfg := cfg l; global := global l; perIP := perIP l; authFails := authFails l;
  userFails := userFails l; banChecker := banChecker l; protocol := proto;
  metrics := initProtocolSeries proto (metrics l) |}.

Definition checker_bans (l : Limiter) (ip : string) : bool :=
  match banChecker l with Some f => f ip (protocol l) | None => false end.

(** The two increments a successful Accept makes, and the one a Release makes. *)
Definition count_accept (l : Limiter) : Metrics :=
  let m := metrics l in
  if bool_decide (protocol l = "") then m
  else {| ActiveConnections := bump (ActiveConnections m) (protocol l) 1;
          ConnectionsAccepted := bump (ConnectionsAccepted m) (protocol l) 1;
          AuthFailures := AuthFailures m |}.
Definition count_release (l : Limiter) : Metrics :=
  let m := metrics l in
  if bool_decide (protocol l = "") then m
  else {| ActiveConnections := bump (ActiveConnections m) (protocol l) (-1);
          ConnectionsAccepted := ConnectionsAccepted m;
          AuthFailures := AuthFailures m |}.

Definition Accept (l : Limiter) (ip : string) : Limiter * bool :=
  if checker_bans l ip then (l, false)
  else if MaxGlobal (cfg l) <=? global l then (l, false)
  else
    (* LoadOrStore: the counter exists from here on, even when refused *)
    let open := default 0 (perIP l !! ip) in
    let ips := <[ip := open]> (perIP l) in
    if MaxPerIP (cfg l) <=? open then (with_counters l (global l) ips (metrics l), false)
    else (with_counters l (wrap32 (global l + 1)) (<[ip := wrap32 (open + 1)]> ips)
            (count_accept l), true).

Definition Release (l : Limiter) (ip : string) : Limiter :=
  let ips := match perIP l !! ip with
             | Some n => <[ip := wrap32 (n - 1)]> (perIP l)
             | None => perIP l
             end in
  with_counters l (wrap32 (global l - 1)) ips (count_release l).

(** ** Failure tracking *)

Definition recordFail (c : Config) (fails : gmap string failRecord) (key : string) (now : Time)
  : gmap string failRecord :=
  let rec := default new_record (fails !! key) in
  let cutoff := Add now (- AuthBanWindow c) in
  let fresh := filter (fun t => After t cutoff = true) (failures rec ++ [now]) in
  <[key := {| failures := fresh;
              bannedAt := if AuthMaxFails c <=? Z.of_nat (length fresh) then now
                          else bannedAt rec |}]> fails.

Definition banned (c : Config) (fails : gmap string failRecord) (key : string) (now : Time)
  : gmap string failRecord * bool :=
  match fails !! key with
  | None => (fails, false)
  | Some rec =>
      if IsZero (bannedAt rec) then (fails, false)
      else if AuthBanDuration c <? Sub now (bannedAt rec)
      then (<[key := {| failures := []; bannedAt := zero |}]> fails, false)
      else (fails, true)
  end.

Definition clearFail (fails : gmap string failRecord) (key : string) : gmap string failRecord :=
  match fails !! key with
  | None => fails
  | Some _ => <[key := {| failures := []; bannedAt := zero |}]> fails
  end.

Definition RecordAuthFail (l : Limiter) (ip : string) (now : Time) : Limiter :=
  let m := metrics l in
  let m' := if bool_decide (protocol l = "") then m
            else {| ActiveConnections := ActiveConnections m;
                    ConnectionsAccepted := ConnectionsAccepted m;
                    AuthFailures := bump (AuthFailures m) (protocol l) 1 |} in
  with_fails l (recordFail (cfg l) (authFails l) ip now) (userFails l) m'.

Definition IsBanned (l : Limiter) (ip : string) (now : Time) : Limiter * bool :=
  if checker_bans l ip then (l, true)
  else let '(af, b) := banned (cfg l) (authFails l) ip now in
       (with_fails l af (userFails l) (metrics l), b).

Definition ResetAuth (l : Limiter) (ip : string) : Limiter :=
  with_fails l (clearFail (authFails l) ip) (userFails l) (metrics l).

Section Accounts.
Context `{Unicode}.

Definition accountKey (user : string) : string := ToLower (TrimSpace user).

Definition RecordAuthFailUser (l : Limiter) (user : string) (now : Time) : Limiter :=
  let key := accountKey user in
  if bool_decide (key = "") then l
  else with_fails l (authFails l) (recordFail (cfg l) (userFails l) key now) (metrics l).

Definition IsUserBanned (l : Limiter) (user : string) (now : Time) : Limiter * bool :=
  let key := accountKey user in
  if bool_decide (key = "") then (l, false)
  else let '(uf, b) := banned (cfg l) (userFails l) key now in
       (with_fails l (authFails l) uf (metrics l), b).

Definition ResetAuthUser (l : Limiter) (user : string) : Limiter :=
  let key := accountKey user in
  if bool_decide (key = "") then l
  else with_fails l (authFails l) (clearFail (userFails l) key) (metrics l).
End Accounts.

(** ** Bans: what a history of failures means

    [fail_run] is a key's tracker after failures at the times [ts], in order. *)

Definition fail_run (c : Config) (key : string) (ts : list Time) (fails : gmap string failRecord)
  : gmap string failRecord :=
  fold_left (fun m t => recordFail c m key t) ts fails.

(** The failures among [ts] that lie in the window ending at [n]. *)
Definition in_window (c : Config) (n : Time) (ts : list Time) : list Time :=
  filter (fun t => After t (n - AuthBanWindow c) = true) ts.

(** Times a process sees: positive, never going back. *)
Definition clock (ts : list Time) : Prop := Forall (fun t => 0 < t) ts /\ StronglySorted Z.le ts.

(** A failure that arms the ban: it completes AuthMaxFails within the window. *)
Definition arms (c : Config) (pre : list Time) (n : Time) : Prop :=
  AuthMaxFails c <= Z.of_nat (length (in_window c n (pre ++ [n]))).

Lemma clock_snoc ts n : clock (ts ++ [n]) -> clock ts /\ 0 < n /\ Forall (fun t => t <= n) ts.
Proof.
  intros [Hp Hs]. apply Forall_app in Hp as [Hp Hn]. apply StronglySorted_app in Hs as (Hle & Hs & _).
  inversion Hn; subst. repeat split; auto.
  apply Forall_forall. intros x Hx. apply Hle; set_solver.
Qed.

Lemma in_window_filter c m n ts :
  m <= n -> filter (fun t => After t (n - AuthBanWindow c) = true) (in_window c m ts) = in_window c n ts.
Proof.
  intros Hle. unfold in_window. rewrite list_filter_filter.
  apply list_filter_iff. intros t. unfold After. bprop. lia.
Qed.

Lemma in_window_app c n ts us : in_window c n (ts ++ us) = in_window c n ts ++ in_window c n us.
Proof. apply filter_app. Qed.

Lemma fail_run_snoc c key ts n :
  fail_run c key (ts ++ [n]) ∅ = recordFail c (fail_run c key ts ∅) key n.
Proof. unfold fail_run. by rewrite fold_left_app. Qed.

(** The tracker keeps exactly the failures in the window ending at the last one. *)
Lemma fail_run_failures c key ts n :
  clock (ts ++ [n]) ->
  failures (default new_record (fail_run c key (ts ++ [n]) ∅ !! key)) = in_window c n (ts ++ [n]).
Proof.
  revert n. induction ts as [|m ts IH] using rev_ind; intros n Hc.
  - rewrite fail_run_snoc. unfold recordFail. by rewrite lookup_insert_eq.
  - rewrite fail_run_snoc. unfold recordFail. rewrite lookup_insert_eq; simpl.
    apply clock_snoc in Hc as (Hc & Hn & Hle).
    rewrite (IH m Hc), filter_app, (in_window_app c n (ts ++ [m])). f_equal.
    apply (in_window_filter c m n).
    rewrite Forall_app in Hle. destruct Hle as [_ Hm]. by inversion Hm.
Qed.

(** The time of the ban in force after [ts], by its specification. *)
Fixpoint last_armed (c : Config) (pre rest : list Time) (cur : Time) : Time :=
  match rest with
  | [] => cur
  | n :: rest =>
      last_armed c (pre ++ [n]) rest
        (if AuthMaxFails c <=? Z.of_nat (length (in_window c n (pre ++ [n]))) then n else cur)
  end.

Lemma fail_run_bannedAt_snoc c key ts n :
  clock (ts ++ [n]) ->
  bannedAt (default new_record (fail_run c key (ts ++ [n]) ∅ !! key)) =
    if AuthMaxFails c <=? Z.of_nat (length (in_window c n (ts ++ [n]))) then n
    else bannedAt (default new_record (fail_run c key ts ∅ !! key)).
Proof.
  intros Hc. pose proof (fail_run_failures c key ts n Hc) as Hf.
  rewrite fail_run_snoc in *. unfold recordFail in *. rewrite lookup_insert_eq in *.
  simpl in *. by rewrite Hf.
Qed.

(** The ban in force is the last arming failure's, or none. *)
Lemma fail_run_bannedAt c key ts :
  clock ts ->
  let b := bannedAt (default new_record (fail_run c key ts ∅ !! key)) in
  (b = 0 /\ forall pre n post, ts = pre ++ n :: post -> ~ arms c pre n) \/
  (0 < b /\ (exists pre post, ts = pre ++ b :: post /\ arms c pre b) /\
   forall pre n post, ts = pre ++ n :: post -> arms c pre n -> n <= b).
Proof.
  induction ts as [|n ts IH] using rev_ind; intros Hc; simpl.
  - left. split; [by unfold fail_run; simpl; rewrite lookup_empty|]. intros [|] ???; done.
  - rewrite (fail_run_bannedAt_snoc _ _ _ _ Hc).
    apply clock_snoc in Hc as (Hc & Hn & Hle). specialize (IH Hc); simpl in IH.
    case_match eqn:Ht; bprop.
    + right. split; [done|]. split; [exists ts, []; done|].
      intros pre m post Heq _. assert (m ∈ ts ++ [n]) as Hin by (rewrite Heq; apply elem_of_app; right; left).
      apply elem_of_app in Hin as [Hin|Hin]; [by eapply Forall_forall in Hle|set_solver].
    + assert (forall pre m post, ts ++ [n] = pre ++ m :: post -> arms c pre m ->
                exists post', ts = pre ++ m :: post') as Hsplit.
      { intros pre m post Heq Ha. destruct post as [|x post] using rev_ind.
        - apply app_inj_tail in Heq as [-> ->]. unfold arms in Ha. lia.
        - change (m :: post ++ [x]) with ((m :: post) ++ [x]) in Heq. rewrite app_assoc in Heq.
          apply app_inj_tail in Heq as [-> _]. by exists post. }
      destruct IH as [[Hb Hno]|(Hb & (pre & post & Heq & Ha) & Hmax)].
      * left. split; [done|]. intros pre m post Heq Ha.
        destruct (Hsplit _ _ _ Heq Ha) as [post' Heq']. exact (Hno _ _ _ Heq' Ha).
      * right. split; [done|]. split.
        { exists pre, (post ++ [n]). split; [|done]. by rewrite app_comm_cons, app_assoc, <- Heq. }
        intros pre' m post' Heq' Ha'. destruct (Hsplit _ _ _ Heq' Ha') as [q Hq]. exact (Hmax _ _ _ Hq Ha').
Qed.

(** after failures at the times [ts], the key is banned at [t] exactly when some
    failure completed AuthMaxFails failures within AuthBanWindow and no more than
    AuthBanDuration has passed since. *)
Theorem ban_exact c key ts t :
  clock ts -> Forall (fun n => n <= t) ts ->
  0 <= AuthBanDuration c < max_int64 ->
  (banned c (fail_run c key ts ∅) key t).2 = true <->
  (exists pre n post, ts = pre ++ n :: post /\ arms c pre n /\ t - n <= AuthBanDuration c).
Proof.
  intros Hc Ht Hd. pose proof (fail_run_bannedAt c key ts Hc) as Hb. simpl in Hb.
  unfold banned. destruct (fail_run c key ts ∅ !! key) as [rec|] eqn:E; simpl in *.
  2:{ split; [done|]. intros (pre & n & post & Heq & Ha & _).
      destruct Hb as [[_ Hno]|[Hlt _]]; [destruct (Hno _ _ _ Heq Ha)|by cbv in Hlt]. }
  unfold IsZero, Sub.
  destruct Hb as [[Hz Hno]|(Hlt & (pre & post & Heq & Ha) & Hmax)].
  - rewrite Hz. simpl. split; [done|]. intros (pre & n & post & Heq & Ha & _). destruct (Hno _ _ _ Heq Ha).
  - replace (bannedAt rec =? 0) with false by (symmetry; bool_lia).
    assert (bannedAt rec <= t) as Hbt.
    { eapply Forall_forall in Ht; [exact Ht|]. rewrite Heq. set_solver. }
    assert (in64 (AuthBanDuration c)) as Hin by (unfold in64, max_int64, min_int64 in *; lia).
    case_match eqn:Hcmp; simpl.
    + split; [done|]. intros (pre' & n & post' & Heq' & Ha' & Hle).
      apply clamp64_gt in Hcmp; [|done]. specialize (Hmax _ _ _ Heq' Ha'). lia.
    + split; [|done]. intros _. apply clamp64_le in Hcmp; [|done].
      exists pre, (bannedAt rec), post. repeat split; try done. lia.
Qed.

(** Trackers of different keys are independent. *)
Lemma fail_frame c fails k k' t :
  k <> k' ->
  recordFail c fails k t !! k' = fails !! k' /\
  (banned c fails k t).1 !! k' = fails !! k' /\
  clearFail fails k !! k' = fails !! k'.
Proof.
  intros Hne. unfold recordFail, banned, clearFail.
  repeat split; repeat case_match; simpl; by rewrite ?lookup_insert_ne by done.
Qed.

(** A success forgives everything: after it one failure alone never bans (when more
    than one is needed). *)
Lemma reset_forgives c fails key n t :
  1 < AuthMaxFails c ->
  (banned c (recordFail c (clearFail fails key) key n) key t).2 = false.
Proof.
  intros H.
  assert (default new_record (clearFail fails key !! key) = new_record) as Hnew.
  { unfold clearFail. destruct (fails !! key) eqn:E; by rewrite ?lookup_insert_eq, ?E. }
  unfold recordFail, banned. rewrite Hnew, lookup_insert_eq. cbn [bannedAt failures new_record app].
  rewrite (proj2 (Z.leb_gt _ _)); [done|].
  pose proof (length_filter (fun t => After t (Add n (- AuthBanWindow c)) = true) [n]).
  cbn [length] in *. lia.
Qed.

(** ** Accept and Release as concurrent goroutines

    One thread per connection: it asks for admission, holds the connection while it is
    open, and then releases it once. Each constructor of [pc] is the point a goroutine
    has reached between two atomic operations of the code. *)

Inductive pc :=
| Asking                 (* before acceptMu.Lock *)
| Locked                 (* holds acceptMu *)
| GlobalOk               (* global.Load() < MaxGlobal *)
| PerIPOk                (* counter.Load() < MaxPerIP *)
| AddedIP                (* counter.Add(1) done *)
| AddedGlobal            (* global.Add(1) done, still holds acceptMu *)
| Refusing               (* a limit refused; still holds acceptMu *)
| Refused
| Opened                 (* Accept returned true *)
| Releasing              (* Release: global.Add(-1) done *)
| Closed.
#[export] Instance pc_eq_dec : EqDecision pc.
Proof. solve_decision. Defined.

Record thread := { tip : string; tpc : pc }.
Definition at_pc (th : thread) (p : pc) : thread := {| tip := tip th; tpc := p |}.

(** [m_lock] is the thread holding acceptMu. *)
Record machine := {
  m_global : Z;
  m_perIP : gmap string Z;
  m_lock : option nat;
  m_threads : list thread;
}.
Definition counter (m : machine) (ip : string) : Z := default 0 (m_perIP m !! ip).
Definition set_pc (m : machine) (i : nat) (th : thread) (p : pc) : list thread :=
  <[i := at_pc th p]> (m_threads m).

(** One atomic step of thread [i]. *)
Inductive step (c : Config) (m : machine) (i : nat) (th : thread) : machine -> Prop :=
| s_lock :
    tpc th = Asking -> m_lock m = None ->
    step c m i th {| m_global := m_global m; m_perIP := m_perIP m; m_lock := Some i;
                     m_threads := set_pc m i th Locked |}
| s_global_full :
    tpc th = Locked -> MaxGlobal c <= m_global m ->
    step c m i th {| m_global := m_global m; m_perIP := m_perIP m; m_lock := m_lock m;
                     m_threads := set_pc m i th Refusing |}
| s_global_ok :
    tpc th = Locked -> m_global m < MaxGlobal c ->
    step c m i th {| m_global := m_global m; m_perIP := m_perIP m; m_lock := m_lock m;
                     m_threads := set_pc m i th GlobalOk |}
| s_ip_full :   (* LoadOrStore, then counter.Load *)
    tpc th = GlobalOk -> MaxPerIP c <= counter m (tip th) ->
    step c m i th {| m_global := m_global m;
                     m_perIP := <[tip th := counter m (tip th)]> (m_perIP m);
                     m_lock := m_lock m; m_threads := set_pc m i th Refusing |}
| s_ip_ok :
    tpc th = GlobalOk -> counter m (tip th) < MaxPerIP c ->
    step c m i th {| m_global := m_global m;
                     m_perIP := <[tip th := counter m (tip th)]> (m_perIP m);
                     m_lock := m_lock m; m_threads := set_pc m i th PerIPOk |}
| s_add_ip :
    tpc th = PerIPOk ->
    step c m i th {| m_global := m_global m;
                     m_perIP := <[tip th := wrap32 (counter m (tip th) + 1)]> (m_perIP m);
                     m_lock := m_lock m; m_threads := set_pc m i th AddedIP |}
| s_add_global :
    tpc th = AddedIP ->
    step c m i th {| m_global := wrap32 (m_global m + 1); m_perIP := m_perIP m;
                     m_lock := m_lock m; m_threads := set_pc m i th AddedGlobal |}
| s_unlock_accept :
    tpc th = AddedGlobal ->
    step c m i th {| m_global := m_global m; m_perIP := m_perIP m; m_lock := None;
                     m_threads := set_pc m i th Opened |}
| s_unlock_refuse :
    tpc th = Refusing ->
    step c m i th {| m_global := m_global m; m_perIP := m_perIP m; m_lock := None;
                     m_threads := set_pc m i th Refused |}
| s_release_global :
    tpc th = Opened ->
    step c m i th {| m_global := wrap32 (m_global m - 1); m_perIP := m_perIP m;
                     m_lock := m_lock m; m_threads := set_pc m i th Releasing |}
| s_release_ip :
    tpc th = Releasing ->
    step c m i th {| m_global := m_global m;
                     m_perIP := match m_perIP m !! tip th with
                                | Some n => <[tip th := wrap32 (n - 1)]> (m_perIP m)
                                | None => m_perIP m
                                end;
                     m_lock := m_lock m; m_threads := set_pc m i th Closed |}.

(** The machine: any thread may take a step, and new connections arrive. *)
Inductive mstep (c : Config) : machine -> machine -> Prop :=
| ms_thread m i th m' :
    m_threads m !! i = Some th -> step c m i th m' -> mstep c m m'
| ms_arrive m ip :
    mstep c m {| m_global := m_global m; m_perIP := m_perIP m; m_lock := m_lock m;
                 m_threads := m_threads m ++ [{| tip := ip; tpc := Asking |}] |}.

Definition m_init : machine :=
  {| m_global := 0; m_perIP := ∅; m_lock := None; m_threads := [] |}.
Definition reachable (c : Config) : machine -> Prop := rtc (mstep c) m_init.

(** *** The invariant *)

Definition counted_global (p : pc) : bool :=
  match p with AddedGlobal | Opened => true | _ => false end.
Definition counted_ip (p : pc) : bool :=
  match p with AddedIP | AddedGlobal | Opened | Releasing => true | _ => false end.
Definition in_lock (p : pc) : bool :=
  match p with
  | Locked | GlobalOk | PerIPOk | AddedIP | AddedGlobal | Refusing => true
  | _ => false
  end.

Definition b2z (b : bool) : Z := if b then 1 else 0.
Fixpoint count (f : thread -> bool) (l : list thread) : Z :=
  match l with [] => 0 | th :: l => b2z (f th) + count f l end.

Definition g_counted (th : thread) : bool := counted_global (tpc th).
Definition ip_counted (ip : string) (th : thread) : bool :=
  bool_decide (tip th = ip) && counted_ip (tpc th).

(** What the lock's holder has already checked still holds: only it increments. *)
Definition checked (c : Config) (m : machine) (th : thread) : Prop :=
  match tpc th with
  | GlobalOk | AddedIP => m_global m < MaxGlobal c
  | PerIPOk => m_global m < MaxGlobal c /\ counter m (tip th) < MaxPerIP c
  | _ => True
  end.

Record inv (c : Config) (m : machine) : Prop := {
  inv_global : m_global m = count g_counted (m_threads m);
  inv_ip : forall ip, counter m ip = count (ip_counted ip) (m_threads m);
  inv_lock : forall i th, m_threads m !! i = Some th ->
               in_lock (tpc th) = true <-> m_lock m = Some i;
  inv_held : forall i, m_lock m = Some i -> is_Some (m_threads m !! i);
  inv_checked : forall i th, m_threads m !! i = Some th -> checked c m th;
  inv_gcap : m_global m <= MaxGlobal c;
  inv_icap : forall ip, counter m ip <= MaxPerIP c;
}.

Definition limits_ok (c : Config) : Prop :=
  0 < MaxGlobal c < 2 ^ 31 /\ 0 < MaxPerIP c < 2 ^ 31.

Lemma count_insert f l i th th' :
  l !! i = Some th -> count f (<[i := th']> l) = count f l - b2z (f th) + b2z (f th').
Proof.
  revert i. induction l as [|x l IH]; intros [|i] H; simplify_eq/=; [lia|].
  rewrite (IH i H). lia.
Qed.

Lemma count_nonneg f l : 0 <= count f l.
Proof. induction l; simpl; [lia|]. unfold b2z. case_match; lia. Qed.

Lemma count_snoc f l th : count f (l ++ [th]) = count f l + b2z (f th).
Proof. induction l as [|x l IH]; simpl; [lia|]. rewrite IH. lia. Qed.

Lemma count_pos f l i th : l !! i = Some th -> f th = true -> 1 <= count f l.
Proof.
  revert i. induction l as [|x l IH]; intros [|i] H Hf; simplify_eq/=.
  - rewrite Hf. pose proof (count_nonneg f l). unfold b2z. lia.
  - specialize (IH i H Hf). unfold b2z. case_match; lia.
Qed.

(** A thread that is past the mutex, or leaving it, is alone there. *)
Lemma inv_alone c m i j th th' :
  inv c m -> m_threads m !! i = Some th -> m_threads m !! j = Some th' -> i <> j ->
  in_lock (tpc th) = true \/ m_lock m = None -> in_lock (tpc th') = false.
Proof.
  intros I Hi Hj Hne Hl. apply Bool.not_true_iff_false. intros Hin.
  apply (inv_lock _ _ I _ _ Hj) in Hin.
  destruct Hl as [Hl|Hl]; [apply (inv_lock _ _ I _ _ Hi) in Hl|]; simplify_eq.
Qed.

(** What a step must do to keep the invariant: account for its own thread's change, not
    let go of what the mutex's holder has checked, and respect the caps. *)
Lemma inv_update c m i th p' g' ips' lock' :
  let m' := {| m_global := g'; m_perIP := ips'; m_lock := lock';
               m_threads := set_pc m i th p' |} in
  inv c m -> m_threads m !! i = Some th ->
  g' = m_global m - b2z (counted_global (tpc th)) + b2z (counted_global p') ->
  (forall ip, counter m' ip =
     counter m ip - b2z (ip_counted ip th) + b2z (ip_counted ip (at_pc th p'))) ->
  (in_lock p' = true <-> lock' = Some i) ->
  (forall j, j <> i -> lock' = Some j <-> m_lock m = Some j) ->
  checked c m' (at_pc th p') ->
  ((in_lock (tpc th) = true \/ m_lock m = None) \/
   (g' <= m_global m /\ forall ip, counter m' ip <= counter m ip)) ->
  g' <= MaxGlobal c ->
  (forall ip, counter m' ip <= MaxPerIP c) ->
  inv c m'.
Proof.
  intros m' I Hi Hg Hip Hl Hl' Hch Hoth Hgc Hic.
  assert (forall j th', m_threads m' !! j = Some th' ->
            (j = i /\ th' = at_pc th p') \/ (j <> i /\ m_threads m !! j = Some th')) as Hlook.
  { intros j th' H. unfold m', set_pc in H; simpl in H. destruct (decide (j = i)) as [->|Hne].
    - rewrite list_lookup_insert_eq in H; [left; naive_solver|by eapply lookup_lt_Some].
    - rewrite list_lookup_insert_ne in H by done. by right. }
  split; try done.
  - unfold m'; simpl. unfold set_pc. rewrite (count_insert _ _ _ th) by done.
    rewrite Hg, (inv_global _ _ I). done.
  - intros ip. rewrite Hip, (inv_ip _ _ I). unfold m'; simpl. unfold set_pc.
    by rewrite (count_insert _ _ _ th) by done.
  - intros j th' Hj. destruct (Hlook _ _ Hj) as [[-> ->]|[Hne Hj']]; [done|].
    simpl. rewrite Hl' by done. by apply (inv_lock _ _ I).
  - intros j Hj. unfold m', set_pc; simpl. destruct (decide (j = i)) as [->|Hne].
    + rewrite list_lookup_insert_eq; [done|by eapply lookup_lt_Some].
    + rewrite list_lookup_insert_ne by done. apply (inv_held _ _ I). by apply Hl'.
  - intros j th' Hj. destruct (Hlook _ _ Hj) as [[-> ->]|[Hne Hj']]; [done|].
    pose proof (inv_checked _ _ I _ _ Hj') as Hc. unfold checked in *.
    destruct Hoth as [Hal|[Hg' Hip']].
    + pose proof (inv_alone c m i j th th' I Hi Hj' (not_eq_sym Hne) Hal) as Hn.
      destruct (tpc th'); simpl in *; done.
    + specialize (Hip' (tip th')). simpl in *. destruct (tpc th'); try done; lia.
Qed.

Lemma counter_insert m m' k v ip :
  m_perIP m' = <[k := v]> (m_perIP m) ->
  counter m' ip = if decide (k = ip) then v else counter m ip.
Proof. intros H. unfold counter. rewrite H, lookup_insert. by case_decide. Qed.

Lemma counter_same m m' ip : m_perIP m' = m_perIP m -> counter m' ip = counter m ip.
Proof. intros H. unfold counter. by rewrite H. Qed.


Lemma in32_counted c z : limits_ok c -> 0 <= z <= MaxGlobal c \/ 0 <= z <= MaxPerIP c ->
  wrap32 z = z.
Proof. intros [Hg Hi] H. apply wrap32_id. unfold in32. lia. Qed.

(** Discharges [inv_update]'s conditions on counters and on the mutex. *)
Ltac step_ctr Hp :=
  try done; try (intros; intuition (congruence || lia)); try (left; left; done); try (left; right; done);
  try (right; split; [lia|]); intros; try unfold checked; simpl;
  unfold counter, ip_counted, bool_decide, b2z in *; simpl in *;
  rewrite ?lookup_insert, ?Hp in *; simpl in *;
  repeat case_match; simplify_eq/=; unfold default in *; simpl in *; try lia; try done.

(** Each atomic step keeps the invariant. *)
Lemma step_inv c m i th m' :
  limits_ok c -> inv c m -> m_threads m !! i = Some th -> step c m i th m' -> inv c m'.
Proof.
  intros Hlim I Hi Hs.
  pose proof (inv_checked _ _ I _ _ Hi) as Hck. unfold checked in Hck.
  pose proof (inv_lock _ _ I _ _ Hi) as Hlk.
  pose proof (inv_gcap _ _ I) as Hgc. pose proof (inv_icap _ _ I) as Hic.
  pose proof (inv_global _ _ I) as Hg. pose proof (inv_ip _ _ I) as Hip.
  pose proof (count_nonneg g_counted (m_threads m)) as Hg0.
  assert (forall ip, 0 <= counter m ip) as Hip0 by (intros ip; rewrite Hip; apply count_nonneg).
  assert (forall k, 0 <= k <= MaxGlobal c \/ 0 <= k <= MaxPerIP c -> wrap32 k = k) as Hw
    by (intros; by apply (in32_counted c)).
  inversion Hs as [Hp Hn|Hp Hn|Hp Hn|Hp Hn|Hp Hn|Hp|Hp|Hp|Hp|Hp|Hp]; subst m';
    rewrite Hp in *; simpl in Hlk, Hck;
    try (assert (m_lock m = Some i) as Hown by (by apply Hlk));
    try (assert (1 <= counter m (tip th)) as Hpos
           by (rewrite Hip; apply (count_pos _ _ i th Hi); unfold ip_counted; by rewrite Hp, bool_decide_true));
    try (assert (1 <= m_global m) as Hgpos
           by (rewrite Hg; apply (count_pos _ _ i th Hi); unfold g_counted; by rewrite Hp)).
  - apply (inv_update c m i th); simpl; rewrite ?Hp; step_ctr Hp.
  - apply (inv_update c m i th); simpl; rewrite ?Hp; step_ctr Hp.
  - apply (inv_update c m i th); simpl; rewrite ?Hp; step_ctr Hp.
  - apply (inv_update c m i th); simpl; rewrite ?Hp; step_ctr Hp.
  - apply (inv_update c m i th); simpl; rewrite ?Hp; step_ctr Hp.
  - pose proof (Hip0 (tip th)) as Hip1. rewrite Hw by lia.
    apply (inv_update c m i th); simpl; rewrite ?Hp; step_ctr Hp.
  - rewrite Hw by lia. apply (inv_update c m i th); simpl; rewrite ?Hp; step_ctr Hp.
  - apply (inv_update c m i th); simpl; rewrite ?Hp; step_ctr Hp.
  - apply (inv_update c m i th); simpl; rewrite ?Hp; step_ctr Hp.
  - rewrite Hw by lia. apply (inv_update c m i th); simpl; rewrite ?Hp; step_ctr Hp.
  - pose proof (Hic (tip th)) as Hic1.
    destruct (m_perIP m !! tip th) as [n|] eqn:En; [|unfold counter in Hpos; rewrite En in Hpos; simpl in Hpos; lia].
    assert (n = counter m (tip th)) as -> by (unfold counter; by rewrite En).
    rewrite Hw by lia. apply (inv_update c m i th); simpl; rewrite ?Hp; step_ctr Hp.
Qed.

Lemma arrive_inv c m ip :
  inv c m ->
  inv c {| m_global := m_global m; m_perIP := m_perIP m; m_lock := m_lock m;
           m_threads := m_threads m ++ [{| tip := ip; tpc := Asking |}] |}.
Proof.
  intros I. split; simpl; try apply I.
  - rewrite count_snoc, (inv_global _ _ I). unfold g_counted, b2z. simpl. lia.
  - intros ip'. rewrite count_snoc. unfold counter. simpl. fold (counter m ip').
    rewrite (inv_ip _ _ I). unfold ip_counted at 3, b2z. simpl. rewrite andb_false_r. lia.
  - intros i th Hl. apply lookup_app_Some in Hl as [Hl|[Hge Hl]]; [by apply (inv_lock _ _ I)|].
    apply list_lookup_singleton_Some in Hl as [Hi <-]. simpl. split; [done|].
    intros Hk. apply (inv_held _ _ I) in Hk as [th Hk]. apply lookup_lt_Some in Hk. lia.
  - intros i Hk. apply (inv_held _ _ I) in Hk as [th Hk]. exists th. by apply lookup_app_l_Some.
  - intros i th Hl. apply lookup_app_Some in Hl as [Hl|[Hge Hl]]; [by apply (inv_checked _ _ I i)|].
    by apply list_lookup_singleton_Some in Hl as [_ <-].
Qed.

Lemma init_inv c : limits_ok c -> inv c m_init.
Proof.
  intros [Hg Hi]. split; try done; simpl; unfold counter; simpl.
  - lia.
  - intros ip. rewrite lookup_empty. simpl. lia.
Qed.

Lemma reachable_inv c m : limits_ok c -> reachable c m -> inv c m.
Proof.
  intros Hlim. revert m. apply (rtc_ind_r (inv c) m_init); [by apply init_inv|].
  intros m m' _ Hs I. destruct Hs as [m i th m' Hi Hs|m ip]; [by eapply step_inv|by apply arrive_inv].
Qed.

Lemma count_le f g l : (forall th, f th = true -> g th = true) -> count f l <= count g l.
Proof.
  intros H. induction l as [|th l IH]; simpl; [lia|].
  specialize (H th). unfold b2z. destruct (f th), (g th); simpl; try lia; naive_solver.
Qed.

Definition is_open (th : thread) : bool := bool_decide (tpc th = Opened).
Definition is_open_from (ip : string) (th : thread) : bool := bool_decide (tip th = ip) && is_open th.

(** C40: however the goroutines of Accept and Release interleave, the connections that are
    open never outnumber MaxGlobal, nor those of one address MaxPerIP, and both counters
    stay within their limits. *)
Theorem accept_never_exceeds_caps c m :
  limits_ok c -> reachable c m ->
  count is_open (m_threads m) <= MaxGlobal c /\
  (forall ip, count (is_open_from ip) (m_threads m) <= MaxPerIP c) /\
  0 <= m_global m <= MaxGlobal c /\
  (forall ip, 0 <= counter m ip <= MaxPerIP c).
Proof.
  intros Hlim Hr. apply (reachable_inv c m Hlim) in Hr as I.
  assert (count is_open (m_threads m) <= count g_counted (m_threads m)) as Ho.
  { apply count_le. intros th. unfold is_open, g_counted. rewrite bool_decide_eq_true. by intros ->. }
  assert (forall ip, count (is_open_from ip) (m_threads m) <= count (ip_counted ip) (m_threads m)) as Hi.
  { intros ip. apply count_le. intros th. unfold is_open_from, ip_counted, is_open.
    rewrite !andb_true_iff, !bool_decide_eq_true. by intros [-> ->]. }
  rewrite <- (inv_global _ _ I) in Ho.
  pose proof (inv_gcap _ _ I). pose proof (inv_icap _ _ I) as Hic.
  pose proof (count_nonneg g_counted (m_threads m)) as Hg0. rewrite <- (inv_global _ _ I) in Hg0.
  split_and!; try lia.
  - intros ip. specialize (Hi ip). rewrite <- (inv_ip _ _ I) in Hi. specialize (Hic ip). lia.
  - intros ip. specialize (Hic ip). rewrite (inv_ip _ _ I ip) in *.
    pose proof (count_nonneg (ip_counted ip) (m_threads m)). lia.
Qed.

(** *** [Accept] and [Release] are the machine's runs *)

Definition agrees (l : Limiter) (m : machine) : Prop :=
  m_global m = global l /\ m_perIP m = perIP l.

Lemma run_step c g ips lk ts i th m' :
  ts !! i = Some th ->
  step c {| m_global := g; m_perIP := ips; m_lock := lk; m_threads := ts |} i th m' ->
  mstep c {| m_global := g; m_perIP := ips; m_lock := lk; m_threads := ts |} m'.
Proof. intros Hi Hs. by apply (ms_thread _ _ i th). Qed.

(** The thread a run just moved is where the run put it. *)
Ltac at_i :=
  unfold set_pc; simpl; rewrite list_lookup_insert_eq; [done|rewrite ?length_insert; done].

(** run alone, the goroutine of an Accept the ban checker lets through performs
    exactly [Accept]'s change of the counters and ends open or refused as [Accept] says. *)
Theorem accept_run l ip m i :
  checker_bans l ip = false ->
  agrees l m -> m_lock m = None -> m_threads m !! i = Some {| tip := ip; tpc := Asking |} ->
  exists m', rtc (mstep (cfg l)) m m' /\ agrees (Accept l ip).1 m' /\ m_lock m' = None /\
    m_threads m' !! i =
      Some {| tip := ip; tpc := if (Accept l ip).2 then Opened else Refused |}.
Proof.
  intros Hb [Hg Hp] Hl Hi. destruct m as [g ips lk ts]; simpl in *; subst.
  assert (i < length ts)%nat as Hlt by (by eapply lookup_lt_Some).
  set (m0 := {| m_global := global l; m_perIP := perIP l; m_lock := None; m_threads := ts |}).
  assert (forall p, <[i := {| tip := ip; tpc := p |}]> ts !! i = Some {| tip := ip; tpc := p |}) as Hat
    by (intros; by apply list_lookup_insert_eq).
  unfold Accept. rewrite Hb.
  assert (mstep (cfg l) m0 {| m_global := global l; m_perIP := perIP l; m_lock := Some i;
            m_threads := <[i := {| tip := ip; tpc := Locked |}]> ts |}) as S1
    by (eapply run_step; [done|by apply s_lock]).
  destruct (MaxGlobal (cfg l) <=? global l) eqn:Eg; bprop; simpl.
  - eexists. split.
    { eapply rtc_l; [exact S1|]. eapply rtc_l.
      - eapply run_step; [apply Hat|by apply s_global_full].
      - eapply rtc_once, run_step; [at_i|].
        by apply s_unlock_refuse. }
    simpl. split; [done|]. split; [done|]. at_i.
  - destruct (MaxPerIP (cfg l) <=? default 0 (perIP l !! ip)) eqn:Ei; bprop; simpl.
    + eexists. split.
      { eapply rtc_l; [exact S1|]. eapply rtc_l.
        - eapply run_step; [apply Hat|by apply s_global_ok].
        - eapply rtc_l; [eapply run_step; [at_i|]|].
          { by apply s_ip_full. }
          eapply rtc_once, run_step; [at_i|].
          by apply s_unlock_refuse. }
      simpl. split; [done|]. split; [done|]. at_i.
    + eexists. split.
      { eapply rtc_l; [exact S1|]. eapply rtc_l.
        - eapply run_step; [apply Hat|by apply s_global_ok].
        - eapply rtc_l; [eapply run_step; [at_i|]|].
          { by apply s_ip_ok. }
          eapply rtc_l; [eapply run_step; [at_i|]|].
          { by apply s_add_ip. }
          eapply rtc_l; [eapply run_step; [at_i|]|].
          { by apply s_add_global. }
          eapply rtc_once, run_step; [at_i|].
          by apply s_unlock_accept. }
      simpl. split.
      { split; [done|]. simpl. unfold counter; simpl. by rewrite lookup_insert_eq. }
      split; [done|].         at_i.
Qed.

(** ** Witnesses *)

Definition tight : Config := {| MaxPerIP := 1; MaxGlobal := 1; AuthMaxFails := 2;
  AuthBanWindow := 10; AuthBanDuration := 30 |}.

(** Two failures three units apart, a check 20 units later: banned. *)
Lemma ban_exact_witness :
  (banned tight (fail_run tight "a@b" [100; 103] ∅) "a@b" 123).2 = true.
Proof.
  apply (proj2 (ban_exact tight "a@b" [100; 103] 123
    ltac:(split; repeat constructor; lia) ltac:(repeat constructor; lia)
    ltac:(simpl; unfold max_int64; lia))).
  exists [100], 103, []. split; [done|]. split; [|simpl; lia]. vm_compute. done.
Defined.

(** One connection open from 10.0.0.1, reached in seven steps. *)
Definition full : machine := {| m_global := 1; m_perIP := <["10.0.0.1" := 1]> ∅; m_lock := None;
  m_threads := [{| tip := "10.0.0.1"; tpc := Opened |}] |}.

Ltac thread0 r := eapply rtc_l; [eapply (ms_thread _ _ 0%nat); [done|by apply r]|]; simpl.

Lemma full_reachable : reachable tight full.
Proof.
  unfold reachable, m_init. eapply rtc_l; [by apply (ms_arrive tight _ "10.0.0.1")|]. simpl.
  thread0 s_lock. thread0 s_global_ok. thread0 s_ip_ok. thread0 s_add_ip.
  thread0 s_add_global. thread0 s_unlock_accept.
  replace (wrap32 _) with 1 by reflexivity. unfold full, counter. simpl.
  rewrite lookup_insert_eq; simpl. rewrite !insert_insert_eq. apply rtc_refl.
Qed.

Lemma accept_never_exceeds_caps_witness :
  limits_ok tight /\ 1 <= MaxGlobal tight /\ counter full "10.0.0.1" <= MaxPerIP tight.
Proof.
  assert (limits_ok tight) as Hl by (unfold limits_ok; simpl; lia).
  destruct (accept_never_exceeds_caps tight full Hl full_reachable) as (H1 & _ & _ & H4).
  split; [done|]. split; [exact H1|]. apply H4.
Defined.

Definition no_metrics : Metrics :=
  {| ActiveConnections := ∅; ConnectionsAccepted := ∅; AuthFailures := ∅ |}.
Definition asking : machine := {| m_global := 0; m_perIP := ∅; m_lock := None;
  m_threads := [{| tip := "10.0.0.1"; tpc := Asking |}] |}.

Lemma accept_run_witness : exists m', rtc (mstep tight) asking m' /\ m_global m' = 1.
Proof.
  destruct (accept_run (New tight no_metrics) "10.0.0.1" asking 0 eq_refl
    (conj eq_refl eq_refl) eq_refl eq_refl) as (m' & Hr & [Hg _] & _).
  exists m'. split; [exact Hr|]. rewrite Hg. reflexivity.
Defined.

End ConnLimiter.
