(* ===== verification/MailStore.v ===== *)
(** * What the queue worker keeps in the database

    The tables the outbound worker reads and writes, as one record: the queue itself,
    hosted domains with their outbound stops, mailboxes, suppressions and stored messages.
    internal/db/repositories/mailbox.go and internal/mail/mailbox.go are here too, because
    they say which mailbox a sender's address is. Every SQL statement of an operation can
    fail: [broken] names those that do, and each operation does what the code does then. *)

From S2P Require Import Prelude GoTime GoStrings GoNet MailAddress Classify QueueModel.
From Stdlib Require Import Ascii.
Import GoTime GoStrings MailAddress Failure Row.
Local Open Scope Z_scope.

(** PostgreSQL's LOWER, its ILIKE of a text against an escaped needle with % on either side,
    and golang.org/x/text's NFC normalization. *)
Class TextLib := {
  sql_lower : string -> string;
  ilike_contains : string -> string -> bool;
  NFC_String : string -> string;
}.

Module Store.
Record HostedDomain := {
  DomID : Z;
  DomName : string;
  OutboundStoppedAt : option Time;
  OutboundStopReason : string;
  OutboundStoppedBy : string
}.

Record Mailbox := { MbID : Z; MbAddress : string; MbDomainID : Z; MbActive : bool }.

(** internal/db/models/suppression.go; the reason is always a hard bounce. *)
Record Suppression := {
  SFailureCategory : FailureCategory;
  SLastError : string;
  SMessageID : option Z;
  SExpiresAt : Time
}.

(** The columns of a stored message the worker writes. *)
Record StoredMessage := {
  MsgID : string;
  ThreadID : string;
  MailboxID : Z;
  Folder : string;
  MsgSender : string;
  SenderName : string;
  RecipientsTo : string;
  RecipientsCc : string;
  Subject : string;
  BodyText : string;
  MsgRaw : string;
  RawSize : Z;
  SizeBytes : Z;
  MsgIsDSN : bool;
  ReceivedAt : Time;
  MsgCreatedAt : Time
}.

Record DB := {
  queue : gmap Z OutboundQueue;
  next_queue : Z;
  messages : gmap Z StoredMessage;
  next_message : Z;
  (* keyed as the unique index is, by sending domain and lower-cased address *)
  suppressions : gmap (Z * string) Suppression;
  domains : list HostedDomain;
  mailboxes : list Mailbox
}.

Definition with_queue (db : DB) (q : gmap Z OutboundQueue) : DB := {|
  queue := q; next_queue := next_queue db; messages := messages db;
  next_message := next_message db; suppressions := suppressions db; domains := domains db;
  mailboxes := mailboxes db |}.
Definition with_suppressions (db : DB) (s : gmap (Z * string) Suppression) : DB := {|
  queue := queue db; next_queue := next_queue db; messages := messages db;
  next_message := next_message db; suppressions := s; domains := domains db;
  mailboxes := mailboxes db |}.
Definition with_domains (db : DB) (ds : list HostedDomain) : DB := {|
  queue := queue db; next_queue := next_queue db; messages := messages db;
  next_message := next_message db; suppressions := suppressions db; domains := ds;
  mailboxes := mailboxes db |}.
Definition insert_message (db : DB) (m : StoredMessage) : DB := {|
  queue := queue db; next_queue := next_queue db;
  messages := <[next_message db := m]> (messages db); next_message := next_message db + 1;
  suppressions := suppressions db; domains := domains db; mailboxes := mailboxes db |}.
(** [db.Create] of a queue row: [BeforeCreate] runs, the key is the next of the sequence. *)
Definition insert_row (db : DB) (item : OutboundQueue) (now : Time) : DB := {|
  queue := <[next_queue db := with_id (BeforeCreate item now) (next_queue db)]> (queue db);
  next_queue := next_queue db + 1; messages := messages db; next_message := next_message db;
  suppressions := suppressions db; domains := domains db; mailboxes := mailboxes db |}.

(** An UPDATE of one row by its primary key: no row, no change. *)
Definition update_row (db : DB) (id : Z) (f : OutboundQueue -> OutboundQueue) : DB :=
  with_queue db (alter f id (queue db)).

(** The statements an operation of the worker can see fail. *)
Inductive stmt :=
| QMailboxLegacy | QMailboxCanonical | QMailboxNFC   (* FindMailboxByAddress *)
| QSuppression | QSuppressDomain | QSuppressInsert
| QSetStatus | QMessageOwner | QCountDSN | QInsertDSN | QCountRemote | QInsertRemote.
#[export] Instance stmt_eq : EqDecision stmt.
Proof. solve_decision. Defined.
Definition sound : stmt -> bool := fun _ => false.
End Store.

Module Mailboxes.
Import Store.

Inductive find_error := ErrRecordNotFound | ErrMailboxUnavailable | ErrDatabase.

Section Find.
Context `{Unicode, MailLib, TextLib}.
Context (broken : stmt -> bool).

Definition mailbox_punctuation : list ascii :=
  [" "%char; byte 9; cr; lf; "<"%char; ">"%char; "("%char; ")"%char; "["%char; "]"%char;
   ","%char; ";"%char; ":"%char; byte 92; byte 34].

(** internal/mail/mailbox.go *)
Definition CanonicalMailboxAddress (address : string) : option string :=
  if negb (ValidString address) then None
  else
    let address := TrimSpace address in
    match cut_byte "@"%char address with
    | None => None
    | Some (local, domain) =>
        if bool_decide (local = "") || ContainsControlChar address
           || ContainsAny local mailbox_punctuation || HasSuffix domain "."
        then None
        else ascii ← DomainASCII domain;
             let canonical := NFC_String (ToLower local) +:+ "@" +:+ ascii in
             if ValidateAddress canonical then Some canonical else None
    end.

Definition before_at (s : string) : string :=
  match cut_byte "@"%char s with Some (l, _) => l | None => s end.
Definition after_at (s : string) : string :=
  match cut_byte "@"%char s with Some (_, d) => d | None => "" end.

(** [db.Where("address = ?", a).Take]: the column is unique. *)
Definition take_address (db : DB) (a : string) : option Mailbox :=
  head (filter (fun m => MbAddress m = a) (mailboxes db)).

(** The NFC-equivalent accounts of the hosted domain. *)
Definition nfc_matches (db : DB) (domain canonical : string) : list Mailbox :=
  filter (fun m =>
    existsb (fun d => bool_decide (DomID d = MbDomainID m /\ DomName d = domain)) (domains db) = true
    /\ NFC_String (MbAddress m) = canonical) (mailboxes db).

Definition find_nfc (db : DB) (domain canonical : string) : result find_error Mailbox :=
  if broken QMailboxNFC then Err ErrDatabase
  else match nfc_matches db domain canonical with
       | [] => Err ErrRecordNotFound
       | [m] => Ok m
       | _ => Err ErrMailboxUnavailable
       end.

Definition FindMailboxByAddress (db : DB) (address : string) : result find_error Mailbox :=
  match CanonicalMailboxAddress address with
  | None => Err ErrRecordNotFound
  | Some canonical =>
      let local := before_at canonical in
      let domain := after_at canonical in
      let legacy := before_at (ToLower (TrimSpace address)) +:+ "@" +:+ domain in
      if broken QMailboxLegacy then Err ErrDatabase
      else match take_address db legacy with
           | Some m => Ok m
           | None =>
               if bool_decide (canonical <> legacy) && broken QMailboxCanonical then Err ErrDatabase
               else match (if bool_decide (canonical <> legacy) then take_address db canonical else None) with
                    | Some m => Ok m
                    | None => if is_ascii local then Err ErrRecordNotFound
                              else find_nfc db domain canonical
                    end
           end
  end.

Definition FindActiveMailboxByAddress (db : DB) (address : string) : result find_error Mailbox :=
  if ContainsControlChar address then Err ErrRecordNotFound
  else m ← FindMailboxByAddress db address;
       if MbActive m then Ok m else Err ErrMailboxUnavailable.
End Find.
End Mailboxes.
