(* ===== verification/Queue.v ===== *)
(** * The queue row's life: worker.go, suppression.go, smtp_timeouts.go

    How the worker takes a row ([claim]), keeps it ([refreshClaim]) and records what became
    of it ([process], [recordFailure], [bounceSuppressed], [generateBounce]), over the
    database of [MailStore]. Each operation is a function of the database, the failing
    statements and the clock readings it makes. *)

From S2P Require Import Prelude GoTime GoStrings GoDate MailAddress Classify Retry QueueModel Dsn Smtp Send MailStore.
From Stdlib Require Import Ascii.
Import GoTime GoStrings GoDate MailAddress Errors Failure Classify Row Store Mailboxes.
Local Open Scope Z_scope.

Module Queue.

(** ** The worker's settings *)

Record Settings := {
  q_hostname : string;
  bounceMax : Z;
  bounceWindow : Duration;
  suppressionTTL : Duration;
  q_sendDeadline : Z -> Duration;
  reclaim : Duration
}.

Definition defaultBounceMaxPerRecipient : Z := 20.
Definition defaultBounceWindow : Duration := Hour.
Definition DefaultSuppressionTTL : Duration := 90 * 24 * Hour.
Definition staleDeliveringTimeout : Duration := Timeouts.Reclaim (fun _ => 0).
Definition defaultSendDeadline : Z -> Duration := fun _ => 30 * Second.
Definition defaultHeartbeat : Duration := Minute.
Definition heartbeatWriteTimeout : Duration := 30 * Second.

Definition NewWorker (hostname : string) : Settings := {|
  q_hostname := hostname; bounceMax := defaultBounceMaxPerRecipient;
  bounceWindow := defaultBounceWindow; suppressionTTL := DefaultSuppressionTTL;
  q_sendDeadline := defaultSendDeadline; reclaim := staleDeliveringTimeout |}.

Definition SetBounceRateLimit (w : Settings) (max : Z) (window : Duration) : Settings := {|
  q_hostname := q_hostname w; bounceMax := max;
  bounceWindow := if window <=? 0 then defaultBounceWindow else window;
  suppressionTTL := suppressionTTL w; q_sendDeadline := q_sendDeadline w; reclaim := reclaim w |}.
Definition SetSuppressionTTL (w : Settings) (ttl : Duration) : Settings := {|
  q_hostname := q_hostname w; bounceMax := bounceMax w; bounceWindow := bounceWindow w;
  suppressionTTL := if ttl <=? 0 then DefaultSuppressionTTL else ttl;
  q_sendDeadline := q_sendDeadline w; reclaim := reclaim w |}.
Definition SetDeliveryDeadline (w : Settings) (deadlineFn : option (Z -> Duration)) (interval : Duration)
  : Settings := {|
  q_hostname := q_hostname w; bounceMax := bounceMax w; bounceWindow := bounceWindow w;
  suppressionTTL := suppressionTTL w; q_sendDeadline := default (q_sendDeadline w) deadlineFn;
  reclaim := if 0 <? interval then interval else reclaim w |}.

(** ** Claiming a row *)

Section Claim.
Context `{TextLib}.

(** [OutboundQueueSendingDomainSQL]: a sender with no "@" has no domain here. *)
Definition OutboundQueueSendingDomainSQL (item : OutboundQueue) : string :=
  sql_lower (if bool_decide (SendingDomain item <> "") then SendingDomain item
             else match cut_last "@"%char (Sender item) with Some (_, d) => d | None => "" end).

Definition OutboundQueueHeldSQL (db : DB) (item : OutboundQueue) : bool :=
  existsb (fun d => bool_decide (OutboundStoppedAt d <> None)
                    && bool_decide (DomName d = OutboundQueueSendingDomainSQL item)) (domains db).

Definition waiting (item : OutboundQueue) : bool :=
  bool_decide (Status item = Pending) || bool_decide (Status item = Deferred).
Definition stale (item : OutboundQueue) (before : Time) : bool :=
  match LastAttempt item with Some t => t <? before | None => false end.

(** The WHERE of the claim. *)
Definition claimable (w : Settings) (db : DB) (now : Time) (item : OutboundQueue) : bool :=
  ((waiting item && (NextAttempt item <=? now))
   || (bool_decide (Status item = Delivering) && stale item (Add now (- reclaim w))))
  && (now <? ExpiresAt item)
  && negb (OutboundQueueHeldSQL db item).

(** ORDER BY next_attempt LIMIT 1. *)
Definition sooner (a b : OutboundQueue) : OutboundQueue :=
  if NextAttempt b <? NextAttempt a then b else a.
Definition pick (l : list OutboundQueue) : option OutboundQueue :=
  match l with [] => None | x :: l => Some (fold_left sooner l x) end.

Definition claimed (item : OutboundQueue) (now : Time) : OutboundQueue :=
  with_attempt item Delivering (Attempts item + 1) (Some now).

(** [locked]: the rows other transactions hold, which FOR UPDATE SKIP LOCKED passes over. *)
Definition claim (w : Settings) (locked : Z -> bool) (db : DB) (now : Time) : option (OutboundQueue * DB) :=
  let rows := filter (fun item => claimable w db now item && negb (locked (ID item)) = true)
                     (snd <$> map_to_list (queue db)) in
  item ← pick rows;
  Some (claimed item now, update_row db (ID item) (fun _ => claimed item now)).
End Claim.

(** [refreshClaim]: [None] for a database error, else the database and whether to go on. *)
Definition holds (item row : OutboundQueue) : bool :=
  bool_decide (Status row = Delivering) && (Attempts row =? Attempts item).
Definition set_last_attempt (now : Time) (row : OutboundQueue) : OutboundQueue :=
  with_attempt row (Status row) (Attempts row) (Some now).
Definition refreshClaim (broken : bool) (item : OutboundQueue) (now : Time) (db : DB) : DB * bool :=
  if broken then (db, true)
  else match queue db !! ID item with
       | Some row => if holds item row
                     then (update_row db (ID item) (set_last_attempt now), true)
                     else (db, false)
       | None => (db, false)
       end.

(** ** Recording what became of it *)

Definition bounceSenderAuthorized (hasMessage : bool) (messageMailboxID senderMailboxID : Z) : bool :=
  if negb hasMessage then true else messageMailboxID =? senderMailboxID.

Definition withinDSNRateLimit (recentCount maxPerWindow : Z) : bool :=
  if maxPerWindow <=? 0 then true else recentCount <? maxPerWindow.

(** The clock readings of one outcome, in the order the code makes them, and the draw of
    the retry jitter. *)
Record Clocks := { at_failure : Time; at_count : Time; at_notice : Time; at_create : Time; draw : Z }.

(** The Prometheus counters an outcome moves. *)
Record Counters := { QueueProcessed : Z; QueueErrors : Z; MessagesSent : Z; TerminalDelivered : Z }.
Definition count_processed (c : Counters) : Counters := {|
  QueueProcessed := QueueProcessed c + 1; QueueErrors := QueueErrors c;
  MessagesSent := MessagesSent c; TerminalDelivered := TerminalDelivered c |}.
Definition count_error (c : Counters) : Counters := {|
  QueueProcessed := QueueProcessed c; QueueErrors := QueueErrors c + 1;
  MessagesSent := MessagesSent c; TerminalDelivered := TerminalDelivered c |}.
Definition count_sent (c : Counters) : Counters := {|
  QueueProcessed := QueueProcessed c; QueueErrors := QueueErrors c;
  MessagesSent := MessagesSent c + 1; TerminalDelivered := TerminalDelivered c + 1 |}.

Section Outcome.
Context `{Unicode, MailLib, MtastsText, TextLib, WebLib}.
Context (zone : Time -> Z).
Context (w : Settings).
Context (broken : stmt -> bool).

(** *** Suppressions *)

Definition sending_key (item : OutboundQueue) : string := ToLower (sendsAs item).
Definition address_key (item : OutboundQueue) : string := ToLower (Recipient item).
Definition domain_named (domain : string) (d : HostedDomain) : bool :=
  bool_decide (sql_lower (DomName d) = domain).

Definition suppress (item : OutboundQueue) (category : FailureCategory) (lastError : string) (now : Time)
    (db : DB) : DB :=
  let domain := sending_key item in
  if bool_decide (domain = "") then db
  else if broken QSuppressDomain then db
  else match find (domain_named domain) (domains db) with
       | None => db
       | Some d =>
           let s := {| SFailureCategory := category; SLastError := lastError;
                       SMessageID := MessageID item; SExpiresAt := Add now (suppressionTTL w) |} in
           if broken QSuppressInsert then db
           else with_suppressions db (<[(DomID d, address_key item) := s]> (suppressions db))
       end.

(** The first unexpired suppression of the address by a domain of that name. *)
Fixpoint lookup_suppression (db : DB) (address : string) (now : Time) (ds : list HostedDomain) : option Suppression :=
  match ds with
  | [] => None
  | d :: ds => match suppressions db !! (DomID d, address) with
               | Some s => if now <? SExpiresAt s then Some s else lookup_suppression db address now ds
               | None => lookup_suppression db address now ds
               end
  end.
Definition suppression (item : OutboundQueue) (now : Time) (db : DB) : option Suppression :=
  let domain := sending_key item in
  if bool_decide (domain = "") then None
  else if broken QSuppression then None
  else lookup_suppression db (address_key item) now (List.filter (domain_named domain) (domains db)).

(** *** Notices *)

Definition last_attempt_or (item : OutboundQueue) (now : Time) : Time := default now (LastAttempt item).

Definition count_rows (p : OutboundQueue -> bool) (db : DB) : Z :=
  Z.of_nat (length (List.filter p (snd <$> map_to_list (queue db)))).
Definition count_messages (p : StoredMessage -> bool) (db : DB) : Z :=
  Z.of_nat (length (List.filter p (snd <$> map_to_list (messages db)))).

Definition notice_to (recipient : string) (since : Time) (row : OutboundQueue) : bool :=
  IsDSN row && bool_decide (Recipient row = recipient) && (since <? CreatedAt row).
Definition notice_in (mailbox : Z) (since : Time) (m : StoredMessage) : bool :=
  bool_decide (MailboxID m = mailbox) && MsgIsDSN m && (since <? MsgCreatedAt m).

Definition recentDSNCount (mailbox : Z) (now : Time) (db : DB) : Z :=
  if broken QCountDSN then 0 else count_messages (notice_in mailbox (Add now (- bounceWindow w))) db.

Definition remote_notice (item : OutboundQueue) (recipient domain raw : string) (t : Time) : OutboundQueue := {|
  ID := 0; MessageID := None; Sender := ""; Recipient := recipient; Domain := domain;
  SendingDomain := q_hostname w; RawMessage := raw; BodyType := ""; Status := Pending; Attempts := 0;
  LastAttempt := None; NextAttempt := t; LastError := ""; LastErrorCode := 0; Category := FailureNone;
  MaxRetries := 0; IsDSN := true; CreatedAt := t; ExpiresAt := zero; ARCResults := ""; ARCChain := "";
  TLSReport := false; RequireTLS := false; Transport := TransportNone |}.

Definition queueRemoteDSN (item : OutboundQueue) (smtpErr : option SMTPError) (c : Clocks) (db : DB) : DB :=
  let recipient := TrimSpace (Sender item) in
  let domain := DomainFromAddress recipient in
  if bool_decide (domain = "") || negb (ValidateAddress recipient) then db
  else
    let now := at_notice c in
    let recent := if broken QCountRemote then 0
                  else count_rows (notice_to recipient (Add now (- bounceWindow w))) db in
    if (0 <? bounceMax w) && negb (withinDSNRateLimit recent (bounceMax w)) then db
    else
      let dsn := Dsn.buildDSNMessage zone (q_hostname w) item smtpErr now (last_attempt_or item now) in
      if broken QInsertRemote then db
      else insert_row db (remote_notice item recipient domain (Dsn.raw dsn) (at_create c)) (at_create c).

(** internal/mail/messageid.go and thread.go: the thread a notice starts. *)
Definition angle (a : ascii) : bool := bool_decide (a = "<"%char) || bool_decide (a = ">"%char).
Definition CanonicalID (id : string) : string :=
  let id := TrimSpace (Trim angle (TrimSpace id)) in
  if bool_decide (id = "") then "" else "<" +:+ id +:+ ">".
Definition HeaderThreadID (messageID inReplyTo references : string) : string :=
  match Fields references with
  | r :: _ => CanonicalID r
  | [] => if bool_decide (inReplyTo <> "") then CanonicalID inReplyTo else CanonicalID messageID
  end.

Definition local_notice (item : OutboundQueue) (mailbox : Z) (dsn : Dsn.builtDSN) (now : Time) : StoredMessage := {|
  MsgID := Dsn.messageID dsn; ThreadID := HeaderThreadID (Dsn.messageID dsn) "" "";
  MailboxID := mailbox; Folder := "INBOX"; MsgSender := "mailer-daemon@" +:+ q_hostname w;
  SenderName := "Mail Delivery System";
  RecipientsTo := "[" +:+ strconv_Quote (SanitizeHeaderValue (Sender item)) +:+ "]";
  RecipientsCc := "[]"; Subject := Dsn.subject dsn; BodyText := Dsn.humanPart dsn;
  MsgRaw := Dsn.raw dsn; RawSize := len (Dsn.raw dsn); SizeBytes := len (Dsn.raw dsn);
  MsgIsDSN := true; ReceivedAt := now; MsgCreatedAt := now |}.

(** The owner of the message the row is linked to, if it is still there. *)
Definition message_owner (db : DB) (id : Z) : option Z :=
  if broken QMessageOwner then None else MailboxID <$> messages db !! id.

Definition generateBounce (item : OutboundQueue) (smtpErr : option SMTPError) (c : Clocks) (db : DB) : DB :=
  if bool_decide (Sender item = "") then db
  else match FindActiveMailboxByAddress broken db (Sender item) with
       | Err _ => queueRemoteDSN item smtpErr c db
       | Ok mailbox =>
           let authorized :=
             match MessageID item with
             | None => true
             | Some id => match message_owner db id with
                          | Some owner => bounceSenderAuthorized true owner (MbID mailbox)
                          | None => bounceSenderAuthorized false 0 (MbID mailbox)
                          end
             end in
           if negb authorized then db
           else if (0 <? bounceMax w)
                   && negb (withinDSNRateLimit (recentDSNCount (MbID mailbox) (at_count c) db) (bounceMax w))
           then db
           else
             let now := at_notice c in
             let dsn := Dsn.buildDSNMessage zone (q_hostname w) item smtpErr now (last_attempt_or item now) in
             if broken QInsertDSN then db
             else insert_message db (local_notice item (MbID mailbox) dsn now)
       end.

(** *** The outcome *)

(** [w.db.Model(&item).Updates(...)], whose error is not looked at. *)
Definition set_row (db : DB) (item : OutboundQueue) (f : OutboundQueue -> OutboundQueue) : DB :=
  if broken QSetStatus then db else update_row db (ID item) f.

Definition with_category (item : OutboundQueue) (c : FailureCategory) : OutboundQueue :=
  with_failure item (Status item) (NextAttempt item) (LastError item) (LastErrorCode item) c.

Definition recordFailure (item : OutboundQueue) (deliveryErr : error) (c : Clocks) (db : DB) : DB :=
  let now := at_failure c in
  let smtpErr := smtpErrorFrom deliveryErr in
  let errorCode := match smtpErr with Some e => Code e | None => 0 end in
  let category := ClassifyFailure deliveryErr in
  let item := with_category item category in
  let lastError := Error deliveryErr in
  let bounce :=
    let db := set_row db item (fun row =>
                with_failure row Bounced (NextAttempt row) lastError errorCode category) in
    let db := if Suppresses category then suppress item category lastError now db else db in
    let bounceErr := match smtpErr with
                     | Some e => e
                     | None => {| Code := 0; Enhanced := ""; Message := lastError; RemoteMTA := "" |}
                     end in
    generateBounce item (Some bounceErr) c db in
  if Permanent category then bounce
  else match Retry.retryAt (row_budget item) category now (draw c) with
       | Some next => set_row db item (fun row =>
                        with_failure row Deferred next lastError errorCode category)
       | None => bounce
       end.

Definition bounceSuppressed (item : OutboundQueue) (s : Suppression) (c : Clocks) (db : DB) : DB :=
  let item := with_category (with_attempt item (Status item) (Attempts item - 1) (LastAttempt item))
                            (SFailureCategory s) in
  let enhanced := if bool_decide (SFailureCategory s = FailureBadDomain) then "5.1.2" else "5.1.1" in
  let reason := "not sent: an earlier message to this address bounced as undeliverable, so mail from "
                +:+ sending_key item +:+ " to it is suppressed until " +:+ LongUTC (SExpiresAt s) in
  let db := set_row db item (fun row =>
              with_attempt (with_failure row Bounced (NextAttempt row) reason 0 (SFailureCategory s))
                           Bounced (Attempts item) (LastAttempt row)) in
  generateBounce item (Some {| Code := 0; Enhanced := enhanced; Message := reason; RemoteMTA := "" |}) c db.

(** What an attempt came to: a suppressed recipient, or what [deliver] answered. *)
Inductive verdict := Suppressed (s : Suppression) | Attempted (r : result error unit).

Definition settle (item : OutboundQueue) (v : verdict) (c : Clocks) (st : DB * Counters) : DB * Counters :=
  let (db, n) := st in
  match v with
  | Suppressed s => (bounceSuppressed item s c db, count_processed n)
  | Attempted (Ok _) =>
      (set_row db item (fun row => with_attempt row Delivered (Attempts row) (LastAttempt row)),
       count_processed (count_sent n))
  | Attempted (Err e) => (recordFailure item e c db, count_processed (count_error n))
  end.

(** [process]: [deliver] runs only for a recipient that is not suppressed. *)
Definition process (item : OutboundQueue) (now : Time) (deliver : OutboundQueue -> result error unit)
    (c : Clocks) (st : DB * Counters) : DB * Counters :=
  match suppression item now (fst st) with
  | Some s => settle item (Suppressed s) c st
  | None => settle item (Attempted (deliver item)) c st
  end.

Definition processNext (locked : Z -> bool) (now : Time) (deliver : OutboundQueue -> result error unit)
    (c : Clocks) (st : DB * Counters) : DB * Counters :=
  match claim w locked (fst st) now with
  | None => st
  | Some (item, db) => process item now deliver c (db, snd st)
  end.
End Outcome.

(** ** The queue's gauges *)

Definition queued (row : OutboundQueue) : bool := waiting row || bool_decide (Status row = Delivering).
Definition due_row (now : Time) (row : OutboundQueue) : bool :=
  bool_decide (Status row = Delivering) || (NextAttempt row <=? now).
Definition oldest (db : DB) : option Time :=
  foldr (fun row m => if waiting row
                      then Some (match m with Some t => Z.min t (CreatedAt row) | None => CreatedAt row end)
                      else m) None (snd <$> map_to_list (queue db)).
(** In nanoseconds: the gauge is this as seconds. *)
Definition oldestAge (oldest : option Time) (now : Time) : Duration :=
  match oldest with None => 0 | Some t => Z.max (Sub now t) 0 end.
Definition refreshQueueSize (db : DB) (now : Time) : Z * Z * Duration :=
  (count_rows queued db, count_rows (fun row => queued row && due_row now row) db, oldestAge (oldest db) now).
End Queue.
