(* ===== verification/AdminQueue.v ===== *)
(** * What an administrator does to the queue: internal/api/handlers

    queue.go (retry, bounce and delete of one row or of a selection, the statistics) and
    domain_outbound_stop.go (a domain's outbound stop and restart). Each is one transaction:
    [failed] says the database refused a statement of it, and then nothing changes. *)

From S2P Require Import Prelude GoTime GoStrings Classify QueueModel MailStore Queue.
Import GoTime GoStrings Failure Row Store Queue.
Local Open Scope Z_scope.

Module AdminQueue.
Inductive refusal :=
| NotFound                      (* 404 *)
| BadRequest (why : string)     (* 400 *)
| Unavailable.                  (* the database failed: 500 *)

Record queueRule := { from : list QueueStatus; rule_refusal : string }.
Definition queueRetry : queueRule := {|
  from := [Pending; Deferred];
  rule_refusal := "Only pending or deferred entries can be retried" |}.
Definition queueBounce : queueRule := {|
  from := [Pending; Deferred; Delivering];
  rule_refusal := "Only pending, deferred or delivering entries can be bounced" |}.
Definition applies (r : queueRule) (row : OutboundQueue) : bool := bool_decide (Status row ∈ from r).

Definition findQueue (failed : bool) (db : DB) (id : Z) : result refusal OutboundQueue :=
  if failed then Err Unavailable
  else match queue db !! id with Some row => Ok row | None => Err NotFound end.

Definition updateQueue (failed : bool) (db : DB) (id : Z) (rule : queueRule)
    (values : OutboundQueue -> OutboundQueue) : result refusal DB :=
  item ← findQueue failed db id;
  if applies rule item then Ok (update_row db id values) else Err (BadRequest (rule_refusal rule)).

Definition retried (now : Time) (row : OutboundQueue) : OutboundQueue :=
  with_failure row Pending now (LastError row) (LastErrorCode row) (Category row).
Definition bounced (why : string) (row : OutboundQueue) : OutboundQueue :=
  with_failure row Bounced (NextAttempt row) why (LastErrorCode row) (Category row).

Definition retryQueueEntry (failed : bool) (db : DB) (id : Z) (now : Time) : result refusal DB :=
  updateQueue failed db id queueRetry (retried now).
Definition bounceQueueEntry (failed : bool) (db : DB) (id : Z) : result refusal DB :=
  updateQueue failed db id queueBounce (bounced "manually bounced by admin").
Definition deleteQueueEntry (failed : bool) (db : DB) (id : Z) : result refusal DB :=
  if failed then Err Unavailable
  else match queue db !! id with
       | None => Err NotFound
       | Some _ => Ok (with_queue db (delete id (queue db)))
       end.

(** *** Bulk actions *)

Record bulkQueueRequest := {
  IDs : list Z;
  FStatus : string; FDomain : string; FSender : string; FRecipient : string
}.
Definition status_text (s : QueueStatus) : string :=
  match s with
  | Pending => "pending" | Delivering => "delivering" | Deferred => "deferred"
  | Delivered => "delivered" | Bounced => "bounced" | Expired => "expired"
  end.

Section Bulk.
Context `{TextLib}.
Definition unless_empty (filter : string) (test : bool) : bool := bool_decide (filter = "") || test.
Definition buildBulkQuery (req : bulkQueueRequest) (row : OutboundQueue) : bool :=
  if bool_decide (IDs req <> []) then bool_decide (ID row ∈ IDs req)
  else unless_empty (FStatus req) (bool_decide (status_text (Status row) = FStatus req))
       && unless_empty (FDomain req) (bool_decide (Domain row = FDomain req))
       && unless_empty (FSender req) (ilike_contains (Sender row) (FSender req))
       && unless_empty (FRecipient req) (ilike_contains (Recipient row) (FRecipient req)).

(** UPDATE ... WHERE, with the rows affected. *)
Definition update_where (p : OutboundQueue -> bool) (f : OutboundQueue -> OutboundQueue) (db : DB) : DB * Z :=
  (with_queue db ((fun row => if p row then f row else row) <$> queue db), count_rows p db).

Definition bulkRetry (failed : bool) (req : bulkQueueRequest) (now : Time) (db : DB) : result refusal (DB * Z) :=
  if failed then Err Unavailable
  else Ok (update_where (fun row => buildBulkQuery req row && applies queueRetry row) (retried now) db).
Definition bulkBounce (failed : bool) (req : bulkQueueRequest) (db : DB) : result refusal (DB * Z) :=
  if failed then Err Unavailable
  else Ok (update_where (fun row => buildBulkQuery req row && applies queueBounce row)
             (bounced "manually bounced by admin (bulk)") db).
Definition bulkDelete (failed : bool) (req : bulkQueueRequest) (db : DB) : result refusal (DB * Z) :=
  if failed then Err Unavailable
  else Ok (with_queue db (filter (fun kv => buildBulkQuery req (snd kv) = false) (queue db)),
           count_rows (buildBulkQuery req) db).
End Bulk.

(** *** Statistics *)

Record QueueStatistics := {
  SPending : Z; SDelivering : Z; SDeferred : Z; SDelivered : Z; SBounced : Z; SExpired : Z; STotal : Z
}.
Definition with_status (s : QueueStatus) (row : OutboundQueue) : bool := bool_decide (Status row = s).
Definition queueStats (db : DB) : QueueStatistics := {|
  SPending := count_rows (with_status Pending) db; SDelivering := count_rows (with_status Delivering) db;
  SDeferred := count_rows (with_status Deferred) db; SDelivered := count_rows (with_status Delivered) db;
  SBounced := count_rows (with_status Bounced) db; SExpired := count_rows (with_status Expired) db;
  STotal := count_rows (fun _ => true) db |}.

(** *** A domain's outbound stop *)

Definition find_domain (db : DB) (id : Z) : option HostedDomain :=
  find (fun d => DomID d =? id) (domains db).
Definition update_domain (db : DB) (id : Z) (f : HostedDomain -> HostedDomain) : DB :=
  with_domains db ((fun d => if DomID d =? id then f d else d) <$> domains db).

Definition stopped (now : Time) (reason by_ : string) (d : HostedDomain) : HostedDomain := {|
  DomID := DomID d; DomName := DomName d;
  OutboundStoppedAt := match OutboundStoppedAt d with Some t => Some t | None => Some now end;
  OutboundStopReason := reason; OutboundStoppedBy := by_ |}.
Definition stopOutbound (failed : bool) (db : DB) (id : Z) (reason by_ : string) (now : Time)
  : result refusal DB :=
  if failed then Err Unavailable
  else match find_domain db id with
       | None => Err NotFound
       | Some _ => Ok (update_domain db id (stopped now (TrimSpace reason) by_))
       end.

Definition restarted (d : HostedDomain) : HostedDomain := {|
  DomID := DomID d; DomName := DomName d; OutboundStoppedAt := None; OutboundStopReason := "";
  OutboundStoppedBy := "" |}.
(** [expires_at + LEAST(held, GREATEST(now() - created_at, 0))]. *)
Definition given_back (held : Duration) (db_now : Time) (row : OutboundQueue) : OutboundQueue :=
  with_limits row (MaxRetries row)
    (ExpiresAt row + Z.min held (Z.max (db_now - CreatedAt row) 0)).

Section Restart.
Context `{TextLib}.
(** [now] is the handler's clock, [db_now] the transaction's now(). *)
Definition restartOutbound (failed : bool) (db : DB) (id : Z) (now db_now : Time) : result refusal DB :=
  if failed then Err Unavailable
  else match find_domain db id with
       | None => Err NotFound
       | Some d =>
           match OutboundStoppedAt d with
           | None => Ok db
           | Some stoppedAt =>
               let held := Z.max (Sub now stoppedAt) 0 in
               let sent_as row := bool_decide (OutboundQueueSendingDomainSQL row = DomName d) in
               let db := fst (update_where (fun row => queued row && sent_as row)
                                           (given_back held db_now) db) in
               Ok (update_domain db id restarted)
           end
       end.
End Restart.
End AdminQueue.
