(* ===== verification/QueueBounds.v ===== *)
(** * Bounds on what the queue sends on its own

    The delivery notices a mailbox gets in any window, the notices a notice makes (none),
    the mail a suppressed recipient is spared, and the time an outbound stop holds. *)

From S2P Require Import Prelude GoTime GoStrings MailAddress Classify Retry QueueModel Smtp MailStore Queue AdminQueue QueueSafety.
Import GoTime GoStrings Errors Failure Classify Row Store Mailboxes Queue AdminQueue QueueSafety.
Local Open Scope Z_scope.

Module QueueBounds.

(** ** Counting rows *)

Lemma filter_perm_length {A} (p : A -> bool) l l' :
  l ≡ₚ l' -> length (List.filter p l) = length (List.filter p l').
Proof. induction 1; simpl; repeat case_match; simpl; congruence. Qed.

Lemma filter_le_length {A} (p q : A -> bool) l :
  (forall x, In x l -> p x = true -> q x = true) ->
  (length (List.filter p l) <= length (List.filter q l))%nat.
Proof.
  induction l as [|x l IH]; simpl; [done|]. intros I.
  assert (length (List.filter p l) <= length (List.filter q l))%nat by (apply IH; auto).
  destruct (p x) eqn:P; [rewrite (I x) by auto; simpl; lia|]. case_match; simpl; lia.
Qed.

Lemma count_messages_le p q db :
  (forall i m, messages db !! i = Some m -> p m = true -> q m = true) ->
  count_messages p db <= count_messages q db.
Proof.
  intros I. unfold count_messages. apply inj_le, filter_le_length. intros m M.
  rewrite <- list_elem_of_In, list_elem_of_fmap in M. destruct M as ([i m'] & -> & M).
  apply elem_of_map_to_list in M. by apply (I i).
Qed.

Lemma count_messages_insert p db m :
  messages db !! next_message db = None ->
  count_messages p (insert_message db m) = count_messages p db + (if p m then 1 else 0).
Proof.
  intros F. unfold count_messages. simpl.
  rewrite (filter_perm_length p _ (snd <$> (next_message db, m) :: map_to_list (messages db))).
  - rewrite fmap_cons. cbn [List.filter snd]. destruct (p m); cbn [List.length]; lia.
  - apply fmap_Permutation. by apply map_to_list_insert.
Qed.

(** ** The notices of any window *)

Section Window.
Context `{Unicode, MailLib, MtastsText, TextLib, WebLib}.
Context (zone : Time -> Z) (w : Settings).

(** The notices in [mailbox] of the window that ends at [t]. *)
Definition in_window (mailbox : Z) (t : Time) (m : StoredMessage) : bool :=
  notice_in mailbox (t - bounceWindow w) m && (MsgCreatedAt m <=? t).

(** At [t]: no stored notice is from the future, keys are fresh, and no mailbox has had
    more than the limit in any window. *)
Record bounded (t : Time) (db : DB) : Prop := {
  bounded_past : forall i m, messages db !! i = Some m -> MsgIsDSN m = true -> MsgCreatedAt m <= t;
  bounded_fresh : forall i m, messages db !! i = Some m -> i < next_message db;
  bounded_window : forall mailbox t', count_messages (in_window mailbox t') db <= bounceMax w
}.

Lemma bounded_same t t' db db' :
  t <= t' -> messages db' = messages db -> next_message db' = next_message db ->
  bounded t db -> bounded t' db'.
Proof.
  intros T M N [P F W]. split.
  - intros i m. rewrite M. intros L D. specialize (P i m L D). lia.
  - rewrite M, N. exact F.
  - intros mb t0. specialize (W mb t0). unfold count_messages in *. by rewrite M.
Qed.

Lemma bounded_insert t t0 db m :
  bounded t db -> t <= t0 -> 0 < bounceMax w -> t0 <= MsgCreatedAt m -> MsgIsDSN m = true ->
  count_messages (notice_in (MailboxID m) (t0 - bounceWindow w)) db < bounceMax w ->
  bounded (MsgCreatedAt m) (insert_message db m).
Proof.
  intros [P F W] T B T0 D C.
  assert (N : messages db !! next_message db = None).
  { destruct (messages db !! next_message db) eqn:E; [|done]. specialize (F _ _ E). lia. }
  split; simpl.
  - intros i x. destruct (decide (i = next_message db)) as [->|Ne].
    + rewrite lookup_insert_eq. intros [= <-]. lia.
    + rewrite lookup_insert_ne by done. intros L X. specialize (P _ _ L X). lia.
  - intros i x. destruct (decide (i = next_message db)) as [->|Ne]; [lia|].
    rewrite lookup_insert_ne by done. intros L. specialize (F _ _ L). lia.
  - intros mb t'. rewrite count_messages_insert by done. specialize (W mb t').
    destruct (in_window mb t' m) eqn:I; [|lia].
    enough (count_messages (in_window mb t') db
            <= count_messages (notice_in (MailboxID m) (t0 - bounceWindow w)) db) by lia.
    apply count_messages_le. intros i x L X. unfold in_window, notice_in in *. bprop.
    intuition (congruence || lia).
Qed.

(** Anything but a notice of its own leaves the messages alone. *)
Lemma set_row_messages broken db item f :
  messages (set_row broken db item f) = messages db
  /\ next_message (set_row broken db item f) = next_message db.
Proof. unfold set_row. by case_match. Qed.
Lemma suppress_messages broken item c e t db :
  messages (suppress w broken item c e t db) = messages db
  /\ next_message (suppress w broken item c e t db) = next_message db.
Proof. unfold suppress. by repeat case_match. Qed.
Lemma remote_messages broken item e c db :
  messages (queueRemoteDSN zone w broken item e c db) = messages db
  /\ next_message (queueRemoteDSN zone w broken item e c db) = next_message db.
Proof. unfold queueRemoteDSN. cbv zeta. by repeat case_match. Qed.

(** The clock only goes forward within one outcome. *)
Definition orderly (t : Time) (c : Clocks) : Prop := t <= at_count c <= at_notice c.

Lemma bounded_bounce broken item e c t db :
  0 < bounceMax w -> broken QCountDSN = false -> orderly t c -> bounded t db ->
  bounded (at_notice c) (generateBounce zone w broken item e c db).
Proof.
  intros B S [O1 O2] Bd. unfold generateBounce. cbv zeta.
  assert (K : bounded (at_notice c) db) by (eapply bounded_same, Bd; [lia|done|done]).
  case_bool_decide; [done|]. destruct (FindActiveMailboxByAddress _ _ _) as [mb|er].
  2:{ destruct (remote_messages broken item e c db) as [M N].
      by apply (bounded_same (at_notice c) _ db). }
  match goal with |- context [if negb ?a then _ else _] => destruct a end; [|done]. simpl.
  destruct (_ && _) eqn:L; [done|]. destruct (broken QInsertDSN); [done|].
  match goal with |- context [insert_message db ?m] => change (at_notice c) with (MsgCreatedAt m) at 1 end.
  apply (bounded_insert t (at_count c)); simpl; auto.
  unfold recentDSNCount in L. rewrite S in L. unfold withinDSNRateLimit in L.
  rewrite (proj2 (Z.ltb_lt 0 _) B) in L. simpl in L. bprop.
  change (Add (at_count c) (- bounceWindow w)) with (at_count c - bounceWindow w) in L.
  destruct (bounceMax w <=? 0) eqn:Z0; bool_lia.
Qed.

Lemma bounded_settle broken item v c t st :
  0 < bounceMax w -> broken QCountDSN = false -> orderly t c -> bounded t (fst st) ->
  bounded (at_notice c) (fst (settle zone w broken item v c st)).
Proof.
  intros B S O Bd. pose proof O as [O1 O2]. destruct st as [db n]. simpl in Bd.
  assert (R : forall i f, bounded t (set_row broken db i f)).
  { intros i f. destruct (set_row_messages broken db i f). by apply (bounded_same t t db). }
  destruct v as [s|[[]|e]]; simpl.
  - by apply (bounded_bounce broken _ _ c t).
  - eapply bounded_same, R; [lia|done|done].
  - unfold recordFailure. cbv zeta.
    assert (X : forall i i' f b c' l t', bounded t (if b : bool then suppress w broken i' c' l t' (set_row broken db i f)
                                                 else set_row broken db i f)).
    { intros. destruct b; [|done].
      destruct (suppress_messages broken i' c' l t' (set_row broken db i f)).
      by apply (bounded_same t t (set_row broken db i f)). }
    destruct (Permanent _); [by apply (bounded_bounce broken _ _ c t)|].
    destruct (Retry.retryAt _ _ _ _); [|by apply (bounded_bounce broken _ _ c t)].
    eapply bounded_same, R; [lia|done|done].
Qed.

(** Outcomes recorded one after the other, each with its failing statements. *)
Record outcome_of := {
  o_item : OutboundQueue; o_verdict : verdict; o_clocks : Clocks; o_broken : stmt -> bool
}.
Definition record_all (os : list outcome_of) (st : DB * Counters) : DB * Counters :=
  fold_left (fun st o => settle zone w (o_broken o) (o_item o) (o_verdict o) (o_clocks o) st) os st.
Fixpoint in_order (t : Time) (os : list outcome_of) : Prop :=
  match os with
  | [] => True
  | o :: os => orderly t (o_clocks o) /\ o_broken o QCountDSN = false /\ in_order (at_notice (o_clocks o)) os
  end.

Lemma bounded_run os t st :
  0 < bounceMax w -> in_order t os -> bounded t (fst st) ->
  exists t', bounded t' (fst (record_all os st)).
Proof.
  intros B. revert t st. induction os as [|o os IH]; intros t st O Bd; [by exists t|].
  destruct O as (O & S & R). apply (IH _ _ R). by apply (bounded_settle _ _ _ _ t).
Qed.

Lemma bounded_empty t db : messages db = ∅ -> 0 < bounceMax w -> bounded t db.
Proof.
  intros E B. split; rewrite ?E; [done|done|].
  intros mb t'. unfold count_messages. rewrite E, map_to_list_empty. simpl. lia.
Qed.
End Window.

Section Notices.
Context `{Unicode, MailLib, MtastsText, TextLib, WebLib}.

(** whatever fails and whoever a message claims to be from, no mailbox is sent more
    delivery notices than the limit in any window of time: not only in the window that
    ends when a notice is written, but in every one, over any run of outcomes. *)
Theorem notices_bounded zone w os t st :
  0 < bounceMax w -> bounded w t (fst st) -> in_order t os ->
  forall mailbox t',
    count_messages (in_window w mailbox t') (fst (record_all zone w os st)) <= bounceMax w.
Proof. intros B Bd O. by destruct (bounded_run zone w os t st B O Bd) as [? [_ _ W]]. Qed.
End Notices.

(** ** Notices make no notices *)

Section Loops.
Context `{Unicode, MailLib, MtastsText, TextLib, WebLib}.
Context (zone : Time -> Z) (w : Settings).

Definition notices_null (db : DB) : Prop :=
  map_Forall (fun _ row => IsDSN row = true -> Sender row = "") (queue db).

Lemma null_update db id f :
  (forall row, IsDSN (f row) = IsDSN row /\ Sender (f row) = Sender row) ->
  notices_null db -> notices_null (update_row db id f).
Proof.
  intros F N j row. rewrite update_row_lookup. case_bool_decide; [|apply N].
  subst. destruct (queue db !! id) as [r|] eqn:L; [|done]. intros [= <-] D.
  destruct (F r) as [E1 E2]. rewrite E2. apply (N _ _ L). by rewrite <- E1.
Qed.
Lemma null_set_row broken db item f :
  (forall row, IsDSN (f row) = IsDSN row /\ Sender (f row) = Sender row) ->
  notices_null db -> notices_null (set_row broken db item f).
Proof. intros F N. unfold set_row. case_match; [done|by apply null_update]. Qed.
Lemma null_suppress broken item c e t db :
  notices_null db -> notices_null (suppress w broken item c e t db).
Proof. intros N. unfold suppress. by repeat case_match. Qed.
Lemma null_bounce broken item e c db :
  notices_null db -> notices_null (generateBounce zone w broken item e c db).
Proof.
  intros N. unfold generateBounce, queueRemoteDSN. cbv zeta.
  case_bool_decide; [done|]. destruct (FindActiveMailboxByAddress _ _ _) as [mb|er].
  - repeat match goal with |- notices_null (if ?b then _ else _) => destruct b end; done.
  - repeat match goal with |- notices_null (if ?b then _ else _) => destruct b end; try done.
    intros j row. simpl. destruct (decide (j = next_queue db)) as [->|Ne].
    + rewrite lookup_insert_eq. by intros [= <-].
    + rewrite lookup_insert_ne by done. apply N.
Qed.

Lemma null_settle broken item v c st :
  notices_null (fst st) -> notices_null (fst (settle zone w broken item v c st)).
Proof.
  intros N. destruct st as [db n]. simpl in N. destruct v as [s|[[]|e]]; simpl.
  - by apply null_bounce, null_set_row.
  - by apply null_set_row.
  - unfold recordFailure. cbv zeta.
    destruct (Permanent _); [|destruct (Retry.retryAt _ _ _ _)].
    + apply null_bounce. destruct (Suppresses _); [apply null_suppress|]; by apply null_set_row.
    + by apply null_set_row.
    + apply null_bounce. destruct (Suppresses _); [apply null_suppress|]; by apply null_set_row.
Qed.

(** A message without a sender makes no notice. *)
Lemma silent_settle broken item v c st :
  Sender item = "" ->
  let db' := fst (settle zone w broken item v c st) in
  messages db' = messages (fst st) /\ next_queue db' = next_queue (fst st).
Proof.
  intros S. cbv zeta. destruct st as [db n]. simpl.
  assert (G : forall item' e c db, Sender item' = "" -> generateBounce zone w broken item' e c db = db).
  { intros item' e' c' db' E. unfold generateBounce. by rewrite bool_decide_true. }
  assert (R : forall i f, messages (set_row broken db i f) = messages db
                          /\ next_queue (set_row broken db i f) = next_queue db).
  { intros i f. unfold set_row. by case_match. }
  assert (X : forall (b : bool) i i' f c' l t',
    let db1 := if b then suppress w broken i' c' l t' (set_row broken db i f) else set_row broken db i f in
    messages db1 = messages db /\ next_queue db1 = next_queue db).
  { intros. subst db1. destruct b; [|apply R]. unfold suppress. repeat case_match; apply R. }
  destruct v as [s|[[]|e]]; simpl.
  - unfold bounceSuppressed. cbv zeta. rewrite G by done. apply R.
  - apply R.
  - unfold recordFailure. cbv zeta.
    destruct (Permanent _); [|destruct (Retry.retryAt _ _ _ _)]; rewrite ?G by done; apply X || apply R.
Qed.
End Loops.

Section NoLoops.
Context `{Unicode, MailLib, MtastsText, TextLib, WebLib}.

(** bounces cannot loop: whatever outcomes are recorded, every notice in the queue
    goes with the null sender, and the outcome of such a row, a notice or any other mail
    without a sender, sends nobody anything and queues nothing. *)
Theorem bounces_never_loop zone w os st i row v c broken :
  notices_null (fst st) ->
  let st1 := record_all zone w os st in
  queue (fst st1) !! i = Some row -> IsDSN row = true ->
  let db2 := fst (settle zone w broken row v c st1) in
  Sender row = "" /\ messages db2 = messages (fst st1) /\ next_queue db2 = next_queue (fst st1).
Proof.
  intros N st1 L D db2.
  assert (N1 : notices_null (fst st1)).
  { unfold st1. clear L D db2 st1. revert st N. induction os as [|o os IH]; intros st N; [done|].
    apply IH. by apply null_settle. }
  assert (S : Sender row = "") by by apply (N1 _ _ L). split; [done|].
  exact (silent_settle zone w broken row v c st1 S).
Qed.
End NoLoops.

(** ** Suppressed recipients *)

Section Suppressed.
Context `{Unicode, MailLib, MtastsText, TextLib, WebLib}.
Context (w : Settings) (broken : stmt -> bool).

(** Hosted domain names are unique, whatever their case. *)
Definition one_domain (name : string) (d : HostedDomain) (db : DB) : Prop :=
  find (domain_named name) (domains db) = Some d /\
  forall d', In d' (domains db) -> domain_named name d' = true -> DomID d' = DomID d.

Lemma lookup_one db key now ds d :
  (forall d', In d' ds -> DomID d' = DomID d) -> ds <> [] ->
  lookup_suppression db key now ds =
  match suppressions db !! (DomID d, key) with
  | Some s => if now <? SExpiresAt s then Some s else None
  | None => None
  end.
Proof.
  induction ds as [|d0 ds IH]; [done|]. intros A _. simpl. rewrite (A d0) by (by left).
  destruct ds as [|d1 ds].
  - simpl. by repeat case_match.
  - rewrite IH by (done || intros; apply A; by right).
    destruct (suppressions db !! _) as [s|]; [|done]. by destruct (now <? SExpiresAt s).
Qed.

Lemma find_filter {A} (p : A -> bool) l x : find p l = Some x -> In x (List.filter p l).
Proof. intros F. apply find_some in F. by apply filter_In. Qed.

Lemma suppression_after item item' d cat err t now db :
  (forall s, broken s = false) ->
  sending_key item <> "" -> one_domain (sending_key item) d db ->
  sending_key item' = sending_key item -> address_key item' = address_key item ->
  suppression broken item' now (suppress w broken item cat err t db) =
  if now <? t + suppressionTTL w
  then Some {| SFailureCategory := cat; SLastError := err; SMessageID := MessageID item;
               SExpiresAt := t + suppressionTTL w |}
  else None.
Proof.
  intros S K [F U] E1 E2. unfold suppression, suppress. rewrite E1, E2, !S, F.
  rewrite !bool_decide_false by done. simpl.
  rewrite (lookup_one _ _ _ _ d).
  - simpl. rewrite lookup_insert_eq. simpl. done.
  - intros d' I. apply filter_In in I as [I D]. by apply U.
  - intros N. apply find_filter in F. by rewrite N in F.
Qed.
End Suppressed.

Section Spared.
Context `{Unicode, MailLib, MtastsText, TextLib, WebLib}.

(** once a failure says a recipient does not exist, mail to that address from the
    same sending domain, however either is capitalized, is bounced without an attempt
    and with the reason, whatever delivering it would have answered, until exactly the
    suppression's end; from then on it is tried again. *)
Theorem suppressed_until_expiry zone w item item' d cat err t now deliver c n db :
  sending_key item <> "" -> one_domain (sending_key item) d db ->
  sending_key item' = sending_key item -> address_key item' = address_key item ->
  let db1 := suppress w sound item cat err t db in
  fst (process zone w sound item' now deliver c (db1, n)) =
  if now <? t + suppressionTTL w
  then bounceSuppressed zone w sound item'
         {| SFailureCategory := cat; SLastError := err; SMessageID := MessageID item;
            SExpiresAt := t + suppressionTTL w |} c db1
  else fst (settle zone w sound item' (Attempted (deliver item')) c (db1, n)).
Proof.
  intros K U E1 E2 db1. unfold process. simpl fst at 2.
  unfold db1. rewrite (suppression_after w sound item item' d) by done.
  by destruct (now <? t + suppressionTTL w).
Qed.
End Spared.

(** ** The outbound stop *)

Section Stop.
Context `{TextLib}.

(** The domain of the row and no other has its name. *)
Definition sole_domain (id : Z) (d : HostedDomain) (db : DB) : Prop :=
  find_domain db id = Some d /\
  forall d', In d' (domains db) -> DomName d' = DomName d -> DomID d' = id.

Definition sent_as (item : OutboundQueue) (d : HostedDomain) : Prop :=
  OutboundQueueSendingDomainSQL item = DomName d.

Lemma find_domain_in db id d : find_domain db id = Some d -> In d (domains db) /\ DomID d = id.
Proof. intros F. apply find_some in F as [I E]. by apply Z.eqb_eq in E. Qed.

Lemma held_update db id f item :
  (forall d, DomName (f d) = DomName d) ->
  OutboundQueueHeldSQL (update_domain db id f) item =
  existsb (fun d => bool_decide (OutboundStoppedAt (if DomID d =? id then f d else d) <> None)
                    && bool_decide (DomName d = OutboundQueueSendingDomainSQL item)) (domains db).
Proof.
  intros F. unfold OutboundQueueHeldSQL, update_domain. simpl.
  induction (domains db) as [|d ds IH]; [done|]. rewrite fmap_cons. cbn [existsb]. rewrite IH. f_equal.
  destruct (DomID d =? id); [by rewrite F|done].
Qed.

(** a stopped domain's mail is not claimed by any worker however long the stop; when
    the stop is lifted each waiting message expires as much later as it was held, so the
    time it has left is what it had when the stop began, and it is held no more. *)
Theorem stop_costs_no_lifetime w db id d reason by_ t0 t1 db1 db2 i row row2 now :
  sole_domain id d db -> OutboundStoppedAt d = None ->
  stopOutbound false db id reason by_ t0 = Ok db1 ->
  restartOutbound false db1 id t1 t1 = Ok db2 ->
  queue db !! i = Some row -> sent_as row d -> queued row = true ->
  CreatedAt row <= t0 <= t1 -> t1 - t0 <= GoInt.max_int64 ->
  queue db2 !! i = Some row2 ->
  claimable w db1 now row = false /\
  ExpiresAt row2 - t1 = ExpiresAt row - t0 /\
  OutboundQueueHeldSQL db2 row2 = false.
Proof.
  intros [F U] N S R L A Q C T L2. destruct (find_domain_in _ _ _ F) as [I E].
  unfold stopOutbound in S. rewrite F in S. injection S as <-.
  set (f := stopped t0 (TrimSpace reason) by_) in *.
  assert (F1 : find_domain (update_domain db id f) id = Some (f d)).
  { unfold find_domain, update_domain in *. simpl. clear -F.
    induction (domains db) as [|x l IH]; [done|]. simpl in *.
    destruct (DomID x =? id) eqn:D; simpl; rewrite D; [|by apply IH]. by injection F as ->. }
  unfold restartOutbound in R. rewrite F1 in R. simpl in R. rewrite N in R. injection R as <-.
  simpl in L2. rewrite lookup_fmap, L in L2. simpl in L2. injection L2 as <-.
  unfold sent_as in A. rewrite Q, A, bool_decide_true by done. simpl andb. cbv iota.
  split; [|split].
  - unfold claimable. rewrite held_update, A by done.
    replace (existsb _ _) with true; [by rewrite andb_false_r|]. symmetry.
    apply existsb_exists. exists d. split; [done|]. rewrite E, Z.eqb_refl. bprop. split; [|done].
    simpl. by case_match.
  - simpl. unfold Sub, GoInt.clamp64, GoInt.max_int64, GoInt.min_int64 in *. lia.
  - rewrite held_update by done. apply not_true_is_false. intros X. apply existsb_exists in X.
    change (OutboundQueueSendingDomainSQL (given_back _ _ row)) with (OutboundQueueSendingDomainSQL row) in X.
    rewrite A in X. destruct X as (x & I' & X). bprop. destruct X as [X Nx].
    simpl in I'. rewrite <- list_elem_of_In, list_elem_of_fmap in I'. destruct I' as (d0 & -> & I0).
    rewrite list_elem_of_In in I0.
    assert (D0 : DomID d0 = id).
    { apply (U d0 I0). rewrite <- Nx. by destruct (DomID d0 =? id). }
    rewrite D0, Z.eqb_refl in X. simpl in X. rewrite D0, Z.eqb_refl in X. done.
Qed.
End Stop.
End QueueBounds.
