(* ===== verification/Samples.v ===== *)
(** * Concrete outsides for the evaluated examples

    One instance of every class that stands for code outside the repository, a worker, a
    few rows, a database and a remote mail server that takes a message over verified TLS. *)

From S2P Require Import Prelude GoTime GoStrings GoDate MailAddress Classify Retry QueueModel SRS Prog Outbound Dsn Smtp Send.
From S2P Require Import MailStore Queue.
From Stdlib Require Import Ascii.
Import GoTime GoStrings GoDate MailAddress Errors Failure Row Prog Outbound Wire Outside Send Store Queue.
Local Open Scope Z_scope.

Module Samples.
(** ** The libraries *)

Definition sample_unicode : Unicode := unicode_caseless.

(** A lookup profile that knows only ASCII names, and an address parser that takes the
    text as it is. *)
Definition sample_mail : MailLib := {|
  idna_ToASCII s := if is_ascii s then Some (smap lower_byte s) else None;
  idna_ToUnicode s := Some s;
  mail_ParseAddress s := Some s |}.

Definition sample_text : TextLib := {|
  sql_lower := smap lower_byte;
  ilike_contains s sub := Contains (smap lower_byte s) (smap lower_byte sub);
  NFC_String s := s |}.

Definition sample_sts_text : MtastsText := {|
  enforce_error_text domain mx reason := "mta-sts: " +:+ reason +:+ " for " +:+ mx;
  no_policy_text := "mta-sts: no policy" |}.

(** RFC 8461 section 5 for policies that name hosts in full. *)
Definition sample_sts : Mtasts := {|
  MatchesMX p host := bool_decide (host ∈ Sts.MX p);
  Evaluate i :=
    match Sts.EPolicy i with
    | Some p => if bool_decide (Sts.Mode p = Sts.ModeEnforce) && negb (Sts.AllowInsecureDowngrade i)
                   && negb (Sts.STARTTLS i && Sts.CertValid i)
                then Some (EEnforce (Sts.EDomain i) (Sts.EMXHost i) "no verified TLS")
                else None
    | None => None
    end |}.

Lemma sample_enforces : @evaluate_enforces sample_sts.
Proof.
  intros i p E M D T. simpl. rewrite E, M, D, T. by rewrite bool_decide_eq_true_2 by done.
Qed.

Definition sample_web : WebLib := {|
  url_Parse s := match Cut s "://" with
                 | Some (sch, rest) =>
                     Ok {| Scheme := sch;
                           Hostname := match cut_byte "/"%char rest with Some (h, _) => h | None => rest end;
                           has_user := false; RawQuery := ""; ForceQuery := false; Fragment := "";
                           Opaque := "" |}
                 | None => Err (EText "missing scheme")
                 end;
  url_QueryEscape s := s;
  strconv_Quote s := quote +:+ s +:+ quote;
  json_strings l := "[" +:+ Join l "," +:+ "]";
  json_endpoint s := Ok s;
  json_error_code s := None |}.

Definition sample_mac : SRSMac := SRS.toy_mac.

(** ** A worker, rows and a database *)

Definition worker : Worker := {|
  Send.hostname := "mail.a.example"; stsEnforce := true; dane_on := true; masterKey := "";
  srs := None; sendDeadline := fun _ => 30 * Second; smtpTimeouts := fun _ => 0 |}.
Definition settings : Settings := NewWorker "mail.a.example".

Definition row (id : Z) (sender recipient : string) (status : QueueStatus) (next : Time) : OutboundQueue := {|
  ID := id; MessageID := None; Sender := sender; Recipient := recipient;
  Domain := DomainFromAddress recipient; SendingDomain := "";
  RawMessage := "Subject: hi" +:+ crlf2 +:+ "text"; BodyType := ""; Status := status; Attempts := 0;
  LastAttempt := None; NextAttempt := next; LastError := ""; LastErrorCode := 0; Category := FailureNone;
  MaxRetries := 60; IsDSN := false; CreatedAt := 0; ExpiresAt := RowLimits.QueueLifetime; ARCResults := "";
  ARCChain := ""; TLSReport := false; RequireTLS := false; Transport := TransportNone |}.

Definition a_example : HostedDomain := {|
  DomID := 1; DomName := "a.example"; OutboundStoppedAt := None; OutboundStopReason := "";
  OutboundStoppedBy := "" |}.
Definition alice : Mailbox := {| MbID := 10; MbAddress := "alice@a.example"; MbDomainID := 1; MbActive := true |}.

Definition first_row : OutboundQueue := row 1 "alice@a.example" "bob@b.example" Pending 50.
Definition second_row : OutboundQueue := row 2 "alice@a.example" "carol@b.example" Deferred 20.
Definition store : DB := {|
  queue := <[1 := first_row]> (<[2 := second_row]> ∅); next_queue := 3;
  messages := ∅; next_message := 1; suppressions := ∅; domains := [a_example]; mailboxes := [alice] |}.
Definition counters : Counters := {|
  QueueProcessed := 0; QueueErrors := 0; MessagesSent := 0; TerminalDelivered := 0 |}.
Definition clocks (t : Time) : Clocks := {|
  at_failure := t; at_count := t; at_notice := t; at_create := t; draw := 2 ^ 52 |}.

(** ** A remote server *)

Definition socket : conn := {| cid := 0; localIP := "192.0.2.1"; remoteIP := "198.51.100.1" |}.
Definition enforce_policy : Sts.Policy := {|
  Sts.Version := "STSv1"; Sts.Mode := Sts.ModeEnforce; Sts.MX := ["mx.b.example"]; Sts.MaxAge := 86400 |}.

(** One MX under an enforced policy; STARTTLS with a certificate that verifies when
    [trusted]. *)
Definition peer (trusted : bool) : outside Q := fun X q =>
  match q in Q X return X with
  | QNow => 100 * Second
  | QLookupMX _ => Ok [{| Host := "mx.b.example."; Pref := 10 |}]
  | QLookupHost _ => Ok tt
  | QMXSecure _ => Ok Insecure
  | QTLSA _ _ => Ok ([], Insecure)
  | QResolveSTS _ => Ok enforce_policy
  | QHostedCount _ => Ok 1
  | QRelayRow _ => Ok None
  | QDecrypt s => Ok s
  | QDomainKey _ => None
  | QFindCapability _ => None
  | QStoreCapability _ => tt
  | QPin _ => Ok tt
  | QNoteSMTP _ => tt
  | QStoreSession _ => tt
  | QDKIMSign _ _ _ => Err (EText "no key")
  | QSealARC _ raw _ _ => Ok raw
  | QDial _ => Ok socket
  | QArm _ _ _ => tt
  | QGreeting _ _ => Ok tt
  | QHello _ _ => Ok [("STARTTLS", ""); ("8BITMIME", "")]
  | QStartTLS _ v _ =>
      if trusted then Ok ([("8BITMIME", "")], None) else Err (EText "x509: unknown authority")
  | QMail _ _ => Ok tt
  | QRcpt _ _ => Ok tt
  | QData _ => Ok tt
  | QWrite _ _ => Ok tt
  | QFlush _ => Ok tt
  | QAbort _ => tt
  | QFinal _ => Ok tt
  | QQuit _ => tt
  | QClose _ => tt
  | QDialRelay _ _ => Err (EText "refused")
  | QHandshake _ _ => Err (EText "refused")
  | QVerifiedTLS _ => false
  | QAuthPlain _ _ _ _ => Err (EText "refused")
  | QProbeDial _ => Err (EText "refused")
  | QGet _ => Err (EText "refused")
  | QPost _ _ _ _ _ => Err (EText "refused")
  end.
End Samples.
