(* ===== verification/Grants.v ===== *)
(** * What a holder may do: internal/grants

    scope.go: scopes and their order. held.go: the capabilities an account holds and what
    can be made of them. server.go and server_ceiling.go, their pure parts: the sessions a
    capability is reached through, and the operator's override of the server ceiling. *)

From S2P Require Import Prelude GoStrings.
From Stdlib Require Import Ascii.
From stdpp Require Import sorting.

Module Scope.
Import GoStrings.
Local Open Scope Z_scope.
Definition All : string := "*".
Definition domainPrefix : string := "domain:".
Definition mailboxPrefix : string := "mailbox:".

Definition label_byte (a : ascii) : bool :=
  in_range 97 122 a || is_digit a || bool_decide (a = "-"%char).
Definition validDomain (name : string) : bool :=
  if bool_decide (name = "") || (253 <? len name) then false
  else forallb (fun label => negb (bool_decide (label = "") || (63 <? len label)) && sforall label_byte label)
         (split_byte "."%char name).

Section Parse.
Context `{Unicode}.
Definition Domain (name : string) : string := domainPrefix +:+ ToLower name.
Definition Mailbox (address : string) : string := mailboxPrefix +:+ ToLower address.

Definition local_ok (local : string) : bool :=
  negb (bool_decide (local = ""))
  && negb (ContainsAny local [" "%char; byte 9; cr; lf; "@"%char]).

(** [None] is ErrBadScope. *)
Definition ParseScope (s : string) : option string :=
  let s := ToLower (TrimSpace s) in
  if bool_decide (s = All) then Some s
  else if match cut_prefix domainPrefix s with Some name => validDomain name | None => false end then Some s
  else match cut_prefix mailboxPrefix s with
       | None => None
       | Some address =>
           match cut_byte "@"%char address with
           | Some (local, domain) => if local_ok local && validDomain domain then Some s else None
           | None => None
           end
       end.
End Parse.

Definition Covers (scope target : string) : bool :=
  if bool_decide (scope = All) || bool_decide (scope = target) then true
  else match cut_prefix domainPrefix scope with
       | None => false
       | Some domain =>
           match cut_prefix mailboxPrefix target with
           | None => false
           | Some address =>
               match cut_last "@"%char address with
               | Some (_, d) => bool_decide (d = domain)
               | None => false
               end
           end
       end.

(** ** Scopes form a tree below "*" *)

Lemma Covers_spec scope target :
  Covers scope target = true <->
  scope = All \/ scope = target \/
  exists domain local address, scope = domainPrefix +:+ domain /\ target = mailboxPrefix +:+ address
    /\ cut_last "@"%char address = Some (local, domain).
Proof.
  unfold Covers. split.
  - destruct (decide (scope = All)) as [A|A]; [by left|].
    destruct (decide (scope = target)) as [S|S]; [by right; left|].
    rewrite !bool_decide_eq_false_2 by done. cbn [orb].
    destruct (cut_prefix domainPrefix scope) as [d|] eqn:D; [|done].
    destruct (cut_prefix mailboxPrefix target) as [m|] eqn:M; [|done].
    destruct (cut_last "@"%char m) as [[l d']|] eqn:L; [|done]. intros E. bprop. subst d'.
    right. right. exists d, l, m. split; [by apply cut_prefix_spec|]. split; [by apply cut_prefix_spec|done].
  - intros [->|[->|(d & l & m & -> & -> & L)]].
    + by rewrite bool_decide_eq_true_2.
    + by rewrite (bool_decide_eq_true_2 (target = target)), orb_true_r.
    + destruct (_ || _); [done|]. rewrite !cut_prefix_app, L. by apply bool_decide_eq_true_2.
Qed.

Lemma Covers_refl s : Covers s s = true.
Proof. apply Covers_spec. auto. Qed.
Lemma Covers_All s : Covers All s = true.
Proof. apply Covers_spec. auto. Qed.

Lemma Covers_trans a b c : Covers a b = true -> Covers b c = true -> Covers a c = true.
Proof.
  rewrite !Covers_spec. intros [->|[->|(d & l & m & -> & -> & L)]]; [by left|done|].
  intros [E|[<-|(d' & l' & m' & E & _)]]; [done| |done]. right. right. by exists d, l, m.
Qed.

Lemma Covers_antisym a b : Covers a b = true -> Covers b a = true -> a = b.
Proof.
  rewrite !Covers_spec. intros [->|[->|(d & l & m & -> & -> & L)]]; [|done|].
  - intros [->|[->|(d & l & m & -> & E & _)]]; done.
  - intros [E|[E|(d' & l' & m' & E & _)]]; done.
Qed.

(** Two scopes that cover the same target are one within the other. *)
Lemma Covers_chain a b t : Covers a t = true -> Covers b t = true -> Covers a b = true \/ Covers b a = true.
Proof.
  rewrite !(Covers_spec _ t). intros [->|[->|(d & l & m & -> & -> & L)]] Hb.
  - left. apply Covers_All.
  - right. by apply Covers_spec.
  - destruct Hb as [->|[->|(d' & l' & m' & -> & E & L')]].
    + right. apply Covers_All.
    + left. apply Covers_spec. right. right. by exists d, l, m.
    + left. apply Covers_spec. right. left. apply (f_equal (cut_prefix mailboxPrefix)) in E.
      rewrite !cut_prefix_app in E. injection E as <-. rewrite L in L'. by injection L' as _ <-.
Qed.

(** Nothing but "*" covers "*". *)
Lemma Covers_only_All s : Covers s All = true -> s = All.
Proof. rewrite Covers_spec. by intros [?|[?|(d & l & m & _ & E & _)]]. Qed.
End Scope.

Module Held.
Import GoStrings.
Local Open Scope Z_scope.
Import Scope.

Definition Wildcard : string := "*".

(** internal/db/models/rbac.go *)
Definition CapMailRead : string := "mail:read".
Definition CapMailWrite : string := "mail:write".
Definition CapMailImport : string := "mail:import".
Definition CapMailSend : string := "mail:send".
Definition CapMailReceive : string := "mail:receive".
Definition CapMailSendAs : string := "mail:send_as".
Definition CapMailSendOnBehalf : string := "mail:send_on_behalf".
Definition CapMailboxManage : string := "mailbox:manage".
Definition CapMailboxSession : string := "mailbox:session".
Definition CapAdminSession : string := "admin:session".
Definition OwnerCapabilities : list string :=
  [CapMailRead; CapMailWrite; CapMailImport; CapMailSend; CapMailReceive; CapMailSendAs; CapMailSendOnBehalf;
   CapMailboxManage; CapMailboxSession].

Record Entry := { EScope : string; Capability : string }.
#[export] Instance Entry_eq : EqDecision Entry.
Proof. solve_decision. Defined.

(** The unexported entries of a [Held]. *)
Definition Held := list Entry.
Definition HeldOf (entries : list Entry) : Held := entries.

Definition gives (e : Entry) (capability : string) : bool :=
  bool_decide (Capability e = Wildcard) || bool_decide (Capability e = capability).
Definition Allows (h : Held) (capability target : string) : bool :=
  existsb (fun e => gives e capability && Covers (EScope e) target) h.
Definition AllowsSomewhere (h : Held) (capability : string) : bool :=
  existsb (fun e => gives e capability) h.
Definition CanGrant (h : Held) (capabilities : list string) (scope : string) : bool :=
  forallb (fun c => Allows h c scope) capabilities.

(** The loops' [seen] maps: the first of each, in order. *)
Fixpoint uniq_after {A} `{EqDecision A} (seen l : list A) : list A :=
  match l with
  | [] => []
  | x :: l => if bool_decide (x ∈ seen) then uniq_after seen l else x :: uniq_after (x :: seen) l
  end.
Definition uniq {A} `{EqDecision A} (l : list A) : list A := uniq_after [] l.

(** [sort.Strings]: byte order. *)
Definition byte_order (a b : string) : Prop := String.leb a b = true.
#[export] Instance byte_order_dec : RelDecision byte_order := fun a b => decide (String.leb a b = true).
Definition sort_strings : list string -> list string := merge_sort byte_order.

Definition Capabilities (h : Held) : list string :=
  if existsb (fun e => bool_decide (EScope e = All) && bool_decide (Capability e = Wildcard)) h then [Wildcard]
  else sort_strings (uniq (Capability <$> List.filter (fun e => bool_decide (EScope e = All)) h)).

Definition entry_order (a b : Entry) : Prop :=
  (if bool_decide (EScope a = EScope b) then String.leb (Capability a) (Capability b)
   else String.leb (EScope a) (EScope b)) = true.
#[export] Instance entry_order_dec : RelDecision entry_order := fun a b => decide (_ = true).
Definition ScopedCapabilities (h : Held) : list Entry :=
  merge_sort entry_order
    (uniq (List.filter (fun e => negb (bool_decide (EScope e = All))) h)).

Definition Scopes (h : Held) (capability : string) : list string :=
  sort_strings (uniq (EScope <$> List.filter (fun e => gives e capability) h)).

Definition narrower (a b : string) : option string :=
  if Covers b a then Some a else if Covers a b then Some b else None.

Definition meet (e c : Entry) : option Entry :=
  capability ← (if bool_decide (Capability e = Capability c) || bool_decide (Capability c = Wildcard)
                then Some (Capability e)
                else if bool_decide (Capability e = Wildcard) then Some (Capability c) else None);
  scope ← narrower (EScope e) (EScope c);
  Some {| EScope := scope; Capability := capability |}.

Definition Within (h ceiling : Held) : Held :=
  uniq (h ≫= fun e => omap (meet e) ceiling).

Definition IntersectScopes (a b : list string) : list string :=
  sort_strings (uniq (List.filter (fun s => negb (bool_decide (s = "")))
    (a ≫= fun left => omap (fun right => narrower right left) b))).

(** *** server.go *)

Definition mailboxCapability (capability : string) : bool := bool_decide (capability ∈ OwnerCapabilities).

(** The session an entry is reached through; "" for none. *)
Definition session_of (h : Held) (e : Entry) : string :=
  let c := Capability e in
  if bool_decide (c = CapMailboxSession) || bool_decide (c = CapAdminSession) || bool_decide (c = CapMailReceive)
  then ""
  else if bool_decide (c = CapMailImport)
  then if Allows h CapAdminSession (EScope e) then CapAdminSession else CapMailboxSession
  else if mailboxCapability c then CapMailboxSession else CapAdminSession.
Definition withinSessions (h : Held) : Held :=
  List.filter (fun e => bool_decide (session_of h e = "") || Allows h (session_of h e) (EScope e)) h.

Section Sessions.
Context `{Unicode}.
Definition MailboxSession (h : Held) (address : string) : bool := Allows h CapMailboxSession (Mailbox address).
End Sessions.
Definition AdminSession (h : Held) : bool := AllowsSomewhere h CapAdminSession.

(** The ceiling a request is held to, once it has been read. *)
Definition superadmin (h : Held) : bool := Allows h Wildcard All.
Definition under_ceiling (h ceiling : Held) : Held :=
  if superadmin h then h else withinSessions (Within h ceiling).

Inductive ceiling_error := EmptyName | WildcardName | UnknownName (name : string).
Definition checkServerCapability (name : string) (vocabulary : list string) : result ceiling_error unit :=
  if bool_decide (name = "") then Err EmptyName
  else if bool_decide (name = Wildcard) then Err WildcardName
  else if bool_decide (name ∈ vocabulary) then Ok tt
  else Err (UnknownName name).

Fixpoint parse_names (known names : list string) : result ceiling_error Held :=
  match names with
  | [] => Ok []
  | name :: names =>
      _ ← checkServerCapability (TrimSpace name) known;
      rest ← parse_names known names;
      Ok ({| EScope := All; Capability := TrimSpace name |} :: rest)
  end.
Definition parseServerCapabilities (raw : string) (known : list string) : result ceiling_error Held :=
  if bool_decide (TrimSpace raw = "") then Ok [] else parse_names known (split_byte ","%char raw).

Definition sortedCapabilities (h : Held) : list string := sort_strings (uniq (Capability <$> h)).
Definition difference (a b : list string) : list string :=
  List.filter (fun name => negb (bool_decide (name ∈ b))) a.
End Held.

(** * What can be done with what is held

    [Within] is the exact intersection of what two holders may do, [CanGrant] exactly rules
    out handing on more than is held, and the server ceiling and the session capabilities
    bound everyone but a superadmin. *)

Module GrantsFacts.
Import GoStrings Scope Held.
Local Open Scope Z_scope.

Lemma elem_of_uniq_after {A} `{EqDecision A} (seen l : list A) x :
  x ∈ uniq_after seen l <-> x ∈ l /\ x ∉ seen.
Proof.
  revert seen. induction l as [|y l IH]; intros seen; simpl; [set_solver|].
  case_bool_decide as D.
  - rewrite IH. set_solver.
  - rewrite elem_of_cons, IH. destruct (decide (x = y)); set_solver.
Qed.
Lemma elem_of_uniq {A} `{EqDecision A} (l : list A) x : x ∈ uniq l <-> x ∈ l.
Proof. unfold uniq. rewrite elem_of_uniq_after. set_solver. Qed.

(** An entry lets its holder do something to a target. *)
Definition reaches (e : Entry) (capability target : string) : bool :=
  gives e capability && Covers (EScope e) target.

Lemma Allows_spec h c t : Allows h c t = true <-> exists e, e ∈ h /\ reaches e c t = true.
Proof.
  unfold Allows. rewrite existsb_exists. unfold reaches. setoid_rewrite list_elem_of_In. reflexivity.
Qed.
Lemma Allows_app h h' c t : Allows (h ++ h') c t = Allows h c t || Allows h' c t.
Proof. apply existsb_app. Qed.

(** ** Order and equivalence: what can be done, not how it is listed *)

Definition held_le (h h' : Held) : Prop := forall c t, Allows h c t = true -> Allows h' c t = true.
Definition held_eq (h h' : Held) : Prop := forall c t, Allows h c t = Allows h' c t.
#[export] Instance held_le_preorder : PreOrder held_le.
Proof. split; [by intros h c t|]. intros a b c H1 H2 x t. auto. Qed.
#[export] Instance held_eq_equivalence : Equivalence held_eq.
Proof.
  split; [by intros h c t|by intros a b H c t|]. intros a b c H1 H2 x t. by rewrite H1.
Qed.
#[export] Instance Allows_proper : Proper (held_eq ==> eq ==> eq ==> eq) Allows.
Proof. intros a b H c _ <- t _ <-. apply H. Qed.
#[export] Instance CanGrant_proper : Proper (held_eq ==> eq ==> eq ==> eq) CanGrant.
Proof.
  intros a b H l _ <- s _ <-. unfold CanGrant. induction l as [|c l IH]; [done|]. simpl. by rewrite H, IH.
Qed.
Lemma held_eq_le a b : held_eq a b <-> held_le a b /\ held_le b a.
Proof.
  split.
  - intros H. split; intros c t; by rewrite (H c t).
  - intros [H1 H2] c t. specialize (H1 c t). specialize (H2 c t).
    destruct (Allows a c t), (Allows b c t); naive_solver.
Qed.

(** ** The meet of two entries *)

Lemma narrower_spec a b s : narrower a b = Some s -> forall t, Covers s t = Covers a t && Covers b t.
Proof.
  intros N t. unfold narrower in N.
  assert (M : forall x y, Covers y x = true -> Covers x t = Covers x t && Covers y t).
  { intros x y C. destruct (Covers x t) eqn:X; [|done]. by rewrite (Covers_trans y x t). }
  destruct (Covers b a) eqn:C1; [injection N as <-; by apply M|].
  destruct (Covers a b) eqn:C2; [|done]. injection N as <-. rewrite andb_comm. by apply M.
Qed.
Lemma narrower_meets a b t : Covers a t = true -> Covers b t = true -> narrower a b <> None.
Proof.
  intros H1 H2. unfold narrower. destruct (Covers_chain a b t H1 H2) as [E|E]; rewrite E; [|done].
  by destruct (Covers b a).
Qed.

Lemma meet_spec e c m : meet e c = Some m ->
  forall k t, reaches m k t = reaches e k t && reaches c k t.
Proof.
  unfold meet. intros E k t.
  destruct (if _ : bool then _ else _) as [cap|] eqn:K; [|done]. simpl in E.
  destruct (narrower (EScope e) (EScope c)) as [s|] eqn:N; [|done]. injection E as <-.
  unfold reaches. simpl. rewrite (narrower_spec _ _ _ N t).
  assert (G : gives {| EScope := s; Capability := cap |} k = gives e k && gives c k).
  { unfold gives in *. simpl.
    destruct (bool_decide (Capability e = Capability c) || bool_decide (Capability c = Wildcard)) eqn:D.
    - injection K as <-. bprop. destruct D as [D|D].
      + rewrite <- D. by destruct (_ || _).
      + rewrite (bool_decide_eq_true_2 _ D). by rewrite andb_true_r.
    - destruct (bool_decide (Capability e = Wildcard)) eqn:We; [|done]. injection K as <-. done. }
  rewrite G. destruct (gives e k), (gives c k), (Covers (EScope e) t), (Covers (EScope c) t); done.
Qed.

Lemma meet_reached e c k t : reaches e k t = true -> reaches c k t = true -> meet e c <> None.
Proof.
  unfold reaches, meet. intros [G1 C1]%andb_prop [G2 C2]%andb_prop.
  pose proof (narrower_meets _ _ _ C1 C2) as N.
  destruct (if _ : bool then _ else _) as [cap|] eqn:K; simpl.
  - by destruct (narrower _ _).
  - exfalso. destruct (_ || _) eqn:D in K; [done|]. apply orb_false_iff in D as [D1 D2].
    destruct (bool_decide (Capability e = Wildcard)) eqn:D3; [done|].
    unfold gives in G1, G2. rewrite D3 in G1. rewrite D2 in G2. cbn [orb] in G1, G2.
    apply bool_decide_eq_true in G1, G2. apply bool_decide_eq_false in D1. by rewrite G1, G2 in D1.
Qed.

(** ** Within is the meet *)

Lemma elem_of_Within h ceiling m : m ∈ Within h ceiling <-> exists e c, e ∈ h /\ c ∈ ceiling /\ meet e c = Some m.
Proof.
  unfold Within. rewrite elem_of_uniq, list_elem_of_bind. setoid_rewrite list_elem_of_omap. naive_solver.
Qed.

Lemma Within_spec h ceiling c t : Allows (Within h ceiling) c t = Allows h c t && Allows ceiling c t.
Proof.
  apply eq_true_iff_eq. rewrite andb_true_iff, !Allows_spec. setoid_rewrite elem_of_Within. split.
  - intros (m & (x & y & X & Y & M) & R). rewrite (meet_spec _ _ _ M) in R. apply andb_prop in R as [R1 R2]. split; eauto.
  - intros [(x & X & R1) (y & Y & R2)]. destruct (meet x y) as [m|] eqn:M.
    + exists m. split; [eauto|]. by rewrite (meet_spec _ _ _ M), R1, R2.
    + by destruct (meet_reached x y c t R1 R2).
Qed.

#[export] Instance Within_proper : Proper (held_eq ==> held_eq ==> held_eq) Within.
Proof. intros a a' A b b' B c t. by rewrite !Within_spec, A, B. Qed.
#[export] Instance Within_mono : Proper (held_le ==> held_le ==> held_le) Within.
Proof. intros a a' A b b' B c t. rewrite !Within_spec, !andb_true_iff. intros []. auto. Qed.
Lemma Within_le_l a b : held_le (Within a b) a.
Proof. intros c t. rewrite Within_spec, andb_true_iff. tauto. Qed.
Lemma Within_le_r a b : held_le (Within a b) b.
Proof. intros c t. rewrite Within_spec, andb_true_iff. tauto. Qed.
Lemma Within_greatest x a b : held_le x a -> held_le x b -> held_le x (Within a b).
Proof. intros A B c t X. rewrite Within_spec, andb_true_iff. auto. Qed.
Lemma Within_comm a b : held_eq (Within a b) (Within b a).
Proof. intros c t. rewrite !Within_spec. apply andb_comm. Qed.
Lemma Within_assoc a b d : held_eq (Within a (Within b d)) (Within (Within a b) d).
Proof. intros c t. rewrite !Within_spec. apply andb_assoc. Qed.
Lemma Within_absorb a b : held_le a b <-> held_eq (Within a b) a.
Proof.
  split.
  - intros L c t. rewrite Within_spec. destruct (Allows a c t) eqn:E; [by rewrite (L c t E)|done].
  - intros Q c t A. rewrite <- (Q c t), Within_spec, andb_true_iff in A. tauto.
Qed.

(** [Within], entry by entry and in whatever order the entries are listed, is the exact
    intersection of what two holders may do: a capability is allowed on a target by the meet
    just when both allow it there, through whichever entries (wildcards and nested scopes
    included), so an owned account or a capped one neither gains nor loses anything else. *)
Theorem within_exact (h ceiling : Held) (capability target : string) :
  Allows (Within h ceiling) capability target = Allows h capability target && Allows ceiling capability target.
Proof. apply Within_spec. Qed.

(** ** Handing on no more than is held *)

Lemma Allows_covers h c a b : Covers a b = true -> Allows h c a = true -> Allows h c b = true.
Proof.
  rewrite !Allows_spec. unfold reaches. intros C (e & E & R). apply andb_prop in R as [G R].
  exists e. split; [done|]. by rewrite G, (Covers_trans _ _ _ R C).
Qed.
Lemma Allows_wildcard h c t : Allows h Wildcard t = true -> Allows h c t = true.
Proof.
  rewrite !Allows_spec. unfold reaches, gives. intros (e & E & R). exists e. split; [done|].
  apply andb_prop in R as [G R]. rewrite R, andb_true_r. apply orb_true_iff. left. by apply orb_true_iff in G as [].
Qed.
(** What a role's capabilities give at a scope. *)
Definition role_at (scope : string) (capabilities : list string) : Held :=
  (fun c => {| EScope := scope; Capability := c |}) <$> capabilities.

(** The check before a role is granted or removed passes just when everything the role gives
    at the scope, on every target below it, the granter may do already. *)
Lemma CanGrant_spec g capabilities scope :
  CanGrant g capabilities scope = true <-> held_le (role_at scope capabilities) g.
Proof.
  unfold CanGrant. rewrite forallb_elem. unfold held_le. split.
  - intros G c t. rewrite Allows_spec. intros (e & E & R).
    apply list_elem_of_fmap in E as (k & -> & K). unfold reaches, gives in R. simpl in R.
    apply andb_prop in R as [D C]. apply (Allows_covers _ _ scope _ C). specialize (G k K).
    apply orb_true_iff in D as [D|D]; bprop; subst k; [by apply Allows_wildcard|done].
  - intros L c C. apply L, Allows_spec. exists {| EScope := scope; Capability := c |}.
    split; [apply list_elem_of_fmap; eauto|]. unfold reaches, gives. simpl.
    rewrite Covers_refl, andb_true_r, (bool_decide_eq_true_2 (c = c)) by done. by destruct (bool_decide _).
Qed.

(** ** The server ceiling *)

Definition wildcard_free (h : Held) : Prop := Forall (fun e => Capability e <> Wildcard) h.

Lemma withinSessions_le h : held_le (withinSessions h) h.
Proof.
  intros c t. rewrite !Allows_spec. intros (e & E & R). exists e. split; [|done].
  unfold withinSessions in E. by apply list_elem_of_In, filter_In in E as [E%list_elem_of_In _].
Qed.

Lemma wildcard_free_Within h ceiling : wildcard_free ceiling -> wildcard_free (Within h ceiling).
Proof.
  unfold wildcard_free. rewrite !Forall_forall. intros F m M. apply elem_of_Within in M as (e & c & E & C & M).
  specialize (F c C). unfold meet in M.
  destruct (bool_decide (Capability e = Capability c) || bool_decide (Capability c = Wildcard)) eqn:D; simpl in M.
  - destruct (narrower _ _); [|done]. injection M as <-. simpl. bprop. destruct D; congruence.
  - destruct (bool_decide (Capability e = Wildcard)); [|done]. simpl in M.
    destruct (narrower _ _); [|done]. by injection M as <-.
Qed.

(** The sessions any of which a capability is reached through. *)
Definition sessions_for (capability : string) : list string :=
  if bool_decide (capability = CapMailImport) then [CapMailboxSession; CapAdminSession]
  else if mailboxCapability capability then [CapMailboxSession] else [CapAdminSession].
Definition sessionless (capability : string) : bool :=
  bool_decide (capability ∈ [CapMailboxSession; CapAdminSession; CapMailReceive]).

Lemma session_of_for h e : sessionless (Capability e) = false -> session_of h e ∈ sessions_for (Capability e).
Proof.
  unfold sessionless, session_of, sessions_for. intros N. bprop. rewrite !elem_of_cons, elem_of_nil in N.
  rewrite !(bool_decide_eq_false_2 (Capability e = CapMailboxSession)),
    !(bool_decide_eq_false_2 (Capability e = CapAdminSession)),
    !(bool_decide_eq_false_2 (Capability e = CapMailReceive)) by tauto. cbn [orb].
  destruct (bool_decide (Capability e = CapMailImport)); [destruct (Allows _ _ _)|destruct (mailboxCapability _)];
    set_solver.
Qed.

Lemma withinSessions_session h c t : wildcard_free h -> sessionless c = false ->
  Allows (withinSessions h) c t = true -> exists s, s ∈ sessions_for c /\ Allows h s t = true.
Proof.
  intros F N A. apply Allows_spec in A as (e & E & R). unfold withinSessions in E.
  apply list_elem_of_In, filter_In in E as [E%list_elem_of_In S].
  apply andb_prop in R as [G R]. unfold gives in G.
  rewrite bool_decide_eq_false_2 in G by exact (proj1 (Forall_forall _ _) F e E).
  cbn [orb] in G. apply bool_decide_eq_true in G. subst c.
  pose proof (session_of_for h e N) as I. exists (session_of h e). split; [done|].
  apply (Allows_covers _ _ _ _ R). apply orb_true_iff in S as [S|S]; [|done]. exfalso. bprop. rewrite S in I.
  unfold sessions_for in I.
  destruct (bool_decide _); [|destruct (mailboxCapability _)];
    apply (bool_decide_eq_true_2 _) in I; discriminate I.
Qed.

(** Whoever does not hold "*" at "*" is held to the server's ceiling on every request:
    what remains was held by the account and is allowed by the ceiling, and, unless it is
    receiving or a session itself, is reached through a session both allow on that target:
    a mailbox session for what is done to a mailbox, an administrator's for the rest, either
    for an import. A wildcard scoped to one domain or mailbox is capped like the rest. *)
Theorem ceiling_bounds (h ceiling : Held) (c t : string) :
  superadmin h = false -> wildcard_free ceiling ->
  Allows (under_ceiling h ceiling) c t = true ->
  Allows h c t = true /\ Allows ceiling c t = true
  /\ (sessionless c = false ->
      exists s, s ∈ sessions_for c /\ Allows h s t = true /\ Allows ceiling s t = true).
Proof.
  unfold under_ceiling. intros -> F A. pose proof (withinSessions_le _ _ _ A) as W.
  rewrite Within_spec in W. apply andb_prop in W as [W1 W2]. split; [done|]. split; [done|]. intros N.
  destruct (withinSessions_session _ _ _ (wildcard_free_Within _ _ F) N A) as (s & I & R).
  exists s. split; [done|]. rewrite Within_spec in R. by apply andb_prop in R.
Qed.

(** The operator's override lists capabilities of the vocabulary, never "*". *)
Lemma parse_names_known known names h : parse_names known names = Ok h ->
  Forall (fun e => EScope e = All /\ Capability e ∈ known /\ Capability e <> Wildcard /\ Capability e <> "") h.
Proof.
  revert h. induction names as [|n names IH]; intros h E; simpl in E; [injection E as <-; constructor|].
  apply result_bind_ok in E as ([] & C & E). apply result_bind_ok in E as (rest & R & E). injection E as <-.
  constructor; [|by apply IH]. simpl. unfold checkServerCapability in C.
  destruct (bool_decide (TrimSpace n = "")) eqn:B1; [done|].
  destruct (bool_decide (TrimSpace n = Wildcard)) eqn:B2; [done|].
  destruct (bool_decide (TrimSpace n ∈ known)) eqn:B3; [|done]. by bprop.
Qed.
Lemma parseServerCapabilities_wildcard_free raw known h :
  parseServerCapabilities raw known = Ok h -> wildcard_free h.
Proof.
  unfold parseServerCapabilities. destruct (bool_decide _); [intros E; injection E as <-; constructor|].
  intros E. refine (Forall_impl _ _ _ (parse_names_known _ _ _ E) _). intros e (_ & _ & N & _). exact N.
Qed.

(** ** Sorting without duplicates forgets the order and the repetitions *)

Lemma NoDup_uniq {A} `{EqDecision A} (l : list A) : NoDup (uniq l).
Proof.
  unfold uniq. generalize (@nil A). induction l as [|x l IH]; intros seen; [constructor|]. cbn [uniq_after].
  case_bool_decide as D; [apply IH|]. constructor; [|apply IH]. rewrite elem_of_uniq_after. set_solver.
Qed.

Lemma string_leb_cons a b s t : String.leb (String a s) (String b t) =
  match Ascii.compare a b with Eq => String.leb s t | Lt => true | Gt => false end.
Proof. unfold String.leb. cbn. by destruct (Ascii.compare a b). Qed.
#[export] Instance byte_order_trans : Transitive byte_order.
Proof.
  unfold byte_order. intros s. induction s as [|a s IH]; intros t u; [by destruct u|].
  destruct t as [|b t]; [done|]. destruct u as [|c u]; [done|]. rewrite !string_leb_cons. unfold Ascii.compare.
  destruct (N.compare_spec (N_of_ascii a) (N_of_ascii b)) as [E1|L1|L1],
    (N.compare_spec (N_of_ascii b) (N_of_ascii c)) as [E2|L2|L2],
    (N.compare_spec (N_of_ascii a) (N_of_ascii c)) as [E3|L3|L3]; try done; try lia. apply IH.
Qed.
#[export] Instance byte_order_antisym : AntiSymm eq byte_order.
Proof. intros s t. apply String.leb_antisym. Qed.
#[export] Instance byte_order_total : Total byte_order.
Proof. intros s t. apply String.leb_total. Qed.

Lemma sort_uniq_ext l1 l2 : (forall x, x ∈ l1 <-> x ∈ l2) -> sort_strings (uniq l1) = sort_strings (uniq l2).
Proof.
  intros E. apply (StronglySorted_unique byte_order); [exact (StronglySorted_merge_sort _ _)..|].
  unfold sort_strings. rewrite !merge_sort_Permutation. apply NoDup_Permutation; [apply NoDup_uniq..|].
  intros x. by rewrite !elem_of_uniq.
Qed.
Lemma elem_of_sort_uniq l x : x ∈ sort_strings (uniq l) <-> x ∈ l.
Proof. unfold sort_strings. by rewrite merge_sort_Permutation, elem_of_uniq. Qed.
End GrantsFacts.
