(* ===== verification/GoCodec.v ===== *)
(** * SHA-256, hexadecimal, JSON and RFC 3339 text, as the standard library writes them

    crypto/sha256 and encoding/hex; encoding/json's encoder with HTML escaping off, for
    the values the code hashes (strings, integers, null and maps of strings); the time
    layouts RFC3339 and RFC3339Nano in UTC. *)

From S2P Require Import Prelude GoTime GoStrings GoDate.
From Stdlib Require Import Ascii.
From stdpp Require Import pretty.

Module Sha256.
Import GoTime GoStrings GoDate.
Local Open Scope Z_scope.
Definition w32 (z : Z) : Z := z mod 2 ^ 32.
Definition rotr (x n : Z) : Z := Z.lor (Z.shiftr x n) (w32 (Z.shiftl x (32 - n))).
Definition not32 (x : Z) : Z := 2 ^ 32 - 1 - x.

Definition K : list Z := [
  1116352408; 1899447441; 3049323471; 3921009573; 961987163; 1508970993; 2453635748; 2870763221;
  3624381080; 310598401; 607225278; 1426881987; 1925078388; 2162078206; 2614888103; 3248222580;
  3835390401; 4022224774; 264347078; 604807628; 770255983; 1249150122; 1555081692; 1996064986;
  2554220882; 2821834349; 2952996808; 3210313671; 3336571891; 3584528711; 113926993; 338241895;
  666307205; 773529912; 1294757372; 1396182291; 1695183700; 1986661051; 2177026350; 2456956037;
  2730485921; 2820302411; 3259730800; 3345764771; 3516065817; 3600352804; 4094571909; 275423344;
  430227734; 506948616; 659060556; 883997877; 958139571; 1322822218; 1537002063; 1747873779;
  1955562222; 2024104815; 2227730452; 2361852424; 2428436474; 2756734187; 3204031479; 3329325298].

Record state := { a : Z; b : Z; c : Z; d : Z; e : Z; f : Z; g : Z; h : Z }.
Definition initial : state := {|
  a := 1779033703; b := 3144134277; c := 1013904242; d := 2773480762;
  e := 1359893119; f := 2600822924; g := 528734635; h := 1541459225 |}.

Definition round (s : state) (kw : Z * Z) : state :=
  let S1 := Z.lxor (Z.lxor (rotr (e s) 6) (rotr (e s) 11)) (rotr (e s) 25) in
  let ch := Z.lxor (Z.land (e s) (f s)) (Z.land (not32 (e s)) (g s)) in
  let t1 := w32 (h s + S1 + ch + fst kw + snd kw) in
  let S0 := Z.lxor (Z.lxor (rotr (a s) 2) (rotr (a s) 13)) (rotr (a s) 22) in
  let maj := Z.lxor (Z.lxor (Z.land (a s) (b s)) (Z.land (a s) (c s))) (Z.land (b s) (c s)) in
  let t2 := w32 (S0 + maj) in
  {| a := w32 (t1 + t2); b := a s; c := b s; d := c s;
     e := w32 (d s + t1); f := e s; g := f s; h := g s |}.

(** The message schedule, latest word first. *)
Fixpoint extend (n : nat) (ws : list Z) : list Z :=
  match n with
  | O => ws
  | S n =>
      let w i := nth i ws 0 in
      let s0 := Z.lxor (Z.lxor (rotr (w 14%nat) 7) (rotr (w 14%nat) 18)) (Z.shiftr (w 14%nat) 3) in
      let s1 := Z.lxor (Z.lxor (rotr (w 1%nat) 17) (rotr (w 1%nat) 19)) (Z.shiftr (w 1%nat) 10) in
      extend n (w32 (w 15%nat + s0 + w 6%nat + s1) :: ws)
  end.
Definition schedule (block : list Z) : list Z := rev (extend 48 (rev block)).

Definition add_state (s t : state) : state := {|
  a := w32 (a s + a t); b := w32 (b s + b t); c := w32 (c s + c t); d := w32 (d s + d t);
  e := w32 (e s + e t); f := w32 (f s + f t); g := w32 (g s + g t); h := w32 (h s + h t) |}.
Definition compress (s : state) (block : list Z) : state :=
  add_state s (fold_left round (combine K (schedule block)) s).

Fixpoint string_bytes (s : string) : list Z :=
  match s with EmptyString => [] | String x s => byte_z x :: string_bytes s end.
(** [n] bytes of a number, the most significant first. *)
Fixpoint big_endian (n : nat) (z : Z) : list Z :=
  match n with O => [] | S n => big_endian n (z / 256) ++ [z mod 256] end.
Definition padded (bytes : list Z) : list Z :=
  let l := Z.of_nat (length bytes) in
  bytes ++ [128] ++ replicate (Z.to_nat ((55 - l) mod 64)) 0 ++ big_endian 8 (8 * l).
Fixpoint words (bytes : list Z) : list Z :=
  match bytes with
  | x :: y :: z :: t :: r => (((x * 256 + y) * 256 + z) * 256 + t) :: words r
  | _ => []
  end.
Fixpoint blocks (fuel : nat) (ws : list Z) : list (list Z) :=
  match fuel, ws with
  | S fuel, _ :: _ => take 16 ws :: blocks fuel (drop 16 ws)
  | _, _ => []
  end.
Definition Sum256 (s : string) : list Z :=
  let ws := words (padded (string_bytes s)) in
  let r := fold_left compress (blocks (length ws) ws) initial in
  flat_map (big_endian 4) [a r; b r; c r; d r; e r; f r; g r; h r].
End Sha256.

Module Codec.
Import GoTime GoStrings GoDate.
Local Open Scope Z_scope.
(** encoding/hex. *)
Definition hex_digit (n : Z) : ascii := byte (Z.to_nat (if n <? 10 then 48 + n else 87 + n)).
Definition hex_byte (n : Z) : string := String (hex_digit (n / 16)) (String (hex_digit (n mod 16)) "").
Definition EncodeToString (bytes : list Z) : string := concat_all (hex_byte <$> bytes).

Example sha256_abc : EncodeToString (Sha256.Sum256 "abc")
  = "ba7816bf8f01cfea414140de5dae2223b00361a396177a9cb410ff61f20015ad".
Proof. vm_compute. reflexivity. Qed.
Example sha256_two_blocks : EncodeToString (Sha256.Sum256 "abcdbcdecdefdefgefghfghighijhijkijkljklmklmnlmnomnopnopq")
  = "248d6a61d20638b8e5c026930c3e6039a33ce45964ff2167f6ecedd419db06c1".
Proof. vm_compute. reflexivity. Qed.
Example sha256_empty : EncodeToString (Sha256.Sum256 "")
  = "e3b0c44298fc1c149afbf4c8996fb92427ae41e4649b934ca495991b7852b855".
Proof. vm_compute. reflexivity. Qed.

(** encoding/json: a string. *)
Definition backslash : ascii := byte 92.
Definition escape_byte (x : ascii) : string :=
  let n := nat_of_ascii x in
  if (n =? 34)%nat || (n =? 92)%nat then String backslash (String x "")
  else if (n =? 8)%nat then String backslash "b"
  else if (n =? 12)%nat then String backslash "f"
  else if (n =? 10)%nat then String backslash "n"
  else if (n =? 13)%nat then String backslash "r"
  else if (n =? 9)%nat then String backslash "t"
  else if (n <? 32)%nat then String backslash ("u00" +:+ hex_byte (Z.of_nat n))
  else String x "".
Definition line_separator (last : nat) : string := String (byte 226) (String (byte 128) (String (byte last) "")).
Definition json_rune (r : rune) : string :=
  match r with
  | Bad => String backslash "ufffd"
  | Rune (String x "") => escape_byte x
  | Rune c => if bool_decide (c = line_separator 168) then String backslash "u2028"
              else if bool_decide (c = line_separator 169) then String backslash "u2029"
              else c
  end.
Definition json_string (s : string) : string :=
  quote +:+ concat_all (json_rune <$> runes s) +:+ quote.

(** strconv.Quote, [%q]; a rune above ASCII is taken to be printable. *)
Definition quote_ascii (x : ascii) : string :=
  let n := nat_of_ascii x in
  if (n =? 34)%nat || (n =? 92)%nat then String backslash (String x "")
  else if (n =? 7)%nat then String backslash "a"
  else if (n =? 8)%nat then String backslash "b"
  else if (n =? 12)%nat then String backslash "f"
  else if (n =? 10)%nat then String backslash "n"
  else if (n =? 13)%nat then String backslash "r"
  else if (n =? 9)%nat then String backslash "t"
  else if (n =? 11)%nat then String backslash "v"
  else if (n <? 32)%nat || (n =? 127)%nat then String backslash ("x" +:+ hex_byte (Z.of_nat n))
  else String x "".
Fixpoint quote_runes (rs : list rune) (s : string) : string :=
  match rs, s with
  | Rune (String x "") :: rs, String _ t => quote_ascii x +:+ quote_runes rs t
  | Rune c :: rs, _ => c +:+ quote_runes rs (drop_bytes (String.length c) s)
  | Bad :: rs, String x t => String backslash ("x" +:+ hex_byte (byte_z x)) +:+ quote_runes rs t
  | _, _ => ""
  end.
Definition Quote (s : string) : string := quote +:+ quote_runes (runes s) s +:+ quote.
Example quote_text : Quote ("a" +:+ quote +:+ String lf (String (byte 200) "b"))
  = quote +:+ "a" +:+ String backslash quote +:+ String backslash "n" +:+ String backslash "xc8b" +:+ quote.
Proof. vm_compute. reflexivity. Qed.

Inductive value := JString (s : string) | JInt (z : Z) | JNull | JMap (m : gmap string string).

(** Keys in byte order. *)
Definition key_order (x y : string * string) : Prop := String.leb (fst x) (fst y) = true.
#[export] Instance key_order_dec : RelDecision key_order := fun x y => decide (_ = true).
Definition sorted_pairs (m : gmap string string) : list (string * string) :=
  merge_sort key_order (map_to_list m).
Definition json_pair (kv : string * string) : string := json_string (fst kv) +:+ ":" +:+ json_string (snd kv).
Definition json_value (v : value) : string :=
  match v with
  | JString s => json_string s
  | JInt z => itoa z
  | JNull => "null"
  | JMap m => "{" +:+ Join (json_pair <$> sorted_pairs m) "," +:+ "}"
  end.
Definition json_array (vs : list value) : string := "[" +:+ Join (json_value <$> vs) "," +:+ "]".

Example json_text : json_array [JString "a<b"; JInt (-5); JNull; JMap {[ "k" := crlf; "a" := quote ]}]
  = "[" +:+ quote +:+ "a<b" +:+ quote +:+ ",-5,null,{" +:+ quote +:+ "a" +:+ quote +:+ ":" +:+ quote
    +:+ String backslash quote +:+ quote +:+ "," +:+ quote +:+ "k" +:+ quote +:+ ":" +:+ quote
    +:+ String backslash "r" +:+ String backslash "n" +:+ quote +:+ "}]".
Proof. vm_compute. reflexivity. Qed.

(** "2006-01-02T15:04:05Z" in UTC, with a fraction of up to nine digits, or none. *)
Definition date_time (t : Time) : string :=
  ISODate t +:+ "T" +:+ clock_text (seconds t 0) true.
Definition RFC3339 (t : Time) : string := date_time t +:+ "Z".
Fixpoint drop_zeros (s : string) : string :=
  match s with
  | String x r => if bool_decide (x = "0"%char) then drop_zeros r else s
  | EmptyString => EmptyString
  end.
Definition fraction (nanos : Z) : string :=
  if nanos =? 0 then "" else "." +:+ srev (drop_zeros (srev (pad 9 nanos))).
Definition RFC3339Nano (t : Time) : string := date_time t +:+ fraction (t mod Second) +:+ "Z".
Example nano_text : RFC3339Nano (at_unix 1136239445 + 120000) = "2006-01-02T22:04:05.00012Z".
Proof. vm_compute. reflexivity. Qed.
Example whole_text : RFC3339Nano (at_unix 1136239445) = RFC3339 (at_unix 1136239445).
Proof. vm_compute. reflexivity. Qed.
End Codec.

(** * JSON text determines the value

    What the encoder writes for a value can be followed by anything that starts with a
    comma or a closing bracket, and still be read back: so two arrays with the same text
    are the same array. Strings are compared as valid UTF-8, which is what the code stores. *)

Module CodecFacts.
Import GoStrings Codec.
Local Open Scope Z_scope.

(** ** Runes of valid text *)

Lemma list_ind_len (P : string -> Prop) :
  (forall s, (forall t, (String.length t < String.length s)%nat -> P t) -> P s) -> forall s, P s.
Proof.
  intros H s. assert (G : forall n s, (String.length s < n)%nat -> P s); [|by apply (G (S (String.length s))); lia].
  intros n. induction n as [|n IH]; [lia|]. intros t L. apply H. intros u U. apply IH. lia.
Qed.

(** A chunk is one well-formed sequence: an ASCII byte, or as many bytes as its lead says. *)
Definition chunk_ok (c : string) : bool :=
  match c with
  | String x r =>
      if is_ascii_byte x then bool_decide (r = "")
      else match lead x with Some (k, _) => (String.length c =? k)%nat | None => false end
  | EmptyString => false
  end.

Lemma lead_length x k r : lead x = Some (k, r) -> k = 2%nat \/ k = 3%nat \/ k = 4%nat.
Proof. unfold lead. repeat case_match; naive_solver. Qed.

(** How a string's first rune is read. *)
Definition next_rune (x : ascii) (s1 : string) : rune * string :=
  if is_ascii_byte x then (Rune (String x EmptyString), s1)
  else match lead x, s1 with
       | Some (k, (lo, hi)), String b s2 =>
           if in_range lo hi b then
             match k, s2 with
             | 2%nat, _ => (Rune (String x (String b EmptyString)), s2)
             | 3%nat, String c s3 =>
                 if cont c then (Rune (String x (String b (String c EmptyString))), s3) else (Bad, s1)
             | 4%nat, String c (String d s4) =>
                 if cont c && cont d then (Rune (String x (String b (String c (String d EmptyString)))), s4)
                 else (Bad, s1)
             | _, _ => (Bad, s1)
             end
           else (Bad, s1)
       | _, _ => (Bad, s1)
       end.
Lemma runes_next x s1 : runes (String x s1) = (next_rune x s1).1 :: runes (next_rune x s1).2.
Proof. cbn [runes]. unfold next_rune. repeat case_match; reflexivity. Qed.

Lemma next_rune_spec x s1 :
  match next_rune x s1 with
  | (Rune c, r) => chunk_ok c = true /\ String x s1 = c +:+ r /\ (String.length r <= String.length s1)%nat
  | (Bad, r) => r = s1
  end.
Proof.
  unfold next_rune. destruct (is_ascii_byte x) eqn:A; [cbn [chunk_ok]; rewrite A; done|].
  destruct (lead x) as [[k [lo hi]]|] eqn:L; [|done].
  destruct s1 as [|y s2]; [done|]. destruct (in_range lo hi y); [|done].
  destruct (lead_length _ _ _ L) as [->|[->| ->]].
  - cbn [chunk_ok]. rewrite A, L. split_and!; [done..|cbn; lia].
  - destruct s2 as [|z s3]; [done|]. destruct (cont z); [|done]. cbn [chunk_ok]. rewrite A, L. split_and!; [done..|cbn; lia].
  - destruct s2 as [|z [|w s4]]; [done..|]. destruct (cont z && cont w); [|done].
    cbn [chunk_ok]. rewrite A, L. split_and!; [done..|cbn; lia].
Qed.

Definition good (r : rune) : bool := match r with Rune c => chunk_ok c | Bad => false end.

(** The runes of valid text are well-formed chunks, and they are the text. *)
Lemma runes_valid s : ValidString s = true ->
  Forall (fun r => good r = true) (runes s) /\ concat_all (write_rune <$> runes s) = s.
Proof.
  unfold ValidString. induction s as [s IH] using list_ind_len. destruct s as [|x s1]; [by split; [constructor|]|].
  rewrite runes_next. cbn [forallb fmap list_fmap]. pose proof (next_rune_spec x s1) as N.
  destruct (next_rune x s1) as [[c|] r]; [|done]. destruct N as (C & E & L).
  cbn [fst snd]. intros V. apply andb_prop in V as [_ V].
  destruct (IH r) as [F D]; [cbn; lia|done|]. split; [by constructor|].
  cbn. rewrite E. f_equal. exact D.
Qed.

(** A solid chunk is one rune wherever it stands. *)
Definition solid (c : string) : Prop := forall r, runes (c +:+ r) = Rune c :: runes r.
Lemma next_rune_solid x s1 c r : next_rune x s1 = (Rune c, r) -> solid c.
Proof.
  unfold next_rune. destruct (is_ascii_byte x) eqn:A.
  { intros E t. injection E as <- _. rewrite string_app_cons, runes_next. unfold next_rune. by rewrite A. }
  destruct (lead x) as [[k [lo hi]]|] eqn:L; [|done].
  destruct s1 as [|y s2]; [done|]. destruct (in_range lo hi y) eqn:R; [|done].
  assert (G : forall t, runes (String x (String y t)) = (next_rune x (String y t)).1 :: runes (next_rune x (String y t)).2)
    by (intros; apply runes_next).
  unfold next_rune in G. rewrite A, L in G. setoid_rewrite R in G.
  destruct (lead_length _ _ _ L) as [->|[->| ->]].
  - intros E t. injection E as <- _. rewrite !string_app_cons. apply G.
  - destruct s2 as [|z s3]; [done|]. destruct (cont z) eqn:Z; [|done]. intros E t. injection E as <- _.
    rewrite !string_app_cons, G. by rewrite Z.
  - destruct s2 as [|z [|w s4]]; [done..|]. destruct (cont z && cont w) eqn:Z; [|done].
    intros E t. injection E as <- _. rewrite !string_app_cons, G. by rewrite Z.
Qed.
Definition solid_rune (r : rune) : Prop := match r with Rune c => solid c | Bad => True end.
Lemma runes_solid s : Forall solid_rune (runes s).
Proof.
  induction s as [s IH] using list_ind_len. destruct s as [|x s1]; [constructor|]. rewrite runes_next.
  pose proof (next_rune_spec x s1) as N. pose proof (next_rune_solid x s1) as S.
  destruct (next_rune x s1) as [[c|] r]; cbn [fst snd].
  - constructor; [by eapply S|]. apply IH. destruct N as (_ & _ & L). cbn. lia.
  - subst r. constructor; [done|]. apply IH. cbn. lia.
Qed.
Lemma runes_concat cs : Forall solid cs -> runes (concat_all cs) = Rune <$> cs.
Proof. induction 1 as [|c cs C F IH]; [done|]. cbn [concat_all foldr]. rewrite C. cbn. by f_equal. Qed.
Lemma ValidString_concat cs : Forall solid cs -> ValidString (concat_all cs) = true.
Proof. intros F. unfold ValidString. rewrite runes_concat by done. clear F. by induction cs as [|c cs IH]. Qed.
Lemma solid_rune_error : solid rune_error.
Proof. intros r. reflexivity. Qed.

(** ** Reading one rune back *)

Definition unhex (x : ascii) : nat := let n := nat_of_ascii x in if (n <? 58)%nat then n - 48 else n - 87.
Definition unescape (s : string) : option (rune * string) :=
  match s with
  | EmptyString => None
  | String x r =>
      if ascii_dec x backslash then
        match r with
        | String "u" (String "2" (String "0" (String "2" (String z r)))) =>
            Some (Rune (line_separator (if ascii_dec z "8"%char then 168 else 169)), r)
        | String "u" (String _ (String _ (String h (String l r)))) =>
            Some (Rune (String (byte (16 * unhex h + unhex l)) ""), r)
        | String "b" r => Some (Rune (String (byte 8) ""), r)
        | String "f" r => Some (Rune (String (byte 12) ""), r)
        | String "n" r => Some (Rune (String (byte 10) ""), r)
        | String "r" r => Some (Rune (String (byte 13) ""), r)
        | String "t" r => Some (Rune (String (byte 9) ""), r)
        | String y r => Some (Rune (String y ""), r)
        | EmptyString => None
        end
      else
        let k := match lead x with Some (k, _) => k | None => 1%nat end in
        Some (Rune (take_bytes k s), drop_bytes k s)
  end.

Lemma unescape_byte x s : is_ascii_byte x = true -> unescape (escape_byte x +:+ s) = Some (Rune (String x ""), s).
Proof. destruct x as [[] [] [] [] [] [] [] []]; intros A; (discriminate A || reflexivity). Qed.

Lemma unescape_rune r s : good r = true -> unescape (json_rune r +:+ s) = Some (r, s).
Proof.
  destruct r as [c|]; [|done]. unfold good. destruct c as [|x c]; [done|]. cbn [chunk_ok].
  destruct (is_ascii_byte x) eqn:A.
  { intros ->%bool_decide_eq_true. by apply unescape_byte. }
  destruct (lead x) as [[k lh]|] eqn:L; [|done]. intros K%Nat.eqb_eq.
  assert (N : exists y c', c = String y c').
  { destruct c as [|y c']; [|by eauto]. destruct (lead_length _ _ _ L) as [->|[->| ->]]; simpl in K; lia. }
  destruct N as (y & c' & ->). unfold json_rune.
  destruct (decide (String x (String y c') = line_separator 168)) as [->|N1]; [reflexivity|].
  rewrite bool_decide_eq_false_2 by done.
  destruct (decide (String x (String y c') = line_separator 169)) as [->|N2]; [reflexivity|].
  rewrite bool_decide_eq_false_2 by done. unfold unescape. rewrite string_app_cons.
  destruct (ascii_dec x backslash) as [->|_]; [done|]. rewrite L.
  rewrite <- string_app_cons, <- K.
  change (S (String.length (String y c'))) with (String.length (String x (String y c'))).
  by rewrite take_bytes_app, drop_bytes_app.
Qed.

Lemma json_rune_quote r s t : good r = true -> json_rune r +:+ s <> quote +:+ t.
Proof.
  intros G E. pose proof (unescape_rune r s G) as U. rewrite E in U.
  unfold unescape, quote in U. simpl in U. injection U as R _. subst r. by simpl in E.
Qed.

Lemma json_runes_inj rs rs' s t :
  Forall (fun r => good r = true) rs -> Forall (fun r => good r = true) rs' ->
  concat_all (json_rune <$> rs) +:+ quote +:+ s = concat_all (json_rune <$> rs') +:+ quote +:+ t ->
  rs = rs' /\ s = t.
Proof.
  intros F. revert rs'. induction F as [|r rs G F IH]; intros rs' F' E; destruct F' as [|r' rs' G' F'].
  - split; [done|]. by injection E.
  - simpl in E. rewrite app_string_assoc in E. by destruct (json_rune_quote _ _ _ G' (eq_sym E)).
  - simpl in E. rewrite app_string_assoc in E. by destruct (json_rune_quote _ _ _ G E).
  - simpl in E. rewrite !app_string_assoc in E. apply (f_equal unescape) in E.
    rewrite !unescape_rune in E by done. injection E as -> E. by destruct (IH _ F' E) as [-> ->].
Qed.

Lemma json_string_inj x y s t : ValidString x = true -> ValidString y = true ->
  json_string x +:+ s = json_string y +:+ t -> x = y /\ s = t.
Proof.
  unfold json_string. intros X Y E. rewrite !app_string_assoc in E.
  change (quote +:+ ?z) with (String (byte 34) z) in E at 1 3. injection E as E.
  destruct (json_runes_inj _ _ _ _ (proj1 (runes_valid _ X)) (proj1 (runes_valid _ Y)) E) as [R ->].
  split; [|done]. by rewrite <- (proj2 (runes_valid x X)), <- (proj2 (runes_valid y Y)), R.
Qed.

(** ** Values and arrays *)

(** What may follow a value. *)
Definition stop (s : string) : Prop :=
  match s with String x _ => x = ","%char \/ x = "]"%char \/ x = "}"%char | EmptyString => False end.

Lemma span_inj f x y s t :
  sforall f x = true -> sforall f y = true ->
  (forall a r, s = String a r -> f a = false) -> (forall a r, t = String a r -> f a = false) ->
  x +:+ s = y +:+ t -> x = y /\ s = t.
Proof.
  revert y. induction x as [|a x IH]; intros y X Y S T E; destruct y as [|b y]; [done|..].
  - simpl in E, Y. apply andb_prop in Y as [Y _]. rewrite (S b _ E) in Y. done.
  - simpl in E, X. apply andb_prop in X as [X _]. rewrite (T a _ (eq_sym E)) in X. done.
  - simpl in *. apply andb_prop in X as [_ X], Y as [_ Y]. injection E as -> E.
    by destruct (IH y X Y S T E) as [-> ->].
Qed.

Section Joined.
Context {A : Type} (enc : A -> string) (ok : A -> Prop) (c : ascii).
Context (sep : c <> ","%char) (closes : forall s, stop (String c s)).
Context (enc_inj : forall x y s t, ok x -> ok y -> stop s -> stop t -> enc x +:+ s = enc y +:+ t -> x = y /\ s = t).
Context (enc_open : forall x s t, ok x -> enc x +:+ s <> String c t).

Lemma Join_cons x xs s : Join (enc <$> x :: xs) "," +:+ s
  = enc x +:+ (match xs with [] => s | _ => String ","%char (Join (enc <$> xs) "," +:+ s) end).
Proof. destruct xs; [done|]. cbn [fmap list_fmap Join]. by rewrite app_string_assoc. Qed.
Lemma Join_stop xs s : stop (match xs with [] => String c s
                             | _ => String ","%char (Join (enc <$> xs) "," +:+ String c s) end).
Proof. destruct xs; [apply closes|by left]. Qed.

Lemma Join_inj xs ys s t : Forall ok xs -> Forall ok ys ->
  Join (enc <$> xs) "," +:+ String c s = Join (enc <$> ys) "," +:+ String c t -> xs = ys /\ s = t.
Proof.
  intros F. revert ys. induction F as [|x xs X F IH]; intros ys G E; destruct G as [|y ys Y G].
  - by injection E.
  - rewrite Join_cons in E. by destruct (enc_open _ _ _ Y (eq_sym E)).
  - rewrite Join_cons in E. by destruct (enc_open _ _ _ X E).
  - rewrite !Join_cons in E. destruct (enc_inj _ _ _ _ X Y (Join_stop _ _) (Join_stop _ _) E) as [-> R].
    destruct xs as [|x' xs], ys as [|y' ys].
    + by injection R.
    + by injection R.
    + injection R as R. by rewrite R in sep.
    + injection R as R. by destruct (IH _ G R) as [-> ->].
Qed.
End Joined.

Definition valid_pair (kv : string * string) : Prop := ValidString (fst kv) = true /\ ValidString (snd kv) = true.
Definition valid_value (v : value) : Prop :=
  match v with
  | JString s => ValidString s = true
  | JMap m => Forall valid_pair (sorted_pairs m)
  | _ => True
  end.

Lemma json_pair_inj x y s t : valid_pair x -> valid_pair y ->
  json_pair x +:+ s = json_pair y +:+ t -> x = y /\ s = t.
Proof.
  destruct x as [k v], y as [k' v']. unfold json_pair. intros [K V] [K' V'] E. simpl in *.
  rewrite !app_string_assoc in E. destruct (json_string_inj _ _ _ _ K K' E) as [-> E'].
  apply (f_equal (drop_bytes 1)) in E'. change (json_string v +:+ s = json_string v' +:+ t) in E'.
  by destruct (json_string_inj _ _ _ _ V V' E') as [-> ->].
Qed.

Lemma sorted_pairs_inj m m' : sorted_pairs m = sorted_pairs m' -> m = m'.
Proof.
  intros E. apply map_to_list_inj. unfold sorted_pairs in E.
  by rewrite <- (merge_sort_Permutation key_order (map_to_list m)), E, merge_sort_Permutation.
Qed.
Lemma valid_JMap m : map_Forall (fun k v => ValidString k = true /\ ValidString v = true) m -> valid_value (JMap m).
Proof.
  intros V. apply Forall_forall. intros [k v] I. unfold sorted_pairs in I.
  rewrite merge_sort_Permutation in I. by apply V, elem_of_map_to_list.
Qed.

(** The first byte of a value tells its kind. *)
Lemma pretty_N_go_longer n s : (0 < n)%N -> (String.length s < String.length (pretty_N_go n s))%nat.
Proof.
  assert (G : forall n s, (String.length s <= String.length (pretty_N_go n s))%nat).
  { clear. intros n. induction n as [n IH] using (well_founded_induction N.lt_wf_0). intros s.
    destruct (decide (0 < n)%N) as [Hn|Hn]; [|replace n with 0%N by lia; by rewrite pretty_N_go_0].
    rewrite pretty_N_go_step by done. etrans; [|apply IH, N.div_lt; lia]. cbn. lia. }
  intros H. rewrite pretty_N_go_step by done. eapply Nat.lt_le_trans; [|apply G]. cbn. lia.
Qed.
Lemma itoa_nonempty z : itoa z <> "".
Proof.
  assert (G : forall p, pretty_N_go (Npos p) "" <> "").
  { intros p E. pose proof (pretty_N_go_longer (Npos p) "" eq_refl) as L. rewrite E in L. cbn in L. lia. }
  destruct z as [|p|p]; [done|exact (G p)|done].
Qed.
Lemma itoa_first z : exists a r, itoa z = String a r /\ number_byte a = true.
Proof.
  pose proof (sforall_itoa z) as N. destruct (itoa z) as [|a r] eqn:E.
  - by destruct (itoa_nonempty z).
  - exists a, r. split; [done|]. simpl in N. by apply andb_prop in N as [N _].
Qed.
Lemma itoa_byte a z s r : itoa z +:+ s = String a r -> number_byte a = true.
Proof. destruct (itoa_first z) as (b & t & -> & B). intros E. by injection E as -> _. Qed.

Lemma json_value_inj v w s t : valid_value v -> valid_value w -> stop s -> stop t ->
  json_value v +:+ s = json_value w +:+ t -> v = w /\ s = t.
Proof.
  intros V W S T E.
  assert (N : forall s, stop s -> forall a r, s = String a r -> number_byte a = false).
  { clear. intros s S a r ->. by destruct S as [->|[->| ->]]. }
  destruct v as [x|x| |m], w as [y|y| |m']; try done;
    try (by pose proof (itoa_byte _ _ _ _ E)); try (by pose proof (itoa_byte _ _ _ _ (eq_sym E))).
  - by destruct (json_string_inj _ _ _ _ V W E) as [-> ->].
  - destruct (span_inj number_byte _ _ _ _ (sforall_itoa x) (sforall_itoa y) (N s S) (N t T) E) as [I ->].
    by apply (inj pretty) in I as ->.
  - by injection E.
  - cbn [json_value] in E. rewrite !app_string_assoc in E. apply (f_equal (drop_bytes 1)) in E.
    apply (Join_inj json_pair valid_pair "}"%char) in E as [P ->].
    + by apply sorted_pairs_inj in P as ->.
    + done.
    + by right; right.
    + intros x y s' t' X Y _ _. by apply json_pair_inj.
    + intros [k v] s' t' _. done.
    + done.
    + done.
Qed.

Lemma json_value_open v s t : valid_value v -> json_value v +:+ s <> String "]" t.
Proof.
  intros _. destruct v as [x|x| |m]; [done| |done..]. by intros E%itoa_byte.
Qed.

Lemma json_array_inj vs ws : Forall valid_value vs -> Forall valid_value ws ->
  json_array vs = json_array ws -> vs = ws.
Proof.
  unfold json_array. intros V W E. apply (f_equal (drop_bytes 1)) in E.
  apply (Join_inj json_value valid_value "]"%char) in E as [-> _]; [done|done| | | |done|done].
  - by right; left.
  - intros. by apply json_value_inj.
  - intros. by apply json_value_open.
Qed.
End CodecFacts.
