(* ===== verification/AuditLog.v ===== *)
(** * The audit log: internal/audit

    audit.go (an entry's hash, its stored form, Append) and verify.go (the check of the
    chain, of a run of entries and of the table a batch at a time). The table is the list
    of its rows in primary-key order, which is how the queries read it. *)

From S2P Require Import Prelude GoTime GoStrings GoDate GoCodec.
From Stdlib Require Import Ascii.
Import GoTime GoStrings Codec.
Local Open Scope Z_scope.

Module Audit.
(** internal/db/models/audit.go *)
Record AuditEntry := {
  Seq : Z;
  OccurredAt : Time;
  ActorKind : string;
  ActorID : option Z;
  ActorName : string;
  CredentialID : option Z;
  SessionID : string;
  Action : string;
  Outcome : string;
  ErrorCode : string;
  Method : string;
  Route : string;
  HttpStatus : Z;
  Target : gmap string string;
  IP : string;
  UserAgent : string;
  RequestID : string;
  PrevHash : string;
  EHash : string
}.
Definition AuditActorAnonymous : string := "anonymous".
Definition AuditActorSystem : string := "system".
Definition AuditActorAccount : string := "account".
Definition AuditOutcomeSuccess : string := "success".

Definition hashVersion : string := "restmail-audit-v1".
Definition GenesisHash : string := concat_all (replicate 64 "0").
Definition maxText : nat := 512.

Definition optionalID (id : option Z) : value := match id with Some z => JInt z | None => JNull end.
(** The array [Hash] encodes, and its text. *)
Definition hashed (e : AuditEntry) : list value :=
  [ JString hashVersion; JInt (Seq e); JString (RFC3339Nano (OccurredAt e)); JString (ActorKind e);
    optionalID (ActorID e); JString (ActorName e); optionalID (CredentialID e); JString (SessionID e);
    JString (Action e); JString (Outcome e); JString (ErrorCode e); JString (Method e); JString (Route e);
    JInt (HttpStatus e); JMap (Target e); JString (IP e); JString (UserAgent e); JString (RequestID e);
    JString (PrevHash e) ].
Definition hash_text (e : AuditEntry) : string := json_array (hashed e).
Definition Hash (e : AuditEntry) : string := EncodeToString (Sha256.Sum256 (hash_text e)).

(** [strings.ToValidUTF8]: one replacement for a run of invalid bytes. *)
Fixpoint valid_runes (rep : string) (bad : bool) (rs : list rune) : string :=
  match rs with
  | [] => ""
  | Bad :: rs => (if bad then "" else rep) +:+ valid_runes rep true rs
  | Rune c :: rs => c +:+ valid_runes rep false rs
  end.
Definition ToValidUTF8 (s rep : string) : string := valid_runes rep false (runes s).
Definition nul : ascii := byte 0.
(** [ReplaceAll(s, "\x00", "\uFFFD")]. *)
Definition replace_nul (s : string) : string :=
  concat_all ((fun r => if bool_decide (r = Rune (String nul "")) then rune_error else write_rune r) <$> runes s).
Definition first_runes (n : nat) (s : string) : string := concat_all (take n (write_rune <$> runes s)).
Definition clean (s : string) : string :=
  let s := ToValidUTF8 s rune_error in
  let s := replace_nul s in
  if (maxText <? length (runes s))%nat then first_runes maxText s else s.

Definition Truncate (t : Time) (d : Duration) : Time := t - t mod d.
(** The keys that become one when cleaned are left to the map's iteration order. *)
Definition clean_target (t : gmap string string) : gmap string string :=
  list_to_map ((fun kv => (clean kv.1, clean kv.2)) <$> map_to_list t).

Definition normalize (now : Time) (e : AuditEntry) : AuditEntry := {|
  Seq := Seq e;
  OccurredAt := Truncate (if IsZero (OccurredAt e) then now else OccurredAt e) Microsecond;
  ActorKind := clean (if bool_decide (ActorKind e = "") then AuditActorAnonymous else ActorKind e);
  ActorID := ActorID e; ActorName := clean (ActorName e); CredentialID := CredentialID e;
  SessionID := clean (SessionID e); Action := clean (Action e); Outcome := clean (Outcome e);
  ErrorCode := clean (ErrorCode e); Method := clean (Method e); Route := clean (Route e);
  HttpStatus := HttpStatus e; Target := clean_target (Target e); IP := clean (IP e);
  UserAgent := clean (UserAgent e); RequestID := clean (RequestID e);
  PrevHash := PrevHash e; EHash := EHash e |}.

Definition with_link (e : AuditEntry) (seq : Z) (prev hash : string) : AuditEntry := {|
  Seq := seq; OccurredAt := OccurredAt e; ActorKind := ActorKind e; ActorID := ActorID e;
  ActorName := ActorName e; CredentialID := CredentialID e; SessionID := SessionID e;
  Action := Action e; Outcome := Outcome e; ErrorCode := ErrorCode e; Method := Method e;
  Route := Route e; HttpStatus := HttpStatus e; Target := Target e; IP := IP e;
  UserAgent := UserAgent e; RequestID := RequestID e; PrevHash := prev; EHash := hash |}.

(** ** Append *)

(** The columns with a size, in characters. *)
Definition fits (e : AuditEntry) : bool :=
  forallb (fun sw => (length (runes (fst sw)) <=? snd sw)%nat)
    [(ActorKind e, 16); (Action e, 64); (Outcome e, 16); (Method e, 16); (PrevHash e, 64); (EHash e, 64)]%nat.
(** INSERT under the primary key and the unique index on the hash. *)
Fixpoint insert_entry (e : AuditEntry) (log : list AuditEntry) : option (list AuditEntry) :=
  match log with
  | [] => Some [e]
  | x :: log =>
      if (Seq x =? Seq e) || bool_decide (EHash x = EHash e) then None
      else if Seq e <? Seq x
           then if existsb (fun y => bool_decide (EHash y = EHash e)) log then None else Some (e :: x :: log)
           else cons x <$> insert_entry e log
  end.

Definition linked (log : list AuditEntry) (now : Time) (e : AuditEntry) : AuditEntry :=
  let e := normalize now e in
  let '(last_seq, last_hash) := match last log with Some l => (Seq l, EHash l) | None => (0, "") end in
  let e := with_link e (GoInt.wrap64 (last_seq + 1)) (if 0 <? last_seq then last_hash else GenesisHash) (EHash e) in
  with_link e (Seq e) (PrevHash e) (Hash e).

(** [None]: the database refused, and the transaction is undone. *)
Definition Append (failed : bool) (log : list AuditEntry) (now : Time) (e : AuditEntry) : option (list AuditEntry) :=
  if failed then None
  else let e := linked log now e in if fits e then insert_entry e log else None.

(** ** Verify *)

Record Anchor := { ASeq : Z; AHash : string }.
Record Result := {
  OK : bool; Checked : Z; FirstSeq : Z; LastSeq : Z; LastHash : string;
  BrokenAtSeq : option Z; Reason : string; Note : string; RAnchor : option Anchor
}.
Record chain := { res : Result; prevSeq : Z; prevHash : string }.

Definition newChain (anchor : option Anchor) : chain := {|
  res := {| OK := true; Checked := 0; FirstSeq := 0; LastSeq := 0; LastHash := GenesisHash;
            BrokenAtSeq := None; Reason := ""; Note := ""; RAnchor := anchor |};
  prevSeq := 0; prevHash := GenesisHash |}.

Definition broken_at (r : Result) (seq : Z) (reason : string) : Result := {|
  OK := false; Checked := Checked r; FirstSeq := FirstSeq r; LastSeq := LastSeq r; LastHash := LastHash r;
  BrokenAtSeq := Some seq; Reason := reason; Note := Note r; RAnchor := RAnchor r |}.
Definition broken (c : chain) (e : AuditEntry) (reason : string) : chain * bool :=
  ({| res := broken_at (res c) (Seq e) reason; prevSeq := prevSeq c; prevHash := prevHash c |}, false).

Definition start (c : chain) (e : AuditEntry) : chain :=
  let r := res c in
  let r' note := {| OK := OK r; Checked := Checked r; FirstSeq := Seq e; LastSeq := LastSeq r;
                    LastHash := LastHash r; BrokenAtSeq := BrokenAtSeq r; Reason := Reason r;
                    Note := note; RAnchor := RAnchor r |} in
  if 1 <? Seq e
  then {| res := r' ("the log starts at seq " +:+ itoa (Seq e) +:+ "; the check starts from that entry's prev_hash");
          prevSeq := GoInt.wrap64 (Seq e - 1); prevHash := PrevHash e |}
  else {| res := r' (Note r); prevSeq := prevSeq c; prevHash := prevHash c |}.
Definition off_anchor (anchor : option Anchor) (e : AuditEntry) : bool :=
  match anchor with
  | Some a => (Seq e =? ASeq a) && negb (bool_decide (EHash e = AHash a))
  | None => false
  end.
Definition add (c : chain) (e : AuditEntry) : chain * bool :=
  if negb (OK (res c)) then (c, false)
  else
    let c := if Checked (res c) =? 0 then start c e else c in
    if negb (Seq e =? GoInt.wrap64 (prevSeq c + 1)) then
      broken c e ("expected seq " +:+ itoa (GoInt.wrap64 (prevSeq c + 1)) +:+ ", found " +:+ itoa (Seq e))
    else if negb (bool_decide (PrevHash e = prevHash c)) then
      broken c e "prev_hash is not the hash of the entry before"
    else if negb (bool_decide (Hash e = EHash e)) then
      broken c e "hash does not match the entry's contents"
    else if off_anchor (RAnchor (res c)) e then
      broken c e "hash does not match the anchor: the log was rewritten up to here"
    else
      let r := res c in
      ({| res := {| OK := OK r; Checked := GoInt.wrap64 (Checked r + 1); FirstSeq := FirstSeq r;
                    LastSeq := Seq e; LastHash := EHash e; BrokenAtSeq := BrokenAtSeq r;
                    Reason := Reason r; Note := Note r; RAnchor := RAnchor r |};
          prevSeq := Seq e; prevHash := EHash e |}, true).

Definition finish (c : chain) : Result :=
  let r := res c in
  match RAnchor r with
  | None => r
  | Some a =>
      if negb (OK r) then r
      else if Checked r =? 0 then
        broken_at r (ASeq a) ("the log is empty, but the anchor is at seq " +:+ itoa (ASeq a))
      else if ASeq a <? FirstSeq r then
        broken_at r (ASeq a) ("the log starts at seq " +:+ itoa (FirstSeq r) +:+ ", after the anchor at seq "
                              +:+ itoa (ASeq a))
      else if LastSeq r <? ASeq a then
        broken_at r (ASeq a) ("the log ends at seq " +:+ itoa (LastSeq r) +:+ ", before the anchor at seq "
                              +:+ itoa (ASeq a))
      else r
  end.

(** The loop over entries: it stops at the first that does not hold. *)
Fixpoint add_all (c : chain) (es : list AuditEntry) : chain * bool :=
  match es with
  | [] => (c, true)
  | e :: es => let '(c, ok) := add c e in if ok then add_all c es else (c, false)
  end.
Definition VerifyAnchored (es : list AuditEntry) (anchor : option Anchor) : Result :=
  finish (fst (add_all (newChain anchor) es)).
Definition Verify (es : list AuditEntry) : Result := VerifyAnchored es None.

Definition verifyBatch : nat := 1000.
Inductive check := Found (r : Result) | Failed | Running.
(** One query a turn; [fails n]: the database refuses the [n]th. [Running]: the fuel ran out. *)
Fixpoint verify_loop (fuel : nat) (fails : nat -> bool) (n : nat) (log : list AuditEntry) (c : chain) : check :=
  match fuel with
  | O => Running
  | S fuel =>
      if fails n then Failed
      else
        let rows := if 0 <? Checked (res c) then List.filter (fun e => prevSeq c <? Seq e) log else log in
        let batch := take verifyBatch rows in
        let '(c, ok) := add_all c batch in
        if negb ok then Found (res c)
        else if (length batch <? verifyBatch)%nat then Found (finish c)
        else verify_loop fuel fails (S n) log c
  end.
Definition VerifyDBAnchored (fuel : nat) (fails : nat -> bool) (log : list AuditEntry) (anchor : option Anchor) : check :=
  verify_loop fuel fails 0 log (newChain anchor).
End Audit.
