(* ===== verification/AuditFacts.v ===== *)
(** * The audit log is a chain nobody can quietly rewrite

    Entries stay as they were hashed ([normalize] is idempotent), appending keeps the chain,
    reading the table in batches checks what reading it at once does, and two logs that hold
    against one anchor are the same up to it, unless SHA-256 collided on two entries that can
    be pointed at. *)

From S2P Require Import Prelude GoTime GoStrings GoDate GoCodec AuditLog.
From Stdlib Require Import Ascii.
Import GoTime GoStrings GoDate Codec CodecFacts Audit.
Local Open Scope Z_scope.

Module AuditFacts.

(** ** One step of the check *)

Definition step_ok (anchor : option Anchor) (seq : Z) (hash : string) (e : AuditEntry) : bool :=
  (Seq e =? GoInt.wrap64 (seq + 1)) && bool_decide (PrevHash e = hash) && bool_decide (Hash e = EHash e)
  && negb (off_anchor anchor e).
Definition advance (c : chain) (e : AuditEntry) : chain :=
  let r := res c in
  {| res := {| OK := OK r; Checked := GoInt.wrap64 (Checked r + 1); FirstSeq := FirstSeq r;
               LastSeq := Seq e; LastHash := EHash e; BrokenAtSeq := BrokenAtSeq r;
               Reason := Reason r; Note := Note r; RAnchor := RAnchor r |};
     prevSeq := Seq e; prevHash := EHash e |}.
Definition entered (c : chain) (e : AuditEntry) : chain := if Checked (res c) =? 0 then start c e else c.

Lemma entered_same c e : OK (res (entered c e)) = OK (res c) /\ RAnchor (res (entered c e)) = RAnchor (res c)
  /\ Checked (res (entered c e)) = Checked (res c).
Proof. unfold entered, start. by repeat case_match. Qed.

(** [add] answers true just when the entry follows, and false with a broken result. *)
Lemma add_spec c e :
  let d := entered c e in
  (OK (res c) = true /\ step_ok (RAnchor (res d)) (prevSeq d) (prevHash d) e = true /\ add c e = (advance d e, true))
  \/ ((OK (res c) = false \/ step_ok (RAnchor (res d)) (prevSeq d) (prevHash d) e = false)
      /\ (add c e).2 = false /\ OK (res (add c e).1) = false).
Proof.
  intros d. unfold add, step_ok. fold (entered c e). fold d.
  destruct (OK (res c)) eqn:O; [|by right; cbn; rewrite O; auto]. cbn [negb].
  destruct (Seq e =? _); [|by right; cbn; auto].
  destruct (bool_decide (PrevHash e = _)); [|by right; cbn; auto].
  destruct (bool_decide (Hash e = _)); [|by right; cbn; auto].
  destruct (off_anchor _ e); [by right; cbn; auto|]. left. done.
Qed.

Lemma add_all_app c xs ys : add_all c (xs ++ ys)
  = (let '(d, ok) := add_all c xs in if ok then add_all d ys else (d, false)).
Proof.
  revert c. induction xs as [|x xs IH]; intros c; [done|]. simpl. destruct (add c x) as [d []]; [apply IH|done].
Qed.
Lemma add_all_broken c es : (add_all c es).2 = false -> OK (res (add_all c es).1) = false.
Proof.
  revert c. induction es as [|e es IH]; intros c; [done|]. simpl.
  destruct (add_spec c e) as [(_ & _ & ->)|(_ & E & O)]; [apply IH|]. destruct (add c e) as [d []]; done.
Qed.
Lemma finish_broken c : OK (res c) = false -> finish c = res c.
Proof. intros O. unfold finish. rewrite O. by destruct (RAnchor _). Qed.

(** ** In batches or at once *)

Record held (done : list AuditEntry) (c : chain) : Prop := {
  held_count : Checked (res c) = Z.of_nat (length done);
  held_last : forall e, last done = Some e -> prevSeq c = Seq e
}.
Lemma held_add_all c xs ys : Z.of_nat (length (xs ++ ys)) < 2 ^ 63 -> held xs c -> (add_all c ys).2 = true ->
  held (xs ++ ys) (add_all c ys).1.
Proof.
  revert c xs. induction ys as [|y ys IH]; intros c xs B H; simpl; [by rewrite app_nil_r|].
  destruct (add_spec c y) as [(_ & _ & E)|(_ & E & _)]; [|destruct (add c y) as [d []]; done].
  rewrite E. intros A. rewrite (cons_middle y xs ys), app_assoc in B |- *. apply IH; [done| |done].
  destruct (entered_same c y) as (_ & _ & N). split.
  - cbn. rewrite N, (held_count _ _ H). rewrite !length_app in *. cbn in *.
    rewrite GoInt.wrap64_id; [lia|]. unfold GoInt.in64, GoInt.min_int64, GoInt.max_int64. lia.
  - intros e. rewrite last_snoc. intros L. by injection L as <-.
Qed.

Definition by_seq (log : list AuditEntry) : Prop := StronglySorted (fun x y => Seq x < Seq y) log.

Lemma filter_none (q : Z) (l : list AuditEntry) : (forall y, y ∈ l -> Seq y <= q) ->
  List.filter (fun e => q <? Seq e) l = [].
Proof.
  induction l as [|y l IH]; intros H; [done|]. simpl. rewrite (proj2 (Z.ltb_ge _ _)) by (apply H; left).
  apply IH. intros z Z. apply H. by right.
Qed.
Lemma filter_all (q : Z) (l : list AuditEntry) : (forall y, y ∈ l -> q < Seq y) ->
  List.filter (fun e => q <? Seq e) l = l.
Proof.
  induction l as [|y l IH]; intros H; [done|]. simpl. rewrite (proj2 (Z.ltb_lt _ _)) by (apply H; left).
  f_equal. apply IH. intros z Z. apply H. by right.
Qed.

Lemma rows_after done rest c : by_seq (done ++ rest) -> held done c ->
  (if 0 <? Checked (res c) then List.filter (fun e => prevSeq c <? Seq e) (done ++ rest) else done ++ rest) = rest.
Proof.
  intros S H. rewrite (held_count _ _ H). destruct done as [|x0 d0]; [done|].
  rewrite (proj2 (Z.ltb_lt _ _)) by (cbn; lia).
  destruct (exists_last (l := x0 :: d0)) as (init & x & E); [done|]. rewrite E in *. clear x0 d0 E.
  rewrite (held_last _ _ H x) by apply last_snoc. rewrite List.filter_app. unfold by_seq in S.
  apply StronglySorted_app in S as (S1 & S2 & _).
  rewrite filter_none, filter_all; [done| |].
  - intros y Y. apply S1; [|done]. apply elem_of_app. right. by left.
  - intros y Y. apply StronglySorted_app in S2 as (S2 & _ & _).
    apply elem_of_app in Y as [Y|Y%list_elem_of_singleton]; [|by subst].
    specialize (S2 y x Y ltac:(by left)). lia.
Qed.

Lemma verify_loop_spec fuel n log done rest c :
  log = done ++ rest -> by_seq log -> Z.of_nat (length log) < 2 ^ 63 -> held done c ->
  (length rest < fuel * verifyBatch)%nat ->
  verify_loop fuel (fun _ => false) n log c = Found (finish (add_all c rest).1).
Proof.
  revert n done rest c. induction fuel as [|fuel IH]; intros n done rest c E S B H F; [simpl in F; lia|].
  cbn [verify_loop]. rewrite E, rows_after by (by rewrite <- ?E). rewrite <- (take_drop verifyBatch rest) at 2.
  rewrite add_all_app. pose proof (add_all_broken c (take verifyBatch rest)) as K.
  pose proof (held_add_all c done (take verifyBatch rest)) as G.
  destruct (add_all c (take verifyBatch rest)) as [d []] eqn:A; cbn [negb fst snd] in *.
  - destruct (length (take verifyBatch rest) <? verifyBatch)%nat eqn:L.
    + apply Nat.ltb_lt in L. rewrite length_take in L. rewrite drop_ge by lia. done.
    + apply Nat.ltb_ge in L. rewrite length_take in L. rewrite <- E.
      apply (IH _ (done ++ take verifyBatch rest)); [by rewrite <- app_assoc, take_drop|done|done| |].
      * apply G; [|done|done]. eapply Z.le_lt_trans; [|exact B]. rewrite E, !length_app, length_take. lia.
      * rewrite length_drop. rewrite Nat.mul_succ_l in F. lia.
  - by rewrite finish_broken by (by apply K).
Qed.

(** Checking the table a thousand rows at a time, each query starting after the last
    entry that held, ends, after one query more than there are full batches, and finds what
    checking all the rows at once finds: the same first entry that does not hold and the
    same reason, or the same head. *)
Theorem batches_agree (log : list AuditEntry) (anchor : option Anchor) (fuel : nat) :
  by_seq log -> Z.of_nat (length log) < 2 ^ 63 -> (length log < fuel * verifyBatch)%nat ->
  VerifyDBAnchored fuel (fun _ => false) log anchor = Found (VerifyAnchored log anchor).
Proof. intros S B F. by apply (verify_loop_spec fuel 0 log []). Qed.

(** ** What a log that holds looks like *)

Fixpoint follows (anchor : option Anchor) (seq : Z) (hash : string) (es : list AuditEntry) : bool :=
  match es with
  | [] => true
  | e :: es => step_ok anchor seq hash e && follows anchor (Seq e) (EHash e) es
  end.

Lemma entered_later c e : Checked (res c) <> 0 -> entered c e = c.
Proof. intros N. unfold entered. by rewrite (proj2 (Z.eqb_neq _ _)). Qed.

Lemma add_all_follows c es :
  OK (res c) = true -> 0 < Checked (res c) -> Checked (res c) + Z.of_nat (length es) < 2 ^ 63 ->
  (add_all c es).2 = follows (RAnchor (res c)) (prevSeq c) (prevHash c) es
  /\ (follows (RAnchor (res c)) (prevSeq c) (prevHash c) es = true ->
      let d := (add_all c es).1 in
      OK (res d) = true /\ RAnchor (res d) = RAnchor (res c) /\ FirstSeq (res d) = FirstSeq (res c)
      /\ Checked (res d) = Checked (res c) + Z.of_nat (length es)
      /\ LastSeq (res d) = match last es with Some e => Seq e | None => LastSeq (res c) end).
Proof.
  revert c. induction es as [|e es IH]; intros c O P B; [cbn; split; [done|]; intros _; split_and!; lia || done|].
  cbn [add_all follows]. pose proof (add_spec c e) as A. rewrite entered_later in A by lia.
  cbn [length] in B. destruct A as [(_ & K & ->)|([O'|K] & E & _)]; [|congruence|].
  - rewrite K. cbn [andb]. assert (W : GoInt.wrap64 (Checked (res c) + 1) = Checked (res c) + 1).
    { apply GoInt.wrap64_id. unfold GoInt.in64, GoInt.min_int64, GoInt.max_int64. lia. }
    destruct (IH (advance c e)) as [IH1 IH2]; [done|cbn; lia|cbn; lia|]. split; [exact IH1|].
    intros F. specialize (IH2 F). cbn [res RAnchor FirstSeq Checked LastSeq advance] in IH2. rewrite W in IH2.
    destruct IH2 as (I1 & I2 & I3 & I4 & I5). split_and!; [done..|cbn [length]; lia|].
    rewrite I5, last_cons. by destruct (last es).
  - rewrite K. cbn [andb]. destruct (add c e) as [d []]; done.
Qed.

(** A log from the first entry on that holds, in one condition. *)
Definition intact (anchor : option Anchor) (log : list AuditEntry) : Prop := follows anchor 0 GenesisHash log = true.

Lemma VerifyAnchored_intact log anchor : Z.of_nat (length log) < 2 ^ 63 ->
  let r := VerifyAnchored log anchor in
  FirstSeq r = 1 -> OK r = true ->
  intact anchor log /\ (forall a, anchor = Some a -> 1 <= ASeq a <= match last log with Some e => Seq e | None => 0 end).
Proof.
  unfold VerifyAnchored. intros B. destruct log as [|e es].
  { cbn. unfold finish. cbn. destruct anchor; done. }
  cbn [add_all]. destruct (add_spec (newChain anchor) e) as [(_ & K & ->)|(_ & E & O)].
  2:{ destruct (add (newChain anchor) e) as [d []]; [done|]. cbn in *. by rewrite finish_broken, O by done. }
  set (d := advance (entered (newChain anchor) e) e). cbn [length] in B.
  assert (D : OK (res d) = true /\ RAnchor (res d) = anchor /\ Checked (res d) = 1 /\ FirstSeq (res d) = Seq e
              /\ LastSeq (res d) = Seq e /\ prevSeq d = Seq e /\ prevHash d = EHash e).
  { unfold d, entered, start. cbn. destruct (1 <? Seq e); done. }
  destruct D as (D1 & D2 & D3 & D4 & D5 & D6 & D7).
  destruct (add_all_follows d es) as [A1 A2]; [done|lia|lia|]. rewrite D2, D6, D7 in A1, A2.
  destruct (follows anchor (Seq e) (EHash e) es) eqn:F.
  2:{ pose proof (add_all_broken d es A1) as O. rewrite finish_broken by done. cbn zeta. by rewrite O. }
  destruct (A2 eq_refl) as (O1 & O2 & O3 & O4 & O5). clear A2.
  assert (L : match last (e :: es) with Some e => Seq e | None => 0 end = LastSeq (res (add_all d es).1)).
  { rewrite O5, D5. rewrite last_cons. by destruct (last es). }
  rewrite L. unfold finish. rewrite O2. cbn zeta. intros F1 O. split.
  - assert (S1 : Seq e = 1).
    { destruct anchor as [a|]; [|by rewrite <- D4, <- O3]. rewrite O1 in *. cbn [negb] in *. rewrite <- D4, <- O3.
      revert F1. repeat case_match; done. }
    unfold intact. cbn [follows]. rewrite F, andb_true_r. unfold entered, start in K. cbn in K. rewrite S1 in K. exact K.
  - intros a ->. rewrite O1 in *. cbn [negb] in *. revert F1 O. rewrite O4, D3.
    rewrite (proj2 (Z.eqb_neq _ _)) by lia.
    destruct (ASeq a <? FirstSeq _) eqn:X1; [done|]. destruct (LastSeq _ <? ASeq a) eqn:X2; [done|].
    intros F1 _. bool_lia.
Qed.

Lemma wrap64_succ z : 0 <= z < 2 ^ 63 - 1 -> GoInt.wrap64 (z + 1) = z + 1.
Proof. intros B. apply GoInt.wrap64_id. unfold GoInt.in64, GoInt.min_int64, GoInt.max_int64. lia. Qed.

Lemma step_ok_spec anchor seq hash e : step_ok anchor seq hash e = true <->
  Seq e = GoInt.wrap64 (seq + 1) /\ PrevHash e = hash /\ Hash e = EHash e
  /\ (forall a, anchor = Some a -> Seq e = ASeq a -> EHash e = AHash a).
Proof.
  unfold step_ok, off_anchor. rewrite !andb_true_iff, Z.eqb_eq, !bool_decide_eq_true, negb_true_iff.
  destruct anchor as [a|]; [|naive_solver].
  rewrite andb_false_iff, Z.eqb_neq, negb_false_iff, bool_decide_eq_true. split.
  - intros (((A & B) & C) & D). split_and!; [done..|]. intros a' [= <-] Q. by destruct D.
  - intros (A & B & C & D). split_and!; [done..|]. destruct (decide (Seq e = ASeq a)); [right; by apply D|by left].
Qed.

(** Entry [i] of an intact run: its number, its link, its hash, and the anchor's if it is the anchor's. *)
Lemma follows_lookup anchor seq hash es i e :
  follows anchor seq hash es = true -> 0 <= seq -> seq + Z.of_nat (length es) < 2 ^ 63 -> es !! i = Some e ->
  Seq e = seq + Z.of_nat i + 1 /\ Hash e = EHash e
  /\ (forall a, anchor = Some a -> Seq e = ASeq a -> EHash e = AHash a)
  /\ PrevHash e = match i with O => hash | S j => match es !! j with Some p => EHash p | None => "" end end.
Proof.
  revert seq hash i. induction es as [|x es IH]; intros seq hash i F P B L; [done|].
  cbn [follows length] in *. apply andb_prop in F as [K F]. apply step_ok_spec in K as (K1 & K2 & K3 & K4).
  rewrite wrap64_succ in K1 by lia. destruct i as [|i].
  - injection L as <-. split_and!; [lia|done..].
  - destruct (IH _ _ i F) as (I1 & I2 & I3 & I4); [lia|lia|done|]. split_and!; [lia|done|done|].
    rewrite I4. by destruct i.
Qed.

(** ** What is hashed *)

(** An entry in its stored form: every text valid UTF-8. *)
Definition texts (e : AuditEntry) : list string :=
  [ActorKind e; ActorName e; SessionID e; Action e; Outcome e; ErrorCode e; Method e; Route e; IP e; UserAgent e;
   RequestID e; PrevHash e].
Definition storable (e : AuditEntry) : Prop :=
  Forall (fun s => ValidString s = true) (texts e)
  /\ map_Forall (fun k v => ValidString k = true /\ ValidString v = true) (Target e).

(** The same in everything but the hash, which is a function of the rest; the time as it is
    written. *)
Definition same_record (e e' : AuditEntry) : Prop :=
  Seq e = Seq e' /\ RFC3339Nano (OccurredAt e) = RFC3339Nano (OccurredAt e')
  /\ ActorID e = ActorID e' /\ CredentialID e = CredentialID e' /\ HttpStatus e = HttpStatus e'
  /\ Target e = Target e' /\ texts e = texts e'.

Lemma ValidString_ascii s : is_ascii s = true -> ValidString s = true.
Proof.
  unfold is_ascii, ValidString. induction s as [|a s IH]; [done|].
  cbn [sforall runes]. intros [A S]%andb_prop. rewrite A. cbn [forallb]. by rewrite IH.
Qed.
Lemma printable_ascii s : sforall printable s = true -> is_ascii s = true.
Proof. apply sforall_impl. intros a. by destruct a as [[] [] [] [] [] [] [] []]. Qed.
Lemma printable_RFC3339Nano t : sforall printable (RFC3339Nano t) = true.
Proof.
  unfold RFC3339Nano, date_time, ISODate, clock_text, fraction.
  assert (D : forall s, sforall printable s = true -> sforall printable (drop_zeros s) = true).
  { induction s as [|a s IH]; [done|]. cbn [drop_zeros sforall]. intros [A S]%andb_prop.
    destruct (bool_decide _); [by apply IH|]. cbn [sforall]. by rewrite A, S. }
  rewrite !sforall_app, !printable_pad. destruct (_ =? 0); [done|]. rewrite sforall_app, sforall_srev, D; [done|].
  by rewrite sforall_srev, printable_pad.
Qed.

Lemma hashed_valid e : storable e -> Forall valid_value (hashed e).
Proof.
  intros [T M]. unfold texts in T. apply valid_JMap in M. unfold hashed.
  repeat (apply Forall_cons in T as [? T]).
  repeat constructor; try done; [|by destruct (ActorID e)|by destruct (CredentialID e)].
  apply ValidString_ascii, printable_ascii, printable_RFC3339Nano.
Qed.

Lemma optionalID_inj x y : optionalID x = optionalID y -> x = y.
Proof. destruct x, y; simpl; congruence. Qed.
Lemma hashed_same e e' : hashed e = hashed e' -> same_record e e'.
Proof.
  unfold hashed, same_record, texts. intros E. injection E as -> -> -> A -> C -> -> -> -> -> -> -> -> -> -> -> ->.
  apply optionalID_inj in A as ->. apply optionalID_inj in C as ->. done.
Qed.

(** Two different records with one hash: a SHA-256 collision. *)
Definition collision (e e' : AuditEntry) : Prop :=
  hash_text e <> hash_text e' /\ Hash e = Hash e'.
Lemma Hash_inj e e' : storable e -> storable e' -> Hash e = Hash e' -> same_record e e' \/ collision e e'.
Proof.
  intros S S' H. destruct (String.string_dec (hash_text e) (hash_text e')) as [J|J]; [left|right; exact (conj J H)].
  exact (hashed_same _ _ (json_array_inj _ _ (hashed_valid _ S) (hashed_valid _ S') J)).
Qed.

(** From one entry with the same hash, back along the chain. *)
Lemma rewritten_back anchor log log' i e e' :
  intact anchor log -> intact anchor log' ->
  Z.of_nat (length log) < 2 ^ 63 -> Z.of_nat (length log') < 2 ^ 63 ->
  Forall storable log -> Forall storable log' ->
  log !! i = Some e -> log' !! i = Some e' -> EHash e = EHash e' ->
  Forall2 same_record (take (S i) log) (take (S i) log')
  \/ exists j x x', log !! j = Some x /\ log' !! j = Some x' /\ collision x x'.
Proof.
  intros I I' B B' S S'. revert e e'. induction i as [|i IH]; intros e e' L L' H.
  all: destruct (follows_lookup _ _ _ _ _ _ I ltac:(lia) ltac:(lia) L) as (_ & H1 & _ & P).
  all: destruct (follows_lookup _ _ _ _ _ _ I' ltac:(lia) ltac:(lia) L') as (_ & H1' & _ & P').
  all: destruct (Hash_inj e e' (Forall_lookup_1 _ _ _ _ S L) (Forall_lookup_1 _ _ _ _ S' L')
      (eq_trans H1 (eq_trans H (eq_sym H1')))) as [R|C]; [|right; by eexists _, e, e'].
  all: rewrite (take_S_r _ _ _ L), (take_S_r _ _ _ L').
  - left. constructor; [exact R|constructor].
  - destruct (lookup_lt_is_Some_2 log i) as [p Lp]; [apply lookup_lt_Some in L; lia|].
    destruct (lookup_lt_is_Some_2 log' i) as [p' Lp']; [apply lookup_lt_Some in L'; lia|].
    rewrite Lp in P. rewrite Lp' in P'.
    destruct (IH p p' Lp Lp') as [F|C]; [|left|by right].
    + destruct R as (_ & _ & _ & _ & _ & _ & T). apply (f_equal (fun l => nth 11 l "")) in T. simpl in T. congruence.
    + apply Forall2_app; [done|]. constructor; [exact R|constructor].
Qed.

(** C35: Nobody rewrites the log unnoticed. Whatever was done to the table, if it checks from
    entry 1 against an anchor taken of the true log, then up to the anchored entry it is the
    true log, entry for entry and field for field (so nothing there was changed, removed,
    inserted or reordered), unless the table and the true log hold, in one place, two
    different entries on which SHA-256 collides. *)
Theorem rewriting_is_noticed (true_log table : list AuditEntry) (a : Anchor) :
  Z.of_nat (length true_log) < 2 ^ 63 -> Z.of_nat (length table) < 2 ^ 63 ->
  Forall storable true_log -> Forall storable table ->
  let r := VerifyAnchored true_log (Some a) in let r' := VerifyAnchored table (Some a) in
  FirstSeq r = 1 -> OK r = true -> FirstSeq r' = 1 -> OK r' = true ->
  Forall2 same_record (take (Z.to_nat (ASeq a)) true_log) (take (Z.to_nat (ASeq a)) table)
  \/ exists j e e', true_log !! j = Some e /\ table !! j = Some e' /\ collision e e'.
Proof.
  intros B B' S S' r r' F O F' O'.
  destruct (VerifyAnchored_intact _ _ B F O) as [I A]. destruct (VerifyAnchored_intact _ _ B' F' O') as [I' A'].
  specialize (A a eq_refl). specialize (A' a eq_refl).
  assert (G : forall log, intact (Some a) log -> Z.of_nat (length log) < 2 ^ 63 ->
    1 <= ASeq a <= match last log with Some e => Seq e | None => 0 end ->
    exists e, log !! (Z.to_nat (ASeq a) - 1)%nat = Some e /\ EHash e = AHash a).
  { clear. intros log I B A. destruct (last log) as [z|] eqn:L; [|lia]. rewrite last_lookup in L.
    destruct (follows_lookup _ _ _ _ _ _ I ltac:(lia) ltac:(lia) L) as (Q & _).
    destruct (lookup_lt_is_Some_2 log (Z.to_nat (ASeq a) - 1)) as [e E]; [apply lookup_lt_Some in L; lia|].
    exists e. split; [done|].
    destruct (follows_lookup _ _ _ _ _ _ I ltac:(lia) ltac:(lia) E) as (Q' & _ & H & _). apply H; [done|lia]. }
  destruct (G _ I B A) as (e & L & H). destruct (G _ I' B' A') as (e' & L' & H').
  pose proof (rewritten_back _ _ _ _ _ _ I I' B B' S S' L L' ltac:(congruence)) as R.
  replace (Datatypes.S (Z.to_nat (ASeq a) - 1)) with (Z.to_nat (ASeq a)) in R by lia. exact R.
Qed.

(** ** The stored form *)

(** Text put together from well-formed runes, none of them NUL, at most [maxText] of them. *)
Definition stored_chunk (c : string) : Prop := solid c /\ c <> String nul "".
Definition stored_text (s : string) : Prop :=
  exists cs, s = concat_all cs /\ Forall stored_chunk cs /\ (length cs <= maxText)%nat.

Lemma solid_all cs : Forall stored_chunk cs -> Forall solid cs.
Proof. intros F. apply (Forall_impl _ _ _ F). by intros c []. Qed.

Lemma ToValidUTF8_chunks s : exists cs, ToValidUTF8 s rune_error = concat_all cs /\ Forall solid cs.
Proof.
  unfold ToValidUTF8. generalize false. pose proof (runes_solid s) as F.
  induction F as [|[c|] rs S F IH]; intros bad; [by exists []|..]; cbn [valid_runes].
  - destruct (IH false) as (cs & -> & G). exists (c :: cs). by split; [|constructor].
  - destruct (IH true) as (cs & -> & G). destruct bad; [by exists cs|].
    exists (rune_error :: cs). split; [done|]. constructor; [apply solid_rune_error|done].
Qed.
Lemma replace_nul_chunks cs : Forall solid cs -> exists ds,
  replace_nul (concat_all cs) = concat_all ds /\ Forall stored_chunk ds.
Proof.
  intros F. unfold replace_nul. rewrite runes_concat by done.
  exists ((fun c => if bool_decide (c = String nul "") then rune_error else c) <$> cs). split.
  - rewrite <- list_fmap_compose. f_equal. apply list_fmap_ext. intros i c _. cbn.
    destruct (decide (c = String nul "")) as [->|N]; [done|]. rewrite !bool_decide_eq_false_2 by congruence. done.
  - apply Forall_fmap. apply (Forall_impl _ _ _ F). intros c S. cbn.
    destruct (decide (c = String nul "")) as [->|N].
    + split; [apply solid_rune_error|done].
    + by rewrite bool_decide_eq_false_2.
Qed.

Lemma clean_stored s : stored_text (clean s).
Proof.
  unfold clean. destruct (ToValidUTF8_chunks s) as (cs & -> & F).
  destruct (replace_nul_chunks cs F) as (ds & -> & G). rewrite runes_concat by by apply solid_all.
  rewrite length_fmap. destruct (maxText <? length ds)%nat eqn:L.
  - exists (take maxText ds). split_and!; [|by apply Forall_take|rewrite length_take; lia].
    unfold first_runes. rewrite runes_concat by by apply solid_all. rewrite <- list_fmap_compose. change (write_rune ∘ Rune) with (@id string). by rewrite list_fmap_id.
  - exists ds. split_and!; [done..|bool_lia].
Qed.

Lemma stored_runes cs bad : Forall solid cs -> valid_runes rune_error bad (Rune <$> cs) = concat_all cs.
Proof. intros F. revert bad. induction F as [|c cs C F IH]; intros bad; [done|]. cbn. by rewrite IH. Qed.

Lemma clean_stored_id s : stored_text s -> clean s = s.
Proof.
  intros (cs & -> & F & L). pose proof (solid_all _ F) as S. unfold clean, ToValidUTF8.
  assert (E : (fun r => if bool_decide (r = Rune (String nul "")) then rune_error else write_rune r)
                <$> (Rune <$> cs) = cs).
  { rewrite <- list_fmap_compose. transitivity (id <$> cs); [|apply list_fmap_id].
    apply list_fmap_ext. intros i c I. cbn. rewrite bool_decide_eq_false_2; [done|].
    intros Q. injection Q as Q. by apply (proj1 (Forall_forall _ _) F c (list_elem_of_lookup_2 _ _ _ I)). }
  assert (R : replace_nul (concat_all cs) = concat_all cs) by (unfold replace_nul; by rewrite runes_concat, E).
  rewrite (runes_concat cs S), (stored_runes cs _ S), R, (runes_concat cs S), length_fmap.
  by rewrite (proj2 (Nat.ltb_ge _ _)).
Qed.
Lemma clean_idem s : clean (clean s) = clean s.
Proof. apply clean_stored_id, clean_stored. Qed.
Lemma clean_valid s : ValidString (clean s) = true.
Proof. destruct (clean_stored s) as (cs & -> & F & _). by apply ValidString_concat, solid_all. Qed.

Lemma clean_target_valid t : map_Forall (fun k v => ValidString k = true /\ ValidString v = true) (clean_target t).
Proof.
  unfold clean_target. intros k v E. apply elem_of_list_to_map_2, list_elem_of_fmap in E as ([k' v'] & E & _).
  injection E as -> ->. split; apply clean_valid.
Qed.

(** ** Appending *)

Lemma intact_verifies log : Z.of_nat (length log) < 2 ^ 63 -> intact None log ->
  OK (Verify log) = true /\ Checked (Verify log) = Z.of_nat (length log).
Proof.
  unfold Verify, VerifyAnchored, intact. intros B I. destruct log as [|e es]; [done|].
  cbn [follows add_all length] in *. apply andb_prop in I as [K F].
  pose proof (proj1 (step_ok_spec _ _ _ _) K) as (K1 & _). change (GoInt.wrap64 (0 + 1)) with 1 in K1.
  set (d := entered (newChain None) e).
  assert (D : OK (res d) = true /\ RAnchor (res d) = None /\ Checked (res d) = 0 /\ prevSeq d = 0 /\ prevHash d = GenesisHash).
  { unfold d, entered, start. cbn. by rewrite K1. }
  destruct D as (D1 & D2 & D3 & D4 & D5). destruct (add_spec (newChain None) e) as [(_ & _ & ->)|([O|N] & _)]; [|done|].
  2:{ fold d in N. rewrite D2, D4, D5 in N. congruence. }
  fold d. destruct (add_all_follows (advance d e) es) as [_ A]; cbn [OK res Checked advance]; [done|by rewrite D3| |].
  { rewrite D3. change (1 + Z.of_nat (length es) < 2 ^ 63). lia. }
  cbn [RAnchor res advance prevSeq prevHash Checked] in A. rewrite D2, D3 in A.
  specialize (A F) as (A1 & A2 & _ & A4 & _). unfold finish. rewrite A2. split; [done|]. rewrite A4.
  change (1 + Z.of_nat (length es) = Z.of_nat (Datatypes.S (length es))). lia.
Qed.

Lemma follows_app anchor seq hash xs y :
  follows anchor seq hash (xs ++ [y]) =
  follows anchor seq hash xs
  && match last xs with Some x => step_ok anchor (Seq x) (EHash x) y | None => step_ok anchor seq hash y end.
Proof.
  revert seq hash. induction xs as [|x xs IH]; intros seq hash; cbn [app follows]; [by rewrite andb_true_r|].
  rewrite IH, last_cons, andb_assoc. by destruct (last xs).
Qed.

Lemma intact_last log x : Z.of_nat (length log) < 2 ^ 63 -> intact None log -> last log = Some x ->
  Seq x = Z.of_nat (length log) /\ EHash x = Hash x.
Proof.
  intros B I L. rewrite last_lookup in L.
  destruct (follows_lookup _ _ _ _ _ _ I ltac:(lia) ltac:(lia) L) as (Q & H & _).
  apply lookup_lt_Some in L. split; [lia|done].
Qed.

Lemma linked_follows log now e : Z.of_nat (length log) < 2 ^ 63 -> intact None log ->
  intact None (log ++ [linked log now e]) .
Proof.
  intros B I. unfold intact in *. rewrite follows_app, I. cbn [andb].
  assert (H : Hash (linked log now e) = EHash (linked log now e)) by (unfold linked; by destruct (last log)).
  assert (G : forall s h, Seq (linked log now e) = GoInt.wrap64 (s + 1) -> PrevHash (linked log now e) = h ->
    step_ok None s h (linked log now e) = true).
  { intros s h S P. apply step_ok_spec. split_and!; [done..|]. intros a Q. discriminate Q. }
  clear H. destruct (last log) as [x|] eqn:L.
  - destruct (intact_last _ _ B I L) as [Q _]. apply G; unfold linked; rewrite L; [done|]. cbn.
    rewrite (proj2 (Z.ltb_lt _ _)); [done|]. apply last_Some in L as (init & ->). rewrite length_app in Q. cbn in Q. lia.
  - apply G; unfold linked; by rewrite L.
Qed.

Lemma insert_entry_end e log log' : (forall x, x ∈ log -> Seq x < Seq e) ->
  insert_entry e log = Some log' -> log' = log ++ [e].
Proof.
  revert log'. induction log as [|x log IH]; intros log' S E; [by injection E as <-|]. cbn [insert_entry] in E.
  pose proof (S x (list_elem_of_here _ _)) as Sx.
  rewrite (proj2 (Z.eqb_neq _ _)), (proj2 (Z.ltb_ge (Seq e) (Seq x))) in E by lia. cbn [orb] in E.
  destruct (bool_decide _); [done|]. destruct (insert_entry e log) as [l|]; [|done]. injection E as <-.
  cbn. f_equal. apply IH; [|done]. intros y Y. apply S. by right.
Qed.

(** A hash is ASCII text. *)
Lemma Forall_big_endian n z : Forall (fun b => 0 <= b < 256) (Sha256.big_endian n z).
Proof.
  revert z. induction n as [|n IH]; intros z; [constructor|]. cbn [Sha256.big_endian].
  apply Forall_app. split; [apply IH|]. repeat constructor; apply Z.mod_pos_bound; lia.
Qed.
Lemma is_ascii_hex bs : Forall (fun b => 0 <= b < 256) bs -> is_ascii (EncodeToString bs) = true.
Proof.
  assert (D : forall n, 0 <= n < 16 -> is_ascii_byte (hex_digit n) = true).
  { intros n N. unfold is_ascii_byte, hex_digit, byte. apply Nat.ltb_lt.
    destruct (n <? 10) eqn:L; rewrite nat_ascii_embedding; bool_lia. }
  intros F. unfold is_ascii, EncodeToString. apply sforall_concat_all, Forall_fmap.
  apply (Forall_impl _ _ _ F). intros b R.
  change (sforall is_ascii_byte (hex_byte b) = true). unfold hex_byte. cbn [sforall]. rewrite !D; [done| |]; [apply Z.mod_pos_bound; lia|]. split; [apply Z.div_pos; lia|apply Z.div_lt_upper_bound; lia].
Qed.
Lemma is_ascii_Hash e : is_ascii (Hash e) = true.
Proof.
  unfold Hash. apply is_ascii_hex. unfold Sha256.Sum256. cbv zeta. generalize (fold_left Sha256.compress).
  intros f. cbn [flat_map]. rewrite !Forall_app. split_and!; try apply Forall_big_endian. constructor.
Qed.

Lemma texts_linked log now e : texts (linked log now e) =
  (clean <$> [(if bool_decide (ActorKind e = "") then AuditActorAnonymous else ActorKind e); ActorName e; SessionID e;
              Action e; Outcome e; ErrorCode e; Method e; Route e; IP e; UserAgent e; RequestID e])
  ++ [PrevHash (linked log now e)].
Proof. unfold linked. by destruct (last log). Qed.
Lemma Target_linked log now e : Target (linked log now e) = clean_target (Target e).
Proof. unfold linked. by destruct (last log). Qed.

Lemma PrevHash_linked log now e : PrevHash (linked log now e) =
  match last log with Some l => if 0 <? Seq l then EHash l else GenesisHash | None => GenesisHash end.
Proof. unfold linked. by destruct (last log). Qed.

Lemma linked_storable log now e : Z.of_nat (length log) < 2 ^ 63 -> intact None log -> storable (linked log now e).
Proof.
  intros B I. assert (P : ValidString (PrevHash (linked log now e)) = true).
  { rewrite PrevHash_linked. destruct (last log) as [x|] eqn:L; [|done]. destruct (0 <? Seq x); [|done].
    destruct (intact_last _ _ B I L) as [_ ->]. apply ValidString_ascii, is_ascii_Hash. }
  split.
  - rewrite texts_linked. apply Forall_app. split; [|by constructor]. apply Forall_fmap, Forall_true.
    intros s. apply clean_valid.
  - rewrite Target_linked. apply clean_target_valid.
Qed.

Lemma Append_spec failed log now e log' : Z.of_nat (length log) < 2 ^ 63 - 1 -> intact None log ->
  Append failed log now e = Some log' -> log' = log ++ [linked log now e].
Proof.
  unfold Append. intros B I E. destruct failed; [done|]. cbv zeta in E. destruct (fits _); [|done].
  apply insert_entry_end in E; [done|]. intros x X. apply list_elem_of_lookup in X as [i X].
  pose proof (lookup_lt_Some _ _ _ X) as R.
  destruct (follows_lookup _ _ _ _ _ _ I ltac:(lia) ltac:(lia) X) as (Q & _).
  unfold linked. destruct (last log) as [l|] eqn:L.
  - destruct (intact_last log l ltac:(lia) I L) as [Ql _]. cbn [Seq with_link].
    rewrite Ql, wrap64_succ; lia.
  - apply last_None in L as ->. done.
Qed.

(** The tables REST Mail can make: it only ever appends, with whatever entry and clock, and
    an append that fails leaves the table alone. *)
Inductive grown : list AuditEntry -> Prop :=
| grown_empty : grown []
| grown_append log failed now e log' : grown log -> Append failed log now e = Some log' -> grown log'.

Lemma grown_intact log : grown log -> Z.of_nat (length log) < 2 ^ 63 -> intact None log /\ Forall storable log.
Proof.
  induction 1 as [|log failed now e log' G IH E]; intros B; [by split|].
  destruct (decide (Z.of_nat (length log) < 2 ^ 63 - 1)) as [B'|B'].
  - destruct (IH ltac:(lia)) as [I S]. rewrite (Append_spec _ _ _ _ _ B' I E). split.
    + apply linked_follows; [lia|done].
    + apply Forall_app. split; [done|]. constructor; [|constructor]. apply linked_storable; [lia|done].
  - exfalso. assert (L : length log' = Datatypes.S (length log)); [|lia].
    clear -E. unfold Append in E. destruct failed; [done|]. destruct (fits _); [|done]. revert E.
    generalize (linked log now e). intros x. revert log'. induction log as [|y log IH]; intros log' E; [by injection E as <-|].
    cbn [insert_entry] in E. destruct (_ || _); [done|]. destruct (Seq x <? Seq y).
    + destruct (existsb _ _); [done|]. by injection E as <-.
    + destruct (insert_entry x log) as [l|]; [|done]. injection E as <-. cbn. f_equal. by apply IH.
Qed.

(** The log REST Mail writes always checks: after any appends, each with any entry, the
    table verifies from entry 1 to the last, counts every row, and holds only text that can
    be hashed and stored unchanged; and one more append leaves every entry already there as
    and where it was, adding the entry itself, cleaned, at the end. *)
Theorem appended_log_holds (log : list AuditEntry) :
  grown log -> Z.of_nat (length log) < 2 ^ 63 - 1 ->
  OK (Verify log) = true /\ Checked (Verify log) = Z.of_nat (length log) /\ Forall storable log
  /\ forall failed now e log', Append failed log now e = Some log' -> log' = log ++ [linked log now e].
Proof.
  intros G B. destruct (grown_intact log G ltac:(lia)) as [I S].
  destruct (intact_verifies log ltac:(lia) I) as [V C]. split_and!; [done..|].
  intros failed now e log' E. exact (Append_spec _ _ _ _ _ B I E).
Qed.
End AuditFacts.
