(* ===== verification/GrantStore.v ===== *)
(** * Grants in the database: internal/grants

    The tables of internal/db/models (rbac.go, grant.go, grant_activation.go) and what is
    read from them: what an account holds, its owners above it and the accounts it owns below
    (held.go), the server's ceiling (server.go, server_ceiling.go) and the gate on receiving
    (receive.go). [GrantChange] changes them. [broken] names the statements the database
    refuses. An ORDER BY that only orders the entries of a [Held], which is a set to whoever
    reads it, is left out. *)

From S2P Require Import Prelude GoTime GoStrings Grants AuditLog.
From Stdlib Require Import Ascii.
Import GoTime GoStrings Scope Held.
Local Open Scope Z_scope.

Module GrantStore.

Definition GrantHolderAccount : string := "account".
Definition GrantHolderServer : string := "server".
Definition ServerHolderID : Z := 1.
Definition RoleServer : string := "server".
Definition RoleOwner : string := "owner".
Definition RoleReceiver : string := "receiver".
Definition RoleImporter : string := "importer".
Definition GrantActive : string := "active".
Definition GrantEligible : string := "eligible".
Definition CredentialKindTOTP : string := "totp".

Record Account := { AcID : Z; AcAddress : string; AcActive : bool; OwnerID : option Z }.
Record Role := { RlID : Z; RlName : string; SystemRole : bool }.
Record CapabilityRow := { CapID : Z; CapName : string }.
Record Grant := {
  GID : Z;
  HolderKind : string;
  HolderID : Z;
  RoleID : Z;
  GScope : string;
  Mode : string;
  GrantedByKind : string;
  GrantedByID : option Z;
  GrantedAt : Time;
  GExpiresAt : option Time
}.
Record GrantActivation := {
  ActID : Z;
  ActGrantID : Z;
  ActivatedAt : Time;
  AExpiresAt : Time;
  AReason : string;
  EndedAt : option Time
}.
Record Credential := { CrKind : string; CrAccount : Z; ConfirmedAt : option Time; RevokedAt : option Time }.

Record GDB := {
  accounts : list Account;
  roles : list Role;
  next_role : Z;
  capabilities : list CapabilityRow;
  role_capabilities : list (Z * Z);   (* role, capability *)
  grants : list Grant;
  next_grant : Z;
  activations : list GrantActivation;
  next_activation : Z;
  credentials : list Credential;
  audit_log : list Audit.AuditEntry
}.

Inductive stmt :=
| QGrants (account : Z) | QOwn (account : Z) | QOwnerActive (owner : Z)
| QBelowOwner (address : string) | QChildren (owner : Z) | QChildGrants (owner : Z) (scope : string)
| QRoleCapabilities (role : Z) | QServerGrants | QVocabulary
| QServerRole | QInsertGrant | QLiveActivation | QDeleteActivations | QDeleteGrant | QRemaining
| QTotp | QHolderActive | QAudit | QExpired | QExpiredGrant | QEndActivation | QInsertActivation | QSetMode
| QFindServerRole | QClearServer | QFillServer | QRestoreServer | QInsertServer
| QInsertRole | QFindCapability | QInsertRoleCapability | QFindRole.
#[export] Instance stmt_eq : EqDecision stmt.
Proof. solve_decision. Defined.
Definition sound : stmt -> bool := fun _ => false.

(** ** Joins *)

(** The capabilities of a role: role_capabilities joined with capabilities. *)
Definition caps_of (db : GDB) (role : Z) : list string :=
  role_capabilities db ≫= fun rc =>
    if fst rc =? role
    then CapName <$> List.filter (fun c => CapID c =? snd rc) (capabilities db) else [].
Definition roles_of (db : GDB) (role : Z) : list string :=
  RlName <$> List.filter (fun r => RlID r =? role) (roles db).

Definition unexpired (at_ : option Time) (now : Time) : bool :=
  match at_ with None => true | Some t => now <? t end.
(** [ended_at IS NULL AND expires_at > now]. *)
Definition running (now : Time) (a : GrantActivation) : bool :=
  match EndedAt a with None => now <? AExpiresAt a | Some _ => false end.
Definition live (db : GDB) (grant : Z) (now : Time) : list GrantActivation :=
  List.filter (fun a => (ActGrantID a =? grant) && running now a) (activations db).

Record HeldRow := {
  HScope : string; HCapability : string; HRole : string;
  HExpires : option Time; HActivation : option Time
}.

(** [g.mode = active OR (g.mode = eligible AND a.id IS NOT NULL)]. *)
Definition mode_counts (g : Grant) (a : option GrantActivation) : bool :=
  bool_decide (Mode g = GrantActive)
  || (bool_decide (Mode g = GrantEligible) && match a with Some _ => true | None => false end).
(** The LEFT JOIN of a grant with its live activations. *)
Definition left_join {A} (l : list A) : list (option A) := match l with [] => [None] | _ => Some <$> l end.

Definition grant_rows (db : GDB) (now : Time) (g : Grant) : list HeldRow :=
  if negb (unexpired (GExpiresAt g) now) then []
  else
    left_join (live db (GID g) now) ≫= fun a =>
      if negb (mode_counts g a) then []
      else caps_of db (RoleID g) ≫= fun c =>
        roles_of db (RoleID g) ≫= fun r =>
          [ {| HScope := GScope g; HCapability := c; HRole := r; HExpires := GExpiresAt g;
               HActivation := AExpiresAt <$> a |} ].
Definition held_by (account : Z) (g : Grant) : bool :=
  bool_decide (HolderKind g = GrantHolderAccount) && (HolderID g =? account).
Definition held_rows (db : GDB) (account : Z) (now : Time) : list HeldRow :=
  List.filter (held_by account) (grants db) ≫= grant_rows db now.

Definition active_account (db : GDB) (id : Z) : list Account :=
  List.filter (fun a => (AcID a =? id) && AcActive a) (accounts db).

(** The earlier of two expiries, [None] for never. *)
Definition sooner (a b : option Time) : option Time :=
  match a, b with
  | Some x, Some y => Some (if Before y x then y else x)
  | Some x, None => Some x
  | None, b => b
  end.
Definition rows_expire (rows : list HeldRow) : option Time :=
  fold_left (fun e r => sooner (sooner e (HExpires r)) (HActivation r)) rows None.

(** ** What an account holds *)

Inductive trouble := Database | OutOfFuel.
Definition maxOwnerDepth : nat := 8.

Section Load.
Context `{Unicode} (broken : stmt -> bool) (db : GDB) (now : Time).

Definition active_children (owner : Z) : list Account :=
  List.filter (fun a => bool_decide (OwnerID a = Some owner) && AcActive a) (accounts db).
(** The owner-role rows of [owner] at [scope]. *)
Definition owner_rows (owner : Z) (scope : string) : list HeldRow :=
  List.filter (fun r => bool_decide (HScope r = scope) && bool_decide (HRole r = RoleOwner)) (held_rows db owner now).

Fixpoint ownedBelow (fuel : nat) (address : string) (caps : list string) (depth : nat) (visited : list string)
  : result trouble (list Entry * option Time) :=
  if bool_decide (address ∈ visited) || (maxOwnerDepth <=? depth)%nat || bool_decide (caps = [])
  then Ok ([], None)
  else match fuel with
  | O => Err OutOfFuel
  | S fuel =>
      if broken (QBelowOwner address) then Err Database
      else match List.filter (fun a => bool_decide (AcAddress a = address) && AcActive a) (accounts db) with
           | [owner] =>
               if broken (QChildren (AcID owner)) then Err Database
               else
                 (fix children (cs : list Account) : result trouble (list Entry * option Time) :=
                    match cs with
                    | [] => Ok ([], None)
                    | child :: cs =>
                        let scope := Mailbox (AcAddress child) in
                        if broken (QChildGrants (AcID owner) scope) then Err Database
                        else
                          let rows := owner_rows (AcID owner) scope in
                          let kept := List.filter (fun c => bool_decide (c ∈ HCapability <$> rows)) caps in
                          below ← ownedBelow fuel (AcAddress child) kept (S depth) (address :: visited);
                          rest ← children cs;
                          Ok (((fun c => {| EScope := scope; Capability := c |}) <$> kept) ++ fst below ++ fst rest,
                              sooner (sooner (rows_expire rows) (snd below)) (snd rest))
                    end) (active_children (AcID owner))
           | _ => Ok ([], None)
           end
  end.

(** The implicit capabilities on one's own mailbox. *)
Definition implicit (own : Account) : list Entry :=
  (fun c => {| EScope := Mailbox (AcAddress own); Capability := c |})
    <$> List.filter (fun c => negb (bool_decide (c = CapMailReceive) || bool_decide (c = CapMailImport)))
          OwnerCapabilities.

(** The owner grants of one's rows: each mailbox's address, with its capabilities. *)
Definition owned_scope (r : HeldRow) : option string :=
  if bool_decide (HRole r = RoleOwner) then cut_prefix mailboxPrefix (HScope r) else None.
Definition owned (rows : list HeldRow) : list (string * list string) :=
  (fun address => (address, HCapability <$> List.filter (fun r => bool_decide (owned_scope r = Some address)) rows))
    <$> uniq (omap owned_scope rows).

Fixpoint all_below (fuel : nat) (l : list (string * list string)) : result trouble (list Entry * option Time) :=
  match l with
  | [] => Ok ([], None)
  | (address, caps) :: l =>
      below ← ownedBelow fuel address caps 0 [];
      rest ← all_below fuel l;
      Ok (fst below ++ fst rest, sooner (snd below) (snd rest))
  end.

Definition row_entries (rows : list HeldRow) : list Entry :=
  (fun r => {| EScope := HScope r; Capability := HCapability r |}) <$> rows.

(** What an account holds before its owner bounds it. *)
Definition own_held (fuel : nat) (account : Z) : result trouble (Held * option Time) :=
  if broken (QGrants account) then Err Database
  else if broken (QOwn account) then Err Database
  else
    let rows := held_rows db account now in
    let own := active_account db account in
    below ← all_below fuel (owned rows);
    Ok (match own with [o] => implicit o | _ => [] end ++ row_entries rows ++ fst below,
        sooner (rows_expire rows) (snd below)).

Definition owner_of (account : Z) : option Z :=
  match active_account db account with [o] => OwnerID o | _ => None end.

Fixpoint loadBounded (fuel : nat) (account : Z) (visited : list Z) : result trouble (Held * option Time) :=
  if bool_decide (account ∈ visited) || (maxOwnerDepth <=? length visited)%nat then Ok ([], None)
  else match fuel with
  | O => Err OutOfFuel
  | S fuel' =>
      held ← own_held maxOwnerDepth account;
      match owner_of account with
      | None => Ok held
      | Some owner =>
          if broken (QOwnerActive owner) then Err Database
          else match active_account db owner with
               | [] => Ok ([], None)
               | _ => ceiling ← loadBounded fuel' owner (account :: visited);
                      Ok (Within (fst held) (fst ceiling), sooner (snd held) (snd ceiling))
               end
      end
  end.
Definition load (account : Z) : result trouble (Held * option Time) := loadBounded maxOwnerDepth account [].

(** ** The server ceiling *)

Definition server_grant (g : Grant) : bool :=
  bool_decide (HolderKind g = GrantHolderServer) && (HolderID g =? ServerHolderID)
  && bool_decide (GScope g = All) && bool_decide (Mode g = GrantActive) && unexpired (GExpiresAt g) now.
Definition server_entries (g : Grant) : list Entry :=
  (fun c => {| EScope := GScope g; Capability := c |})
    <$> List.filter (fun c => negb (bool_decide (c = Wildcard))) (caps_of db (RoleID g)).
Definition storedServerCeiling : result trouble Held :=
  if broken QServerGrants then Err Database
  else Ok (List.filter server_grant (grants db) ≫= server_entries).

(** [override]: what [serverOverride] holds. *)
Definition withinServer (override : option Held) (held : Held) : result trouble Held :=
  if superadmin held then Ok held
  else match override with
       | Some ceiling => Ok (under_ceiling held ceiling)
       | None => stored ← storedServerCeiling; Ok (under_ceiling held stored)
       end.
Definition Load (override : option Held) (account : Z) : result trouble Held :=
  held ← load account; withinServer override (fst held).

Definition RoleCapabilities (role : Z) : result trouble (list string) :=
  if broken (QRoleCapabilities role) then Err Database else Ok (caps_of db role).

Definition ServerCeiling (override : option Held) : result trouble (list string * bool) :=
  match override with
  | Some h => Ok (sortedCapabilities h, true)
  | None => stored ← storedServerCeiling; Ok (sortedCapabilities stored, false)
  end.

(** receive.go: the gate every inbound message passes. *)
Definition CanReceive (override : option Held) (mailbox : Account) : result trouble bool :=
  if negb (AcActive mailbox) then Ok false
  else held ← Load override (AcID mailbox);
       Ok (Allows held CapMailReceive (Mailbox (AcAddress mailbox))).

(** server.go: the operator's variable, read at boot. [Err]: boot stops. *)
Definition known_names : list string :=
  CapName <$> List.filter (fun c => negb (bool_decide (CapName c = Wildcard))) (capabilities db).
Definition ConfigureServerOverride (raw : string) (present : bool) : result (option ceiling_error) (option Held) :=
  if negb present then Ok None
  else if broken QVocabulary then Err None
  else match parseServerCapabilities raw known_names with
       | Ok h => Ok (Some h)
       | Err e => Err (Some e)
       end.
End Load.
End GrantStore.
