(* ===== verification/GrantLoad.v ===== *)
(** * What an account holds, up its owners and down its accounts

    Loading ends at any depth of ownership; an owned account never holds what its owner does
    not; and what was loaded stays exact until the expiry that was read with it. *)

From S2P Require Import Prelude GoTime GoStrings Grants GrantStore.
Import GoTime GoStrings Scope Held GrantsFacts GrantStore.
Local Open Scope Z_scope.

Module GrantLoad.

Lemma bind_not {A B} (e : trouble) (r : result trouble A) (f : A -> result trouble B) :
  r <> Err e -> (forall a, r = Ok a -> f a <> Err e) -> (r ≫= f) <> Err e.
Proof. destruct r as [a|e']; cbn; intros N F; [by apply F|]. intros E. by injection E as ->. Qed.

Section Loading.
Context `{Unicode} (broken : stmt -> bool) (db : GDB).

(** ** The recursion ends *)

(** What cannot happen: running out of fuel, ever; the database failing, if no statement does. *)
Definition impossible (e : trouble) : Prop :=
  match e with OutOfFuel => True | Database => forall q, broken q = false end.
Ltac refused I :=
  match goal with |- (if broken ?q then _ else _) <> _ =>
    let E := fresh in destruct (broken q) eqn:E;
    [intros F; injection F as <-; by rewrite (I q) in E|] end.

Section Never.
Context (now : Time) (e : trouble) (I : impossible e).

Lemma ownedBelow_ends fuel address caps depth visited : (maxOwnerDepth <= fuel + depth)%nat ->
  ownedBelow broken db now fuel address caps depth visited <> Err e.
Proof.
  revert address caps depth visited. induction fuel as [|fuel IH]; intros address caps depth visited B; cbn [ownedBelow].
  - rewrite (proj2 (Nat.leb_le maxOwnerDepth depth)) by (simpl in B; lia). by rewrite orb_true_r.
  - destruct (_ || _); [done|]. refused I.
    destruct (List.filter _ _) as [|owner [|? ?]]; [done| |done]. refused I.
    induction (active_children db (AcID owner)) as [|child cs IHc]; [done|].
    refused I. apply bind_not; [apply IH; lia|]. intros below _.
    apply bind_not; [exact IHc|]. done.
Qed.
Lemma all_below_ends l : all_below broken db now maxOwnerDepth l <> Err e.
Proof.
  induction l as [|[address caps] l IH]; [done|]. cbn [all_below]. apply bind_not; [apply ownedBelow_ends; lia|].
  intros. by apply bind_not.
Qed.
Lemma own_held_ends account : own_held broken db now maxOwnerDepth account <> Err e.
Proof.
  unfold own_held. refused I. refused I. cbv zeta. apply bind_not; [apply all_below_ends|done].
Qed.
Lemma loadBounded_ends fuel account visited : (maxOwnerDepth <= fuel + length visited)%nat ->
  loadBounded broken db now fuel account visited <> Err e.
Proof.
  revert account visited. induction fuel as [|fuel IH]; intros account visited B; cbn [loadBounded].
  - rewrite (proj2 (Nat.leb_le maxOwnerDepth (length visited))) by (simpl in B; lia). by rewrite orb_true_r.
  - destruct (_ || _); [done|]. apply bind_not; [apply own_held_ends|]. intros held _.
    destruct (owner_of db account) as [o|]; [|done]. refused I.
    destruct (active_account db o); [done|]. apply bind_not; [apply IH; cbn; lia|done].
Qed.
End Never.

Lemma own_held_sound now account : (forall q, broken q = false) ->
  exists r, own_held broken db now maxOwnerDepth account = Ok r.
Proof.
  intros S. destruct (own_held _ _ _ _ _) as [r|e] eqn:E; [by exists r|].
  exfalso. destruct e; [by apply (own_held_ends now Database S account)|by apply (own_held_ends now OutOfFuel Logic.I account)].
Qed.

(** ** An owned account holds only what its owner holds *)

Lemma bind_Ok {A B} (r : result trouble A) (f : A -> result trouble B) b :
  (r ≫= f) = Ok b -> exists a, r = Ok a /\ f a = Ok b.
Proof. apply result_bind_ok. Qed.

Lemma held_le_nil h : held_le [] h.
Proof. intros c t E. discriminate E. Qed.

(** Coming from fewer accounts, with more fuel, reaches no less. *)
Lemma loadBounded_mono now fuel fuel' account visited visited' r r' :
  (fuel <= fuel')%nat -> (length visited' <= length visited)%nat -> (forall x, x ∈ visited' -> x ∈ visited) ->
  loadBounded broken db now fuel account visited = Ok r ->
  loadBounded broken db now fuel' account visited' = Ok r' -> held_le (fst r) (fst r').
Proof.
  revert fuel' account visited visited' r r'.
  induction fuel as [|fuel IH]; intros fuel' account visited visited' r r' F L V E E'; cbn [loadBounded] in E.
  - destruct (_ || _); [|done]. injection E as <-. apply held_le_nil.
  - destruct (bool_decide (account ∈ visited) || _) eqn:D; [injection E as <-; apply held_le_nil|].
    apply orb_false_iff in D as [D1 D2]. destruct fuel' as [|fuel']; [lia|]. cbn [loadBounded] in E'.
    rewrite (bool_decide_eq_false_2 (account ∈ visited')) in E' by (bprop; auto).
    rewrite (proj2 (Nat.leb_gt _ _)) in E' by (bprop; lia). cbn [orb] in E'.
    apply bind_Ok in E as (own & Q & E). apply bind_Ok in E' as (own' & Q' & E').
    rewrite Q in Q'. injection Q' as <-.
    destruct (owner_of db account) as [o|]; [|injection E as <-; by injection E' as <-].
    destruct (broken (QOwnerActive o)); [done|]. destruct (active_account db o).
    + injection E as <-. apply held_le_nil.
    + apply bind_Ok in E as (c & C & E). apply bind_Ok in E' as (c' & C' & E').
      injection E as <-. injection E' as <-. cbn [fst]. apply Within_mono; [done|].
      refine (IH _ _ _ _ _ _ _ _ _ C C'); [lia|cbn; lia|]. set_solver.
Qed.

Lemma load_owned now account owner r r' :
  owner_of db account = Some owner -> load broken db now account = Ok r ->
  load broken db now owner = Ok r' ->
  held_le (fst r) (fst r') /\ (active_account db owner = [] -> fst r = []).
Proof.
  unfold load. intros O E E'. pose (f := 7%nat).
  change (loadBounded broken db now (S f) account [] = Ok r) in E. cbn [loadBounded] in E.
  apply bind_Ok in E as (own & _ & E). rewrite O in E. destruct (broken (QOwnerActive owner)); [done|].
  destruct (active_account db owner) as [|x l]; [injection E as <-; split; [apply held_le_nil|done]|].
  apply bind_Ok in E as (c & C & E). injection E as <-. split; [|done]. cbn [fst].
  etrans; [apply Within_le_r|]. refine (loadBounded_mono _ _ _ _ _ _ _ _ _ _ _ C E'); [subst f; cbv; lia|cbn; lia|set_solver].
Qed.
End Loading.

(** ** A snapshot is exact until it expires *)

Lemma unexpired_sooner a b t : unexpired (sooner a b) t = unexpired a t && unexpired b t.
Proof.
  destruct a as [x|], b as [y|]; cbn; [|by rewrite andb_true_r|done|done]. unfold Before.
  destruct (y <? x) eqn:E; apply eq_true_iff_eq; bprop; lia.
Qed.
Lemma rows_expire_all rows t : unexpired (rows_expire rows) t = true ->
  Forall (fun r => unexpired (HExpires r) t = true /\ unexpired (HActivation r) t = true) rows.
Proof.
  unfold rows_expire. assert (G : forall e, unexpired (fold_left (fun e r => sooner (sooner e (HExpires r)) (HActivation r)) rows e) t = true ->
    unexpired e t = true /\ Forall (fun r => unexpired (HExpires r) t = true /\ unexpired (HActivation r) t = true) rows).
  { induction rows as [|r rows IH]; intros e E; [by split|]. destruct (IH _ E) as [U F].
    rewrite !unexpired_sooner, !andb_true_iff in U. destruct U as [[U1 U2] U3]. split; [done|]. by constructor. }
  intros E. exact (proj2 (G None E)).
Qed.
Lemma rows_expire_perm_filter rows (P : HeldRow -> bool) t :
  unexpired (rows_expire rows) t = true -> Forall (fun r => unexpired (HExpires r) t = true /\ unexpired (HActivation r) t = true)
    (List.filter P rows).
Proof.
  intros E%rows_expire_all. apply Forall_forall. intros r R. apply list_elem_of_In, filter_In in R as [R _].
  by apply (proj1 (Forall_forall _ _) E), list_elem_of_In.
Qed.

Section Later.
Context (db : GDB) (now later : Time) (after : now <= later).

Lemma running_later a : running later a = true -> running now a = true.
Proof. unfold running. destruct (EndedAt a); [done|]. intros. bool_lia. Qed.
Lemma unexpired_later e : unexpired e later = true -> unexpired e now = true.
Proof. destruct e; cbn; [|done]. intros. bool_lia. Qed.

Lemma live_later grant :
  Forall (fun a => unexpired (Some (AExpiresAt a)) later = true) (live db grant now) ->
  live db grant later = live db grant now.
Proof.
  unfold live. induction (activations db) as [|a l IH]; [done|]. cbn [List.filter]. intros F.
  destruct (ActGrantID a =? grant) eqn:G; cbn [andb] in *; [|by apply IH].
  destruct (running later a) eqn:R.
  - rewrite (running_later _ R) in F |- *. apply Forall_cons in F as [_ F]. by rewrite IH.
  - destruct (running now a) eqn:R'; [|by apply IH]. exfalso. apply Forall_cons in F as [U _].
    unfold running in *. destruct (EndedAt a); [done|]. cbn in U. congruence.
Qed.
Lemma live_later_nil grant : live db grant now = [] -> live db grant later = [].
Proof. intros N. rewrite <- N. apply live_later. by rewrite N. Qed.

Lemma filter_fmap {A B} (f : A -> B) (p : B -> bool) l : List.filter p (f <$> l) = f <$> List.filter (fun x => p (f x)) l.
Proof. induction l as [|x l IH]; [done|]. cbn. destruct (p (f x)); cbn; by rewrite IH. Qed.
Lemma pairs_fmap {A B C} (f : A -> B -> C) xs ys :
  (xs ≫= fun x => ys ≫= fun y => [f x y]) = (fun p => f (fst p) (snd p)) <$> (xs ≫= fun x => ys ≫= fun y => [(x, y)]).
Proof.
  induction xs as [|x xs IH]; [done|]. rewrite !bind_cons, fmap_app, IH. f_equal.
  clear. induction ys as [|y ys IH]; [done|]. rewrite !bind_cons. cbn. by rewrite IH.
Qed.

(** The rows of one grant, kept by a test that looks at what they give. *)
Section Kept.
Context (Q : string -> string -> string -> bool).
Definition keep (r : HeldRow) : bool := Q (HScope r) (HCapability r) (HRole r).
Definition valid_row (r : HeldRow) : Prop := unexpired (HExpires r) later = true /\ unexpired (HActivation r) later = true.

(** What a grant gives whatever activation it is counted with. *)
Definition given (g : Grant) : list (string * string) :=
  List.filter (fun cr => Q (GScope g) (fst cr) (snd cr))
    (caps_of db (RoleID g) ≫= fun c => roles_of db (RoleID g) ≫= fun r => [(c, r)]).
Definition mk_row (g : Grant) (a : option GrantActivation) (cr : string * string) : HeldRow := {|
  HScope := GScope g; HCapability := fst cr; HRole := snd cr; HExpires := GExpiresAt g;
  HActivation := AExpiresAt <$> a |}.
Lemma kept_rows t g : List.filter keep (grant_rows db t g) =
  (if unexpired (GExpiresAt g) t then left_join (live db (GID g) t) else []) ≫= fun a =>
    if mode_counts g a then
      mk_row g a <$> given g
    else [].
Proof.
  unfold grant_rows. destruct (unexpired (GExpiresAt g) t); [|done]. cbn [negb].
  induction (left_join (live db (GID g) t)) as [|a l IH]; [done|].
  rewrite !bind_cons, List.filter_app. f_equal; [|exact IH]. destruct (mode_counts g a); [|done]. cbn [negb].
  unfold given. rewrite pairs_fmap, filter_fmap. f_equal.
Qed.

Lemma kept_later g : Forall valid_row (List.filter keep (grant_rows db now g)) ->
  List.filter keep (grant_rows db later g) = List.filter keep (grant_rows db now g).
Proof.
  rewrite !kept_rows. intros F. destruct (given g) as [|cr given'] eqn:GV.
  { assert (N : forall l : list (option GrantActivation), (l ≫= fun a => if mode_counts g a then
      mk_row g a <$> [] else []) = []).
    { induction l as [|a l IH]; [done|]. cbn [mbind list_bind]. by destruct (mode_counts g a). }
    by rewrite !N. }
  destruct (unexpired (GExpiresAt g) now) eqn:U.
  2:{ destruct (unexpired (GExpiresAt g) later) eqn:U'; [|done]. by rewrite unexpired_later in U. }
  assert (K : forall a, a ∈ left_join (live db (GID g) now) -> mode_counts g a = true ->
    unexpired (GExpiresAt g) later = true /\ unexpired (AExpiresAt <$> a) later = true).
  { intros a A M. apply (proj1 (Forall_forall _ _) F (mk_row g a cr)).
    apply list_elem_of_bind. exists a. split; [|done]. rewrite M. by left. }
  destruct (live db (GID g) now) as [|x xs] eqn:L; cbn [left_join] in *.
  - rewrite (live_later_nil _ L). cbn [left_join mbind list_bind]. destruct (mode_counts g None) eqn:M.
    + destruct (K None) as [-> _]; [by left|done|]. rewrite bind_cons. by rewrite M.
    + destruct (unexpired (GExpiresAt g) later); [|done]. cbn. by rewrite M.
  - destruct (mode_counts g (Some x)) eqn:M.
    + assert (MC : forall a, mode_counts g (Some a) = true) by (intros a; exact M).
      destruct (K (Some x)) as [-> _]; [by left|done|]. rewrite live_later; [by rewrite L|]. rewrite L.
      apply Forall_forall. intros a A. apply (K (Some a)); [|apply MC]. by apply list_elem_of_fmap_2.
    + assert (MC : forall a, mode_counts g a = false).
      { intros a. unfold mode_counts in *. destruct (bool_decide (Mode g = GrantActive)); [done|]. cbn [orb] in *.
        rewrite andb_true_r in M. by rewrite M. }
      assert (N : forall l : list (option GrantActivation), (l ≫= fun a => if mode_counts g a then
        mk_row g a <$> cr :: given' else []) = []).
      { induction l as [|a l IH]; [done|]. cbn [mbind list_bind]. by rewrite MC. }
      by rewrite !N.
Qed.

Lemma kept_held_later account :
  Forall valid_row (List.filter keep (held_rows db account now)) ->
  List.filter keep (held_rows db account later) = List.filter keep (held_rows db account now).
Proof.
  unfold held_rows. induction (List.filter (held_by account) (grants db)) as [|g gs IH]; [done|].
  cbn [mbind list_bind]. rewrite !List.filter_app, Forall_app. intros [F1 F2]. by rewrite kept_later, IH.
Qed.
End Kept.

Lemma filter_keep_all l : List.filter (keep (fun _ _ _ => true)) l = l.
Proof. induction l as [|r l IH]; [done|]. cbn. by f_equal. Qed.
Lemma held_rows_later account : unexpired (rows_expire (held_rows db account now)) later = true ->
  held_rows db account later = held_rows db account now.
Proof.
  intros E. rewrite <- (filter_keep_all (held_rows db account later)), <- (filter_keep_all (held_rows db account now)).
  apply kept_held_later. rewrite filter_keep_all. exact (rows_expire_all _ _ E).
Qed.
Lemma owner_rows_later owner scope : unexpired (rows_expire (owner_rows db now owner scope)) later = true ->
  owner_rows db later owner scope = owner_rows db now owner scope.
Proof.
  intros E. pose (Q := fun s (_ : string) r => bool_decide (s = scope) && bool_decide (r = RoleOwner)).
  exact (kept_held_later Q owner (rows_expire_all _ _ E)).
Qed.
End Later.

Section Stable.
Context `{Unicode} (broken : stmt -> bool) (db : GDB) (now later : Time) (after : now <= later).

Lemma ownedBelow_later fuel address caps depth visited r :
  ownedBelow broken db now fuel address caps depth visited = Ok r -> unexpired (snd r) later = true ->
  ownedBelow broken db later fuel address caps depth visited = Ok r.
Proof.
  revert address caps depth visited r. induction fuel as [|fuel IH]; intros address caps depth visited r; cbn [ownedBelow];
    [done|].
  destruct (_ || _); [done|]. destruct (broken _); [done|].
  destruct (List.filter _ _) as [|owner [|? ?]]; [done| |done]. destruct (broken (QChildren _)); [done|].
  revert r. induction (active_children db (AcID owner)) as [|child cs IHc]; intros r; [done|].
  destruct (broken _); [done|]. intros E U.
  apply bind_Ok in E as (below & B & E). apply bind_Ok in E as (rest & R & E). injection E as <-.
  cbn [snd] in U. rewrite !unexpired_sooner, !andb_true_iff in U. destruct U as [[U1 U2] U3].
  rewrite (owner_rows_later db now later after _ _ U1), (IH _ _ _ _ _ B U2). cbn [mbind result_bind].
  by rewrite (IHc _ R U3).
Qed.
Lemma all_below_later fuel l r :
  all_below broken db now fuel l = Ok r -> unexpired (snd r) later = true -> all_below broken db later fuel l = Ok r.
Proof.
  revert r. induction l as [|[address caps] l IH]; intros r; cbn [all_below]; [done|]. intros E U.
  apply bind_Ok in E as (below & B & E). apply bind_Ok in E as (rest & R & E). injection E as <-.
  cbn [snd] in U. rewrite unexpired_sooner, andb_true_iff in U. destruct U as [U1 U2].
  rewrite (ownedBelow_later _ _ _ _ _ _ B U1). cbn [mbind result_bind]. by rewrite (IH _ R U2).
Qed.
Lemma own_held_later fuel account r :
  own_held broken db now fuel account = Ok r -> unexpired (snd r) later = true ->
  own_held broken db later fuel account = Ok r.
Proof.
  unfold own_held. destruct (broken _); [done|]. destruct (broken _); [done|]. cbv zeta. intros E U.
  apply bind_Ok in E as (below & B & E). injection E as <-.
  cbn [snd] in U. rewrite unexpired_sooner, andb_true_iff in U. destruct U as [U1 U2].
  rewrite (held_rows_later db now later after _ U1). by rewrite (all_below_later _ _ _ B U2).
Qed.
Lemma loadBounded_later fuel account visited r : (forall q, broken q = false) ->
  loadBounded broken db now fuel account visited = Ok r -> unexpired (snd r) later = true ->
  loadBounded broken db later fuel account visited = Ok r.
Proof.
  intros S. revert account visited r. induction fuel as [|fuel IH]; intros account visited r; cbn [loadBounded]; [done|].
  destruct (_ || _); [done|]. intros E U. apply bind_Ok in E as (own & O & E).
  destruct (owner_of db account) as [o|].
  - rewrite S in E |- *. destruct (active_account db o) as [|x l] eqn:A.
    + injection E as <-. destruct (own_held_sound broken db later account S) as (own' & ->). done.
    + apply bind_Ok in E as (c & C & E). injection E as <-. cbn [snd] in U.
      rewrite unexpired_sooner, andb_true_iff in U. destruct U as [U1 U2].
      rewrite (own_held_later _ _ _ O U1). cbn [mbind result_bind]. by rewrite (IH _ _ _ C U2).
  - injection E as <-. by rewrite (own_held_later _ _ _ O U).
Qed.
End Stable.

(** ** The theorems *)

Section Theorems.
Context `{Unicode}.

(** Loading what an account holds ends, whatever the owners in the database are, chains
    longer than the bound and loops included: eight levels up the owners and eight down the
    owned accounts are enough in any table, and with the database answering there is always
    a result. *)
Theorem load_ends (broken : stmt -> bool) (db : GDB) (now : Time) (account : Z) :
  load broken db now account <> Err OutOfFuel
  /\ exists r, load sound db now account = Ok r.
Proof.
  assert (L : forall b e, impossible b e -> load b db now account <> Err e)
    by (intros; apply loadBounded_ends; [done|apply Nat.le_add_r]).
  split; [by apply L|]. destruct (load sound db now account) as [r|e] eqn:E; [by exists r|].
  exfalso. destruct e; [by apply (L sound Database)|by apply (L sound OutOfFuel)].
Qed.


(** What was read stays exact until the expiry read with it: while the tables do not
    change, loading again at any moment before then gives the very same entries (no grant
    or activation used has run out, none can have come into force, up and down the owners),
    so an entry kept until the earlier of that expiry and the cache's own never grants what
    has run out. *)
Theorem snapshot_exact_until_expiry (db : GDB) (now later : Time) (account : Z) (held : Held) (expires : option Time) :
  load sound db now account = Ok (held, expires) -> now <= later -> unexpired expires later = true ->
  load sound db later account = Ok (held, expires).
Proof. intros L A U. exact (loadBounded_later sound db now later A _ _ _ _ (fun _ => eq_refl) L U). Qed.
End Theorems.
End GrantLoad.
