(* ===== verification/GrantChange.v ===== *)
(** * Changing grants: internal/grants

    change.go (Authorize, Add, Remove), activation.go (switching an eligible grant on and
    off), server_ceiling.go and server.go (the ceiling's changes), receive.go and import.go
    (the grants an account is created with), and the handlers' checks around them
    (internal/api/handlers/grants.go, fresh_two_factor.go). Every operation runs inside a
    transaction that holds the grant-change lock: on [Err] nothing is kept. [now] and the
    other times are the clock readings made, [logged] the audit log's. *)

From S2P Require Import Prelude GoTime GoStrings GoDate Grants GoCodec AuditLog GrantStore.
From Stdlib Require Import Ascii.
Import GoTime GoStrings Scope Held GrantStore.
Local Open Scope Z_scope.

Module GrantChange.

Inductive change_error :=
| ErrExceedsHeld | ErrExists | ErrLastSuperadmin | ErrNotEligible | ErrAlreadySwitchedOn
| ErrNotSwitchedOn | ErrGrantExpired | ErrAlreadyEligible | ErrSuperadminRequired
| ErrServerOverridden | CapabilitiesRequired | InvalidCapability (e : ceiling_error) | ErrTwoFactorRequired | ErrRecentTwoFactor
| DbFailed.

Definition of_trouble {A} (r : result trouble A) : result change_error A :=
  match r with Ok a => Ok a | Err _ => Err DbFailed end.

(** ** The tables written to *)

Definition with_grants (db : GDB) (gs : list Grant) (next : Z) : GDB := {|
  accounts := accounts db; roles := roles db; next_role := next_role db; capabilities := capabilities db;
  role_capabilities := role_capabilities db; grants := gs; next_grant := next;
  activations := activations db; next_activation := next_activation db; credentials := credentials db;
  audit_log := audit_log db |}.
Definition with_activations (db : GDB) (l : list GrantActivation) (next : Z) : GDB := {|
  accounts := accounts db; roles := roles db; next_role := next_role db; capabilities := capabilities db;
  role_capabilities := role_capabilities db; grants := grants db; next_grant := next_grant db;
  activations := l; next_activation := next; credentials := credentials db; audit_log := audit_log db |}.
Definition with_log (db : GDB) (log : list Audit.AuditEntry) : GDB := {|
  accounts := accounts db; roles := roles db; next_role := next_role db; capabilities := capabilities db;
  role_capabilities := role_capabilities db; grants := grants db; next_grant := next_grant db;
  activations := activations db; next_activation := next_activation db; credentials := credentials db;
  audit_log := log |}.
Definition with_roles (db : GDB) (rs : list Role) (next : Z) (rcs : list (Z * Z)) : GDB := {|
  accounts := accounts db; roles := rs; next_role := next; capabilities := capabilities db;
  role_capabilities := rcs; grants := grants db; next_grant := next_grant db;
  activations := activations db; next_activation := next_activation db; credentials := credentials db;
  audit_log := audit_log db |}.

(** ** The audit log's record of a change *)

Definition ActionCreate : string := "grants.create".
Definition ActionDelete : string := "grants.delete".
Definition ActionActivate : string := "grants.activate".
Definition ActionDeactivate : string := "grants.deactivate".
Definition ActionExpire : string := "grants.expire".
Definition ActionMakeEligible : string := "grants.make_eligible".
Definition ActionServerCapabilitiesUpdate : string := "server_capabilities.update".

Definition with_target (e : Audit.AuditEntry) (action outcome : string) (target : gmap string string)
  : Audit.AuditEntry := {|
  Audit.Seq := Audit.Seq e; Audit.OccurredAt := Audit.OccurredAt e; Audit.ActorKind := Audit.ActorKind e;
  Audit.ActorID := Audit.ActorID e; Audit.ActorName := Audit.ActorName e; Audit.CredentialID := Audit.CredentialID e;
  Audit.SessionID := Audit.SessionID e; Audit.Action := action; Audit.Outcome := outcome;
  Audit.ErrorCode := Audit.ErrorCode e; Audit.Method := Audit.Method e; Audit.Route := Audit.Route e;
  Audit.HttpStatus := Audit.HttpStatus e; Audit.Target := target; Audit.IP := Audit.IP e;
  Audit.UserAgent := Audit.UserAgent e; Audit.RequestID := Audit.RequestID e; Audit.PrevHash := Audit.PrevHash e;
  Audit.EHash := Audit.EHash e |}.

(** The role's name comes with the grant when it was loaded with it, and is looked up if not. *)
Definition Describe (db : GDB) (g : Grant) : gmap string string :=
  let t : gmap string string :=
    {[ "grant_id" := itoa (GID g); "holder_kind" := HolderKind g; "holder_id" := itoa (HolderID g);
       "role_id" := itoa (RoleID g); "scope" := GScope g; "mode" := Mode g ]} in
  let t := match roles_of db (RoleID g) with [name] => <["role" := name]> t | _ => t end in
  match GExpiresAt g with Some at_ => <["expires_at" := Codec.RFC3339 at_]> t | None => t end.

Section Changes.
Context `{Unicode} (broken : stmt -> bool).

Definition append_log (db : GDB) (logged : Time) (e : Audit.AuditEntry) : result change_error GDB :=
  match Audit.Append (broken QAudit) (audit_log db) logged e with
  | Some log => Ok (with_log db log)
  | None => Err DbFailed
  end.
Definition appendChange (db : GDB) (logged : Time) (g : Grant) (action : string) (entry : Audit.AuditEntry)
  : result change_error GDB :=
  append_log db logged
    (with_target entry action Audit.AuditOutcomeSuccess (Describe db g ∪ Audit.Target entry)).
Definition appendActivation (db : GDB) (logged : Time) (g : Grant) (a : GrantActivation) (action : string)
    (entry : Audit.AuditEntry) : result change_error GDB :=
  let t := <["activation_id" := itoa (ActID a)]> (<["reason" := AReason a]>
           (<["started_at" := Codec.RFC3339 (ActivatedAt a)]> (<["ends_at" := Codec.RFC3339 (AExpiresAt a)]>
             (Audit.Target entry)))) in
  let t := match EndedAt a with Some e => <["ended_at" := Codec.RFC3339 e]> t | None => t end in
  appendChange db logged g action (with_target entry action (Audit.Outcome entry) t).

(** ** Granting and removing *)

(** change.go: nobody hands on what it does not hold. *)
Definition Authorize (override : option Held) (db : GDB) (now : Time) (granter role : Z) (scope : string)
  : result change_error unit :=
  held ← of_trouble (Load broken db now override granter);
  caps ← of_trouble (RoleCapabilities broken db role);
  if CanGrant held caps scope then Ok tt else Err ErrExceedsHeld.

Definition same_grant (g x : Grant) : bool :=
  bool_decide (HolderKind x = HolderKind g) && (HolderID x =? HolderID g) && (RoleID x =? RoleID g)
  && bool_decide (GScope x = GScope g).
Definition granted (db : GDB) (now : Time) (g : Grant) : Grant := {|
  GID := next_grant db; HolderKind := HolderKind g; HolderID := HolderID g; RoleID := RoleID g;
  GScope := GScope g; Mode := Mode g; GrantedByKind := GrantedByKind g; GrantedByID := GrantedByID g;
  GrantedAt := if IsZero (GrantedAt g) then now else GrantedAt g; GExpiresAt := GExpiresAt g |}.
Definition server_role (db : GDB) (role : Z) : bool :=
  existsb (fun r => (RlID r =? role) && bool_decide (RlName r = RoleServer)) (roles db).
(** The row is inserted with the next id; a conflict with the unique index inserts nothing. *)
Definition Add (db : GDB) (now logged : Time) (g : Grant) (entry : Audit.AuditEntry) : result change_error GDB :=
  if bool_decide (HolderKind g = GrantHolderServer) then Err ErrExceedsHeld
  else if broken QServerRole then Err DbFailed
  else if server_role db (RoleID g) then Err ErrExceedsHeld
  else if broken QInsertGrant then Err DbFailed
  else if existsb (same_grant g) (grants db) then Err ErrExists
  else
    let g := granted db now g in
    appendChange (with_grants db (grants db ++ [g]) (next_grant db + 1)) logged g ActionCreate entry.

Definition canSwitchOn (db : GDB) (account : Z) : bool :=
  existsb (fun c => bool_decide (CrKind c = CredentialKindTOTP) && (CrAccount c =? account)
                    && bool_decide (ConfirmedAt c <> None) && bool_decide (RevokedAt c = None)) (credentials db).
Definition has_wildcard (db : GDB) (role : Z) : bool := bool_decide (Wildcard ∈ caps_of db role).

(** The rows of the query that looks for another superadmin: one for each time a grant
    gives "*", for each active account it is held by. *)
Definition superadmin_rows (db : GDB) (now : Time) : list Grant :=
  List.filter (fun g => bool_decide (HolderKind g = GrantHolderAccount) && bool_decide (GScope g = All)
               && (bool_decide (Mode g = GrantActive)
                   || (bool_decide (Mode g = GrantEligible) && canSwitchOn db (HolderID g)))
               && unexpired (GExpiresAt g) now) (grants db)
  ≫= fun g => List.filter (fun c => bool_decide (c = Wildcard)) (caps_of db (RoleID g))
  ≫= fun _ => active_account db (HolderID g) ≫= fun _ => [g].

Definition wasSuperadmin (db : GDB) (now : Time) (g : Grant) : bool :=
  if negb (bool_decide (GScope g = All)) || negb (bool_decide (HolderKind g = GrantHolderAccount)) then false
  else if negb (unexpired (GExpiresAt g) now) then false
  else
    let rest :=
      if broken QHolderActive then true
      else match List.filter (fun a => AcID a =? HolderID g) (accounts db) with
           | a :: _ => if AcActive a
                       then if broken (QRoleCapabilities (RoleID g)) then true else has_wildcard db (RoleID g)
                       else false
           | [] => false
           end in
    if bool_decide (Mode g = GrantActive) then rest
    else if bool_decide (Mode g = GrantEligible)
    then if broken QTotp then true else if canSwitchOn db (HolderID g) then rest else false
    else false.

Definition liveActivation (db : GDB) (grant : Z) (now : Time) : result change_error (option GrantActivation) :=
  if broken QLiveActivation then Err DbFailed else Ok (head (live db grant now)).

Definition ended (at_ : Time) (a : GrantActivation) : GrantActivation := {|
  ActID := ActID a; ActGrantID := ActGrantID a; ActivatedAt := ActivatedAt a; AExpiresAt := AExpiresAt a;
  AReason := AReason a; EndedAt := Some at_ |}.

Definition delete_grant (db : GDB) (id : Z) : GDB :=
  let db := with_activations db (List.filter (fun a => negb (ActGrantID a =? id)) (activations db))
              (next_activation db) in
  with_grants db (List.filter (fun g => negb (GID g =? id)) (grants db)) (next_grant db).

(** [now] is read at the start, [checked] by [wasSuperadmin]. *)
Definition Remove (db : GDB) (now checked logged logged' : Time) (g : Grant) (entry : Audit.AuditEntry)
  : result change_error GDB :=
  if bool_decide (HolderKind g = GrantHolderServer) then Err ErrExceedsHeld
  else
    running ← liveActivation db (GID g) now;
    if broken QDeleteActivations then Err DbFailed
    else if broken QDeleteGrant then Err DbFailed
    else
      let db := delete_grant db (GID g) in
      if broken QRemaining then Err DbFailed
      else if bool_decide (superadmin_rows db now = []) && wasSuperadmin db checked g then Err ErrLastSuperadmin
      else
        db ← match running with
             | Some a => appendActivation db logged g (ended now a) ActionDeactivate entry
             | None => Ok db
             end;
        appendChange db logged' g ActionDelete entry.

(** ** Switching an eligible grant on *)

Definition system_entry : Audit.AuditEntry := {|
  Audit.Seq := 0; Audit.OccurredAt := 0; Audit.ActorKind := Audit.AuditActorSystem; Audit.ActorID := None;
  Audit.ActorName := "system"; Audit.CredentialID := None; Audit.SessionID := ""; Audit.Action := "";
  Audit.Outcome := ""; Audit.ErrorCode := ""; Audit.Method := ""; Audit.Route := ""; Audit.HttpStatus := 0;
  Audit.Target := ∅; Audit.IP := ""; Audit.UserAgent := ""; Audit.RequestID := ""; Audit.PrevHash := "";
  Audit.EHash := "" |}.
Definition bare_grant (id : Z) : Grant := {|
  GID := id; HolderKind := ""; HolderID := 0; RoleID := 0; GScope := ""; Mode := ""; GrantedByKind := "";
  GrantedByID := None; GrantedAt := 0; GExpiresAt := None |}.
Definition update_activation (db : GDB) (id : Z) (f : GrantActivation -> GrantActivation) : GDB :=
  with_activations db ((fun a => if ActID a =? id then f a else a) <$> activations db) (next_activation db).
Definition lapsed (now : Time) (a : GrantActivation) : bool :=
  match EndedAt a with None => AExpiresAt a <=? now | Some _ => false end.

Fixpoint end_each (db : GDB) (logged : Time) (l : list GrantActivation) : result change_error GDB :=
  match l with
  | [] => Ok db
  | a :: l =>
      if broken QExpiredGrant then Err DbFailed
      else
        let g := default (bare_grant (ActGrantID a)) (head (List.filter (fun g => GID g =? ActGrantID a) (grants db))) in
        if broken QEndActivation then Err DbFailed
        else
          db ← appendActivation (update_activation db (ActID a) (ended (AExpiresAt a))) logged g
                 (ended (AExpiresAt a) a) ActionExpire system_entry;
          end_each db logged l
  end.
(** [grant] 0: every grant's. *)
Definition endExpired (db : GDB) (grant : Z) (now logged : Time) : result change_error (GDB * Z) :=
  if broken QExpired then Err DbFailed
  else
    let expired := List.filter (fun a => lapsed now a && ((grant =? 0) || (ActGrantID a =? grant))) (activations db) in
    db ← end_each db logged expired; Ok (db, Z.of_nat (List.length expired)).

Definition DefaultActivation : Duration := 60 * Minute.
Definition MaxActivation : Duration := 240 * Minute.
(** handlers/escalation.go: the length asked for, in minutes. *)
Definition activation_length (minutes : option Z) : option Duration :=
  match minutes with
  | None => Some DefaultActivation
  | Some m => if (m <? 1) || (MaxActivation / Minute <? m) then None else Some (times m Minute)
  end.

Definition activation_end (g : Grant) (now : Time) (length : Duration) : Time :=
  let ends := GoTime.Add now length in
  match GExpiresAt g with Some at_ => if Before at_ ends then at_ else ends | None => ends end.
(** A grant has one activation with no end: the unique index refuses a second. *)
Definition insert_activation (db : GDB) (a : GrantActivation) : result change_error GDB :=
  if broken QInsertActivation
     || existsb (fun x => (ActGrantID x =? ActGrantID a) && bool_decide (EndedAt x = None)) (activations db)
  then Err DbFailed
  else Ok (with_activations db (activations db ++ [a]) (next_activation db + 1)).

Definition Activate (db : GDB) (now logged : Time) (g : Grant) (length : Duration) (reason : string)
    (entry : Audit.AuditEntry) : result change_error (GDB * GrantActivation) :=
  if negb (bool_decide (Mode g = GrantEligible)) then Err ErrNotEligible
  else if negb (unexpired (GExpiresAt g) now) then Err ErrGrantExpired
  else
    swept ← endExpired db (GID g) now logged;
    running ← liveActivation (fst swept) (GID g) now;
    match running with
    | Some _ => Err ErrAlreadySwitchedOn
    | None =>
        let a := {| ActID := next_activation (fst swept); ActGrantID := GID g; ActivatedAt := now;
                    AExpiresAt := activation_end g now length; AReason := reason; EndedAt := None |} in
        db ← insert_activation (fst swept) a;
        db ← appendActivation db logged g a ActionActivate entry;
        Ok (db, a)
    end.

Definition Deactivate (db : GDB) (now logged : Time) (g : Grant) (entry : Audit.AuditEntry)
  : result change_error (GDB * GrantActivation) :=
  swept ← endExpired db (GID g) now logged;
  running ← liveActivation (fst swept) (GID g) now;
  match running with
  | None => Err ErrNotSwitchedOn
  | Some a =>
      if broken QEndActivation then Err DbFailed
      else
        db ← appendActivation (update_activation (fst swept) (ActID a) (ended now)) logged g (ended now a)
               ActionDeactivate entry;
        Ok (db, ended now a)
  end.

Definition eligible (g : Grant) : Grant := {|
  GID := GID g; HolderKind := HolderKind g; HolderID := HolderID g; RoleID := RoleID g; GScope := GScope g;
  Mode := GrantEligible; GrantedByKind := GrantedByKind g; GrantedByID := GrantedByID g;
  GrantedAt := GrantedAt g; GExpiresAt := GExpiresAt g |}.
Definition MakeEligible (db : GDB) (logged : Time) (g : Grant) (entry : Audit.AuditEntry) : result change_error GDB :=
  if bool_decide (Mode g = GrantEligible) then Err ErrAlreadyEligible
  else if broken QSetMode then Err DbFailed
  else appendChange (with_grants db ((fun x => if GID x =? GID g then eligible x else x) <$> grants db) (next_grant db))
         logged (eligible g) ActionMakeEligible entry.

(** ** The server ceiling *)

Definition RequireSuperadmin (override : option Held) (db : GDB) (now : Time) (account : Z) : result change_error unit :=
  held ← of_trouble (Load broken db now override account);
  if superadmin held then Ok tt else Err ErrSuperadminRequired.

(** The names asked for, trimmed and checked. *)
Fixpoint wanted (vocabulary names : list string) : result change_error (list string) :=
  match names with
  | [] => Ok []
  | name :: names =>
      match checkServerCapability (TrimSpace name) vocabulary with
      | Err e => Err (InvalidCapability e)
      | Ok _ => rest ← wanted vocabulary names; Ok (TrimSpace name :: rest)
      end
  end.
Definition capability_ids (db : GDB) (names : list string) : list Z :=
  CapID <$> List.filter (fun c => bool_decide (CapName c ∈ names)) (capabilities db).
Definition is_server_grant (role : Z) (g : Grant) : bool :=
  bool_decide (HolderKind g = GrantHolderServer) && (HolderID g =? ServerHolderID) && (RoleID g =? role)
  && bool_decide (GScope g = All).
Definition restored (g : Grant) : Grant := {|
  GID := GID g; HolderKind := HolderKind g; HolderID := HolderID g; RoleID := RoleID g; GScope := GScope g;
  Mode := GrantActive; GrantedByKind := GrantedByKind g; GrantedByID := GrantedByID g;
  GrantedAt := GrantedAt g; GExpiresAt := None |}.
Definition new_server_grant (db : GDB) (role : Z) (now : Time) (kind : string) (by_ : option Z) : Grant := {|
  GID := next_grant db; HolderKind := GrantHolderServer; HolderID := ServerHolderID; RoleID := role; GScope := All;
  Mode := GrantActive; GrantedByKind := kind; GrantedByID := by_; GrantedAt := now; GExpiresAt := None |}.
Definition restore_server (db : GDB) (role : Z) (now : Time) (entry : Audit.AuditEntry) : result change_error GDB :=
  if broken QRestoreServer then Err DbFailed
  else if existsb (is_server_grant role) (grants db)
  then Ok (with_grants db ((fun g => if is_server_grant role g then restored g else g) <$> grants db) (next_grant db))
  else if broken QInsertServer then Err DbFailed
  else Ok (with_grants db (grants db ++ [new_server_grant db role now (Audit.ActorKind entry) (Audit.ActorID entry)])
             (next_grant db + 1)).

Definition SetServerCeiling (override : option Held) (db : GDB) (now logged : Time) (names : list string)
    (entry : Audit.AuditEntry) : result change_error (GDB * list string) :=
  match override with
  | Some _ => Err ErrServerOverridden
  | None =>
      if broken QVocabulary then Err DbFailed
      else
        wants ← wanted (known_names db) names;
        let after := sort_strings (uniq wants) in
        stored ← of_trouble (storedServerCeiling broken db now);
        let before := sortedCapabilities stored in
        if broken QFindServerRole then Err DbFailed
        else match List.filter (fun r => bool_decide (RlName r = RoleServer)) (roles db) with
        | [] => Err DbFailed
        | role :: _ =>
            if broken QClearServer then Err DbFailed
            else if bool_decide (after <> []) && broken QFillServer then Err DbFailed
            else
              let kept := List.filter (fun rc => negb (fst rc =? RlID role)) (role_capabilities db) in
              let filled := (fun id => (RlID role, id)) <$> capability_ids db after in
              db ← restore_server (with_roles db (roles db) (next_role db) (kept ++ filled)) (RlID role) now entry;
              let t := <["before" := Join before ","]> (<["after" := Join after ","]>
                       (<["added" := Join (difference after before) ","]>
                        (<["removed" := Join (difference before after) ","]> (Audit.Target entry)))) in
              db ← append_log db logged (with_target entry ActionServerCapabilitiesUpdate Audit.AuditOutcomeSuccess t);
              Ok (db, after)
        end
  end.

(** A system role created once; [None] when it is there already. *)
Definition insert_role (db : GDB) (name : string) : option (GDB * Z) :=
  if existsb (fun r => bool_decide (RlName r = name)) (roles db) then None
  else Some (with_roles db (roles db ++ [{| RlID := next_role db; RlName := name; SystemRole := true |}])
               (next_role db + 1) (role_capabilities db), next_role db).
Definition EnsureServerCeiling (db : GDB) (now : Time) : result change_error GDB :=
  if broken QInsertRole then Err DbFailed
  else match insert_role db RoleServer with
  | None => Ok db
  | Some (db, role) =>
      if broken QFillServer then Err DbFailed
      else
        let filled := (fun c => (role, CapID c)) <$> List.filter (fun c => negb (bool_decide (CapName c = Wildcard))) (capabilities db) in
        let db := with_roles db (roles db) (next_role db) (role_capabilities db ++ filled) in
        if broken QInsertServer then Err DbFailed
        else Ok (with_grants db (grants db ++ [new_server_grant db role now Audit.AuditActorSystem None])
                   (next_grant db + 1))
  end.
Definition AllowOnServer (db : GDB) (capability : Z) : result change_error GDB :=
  if broken QFillServer then Err DbFailed
  else
    let ids := RlID <$> List.filter (fun r => bool_decide (RlName r = RoleServer)) (roles db) in
    Ok (with_roles db (roles db) (next_role db)
          (role_capabilities db ++ List.filter (fun rc => negb (bool_decide (rc ∈ role_capabilities db)))
                                     ((fun role => (role, capability)) <$> ids))).

(** ** What a new account is given *)

Definition EnsureSystem (db : GDB) (now logged : Time) (account role : Z) (scope mode : string)
  : result change_error (GDB * bool) :=
  match Add db now logged {| GID := 0; HolderKind := GrantHolderAccount; HolderID := account; RoleID := role;
                             GScope := scope; Mode := mode; GrantedByKind := Audit.AuditActorSystem;
                             GrantedByID := None; GrantedAt := 0; GExpiresAt := None |} system_entry with
  | Ok db => Ok (db, true)
  | Err ErrExists => Ok (db, false)
  | Err e => Err e
  end.
Definition ensureOwn (db : GDB) (now logged : Time) (mailbox : Account) (role : string) : result change_error GDB :=
  if broken QFindRole then Err DbFailed
  else match List.filter (fun r => bool_decide (RlName r = role)) (roles db) with
       | [] => Err DbFailed
       | r :: _ => fst <$> EnsureSystem db now logged (AcID mailbox) (RlID r) (Mailbox (AcAddress mailbox)) GrantActive
       end.
Definition EnsureReceive (db : GDB) (now logged : Time) (mailbox : Account) := ensureOwn db now logged mailbox RoleReceiver.
Definition EnsureImport (db : GDB) (now logged : Time) (mailbox : Account) := ensureOwn db now logged mailbox RoleImporter.
Definition EnsureDefaults (db : GDB) (now logged : Time) (mailbox : Account) : result change_error GDB :=
  db ← EnsureReceive db now logged mailbox; EnsureImport db now logged mailbox.

Definition ensureOneCapabilityRole (db : GDB) (name capabilityName : string) : result change_error GDB :=
  if broken QInsertRole then Err DbFailed
  else match insert_role db name with
  | None => Ok db
  | Some (db, role) =>
      if broken QFindCapability then Err DbFailed
      else match List.filter (fun c => bool_decide (CapName c = capabilityName)) (capabilities db) with
      | [] => Err DbFailed
      | c :: _ => if broken QInsertRoleCapability then Err DbFailed
                  else Ok (with_roles db (roles db) (next_role db) (role_capabilities db ++ [(role, CapID c)]))
      end
  end.
Definition EnsureReceiverRole (db : GDB) := ensureOneCapabilityRole db RoleReceiver CapMailReceive.
Definition EnsureImportRole (db : GDB) := ensureOneCapabilityRole db RoleImporter CapMailImport.

(** ** The handlers around them *)

Definition freshGrantCapability (capability : string) : bool :=
  negb (bool_decide (capability = "mail:write") || bool_decide (capability = "mail:receive")).
(** [two_factor]: a person's session signed in with a second factor; [proven]: when. *)
Record Session := { SAccount : Z; two_factor : bool; proven : option Time; window : Duration }.
Definition RequireTwoFactor (s : Session) : result change_error unit :=
  if two_factor s then Ok tt else Err ErrTwoFactorRequired.
Definition RequireFreshTwoFactor (s : Session) (now : Time) : result change_error unit :=
  _ ← RequireTwoFactor s;
  match proven s with
  | None => Err ErrRecentTwoFactor
  | Some at_ => if After at_ now || (window s <? Sub now at_) then Err ErrRecentTwoFactor else Ok tt
  end.
Definition granted_by (account : Z) (g : Grant) : Grant := {|
  GID := GID g; HolderKind := HolderKind g; HolderID := HolderID g; RoleID := RoleID g; GScope := GScope g;
  Mode := Mode g; GrantedByKind := Audit.AuditActorAccount; GrantedByID := Some account;
  GrantedAt := GrantedAt g; GExpiresAt := GExpiresAt g |}.
Definition grantChange_add (override : option Held) (db : GDB) (now logged : Time) (s : Session) (g : Grant)
    (entry : Audit.AuditEntry) : result change_error GDB :=
  _ ← RequireTwoFactor s;
  caps ← of_trouble (RoleCapabilities broken db (RoleID g));
  _ ← (if existsb freshGrantCapability caps then RequireFreshTwoFactor s now else Ok tt);
  _ ← Authorize override db now (SAccount s) (RoleID g) (GScope g);
  Add db now logged (granted_by (SAccount s) g) entry.
Definition grantChange_remove (override : option Held) (db : GDB) (now checked logged logged' : Time) (s : Session)
    (g : Grant) (entry : Audit.AuditEntry) : result change_error GDB :=
  _ ← RequireTwoFactor s;
  _ ← Authorize override db now (SAccount s) (RoleID g) (GScope g);
  Remove db now checked logged logged' g entry.
Definition updateServerCapabilities (override : option Held) (db : GDB) (now logged : Time) (account : Z)
    (names : option (list string)) (entry : Audit.AuditEntry) : result change_error (GDB * list string) :=
  match names with
  | None => Err CapabilitiesRequired
  | Some names =>
      _ ← RequireSuperadmin override db now account;
      SetServerCeiling override db now logged names entry
  end.
End Changes.
End GrantChange.
