(* ===== verification/GrantSafety.v ===== *)
(** * What no change of grants can do

    The tables stay well formed; a superadmin who can use it remains; a grant switched on is
    in force for the time asked for and no longer; and the server's ceiling is what a
    superadmin last made it. *)

From S2P Require Import Prelude GoTime GoStrings Grants AuditLog GrantStore GrantLoad GrantChange.
Import GoTime GoStrings Scope Held GrantsFacts GrantStore GrantLoad GrantChange.
Local Open Scope Z_scope.

Module GrantSafety.

(** What an operation leaves alone apart from the audit log. *)
Definition same_but_log (db db' : GDB) : Prop := db' = with_log db (audit_log db').
Lemma same_but_log_refl db : same_but_log db db.
Proof. by destruct db. Qed.

Section Ops.
Context `{Unicode} (broken : stmt -> bool).

Lemma append_log_same db logged e db' : append_log broken db logged e = Ok db' -> same_but_log db db'.
Proof. unfold append_log. destruct (Audit.Append _ _ _ _) as [log|]; [|done]. intros E. by injection E as <-. Qed.
Lemma appendChange_same db logged g action entry db' :
  appendChange broken db logged g action entry = Ok db' -> same_but_log db db'.
Proof. apply append_log_same. Qed.
Lemma appendActivation_same db logged g a action entry db' :
  appendActivation broken db logged g a action entry = Ok db' -> same_but_log db db'.
Proof. apply append_log_same. Qed.

(** ** Another superadmin remains *)

(** A grant of every capability at "*" that an active account holds and can use: it is in
    force, or can be switched on. *)
Definition usable (db : GDB) (now : Time) (g : Grant) : Prop :=
  g ∈ grants db /\ HolderKind g = GrantHolderAccount /\ GScope g = All /\ Wildcard ∈ caps_of db (RoleID g)
  /\ active_account db (HolderID g) <> []
  /\ (Mode g = GrantActive \/ (Mode g = GrantEligible /\ canSwitchOn db (HolderID g) = true))
  /\ unexpired (GExpiresAt g) now = true.

Lemma superadmin_rows_usable db now : superadmin_rows db now <> [] <-> exists g, usable db now g.
Proof.
  assert (N : superadmin_rows db now <> [] <-> exists g, g ∈ superadmin_rows db now).
  { destruct (superadmin_rows db now) as [|x l]; split; [done|by intros (? & ?%elem_of_nil)| |done].
    intros _. exists x. left. }
  rewrite N. unfold superadmin_rows, usable. split.
  - intros (x & (g & X & G)%list_elem_of_bind). exists g.
    apply list_elem_of_bind in X as (c & X & C). apply list_elem_of_bind in X as (a & _ & A).
    apply list_elem_of_In, filter_In in C as [C%list_elem_of_In W], G as [G%list_elem_of_In P].
    bprop. subst c. destruct P as [[[P1 P2] P3] P4]. split_and!; try done.
    intros E. rewrite E in A. by apply elem_of_nil in A.
  - intros (g & G & P1 & P2 & W & A & P3 & P4). exists g. apply list_elem_of_bind. exists g. split.
    + apply list_elem_of_bind. exists Wildcard. split.
      * destruct (active_account db (HolderID g)) as [|a l]; [done|]. by left.
      * apply list_elem_of_In, filter_In. split; [by apply list_elem_of_In|by apply bool_decide_eq_true].
    + apply list_elem_of_In, filter_In. split; [by apply list_elem_of_In|]. bprop. tauto.
Qed.

(** [wasSuperadmin] misses no usable grant. *)
Lemma wasSuperadmin_usable db now g :
  HolderKind g = GrantHolderAccount -> GScope g = All -> Wildcard ∈ caps_of db (RoleID g) ->
  (exists a l, List.filter (fun a => AcID a =? HolderID g) (accounts db) = a :: l /\ AcActive a = true) ->
  (Mode g = GrantActive \/ (Mode g = GrantEligible /\ canSwitchOn db (HolderID g) = true)) ->
  unexpired (GExpiresAt g) now = true -> wasSuperadmin broken db now g = true.
Proof.
  intros K S W (a & l & A & AA) M U. unfold wasSuperadmin. rewrite !bool_decide_eq_true_2 by done. cbn [negb orb].
  rewrite U, A, AA. cbn [negb]. unfold has_wildcard. rewrite (bool_decide_eq_true_2 (Wildcard ∈ _)) by done.
  assert (R : (if broken QHolderActive then true else if broken (QRoleCapabilities (RoleID g)) then true else true) = true)
    by (by destruct (broken QHolderActive), (broken (QRoleCapabilities (RoleID g)))).
  destruct M as [M|[M C]].
  - by rewrite bool_decide_eq_true_2.
  - destruct (bool_decide (Mode g = GrantActive)); [done|]. rewrite bool_decide_eq_true_2, C by done.
    by destruct (broken QTotp).
Qed.
End Ops.

(** ** Well-formed tables *)

Definition unended (a : GrantActivation) : bool := bool_decide (EndedAt a = None).

(** The keys and unique indexes of the tables, the sequences ahead of them, and nothing but
    the ceiling's own role granted to the server. *)
Record wf (db : GDB) : Prop := {
  wf_accounts : NoDup (AcID <$> accounts db);
  wf_grants : NoDup (GID <$> grants db);
  wf_grants_next : Forall (fun g => GID g < next_grant db) (grants db);
  wf_grants_index : NoDup ((fun g => (HolderKind g, HolderID g, RoleID g, GScope g)) <$> grants db);
  wf_activations : NoDup (ActID <$> activations db);
  wf_activations_next : Forall (fun a => ActID a < next_activation db) (activations db);
  wf_one_open : NoDup (ActGrantID <$> List.filter unended (activations db));
  wf_roles : NoDup (RlID <$> roles db);
  wf_role_names : NoDup (RlName <$> roles db);
  wf_roles_next : Forall (fun r => RlID r < next_role db) (roles db);
  wf_capabilities : NoDup (CapID <$> capabilities db);
  wf_capability_names : NoDup (CapName <$> capabilities db);
  wf_server : Forall (fun g => HolderKind g = GrantHolderServer -> server_role db (RoleID g) = true) (grants db)
}.

Lemma NoDup_fmap_inj {A B} (f : A -> B) (l : list A) x y : NoDup (f <$> l) -> x ∈ l -> y ∈ l -> f x = f y -> x = y.
Proof.
  induction l as [|z l IH]; [by intros _ ?%elem_of_nil|]. cbn. intros [N D]%NoDup_cons X Y E.
  apply elem_of_cons in X as [->|X], Y as [->|Y]; [done| | |by apply IH].
  - exfalso. apply N. rewrite E. by apply list_elem_of_fmap_2.
  - exfalso. apply N. rewrite <- E. by apply list_elem_of_fmap_2.
Qed.
Lemma elem_of_filter_In {A} (p : A -> bool) l x : x ∈ List.filter p l <-> x ∈ l /\ p x = true.
Proof. by rewrite !list_elem_of_In, filter_In. Qed.
Lemma NoDup_fmap_filter {A B} (f : A -> B) (p : A -> bool) l : NoDup (f <$> l) -> NoDup (f <$> List.filter p l).
Proof.
  induction l as [|x l IH]; [done|]. cbn. intros [N D]%NoDup_cons. destruct (p x); [|by apply IH].
  cbn. apply NoDup_cons. split; [|by apply IH]. intros (y & E & Y)%list_elem_of_fmap.
  apply elem_of_filter_In in Y as [Y _]. apply N. rewrite E. by apply list_elem_of_fmap_2.
Qed.
Lemma Forall_filter_impl {A} (P : A -> Prop) (p : A -> bool) l : Forall P l -> Forall P (List.filter p l).
Proof. rewrite !Forall_forall. intros F x X. apply F. by apply elem_of_filter_In in X as []. Qed.

Lemma active_account_first db id : NoDup (AcID <$> accounts db) -> active_account db id <> [] ->
  exists a l, List.filter (fun a => AcID a =? id) (accounts db) = a :: l /\ AcActive a = true.
Proof.
  intros D N. destruct (active_account db id) as [|a l] eqn:A; [done|].
  assert (I : a ∈ active_account db id) by (rewrite A; left).
  apply elem_of_filter_In in I as [I [Q AA]%andb_prop].
  destruct (List.filter (fun a => AcID a =? id) (accounts db)) as [|b m] eqn:F.
  - assert (X : a ∈ []); [|by apply elem_of_nil in X]. rewrite <- F. by apply elem_of_filter_In.
  - exists b, m. split; [done|]. assert (X : b ∈ b :: m) by left. rewrite <- F in X. apply elem_of_filter_In in X as [X Qb].
    rewrite (NoDup_fmap_inj AcID (accounts db) b a); [done..|bool_lia].
Qed.

Lemma usable_earlier db now later g : now <= later -> usable db later g -> usable db now g.
Proof.
  intros L (P1 & P2 & P3 & P4 & P5 & P6 & P7). split_and!; try done. by apply (unexpired_later now later).
Qed.
Lemma usable_same db db' now g : same_but_log db db' -> usable db now g <-> usable db' now g.
Proof. intros ->. done. Qed.

Section Remove.
Context `{Unicode} (broken : stmt -> bool).

Lemma Remove_inv db now checked logged logged' g entry db' :
  Remove broken db now checked logged logged' g entry = Ok db' ->
  HolderKind g <> GrantHolderServer
  /\ (superadmin_rows (delete_grant db (GID g)) now <> [] \/ wasSuperadmin broken (delete_grant db (GID g)) checked g = false)
  /\ same_but_log (delete_grant db (GID g)) db'.
Proof.
  unfold Remove. intros E. destruct (bool_decide (HolderKind g = GrantHolderServer)) eqn:K; [done|].
  apply result_bind_ok in E as (r & _ & E). destruct (broken QDeleteActivations); [done|].
  destruct (broken QDeleteGrant); [done|]. destruct (broken QRemaining); [done|].
  destruct (_ && _) eqn:S; [done|]. apply result_bind_ok in E as (d & D & E).
  apply appendChange_same in E. split; [by bprop|]. split.
  - apply andb_false_iff in S as [S|S]; [left|by right]. by bprop.
  - destruct r as [a|]; [apply appendActivation_same in D|injection D as <-; done].
    unfold same_but_log in *. rewrite E, D. done.
Qed.

Lemma Remove_keeps db now checked logged logged' g entry db' :
  wf db -> g ∈ grants db -> now <= checked ->
  Remove broken db now checked logged logged' g entry = Ok db' ->
  (exists u, usable db checked u) -> exists u, usable db' now u.
Proof.
  intros W G L E (u & U). apply Remove_inv in E as (K & S & same).
  setoid_rewrite <- (usable_same _ _ _ _ same). apply superadmin_rows_usable.
  destruct S as [S|S]; [done|]. intros N. destruct (decide (GID u = GID g)) as [Q|Q].
  - pose proof U as (U1 & U2 & U3 & U4 & U5 & U6 & U7).
    assert (u = g) as -> by by apply (NoDup_fmap_inj GID (grants db)); [apply wf_grants| | |].
    rewrite wasSuperadmin_usable in S; [done..| |done|done].
    exact (active_account_first _ _ (wf_accounts _ W) U5).
  - assert (M : exists u, usable (delete_grant db (GID g)) now u).
    { exists u. destruct (usable_earlier _ _ _ _ L U) as (U1 & U'). split; [|exact U'].
      apply elem_of_filter_In. split; [done|]. by apply negb_true_iff, Z.eqb_neq. }
    by apply superadmin_rows_usable in M.
Qed.

End Remove.

(** ** Every operation keeps the tables well formed *)

Lemma NoDup_snoc {A} (l : list A) x : NoDup l -> x ∉ l -> NoDup (l ++ [x]).
Proof. intros N X. apply NoDup_app. split_and!; [done|set_solver|apply NoDup_singleton]. Qed.
Lemma fmap_same {A B} (f : A -> B) (u : A -> A) (l : list A) : (forall x, f (u x) = f x) -> f <$> (u <$> l) = f <$> l.
Proof. intros E. rewrite <- list_fmap_compose. apply list_fmap_ext. intros i x _. apply E. Qed.
Lemma existsb_not {A} (p : A -> bool) l x : existsb p l = false -> x ∈ l -> p x = false.
Proof. rewrite existsb_false. auto. Qed.

Lemma wf_log db log : wf db -> wf (with_log db log).
Proof. intros []. by constructor. Qed.
Lemma wf_same db db' : same_but_log db db' -> wf db -> wf db'.
Proof. intros -> W. by apply wf_log. Qed.

Lemma wf_add_grant db g : wf db -> GID g = next_grant db -> existsb (same_grant g) (grants db) = false ->
  (HolderKind g = GrantHolderServer -> server_role db (RoleID g) = true) ->
  wf (with_grants db (grants db ++ [g]) (next_grant db + 1)).
Proof.
  intros W I S R. destruct W; constructor; try done; cbn [grants with_grants next_grant].
  - rewrite fmap_app. apply NoDup_snoc; [done|]. cbn. intros (x & Q & X)%list_elem_of_fmap.
    pose proof (proj1 (Forall_forall _ _) wf_grants_next0 x X). cbn in *. lia.
  - apply Forall_app. split; [|constructor; [lia|constructor]]. apply (Forall_impl _ _ _ wf_grants_next0). intros x X. lia.
  - rewrite fmap_app. apply NoDup_snoc; [done|]. cbn. intros (x & Q & X)%list_elem_of_fmap. injection Q as Q1 Q2 Q3 Q4.
    pose proof (existsb_not _ _ _ S X) as N. unfold same_grant in N.
    rewrite <- Q1, <- Q2, <- Q3, <- Q4, !bool_decide_eq_true_2, !Z.eqb_refl in N by done. discriminate N.
  - apply Forall_app. split; [done|]. by constructor.
Qed.

Lemma wf_update_grants db u : wf db ->
  (forall g, GID (u g) = GID g /\ HolderKind (u g) = HolderKind g /\ HolderID (u g) = HolderID g
             /\ RoleID (u g) = RoleID g /\ GScope (u g) = GScope g) ->
  wf (with_grants db (u <$> grants db) (next_grant db)).
Proof.
  intros W U. destruct W; constructor; try done; cbn [grants with_grants next_grant].
  - by rewrite fmap_same by apply U.
  - apply Forall_fmap. apply (Forall_impl _ _ _ wf_grants_next0). intros g G. cbn. by rewrite (proj1 (U g)).
  - rewrite fmap_same; [done|]. intros g. by destruct (U g) as (_ & -> & -> & -> & ->).
  - apply Forall_fmap. apply (Forall_impl _ _ _ wf_server0). intros g G. cbn. by destruct (U g) as (_ & -> & _ & -> & _).
Qed.

Lemma wf_delete db id : wf db -> wf (delete_grant db id).
Proof.
  intros W. destruct W; constructor; try done; cbn [grants activations with_grants with_activations delete_grant].
  all: try by apply NoDup_fmap_filter. all: try by apply Forall_filter_impl.
  assert (E : forall l, List.filter unended (List.filter (fun a => negb (ActGrantID a =? id)) l)
            = List.filter (fun a => negb (ActGrantID a =? id)) (List.filter unended l)).
  { induction l as [|a l IH]; [done|]. cbn.
    destruct (negb _) eqn:A, (unended a) eqn:B; cbn; rewrite ?A, ?B, IH; done. }
  rewrite E. by apply NoDup_fmap_filter.
Qed.

Lemma open_ended l id t : NoDup (ActGrantID <$> List.filter unended l) ->
  NoDup (ActGrantID <$> List.filter unended ((fun a => if ActID a =? id then ended t a else a) <$> l)).
Proof.
  assert (S : forall x l, x ∈ ActGrantID <$> List.filter unended ((fun a => if ActID a =? id then ended t a else a) <$> l) ->
    x ∈ ActGrantID <$> List.filter unended l).
  { clear. intros x l (a & -> & A)%list_elem_of_fmap. apply elem_of_filter_In in A as [A U].
    apply list_elem_of_fmap in A as (b & -> & B). destruct (ActID b =? id); [done|]. apply list_elem_of_fmap_2.
    by apply elem_of_filter_In. }
  induction l as [|a l IH]; [done|]. cbn. destruct (ActID a =? id) eqn:Q; cbn.
  - intros N. apply IH. destruct (unended a); [|done]. by apply NoDup_cons in N as [_ N].
  - destruct (unended a); [|exact IH]. cbn. intros [N D]%NoDup_cons. apply NoDup_cons. split; [|by apply IH].
    intros X. by apply N, S.
Qed.
Lemma wf_update_activation db id t : wf db -> wf (update_activation db id (ended t)).
Proof.
  intros W. destruct W; constructor; try done; cbn [activations with_activations update_activation next_activation].
  - rewrite fmap_same; [done|]. intros a. by destruct (ActID a =? id).
  - apply Forall_fmap. apply (Forall_impl _ _ _ wf_activations_next0). intros a A. cbn. by destruct (ActID a =? id).
  - by apply open_ended.
Qed.

Lemma wf_roles_same db rcs : wf db -> wf (with_roles db (roles db) (next_role db) rcs).
Proof. intros []. by constructor. Qed.

Section Steps.
Context `{Unicode} (broken : stmt -> bool).

Lemma wf_Add db now logged g entry db' : wf db -> Add broken db now logged g entry = Ok db' -> wf db'.
Proof.
  unfold Add. intros W E. destruct (bool_decide (HolderKind g = GrantHolderServer)) eqn:K; [done|].
  destruct (broken QServerRole); [done|]. destruct (server_role db (RoleID g)); [done|].
  destruct (broken QInsertGrant); [done|]. destruct (existsb (same_grant g) (grants db)) eqn:S; [done|].
  apply appendChange_same in E. refine (wf_same _ _ E _). apply wf_add_grant; [done|done|exact S|].
  cbn. bprop. done.
Qed.
Lemma wf_Remove db now checked logged logged' g entry db' :
  wf db -> Remove broken db now checked logged logged' g entry = Ok db' -> wf db'.
Proof. intros W E. apply Remove_inv in E as (_ & _ & E). refine (wf_same _ _ E _). by apply wf_delete. Qed.

Lemma wf_end_each db logged l db' : wf db -> end_each broken db logged l = Ok db' -> wf db'.
Proof.
  revert db. induction l as [|a l IH]; intros db W E; cbn [end_each] in E; [by injection E as <-|].
  destruct (broken QExpiredGrant); [done|]. destruct (broken QEndActivation); [done|].
  apply result_bind_ok in E as (d & D & E). apply appendActivation_same in D.
  refine (IH d _ E). refine (wf_same _ _ D _). by apply wf_update_activation.
Qed.
Lemma wf_endExpired db grant now logged r : wf db -> endExpired broken db grant now logged = Ok r -> wf (fst r).
Proof.
  unfold endExpired. intros W E. destruct (broken QExpired); [done|]. apply result_bind_ok in E as (d & D & E).
  injection E as <-. exact (wf_end_each _ _ _ _ W D).
Qed.

(** What an activation that succeeds did. *)
Lemma Activate_inv db now logged g length reason entry db' a :
  Activate broken db now logged g length reason entry = Ok (db', a) ->
  Mode g = GrantEligible /\ unexpired (GExpiresAt g) now = true
  /\ exists swept n, endExpired broken db (GID g) now logged = Ok (swept, n)
  /\ a = {| ActID := next_activation swept; ActGrantID := GID g; ActivatedAt := now;
            AExpiresAt := activation_end g now length; AReason := reason; EndedAt := None |}
  /\ existsb (fun x => (ActGrantID x =? GID g) && unended x) (activations swept) = false
  /\ same_but_log (with_activations swept (activations swept ++ [a]) (next_activation swept + 1)) db'.
Proof.
  unfold Activate. intros E. destruct (bool_decide (Mode g = GrantEligible)) eqn:M; [|done]. cbn [negb] in E.
  destruct (unexpired (GExpiresAt g) now) eqn:U; [|done]. cbn [negb] in E.
  apply result_bind_ok in E as ([swept n] & S & E). apply result_bind_ok in E as (r & _ & E).
  destruct r; [done|]. apply result_bind_ok in E as (d & D & E). apply result_bind_ok in E as (d' & D' & E).
  injection E as <- <-. unfold insert_activation in D. destruct (broken QInsertActivation); [done|]. cbn [orb] in D.
  destruct (existsb _ _) eqn:X; [done|]. injection D as <-. split; [by bprop|]. split; [done|].
  exists swept, n. split_and!; [done..|]. by apply appendActivation_same in D'.
Qed.
Lemma wf_Activate db now logged g length reason entry db' a :
  wf db -> Activate broken db now logged g length reason entry = Ok (db', a) -> wf db'.
Proof.
  intros W E. apply Activate_inv in E as (_ & _ & swept & n & S & -> & X & E). refine (wf_same _ _ E _).
  apply wf_endExpired in S; [|done]. cbn [fst] in S. destruct S. constructor; try done;
    cbn [activations with_activations next_activation].
  - rewrite fmap_app. apply NoDup_snoc; [done|]. cbn. intros (x & Q & I)%list_elem_of_fmap.
    pose proof (proj1 (Forall_forall _ _) wf_activations_next0 x I). cbn in *. lia.
  - apply Forall_app. split; [|repeat constructor; cbn; lia]. apply (Forall_impl _ _ _ wf_activations_next0). intros x I. lia.
  - rewrite List.filter_app, fmap_app. apply NoDup_snoc; [done|]. cbn. intros (x & Q & I)%list_elem_of_fmap.
    apply elem_of_filter_In in I as [I O]. pose proof (existsb_not _ _ _ X I) as N. cbn in N.
    rewrite O, andb_true_r in N. bprop. congruence.
Qed.
Lemma wf_Deactivate db now logged g entry db' a :
  wf db -> Deactivate broken db now logged g entry = Ok (db', a) -> wf db'.
Proof.
  unfold Deactivate. intros W E. apply result_bind_ok in E as ([swept n] & S & E).
  apply wf_endExpired in S; [|done]. apply result_bind_ok in E as (r & _ & E). destruct r as [x|]; [|done].
  destruct (broken QEndActivation); [done|]. apply result_bind_ok in E as (d & D & E). injection E as <- _.
  apply appendActivation_same in D. refine (wf_same _ _ D _). by apply wf_update_activation.
Qed.
Lemma wf_MakeEligible db logged g entry db' : wf db -> MakeEligible broken db logged g entry = Ok db' -> wf db'.
Proof.
  unfold MakeEligible. intros W E. destruct (bool_decide _); [done|]. destruct (broken _); [done|].
  apply appendChange_same in E. refine (wf_same _ _ E _). apply wf_update_grants; [done|].
  intros x. by destruct (GID x =? GID g).
Qed.
End Steps.

(** ** The server ceiling is what it was last made *)

Section Ceiling.
Context `{Unicode} (broken : stmt -> bool).

Lemma restore_server_inv db role now entry db' : restore_server broken db role now entry = Ok db' ->
  (existsb (is_server_grant role) (grants db) = true
   /\ db' = with_grants db ((fun g => if is_server_grant role g then restored g else g) <$> grants db) (next_grant db))
  \/ (existsb (is_server_grant role) (grants db) = false
   /\ db' = with_grants db (grants db ++ [new_server_grant db role now (Audit.ActorKind entry) (Audit.ActorID entry)])
             (next_grant db + 1)).
Proof.
  unfold restore_server. destruct (broken QRestoreServer); [done|]. destruct (existsb _ _).
  - intros E. injection E as <-. by left.
  - destruct (broken QInsertServer); [done|]. intros E. injection E as <-. by right.
Qed.
Lemma server_role_head db role rs : List.filter (fun r => bool_decide (RlName r = RoleServer)) (roles db) = role :: rs ->
  server_role db (RlID role) = true.
Proof.
  intros F. assert (I : role ∈ role :: rs) by left. rewrite <- F in I. apply elem_of_filter_In in I as [I N].
  unfold server_role. apply existsb_elem. exists role. split; [done|]. by rewrite Z.eqb_refl, N.
Qed.
Lemma wf_restore_server db role now entry db' : server_role db role = true -> wf db ->
  restore_server broken db role now entry = Ok db' -> wf db'.
Proof.
  intros R W E. apply restore_server_inv in E as [[X ->]|[X ->]].
  - apply wf_update_grants; [done|]. intros g. by destruct (is_server_grant role g).
  - apply wf_add_grant; [done|done| |done]. apply existsb_false. intros g G.
    pose proof (existsb_not _ _ _ X G) as N. exact N.
Qed.

(** After restoring, every grant of the role to the server is in force for good, and there is one. *)
Lemma restored_in_force db role now entry db' : restore_server broken db role now entry = Ok db' ->
  (exists g, g ∈ grants db' /\ is_server_grant role g = true)
  /\ forall g, g ∈ grants db' -> is_server_grant role g = true -> Mode g = GrantActive /\ GExpiresAt g = None.
Proof.
  intros E. apply restore_server_inv in E as [[X ->]|[X ->]]; cbn [grants with_grants].
  - split.
    + apply existsb_elem in X as (g & G & S). exists (restored g). split; [|exact S].
      apply list_elem_of_fmap. exists g. by rewrite S.
    + intros g (x & -> & G)%list_elem_of_fmap. destruct (is_server_grant role x) eqn:S; [done|congruence].
  - split.
    + eexists. split; [apply elem_of_app; right; by left|]. unfold is_server_grant. cbn. by rewrite Z.eqb_refl.
    + intros g [G|G%list_elem_of_singleton]%elem_of_app S; [|by subst].
      pose proof (existsb_not _ _ _ X G) as N. congruence.
Qed.

Lemma wanted_spec vocabulary names wants : wanted vocabulary names = Ok wants ->
  wants = TrimSpace <$> names
  /\ Forall (fun n => n <> Wildcard /\ n ∈ vocabulary) wants.
Proof.
  revert wants. induction names as [|n names IH]; intros wants E; cbn [wanted] in E; [by injection E as <-|].
  destruct (checkServerCapability _ _) as [u|] eqn:C; [|done]. apply result_bind_ok in E as (rest & R & E). injection E as <-.
  destruct (IH _ R) as [-> F]. split; [done|]. constructor; [|done]. unfold checkServerCapability in C.
  destruct (bool_decide (TrimSpace n = "")); [done|]. destruct (bool_decide (TrimSpace n = Wildcard)) eqn:B2; [done|].
  destruct (bool_decide (TrimSpace n ∈ vocabulary)) eqn:B3; [|done]. by bprop.
Qed.

Lemma SetServerCeiling_inv override db now logged names entry db' after :
  SetServerCeiling broken override db now logged names entry = Ok (db', after) ->
  override = None
  /\ exists wants role rs d, wanted (known_names db) names = Ok wants /\ after = sort_strings (uniq wants)
     /\ List.filter (fun r => bool_decide (RlName r = RoleServer)) (roles db) = role :: rs
     /\ restore_server broken (with_roles db (roles db) (next_role db)
            (List.filter (fun rc => negb (fst rc =? RlID role)) (role_capabilities db)
             ++ ((fun id => (RlID role, id)) <$> capability_ids db after))) (RlID role) now entry = Ok d
     /\ same_but_log d db'.
Proof.
  unfold SetServerCeiling. destruct override; [done|]. intros E. split; [done|]. destruct (broken QVocabulary); [done|].
  apply result_bind_ok in E as (wants & W & E). cbv zeta in E. apply result_bind_ok in E as (stored & _ & E).
  destruct (broken QFindServerRole); [done|].
  destruct (List.filter _ (roles db)) as [|role rs] eqn:R; [done|]. destruct (broken QClearServer); [done|].
  destruct (_ && _); [done|]. apply result_bind_ok in E as (d & D & E). apply result_bind_ok in E as (d' & D' & E).
  injection E as <- <-. exists wants, role, rs, d. split_and!; [done..|]. by apply append_log_same in D'.
Qed.
Lemma wf_SetServerCeiling override db now logged names entry db' after : wf db ->
  SetServerCeiling broken override db now logged names entry = Ok (db', after) -> wf db'.
Proof.
  intros W E. apply SetServerCeiling_inv in E as (_ & wants & role & rs & d & _ & _ & R & D & E).
  refine (wf_same _ _ E _). refine (wf_restore_server _ _ _ _ _ _ _ D); [|by apply wf_roles_same].
  exact (server_role_head _ _ _ R).
Qed.

(** A role filled with capabilities gives exactly those. *)
Lemma caps_of_filled db role names c :
  NoDup (CapID <$> capabilities db) -> (forall n, n ∈ names -> n ∈ known_names db) ->
  c ∈ caps_of (with_roles db (roles db) (next_role db)
                (List.filter (fun rc => negb (fst rc =? role)) (role_capabilities db)
                 ++ ((fun id => (role, id)) <$> capability_ids db names))) role
  <-> c ∈ names.
Proof.
  intros D K. unfold caps_of. cbn [role_capabilities capabilities with_roles]. rewrite list_elem_of_bind. split.
  - intros ([r id] & C & I). cbn [fst snd] in C. destruct (r =? role) eqn:R; [|by apply elem_of_nil in C].
    apply list_elem_of_fmap in C as (row & -> & C). apply elem_of_filter_In in C as [C Q].
    apply elem_of_app in I as [I|I].
    + apply elem_of_filter_In in I as [_ I]. cbn in I. by rewrite R in I.
    + apply list_elem_of_fmap in I as (id' & E & I). injection E as _ ->. unfold capability_ids in I.
      apply list_elem_of_fmap in I as (row' & -> & I). apply elem_of_filter_In in I as [I N].
      rewrite (NoDup_fmap_inj CapID (capabilities db) row row'); [by bprop|done..|bool_lia].
  - intros N. pose proof (K c N) as I. unfold known_names in I. apply list_elem_of_fmap in I as (row & -> & I).
    apply elem_of_filter_In in I as [I _]. exists (role, CapID row). cbn [fst snd]. rewrite Z.eqb_refl. split.
    + apply list_elem_of_fmap_2. apply elem_of_filter_In. split; [done|apply Z.eqb_refl].
    + apply elem_of_app. right. apply list_elem_of_fmap_2. unfold capability_ids. apply list_elem_of_fmap_2.
      apply elem_of_filter_In. split; [done|]. by apply bool_decide_eq_true.
Qed.

Lemma server_grants_role db g role rs : wf db ->
  List.filter (fun r => bool_decide (RlName r = RoleServer)) (roles db) = role :: rs ->
  g ∈ grants db -> HolderKind g = GrantHolderServer -> RoleID g = RlID role.
Proof.
  intros W R G K. pose proof (proj1 (Forall_forall _ _) (wf_server _ W) g G K) as S. unfold server_role in S.
  apply existsb_elem in S as (r & I & Q). bprop. destruct Q as [Q1 Q2]. rewrite <- Q1. f_equal.
  assert (J : role ∈ role :: rs) by left. rewrite <- R in J. apply elem_of_filter_In in J as [J N]. bprop.
  apply (NoDup_fmap_inj RlName (roles db)); [apply wf_role_names|..]; congruence || done.
Qed.
End Ceiling.

(** The ceiling is exactly what a superadmin last made it. A change that succeeds leaves
    as the ceiling, at any time after, in sorted order, the names asked for, trimmed, each
    once: every one a capability that exists, never the wildcard, whatever the role held
    before and even if the server's grant had been removed, expired or switched to eligible;
    and it is refused while the operator's variable sets the ceiling. *)
Theorem ceiling_is_as_set `{Unicode} (broken : stmt -> bool) (override : option Held) (db : GDB) (now logged : Time)
    (names : list string) (entry : Audit.AuditEntry) (db' : GDB) (after : list string) :
  wf db -> SetServerCeiling broken override db now logged names entry = Ok (db', after) ->
  override = None
  /\ (forall c, c ∈ after <-> c ∈ TrimSpace <$> names)
  /\ Forall (fun c => c <> Wildcard /\ c ∈ known_names db) after
  /\ forall t, ServerCeiling sound db' t None = Ok (after, false).
Proof.
  intros W E. apply SetServerCeiling_inv in E as (O & wants & role & rs & d & Hw & -> & R & D & E).
  apply wanted_spec in Hw as [-> F]. split; [done|]. split; [apply elem_of_sort_uniq|].
  assert (F' : Forall (fun c => c <> Wildcard /\ c ∈ known_names db) (sort_strings (uniq (TrimSpace <$> names)))).
  { apply Forall_forall. intros c C. exact (proj1 (Forall_forall _ _) F c (proj1 (elem_of_sort_uniq _ _) C)). }
  split; [done|]. intros t. unfold ServerCeiling, storedServerCeiling. cbn [sound]. rewrite E.
  unfold sound. cbn [mbind result_bind]. f_equal. f_equal. unfold sortedCapabilities. apply sort_uniq_ext.
  set (names' := sort_strings (uniq (TrimSpace <$> names))) in *.
  pose proof (fun c => caps_of_filled db (RlID role) names' c (wf_capabilities _ W)
                (fun n N => proj2 (proj1 (Forall_forall _ _) F' n N))) as C.
  pose proof D as S. apply restore_server_inv in S.
  assert (Wd : wf d). { refine (wf_restore_server broken _ _ _ _ _ _ _ D); [exact (server_role_head _ _ _ R)|by apply wf_roles_same]. }
  apply restored_in_force in D as [(g & G & SG) All_].
  assert (Cd : forall c, c ∈ caps_of d (RlID role) <-> c ∈ names').
  { intros c. rewrite <- C. by destruct S as [[_ ->]|[_ ->]]. }
  assert (Rd : roles d = roles db) by (by destruct S as [[_ ->]|[_ ->]]).
  intros c. cbn [grants role_capabilities capabilities with_log]. transitivity (c ∈ names'); [|apply elem_of_sort_uniq].
  rewrite <- Cd, list_elem_of_fmap. split.
  - intros (e & -> & I). apply list_elem_of_bind in I as (x & I & X). apply elem_of_filter_In in X as [X SX].
    unfold server_grant in SX. bprop. destruct SX as ((((K & _) & _) & _) & _).
    apply list_elem_of_fmap in I as (c & -> & I). apply elem_of_filter_In in I as [I _]. cbn.
    rewrite <- (server_grants_role d x role rs Wd ltac:(by rewrite Rd) X K). exact I.
  - intros I. exists {| EScope := All; Capability := c |}. split; [done|]. apply list_elem_of_bind. exists g.
    destruct (All_ g G SG) as [M X]. unfold is_server_grant in SG. bprop. destruct SG as (((K & HI) & HR) & HS). split.
    + apply list_elem_of_fmap. exists c. rewrite HS. split; [done|]. apply elem_of_filter_In. rewrite HR. split; [exact I|].
      apply negb_true_iff, bool_decide_eq_false. apply Cd in I. exact (proj1 (proj1 (Forall_forall _ _) F' c I)).
    + apply elem_of_filter_In. split; [done|]. unfold server_grant. rewrite X, HI. cbn [unexpired].
      by rewrite !bool_decide_eq_true_2.
Qed.

(** ** Switching on *)

(** A grant is in force at [t]: what [Load] reads rows of. *)
Definition in_force (db : GDB) (g : Grant) (t : Time) : bool :=
  unexpired (GExpiresAt g) t
  && (bool_decide (Mode g = GrantActive)
      || (bool_decide (Mode g = GrantEligible) && negb (bool_decide (live db (GID g) t = [])))).

Lemma grant_rows_in_force db t g : in_force db g t = false -> grant_rows db t g = [].
Proof.
  unfold in_force, grant_rows. destruct (unexpired (GExpiresAt g) t); [|done]. cbn [negb andb]. intros F.
  apply orb_false_iff in F as [F1 F2]. destruct (live db (GID g) t) as [|a l] eqn:L; cbn [left_join].
  - rewrite bind_cons. unfold mode_counts. by rewrite F1, andb_false_r.
  - rewrite (bool_decide_eq_false_2 (a :: l = [])), andb_true_r in F2 by done.
    generalize (a :: l). intros m. induction m as [|x m IH]; [done|].
    rewrite fmap_cons, bind_cons, IH. unfold mode_counts. by rewrite F1, F2.
Qed.

Lemma live_only db grant a t : (forall x, x ∈ activations db -> ActGrantID x = grant -> unended x = true -> x = a) ->
  a ∈ activations db -> ActGrantID a = grant -> EndedAt a = None ->
  bool_decide (live db grant t = []) = negb (t <? AExpiresAt a).
Proof.
  intros O A G N. unfold live. destruct (t <? AExpiresAt a) eqn:T; cbn [negb].
  - apply bool_decide_eq_false. intros E. assert (X : a ∈ []); [|by apply elem_of_nil in X]. rewrite <- E.
    apply elem_of_filter_In. split; [done|]. unfold running. rewrite N, T, andb_true_r. by apply Z.eqb_eq.
  - apply bool_decide_eq_true. destruct (List.filter _ _) as [|x l] eqn:F; [done|]. exfalso.
    assert (X : x ∈ x :: l) by left. rewrite <- F in X. apply elem_of_filter_In in X as [X Q]. unfold running in Q.
    bprop. destruct Q as [Q1 Q2]. destruct (EndedAt x) as [y|] eqn:EX; [done|].
    rewrite (O x X Q1) in Q2; [bool_lia|]. unfold unended. rewrite EX. done.
Qed.

(** Recording the lapsed activations leaves the others as they are. *)
Lemma end_each_keeps `{Unicode} (broken : stmt -> bool) db logged l db' x :
  end_each broken db logged l = Ok db' -> x ∈ activations db -> (forall y, y ∈ l -> ActID y <> ActID x) ->
  x ∈ activations db'.
Proof.
  revert db. induction l as [|y l IH]; intros db E X N; cbn [end_each] in E; [by injection E as <-|].
  destruct (broken QExpiredGrant); [done|]. destruct (broken QEndActivation); [done|].
  apply result_bind_ok in E as (d & D & E). apply appendActivation_same in D. apply (IH d E).
  - rewrite D. cbn. apply list_elem_of_fmap. exists x. split; [|done].
    rewrite (proj2 (Z.eqb_neq _ _)); [done|]. intros Q. apply (N y); [by left|done].
  - intros z Z. apply N. by right.
Qed.
Lemma endExpired_keeps `{Unicode} (broken : stmt -> bool) db grant now logged r x : wf db ->
  endExpired broken db grant now logged = Ok r -> x ∈ activations db -> running now x = true -> x ∈ activations (fst r).
Proof.
  unfold endExpired. intros W E X R. destruct (broken QExpired); [done|]. apply result_bind_ok in E as (d & D & E).
  injection E as <-. apply (end_each_keeps _ _ _ _ _ _ D X). intros y Y Q. apply elem_of_filter_In in Y as [Y L].
  rewrite (NoDup_fmap_inj ActID (activations db) y x (wf_activations _ W) Y X Q) in L.
  apply andb_prop in L as [L _]. unfold lapsed in L. unfold running in R. destruct (EndedAt x); [done|]. bool_lia.
Qed.

(** Just-in-time access. An eligible grant that is not switched on gives its holder
    nothing. Switching it on, which is refused when it is on already or has expired, puts it
    in force from that moment on until exactly the earlier of the length asked for and the
    grant's own expiry, and not a moment longer; the length an administrator can ask for is
    between one minute and four hours. *)
Theorem switched_on_until `{Unicode} (broken : stmt -> bool) (db : GDB) (now logged : Time) (g : Grant)
    (minutes : option Z) (length : Duration) (reason : string) (entry : Audit.AuditEntry) (db' : GDB)
    (a : GrantActivation) :
  wf db -> activation_length minutes = Some length ->
  Activate broken db now logged g length reason entry = Ok (db', a) ->
  Minute <= length <= 240 * Minute
  /\ in_force db g now = false /\ grant_rows db now g = []
  /\ forall t, in_force db' g t = (t <? now + length) && unexpired (GExpiresAt g) t.
Proof.
  intros W L E.
  assert (B : Minute <= length <= 240 * Minute).
  { destruct minutes as [m|]; [|injection L as <-; split; vm_compute; discriminate].
    change ((if (m <? 1) || (240 <? m) then None else Some (times m Minute)) = Some length) in L.
    destruct ((m <? 1) || (240 <? m)) eqn:Q; [discriminate L|]. injection L as <-. bprop. unfold times, Minute, Second in *.
    rewrite GoInt.wrap64_id; unfold GoInt.in64, GoInt.min_int64, GoInt.max_int64; lia. }
  apply Activate_inv in E as (M & U & swept & n & S & A & X & D).
  assert (NL : live db (GID g) now = []).
  { destruct (live db (GID g) now) as [|x l] eqn:Lv; [done|]. exfalso. assert (I : x ∈ x :: l) by left.
    rewrite <- Lv in I. apply elem_of_filter_In in I as [I Q]. bprop. destruct Q as [Q1 Q2].
    apply (endExpired_keeps broken _ _ _ _ _ x W) in S; [|done|done]. cbn [fst] in S.
    pose proof (existsb_not _ _ _ X S) as N. cbn in N. rewrite (proj2 (Z.eqb_eq _ _) Q1) in N. cbn [andb] in N.
    unfold running in Q2. unfold unended in N. by destruct (EndedAt x). }
  assert (NF : in_force db g now = false).
  { unfold in_force. rewrite NL, M, U. done. }
  split; [done|]. split; [done|]. split; [by apply grant_rows_in_force|]. intros t. unfold in_force. rewrite M, D.
  cbn [bool_decide]. rewrite (bool_decide_eq_false_2 (GrantEligible = GrantActive)) by done.
  rewrite (bool_decide_eq_true_2 (GrantEligible = GrantEligible)) by done. cbn [andb orb].
  rewrite (live_only _ _ a).
  - rewrite negb_involutive, A. cbn [AExpiresAt]. unfold activation_end, GoTime.Add, Before.
    destruct (GExpiresAt g) as [e|]; cbn [unexpired]; [|by rewrite andb_true_r].
    destruct (e <? now + length) eqn:Q; apply eq_true_iff_eq; bprop; lia.
  - intros x I G O. cbn [activations with_log with_activations] in I. apply elem_of_app in I as [I|I%list_elem_of_singleton]; [|done].
    pose proof (existsb_not _ _ _ X I) as N. cbn in N. by rewrite (proj2 (Z.eqb_eq _ _) G), O in N.
  - cbn. apply elem_of_app. right. by left.
  - by rewrite A.
  - by rewrite A.
Qed.

(** ** Every change there is *)

Section Every.
Context `{Unicode} (broken : stmt -> bool).

(** What is done to accounts' grants: each handler reads the grant it changes in the same
    transaction, and only its holder switches it on or off or makes it eligible. *)
Inductive account_change (db : GDB) : GDB -> Prop :=
| ch_add now logged g entry db' : Add broken db now logged g entry = Ok db' -> account_change db db'
| ch_remove now checked logged logged' g entry db' : g ∈ grants db ->
    Remove broken db now checked logged logged' g entry = Ok db' -> account_change db db'
| ch_activate now logged g length reason entry db' a : g ∈ grants db -> HolderKind g = GrantHolderAccount ->
    Activate broken db now logged g length reason entry = Ok (db', a) -> account_change db db'
| ch_deactivate now logged g entry db' a : g ∈ grants db -> HolderKind g = GrantHolderAccount ->
    Deactivate broken db now logged g entry = Ok (db', a) -> account_change db db'
| ch_eligible logged g entry db' : g ∈ grants db -> HolderKind g = GrantHolderAccount ->
    MakeEligible broken db logged g entry = Ok db' -> account_change db db'
| ch_sweep grant now logged db' n : endExpired broken db grant now logged = Ok (db', n) -> account_change db db'
| ch_created now logged mailbox db' : EnsureDefaults broken db now logged mailbox = Ok db' -> account_change db db'.
(** What is done to the server's ceiling, at boot and by a superadmin. *)
Inductive ceiling_change (db : GDB) : GDB -> Prop :=
| ch_ceiling override now logged names entry db' after :
    SetServerCeiling broken override db now logged names entry = Ok (db', after) -> ceiling_change db db'
| ch_boot now db' : EnsureServerCeiling broken db now = Ok db' -> ceiling_change db db'
| ch_allow capability db' : AllowOnServer broken db capability = Ok db' -> ceiling_change db db'.

Lemma wf_ensureOwn db now logged mailbox role db' :
  wf db -> ensureOwn broken db now logged mailbox role = Ok db' ->
  wf db' /\ (db' = db \/ exists g entry, Add broken db now logged g entry = Ok db').
Proof.
  unfold ensureOwn. intros W E. destruct (broken QFindRole); [done|].
  destruct (List.filter _ _) as [|r rs]; [done|]. unfold EnsureSystem in E.
  match type of E with context [Add broken ?d ?n ?l ?g ?e] => destruct (Add broken d n l g e) as [d'|[]] eqn:A end;
    try done; cbn in E; injection E as <-; [|by split; [|left]].
  split; [by eapply wf_Add|right; by eauto].
Qed.

Lemma wf_new_role db role : wf db -> RlID role = next_role db -> RlName role ∉ RlName <$> roles db ->
  wf (with_roles db (roles db ++ [role]) (next_role db + 1) (role_capabilities db)).
Proof.
  intros W I N. destruct W; constructor; try done; cbn [roles with_roles next_role grants].
  - rewrite fmap_app. apply NoDup_snoc; [done|]. intros (x & Q & X)%list_elem_of_fmap.
    pose proof (proj1 (Forall_forall _ _) wf_roles_next0 x X). cbn in *. lia.
  - rewrite fmap_app. by apply NoDup_snoc.
  - apply Forall_app. split; [|constructor; [lia|constructor]]. apply (Forall_impl _ _ _ wf_roles_next0). intros x X. lia.
  - apply (Forall_impl _ _ _ wf_server0). intros g G K. unfold server_role. cbn [roles with_roles].
    rewrite existsb_app. apply orb_true_iff. left. exact (G K).
Qed.

Lemma wf_ceiling_change db db' : wf db -> ceiling_change db db' -> wf db'.
Proof.
  intros W []; [by eapply wf_SetServerCeiling| |].
  - unfold EnsureServerCeiling in *. destruct (broken QInsertRole); [done|]. unfold insert_role in *.
    destruct (existsb _ (roles db)) eqn:X; [by simplify_eq|]. destruct (broken QFillServer); [done|].
    destruct (broken QInsertServer); [done|]. simplify_eq.
    assert (N : RoleServer ∉ RlName <$> roles db).
    { intros (r & Q & R)%list_elem_of_fmap. pose proof (existsb_not _ _ _ X R) as B. cbn in B. bprop. congruence. }
    refine (wf_add_grant (with_roles _ _ _ _) (new_server_grant db (next_role db) now Audit.AuditActorSystem None) _ _ _ _);
      [|done| |].
    + assert (V : forall d rcs, wf d -> wf (with_roles d (roles d) (next_role d) rcs)) by (intros; by apply wf_roles_same).
      apply (V (with_roles db _ _ (role_capabilities db))).
      by apply (wf_new_role db {| RlID := next_role db; RlName := RoleServer; SystemRole := true |}).
    + apply existsb_false. intros g G. cbn [grants with_roles] in G. apply not_true_iff_false. intros S.
      unfold same_grant in S. bprop. destruct S as (((K & _) & _) & _).
      pose proof (proj1 (Forall_forall _ _) (wf_server _ W) g G K) as R. unfold server_role in R.
      apply existsb_elem in R as (r & R & Q). apply N. bprop. destruct Q as [_ Q]. rewrite <- Q. by apply list_elem_of_fmap_2.
    + intros _. unfold server_role. cbn. rewrite existsb_app. cbn. by rewrite Z.eqb_refl, orb_true_r.
  - unfold AllowOnServer in *. destruct (broken QFillServer); [done|]. simplify_eq. by apply wf_roles_same.
Qed.
Lemma wf_account_change db db' : wf db -> account_change db db' -> wf db'.
Proof.
  intros W C. destruct C as [? ? ? ? ? E|? ? ? ? ? ? ? _ E|? ? ? ? ? ? ? ? _ _ E|? ? ? ? ? ? _ _ E|? ? ? ? _ _ E|? ? ? ? ? E|? ? ? ? E].
  - by eapply wf_Add.
  - by eapply wf_Remove.
  - by eapply wf_Activate.
  - by eapply wf_Deactivate.
  - by eapply wf_MakeEligible.
  - exact (wf_endExpired _ _ _ _ _ _ W E).
  - unfold EnsureDefaults in E. apply result_bind_ok in E as (d & D & E).
    apply wf_ensureOwn in D as [W' _]; [|done]. by apply wf_ensureOwn in E as [? _].
Qed.

(** ** Changing accounts' grants leaves the ceiling alone *)

Definition ceiling_at (db : GDB) (t : Time) : Held := List.filter (server_grant t) (grants db) ≫= server_entries db.
Lemma ceiling_same db db' t : same_but_log db db' -> ceiling_at db' t = ceiling_at db t.
Proof. intros E. rewrite E. done. Qed.

Lemma server_grant_other t g : HolderKind g <> GrantHolderServer -> server_grant t g = false.
Proof. intros N. unfold server_grant. by rewrite bool_decide_eq_false_2. Qed.

Lemma ceiling_Add db now logged g entry db' t : Add broken db now logged g entry = Ok db' -> ceiling_at db' t = ceiling_at db t.
Proof.
  unfold Add. intros E. destruct (bool_decide (HolderKind g = GrantHolderServer)) eqn:K; [done|].
  destruct (broken QServerRole); [done|]. destruct (server_role db (RoleID g)); [done|].
  destruct (broken QInsertGrant); [done|]. destruct (existsb _ _); [done|].
  apply appendChange_same in E. rewrite (ceiling_same _ _ _ E). unfold ceiling_at. cbn [grants with_grants].
  rewrite List.filter_app. cbn [List.filter]. rewrite server_grant_other by (by bprop). by rewrite app_nil_r.
Qed.
Lemma filter_filter_id {A} (p q : A -> bool) l : (forall x, x ∈ l -> p x = true -> q x = true) ->
  List.filter p (List.filter q l) = List.filter p l.
Proof.
  induction l as [|x l IH]; intros I; [done|]. cbn.
  assert (R : List.filter p (List.filter q l) = List.filter p l) by (apply IH; intros y Y; apply I; by right).
  destruct (q x) eqn:Q; cbn; [by rewrite R|]. destruct (p x) eqn:P; [|done].
  rewrite (I x (list_elem_of_here _ _) P) in Q. done.
Qed.
Lemma ceiling_end_each db logged l db' t : end_each broken db logged l = Ok db' -> ceiling_at db' t = ceiling_at db t.
Proof.
  revert db. induction l as [|a l IH]; intros db E; cbn [end_each] in E; [by injection E as <-|].
  destruct (broken QExpiredGrant); [done|]. destruct (broken QEndActivation); [done|].
  apply result_bind_ok in E as (d & D & E). apply appendActivation_same in D. rewrite (IH d E).
  by rewrite (ceiling_same _ _ _ D).
Qed.
Lemma ceiling_endExpired db grant now logged r t :
  endExpired broken db grant now logged = Ok r -> ceiling_at (fst r) t = ceiling_at db t.
Proof.
  unfold endExpired. intros E. destruct (broken QExpired); [done|]. apply result_bind_ok in E as (d & D & E).
  injection E as <-. exact (ceiling_end_each _ _ _ _ _ D).
Qed.
Lemma ceiling_ensureOwn db now logged mailbox role db' t : wf db ->
  ensureOwn broken db now logged mailbox role = Ok db' -> ceiling_at db' t = ceiling_at db t.
Proof.
  intros W E. apply wf_ensureOwn in E as [_ [->|(g & entry & E)]]; [done| |done]. by apply (ceiling_Add _ _ _ _ _ _ t) in E.
Qed.

Lemma ceiling_account_change db db' t : wf db -> account_change db db' -> ceiling_at db' t = ceiling_at db t.
Proof.
  intros W C. destruct C as [? ? ? ? ? E|now checked l1 l2 g entry db' G E|? ? ? ? ? ? ? ? _ _ E|? ? ? ? ? ? _ _ E
    |logged g entry db' G K E|? ? ? ? ? E|? ? ? ? E].
  - by apply (ceiling_Add _ _ _ _ _ _ t) in E.
  - apply Remove_inv in E as (K & _ & E). rewrite (ceiling_same _ _ _ E). unfold ceiling_at. cbn [grants with_grants delete_grant].
    rewrite filter_filter_id; [done|]. intros x X S. apply negb_true_iff, Z.eqb_neq. intros Q.
    rewrite (NoDup_fmap_inj GID (grants db) x g (wf_grants _ W) X G Q), server_grant_other in S; done.
  - apply Activate_inv in E as (_ & _ & swept & n & S & _ & _ & E). rewrite (ceiling_same _ _ _ E).
    apply (ceiling_endExpired _ _ _ _ _ t) in S. exact S.
  - unfold Deactivate in E. apply result_bind_ok in E as ([swept n] & S & E). apply result_bind_ok in E as (r & _ & E).
    destruct r as [x|]; [|done]. destruct (broken QEndActivation); [done|]. apply result_bind_ok in E as (d & D & E).
    injection E as <- _. apply appendActivation_same in D. rewrite (ceiling_same _ _ _ D).
    apply (ceiling_endExpired _ _ _ _ _ t) in S. exact S.
  - unfold MakeEligible in E. destruct (bool_decide _); [done|]. destruct (broken _); [done|].
    apply appendChange_same in E. rewrite (ceiling_same _ _ _ E). unfold ceiling_at. cbn [grants with_grants].
    f_equal. assert (I : forall x, x ∈ grants db -> GID x = GID g -> x = g).
    { intros x X Q. exact (NoDup_fmap_inj GID (grants db) x g (wf_grants _ W) X G Q). }
    clear -I K. revert I. induction (grants db) as [|x l IH]; intros I; [done|]. rewrite fmap_cons. cbn [List.filter].
    rewrite IH by (intros y Y; apply (I y); by right). destruct (GID x =? GID g) eqn:Q; [|done].
    rewrite (I x) by (by left || bool_lia). rewrite !server_grant_other; [done|..]; cbn; by rewrite K.
  - exact (ceiling_endExpired _ _ _ _ _ t E).
  - unfold EnsureDefaults in E. apply result_bind_ok in E as (d & D & E). pose proof D as D'.
    apply (ceiling_ensureOwn _ _ _ _ _ _ t W) in D'. apply wf_ensureOwn in D as [W' _]; [|done].
    apply (ceiling_ensureOwn _ _ _ _ _ _ t W') in E. congruence.
Qed.

(** The grant tables stay well formed through every change there is, to accounts' grants
    and to the ceiling: ids and names unique and behind their sequences, one grant for a
    holder, role and scope, at most one activation open on a grant, and nothing but the
    ceiling's role granted to the server. *)
Theorem grants_well_formed (db db' : GDB) :
  wf db -> account_change db db' \/ ceiling_change db db' -> wf db'.
Proof. intros W [C|C]; [by eapply wf_account_change|by eapply wf_ceiling_change]. Qed.

(** Nothing done to accounts' grants, however privileged whoever does it, changes what
    the server permits, now or at any later time: granting, removing, escalating, creating
    accounts and sweeping expired activations all leave the ceiling as it is. *)
Theorem ceiling_not_changed_by_grants (db db' : GDB) (t : Time) :
  wf db -> account_change db db' -> storedServerCeiling sound db' t = storedServerCeiling sound db t.
Proof. intros W C. exact (f_equal Ok (ceiling_account_change db db' t W C)). Qed.
End Every.

(** ** Nobody hands on what it does not hold *)

Section Granting.
Context `{Unicode} (broken : stmt -> bool).

Lemma Authorize_inv override db now granter role scope u :
  Authorize broken override db now granter role scope = Ok u ->
  exists held, Load broken db now override granter = Ok held /\ held_le (role_at scope (caps_of db role)) held.
Proof.
  unfold Authorize. intros E. apply result_bind_ok in E as (held & L & E). apply result_bind_ok in E as (caps & C & E).
  destruct (CanGrant held caps scope) eqn:G; [|discriminate E]. exists held. split.
  - by destruct (Load broken db now override granter) as [h|]; [injection L as <-|].
  - unfold RoleCapabilities in C. destruct (broken _); [discriminate C|]. injection C as <-. by apply CanGrant_spec.
Qed.

(** What a stored grant gives while it is in force. *)
Definition grant_held (db : GDB) (g : Grant) : Held := role_at (GScope g) (caps_of db (RoleID g)).
Lemma grant_held_rows db t g : held_le (row_entries (grant_rows db t g)) (grant_held db g).
Proof.
  intros c target. rewrite !Allows_spec. intros (e & E & R). exists e. split; [|exact R].
  apply list_elem_of_fmap in E as (r & -> & E). unfold grant_rows in E.
  destruct (negb _); [by apply elem_of_nil in E|]. apply list_elem_of_bind in E as (a & E & _).
  destruct (negb _); [by apply elem_of_nil in E|]. apply list_elem_of_bind in E as (k & E & K).
  apply list_elem_of_bind in E as (n & E & _). apply list_elem_of_singleton in E as ->.
  apply list_elem_of_fmap. by exists k.
Qed.

End Granting.
End GrantSafety.
