(* ===== verification/GrantCache.v ===== *)
(** * The cache of what accounts hold: held.go's Cache

    Its operations, and the goroutines that share it as a step relation: grant changes
    commit, invalidations follow, and readers look up, load and store, all interleaved. *)

From S2P Require Import Prelude GoTime GoStrings Grants GrantStore GrantLoad.
Import GoTime GoStrings Held GrantStore GrantLoad.
Local Open Scope Z_scope.

Module GrantCache.

Definition CacheTTL : Duration := 5 * Second.
Definition maxCached : nat := 4096.

(** The generation never comes round: 2^64 changes would have to be made during one read. *)
Record cachedHeld := { c_held : Held; until : Time }.
Record Cache := { ttl : Duration; gen : Z; entries : gmap Z cachedHeld }.
Definition NewCache (ttl : Duration) : Cache := {| ttl := ttl; gen := 0; entries := ∅ |}.
Definition Invalidate (c : Cache) : Cache := {| ttl := ttl c; gen := gen c + 1; entries := ∅ |}.

(** [Held], in the two parts other goroutines can come between: what is found under the
    first lock, and what is kept under the second. *)
Definition lookup_held (c : Cache) (account : Z) (now : Time) : option Held :=
  cached ← entries c !! account;
  if Before now (until cached) then Some (c_held cached) else None.
Definition keep_until (c : Cache) (now : Time) (expires : option Time) : Time :=
  let until := Add now (ttl c) in
  match expires with Some e => if Before e until then e else until | None => until end.
Definition store_held (c : Cache) (account : Z) (seen : Z) (now : Time) (loaded : Held * option Time) : Cache :=
  if gen c =? seen then
    let kept := if (maxCached <=? size (entries c))%nat then ∅ else entries c in
    {| ttl := ttl c; gen := gen c;
       entries := <[account := {| c_held := fst loaded; until := keep_until c now (snd loaded) |}]> kept |}
  else c.

(** A whole call, when nothing comes between. *)
Definition cached_Held `{Unicode} (broken : stmt -> bool) (db : GDB) (override : option Held) (c : Cache) (account : Z)
    (now : Time) : result trouble Held * Cache :=
  match lookup_held c account now with
  | Some h => (withinServer broken db now override h, c)
  | None => match load broken db now account with
            | Err e => (Err e, c)
            | Ok loaded => (withinServer broken db now override (fst loaded),
                            store_held c account (gen c) now loaded)
            end
  end.

(** ** The goroutines *)

Section Shared.
Context `{Unicode}.

(** A reader that missed: the generation it saw, its clock, and what it has loaded. *)
Record reader := { r_account : Z; r_gen : Z; r_now : Time; r_loaded : option (Held * option Time) }.
(** The tables as they are, and as they have been since the last invalidation. *)
Record world := { tables : GDB; since : list GDB; cache : Cache; readers : list reader }.
Definition loaded_now (r : reader) (l : Held * option Time) : reader := {|
  r_account := r_account r; r_gen := r_gen r; r_now := r_now r; r_loaded := Some l |}.

Inductive step (w : world) : world -> Prop :=
| st_commit db : step w {| tables := db; since := db :: since w; cache := cache w; readers := readers w |}
| st_invalidate : step w {| tables := tables w; since := [tables w]; cache := Invalidate (cache w); readers := readers w |}
| st_miss account now : lookup_held (cache w) account now = None ->
    step w {| tables := tables w; since := since w; cache := cache w;
              readers := {| r_account := account; r_gen := gen (cache w); r_now := now; r_loaded := None |} :: readers w |}
| st_load before r after l : readers w = before ++ r :: after -> r_loaded r = None ->
    load sound (tables w) (r_now r) (r_account r) = Ok l ->
    step w {| tables := tables w; since := since w; cache := cache w; readers := before ++ loaded_now r l :: after |}
| st_store before r after l : readers w = before ++ r :: after -> r_loaded r = Some l ->
    step w {| tables := tables w; since := since w;
              cache := store_held (cache w) (r_account r) (r_gen r) (r_now r) l; readers := before ++ after |}
| st_gone before r after : readers w = before ++ r :: after ->
    step w {| tables := tables w; since := since w; cache := cache w; readers := before ++ after |}.

Inductive reachable : world -> Prop :=
| reach_init db ttl : reachable {| tables := db; since := [db]; cache := NewCache ttl; readers := [] |}
| reach_step w w' : reachable w -> step w w' -> reachable w'.

(** Loaded from the tables as they have been since the last invalidation. *)
Definition recent (w : world) (account : Z) (now : Time) (l : Held * option Time) : Prop :=
  exists db, db ∈ since w /\ load sound db now account = Ok l.
Record inv (w : world) : Prop := {
  inv_tables : tables w ∈ since w;
  inv_gens : Forall (fun r => r_gen r <= gen (cache w)) (readers w);
  inv_readers : Forall (fun r => r_gen r = gen (cache w) ->
      forall l, r_loaded r = Some l -> recent w (r_account r) (r_now r) l) (readers w);
  inv_entries : map_Forall (fun account e => exists now l, recent w account now l /\ c_held e = fst l
      /\ until e = keep_until (cache w) now (snd l)) (entries (cache w))
}.

Lemma recent_since w w' account now l : (forall db, db ∈ since w -> db ∈ since w') ->
  recent w account now l -> recent w' account now l.
Proof. intros S (db & D & L). exists db. auto. Qed.

Lemma Forall_middle {A} (P : A -> Prop) xs x ys : Forall P (xs ++ x :: ys) <-> P x /\ Forall P (xs ++ ys).
Proof. rewrite !Forall_app, Forall_cons. tauto. Qed.

Lemma inv_step w w' : inv w -> step w w' -> inv w'.
Proof.
  intros [T G R E] S. destruct S as [db| |account now M|before r after l Q N L|before r after l Q N|before r after Q].
  - constructor; cbn; [by left|done| |].
    + apply (Forall_impl _ _ _ R). intros r I g l L. apply (recent_since w); [by right|by apply I].
    + intros a e A. destruct (E a e A) as (n & l & X & Y). exists n, l. split; [|done]. apply (recent_since w); [by right|done].
  - constructor; cbn; [by left| | |apply map_Forall_empty].
    + apply (Forall_impl _ _ _ G). intros r I. lia.
    + apply Forall_forall. intros r I Q. pose proof (proj1 (Forall_forall _ _) G r I). cbn in *. lia.
  - constructor; cbn; [done| | |done].
    + constructor; [cbn; lia|done].
    + constructor; [|done]. intros _ l L. discriminate L.
  - rewrite Q in G, R. apply Forall_middle in G as [G1 G2], R as [R1 R2].
    constructor; cbn; [done|apply Forall_middle; by split| |done]. apply Forall_middle. split; [|done].
    intros _ l' L'. injection L' as <-. exists (tables w). by split.
  - rewrite Q in G, R. apply Forall_middle in G as [G1 G2], R as [R1 R2].
    assert (K : gen (store_held (cache w) (r_account r) (r_gen r) (r_now r) l) = gen (cache w))
      by (unfold store_held; by destruct (_ =? _)).
    assert (K' : forall n e, keep_until (store_held (cache w) (r_account r) (r_gen r) (r_now r) l) n e
                 = keep_until (cache w) n e) by (unfold store_held; by destruct (_ =? _)).
    constructor; cbn [tables since cache readers]; rewrite ?K; [done..|].
    intros a e A. setoid_rewrite K'. unfold store_held in A. destruct (gen (cache w) =? r_gen r) eqn:QG; [|exact (E a e A)].
    cbn [entries] in A. apply lookup_insert_Some in A as [[<- <-]|[_ A]].
    + exists (r_now r), l. split; [|done]. apply R1; [bool_lia|done].
    + destruct (_ <=? _)%nat; [by rewrite lookup_empty in A|exact (E a e A)].
  - rewrite Q in G, R. apply Forall_middle in G as [G1 G2], R as [R1 R2]. by constructor.
Qed.
Lemma cache_reachable_inv w : reachable w -> inv w.
Proof.
  induction 1 as [db ttl|w w' _ IH S]; [|by eapply inv_step].
  constructor; cbn; [by left|constructor..|apply map_Forall_empty].
Qed.

End Shared.
End GrantCache.
