(* ===== verification/GrantWitnesses.v ===== *)
(** * Grants and the audit log at concrete inputs

    A small installation: a superadmin in force and one to be switched on, a domain
    administrator who owns an account, the server's ceiling, an audit log. Each conditional
    theorem about them is applied to it. *)

From S2P Require Import Prelude GoTime GoStrings Grants GoCodec AuditLog AuditFacts GrantStore GrantLoad GrantChange GrantSafety.
From S2P Require Import GrantCache.
Import GoTime GoStrings Scope Held GrantsFacts AuditFacts GrantStore GrantLoad GrantChange GrantSafety GrantCache.
Local Open Scope Z_scope.

Module GrantWitnesses.
Definition grants_unicode : Unicode := unicode_caseless.
#[local] Existing Instance grants_unicode.

Definition grant (id holder role : Z) (scope mode : string) (expires : option Time) : Grant := {|
  GID := id; HolderKind := GrantHolderAccount; HolderID := holder; RoleID := role; GScope := scope; Mode := mode;
  GrantedByKind := Audit.AuditActorSystem; GrantedByID := None; GrantedAt := 1; GExpiresAt := expires |}.
Definition root_grant : Grant := grant 1 1 1 All GrantActive None.
Definition standby_grant : Grant := grant 2 2 1 All GrantEligible (Some (Hour * 2)).

(** Roles: superadmin, the ceiling's, owner, reader, session. *)
Definition installation : GDB := {|
  accounts := [ {| AcID := 1; AcAddress := "root@x.example"; AcActive := true; OwnerID := None |};
                {| AcID := 2; AcAddress := "ann@x.example"; AcActive := true; OwnerID := None |};
                {| AcID := 3; AcAddress := "bot@x.example"; AcActive := true; OwnerID := Some 2 |} ];
  roles := [ {| RlID := 1; RlName := "superadmin"; SystemRole := true |};
             {| RlID := 2; RlName := RoleServer; SystemRole := true |};
             {| RlID := 3; RlName := RoleOwner; SystemRole := true |};
             {| RlID := 4; RlName := "reader"; SystemRole := false |};
             {| RlID := 5; RlName := "session"; SystemRole := false |} ];
  next_role := 6;
  capabilities := [ {| CapID := 1; CapName := Wildcard |}; {| CapID := 2; CapName := CapMailRead |};
                    {| CapID := 3; CapName := CapMailboxSession |}; {| CapID := 4; CapName := CapMailSend |} ];
  role_capabilities := [(1, 1); (2, 2); (2, 3); (3, 2); (3, 3); (4, 2); (5, 3)];
  grants := [ root_grant; standby_grant;
              {| GID := 3; HolderKind := GrantHolderServer; HolderID := ServerHolderID; RoleID := 2; GScope := All;
                 Mode := GrantActive; GrantedByKind := Audit.AuditActorSystem; GrantedByID := None; GrantedAt := 1;
                 GExpiresAt := None |};
              grant 4 2 4 "domain:x.example" GrantActive (Some Hour);
              grant 5 2 5 "mailbox:bot@x.example" GrantActive None ];
  next_grant := 6;
  activations := []; next_activation := 1;
  credentials := [ {| CrKind := CredentialKindTOTP; CrAccount := 2; ConfirmedAt := Some 1; RevokedAt := None |} ];
  audit_log := [] |}.

Lemma installation_wf : wf installation.
Proof. constructor; unfold installation; apply (bool_decide_unpack _); vm_compute; exact I. Qed.

(** ** What is held *)

Definition owner_held : Held := [ {| EScope := All; Capability := CapMailRead |};
                                  {| EScope := All; Capability := CapMailboxSession |} ].
Lemma ceiling_bounds_witness :
  Allows owner_held CapMailRead "mailbox:a@b.c" = true /\ Allows owner_held CapMailRead "mailbox:a@b.c" = true
  /\ (sessionless CapMailRead = false ->
      exists s, s ∈ sessions_for CapMailRead /\ Allows owner_held s "mailbox:a@b.c" = true
                /\ Allows owner_held s "mailbox:a@b.c" = true).
Proof.
  apply (ceiling_bounds owner_held owner_held CapMailRead "mailbox:a@b.c"); [vm_compute; reflexivity| |vm_compute; reflexivity].
  repeat constructor; discriminate.
Defined.

Definition loaded (db : GDB) (now : Time) (account : Z) : Held * option Time :=
  match load sound db now account with Ok l => l | Err _ => ([], None) end.

(** The bound is on what is held, before sessions are looked at: with a reading role over
    the domain and a session on the one account it owns, an owner reads nothing once only
    what a session reaches is kept, and the account it owns still reads its own mailbox. *)
Lemma owned_reaches_past_its_owner :
  exists bot ann, Load sound installation 5 None 3 = Ok bot /\ Load sound installation 5 None 2 = Ok ann
  /\ Allows bot CapMailRead "mailbox:bot@x.example" = true /\ Allows ann CapMailRead "mailbox:bot@x.example" = false.
Proof.
  eexists _, _. split; [vm_compute; reflexivity|]. split; [vm_compute; reflexivity|]. split; vm_compute; reflexivity.
Qed.

Lemma snapshot_exact_until_expiry_witness :
  let l := loaded installation 5 2 in
  snd l = Some Hour /\ load sound installation (Hour - 1) 2 = Ok l.
Proof.
  split; [vm_compute; reflexivity|].
  apply (snapshot_exact_until_expiry installation 5 (Hour - 1) 2 (fst (loaded installation 5 2)) (snd (loaded installation 5 2)));
    [vm_compute; reflexivity|vm_compute; discriminate|vm_compute; reflexivity].
Defined.

(** ** Changes *)

Lemma when_ok {E A} (r : result E A) (P : A -> Prop) :
  is_ok r = true -> (forall a, r = Ok a -> P a) -> match r with Ok a => P a | Err _ => False end.
Proof. destruct r as [a|e]; [|discriminate]. intros _ F. by apply F. Qed.
Ltac succeeds := apply when_ok; [vm_compute; reflexivity|].

Definition entry : Audit.AuditEntry := with_target system_entry "" "" ∅.

Lemma root_usable : usable installation 5 standby_grant.
Proof.
  unfold usable. split_and!; [by right; left|done|done|apply (bool_decide_unpack _); vm_compute; exact I|done|right; by vm_compute|done].
Qed.

Lemma ceiling_is_as_set_witness :
  match SetServerCeiling sound None installation 5 6 [" mail:send"; "mail:read"; "mail:send"] entry with
  | Ok r => snd r = ["mail:read"; "mail:send"] /\ forall t, ServerCeiling sound (fst r) t None = Ok (snd r, false)
  | Err _ => False
  end.
Proof.
  succeeds. intros [db' after] E.
  destruct (ceiling_is_as_set sound None installation 5 6 _ entry db' after installation_wf E) as (_ & _ & _ & C).
  split; [|exact C].
  apply (f_equal (fun r => match r with Ok (_, a) => a | Err _ => [] end)) in E. rewrite <- E. vm_compute. reflexivity.
Defined.

Lemma switched_on_until_witness :
  match Activate sound installation 5 6 standby_grant (30 * Minute) "patching" entry with
  | Ok r => in_force (fst r) standby_grant (Minute * 30) = true
            /\ in_force (fst r) standby_grant (30 * Minute + 5) = false
  | Err _ => False
  end.
Proof.
  succeeds. intros [db' a] E.
  destruct (switched_on_until sound installation 5 6 standby_grant (Some 30) (30 * Minute) "patching" entry db' a
              installation_wf eq_refl E) as (_ & _ & _ & F).
  split; rewrite F; vm_compute; reflexivity.
Defined.

Definition root_session : Session := {| SAccount := 1; two_factor := true; proven := Some 3; window := Minute |}.

Lemma grants_well_formed_witness :
  match Add sound installation 5 6 (grant 0 3 4 All GrantActive None) entry with
  | Ok db' => length (grants db') = 6%nat /\ wf db'
  | Err _ => False
  end.
Proof.
  succeeds. intros db' E.
  split.
  - apply (f_equal (fun r => match r with Ok d => length (grants d) | Err _ => 0%nat end)) in E. rewrite <- E.
    vm_compute. reflexivity.
  - apply (grants_well_formed sound installation db' installation_wf). left. exact (ch_add _ _ _ _ _ _ _ E).
Defined.
Lemma ceiling_not_changed_by_grants_witness :
  match Remove sound installation 4 5 6 7 root_grant entry with
  | Ok db' => storedServerCeiling sound db' 9 = storedServerCeiling sound installation 9
  | Err _ => False
  end.
Proof.
  succeeds. intros db' E.
  apply (ceiling_not_changed_by_grants sound installation db' 9 installation_wf).
  exact (ch_remove sound installation 4 5 6 7 root_grant entry db' (list_elem_of_here _ _) E).
Defined.

Definition idle : world := {| tables := installation; since := [installation]; cache := NewCache CacheTTL; readers := [] |}.
Definition late_reader : reader := {| r_account := 2; r_gen := 0; r_now := 5; r_loaded := None |}.
Definition with_readers (rs : list reader) : world :=
  {| tables := installation; since := [installation]; cache := NewCache CacheTTL; readers := rs |}.
Definition cached : world := {| tables := installation; since := [installation];
  cache := store_held (NewCache CacheTTL) 2 0 5 (loaded installation 5 2); readers := [] |}.
Lemma cached_reachable : reachable cached.
Proof.
  apply (reach_step (with_readers [loaded_now late_reader (loaded installation 5 2)])).
  - apply (reach_step (with_readers [late_reader])).
    + apply (reach_step idle); [exact (reach_init installation CacheTTL)|exact (st_miss idle 2 5 eq_refl)].
    + refine (st_load (with_readers [late_reader]) [] late_reader [] (loaded installation 5 2) eq_refl eq_refl _).
      vm_compute. reflexivity.
  - exact (st_store (with_readers [loaded_now late_reader (loaded installation 5 2)]) []
             (loaded_now late_reader (loaded installation 5 2)) [] (loaded installation 5 2) eq_refl eq_refl).
Qed.

(** ** The audit log *)

Definition first_entry : Audit.AuditEntry := Audit.linked [] 1000000 (with_target system_entry "grants.create" "success" {[ "role" := "owner" ]}).
Definition second_entry : Audit.AuditEntry := Audit.linked [first_entry] 2000000 entry.
Definition third_entry : Audit.AuditEntry := Audit.linked [first_entry; second_entry] 3000000 entry.
Definition short_log : list Audit.AuditEntry := [first_entry; second_entry].
Definition long_log : list Audit.AuditEntry := [first_entry; second_entry; third_entry].
Definition anchor : Audit.Anchor := {| Audit.ASeq := 2; Audit.AHash := Audit.EHash second_entry |}.

Lemma long_log_grown : grown short_log /\ grown long_log.
Proof.
  assert (G1 : grown [first_entry]).
  { apply (grown_append [] false 1000000 (with_target system_entry "grants.create" "success" {[ "role" := "owner" ]}));
      [constructor|vm_compute; reflexivity]. }
  assert (G2 : grown short_log).
  { apply (grown_append [first_entry] false 2000000 entry); [exact G1|vm_compute; reflexivity]. }
  split; [exact G2|]. apply (grown_append short_log false 3000000 entry); [exact G2|vm_compute; reflexivity].
Qed.
Lemma batches_agree_witness :
  Audit.VerifyDBAnchored 1 (fun _ => false) long_log (Some anchor) = Audit.Found (Audit.VerifyAnchored long_log (Some anchor)).
Proof.
  apply (batches_agree long_log (Some anchor) 1); [|vm_compute; reflexivity|apply (bool_decide_unpack _); vm_compute; exact I].
  unfold by_seq, long_log. repeat (constructor; [|try (constructor; [vm_compute; reflexivity|])]); try constructor.
  all: repeat constructor; vm_compute; reflexivity.
Defined.
Lemma rewriting_is_noticed_witness :
  Forall2 same_record (take 2 short_log) (take 2 long_log)
  \/ exists j e e', short_log !! j = Some e /\ long_log !! j = Some e' /\ collision e e'.
Proof.
  apply (rewriting_is_noticed short_log long_log anchor); [reflexivity|reflexivity| | |vm_compute; reflexivity..].
  - exact (proj2 (grown_intact _ (proj1 long_log_grown) eq_refl)).
  - exact (proj2 (grown_intact _ (proj2 long_log_grown) eq_refl)).
Defined.
Lemma appended_log_holds_witness :
  Audit.OK (Audit.Verify long_log) = true /\ Audit.Checked (Audit.Verify long_log) = 3 /\ Forall storable long_log
  /\ forall failed now e log', Audit.Append failed long_log now e = Some log' -> log' = long_log ++ [Audit.linked long_log now e].
Proof. exact (appended_log_holds long_log (proj2 long_log_grown) eq_refl). Defined.
End GrantWitnesses.
