(* ===== verification/Pipeline.v ===== *)
(** * The message pipeline: internal/pipeline

    types.go, registry.go, engine.go, split.go, reason.go and templates.go. A pipeline is a
    list of configured filters run one after the other over a message. The engine makes each
    filter from the registry, runs it, and goes on, stops, or applies its failure policy.

    The engine only passes the message and the filters on: [Email] stands for a
    [*EmailJSON] and [Filter] for a made filter. Running a filter is a question to the
    outside ([FilterExecute]), because a filter may change the message behind the pointer, record
    verdicts, fail, panic or hang; the answer says what was recorded in the run's verdicts
    meanwhile, by this filter or by an earlier one the engine gave up on, and how the run
    ended. The observer's calls are questions too. The measured durations and the log lines
    are not modelled. *)

From S2P Require Import Prelude GoTime GoStrings Prog GoCodec.
From Stdlib Require Import Ascii.
Import GoTime GoStrings Prog.
Local Open Scope Z_scope.

Module Pipeline.

(** ** Data: types.go, auth.go *)

Definition Action := string.
Definition ActionContinue : Action := "continue".
Definition ActionReject : Action := "reject".
Definition ActionQuarantine : Action := "quarantine".
Definition ActionDiscard : Action := "discard".
Definition ActionDefer : Action := "defer".

Definition FilterType := string.
Definition FilterTypeAction : FilterType := "action".
Definition FilterTypeTransform : FilterType := "transform".

Record FilterConfig := {
  Name : string;
  Type_ : FilterType;
  Enabled : bool;
  Unskippable : bool;
  Config : string
}.
#[export] Instance FilterConfig_eq_dec : EqDecision FilterConfig.
Proof. solve_decision. Defined.

Record PipelineConfig := {
  ID : Z;
  DomainID : Z;
  Direction : string;
  Filters : list FilterConfig;
  Active : bool;
  CreatedAt : Time;
  UpdatedAt : Time
}.

Record FilterLog := { LFilter : string; LResult : string; LDetail : string }.
Definition no_log : FilterLog := {| LFilter := ""; LResult := ""; LDetail := "" |}.

Record FilterResult (Email : Type) := {
  RType : FilterType;
  RAction : Action;
  RMessage : option Email;
  SkipFilters : list string;
  RRejectMsg : string;
  RLog : FilterLog
}.
Arguments Build_FilterResult {Email}.
Arguments RType {Email}.
Arguments RAction {Email}.
Arguments RMessage {Email}.
Arguments SkipFilters {Email}.
Arguments RRejectMsg {Email}.
Arguments RLog {Email}.

Record AuthResult := {
  Method : string;
  AResult : string;
  Property : string;
  Domain : string;
  Selector : string
}.
#[export] Instance AuthResult_eq_dec : EqDecision AuthResult.
Proof. solve_decision. Defined.

(** What one run has decided so far: split.go. *)
Record RunState := { SAuth : list AuthResult; SSkip : gmap string bool }.
Definition NewRunState : RunState := {| SAuth := []; SSkip := ∅ |}.

Record StepResult := {
  FilterName : string;
  FilterType_ : FilterType;
  SAction : Action;
  Skipped : bool;
  SkipReason : string;
  SLog : FilterLog;
  SError : string
}.

Record ExecutionResult (Email : Type) := {
  FinalAction : Action;
  FinalEmail : Email;
  Steps : list StepResult;
  RejectMsg : string;
  EAuth : list AuthResult
}.
Arguments Build_ExecutionResult {Email}.
Arguments FinalAction {Email}.
Arguments FinalEmail {Email}.
Arguments Steps {Email}.
Arguments RejectMsg {Email}.
Arguments EAuth {Email}.

(** ** The registry: registry.go *)

Section Engine.
Context {Filter Email : Type}.

Definition FilterFactory := string -> result string Filter.
Definition Registry := gmap string FilterFactory.
Definition NewRegistry : Registry := ∅.
Definition Register (name : string) (factory : FilterFactory) (r : Registry) : Registry :=
  <[name := factory]> r.
Definition Create (r : Registry) (name config : string) : result string Filter :=
  match r !! name with
  | None => Err ("unknown filter: " +:+ name)
  | Some factory => factory config
  end.

(** ** The engine: engine.go *)

Record Engine := {
  registry : Registry;
  filterErrorAction : Action;
  filterTimeout : Duration
}.
Definition DefaultFilterTimeout : Duration := 60 * Second.
Definition NewEngine (r : Registry) : Engine :=
  {| registry := r; filterErrorAction := ActionDefer; filterTimeout := DefaultFilterTimeout |}.
Definition SetFilterTimeout (d : Duration) (e : Engine) : Engine :=
  {| registry := registry e; filterErrorAction := filterErrorAction e; filterTimeout := d |}.
Definition SetFilterErrorAction (a : Action) (e : Engine) : Engine :=
  if bool_decide (a = ActionContinue) || bool_decide (a = ActionDefer) || bool_decide (a = ActionReject)
  then {| registry := registry e; filterErrorAction := a; filterTimeout := filterTimeout e |}
  else e.

(** How a filter's run ends for the engine: it returns its result (which Go lets be nil),
    or an error, or it panics, or the context it runs under is done first. *)
Inductive ended :=
| Returned (r : option (FilterResult Email))
| Failed (err : string)
| Panicked (value : string)
| ContextDone (cancelled : bool) (cause : string).
Record ran := { recorded : list AuthResult; how : ended }.

Inductive call : Type -> Type :=
| FilterExecute (f : Filter) (deadline : option Duration) (auth : list AuthResult) (email : Email) : call ran
| ObserveStep (s : StepResult) : call unit
| ObserveTerminal (direction : string) (action : Action) (terminal : option StepResult) : call unit.

(** Go's [Duration.String]. *)
Definition unit_string (u unit : Z) (name : string) : string :=
  itoa (u / unit) +:+ Codec.fraction (u mod unit * (Second / unit)) +:+ name.
Definition duration_string (d : Duration) : string :=
  let u := Z.abs d in
  let s :=
    if u =? 0 then "0s"
    else if u <? Microsecond then itoa u +:+ "ns"
    else if u <? Millisecond then unit_string u Microsecond (String (byte 194) (String (byte 181) "s"))
    else if u <? Second then unit_string u Millisecond "ms"
    else
      let secs := u / Second in
      let mins := secs / 60 in
      let hours := mins / 60 in
      (if 0 <? hours then itoa hours +:+ "h" else "") +:+
      (if 0 <? mins then itoa (mins mod 60) +:+ "m" else "") +:+
      itoa (secs mod 60) +:+ Codec.fraction (u mod Second) +:+ "s" in
  if d <? 0 then "-" +:+ s else s.

Definition run_error (e : Engine) (h : ended) : result string (option (FilterResult Email)) :=
  match h with
  | Returned r => Ok r
  | Failed err => Err err
  | Panicked v => Err ("filter panicked: " +:+ v)
  | ContextDone true cause => Err ("filter execution aborted, the caller cancelled it: " +:+ cause)
  | ContextDone false cause =>
      Err ("filter execution aborted (timeout " +:+ duration_string (filterTimeout e) +:+ "): " +:+ cause)
  end.
Definition runFilter (e : Engine) (f : Filter) (auth : list AuthResult) (email : Email)
    : prog call (list AuthResult * result string (option (FilterResult Email))) :=
  bind (ask (FilterExecute f (if 0 <? filterTimeout e then Some (filterTimeout e) else None) auth email))
    (fun o => Ret (auth ++ recorded o, run_error e (how o))).

(** *** One step *)

Definition step_of (fc : FilterConfig) (a : Action) (log : FilterLog) : StepResult :=
  {| FilterName := Name fc; FilterType_ := Type_ fc; SAction := a; Skipped := false;
     SkipReason := ""; SLog := log; SError := "" |}.
Definition skipped_step (fc : FilterConfig) : StepResult :=
  {| FilterName := Name fc; FilterType_ := Type_ fc; SAction := ActionContinue; Skipped := true;
     SkipReason := "skipped by upstream filter"; SLog := no_log; SError := "" |}.
Definition error_step (fc : FilterConfig) (a : Action) (err : string) : StepResult :=
  {| FilterName := Name fc; FilterType_ := Type_ fc; SAction := a; Skipped := false;
     SkipReason := ""; SLog := no_log; SError := err |}.

(** The loop's variables: the result so far, the names to skip, the verdicts. *)
Record progress := {
  outcome : ExecutionResult Email;
  skipSet : gmap string bool;
  auth : list AuthResult
}.
Definition with_step (s : StepResult) (p : progress) : progress :=
  let r := outcome p in
  {| outcome := {| FinalAction := FinalAction r; FinalEmail := FinalEmail r; Steps := Steps r ++ [s];
                   RejectMsg := RejectMsg r; EAuth := EAuth r |};
     skipSet := skipSet p; auth := auth p |}.
Definition with_auth (a : list AuthResult) (p : progress) : progress :=
  {| outcome := outcome p; skipSet := skipSet p; auth := a |}.
Definition with_skips (names : list string) (p : progress) : progress :=
  {| outcome := outcome p; skipSet := foldl (fun m n => <[n := true]> m) (skipSet p) names; auth := auth p |}.
Definition with_email (m : Email) (p : progress) : progress :=
  let r := outcome p in
  {| outcome := {| FinalAction := FinalAction r; FinalEmail := m; Steps := Steps r;
                   RejectMsg := RejectMsg r; EAuth := EAuth r |};
     skipSet := skipSet p; auth := auth p |}.
Definition stopped (a : Action) (msg : string) (p : progress) : progress :=
  let r := outcome p in
  {| outcome := {| FinalAction := a; FinalEmail := FinalEmail r; Steps := Steps r;
                   RejectMsg := msg; EAuth := EAuth r |};
     skipSet := skipSet p; auth := auth p |}.

Definition skips (m : gmap string bool) (fc : FilterConfig) : bool :=
  default false (m !! Name fc) && negb (Unskippable fc).

Inductive next := Onward (p : progress) | Break (p : progress) | Crash.

(** The failure policy for a filter that cannot be made or fails. *)
Definition failing (e : Engine) (fc : FilterConfig) (err verb : string) (p : progress) : prog call next :=
  let s := error_step fc (filterErrorAction e) err in
  bind (ask (ObserveStep s)) (fun _ =>
    let p := with_step s p in
    Ret (if bool_decide (filterErrorAction e = ActionContinue) then Onward p
         else Break (stopped (filterErrorAction e) ("filter " +:+ Codec.Quote (Name fc) +:+ " " +:+ verb) p))).

(** What the engine makes of a filter's result. *)
Definition act (r : FilterResult Email) (p : progress) : next :=
  if bool_decide (RAction r = ActionReject) then Break (stopped ActionReject (RRejectMsg r) p)
  else if bool_decide (RAction r = ActionQuarantine) then Break (stopped ActionQuarantine (RejectMsg (outcome p)) p)
  else if bool_decide (RAction r = ActionDiscard) then Break (stopped ActionDiscard (RejectMsg (outcome p)) p)
  else if bool_decide (RAction r = ActionDefer) then Break (stopped ActionDefer (RejectMsg (outcome p)) p)
  else if bool_decide (RAction r = ActionContinue) then
    match RMessage r with
    | Some m => if bool_decide (RType r = FilterTypeTransform) then Onward (with_email m p) else Onward p
    | None => Onward p
    end
  else Onward p.

Definition step (e : Engine) (fc : FilterConfig) (p : progress) : prog call next :=
  if skips (skipSet p) fc then
    bind (ask (ObserveStep (skipped_step fc))) (fun _ => Ret (Onward (with_step (skipped_step fc) p)))
  else
    match Create (registry e) (Name fc) (Config fc) with
    | Err err => failing e fc ("create filter: " +:+ err) "unavailable" p
    | Ok f =>
        bind (runFilter e f (auth p) (FinalEmail (outcome p))) (fun '(seen, answer) =>
          let p := with_auth seen p in
          match answer with
          | Err err => failing e fc ("execute: " +:+ err) "failed" p
          | Ok None => Ret Crash
          | Ok (Some r) =>
              let s := step_of fc (RAction r) (RLog r) in
              bind (ask (ObserveStep s)) (fun _ => Ret (act r (with_skips (SkipFilters r) (with_step s p))))
          end)
    end.

(** The loop: [None] is the nil dereference of a filter that returned neither a result
    nor an error. *)
Fixpoint loop (e : Engine) (fcs : list FilterConfig) (p : progress) : prog call (option progress) :=
  match fcs with
  | [] => Ret (Some p)
  | fc :: rest =>
      if negb (Enabled fc) then loop e rest p
      else bind (step e fc p) (fun n =>
             match n with
             | Onward p => loop e rest p
             | Break p => Ret (Some p)
             | Crash => Ret None
             end)
  end.

Definition begin (email : Email) (state : RunState) : progress :=
  {| outcome := {| FinalAction := ActionContinue; FinalEmail := email; Steps := []; RejectMsg := ""; EAuth := [] |};
     skipSet := SSkip state; auth := SAuth state |}.
Definition terminal_step (r : ExecutionResult Email) : option StepResult :=
  if bool_decide (FinalAction r = ActionContinue) then None else last (Steps r).
Definition finished (p : progress) : ExecutionResult Email :=
  let r := outcome p in
  {| FinalAction := FinalAction r; FinalEmail := FinalEmail r; Steps := Steps r;
     RejectMsg := RejectMsg r; EAuth := auth p |}.

Definition ExecuteStage (e : Engine) (pipeline : PipelineConfig) (email : Email) (state : RunState)
    : prog call (option (ExecutionResult Email * RunState)) :=
  bind (loop e (Filters pipeline) (begin email state)) (fun o =>
    match o with
    | None => Ret None
    | Some p =>
        let r := finished p in
        bind (ask (ObserveTerminal (Direction pipeline) (FinalAction r) (terminal_step r))) (fun _ =>
          Ret (Some (r, {| SAuth := EAuth r; SSkip := skipSet p |})))
    end).
Definition Execute (e : Engine) (pipeline : PipelineConfig) (email : Email)
    : prog call (option (ExecutionResult Email)) :=
  bind (ExecuteStage e pipeline email NewRunState) (fun o => Ret (fst <$> o)).

(** *** Trying one filter *)

Inductive test_error := CreateError (msg : string) | FilterExecutionError (msg : string).
Definition test_error_text (err : test_error) : string :=
  match err with CreateError msg => msg | FilterExecutionError msg => "execute filter: " +:+ msg end.
Definition TestFilter (e : Engine) (filterName config : string) (email : Email)
    : prog call (result test_error (option (FilterResult Email))) :=
  match Create (registry e) filterName config with
  | Err err => Ret (Err (CreateError ("create filter " +:+ filterName +:+ ": " +:+ err)))
  | Ok f =>
      bind (runFilter e f [] email) (fun '(_, answer) =>
        Ret (match answer with Err err => Err (FilterExecutionError err) | Ok r => Ok r end))
  end.
End Engine.

(** ** Required checks and content checks: split.go *)

Definition requiredChecks : list string :=
  ["size_check"; "header_validate"; "recipient_check"; "sender_verify"; "rate_limit"; "spf_check";
   "dkim_verify"; "arc_verify"; "dmarc_check"; "domain_allowlist"; "contact_whitelist"; "greylist"].
Definition is_required (fc : FilterConfig) : bool := bool_decide (Name fc ∈ requiredChecks).

Definition with_filters (fcs : list FilterConfig) (p : PipelineConfig) : PipelineConfig :=
  {| ID := ID p; DomainID := DomainID p; Direction := Direction p; Filters := fcs;
     Active := Active p; CreatedAt := CreatedAt p; UpdatedAt := UpdatedAt p |}.
Fixpoint split_filters (fcs : list FilterConfig) (first second : list FilterConfig)
    : list FilterConfig * list FilterConfig :=
  match fcs with
  | [] => (first, second)
  | fc :: rest => if is_required fc then split_filters rest (first ++ [fc]) second
                  else split_filters rest first (second ++ [fc])
  end.
Definition Split (p : PipelineConfig) : PipelineConfig * PipelineConfig :=
  let '(first, second) := split_filters (Filters p) [] [] in (with_filters first p, with_filters second p).

(** ** Why a message was stopped: reason.go *)

Definition ReasonCode := string.
Definition ReasonCustomReject : ReasonCode := "custom_reject".
Definition ReasonOther : ReasonCode := "other".
Definition specific_reason (filterName : string) (action : Action) : option ReasonCode :=
  if bool_decide (filterName = "dmarc_check") then
    if bool_decide (action = ActionReject) then Some "dmarc_reject"
    else if bool_decide (action = ActionQuarantine) then Some "dmarc_quarantine" else None
  else if bool_decide (filterName = "spf_check") then
    if bool_decide (action <> ActionContinue) then Some "spf_fail" else None
  else if bool_decide (filterName = "dkim_verify") then
    if bool_decide (action <> ActionContinue) then Some "dkim_fail" else None
  else if bool_decide (filterName = "size_check") then
    if bool_decide (action = ActionReject) then Some "size_exceeded" else None
  else if bool_decide (filterName = "greylist") then
    if bool_decide (action = ActionDefer) then Some "greylist_defer" else None
  else if bool_decide (filterName = "rate_limit") then
    if bool_decide (action = ActionDefer) then Some "rate_limited" else None
  else if bool_decide (filterName = "clamav") then
    if bool_decide (action <> ActionContinue) then Some "virus_detected" else None
  else if bool_decide (filterName = "rspamd") then
    if bool_decide (action <> ActionContinue) then Some "spam_threshold" else None
  else if bool_decide (filterName = "recipient_check") then
    if bool_decide (action = ActionReject) then Some "recipient_unknown" else None
  else if bool_decide (filterName = "header_validate") then
    if bool_decide (action = ActionReject) then Some "header_invalid" else None
  else None.
Definition Reason (filterName : string) (action : Action) (_result : string) : ReasonCode :=
  match specific_reason filterName action with
  | Some code => code
  | None => if bool_decide (action = ActionReject) then ReasonCustomReject else ReasonOther
  end.
Definition ReasonForStep (s : StepResult) : ReasonCode :=
  Reason (FilterName s) (SAction s) (LResult (SLog s)).

(** ** The default pipelines: templates.go *)

Definition action_step (name config : string) (unskippable : bool) : FilterConfig :=
  {| Name := name; Type_ := FilterTypeAction; Enabled := true; Unskippable := unskippable; Config := config |}.
Definition transform_step (name config : string) (unskippable : bool) : FilterConfig :=
  {| Name := name; Type_ := FilterTypeTransform; Enabled := true; Unskippable := unskippable; Config := config |}.
(** One JSON field. *)
Definition json_field (key value : string) : string := quote +:+ key +:+ quote +:+ ": " +:+ value.
Definition json_object (fields : list string) : string := "{" +:+ Join fields ", " +:+ "}".

Definition defaultInboundFilters : list FilterConfig := [
  action_step "size_check" (json_object [json_field "max_size_mb" "25"]) true;
  action_step "spf_check" (json_object [json_field "fail_action" (quote +:+ "tag" +:+ quote)]) true;
  transform_step "dkim_verify" (json_object [json_field "fail_action" (quote +:+ "tag" +:+ quote)]) true;
  transform_step "arc_verify" "{}" true;
  action_step "dmarc_check" "{}" true;
  action_step "domain_allowlist" "{}" false;
  action_step "contact_whitelist" "{}" false;
  action_step "greylist" (json_object [json_field "delay_minutes" "5"; json_field "ttl_days" "36"]) false;
  action_step "header_validate" "{}" false;
  action_step "recipient_check" "{}" true;
  transform_step "extract_attachments"
    (json_object [json_field "storage_dir" (quote +:+ "/data/attachments" +:+ quote)]) false;
  transform_step "sieve" "{}" false;
  action_step "vacation" (json_object [json_field "days" "7"]) false].
Definition defaultOutboundFilters : list FilterConfig := [
  action_step "sender_verify" "{}" true;
  action_step "rate_limit" (json_object [json_field "max_per_hour" "100"; json_field "max_per_minute" "20"]) false;
  transform_step "header_cleanup" "{}" false].

Definition dmarc_reports_step : FilterConfig := action_step "dmarc_reports_received" "{}" true.
Definition WithDMARCReportsStep (steps : list FilterConfig) : list FilterConfig :=
  let kept := filter (fun s => Name s <> "dmarc_reports_received") steps in
  let '(required, content) := split_filters kept [] [] in
  (required ++ [dmarc_reports_step]) ++ content.

Definition vacation_step (config : string) : FilterConfig := action_step "vacation" config false.
(** The loop of [WithVacationStep]: the other steps, where the reply goes, its settings. *)
Fixpoint vacation_loop (steps out : list FilterConfig) (at_ : option nat) (config : string)
    : list FilterConfig * option nat * string :=
  match steps with
  | [] => (out, at_, config)
  | s :: rest =>
      if bool_decide (Name s = "vacation") then
        vacation_loop rest out at_ (if 0 <? len (Config s) then Config s else config)
      else
        let out := out ++ [s] in
        vacation_loop rest out (if bool_decide (Name s = "sieve") then Some (List.length out) else at_) config
  end.
Definition WithVacationStep (steps : list FilterConfig) : list FilterConfig :=
  let '(out, at_, config) := vacation_loop steps [] None (json_object [json_field "days" "7"]) in
  match at_ with
  | None => out ++ [vacation_step config]
  | Some n => take n out ++ vacation_step config :: drop n out
  end.

Definition DefaultInboundPipeline (domainID : Z) (now : Time) : PipelineConfig :=
  {| ID := 0; DomainID := domainID; Direction := "inbound"; Filters := WithDMARCReportsStep defaultInboundFilters;
     Active := true; CreatedAt := now; UpdatedAt := now |}.
Definition DefaultOutboundPipeline (domainID : Z) (now : Time) : PipelineConfig :=
  {| ID := 0; DomainID := domainID; Direction := "outbound"; Filters := defaultOutboundFilters;
     Active := true; CreatedAt := now; UpdatedAt := now |}.
End Pipeline.
