(* ===== verification/PipelineFacts.v ===== *)
(** * What the pipeline promises

    A message is accepted only when every enabled filter was made, ran and let it pass, or
    was skipped because an earlier filter said so ([accepted_means_checked]); each filter
    works on the message and the verdicts its predecessors left
    ([filters_see_what_came_before]); and running the required checks and then the content
    checks is one run of the pipeline that lists the required ones first
    ([stages_are_one_run]). *)

From S2P Require Import Prelude GoTime GoStrings Prog Pipeline.
From Stdlib Require Import Ascii.
Import GoTime GoStrings Prog Pipeline.
Local Open Scope Z_scope.

Module PipelineFacts.

(** ** Runs without their observer *)

Section Trees.
Context {Filter Email : Type}.

(** What is left of a program when the observer's calls are dropped: the filters run, and
    what each answer leads to. *)
Inductive tree (A : Type) : Type :=
| Leaf (a : A)
| Node (f : Filter) (deadline : option Duration) (auth : list AuthResult) (email : Email)
       (k : ran (Email := Email) -> tree A).
Arguments Leaf {A} a.
Arguments Node {A} f deadline auth email k.

Definition quiet_ask {X A} (q : call X) : (X -> tree A) -> tree A :=
  match q in call X return (X -> tree A) -> tree A with
  | FilterExecute f d au em => fun k => Node f d au em k
  | ObserveStep _ => fun k => k tt
  | ObserveTerminal _ _ _ => fun k => k tt
  end.
Fixpoint quiet {A} (p : prog call A) : tree A :=
  match p with
  | Ret a => Leaf a
  | Ask q k => quiet_ask q (fun x => quiet (k x))
  end.
Fixpoint tbind {A B} (t : tree A) (g : A -> tree B) : tree B :=
  match t with
  | Leaf a => g a
  | Node f d au em k => Node f d au em (fun x => tbind (k x) g)
  end.

(** Trees that ask the same and end the same, answer by answer. *)
Inductive tree_eq {A} : Equiv (tree A) :=
| leaf_eq a : Leaf a ≡ Leaf a
| node_eq f d au em k k' : (forall x, k x ≡ k' x) -> Node f d au em k ≡ Node f d au em k'.
#[export] Existing Instance tree_eq.

#[export] Instance tree_equivalence {A} : Equivalence (≡@{tree A}).
Proof.
  split.
  - intros t. induction t; by constructor.
  - intros t u E. induction E; by constructor.
  - intros t u v E. revert v. induction E as [a|f d au em k k' _ IH]; intros v Ev; [done|].
    inversion Ev; subst. constructor. auto.
Qed.
#[export] Instance Node_proper {A} f d au em :
  Proper (pointwise_relation _ (≡) ==> (≡)) (Node (A := A) f d au em).
Proof. intros k k' E. by constructor. Qed.
#[export] Instance tbind_proper {A B} :
  Proper ((≡) ==> pointwise_relation A (≡) ==> (≡)) (tbind (A := A) (B := B)).
Proof.
  intros t t' E g g' Eg. induction E as [a|f d au em k k' _ IH]; simpl; [apply Eg|].
  constructor. auto.
Qed.
Lemma tbind_assoc {A B C} (t : tree A) (g : A -> tree B) (h : B -> tree C) :
  tbind (tbind t g) h ≡ tbind t (fun a => tbind (g a) h).
Proof. induction t; simpl; [done|]. constructor. auto. Qed.
Lemma tbind_leaf {A} (t : tree A) : tbind t Leaf ≡ t.
Proof. induction t; simpl; [done|]. constructor. auto. Qed.
Lemma quiet_bind {A B} (p : prog call A) (g : A -> prog call B) :
  quiet (bind p g) ≡ tbind (quiet p) (fun a => quiet (g a)).
Proof.
  induction p as [a|X q k IH]; simpl; [done|].
  destruct q; simpl; [constructor; auto|apply IH..].
Qed.
End Trees.
Arguments tree : clear implicits.
Arguments Leaf {Filter Email A} a.
Arguments Node {Filter Email A} f deadline auth email k.

(** ** The run, step by step *)

Section Engine.
Context {Filter Email : Type}.
Implicit Types (e : Engine (Filter := Filter)) (p : progress (Email := Email)).

Definition going (p : progress (Email := Email)) : Prop :=
  FinalAction (outcome p) = ActionContinue /\ RejectMsg (outcome p) = "" /\ EAuth (outcome p) = [].
(** The results that stop the run. *)
Definition stops (a : Action) : bool :=
  bool_decide (a ∈ [ActionReject; ActionQuarantine; ActionDiscard; ActionDefer]).

(** A step of a run that is going on either goes on, or ends the run with an action that
    is not [continue]. *)
Definition step_outcome (n : next (Email := Email)) : Prop :=
  match n with
  | Onward p => going p
  | Break p => FinalAction (outcome p) <> ActionContinue
  | Crash => True
  end.

Lemma act_outcome (r : FilterResult Email) p : going p -> step_outcome (act r p).
Proof.
  intros G. unfold act. repeat case_bool_decide; simpl; try done.
  all: by destruct (RMessage r).
Qed.

Definition anything : test (call (Filter := Filter) (Email := Email)) := fun _ _ => true.

Lemma failing_outcome e fc err verb p :
  going p -> always anything (failing e fc err verb p) step_outcome.
Proof.
  intros G. unfold failing. walk. by case_bool_decide.
Qed.
Lemma step_goes_on e fc p : going p -> always anything (step e fc p) step_outcome.
Proof.
  intros G. unfold step, runFilter. walk; try (by apply failing_outcome); try done.
  by apply act_outcome.
Qed.
Lemma loop_goes_on e fcs p :
  going p -> always anything (loop e fcs p) (fun o =>
    match o with Some p' => FinalAction (outcome p') = ActionContinue -> going p' | None => True end).
Proof.
  revert p. induction fcs as [|fc fcs IH]; intros p G; simpl; [by intros _|].
  destruct (Enabled fc); simpl; [|by apply IH]. apply always_then.
  eapply always_mono; [|by apply step_goes_on]. intros [p1|p1|] K; simpl in K |- *; [by apply IH|by intros|done].
Qed.

(** ** What was run *)

Definition entry : Type := Filter * ran (Email := Email).
Definition watch_runs : monitor (call (Filter := Filter) (Email := Email)) (list entry) :=
  fun X log q => match q in call X return X -> option (list entry) with
                 | FilterExecute f _ _ _ => fun o => Some (log ++ [(f, o)])
                 | _ => fun _ => Some log
                 end.
Ltac watch := wp_walk ltac:(fun _ => cbn [watch_runs]).

(** The filter was made, ran, and its result does not stop the message. *)
Definition let_pass e (fc : FilterConfig) (x : entry) (r : FilterResult Email) : Prop :=
  Create (registry e) (Name fc) (Config fc) = Ok (fst x) /\ how (snd x) = Returned (Some r) /\
  stops (RAction r) = false.
Definition checked e (log : list entry) (fc : FilterConfig) : Prop :=
  exists x r, x ∈ log /\ let_pass e fc x r.
Definition skip_asked (before : gmap string bool) (log : list entry) (name : string) : Prop :=
  before !! name = Some true \/
  exists x r, x ∈ log /\ how (snd x) = Returned (Some r) /\ name ∈ SkipFilters r.

Lemma checked_app e log l fc : checked e log fc -> checked e (log ++ l) fc.
Proof. intros (x & r & Hx & K). exists x, r. split; [set_solver|done]. Qed.
Lemma skip_asked_app before log l name : skip_asked before log name -> skip_asked before (log ++ l) name.
Proof. intros [K|(x & r & Hx & K)]; [by left|right]. exists x, r. split; [set_solver|done]. Qed.

Lemma skips_after (names : list string) (m : gmap string bool) name :
  foldl (fun m n => <[n := true]> m) m names !! name = Some true -> m !! name = Some true \/ name ∈ names.
Proof.
  revert m. induction names as [|n names IH]; intros m; simpl; [by left|].
  intros [K|K]%IH; [|set_solver]. destruct (decide (n = name)) as [<-|N]; [set_solver|].
  rewrite lookup_insert_ne in K by done. by left.
Qed.

(** One step under a policy that does not wave failures through. *)
Definition step_checked e fc p (log : list entry) (n : next (Email := Email)) (log' : list entry) : Prop :=
  match n with
  | Crash => True
  | Break p' => FinalAction (outcome p') <> ActionContinue
  | Onward p' =>
      going p' /\
      ((skips (skipSet p) fc = true /\ log' = log /\ skipSet p' = skipSet p) \/
       exists x r, log' = log ++ [x] /\ let_pass e fc x r /\
         skipSet p' = foldl (fun m n => <[n := true]> m) (skipSet p) (SkipFilters r))
  end.

Lemma act_skips (r : FilterResult Email) p :
  going p ->
  match act r p with
  | Crash => True
  | Break p' => FinalAction (outcome p') <> ActionContinue
  | Onward p' => going p' /\ stops (RAction r) = false /\ skipSet p' = skipSet p
  end.
Proof.
  intros G. pose proof (act_outcome r p G) as S. unfold act in *.
  assert (K : forall a, RAction r <> ActionReject -> RAction r <> ActionQuarantine ->
              RAction r <> ActionDiscard -> RAction r <> ActionDefer -> a = RAction r -> stops a = false).
  { intros a N1 N2 N3 N4 ->. apply bool_decide_eq_false. rewrite !elem_of_cons, elem_of_nil. naive_solver. }
  repeat case_bool_decide; simpl in *; try done; try destruct (RMessage r); simpl in *; eauto.
Qed.

Lemma run_error_returned e h (r : option (FilterResult Email)) : run_error e h = Ok r -> h = Returned r.
Proof. destruct h as [| | |[]]; simpl; intros E; by simplify_eq. Qed.

Section Strict.
Context (e : Engine (Filter := Filter)) (Hstrict : filterErrorAction e <> ActionContinue).

Lemma failing_breaks fc err verb p log log0 q :
  wp watch_runs log0 (failing e fc err verb p)
    (fun log' n => step_checked e fc q log n log').
Proof.
  unfold failing. watch. by rewrite bool_decide_eq_false_2.
Qed.

Lemma step_is_checked fc p log :
  going p -> wp watch_runs log (step e fc p) (fun log' n => step_checked e fc p log n log').
Proof.
  intros G. unfold step, runFilter. watch; try apply failing_breaks; try done.
  - split; [done|]. by left.
  - match goal with |- step_checked _ _ _ _ (act ?r ?q) _ => pose proof (act_skips r q G) as S;
      destruct (act r q) as [p'|p'|] eqn:E end; simpl in *; try done.
    destruct S as (G' & S & M). split; [done|]. right. eexists (_, _), _. split; [done|].
    split; [|done]. repeat split; [done| |done]. eapply run_error_returned; eassumption.
Qed.

Lemma step_grows fc p log :
  wp watch_runs log (step e fc p) (fun log' _ => exists l, log' = log ++ l).
Proof.
  unfold step, runFilter, failing. watch; eauto; try (exists []; by rewrite app_nil_r).
Qed.

(** Every filter of the list was let pass, or skipped as asked. *)
Definition all_checked (before : gmap string bool) (fcs : list FilterConfig) (log : list entry) : Prop :=
  forall fc, fc ∈ fcs -> Enabled fc = true ->
    checked e log fc \/ (Unskippable fc = false /\ skip_asked before log (Name fc)).
Definition skips_asked (before : gmap string bool) p (log : list entry) : Prop :=
  forall name, skipSet p !! name = Some true -> skip_asked before log name.

Lemma step_keeps_asked before fc p log p' log' :
  skips_asked before p log -> step_checked e fc p log (Onward p') log' ->
  going p' /\ skips_asked before p' log' /\ (exists l, log' = log ++ l) /\
  (checked e log' fc \/ (Unskippable fc = false /\ skip_asked before log' (Name fc))).
Proof.
  intros A (G & [(S & -> & M)|(x & r & -> & P & M)]); (split; [done|]).
  - split; [|split; [by exists []; rewrite app_nil_r|]].
    + intros name. rewrite M. apply A.
    + right. unfold skips in S. apply andb_prop in S as [S U]. split; [by destruct (Unskippable fc)|].
      apply A. by destruct (skipSet p !! Name fc) as [[]|].
  - split; [|split; [by eexists|]].
    + intros name. rewrite M. intros [K|K]%skips_after; [by apply skip_asked_app, A|].
      right. exists x, r. split; [set_solver|]. by destruct P as (_ & P & _).
    + left. exists x, r. split; [set_solver|done].
Qed.

Lemma loop_checks before fcs p log :
  going p -> skips_asked before p log ->
  wp watch_runs log (loop e fcs p) (fun log' o => (exists l, log' = log ++ l) /\
    forall p', o = Some p' -> FinalAction (outcome p') = ActionContinue -> all_checked before fcs log').
Proof.
  revert p log. induction fcs as [|fc fcs IH]; intros p log G A; simpl.
  { split; [by exists []; rewrite app_nil_r|]. intros p' _ _ fc K. by apply elem_of_nil in K. }
  destruct (Enabled fc) eqn:En; simpl.
  - apply wp_then. eapply wp_mono; [|apply (wp_and _ _ _ _ _ (step_is_checked fc p log G)
      (step_grows fc p log))].
    intros log1 [p1|p1|] [S W]; simpl in W |- *; [|split; [done|]..].
    + destruct (step_keeps_asked _ _ _ _ _ _ A S) as (G1 & A1 & (l & ->) & C).
      eapply wp_mono; [|exact (IH p1 _ G1 A1)]. intros log2 o ((l2 & ->) & K).
      split; [exists (l ++ l2); by rewrite app_assoc|]. intros p' E F fc' [->|I]%elem_of_cons E'.
      * destruct C as [C|[U C]]; [left; by apply checked_app|right; split; [done|by apply skip_asked_app]].
      * by apply (K p').
    + intros p' [= <-] F. by destruct S.
    + by intros p' [=].
  - eapply wp_mono; [|exact (IH p log G A)]. intros log' o (W & K). split; [done|].
    intros p' E F fc' [->|I]%elem_of_cons E'; [congruence|by apply (K p')].
Qed.
End Strict.

(** C23: Under any failure policy but the explicit fail-open one, a run ends in [continue] only
    when every enabled filter of the pipeline was made from the registry, ran to the end and
    gave a result that does not stop the message, or was skipped: then it is not marked
    unskippable, and its name was in the run's skip list or in the result of a filter that
    ran. A filter that is unknown, errs, panics or times out is never passed over. *)
Theorem accepted_means_checked e pipeline email state :
  filterErrorAction e <> ActionContinue ->
  wp watch_runs [] (ExecuteStage e pipeline email state) (fun log o =>
    forall r after, o = Some (r, after) -> FinalAction r = ActionContinue ->
    forall fc, fc ∈ Filters pipeline -> Enabled fc = true ->
      checked e log fc \/ (Unskippable fc = false /\ skip_asked (SSkip state) log (Name fc))).
Proof.
  intros S. unfold ExecuteStage. apply wp_then.
  eapply wp_mono; [|apply (loop_checks e S (SSkip state)); [done|]].
  - intros log [p|] [_ C]; [|done]. watch. simplify_eq. by apply (C p).
  - intros name E. by left.
Qed.

(** ** What a filter is given *)

(** The verdicts and the message as the filters run so far left them. *)
Record handed := { verdicts : list AuthResult; message : Email }.
Definition left_by (s : handed) (o : ran (Email := Email)) : handed :=
  {| verdicts := verdicts s ++ recorded o;
     message := match how o with
                | Returned (Some r) =>
                    if bool_decide (RAction r = ActionContinue) && bool_decide (RType r = FilterTypeTransform)
                    then default (message s) (RMessage r) else message s
                | _ => message s
                end |}.
Context `{EqDecision Email}.
(** Refuses a run of a filter that is given anything else. *)
Definition hands_on : monitor (call (Filter := Filter) (Email := Email)) handed :=
  fun X s q => match q in call X return X -> option handed with
               | FilterExecute f _ au em => fun o =>
                   if bool_decide (au = verdicts s /\ em = message s) then Some (left_by s o) else None
               | _ => fun _ => Some s
               end.
Definition has s p : Prop := verdicts s = auth p /\ message s = FinalEmail (outcome p).
Definition next_has s (n : next (Email := Email)) : Prop :=
  match n with Onward p | Break p => has s p | Crash => True end.

Lemma left_failing s e p o err :
  has s p -> run_error e (how o) = Err err -> has (left_by s o) (with_auth (auth p ++ recorded o) p).
Proof.
  intros [V M] E. split; simpl; [by rewrite V|]. by destruct (how o) as [[|]| | |]; simpl in E |- *.
Qed.
Lemma left_acting s p o r q :
  has s p -> how o = Returned (Some r) -> auth q = auth p ++ recorded o -> FinalEmail (outcome q) = message s ->
  next_has (left_by s o) (act r q).
Proof.
  intros [V M] E A F. unfold act. repeat case_bool_decide; try destruct (RMessage r) eqn:Em;
    (split; simpl; [by rewrite V, A|]); rewrite E, ?Em; repeat case_bool_decide; simpl;
    first [congruence|exfalso; unfold ActionContinue, ActionReject, ActionQuarantine, ActionDiscard, ActionDefer in *; congruence].
Qed.

Ltac hand := wp_walk ltac:(fun _ => cbn [hands_on]).
Lemma step_hands_on e fc p s : has s p -> wp hands_on s (step e fc p) (fun s' n => next_has s' n).
Proof.
  intros G. unfold step, runFilter, failing. hand; [done| |by case_bool_decide].
  rewrite bool_decide_eq_true_2 by (destruct G; split; congruence). hand.
  - eapply left_acting; [done|eapply run_error_returned; eassumption|done|]. symmetry. apply G.
  - done.
  - assert (K : has (left_by s x) (with_auth (auth p ++ recorded x) p)) by (eapply left_failing; eassumption).
    by case_bool_decide.
Qed.
Lemma loop_hands_on e fcs p s :
  has s p -> wp hands_on s (loop e fcs p) (fun s' o => forall p', o = Some p' -> has s' p').
Proof.
  revert p s. induction fcs as [|fc fcs IH]; intros p s G; simpl; [by intros p' [= <-]|].
  destruct (Enabled fc); simpl; [|by apply IH]. apply wp_then.
  eapply wp_mono; [|by apply step_hands_on]. intros s' [p1|p1|] K; simpl in K |- *; [by apply IH|..].
  - by intros p' [= <-].
  - done.
Qed.

(** Every filter of a run is given the message as the last transform that went through
    left it and exactly the verdicts recorded before it, the state's first; what a filter
    that failed, panicked or timed out returned is never taken over; and the result and the
    state carried on hold the last of both. *)
Theorem filters_see_what_came_before e pipeline email state :
  wp hands_on {| verdicts := SAuth state; message := email |} (ExecuteStage e pipeline email state)
    (fun s o => forall r after, o = Some (r, after) ->
       EAuth r = verdicts s /\ SAuth after = verdicts s /\ FinalEmail r = message s).
Proof.
  unfold ExecuteStage. apply wp_then. eapply wp_mono; [|by apply loop_hands_on].
  intros s [p|] G; [|done]. destruct (G p eq_refl) as [V M]. hand. by simplify_eq.
Qed.
End Engine.

(** ** One run in two stages *)

Section Stages.
Context {Filter Email : Type}.
Implicit Types (e : Engine (Filter := Filter)) (p : progress (Email := Email)).

Definition joined (r r' : ExecutionResult Email) : ExecutionResult Email :=
  {| FinalAction := FinalAction r'; FinalEmail := FinalEmail r'; Steps := Steps r ++ Steps r';
     RejectMsg := RejectMsg r'; EAuth := EAuth r' |}.
(** The required checks, and when they pass the content checks over what they left. *)
Definition in_stages e (pipeline : PipelineConfig) (email : Email) (state : RunState)
    : prog call (option (ExecutionResult Email * RunState)) :=
  let '(required, content) := Split pipeline in
  bind (ExecuteStage e required email state) (fun o =>
    match o with
    | Some (r, after) =>
        if bool_decide (FinalAction r = ActionContinue) then
          bind (ExecuteStage e content (FinalEmail r) after) (fun o' =>
            Ret ('(r', after') ← o'; Some (joined r r', after')))
        else Ret (Some (r, after))
    | None => Ret None
    end).

Lemma split_filters_spec fcs first second :
  split_filters fcs first second =
    (first ++ filter (fun fc => is_required fc = true) fcs, second ++ filter (fun fc => is_required fc <> true) fcs).
Proof.
  revert first second. induction fcs as [|fc fcs IH]; intros; simpl; [by rewrite !app_nil_r|].
  destruct (is_required fc) eqn:E; rewrite IH; rewrite !filter_cons; repeat case_decide; try congruence;
    by rewrite <- app_assoc.
Qed.

Lemma tbind_under {A B} (P : A -> Prop) (q : prog (call (Filter := Filter) (Email := Email)) A) (g h : A -> tree Filter Email B) :
  always anything q P -> (forall a, P a -> g a ≡ h a) -> tbind (quiet q) g ≡ tbind (quiet q) h.
Proof.
  intros K E. induction q as [a|X c k IH]; simpl; [by apply E|].
  destruct c; simpl; [constructor; intros x|..]; apply IH, K.
Qed.

(** What the second part of a list makes of how the first ended. *)
Definition and_then e (b : list FilterConfig) (o : option (progress (Email := Email))) : tree Filter Email (option progress) :=
  match o with
  | Some p' => if bool_decide (FinalAction (outcome p') = ActionContinue) then quiet (loop e b p') else Leaf (Some p')
  | None => Leaf None
  end.
Lemma loop_app e a b p :
  going p -> quiet (loop e (a ++ b) p) ≡ tbind (quiet (loop e a p)) (and_then e b).
Proof.
  revert p. induction a as [|fc a IH]; intros p G; simpl.
  { by rewrite bool_decide_eq_true_2 by apply G. }
  destruct (Enabled fc); simpl; [|by apply IH].
  rewrite !quiet_bind, tbind_assoc. eapply tbind_under; [by apply step_goes_on|].
  intros [p1|p1|] K; simpl in K |- *; [by apply IH|by rewrite bool_decide_eq_false_2|done].
Qed.

(** The steps already taken only come before the new ones. *)
Definition after_steps (ss : list StepResult) p : progress :=
  {| outcome := {| FinalAction := FinalAction (outcome p); FinalEmail := FinalEmail (outcome p);
                   Steps := ss ++ Steps (outcome p); RejectMsg := RejectMsg (outcome p); EAuth := EAuth (outcome p) |};
     skipSet := skipSet p; auth := auth p |}.
Definition next_after (ss : list StepResult) (n : next (Email := Email)) : next :=
  match n with Onward p => Onward (after_steps ss p) | Break p => Break (after_steps ss p) | Crash => Crash end.
Definition mapped {A B} (f : A -> B) (t : tree Filter Email A) : tree Filter Email B := tbind t (fun a => Leaf (f a)).

Lemma with_step_after ss s p : with_step s (after_steps ss p) = after_steps ss (with_step s p).
Proof. unfold with_step, after_steps. simpl. by rewrite app_assoc. Qed.
Lemma act_after ss (r : FilterResult Email) p : act r (after_steps ss p) = next_after ss (act r p).
Proof. unfold act. repeat case_bool_decide; try done; by destruct (RMessage r). Qed.
Lemma step_after ss e fc p : quiet (step e fc (after_steps ss p)) ≡ mapped (next_after ss) (quiet (step e fc p)).
Proof.
  assert (W : forall s q, with_step s (after_steps ss q) = after_steps ss (with_step s q)) by (intros; apply with_step_after).
  unfold step, runFilter, failing, mapped. simpl. destruct (skips (skipSet p) fc); simpl; [by rewrite W|].
  destruct (Create (registry e) (Name fc) (Config fc)) as [f|err]; simpl.
  - constructor. intros x. destruct (run_error e (how x)) as [[r|]|err]; simpl; [|done|].
    + rewrite <- act_after. unfold with_skips, with_step, with_auth, after_steps. simpl. by rewrite app_assoc.
    + case_bool_decide; unfold with_step, with_auth, stopped, next_after, after_steps; simpl; by rewrite <- app_assoc.
  - case_bool_decide; unfold with_step, stopped, next_after, after_steps; simpl; by rewrite <- app_assoc.
Qed.
Lemma loop_after ss e fcs p :
  quiet (loop e fcs (after_steps ss p)) ≡ mapped (fmap (after_steps ss)) (quiet (loop e fcs p)).
Proof.
  revert p. induction fcs as [|fc fcs IH]; intros p; simpl; [done|]. destruct (Enabled fc); simpl; [|apply IH].
  unfold mapped. rewrite !quiet_bind, step_after. unfold mapped. rewrite !tbind_assoc. apply tbind_proper; [done|].
  intros [p1|p1|]; simpl; [apply IH|done..].
Qed.

Definition conclude (o : option (progress (Email := Email))) : option (ExecutionResult Email * RunState) :=
  p ← o; Some (finished p, {| SAuth := auth p; SSkip := skipSet p |}).
Lemma quiet_stage e pipeline email state :
  quiet (ExecuteStage e pipeline email state) ≡ mapped conclude (quiet (loop e (Filters pipeline) (begin email state))).
Proof.
  unfold ExecuteStage, mapped. rewrite quiet_bind. apply tbind_proper; [done|]. by intros [p|].
Qed.

(** A run that is going on, as a new run with its steps in front. *)
Lemma resumed p :
  going p -> p = after_steps (Steps (outcome p)) (begin (FinalEmail (outcome p)) {| SAuth := auth p; SSkip := skipSet p |}).
Proof.
  destruct p as [[fa fe st rm ea] sk au]. intros (F & R & E). simpl in *. subst.
  unfold after_steps. simpl. by rewrite app_nil_r.
Qed.

(** [in_stages] as the run of the two lists, one after the other. *)
Lemma quiet_stages e first second pl1 pl2 email state :
  Filters pl1 = first -> Filters pl2 = second ->
  quiet (bind (ExecuteStage e pl1 email state) (fun o =>
    match o with
    | Some (r, after) =>
        if bool_decide (FinalAction r = ActionContinue) then
          bind (ExecuteStage e pl2 (FinalEmail r) after) (fun o' =>
            Ret ('(r', after') ← o'; Some (joined r r', after')))
        else Ret (Some (r, after))
    | None => Ret None
    end)) ≡ mapped conclude (quiet (loop e (first ++ second) (begin email state))).
Proof.
  intros <- <-. assert (G : going (begin email state)) by done.
  rewrite quiet_bind, quiet_stage. unfold mapped. rewrite loop_app by done. rewrite !tbind_assoc.
  eapply (tbind_under (fun o => match o with
                                | Some p => FinalAction (outcome p) = ActionContinue -> going p
                                | None => True
                                end)); [by apply loop_goes_on|].
  intros [p|] K; simpl; [|done]. case_bool_decide as A; simpl; [|done].
  pose proof (loop_after (Steps (outcome p)) e (Filters pl2)
    (begin (FinalEmail (outcome p)) {| SAuth := auth p; SSkip := skipSet p |})) as L.
  rewrite <- (resumed p (K A)) in L. rewrite L, quiet_bind, quiet_stage.
  unfold mapped. rewrite !tbind_assoc. apply tbind_proper; [done|]. by intros [q|].
Qed.

Lemma Split_filters pipeline :
  Split pipeline = (with_filters (filter (fun fc => is_required fc = true) (Filters pipeline)) pipeline,
                    with_filters (filter (fun fc => is_required fc <> true) (Filters pipeline)) pipeline).
Proof. unfold Split. by rewrite split_filters_spec. Qed.

(** C24: Running a pipeline's required checks and then, when they pass, its content checks over
    what they left and with the state they left is one run of the pipeline that lists the
    required ones first: whatever the filters answer, the same filters are run in the same
    order on the same message and verdicts, and the action, the message, the steps, the
    reject message, the verdicts and the names to skip are the same. Only the observer
    hears of two runs. *)
Theorem stages_are_one_run e pipeline email state :
  quiet (in_stages e pipeline email state) ≡
  quiet (ExecuteStage e (with_filters (filter (fun fc => is_required fc = true) (Filters pipeline) ++
                                       filter (fun fc => is_required fc <> true) (Filters pipeline)) pipeline)
           email state).
Proof.
  unfold in_stages. rewrite Split_filters. simpl. rewrite quiet_stage. by apply quiet_stages.
Qed.
End Stages.

(** ** The templates *)

Definition other (fc : FilterConfig) : bool := negb (bool_decide (Name fc = "vacation")).
Definition sieves (fcs : list FilterConfig) : list FilterConfig := filter (fun fc => Name fc = "sieve") fcs.
(** The settings of the stored steps that have any, the last one's, or the default. *)
Definition stored_config (steps : list FilterConfig) (config : string) : string :=
  default config (last (filter (fun c => 0 < len c) (Config <$> filter (fun fc => other fc = false) steps))).

(** Where the reply goes: after the last Sieve step, or at the end when there is none. *)
Definition placed (out : list FilterConfig) (at_ : option nat) : Prop :=
  match at_ with
  | None => sieves out = []
  | Some n => exists pre s post, out = pre ++ s :: post /\ n = S (List.length pre) /\ Name s = "sieve" /\ sieves post = []
  end.
Lemma placed_more out at_ s : placed out at_ -> Name s <> "sieve" -> placed (out ++ [s]) at_.
Proof.
  intros P N. assert (E : sieves [s] = []) by (unfold sieves; rewrite filter_cons; by case_decide).
  destruct at_ as [n|]; simpl in *.
  - destruct P as (pre & t & post & -> & L & T & K). exists pre, t, (post ++ [s]). rewrite <- app_assoc.
    repeat split; [done..|]. unfold sieves in *. by rewrite filter_app, K, E.
  - unfold sieves in *. by rewrite filter_app, P, E.
Qed.
Lemma last_config (c : string) l config :
  default config (last (c :: l)) = default c (last l).
Proof.
  revert c config. induction l as [|d l IH]; intros c config; [done|].
  rewrite last_cons_cons, IH. symmetry. apply IH.
Qed.

Lemma stored_config_cons s steps config :
  stored_config (s :: steps) config =
    stored_config steps (if bool_decide (Name s = "vacation") && (0 <? len (Config s)) then Config s else config).
Proof.
  unfold stored_config. rewrite filter_cons. destruct (other s) eqn:O; unfold other in O.
  - apply negb_true_iff in O. rewrite O, decide_False by done. done.
  - apply negb_false_iff in O. rewrite O, decide_True by done. simpl. rewrite filter_cons.
    destruct (0 <? len (Config s)) eqn:L.
    + rewrite decide_True by lia. apply last_config.
    + by rewrite decide_False by lia.
Qed.

Lemma vacation_loop_spec steps out at_ config :
  placed out at_ ->
  let '(out', at', config') := vacation_loop steps out at_ config in
  out' = out ++ filter (fun fc => other fc = true) steps /\ placed out' at' /\ config' = stored_config steps config.
Proof.
  revert out at_ config. induction steps as [|s steps IH]; intros out at_ config P; simpl.
  { by rewrite app_nil_r. }
  rewrite stored_config_cons, filter_cons.
  assert (O : other s = negb (bool_decide (Name s = "vacation"))) by done.
  destruct (bool_decide (Name s = "vacation")); simpl in *.
  - rewrite decide_False by (by rewrite O). apply IH, P.
  - rewrite decide_True by done.
    rewrite (cons_middle s out (filter (fun fc => other fc = true) steps)), app_assoc. apply IH. case_bool_decide; [|by apply placed_more].
    exists out, s, []. rewrite length_app. simpl. repeat split; [lia|done].
Qed.

(** The steps of an inbound pipeline with the account's reply on are the given ones without
    their vacation steps, in their order, and one enabled vacation step: right after the last
    Sieve step, at the end when there is none, with the settings the last stored vacation
    step that had any had. So a domain's stored pipeline can neither turn the reply off nor
    send it twice nor send it before the script has decided. *)
Theorem one_vacation_reply steps :
  exists pre post,
    WithVacationStep steps =
      pre ++ vacation_step (stored_config steps (json_object [json_field "days" "7"])) :: post /\
    pre ++ post = filter (fun fc => other fc = true) steps /\ sieves post = [] /\
    (sieves pre = [] /\ post = [] \/ exists before s, pre = before ++ [s] /\ Name s = "sieve").
Proof.
  unfold WithVacationStep. assert (P0 : placed [] None) by done.
  pose proof (vacation_loop_spec steps [] None (json_object [json_field "days" "7"]) P0) as K.
  destruct (vacation_loop _ _ _ _) as [[out at_] config]. simpl in K. destruct K as (<- & P & ->).
  destruct at_ as [n|]; simpl in P.
  - destruct P as (pre & s & post & -> & -> & N & K). exists (pre ++ [s]), post.
    assert (L : S (List.length pre) = List.length (pre ++ [s])) by (rewrite length_app; simpl; lia).
    rewrite (cons_middle s pre post), app_assoc, L, take_app_length, drop_app_length.
    split_and!; [done| |done|right; by exists pre, s]. by rewrite <- app_assoc.
  - exists out, []. rewrite app_nil_r. split_and!; [done..|]. by left.
Qed.

Lemma ordered_stages a b :
  Forall (fun fc => is_required fc = true) a -> Forall (fun fc => is_required fc <> true) b ->
  filter (fun fc => is_required fc = true) (a ++ b) ++ filter (fun fc => is_required fc <> true) (a ++ b) = a ++ b.
Proof.
  assert (F : forall (P : FilterConfig -> Prop) `{forall x, Decision (P x)} l, Forall P l ->
                filter P l = l /\ filter (fun x => ~ P x) l = []).
  { intros P D l. induction 1 as [|x l K _ [IH1 IH2]]; [done|].
    rewrite !filter_cons, decide_True, decide_False by tauto. by rewrite IH1, IH2. }
  intros A B. destruct (F _ _ a A) as [A1 A2]. rewrite !filter_app, A1, A2. simpl.
  assert (N : filter (fun fc => is_required fc = true) b = [] /\ filter (fun fc => is_required fc <> true) b = b).
  { clear A A1 A2. induction B as [|x l K _ [IH1 IH2]]; [done|].
    rewrite !filter_cons, decide_False, decide_True by done. by rewrite IH1, IH2. }
  destruct N as [-> ->]. by rewrite app_nil_r.
Qed.

(** The step that reads received DMARC reports comes after every required check and before
    every content check, so the two stages are one run of the pipeline as it is stored. *)
Lemma dmarc_reports_in_order steps :
  let fcs := WithDMARCReportsStep steps in
  filter (fun fc => is_required fc = true) fcs ++ filter (fun fc => is_required fc <> true) fcs = fcs.
Proof.
  unfold WithDMARCReportsStep. rewrite split_filters_spec. simpl. rewrite <- app_assoc. apply ordered_stages.
  - apply Forall_forall. by intros x [K _]%list_elem_of_filter.
  - constructor; [by vm_compute|]. apply Forall_forall. by intros x [K _]%list_elem_of_filter.
Qed.
End PipelineFacts.
