(* ===== verification/AuthResults.v ===== *)
(** * Authentication verdicts and the header they are stored in: internal/pipeline

    auth.go and dkim_coverage.go: the verdicts the authentication filters record, the
    Authentication-Results field delivery prepends to a stored message, and reading the
    verdicts back from it. The message splitter and the tag-list parser of the go-dkim
    module are the operations of the class [DkimLib]. *)

From S2P Require Import Prelude GoStrings Pipeline.
From Stdlib Require Import Ascii.
Import GoStrings.
Import Pipeline(AuthResult, Build_AuthResult, Method, AResult, Property, Domain, Selector).
Local Open Scope Z_scope.

Class DkimLib := {
  dkim_SplitMessage : string -> list (string * string);   (* the header fields: name, value *)
  dkim_ParseTagList : string -> gmap string string;
}.

Module AuthResults.

Definition AuthServID : string := "restmail".
Definition AuthSPF : string := "spf".
Definition AuthDKIM : string := "dkim".
Definition AuthARC : string := "arc".
Definition AuthDMARC : string := "dmarc".
Definition PropMailFrom : string := "smtp.mailfrom".
Definition PropHelo : string := "smtp.helo".
Definition PropHeaderD : string := "header.d".
Definition PropHeaderFrom : string := "header.from".

(** A plain host name: dot-separated labels of ASCII letters, digits and hyphens. *)
Definition host_byte (a : ascii) : bool :=
  in_range 97 122 a || in_range 65 90 a || in_range 48 57 a || bool_decide (a = "-"%char).
Definition label_ok (label : string) : bool :=
  negb (bool_decide (label = "") || (63 <? len label)) && sforall host_byte label.
Definition IsHostName (name : string) : bool :=
  if bool_decide (name = "") || (253 <? len name) then false
  else forallb label_ok (split_byte "."%char name).

Definition shows_domain (r : AuthResult) : bool :=
  negb (bool_decide (Property r = "")) && IsHostName (Domain r).
Definition String_ (r : AuthResult) : string :=
  Method r +:+ "=" +:+ AResult r +:+
  (if shows_domain r then " " +:+ Property r +:+ "=" +:+ Domain r else "").

(** The list behind a run's context; [None] is the nil list outside a run. *)
Definition Add (rs : list AuthResult) (a : option (list AuthResult)) : option (list AuthResult) :=
  l ← a; Some (l ++ rs).
Definition List_ (a : option (list AuthResult)) : list AuthResult := default [] a.
Definition Find (method property : string) (a : option (list AuthResult)) : list AuthResult :=
  filter (fun r => Method r = method /\ Property r = property) (List_ a).

Definition AuthResultsValue (rs : list AuthResult) : string :=
  match rs with
  | [] => AuthServID +:+ "; none"
  | _ => AuthServID +:+ "; " +:+ Join (String_ <$> rs) "; "
  end.

Definition fold_break : string := ";" +:+ crlf +:+ String (byte 9) "".
Definition AuthResultsHeader (rs : list AuthResult) : string :=
  match rs with
  | [] => ""
  | _ => "Authentication-Results: " +:+ AuthServID +:+
         concat_all ((fun r => fold_break +:+ String_ r) <$> rs) +:+ crlf
  end.

Definition AuthVerdictSigned : string := "signed".
Definition AuthVerdictUnsigned : string := "unsigned".
Definition AuthVerdictMismatch : string := "mismatch".
Fixpoint verdict_loop (rs : list AuthResult) (signed : bool) : string :=
  match rs with
  | [] => if signed then AuthVerdictSigned else AuthVerdictUnsigned
  | r :: rs =>
      if bool_decide (Method r = AuthDMARC) && bool_decide (AResult r = "fail") then AuthVerdictMismatch
      else verdict_loop rs (signed || bool_decide (Method r = AuthDKIM) && bool_decide (AResult r = "pass"))
  end.
Definition AuthVerdict (rs : list AuthResult) : string := verdict_loop rs false.

(** ** Reading the stored field *)

(** [strings.Cut] on one byte: all of the text and nothing when it is not there. *)
Definition cut_at (c : ascii) (s : string) : string * string :=
  default (s, "") (cut_byte c s).
Definition continues (rest : string) : bool :=
  match rest with
  | String a _ => bool_decide (a = byte 9) || bool_decide (a = " "%char)
  | EmptyString => false
  end.
(** The field with its continuation lines; each round takes a byte off [rest] at least. *)
Fixpoint unfold_field (fuel : nat) (field rest : string) : string :=
  match fuel with
  | O => field
  | S fuel =>
      if continues rest then
        let '(line, rest) := cut_at lf rest in unfold_field fuel (field +:+ " " +:+ line) rest
      else field
  end.

Definition parse_part (part : string) : option AuthResult :=
  match Fields part with
  | [] => None
  | token :: tokens =>
      '(method, result) ← cut_byte "="%char token;
      let '(property, domain) :=
        match tokens with t :: _ => cut_at "="%char t | [] => ("", "") end in
      Some {| Method := method; AResult := result; Property := property; Domain := domain; Selector := "" |}
  end.

Section Parse.
Context `{Unicode}.

(** [None] is the false [ok]: no such field. *)
Definition ParseStoredAuthResults (raw : string) : option (list AuthResult) :=
  '(field, rest) ← cut_byte lf raw;
  let field := unfold_field (S (String.length rest)) field rest in
  '(name, value) ← cut_byte ":"%char field;
  if EqualFold name "Authentication-Results" then
    match split_byte ";"%char value with
    | first :: parts =>
        if bool_decide (TrimSpace first = AuthServID) then Some (omap parse_part parts) else None
    | [] => None
    end
  else None.

(** ** What a stored signature covers: dkim_coverage.go *)

Context `{DkimLib}.

Definition signedAll (hTag : string) (fields : list string) : bool :=
  let signed := ToLower <$> split_byte ":"%char (Join (Fields hTag) "") in
  forallb (fun field => bool_decide (ToLower field ∈ signed)) fields.

Fixpoint covers_loop (pairs : list (AuthResult * (string * string))) (fields : list string) : bool :=
  match pairs with
  | [] => false
  | (verdict, (_, value)) :: pairs =>
      if negb (bool_decide (AResult verdict = "pass")) then covers_loop pairs fields
      else
        let tags := dkim_ParseTagList value in
        if negb (EqualFold (default "" (tags !! "d")) (Domain verdict)) then false
        else if signedAll (default "" (tags !! "h")) fields then true
        else covers_loop pairs fields
  end.
Definition StoredDKIMCovers (header : string) (fields : list string) : bool :=
  match ParseStoredAuthResults header with
  | None => false
  | Some results =>
      let verdicts := filter (fun r => Method r = AuthDKIM /\ Property r = PropHeaderD) results in
      let signatures := List.filter (fun h => EqualFold (fst h) "DKIM-Signature") (dkim_SplitMessage header) in
      if (List.length verdicts =? 0)%nat || negb (List.length verdicts =? List.length signatures)%nat then false
      else covers_loop (zip verdicts signatures) fields
  end.
End Parse.

(** ** What is written is what is read *)

(** Text that can stand as one word of the field: visible ASCII and no semicolon. *)
Definition token_byte (a : ascii) : bool := in_range 33 126 a && negb (bool_decide (a = ";"%char)).
Definition token (s : string) : bool := sforall token_byte s.
Definition well_named (r : AuthResult) : bool :=
  token (Method r) && free "="%char (Method r) && token (AResult r) &&
  token (Property r) && free "="%char (Property r).
(** What a reader sees of a verdict: its domain only when it is a plain host name. *)
Definition shown (r : AuthResult) : AuthResult :=
  if shows_domain r
  then {| Method := Method r; AResult := AResult r; Property := Property r; Domain := Domain r; Selector := "" |}
  else {| Method := Method r; AResult := AResult r; Property := ""; Domain := ""; Selector := "" |}.

Lemma token_byte_range a : token_byte a = true -> (33 <= nat_of_ascii a <= 126)%nat /\ a <> ";"%char.
Proof. unfold token_byte, in_range. intros K. bprop. destruct K as [[K1 K2] K3]. by repeat split. Qed.
Lemma host_token a : host_byte a = true -> token_byte a = true.
Proof. by destruct a as [[] [] [] [] [] [] [] []]. Qed.
Lemma free_token c s : token_byte c = false -> token s = true -> free c s = true.
Proof.
  intros N. apply sforall_impl. intros a K. apply negb_true_iff, bool_decide_eq_false. intros ->. congruence.
Qed.
Lemma split_byte_join f c s : f c = true -> forallb (sforall f) (split_byte c s) = sforall f s.
Proof.
  intros K. induction s as [|a s IH]; [done|]. simpl. destruct (ascii_dec a c) as [->|N]; simpl.
  - by rewrite K, IH.
  - pose proof (split_byte_some c s). destruct (split_byte c s) as [|w ws]; [done|]. simpl in *. by rewrite <- andb_assoc, IH.
Qed.
Lemma host_name_token s : IsHostName s = true -> token s = true.
Proof.
  unfold IsHostName. destruct (_ || _); [done|]. intros K.
  unfold token. rewrite <- (split_byte_join token_byte "."%char s eq_refl). apply forallb_forall. intros w W.
  apply (proj1 (forallb_forall _ _) K) in W. unfold label_ok in W. apply andb_prop in W as [_ W].
  revert W. apply sforall_impl, host_token.
Qed.

(** Words. *)
Lemma split_space_token w t :
  token w = true -> split_space (w +:+ t) = foldr push (split_space t) (String.list_ascii_of_string w).
Proof.
  induction w as [|a w IH]; intros K; [done|]. unfold token in K. simpl in K. apply andb_prop in K as [A K].
  apply token_byte_range in A as [A _]. rewrite string_app_cons. simpl. rewrite (IH K).
  replace (space1 a) with false by (symmetry; unfold space1; bool_lia).
  assert (S2 : forall b, space2 a b = false) by (intros b; unfold space2; apply andb_false_iff; left; bool_lia).
  assert (S3 : forall b c, space3 a b c = false).
  { intros b c. unfold space3. rewrite !(proj2 (Nat.eqb_neq (nat_of_ascii a) _)) by lia. done. }
  destruct (w +:+ t) as [|b [|c u]]; by rewrite ?S2, ?S3.
Qed.
Lemma push_word w ws : foldr push ("" :: ws) (String.list_ascii_of_string w) = w :: ws.
Proof. induction w as [|a w IH]; [done|]. simpl. by rewrite IH. Qed.
Lemma Fields_word w sp t :
  token w = true -> w <> "" -> space1 sp = true -> Fields (w +:+ String sp t) = w :: Fields t.
Proof.
  intros K N S. unfold Fields. rewrite split_space_token by done. simpl. rewrite S, push_word.
  by rewrite filter_cons_True.
Qed.
Lemma Fields_last w : token w = true -> w <> "" -> Fields w = [w].
Proof.
  intros K N. rewrite <- (app_string_nil w) at 1. unfold Fields. rewrite split_space_token by done. simpl.
  rewrite push_word. by rewrite filter_cons_True.
Qed.
Lemma Fields_space sp t : space1 sp = true -> Fields (String sp t) = Fields t.
Proof. intros S. unfold Fields. simpl. rewrite S. done. Qed.

(** One verdict. *)
Lemma well_named_parts r :
  well_named r = true ->
  token (Method r) = true /\ free "="%char (Method r) = true /\ token (AResult r) = true /\
  token (Property r) = true /\ free "="%char (Property r) = true.
Proof. unfold well_named. intros K. bprop. tauto. Qed.
Lemma token_app x y : token (x +:+ y) = token x && token y.
Proof. apply sforall_app. Qed.

Lemma word_of_method r : well_named r = true -> token (Method r +:+ "=" +:+ AResult r) = true.
Proof. intros (M & _ & R & _)%well_named_parts. rewrite !token_app. by rewrite M, R. Qed.
Lemma cut_method r :
  well_named r = true -> cut_byte "="%char (Method r +:+ "=" +:+ AResult r) = Some (Method r, AResult r).
Proof. intros (_ & F & _)%well_named_parts. by apply (cut_byte_app "="%char (Method r) (AResult r)). Qed.
Lemma cut_property r :
  well_named r = true -> cut_byte "="%char (Property r +:+ "=" +:+ Domain r) = Some (Property r, Domain r).
Proof. intros (_ & _ & _ & _ & F)%well_named_parts. by apply (cut_byte_app "="%char (Property r) (Domain r)). Qed.
Lemma method_not_empty r (x : string) : Method r +:+ "=" +:+ x <> "".
Proof. by destruct (Method r). Qed.

(** The text around a verdict in the unfolded field. *)
Definition before : string := String cr (String " " (String (byte 9) "")).
Definition pad (s : string) : bool := bool_decide (s = "" \/ s = String cr "").

Lemma Fields_padded w t : token w = true -> w <> "" -> pad t = true -> Fields (w +:+ t) = [w].
Proof.
  intros T N P. unfold pad in P. bprop. destruct P as [->| ->]; [|by rewrite Fields_word].
  rewrite app_string_nil. by apply Fields_last.
Qed.
Lemma word_of_domain r :
  well_named r = true -> shows_domain r = true -> token (Property r +:+ "=" +:+ Domain r) = true.
Proof.
  intros (_ & _ & _ & P & _)%well_named_parts [_ D]%andb_prop. rewrite !token_app, P. by apply host_name_token.
Qed.

Lemma words_of r t :
  well_named r = true -> pad t = true ->
  Fields (before +:+ String_ r +:+ t) =
    (Method r +:+ "=" +:+ AResult r) ::
    (if shows_domain r then [Property r +:+ "=" +:+ Domain r] else []).
Proof.
  intros W P. unfold before. rewrite !string_app_cons, !Fields_space by done. change ("" +:+ ?x) with x.
  pose proof (word_of_method r W) as T. pose proof (method_not_empty r (AResult r)) as N.
  unfold String_. destruct (shows_domain r) eqn:D.
  - replace ((Method r +:+ "=" +:+ AResult r +:+ " " +:+ Property r +:+ "=" +:+ Domain r) +:+ t)
      with ((Method r +:+ "=" +:+ AResult r) +:+ String " " ((Property r +:+ "=" +:+ Domain r) +:+ t))
      by (rewrite !app_string_assoc; reflexivity).
    rewrite Fields_word by done. f_equal. apply Fields_padded; [by apply word_of_domain|by destruct (Property r)|done].
  - rewrite app_string_nil. by apply Fields_padded.
Qed.
Lemma parse_written r t :
  well_named r = true -> pad t = true -> parse_part (before +:+ String_ r +:+ t) = Some (shown r).
Proof.
  intros W P. unfold parse_part. rewrite words_of by done. rewrite cut_method by done. unfold shown.
  destruct (shows_domain r); [|done]. unfold cut_at. by rewrite cut_property.
Qed.

(** The folded field. *)
Section Stored.
Context (rest : string) (Hrest : continues rest = false).

Definition tail (rs : list AuthResult) : string :=
  concat_all ((fun r => fold_break +:+ String_ r) <$> rs) +:+ crlf +:+ rest.
Fixpoint unfolded (rs : list AuthResult) : string :=
  match rs with
  | [] => String cr ""
  | r :: rs => ";" +:+ before +:+ String_ r +:+ unfolded rs
  end.
Lemma tail_cons r rs : tail (r :: rs) = String ";" (String cr (String lf (String (byte 9) (String_ r +:+ tail rs)))).
Proof. unfold tail. simpl. by rewrite !app_string_assoc. Qed.
Lemma free_app c x y : free c (x +:+ y) = free c x && free c y.
Proof. apply sforall_app. Qed.

Lemma unfold_tail rs x y fuel :
  free lf x = true -> Forall (fun r => free lf (String_ r) = true) rs -> (List.length rs < fuel)%nat ->
  let '(line, after) := cut_at lf (x +:+ tail rs) in
  unfold_field fuel (y +:+ line) after = y +:+ x +:+ unfolded rs.
Proof.
  revert x y fuel. induction rs as [|r rs IH]; intros x y fuel X F L.
  - unfold tail, cut_at. simpl fmap. simpl concat_all. change ("" +:+ ?z) with z.
    replace (x +:+ crlf +:+ rest) with ((x +:+ String cr "") +:+ String lf rest) by (by rewrite app_string_assoc).
    rewrite cut_byte_app by (rewrite free_app, X; done). simpl. destruct fuel; [done|]. simpl. by rewrite Hrest.
  - rewrite tail_cons. inversion F as [|? ? F1 F2]; subst. unfold cut_at.
    replace (x +:+ String ";" (String cr (String lf (String (byte 9) (String_ r +:+ tail rs)))))
      with ((x +:+ String ";" (String cr "")) +:+ String lf (String (byte 9) (String_ r +:+ tail rs)))
      by (by rewrite app_string_assoc).
    rewrite cut_byte_app by (rewrite free_app, X; done). simpl default. destruct fuel as [|fuel]; [simpl in L; lia|].
    simpl unfold_field. specialize (IH (String (byte 9) (String_ r)) ((y +:+ x +:+ String ";" (String cr "")) +:+ " ") fuel).
    rewrite string_app_cons in IH. destruct (cut_at lf _) as [line after]. simpl in L.
    rewrite app_string_assoc in IH. rewrite IH; [|done..|lia]. simpl. by rewrite !app_string_assoc.
Qed.
End Stored.

(** The parts between semicolons. *)
Fixpoint part_of (first : string) (rs : list AuthResult) : list string :=
  match rs with
  | [] => [first +:+ String cr ""]
  | r :: rs => first :: part_of (before +:+ String_ r) rs
  end.
Lemma split_unfolded rs x :
  free ";"%char x = true -> Forall (fun r => free ";"%char (String_ r) = true) rs ->
  split_byte ";"%char (x +:+ unfolded rs) = part_of x rs.
Proof.
  revert x. induction rs as [|r rs IH]; intros x X F.
  - apply split_byte_free. rewrite free_app, X. done.
  - change (unfolded (r :: rs)) with (String ";" (before +:+ String_ r +:+ unfolded rs)).
    inversion F as [|? ? F1 F2]; subst. rewrite split_byte_app by done. cbn [part_of]. f_equal.
    rewrite <- IH; [by rewrite app_string_assoc| |done]. rewrite free_app, F1. done.
Qed.
Lemma parts_shown r rs :
  well_named r = true -> Forall (fun r => well_named r = true) rs ->
  omap parse_part (part_of (before +:+ String_ r) rs) = shown r :: (shown <$> rs).
Proof.
  revert r. induction rs as [|r' rs IH]; intros r W F; cbn [part_of omap list_omap].
  - rewrite app_string_assoc, parse_written by done. done.
  - inversion F; subst. rewrite <- (app_string_nil (String_ r)) at 1. rewrite parse_written by done.
    f_equal. by apply IH.
Qed.

Lemma free_String c r :
  token_byte c = false -> c <> " "%char -> well_named r = true -> free c (String_ r) = true.
Proof.
  intros T N W. unfold String_. pose proof (free_token c _ T (word_of_method r W)) as F.
  rewrite <- app_string_assoc, <- app_string_assoc, free_app, (app_string_assoc (Method r)), F. simpl.
  destruct (shows_domain r) eqn:D; [|done]. unfold free. simpl.
  rewrite bool_decide_eq_false_2 by congruence. simpl. apply (free_token c _ T (word_of_domain r W D)).
Qed.

Section Unicode.
Context `{Unicode}.

Lemma same_name : EqualFold "Authentication-Results" "Authentication-Results" = true.
Proof. reflexivity. Qed.
Lemma read_name x :
  cut_byte ":"%char ("Authentication-Results: restmail" +:+ x) = Some ("Authentication-Results", " restmail" +:+ x).
Proof. reflexivity. Qed.
Lemma tail_length rest rs : (List.length rs <= String.length (tail rest rs))%nat.
Proof. induction rs as [|r rs IH]; [simpl; lia|]. rewrite tail_cons. simpl. rewrite length_app_string. lia. Qed.

Lemma read_back rs rest :
  rs <> [] -> Forall (fun r => well_named r = true) rs -> continues rest = false ->
  ParseStoredAuthResults (AuthResultsHeader rs +:+ rest) = Some (shown <$> rs).
Proof.
  intros N W R. destruct rs as [|r rs]; [done|].
  assert (L : Forall (fun r => free lf (String_ r) = true) (r :: rs)) by (eapply Forall_impl; [exact W|intros; by apply free_String]).
  assert (S : Forall (fun r => free ";"%char (String_ r) = true) (r :: rs)) by (eapply Forall_impl; [exact W|intros; by apply free_String]).
  set (name := "Authentication-Results: restmail").
  assert (E : AuthResultsHeader (r :: rs) +:+ rest = name +:+ tail rest (r :: rs)).
  { unfold AuthResultsHeader, tail, name, AuthServID. rewrite !app_string_assoc. reflexivity. }
  set (after := String (byte 9) (String_ r +:+ tail rest rs)).
  assert (C : cut_byte lf (name +:+ tail rest (r :: rs)) = Some (name +:+ String ";" (String cr ""), after)).
  { rewrite tail_cons. fold after. rewrite <- (cut_byte_app lf (name +:+ String ";" (String cr "")) after) by reflexivity. by rewrite app_string_assoc. }
  pose proof (unfold_tail rest R (r :: rs) name "" (Datatypes.S (String.length after)) eq_refl L) as U.
  unfold cut_at in U. rewrite C in U. simpl default in U.
  rewrite E. unfold ParseStoredAuthResults. rewrite C. cbn [mbind option_bind].
  rewrite U; [|pose proof (tail_length rest rs); unfold after; simpl; rewrite length_app_string; lia].
  change ("" +:+ ?x) with x. unfold name. rewrite read_name. cbn [mbind option_bind].
  rewrite same_name. rewrite split_unfolded by done. cbn [part_of].
  rewrite bool_decide_eq_true_2 by (by vm_compute). f_equal. inversion W; subst. by apply parts_shown.
Qed.

End Unicode.
End AuthResults.
