(* ===== verification/Emails.v ===== *)
(** * The message a pipeline works on: internal/pipeline/types.go

    [EmailJSON] and its parts, the estimate of its size (internal/mime/serialize.go) and the
    two small filters that need nothing but the message: size_check, header_validate and
    header_cleanup (internal/pipeline/filters). A filter's Execute is a function of the
    message behind its pointer; the ones that change that message in place say so in their
    result. A filter's JSON settings are given as the fields that decode from them. *)

From S2P Require Import Prelude GoTime GoStrings GoCodec Pipeline.
From Stdlib Require Import Ascii.
Import GoTime GoStrings.
Import Pipeline(FilterResult, Build_FilterResult, FilterLog, Build_FilterLog, RType, RAction, RMessage,
  SkipFilters, RRejectMsg, RLog, Action, ActionContinue, ActionReject, ActionDefer, ActionQuarantine,
  FilterTypeAction, FilterTypeTransform).
Local Open Scope Z_scope.

Module Emails.

Record Envelope := {
  MailFrom : string;
  RcptTo : list string;
  ClientIP : string;
  ClientHostname : string;
  Helo : string;
  TLS : bool;
  EDirection : string
}.
Record Address := { AName : string; AAddress : string }.
Record Headers := {
  From : list Address;
  To : list Address;
  Cc : list Address;
  Bcc : list Address;
  Subject : string;
  Date : string;
  MessageID : string;
  InReplyTo : string;
  References : list string;
  Raw : gmap string (list string);
  Extra : gmap string string
}.
Inductive Body := BodyPart (ContentType Content : string) (Parts : list Body).
Record Attachment := {
  Filename : string;
  AContentType : string;
  Size : Z;
  Disposition : string;
  ContentID : string;
  AContent : string;
  Storage : string;
  Ref : string;
  Checksum : string
}.
Record CalendarAddress := { CAddress : string; CName : string; Role : string; PartStat : string; RSVP : bool }.
Record CalendarEvent := {
  CMethod : string;
  UID : string;
  Summary : string;
  Description : string;
  Location : string;
  DTStart : Time;
  DTEnd : Time;
  AllDay : bool;
  Organizer : CalendarAddress;
  Attendees : list CalendarAddress;
  CStatus : string;
  Sequence : Z;
  DTStamp : Time
}.
Record EmailJSON := {
  EEnvelope : Envelope;
  EHeaders : Headers;
  EBody : Body;
  Attachments : list Attachment;
  Inline : list Attachment;
  CalendarEvents : list CalendarEvent;
  Metadata : gmap string string
}.

Definition with_raw (raw : gmap string (list string)) (h : Headers) : Headers := {|
  From := From h; To := To h; Cc := Cc h; Bcc := Bcc h; Subject := Subject h; Date := Date h;
  MessageID := MessageID h; InReplyTo := InReplyTo h; References := References h; Raw := raw; Extra := Extra h |}.
Definition with_bcc (bcc : list Address) (h : Headers) : Headers := {|
  From := From h; To := To h; Cc := Cc h; Bcc := bcc; Subject := Subject h; Date := Date h;
  MessageID := MessageID h; InReplyTo := InReplyTo h; References := References h; Raw := Raw h; Extra := Extra h |}.
Definition with_headers (h : Headers) (m : EmailJSON) : EmailJSON := {|
  EEnvelope := EEnvelope m; EHeaders := h; EBody := EBody m; Attachments := Attachments m;
  Inline := Inline m; CalendarEvents := CalendarEvents m; Metadata := Metadata m |}.

(** [append(raw[key], value)]. *)
Definition append_raw (key value : string) (raw : gmap string (list string)) : gmap string (list string) :=
  <[key := default [] (raw !! key) ++ [value]]> raw.

(** ** Results *)

Definition Result := FilterResult EmailJSON.
Definition answer (filter result detail : string) (action : Action) (reject : string) : Result := {|
  RType := FilterTypeAction; RAction := action; RMessage := None; SkipFilters := []; RRejectMsg := reject;
  RLog := {| Pipeline.LFilter := filter; Pipeline.LResult := result; Pipeline.LDetail := detail |} |}.
Definition goes_on (filter result detail : string) : Result := answer filter result detail ActionContinue "".
Definition transformed (filter result detail : string) (action : Action) (reject : string) (m : EmailJSON) : Result := {|
  RType := FilterTypeTransform; RAction := action; RMessage := Some m; SkipFilters := []; RRejectMsg := reject;
  RLog := {| Pipeline.LFilter := filter; Pipeline.LResult := result; Pipeline.LDetail := detail |} |}.
Definition continueResult (filter detail : string) : Result := goes_on filter "neutral" detail.

(** ** The size: mime.EstimateSize *)

(** encoding/base64's DecodeString, of which only the length is used: line breaks are
    skipped, and decoding stops at the first byte that does not belong. *)
Definition base64_value (a : ascii) : bool :=
  in_range 65 90 a || in_range 97 122 a || in_range 48 57 a || bool_decide (a = "+"%char) || bool_decide (a = "/"%char).
Fixpoint base64_len (s : string) (have : nat) : Z :=
  match s with
  | EmptyString => 0
  | String a r =>
      if bool_decide (a = cr) || bool_decide (a = lf) then base64_len r have
      else if base64_value a then
        match have with
        | 3%nat => 3 + base64_len r 0
        | _ => base64_len r (S have)
        end
      else if bool_decide (a = "="%char) then
        match have with
        | 2%nat => match trim_left_set (fun b => bool_decide (b = cr) || bool_decide (b = lf)) r with
                   | String b _ => if bool_decide (b = "="%char) then 1 else 0
                   | EmptyString => 0
                   end
        | 3%nat => 2
        | _ => 0
        end
      else 0
  end.

Fixpoint bodyTreeSize (b : Body) : Z :=
  match b with
  | BodyPart _ content parts =>
      (fix sum (l : list Body) (acc : Z) : Z :=
         match l with
         | [] => acc
         | p :: l => sum l (GoInt.wrap64 (acc + bodyTreeSize p))
         end) parts (len content)
  end.
Definition attachment_size (a : Attachment) : Z :=
  if bool_decide (AContent a <> "") then base64_len (AContent a) 0 else Size a.
Definition EstimateSize (m : EmailJSON) : Z :=
  let add := fun acc n => GoInt.wrap64 (acc + n) in
  let h := EHeaders m in
  let size := foldl (fun acc a => add acc (len (AAddress a) + len (AName a) + 20)) 0 (From h) in
  let size := add size (len (Subject h) + 20) in
  let size := add size (bodyTreeSize (EBody m)) in
  let size := foldl (fun acc a => add acc (attachment_size a)) size (Attachments m) in
  foldl (fun acc a => add acc (attachment_size a)) size (Inline m).

(** ** size_check *)

Definition DefaultSMTPMaxMessageSize : Z := 10 * 1024 * 1024.
Record sizeCheckConfig := { MaxSizeBytes : Z; MaxSizeMB : Z }.
Definition NewSizeCheck (cfg : sizeCheckConfig) : Z :=
  let maxSize := MaxSizeBytes cfg in
  let maxSize := if (maxSize <=? 0) && (0 <? MaxSizeMB cfg)
                 then GoInt.wrap64 (MaxSizeMB cfg * 1024 * 1024) else maxSize in
  if maxSize <=? 0 then DefaultSMTPMaxMessageSize else maxSize.
Definition size_check (maxSize : Z) (m : EmailJSON) : Result :=
  let size := EstimateSize m in
  let detail := "size=" +:+ itoa size +:+ " max=" +:+ itoa maxSize in
  if maxSize <? size then
    answer "size_check" "reject" detail ActionReject
      ("552 Message too large: " +:+ itoa size +:+ " bytes exceeds limit of " +:+ itoa maxSize)
  else goes_on "size_check" "pass" detail.

(** ** header_validate *)

Record headerValidateConfig := {
  RequireFrom : bool; RequireDate : bool; RequireMessageID : bool; RejectInjection : bool }.
Definition default_headerValidate : headerValidateConfig :=
  {| RequireFrom := true; RequireDate := true; RequireMessageID := false; RejectInjection := true |}.
(** One complaint per value with a line break; a Go map is read in any order, [order]. *)
Definition injections (order : gmap string (list string) -> list (string * list string)) (m : EmailJSON) : list string :=
  kv ← order (Raw (EHeaders m));
  const ("header injection in " +:+ fst kv) <$> List.filter (fun v => Contains v (String lf "")) (snd kv).
Definition header_issues (order : gmap string (list string) -> list (string * list string))
    (cfg : headerValidateConfig) (m : EmailJSON) : list string :=
  let h := EHeaders m in
  (if RequireFrom cfg && (List.length (From h) =? 0)%nat then ["missing From header"] else []) ++
  (if RequireDate cfg && bool_decide (Date h = "") then ["missing Date header"] else []) ++
  (if RequireMessageID cfg && bool_decide (MessageID h = "") then ["missing Message-ID header"] else []) ++
  (if RejectInjection cfg then injections order m else []).
Definition header_validate (order : gmap string (list string) -> list (string * list string))
    (cfg : headerValidateConfig) (m : EmailJSON) : Result :=
  match header_issues order cfg m with
  | [] => goes_on "header_validate" "pass" "all headers valid"
  | issues => answer "header_validate" "reject" (Join issues "; ") ActionReject
                ("550 Invalid headers: " +:+ Join issues ", ")
  end.

(** ** header_cleanup *)

Definition internalHeaders : list string := ["X-RestMail-Internal"; "X-Pipeline-ID"; "X-Queue-ID"; "Bcc"].
Definition header_cleanup (m : EmailJSON) : Result :=
  let raw := foldl (fun raw h => delete h raw) (Raw (EHeaders m)) internalHeaders in
  transformed "header_cleanup" "transformed" "removed internal headers, cleared BCC" ActionContinue ""
    (with_headers (with_bcc [] (with_raw raw (EHeaders m))) m).
End Emails.
