(* ===== verification/Greylist.v ===== *)
(** * Greylisting: internal/pipeline/filters/greylist.go and internal/greylist

    The filter defers the first message of a (sender, recipient, client IP) triple and lets
    a later one pass once the delay is over; the purger deletes entries past their lifetime.
    The table is the rows in id order; [broken] names the statements the database refuses in
    one run. A run of the filter reads and writes the table in one step. *)

From S2P Require Import Prelude GoTime GoStrings GoCodec Pipeline Emails.
From Stdlib Require Import Ascii.
Import GoTime GoStrings Emails.
Import Pipeline(RAction, Action, ActionContinue, ActionDefer).
Local Open Scope Z_scope.

Module Greylist.

Definition DefaultGreylistTTLDays : Z := 36.
Record GreylistEntry := {
  GID : Z;
  Sender : string;
  Recipient : string;
  SourceIP : string;
  FirstSeen : Time;
  RetryAfter : Time;
  Passed : bool;
  ExpiresAt : Time
}.
Record Table := { entries : list GreylistEntry; next_id : Z }.

Record greylistConfig := { DelayMinutes : Z; TTLDays : Z; WhitelistAfterPass : bool }.
(** The settings' fields that decode. *)
Record greylistJSON := { delay_minutes : option Z; ttl_days : option Z; whitelist_after_pass : option bool }.
Definition NewGreylist (json : greylistJSON) : greylistConfig :=
  let days := default DefaultGreylistTTLDays (ttl_days json) in {|
  DelayMinutes := default 5 (delay_minutes json);
  TTLDays := if days <=? 0 then DefaultGreylistTTLDays else days;
  WhitelistAfterPass := default true (whitelist_after_pass json) |}.
Definition ttl (cfg : greylistConfig) : Duration := times (GoInt.wrap64 (TTLDays cfg * 24)) Hour.
Definition delay (cfg : greylistConfig) : Duration := times (DelayMinutes cfg) Minute.

Inductive stmt := QLookup | QCreate | QReset | QMark | QClear.
#[export] Instance stmt_eq : EqDecision stmt.
Proof. solve_decision. Defined.

Definition triple : Type := string * string * string.
Definition triple_of (m : EmailJSON) : triple :=
  (MailFrom (EEnvelope m), default "" (head (RcptTo (EEnvelope m))), ClientIP (EEnvelope m)).
Definition triple_row (e : GreylistEntry) : triple := (Sender e, Recipient e, SourceIP e).
Definition lookup_entry (k : triple) (t : Table) : option GreylistEntry :=
  List.find (fun e => bool_decide (triple_row e = k)) (entries t).
(** [Updates] and [Delete] of the row with an id. *)
Definition update_row (id : Z) (f : GreylistEntry -> GreylistEntry) (t : Table) : Table :=
  {| entries := (fun e => if GID e =? id then f e else e) <$> entries t; next_id := next_id t |}.
Definition delete_row (id : Z) (t : Table) : Table :=
  {| entries := filter (fun e => GID e <> id) (entries t); next_id := next_id t |}.

Section Filter.
Context (cfg : greylistConfig) (broken : stmt -> bool).

Definition deferNew (k : triple) (now : Time) (t : Table) : Table * result string Result :=
  let retryAfter := Add now (delay cfg) in
  let '(sender, rcpt, clientIP) := k in
  let row := {| GID := next_id t; Sender := sender; Recipient := rcpt; SourceIP := clientIP; FirstSeen := now;
                RetryAfter := retryAfter; Passed := false; ExpiresAt := Add now (ttl cfg) |} in
  if broken QCreate then (t, Err "greylist create entry: database")
  else ({| entries := entries t ++ [row]; next_id := next_id t + 1 |},
        Ok (answer "greylist" "defer" ("first attempt, retry after " +:+ Codec.RFC3339 retryAfter) ActionDefer "")).

Definition challenged (now : Time) (e : GreylistEntry) : GreylistEntry :=
  {| GID := GID e; Sender := Sender e; Recipient := Recipient e; SourceIP := SourceIP e; FirstSeen := now;
     RetryAfter := Add now (delay cfg); Passed := false; ExpiresAt := Add now (ttl cfg) |}.
Definition reGreylist (id : Z) (now : Time) (reason : string) (t : Table) : Table * result string Result :=
  if broken QReset then (t, Err "greylist re-greylist entry: database")
  else (update_row id (challenged now) t,
        Ok (answer "greylist" "defer"
              (reason +:+ ", re-greylisting, retry after " +:+ Codec.RFC3339 (Add now (delay cfg))) ActionDefer "")).

Definition marked_passed (expires : Time) (e : GreylistEntry) : GreylistEntry :=
  {| GID := GID e; Sender := Sender e; Recipient := Recipient e; SourceIP := SourceIP e; FirstSeen := FirstSeen e;
     RetryAfter := RetryAfter e; Passed := true; ExpiresAt := expires |}.

Definition Execute (now : Time) (m : EmailJSON) (t : Table) : Table * result string Result :=
  let k := triple_of m in
  if bool_decide (MailFrom (EEnvelope m) = "") || bool_decide (ClientIP (EEnvelope m) = "") then
    (t, Ok (continueResult "greylist" "no sender or client IP"))
  else if broken QLookup then (t, Err "greylist lookup: database")
  else match lookup_entry k t with
       | None => deferNew k now t
       | Some entry =>
           if After now (ExpiresAt entry) then reGreylist (GID entry) now "whitelist expired" t
           else if Passed entry then (t, Ok (goes_on "greylist" "pass" "previously passed greylisting"))
           else if Before now (RetryAfter entry) then
             (t, Ok (answer "greylist" "defer" ("retry too early, wait until " +:+ Codec.RFC3339 (RetryAfter entry))
                       ActionDefer ""))
           else
             let passed := Ok (goes_on "greylist" "pass" "greylist delay satisfied") in
             if WhitelistAfterPass cfg then
               if broken QMark then (t, Err "greylist mark passed: database")
               else (update_row (GID entry) (marked_passed (Add now (ttl cfg))) t, passed)
             else if broken QClear then (t, Err "greylist clear entry: database")
             else (delete_row (GID entry) t, passed)
       end.
End Filter.

(** The purger: internal/greylist. *)
Definition PurgeOnce (now : Time) (t : Table) : Table * Z :=
  let kept := filter (fun e => ~ ExpiresAt e < now) (entries t) in
  ({| entries := kept; next_id := next_id t |}, Z.of_nat (List.length (entries t) - List.length kept)).

(** ** What greylisting guarantees *)

Definition action_of (r : result string Result) : option Action :=
  match r with Ok a => Some (RAction a) | Err _ => None end.

(** The filter and the purger over time, with the deferrals answered so far. *)
Record world := { table : Table; clock : Time; deferrals : list (triple * Time) }.
Inductive step (cfg : greylistConfig) : world -> world -> Prop :=
| step_message now broken m w t r :
    clock w <= now -> Execute cfg broken now m (table w) = (t, r) ->
    step cfg w {| table := t; clock := now;
                  deferrals := if bool_decide (action_of r = Some ActionDefer) then (triple_of m, now) :: deferrals w
                               else deferrals w |}
| step_purge now w :
    clock w <= now -> step cfg w {| table := fst (PurgeOnce now (table w)); clock := now; deferrals := deferrals w |}.

Section Safety.
Context (cfg : greylistConfig).

(** An entry was written when its triple was deferred, and lets the triple pass only from
    the delay after that on. *)
Definition entry_earned (w : world) (e : GreylistEntry) : Prop :=
  (triple_row e, FirstSeen e) ∈ deferrals w /\ RetryAfter e = FirstSeen e + delay cfg /\
  (Passed e = true -> RetryAfter e <= clock w).
(** Ids are unique, and below the sequence. *)
Definition ids_ok (t : Table) : Prop :=
  NoDup (GID <$> entries t) /\ Forall (fun e => GID e < next_id t) (entries t).
Definition earned (w : world) : Prop := Forall (entry_earned w) (entries (table w)) /\ ids_ok (table w).

Lemma entry_earned_later w w' e :
  deferrals w ⊆ deferrals w' -> clock w <= clock w' -> entry_earned w e -> entry_earned w' e.
Proof. intros D C (H1 & H2 & H3). split_and!; [set_solver|done|intros P; specialize (H3 P); lia]. Qed.
Lemma find_entry k t e : lookup_entry k t = Some e -> e ∈ entries t /\ triple_row e = k.
Proof.
  intros F. apply find_some in F as [I K]. split; [by apply list_elem_of_In|by apply bool_decide_eq_true in K].
Qed.
Lemma same_id t e e' : ids_ok t -> e ∈ entries t -> e' ∈ entries t -> GID e = GID e' -> e = e'.
Proof.
  intros [N _]. induction (entries t) as [|x l IH]; [set_solver|].
  simpl in N. apply NoDup_cons in N as [N1 N2].
  intros [->|I]%elem_of_cons [->|I']%elem_of_cons E; [done|..|by apply IH];
    exfalso; apply N1; apply list_elem_of_fmap; eauto.
Qed.

(** The table after an update of one row, a deletion or an insertion. *)
Lemma update_ids id f t : (forall e, GID (f e) = GID e) -> ids_ok t -> ids_ok (update_row id f t).
Proof.
  intros G [N L]. split; simpl.
  - rewrite <- list_fmap_compose. erewrite list_fmap_ext; [exact N|]. intros i e _. simpl. by case_match.
  - apply Forall_fmap. eapply Forall_impl; [exact L|]. intros e K. simpl. case_match; [by rewrite G|done].
Qed.
Lemma filter_ids P `{forall e, Decision (P e)} t :
  ids_ok t -> ids_ok {| entries := filter P (entries t); next_id := next_id t |}.
Proof.
  intros [N L]. split; simpl.
  - eapply sublist_NoDup; [exact N|]. apply fmap_sublist, sublist_filter.
  - apply Forall_forall. intros e [_ I]%list_elem_of_filter. by apply (proj1 (Forall_forall _ _) L).
Qed.
Lemma insert_ids t e :
  GID e = next_id t -> ids_ok t -> ids_ok {| entries := entries t ++ [e]; next_id := next_id t + 1 |}.
Proof.
  intros G [N L]. split; simpl.
  - rewrite fmap_app. apply NoDup_app. split_and!; [done| |by apply NoDup_singleton].
    intros i (x & -> & I)%list_elem_of_fmap K. apply list_elem_of_singleton in K.
    apply (proj1 (Forall_forall _ _) L) in I. lia.
  - apply Forall_app. split; [eapply Forall_impl; [exact L|intros x; simpl; lia]|]. constructor; [lia|done].
Qed.

(** The world after the clock moved on to [now], with more deferrals. *)
Definition later (w : world) (t : Table) (now : Time) (more : list (triple * Time)) : world :=
  {| table := t; clock := now; deferrals := more ++ deferrals w |}.
Lemma earned_rows w t now more e :
  earned w -> clock w <= now -> e ∈ entries (table w) -> entry_earned (later w t now more) e.
Proof.
  intros [E _] C I. eapply entry_earned_later; [| |by apply (proj1 (Forall_forall _ _) E)]; [simpl; set_solver|done].
Qed.
Lemma earned_same w now more : earned w -> clock w <= now -> earned (later w (table w) now more).
Proof. intros E C. split; [|apply E]. apply Forall_forall. intros e I. by apply earned_rows. Qed.
Lemma earned_update w now more entry f :
  earned w -> clock w <= now -> entry ∈ entries (table w) -> (forall e, GID (f e) = GID e) ->
  entry_earned (later w (update_row (GID entry) f (table w)) now more) (f entry) ->
  earned (later w (update_row (GID entry) f (table w)) now more).
Proof.
  intros E C I G K. split; [|by apply update_ids, E]. simpl. apply Forall_fmap, Forall_forall. intros e Ie. simpl.
  destruct (GID e =? GID entry) eqn:Q; [|by apply earned_rows].
  by rewrite (same_id (table w) e entry) by (try apply E; try done; lia).
Qed.
Lemma earned_filter w now more P `{forall e, Decision (P e)} :
  earned w -> clock w <= now ->
  earned (later w {| entries := filter P (entries (table w)); next_id := next_id (table w) |} now more).
Proof.
  intros E C. split; [|by apply filter_ids, E]. apply Forall_forall.
  intros e [_ I]%list_elem_of_filter. by apply earned_rows.
Qed.
Lemma earned_insert w now more e :
  earned w -> clock w <= now -> GID e = next_id (table w) ->
  entry_earned (later w {| entries := entries (table w) ++ [e]; next_id := next_id (table w) + 1 |} now more) e ->
  earned (later w {| entries := entries (table w) ++ [e]; next_id := next_id (table w) + 1 |} now more).
Proof.
  intros E C G K. split; [|by apply insert_ids; [|apply E]]. apply Forall_app. split; [|by constructor].
  apply Forall_forall. intros x I. by apply earned_rows.
Qed.

Definition deferred_now (k : triple) (now : Time) (r : result string Result) : list (triple * Time) :=
  if bool_decide (action_of r = Some ActionDefer) then [(k, now)] else [].

Lemma execute_earned now broken m w t r :
  earned w -> clock w <= now -> Execute cfg broken now m (table w) = (t, r) ->
  earned (later w t now (deferred_now (triple_of m) now r)).
Proof.
  intros E C X. unfold Execute in X. destruct (_ || _); [simplify_eq; by apply earned_same|].
  destruct (broken QLookup); [simplify_eq; by apply earned_same|].
  destruct (lookup_entry _ _) as [entry|] eqn:F.
  - apply find_entry in F as [I K]. pose proof (proj1 (Forall_forall _ _) (proj1 E) _ I) as (H1 & H2 & H3).
    destruct (After now (ExpiresAt entry)).
    { unfold reGreylist in X. destruct (broken QReset); simplify_eq; [by apply earned_same|].
      apply earned_update; [done..|]. split_and!; [|done|done]. rewrite <- K. by left. }
    destruct (Passed entry); [simplify_eq; by apply earned_same|].
    destruct (Before now (RetryAfter entry)) eqn:B; [simplify_eq; by apply earned_same|].
    unfold Before in B. destruct (WhitelistAfterPass cfg).
    + destruct (broken QMark); simplify_eq; [by apply earned_same|].
      apply earned_update; [done..|]. split_and!; [simpl; set_solver|done|simpl; lia].
    + destruct (broken QClear); simplify_eq; [by apply earned_same|]. by apply earned_filter.
  - unfold deferNew in X. destruct (triple_of m) as [[s rc] ip] eqn:K.
    destruct (broken QCreate); simplify_eq; [by apply earned_same|].
    apply earned_insert; [done..|]. split_and!; [by left|done|done].
Qed.

Definition start : world := {| table := {| entries := []; next_id := 1 |}; clock := 0; deferrals := [] |}.
Lemma step_earned w w' : earned w -> step cfg w w' -> earned w'.
Proof.
  intros E S. inversion S as [now broken m w0 t r C X|now w0 C]; subst.
  - pose proof (execute_earned _ _ _ _ _ _ E C X) as K. unfold later, deferred_now in K. by case_bool_decide.
  - by apply (earned_filter w now [] (fun e => ~ ExpiresAt e < now)).
Qed.
Lemma reachable_earned w : rtc (step cfg) start w -> earned w.
Proof.
  intros R. assert (G : forall a b, rtc (step cfg) a b -> earned a -> earned b).
  { intros a b. induction 1 as [|x y z S _ IH]; [done|]. intros E. by apply IH, (step_earned x). }
  apply (G _ _ R). split; [done|]. split; [constructor|done].
Qed.
End Safety.

(** However messages, purges and database failures interleave, a message of a triple with a
    sender and a client IP is let through only when an earlier message of the same triple was
    deferred, and the filter's delay has passed since. *)
Theorem greylist_waits cfg w now broken m t r :
  rtc (step cfg) start w -> clock w <= now ->
  Execute cfg broken now m (table w) = (t, Ok r) -> RAction r = ActionContinue ->
  MailFrom (EEnvelope m) <> "" -> ClientIP (EEnvelope m) <> "" ->
  exists at_, (triple_of m, at_) ∈ deferrals w /\ at_ + delay cfg <= now.
Proof.
  intros R C X A S I. pose proof (reachable_earned cfg w R) as [E _]. unfold Execute in X.
  rewrite !bool_decide_eq_false_2 in X by done. simpl in X.
  destruct (broken QLookup); [done|]. destruct (lookup_entry _ _) as [entry|] eqn:F.
  - apply find_entry in F as [Ie K]. pose proof (proj1 (Forall_forall _ _) E _ Ie) as (H1 & H2 & H3).
    rewrite <- K. exists (FirstSeen entry). split; [done|]. rewrite <- H2.
    destruct (After _ _); [unfold reGreylist in X; destruct (broken QReset); by simplify_eq|].
    destruct (Passed entry); [specialize (H3 eq_refl); lia|].
    destruct (Before now (RetryAfter entry)) eqn:B; [by simplify_eq|]. unfold Before in B. lia.
  - unfold deferNew in X. destruct (triple_of m) as [[a b] c]. destruct (broken QCreate); by simplify_eq.
Qed.

Lemma find_after {A} (p : A -> bool) l x : List.find p l = None -> p x = true -> List.find p (l ++ [x]) = Some x.
Proof.
  intros N P. induction l as [|y l IH]; simpl in *; [by rewrite P|]. destruct (p y); [done|by apply IH].
Qed.

(** A sender that comes back in time is let through: the row its first message left, as long
    as only other rows change, passes it from the delay on until the row's lifetime ends. *)
Lemma retry_is_accepted cfg m t0 now ta tb r :
  Execute cfg (fun _ => false) t0 m ta = (tb, Ok r) -> RAction r = ActionDefer -> lookup_entry (triple_of m) ta = None ->
  forall tc, lookup_entry (triple_of m) tc = lookup_entry (triple_of m) tb ->
  t0 + delay cfg <= now <= t0 + ttl cfg ->
  action_of (snd (Execute cfg (fun _ => false) now m tc)) = Some ActionContinue.
Proof.
  intros X A N tc L W. unfold Execute in *. destruct (_ || _); [by simplify_eq|]. rewrite N in X.
  unfold deferNew in X. destruct (triple_of m) as [[s rc] ip]. simplify_eq. rewrite L.
  unfold lookup_entry in *. simpl. erewrite find_after; [|done|by apply bool_decide_eq_true].
  unfold After, Before, Add. simpl. rewrite (proj2 (Z.ltb_ge _ _)) by lia. rewrite (proj2 (Z.ltb_ge _ _)) by lia.
  by destruct (WhitelistAfterPass cfg).
Qed.
End Greylist.
