(* ===== verification/RateLimit.v ===== *)
(** * Sending rates kept in memory

    internal/pipeline/filters/rate_limit.go, the outbound pipeline's filter with counters
    every message shares, and internal/ratelimit, the limiter the submission ports and the
    API share. Both count in windows that start with a first message and end a minute or an
    hour later. The counters are read and written under one lock, so a call is one step; no
    count comes near the width of an int. *)

From S2P Require Import Prelude GoTime GoStrings Pipeline Emails.
From Stdlib Require Import Ascii.
Import GoTime GoStrings Emails.
Import Pipeline(RAction, Action, ActionContinue, ActionDefer).
Local Open Scope Z_scope.

Module RateLimit.

(** ** The rate_limit filter *)

Record rateLimitConfig := { MaxPerHour : Z; MaxPerMinute : Z }.
(** The settings' fields that decode. *)
Record rateLimitJSON := { max_per_hour : option Z; max_per_minute : option Z }.
Definition NewRateLimit (json : rateLimitJSON) : rateLimitConfig :=
  {| MaxPerHour := default 100 (max_per_hour json); MaxPerMinute := default 20 (max_per_minute json) |}.

Record rateBucket := { count : Z; resetAt : Time }.
#[local] Notation Store := (gmap string rateBucket).
Definition newRateLimitStore : Store := ∅.

Definition rateKey (m : EmailJSON) : string :=
  let acct := default "" (Metadata m !! "auth_account") in
  if bool_decide (acct <> "") then "acct:" +:+ acct
  else
    let sender := MailFrom (EEnvelope m) in
    let sender := if bool_decide (sender = "") then
                    match From (EHeaders m) with a :: _ => AAddress a | [] => sender end
                  else sender in
    "sender:" +:+ sender.

(** One window: a new one for a first message or when the last is over, else one more in it;
    whether the count is still within [max], which a window's first message always is. *)
Definition take (max : Z) (window : Duration) (now : Time) (b : option rateBucket) : rateBucket * bool :=
  match b with
  | None => ({| count := 1; resetAt := Add now window |}, true)
  | Some b =>
      if After now (resetAt b) then ({| count := 1; resetAt := Add now window |}, true)
      else ({| count := count b + 1; resetAt := resetAt b |}, count b + 1 <=? max)
  end.

Definition refused (id limit reject : string) : Result :=
  answer "rate_limit" "defer" (id +:+ " exceeded " +:+ limit +:+ " limit") ActionDefer reject.
Definition Execute (cfg : rateLimitConfig) (human : bool) (now : Time) (m : EmailJSON) (s : Store) : Store * Result :=
  if human then
    (s, goes_on "rate_limit" "human_release" "Per-account cap overridden by an audited human release")
  else
    let id := rateKey m in
    let '(b, ok) := take (MaxPerMinute cfg) Minute now (s !! ("min:" +:+ id)) in
    let s := <["min:" +:+ id := b]> s in
    if negb ok then
      (s, refused id (itoa (MaxPerMinute cfg) +:+ "/min") "452 Too many messages, try again later")
    else
      let '(h, ok) := take (MaxPerHour cfg) Hour now (s !! ("hour:" +:+ id)) in
      let s := <["hour:" +:+ id := h]> s in
      if negb ok then
        (s, refused id (itoa (MaxPerHour cfg) +:+ "/hour") "452 Hourly sending limit exceeded")
      else (s, goes_on "rate_limit" "pass" "").

(** ** The submission limiter: internal/ratelimit *)

Definition DefaultPerMinute : Z := 20.
Definition DefaultPerHour : Z := 100.
Record window := { minuteCount : Z; minuteReset : Time; hourCount : Z; hourReset : Time }.
Record SubmissionLimiter := { perMinute : Z; perHour : Z; buckets : gmap string window }.
Definition NewSubmissionLimiter (m h : Z) : SubmissionLimiter := {| perMinute := m; perHour := h; buckets := ∅ |}.
(** The count and the end of a window a submission is counted in. *)
Definition counted (length : Duration) (now : Time) (n : Z) (reset : Time) : Z * Time :=
  if IsZero reset || After now reset then (1, Add now length) else (n + 1, reset).
Definition within (cap n : Z) : bool := negb ((0 <? cap) && (cap <? n)).
Definition Allow (key : string) (now : Time) (l : option SubmissionLimiter) : option SubmissionLimiter * bool :=
  match l with
  | None => (None, true)
  | Some l =>
      let b := default {| minuteCount := 0; minuteReset := zero; hourCount := 0; hourReset := zero |} (buckets l !! key) in
      let '(mc, mr) := counted Minute now (minuteCount b) (minuteReset b) in
      let '(hc, hr) := counted Hour now (hourCount b) (hourReset b) in
      let b := {| minuteCount := mc; minuteReset := mr; hourCount := hc; hourReset := hr |} in
      (Some {| perMinute := perMinute l; perHour := perHour l; buckets := <[key := b]> (buckets l) |},
       within (perMinute l) mc && within (perHour l) hc)
  end.

(** ** What passes in any span of time *)

(** What a window ending the span at [until] still lets through. *)
Definition room (max until : Z) (b : option rateBucket) : Z :=
  match b with
  | None => Z.max 1 max
  | Some b => if until <=? resetAt b then Z.max 0 (max - count b)
              else Z.max 0 (max - count b) + Z.max 1 max
  end.
Definition counted_ok (b : option rateBucket) : Prop := match b with None => True | Some b => 1 <= count b end.

Lemma take_room max w now until b b' ok :
  now <= until <= now + w -> counted_ok b -> take max w now b = (b', ok) ->
  room max until (Some b') + (if ok then 1 else 0) <= room max until b /\ counted_ok (Some b').
Proof.
  intros U C E. unfold take, room, counted_ok, After, Add in *. destruct b as [b|]; simpl in *.
  - destruct (resetAt b <? now) eqn:R; injection E as <- <-; simpl.
    + rewrite (proj2 (Z.leb_le until (now + w))) by lia. rewrite (proj2 (Z.leb_gt until (resetAt b))) by lia. lia.
    + destruct (until <=? resetAt b); destruct (count b + 1 <=? max) eqn:K; split; lia.
  - injection E as <- <-. simpl. rewrite (proj2 (Z.leb_le _ _)) by lia. lia.
Qed.
Lemma room_most max until b : counted_ok b -> room max until b <= 2 * Z.max 1 max - 1.
Proof. unfold room, counted_ok. destruct b as [b|]; [case_match|]; lia. Qed.

Lemma room_least max until b : 0 <= room max until b.
Proof. unfold room. destruct b as [b|]; [case_match|]; lia. Qed.

(** A run of messages over the shared counters: who each was counted for, when, and whether
    it passed. *)
Record sent := { at_ : Time; released : bool; mail : EmailJSON }.
Fixpoint run (cfg : rateLimitConfig) (s : Store) (ms : list sent) : Store * list (sent * Action) :=
  match ms with
  | [] => (s, [])
  | m :: ms =>
      let '(s, r) := Execute cfg (released m) (at_ m) (mail m) s in
      let '(s, out) := run cfg s ms in (s, (m, RAction r) :: out)
  end.
(** Those of [id] that the filter let pass on its own account. *)
Definition passed (id : string) (out : list (sent * Action)) : Z :=
  Z.of_nat (List.length (List.filter (fun x =>
    negb (released (fst x)) && bool_decide (rateKey (mail (fst x)) = id) && bool_decide (snd x = ActionContinue)) out)).

Definition counts_ok (s : Store) : Prop := forall k, counted_ok (s !! k).
Lemma insert_counts s k b : counts_ok s -> counted_ok (Some b) -> counts_ok (<[k := b]> s).
Proof.
  intros C K k'. destruct (decide (k = k')) as [<-|N]; [by rewrite lookup_insert_eq|by rewrite lookup_insert_ne].
Qed.

Lemma key_ne (x y : string) : "min:" +:+ x <> "hour:" +:+ y.
Proof. done. Qed.
Lemma min_inj (x y : string) : "min:" +:+ x = "min:" +:+ y -> x = y.
Proof. intros E. injection E. done. Qed.
Lemma hour_inj (x y : string) : "hour:" +:+ x = "hour:" +:+ y -> x = y.
Proof. intros E. injection E. done. Qed.

(** One message: what it takes of the room of [id]'s windows. *)
Definition one (id : string) (human : bool) (m : EmailJSON) (r : Result) : Z :=
  if negb human && bool_decide (rateKey m = id) && bool_decide (RAction r = ActionContinue) then 1 else 0.
Lemma execute_counts cfg human now m s s' r :
  counts_ok s -> Execute cfg human now m s = (s', r) -> counts_ok s'.
Proof.
  intros C X. unfold Execute in X. destruct human; [by simplify_eq|].
  assert (T : forall mx w b b' ok, counted_ok b -> take mx w now b = (b', ok) -> counted_ok (Some b')).
  { intros mx w b b' ok K E. unfold take, counted_ok in *. destruct b as [b|]; [case_match|]; simplify_eq; simpl; lia. }
  destruct (take _ Minute _ _) as [b ok] eqn:E1. specialize (T _ _ _ _ _ (C _) E1) as K1.
  assert (C1 := insert_counts _ ("min:" +:+ rateKey m) _ C K1). destruct ok; simpl in X; [|by simplify_eq].
  destruct (take _ Hour _ _) as [h ok] eqn:E2. specialize (T _ _ _ _ _ (C1 _) E2) as K2.
  assert (C2 := insert_counts _ ("hour:" +:+ rateKey m) _ C1 K2). destruct ok; simpl in X; by simplify_eq.
Qed.
Lemma execute_minute cfg human now m s s' r id until :
  now <= until <= now + Minute -> counts_ok s -> Execute cfg human now m s = (s', r) ->
  room (MaxPerMinute cfg) until (s' !! ("min:" +:+ id)) + one id human m r
    <= room (MaxPerMinute cfg) until (s !! ("min:" +:+ id)).
Proof.
  intros U C X. unfold Execute, one in *. destruct human; simpl; [by simplify_eq; lia|].
  destruct (take _ Minute _ _) as [b ok] eqn:E1.
  pose proof (take_room _ _ _ _ _ _ _ U (C _) E1) as [R _].
  set (s1 := <["min:" +:+ rateKey m := b]> s) in X.
  assert (L : room (MaxPerMinute cfg) until (s1 !! ("min:" +:+ id)) + (if bool_decide (rateKey m = id) && ok then 1 else 0)
              <= room (MaxPerMinute cfg) until (s !! ("min:" +:+ id))).
  { unfold s1. case_bool_decide as D; simpl.
    - subst id. rewrite lookup_insert_eq. done.
    - rewrite lookup_insert_ne; [lia|]. intros E. by apply D, min_inj. }
  destruct ok; simpl in X.
  - destruct (take _ Hour _ _) as [h ok]. rewrite andb_true_r in L.
    destruct ok; simpl in X; simplify_eq; simpl; rewrite lookup_insert_ne by (symmetry; apply key_ne);
      repeat case_bool_decide; simpl in *; lia.
  - simplify_eq. simpl. rewrite andb_false_r in L. rewrite andb_false_r. lia.
Qed.
Lemma execute_hour cfg human now m s s' r id until :
  now <= until <= now + Hour -> counts_ok s -> Execute cfg human now m s = (s', r) ->
  room (MaxPerHour cfg) until (s' !! ("hour:" +:+ id)) + one id human m r
    <= room (MaxPerHour cfg) until (s !! ("hour:" +:+ id)).
Proof.
  intros U C X. unfold Execute, one in *. destruct human; simpl; [by simplify_eq; lia|].
  destruct (take _ Minute _ _) as [b ok]. destruct ok; simpl in X.
  - destruct (take _ Hour _ _) as [h ok] eqn:E. rewrite lookup_insert_ne in E by apply key_ne.
    pose proof (take_room _ _ _ _ _ _ _ U (C _) E) as [R _].
    assert (L : room (MaxPerHour cfg) until (<["hour:" +:+ rateKey m := h]> (<["min:" +:+ rateKey m := b]> s) !! ("hour:" +:+ id))
                + (if bool_decide (rateKey m = id) && ok then 1 else 0)
                <= room (MaxPerHour cfg) until (s !! ("hour:" +:+ id))).
    { case_bool_decide as D; simpl.
      - subst id. by rewrite lookup_insert_eq.
      - rewrite lookup_insert_ne by (intros Q; by apply D, hour_inj).
        rewrite lookup_insert_ne by apply key_ne. lia. }
    destruct ok; simpl in X; simplify_eq; simpl; [rewrite andb_true_r in *|rewrite andb_false_r in *]; exact L.
  - simplify_eq. simpl. rewrite lookup_insert_ne by apply key_ne. rewrite andb_false_r. lia.
Qed.

Lemma run_counts cfg s ms s' out : counts_ok s -> run cfg s ms = (s', out) -> counts_ok s'.
Proof.
  revert s s' out. induction ms as [|m ms IH]; intros s s' out C R; simpl in R; [by simplify_eq|].
  destruct (Execute _ _ _ _ _) as [s1 r] eqn:X. destruct (run cfg s1 ms) as [s2 o] eqn:R2. simplify_eq.
  eapply IH; [|exact R2]. by eapply execute_counts.
Qed.
Lemma run_room cfg (max : Z) (key : string -> string) w until id ms s s' out :
  (forall human now m s s' r, now <= until <= now + w -> counts_ok s -> Execute cfg human now m s = (s', r) ->
     room max until (s' !! key id) + one id human m r <= room max until (s !! key id)) ->
  Forall (fun m => until - w <= at_ m <= until) ms -> counts_ok s -> run cfg s ms = (s', out) ->
  room max until (s' !! key id) + passed id out <= room max until (s !! key id).
Proof.
  intros K. revert s s' out. induction ms as [|m ms IH]; intros s s' out F C R; simpl in R.
  { simplify_eq. unfold passed. simpl. lia. }
  inversion F as [|? ? T F']; subst.
  destruct (Execute _ _ _ _ _) as [s1 r] eqn:X. destruct (run cfg s1 ms) as [s2 o] eqn:R2. simplify_eq.
  pose proof (IH _ _ _ F' (execute_counts _ _ _ _ _ _ _ C X) R2) as IH'.
  assert (T' : at_ m <= until <= at_ m + w) by lia. pose proof (K _ _ _ _ _ _ T' C X) as K'.
  unfold passed in *. simpl. unfold one in K'. destruct (_ && _); simpl; lia.
Qed.

Lemma run_bounded cfg (max : Z) (key : string -> string) w start id ms s s' out :
  (forall until human now m s s' r, now <= until <= now + w -> counts_ok s ->
     Execute cfg human now m s = (s', r) ->
     room max until (s' !! key id) + one id human m r <= room max until (s !! key id)) ->
  Forall (fun m => start <= at_ m <= start + w) ms -> counts_ok s -> run cfg s ms = (s', out) ->
  passed id out <= 2 * Z.max 1 max - 1.
Proof.
  intros K F C R. pose proof (room_most max (start + w) _ (C (key id))).
  pose proof (room_least max (start + w) (s' !! key id)).
  enough (room max (start + w) (s' !! key id) + passed id out <= room max (start + w) (s !! key id)) by lia.
  eapply run_room; [by apply K| |done|done]. eapply Forall_impl; [exact F|]. intros m T. simpl in T. lia.
Qed.

(** Whatever was sent before, in any span of a minute the filter lets fewer than twice
    the per-minute limit of one sender's messages pass, and in any span of an hour fewer than
    twice the per-hour limit; a limit below one counts as one. Releases a person made are not
    counted. *)
Theorem rates_bounded cfg id before during s out1 s' out start :
  run cfg newRateLimitStore before = (s, out1) -> run cfg s during = (s', out) ->
  (Forall (fun m => start <= at_ m <= start + Minute) during ->
   passed id out <= 2 * Z.max 1 (MaxPerMinute cfg) - 1) /\
  (Forall (fun m => start <= at_ m <= start + Hour) during ->
   passed id out <= 2 * Z.max 1 (MaxPerHour cfg) - 1).
Proof.
  intros B D. assert (C0 : counts_ok newRateLimitStore) by done.
  pose proof (run_counts _ _ _ _ _ C0 B) as C.
  split; intros F; [eapply (run_bounded cfg (MaxPerMinute cfg) (fun i => "min:" +:+ i) Minute)
                   |eapply (run_bounded cfg (MaxPerHour cfg) (fun i => "hour:" +:+ i) Hour)]; try done;
    intros; [by eapply execute_minute|by eapply execute_hour].
Qed.
End RateLimit.
