(* ===== verification/SenderAuth.v ===== *)
(** * Who sent it: the authentication filters

    internal/pipeline/filters: spf_check.go, dkim.go, arc_verify.go and dmarc_check.go record
    verdicts and act on them; sender_auth.go, domain_allowlist.go and contact_whitelist.go
    decide on them whether a known sender skips the spam checks; sender_verify.go checks a
    submission's sender. SPF, DKIM, ARC and DMARC themselves (the go-spf, go-dkim, go-arc and
    go-dmarc modules), with the DNS they ask, are the operations of the class [AuthLib]; the
    regular expressions of arc_verify are its last three. A filter's run is a function of the
    verdicts of the run and the message: what it records, the message it leaves behind the
    pointer, and its result or error. A database lookup answers [None] when it fails. *)

From S2P Require Import Prelude GoTime GoStrings GoNet MailAddress QueueModel Pipeline AuthResults Emails.
From Stdlib Require Import Ascii.

Import GoTime GoStrings Emails AuthResults.
Import Pipeline(AuthResult, Build_AuthResult, Method, AResult, Property, Domain, Selector,
  RAction, SkipFilters, Action, ActionContinue, ActionReject, ActionQuarantine, ActionDefer).
Local Open Scope Z_scope.

Inductive AlignmentMode := AlignmentRelaxed | AlignmentStrict.
(** dmarc.Policy: the record found and the policy it asks for. *)
Record Policy := { PRaw : string; Requested : string; Applied : string; ASPF : AlignmentMode; ADKIM : AlignmentMode }.
Record DkimVerdict := { VResult : string; VDomain : string; VSelector : string; VReason : string }.
Class AuthLib := {
  netip_ParseAddr : string -> option string;
  spf_CheckHELO : option string -> string -> string * string;              (* result, reason *)
  spf_CheckMailFrom : option string -> string -> string -> string * string;
  dkim_Verify : string -> list DkimVerdict;
  arc_Verify : string -> string * string;
  dmarc_Discover : string -> result string Policy;
  dmarc_AlignedMode : string -> string -> AlignmentMode -> bool * option string;
  re_instance : string -> option string;                                   (* \bi=(\d+)\b *)
  re_cv : string -> option string;                                         (* \bcv=(none|pass|fail)\b *)
  re_seal_domain : string -> option string;                                (* \bd=([^;\s]+) *)
}.

Module SenderAuth.
Import GoTime GoStrings Emails AuthResults.
Import Pipeline(AuthResult, Build_AuthResult, Method, AResult, Property, Domain, Selector,
  RAction, SkipFilters, Action, ActionContinue, ActionReject, ActionQuarantine, ActionDefer).
Local Open Scope Z_scope.

(** What a filter's run leaves behind. *)
Record Ran := { recorded : list AuthResult; left : EmailJSON; answer_ : result string Result }.

Section Filters.
Context `{MailLib} `{AuthLib}.

(** The [fail_action] setting of spf_check and dkim_verify. *)
Definition fail_action (filter setting : string) : result string Action :=
  if bool_decide (setting = "") || bool_decide (setting = "tag") then Ok ActionContinue
  else if bool_decide (setting = "reject") then Ok ActionReject
  else if bool_decide (setting = "quarantine") then Ok ActionQuarantine
  else Err (filter +:+ ": fail_action " +:+ GoCodec.Codec.Quote setting +:+ " is not tag, reject or quarantine").
Definition NewSPFCheck (setting : string) : result string Action := fail_action "spf_check" setting.
Definition NewDKIMVerify (setting : string) : result string Action := fail_action "dkim_verify" setting.

(** ** spf_check *)

Definition spfContinue (res detail : string) : Result := goes_on "spf_check" res detail.
(** Everything after the last @, or all of it. *)
Definition after_at (addr : string) : string :=
  match cut_last "@"%char addr with Some (_, d) => d | None => addr end.
Definition spfAuthDomain (mailFrom helo : string) : string :=
  let domain := if bool_decide (mailFrom <> "") then after_at mailFrom else helo in
  if IsHostName domain then domain else "".
Definition isASCIIText (s : string) : bool := is_ascii s.

Definition spf_verdict (res property domain : string) : AuthResult :=
  {| Method := AuthSPF; AResult := res; Property := property; Domain := domain; Selector := "" |}.
Definition spf_check (failAction : Action) (m : EmailJSON) : Ran :=
  let env := EEnvelope m in
  let nothing := fun detail => {| recorded := []; left := m; answer_ := Ok (spfContinue "none" detail) |} in
  if bool_decide (ClientIP env = "") then nothing "no client IP to check"
  else if bool_decide (MailFrom env = "") && bool_decide (Helo env = "") then nothing "no MAIL FROM or HELO to check"
  else
    let '(mailFrom, mailFromValid) :=
      match MailAddress.SMTPAddressASCII (MailFrom env) with
      | Some a => (a, true) | None => (MailFrom env, isASCIIText (MailFrom env)) end in
    let '(helo, heloValid) :=
      match MailAddress.DomainASCII (Helo env) with
      | Some a => (a, true) | None => (Helo env, isASCIIText (Helo env)) end in
    let ip := netip_ParseAddr (ClientIP env) in
    let '(results, detail) :=
      if bool_decide (mailFrom <> "") && heloValid && IsHostName helo then
        let '(res, reason) := spf_CheckHELO ip helo in
        ([spf_verdict res PropHelo helo], "; HELO " +:+ helo +:+ ": " +:+ res +:+ " (" +:+ reason +:+ ")")
      else ([], "") in
    let '(res, reason) :=
      if (bool_decide (mailFrom <> "") && negb mailFromValid) || (bool_decide (mailFrom = "") && negb heloValid)
      then ("none", "not a valid internationalized domain name")
      else spf_CheckMailFrom ip mailFrom helo in
    let domain := spfAuthDomain mailFrom helo in
    let results := results ++ [spf_verdict res PropMailFrom domain] in
    let raw := append_raw "Authentication-Results" (AuthResultsValue results) (Raw (EHeaders m)) in
    let r :=
      if bool_decide (res = "fail") && negb (bool_decide (failAction = ActionContinue)) then
        answer "spf_check" res (reason +:+ detail) failAction
          (if bool_decide (failAction = ActionReject)
           then "550 5.7.23 SPF check failed" +:+ (if bool_decide (domain <> "") then " for " +:+ domain else "")
           else "")
      else spfContinue res (reason +:+ detail) in
    {| recorded := results; left := with_headers (with_raw raw (EHeaders m)) m; answer_ := Ok r |}.

(** ** dkim_verify *)

Definition dkim_rank (res : string) : Z :=
  if bool_decide (res = "neutral") then 1 else if bool_decide (res = "permerror") then 2
  else if bool_decide (res = "temperror") then 3 else if bool_decide (res = "fail") then 4
  else if bool_decide (res = "pass") then 5 else 0.
Definition summarizeDKIM (rs : list DkimVerdict) : string * string * list AuthResult :=
  let overall := foldl (fun best r => if dkim_rank best <? dkim_rank (VResult r) then VResult r else best) "none" rs in
  (overall,
   Join ((fun r => "d=" +:+ VDomain r +:+ " s=" +:+ VSelector r +:+ " " +:+ VResult r +:+ ": " +:+ VReason r) <$> rs) " | ",
   (fun r => {| Method := AuthDKIM; AResult := VResult r; Property := PropHeaderD; Domain := VDomain r;
                Selector := VSelector r |}) <$> rs).
Definition hasRawHeader (raw : gmap string (list string)) (name : string) : bool :=
  match raw !! name with Some (_ :: _) => true | _ => false end.
Definition dkim_plain (res : string) : AuthResult :=
  {| Method := AuthDKIM; AResult := res; Property := ""; Domain := ""; Selector := "" |}.
Definition dkim_verify (failAction : Action) (m : EmailJSON) : Ran :=
  let raw := default "" (Metadata m !! "raw_message") in
  let '(res, detail, verdicts) :=
    if bool_decide (raw <> "") then
      match dkim_Verify raw with
      | [] => ("none", "no DKIM signature present", [dkim_plain "none"])
      | rs => summarizeDKIM rs
      end
    else if hasRawHeader (Raw (EHeaders m)) "Dkim-Signature" then
      ("neutral", "DKIM signature present but raw message unavailable for verification", [dkim_plain "neutral"])
    else ("none", "no DKIM signature present", [dkim_plain "none"]) in
  let modified := with_headers (with_raw (append_raw "Authentication-Results" (AuthResultsValue verdicts)
                                            (Raw (EHeaders m))) (EHeaders m)) m in
  let acts := bool_decide (res = "fail") && negb (bool_decide (failAction = ActionContinue)) in
  {| recorded := verdicts; left := m;
     answer_ := Ok (transformed "dkim_verify" res detail (if acts then failAction else ActionContinue)
                      (if acts && bool_decide (failAction = ActionReject)
                       then "550 5.7.20 DKIM signature verification failed" else "") modified) |}.

(** ** arc_verify *)

Record arcHeaderSet := { AuthenticationResults : string; MessageSignature : string; Seal : string }.
Definition empty_set : arcHeaderSet := {| AuthenticationResults := ""; MessageSignature := ""; Seal := "" |}.
Definition parseInstance (header : string) : Z := default 0 (re_instance header ≫= Atoi).
Definition parseCVValue (seal : string) : string := default "" (re_cv seal).
Definition parseSealDomain (seal : string) : string := default "" (re_seal_domain seal).

(** The header sets by instance; [put] sets the field a header belongs to. *)
Definition collect (put : string -> arcHeaderSet -> arcHeaderSet) (hs : list string) (sets : gmap Z arcHeaderSet)
    : gmap Z arcHeaderSet :=
  foldl (fun sets h =>
    let inst := parseInstance h in
    if inst <? 1 then sets else <[inst := put h (default empty_set (sets !! inst))]> sets) sets hs.
Definition put_results (h : string) (s : arcHeaderSet) : arcHeaderSet :=
  {| AuthenticationResults := h; MessageSignature := MessageSignature s; Seal := Seal s |}.
Definition put_signature (h : string) (s : arcHeaderSet) : arcHeaderSet :=
  {| AuthenticationResults := AuthenticationResults s; MessageSignature := h; Seal := Seal s |}.
Definition put_seal (h : string) (s : arcHeaderSet) : arcHeaderSet :=
  {| AuthenticationResults := AuthenticationResults s; MessageSignature := MessageSignature s; Seal := h |}.
Definition arc_sets (raw : gmap string (list string)) : gmap Z arcHeaderSet :=
  let all := fun name => default [] (raw !! name) in
  collect put_seal (all "Arc-Seal")
    (collect put_signature (all "Arc-Message-Signature")
      (collect put_results (all "Arc-Authentication-Results") ∅)).
(** The map's keys in order. *)
Definition instances (sets : gmap Z arcHeaderSet) : list Z := merge_sort Z.le (map_to_list sets).*1.

Fixpoint first_gap (expected : Z) (ns : list Z) : option (Z * Z) :=
  match ns with
  | [] => None
  | i :: ns => if i =? expected then first_gap (expected + 1) ns else Some (expected, i)
  end.
Definition incomplete (i : Z) (s : arcHeaderSet) : option string :=
  if bool_decide (AuthenticationResults s = "") then Some ("i=" +:+ itoa i +:+ " missing ARC-Authentication-Results")
  else if bool_decide (MessageSignature s = "") then Some ("i=" +:+ itoa i +:+ " missing ARC-Message-Signature")
  else if bool_decide (Seal s = "") then Some ("i=" +:+ itoa i +:+ " missing ARC-Seal")
  else None.
Definition wrong_cv (i : Z) (s : arcHeaderSet) : option string :=
  let cv := parseCVValue (Seal s) in
  if i =? 1 then
    if bool_decide (cv = "none") then None
    else Some ("i=1 ARC-Seal has cv=" +:+ cv +:+ " (expected cv=none)")
  else if bool_decide (cv = "pass") then None
  else Some ("i=" +:+ itoa i +:+ " ARC-Seal has cv=" +:+ cv +:+ " (expected cv=pass)").
Definition set_of (sets : gmap Z arcHeaderSet) (i : Z) : arcHeaderSet := default empty_set (sets !! i).
Definition first_complaint (f : Z -> arcHeaderSet -> option string) (sets : gmap Z arcHeaderSet) (ns : list Z) : option string :=
  head (omap (fun i => f i (set_of sets i)) ns).
(** The check of the last seal repeats what the loop over the seals found, and the empty
    list, where Go would index out of range, is never passed. *)
Definition validateARCChain (ns : list Z) (sets : gmap Z arcHeaderSet) : string * string :=
  match ns with
  | [] => ("fail", "")
  | i0 :: _ =>
      if negb (i0 =? 1) then ("fail", "chain does not start at i=1 (starts at i=" +:+ itoa i0 +:+ ")")
      else match first_gap 1 ns with
           | Some (expected, i) =>
               ("fail", "chain gap: expected i=" +:+ itoa expected +:+ " but found i=" +:+ itoa i)
           | None =>
               match first_complaint incomplete sets ns with
               | Some why => ("fail", why)
               | None =>
                   match first_complaint wrong_cv sets ns with
                   | Some why => ("fail", why)
                   | None => ("pass", "chain structure valid: " +:+ itoa (Z.of_nat (List.length ns)) +:+ " set(s)")
                   end
               end
           end
  end.

Definition arc_verdict (res sealer : string) : AuthResult :=
  {| Method := AuthARC; AResult := res; Property := ""; Domain := sealer; Selector := "" |}.
Definition recordARC (res sealer detail : string) (m : EmailJSON) : Ran :=
  let v := arc_verdict res sealer in
  let modified := with_headers (with_raw (append_raw "Authentication-Results" (AuthResultsValue [v])
                                            (Raw (EHeaders m))) (EHeaders m)) m in
  {| recorded := [v]; left := m;
     answer_ := Ok (transformed "arc_verify" res detail ActionContinue "" modified) |}.
Definition arc_verify (m : EmailJSON) : Ran :=
  let raw := Raw (EHeaders m) in
  let all := fun name => default [] (raw !! name) in
  if (List.length (all "Arc-Authentication-Results") =? 0)%nat && (List.length (all "Arc-Message-Signature") =? 0)%nat
     && (List.length (all "Arc-Seal") =? 0)%nat
  then recordARC "none" "" "no ARC headers present" m
  else
    let sets := arc_sets raw in
    let ns := instances sets in
    match last ns with
    | None => recordARC "fail" "" "ARC headers present but no valid instance numbers found" m
    | Some newest =>
        let '(res, detail) := validateARCChain ns sets in
        let '(res, detail) :=
          if bool_decide (res = "pass") then
            let source := default "" (Metadata m !! "raw_message") in
            if bool_decide (source <> "") then arc_Verify source
            else (res, "chain structure valid; cryptographic verification skipped (no raw message)")
          else (res, detail) in
        recordARC res (parseSealDomain (Seal (set_of sets newest))) detail m
    end.

(** ** dmarc_check *)

Definition Find_ (method property : string) (auth : list AuthResult) : list AuthResult :=
  Find method property (Some auth).

(** The alignment of two identifiers, and the DNS failure met on the way. *)
Definition dmarcAligned (authDomain fromDomain : string) (mode : AlignmentMode) : bool * option string :=
  match MailAddress.DomainASCII authDomain, MailAddress.DomainASCII fromDomain with
  | Some a, Some f => dmarc_AlignedMode a f mode
  | _, _ => (false, None)
  end.

Section Dmarc.
Context (domain : string) (mode : AlignmentMode).
(** The loop over one method's verdicts: the verdict to report with its rank, whether one
    passed, whether a passing one is aligned, the last DNS failure. *)
Record tally := { reported : option AuthResult; rank : Z; pass_ : bool; aligned_ : bool; dnsErr : option string }.
Definition judge (r : AuthResult) (t : tally) : bool * option string :=
  let '(ok, err) := dmarcAligned (Domain r) domain mode in
  (ok, match err with Some e => Some e | None => dnsErr t end).
(** SPF: the last verdict is reported. *)
Definition spf_tally (t : tally) (r : AuthResult) : tally :=
  if bool_decide (AResult r = "pass") then
    let '(ok, err) := judge r t in
    {| reported := Some r; rank := rank t; pass_ := true; aligned_ := aligned_ t || ok; dnsErr := err |}
  else {| reported := Some r; rank := rank t; pass_ := pass_ t; aligned_ := aligned_ t; dnsErr := dnsErr t |}.
(** DKIM: the first of the best rank is reported. *)
Definition dkim_tally (t : tally) (r : AuthResult) : tally :=
  let '(k, pass, aligned, err) :=
    if bool_decide (AResult r = "pass") then
      let '(ok, err) := judge r t in
      if ok then (2, true, true, err) else (1, true, aligned_ t, err)
    else (0, pass_ t, aligned_ t, dnsErr t) in
  let '(rep, k) := if rank t <? k then (Some r, k) else (reported t, rank t) in
  {| reported := rep; rank := k; pass_ := pass; aligned_ := aligned; dnsErr := err |}.
Definition no_tally (err : option string) : tally :=
  {| reported := None; rank := -1; pass_ := false; aligned_ := false; dnsErr := err |}.
End Dmarc.

(** models.DMARCAggregateRecord, the row of the domain's aggregate report. *)
Record DMARCAggregateRecord := {
  RDomain : string; SourceIP : string; EnvelopeTo : string; HeaderFrom : string;
  RDisposition : string; RPolicy : string;
  DKIMDomain : string; DKIMSelector : string; DKIMResult : string; DKIMAligned : bool;
  SPFDomain : string; SPFResult : string; SPFAligned : bool;
  OverrideReason : string; OverrideComment : string
}.
Record override := { OType : string; OComment : string }.
Definition captureDMARC (has_db : bool) (m : EmailJSON) (domain policy disposition : string)
    (spf dkim : tally) (ov : option override) : option DMARCAggregateRecord :=
  let env := EEnvelope m in
  if negb has_db || bool_decide (EDirection env = "outbound") || bool_decide (ClientIP env = "") then None
  else Some {|
    RDomain := domain; SourceIP := ClientIP env;
    EnvelopeTo := match RcptTo env with r :: _ => Row.DomainFromAddress r | [] => "" end;
    HeaderFrom := match From (EHeaders m) with a :: _ => AAddress a | [] => "" end;
    RDisposition := disposition; RPolicy := policy;
    DKIMDomain := match reported dkim with Some r => Domain r | None => "" end;
    DKIMSelector := match reported dkim with Some r => Selector r | None => "" end;
    DKIMResult := match reported dkim with Some r => AResult r | None => "none" end;
    DKIMAligned := aligned_ dkim;
    SPFDomain := match reported spf with Some r => Domain r | None => "" end;
    SPFResult := match reported spf with Some r => AResult r | None => "none" end;
    SPFAligned := aligned_ spf;
    OverrideReason := match ov with Some o => OType o | None => "" end;
    OverrideComment := match ov with Some o => OComment o | None => "" end |}.

(** The trusted sealers, lowered and without the empty name. *)
Context `{Unicode}.
Definition NewDMARCCheckWithSealers (sealers : list string) : gset string :=
  list_to_set (filter (fun s => s <> "") ((fun s => ToLower (TrimSpace s)) <$> sealers)).
Definition sealerTrusted (trusted : gset string) (sealer : string) : bool :=
  negb (bool_decide (sealer = "")) && bool_decide (ToLower (TrimSpace sealer) ∈ trusted).

Definition bool_text (b : bool) : string := if b then "true" else "false".
Definition dmarc_verdict (res domain : string) : AuthResult :=
  {| Method := AuthDMARC; AResult := res; Property := PropHeaderFrom; Domain := domain; Selector := "" |}.
(** What is done with the message, and why it departs from the policy asked for. *)
Definition disposition_of (published : Policy) (aligned arcOverride : bool) (arcSealer : string) (m : EmailJSON)
    : string * option override :=
  let requested := Requested published in
  let applied := Applied published in
  if aligned then
    (if bool_decide (requested = "quarantine") || bool_decide (requested = "reject") then "pass" else "none", None)
  else if arcOverride then
    ("none", if bool_decide (requested <> "none")
             then Some {| OType := "trusted_forwarder"; OComment := "arc=pass from " +:+ arcSealer |} else None)
  else
    let ov := if bool_decide (applied <> requested)
              then Some {| OType := "policy_test_mode"; OComment := "t=y: " +:+ requested +:+ " applied as " +:+ applied |}
              else None in
    if bool_decide (applied = "reject") then
      match default [] (Raw (EHeaders m) !! "List-Id") with
      | list_id :: _ => ("quarantine", Some {| OType := "mailing_list"; OComment := "List-Id: " +:+ TrimSpace list_id |})
      | [] => (applied, ov)
      end
    else (applied, ov).
(** The last ARC verdict: its result and the sealer. *)
Definition arc_status (auth : list AuthResult) : string * string :=
  match last (Find_ AuthARC "" auth) with Some r => (AResult r, Domain r) | None => ("", "") end.

Record Checked := { checked : Ran; captured : option DMARCAggregateRecord }.
Definition dmarc_check (trusted : gset string) (has_db : bool) (auth : list AuthResult) (m : EmailJSON) : Checked :=
  let done := fun verdicts r row => {| checked := {| recorded := verdicts; left := m; answer_ := Ok r |}; captured := row |} in
  let none := fun detail => done [] (goes_on "dmarc_check" "none" detail) None in
  match From (EHeaders m) with
  | [] => none "no From header"
  | a :: _ =>
      match cut_last "@"%char (AAddress a) with
      | None | Some (EmptyString, _) => none "invalid From address"
      | Some (_, d) =>
          match MailAddress.DomainASCII d with
          | None => none "invalid From domain"
          | Some domain =>
              let published := dmarc_Discover domain in
              match published with
              | Err _ => done [dmarc_verdict "none" domain]
                           (goes_on "dmarc_check" "none" ("no DMARC record for " +:+ domain)) None
              | Ok published =>
                  if bool_decide (PRaw published = "") then
                    done [dmarc_verdict "none" domain]
                      (goes_on "dmarc_check" "none" ("no DMARC record for " +:+ domain)) None
                  else
                    let spf := foldl (spf_tally domain (ASPF published)) (no_tally None) (Find_ AuthSPF PropMailFrom auth) in
                    let dkim := foldl (dkim_tally domain (ADKIM published)) (no_tally (dnsErr spf))
                                  (Find_ AuthDKIM PropHeaderD auth) in
                    let '(arcStatus, arcSealer) := arc_status auth in
                    let arcOverride := bool_decide (arcStatus = "pass") && sealerTrusted trusted arcSealer in
                    let aligned := aligned_ spf || aligned_ dkim in
                    match (if aligned then None else dnsErr dkim) with
                    | Some err =>
                        done [dmarc_verdict "temperror" domain]
                          (goes_on "dmarc_check" "temperror"
                             ("alignment for " +:+ domain +:+ " not known: " +:+ err)) None
                    | None =>
                        let verdict := dmarc_verdict (if aligned then "pass" else "fail") domain in
                        let '(disposition, ov) := disposition_of published aligned arcOverride arcSealer m in
                        let row := captureDMARC has_db m domain (Requested published) disposition spf dkim ov in
                        let policy := "policy=" +:+ Requested published in
                        if aligned then
                          done [verdict] (goes_on "dmarc_check" "pass"
                            (policy +:+ " spf_pass=" +:+ bool_text (pass_ spf) +:+ " spf_aligned=" +:+ bool_text (aligned_ spf)
                             +:+ " dkim_pass=" +:+ bool_text (pass_ dkim) +:+ " dkim_aligned=" +:+ bool_text (aligned_ dkim))) row
                        else if arcOverride then
                          done [verdict] (goes_on "dmarc_check" "pass"
                            (policy +:+ " dmarc=fail but arc=pass from trusted sealer " +:+ arcSealer
                             +:+ " (ARC override) domain=" +:+ domain)) row
                        else
                          let detail := policy +:+ " domain=" +:+ domain +:+
                            match ov with
                            | Some o => " applied=" +:+ disposition +:+ " (" +:+ OType o +:+ ": " +:+ OComment o +:+ ")"
                            | None => ""
                            end in
                          done [verdict]
                            (if bool_decide (disposition = "reject") then
                               answer "dmarc_check" "fail" detail ActionReject ("550 DMARC policy reject for " +:+ domain)
                             else if bool_decide (disposition = "quarantine") then
                               answer "dmarc_check" "fail" detail ActionQuarantine ""
                             else goes_on "dmarc_check" "fail" (detail +:+ " (no enforcement)")) row
                    end
              end
          end
      end
  end.

(** ** Known senders: sender_auth.go *)

Definition senderAuthenticated (auth : list AuthResult) (domain : string) : bool :=
  let domain := TrimSpace (TrimPrefix (TrimSpace domain) "@") in
  if bool_decide (domain = "") then false
  else existsb (fun r => bool_decide (AResult r = "pass") &&
                         match dmarcAligned (Domain r) domain AlignmentRelaxed with (true, None) => true | _ => false end)
         (Find_ AuthSPF PropMailFrom auth ++ Find_ AuthDKIM PropHeaderD auth).

(** The sender both filters and sender_verify go by. *)
Definition sender_of (m : EmailJSON) : string :=
  let sender := MailFrom (EEnvelope m) in
  if bool_decide (sender = "") then match From (EHeaders m) with a :: _ => AAddress a | [] => sender end else sender.

(** ** domain_allowlist *)

Record domainAllowlistConfig := { OnAllow : string; OnBlock : string; RejectMessage : string }.
Definition NewDomainAllowlist (on_allow on_block reject_message : option string) : domainAllowlistConfig := {|
  OnAllow := default "continue_skip_spam" on_allow; OnBlock := default "reject" on_block;
  RejectMessage := default "550 Sender blocked by domain policy" reject_message |}.

(** The tables: hosted domains, their rules and the installation's, a rule being a list
    type and a pattern. *)
Record Rules := {
  hosted : list (string * Z);
  domain_rules : list (Z * (string * string));
  installation_rules : list (string * string)
}.
Inductive rule_stmt := QDomain (name : string) | QDomainRules (id : Z) (kind : string) | QInstallationRules (kind : string).

Section Allowlist.
Context (rules : Rules) (broken : rule_stmt -> bool).
Definition rule_matches (kind sender senderDomain : string) (rule : string * string) : bool :=
  bool_decide (fst rule = kind) && (bool_decide (snd rule = sender) || bool_decide (snd rule = senderDomain)).
(** A failed query leaves its count at zero. *)
Definition domainMatch (id : Z) (sender senderDomain kind : string) : bool :=
  negb (broken (QDomainRules id kind)) &&
  existsb (fun row => (fst row =? id) && rule_matches kind sender senderDomain (snd row)) (domain_rules rules).
Definition installationMatch (sender senderDomain kind : string) : bool :=
  negb (broken (QInstallationRules kind)) && existsb (rule_matches kind sender senderDomain) (installation_rules rules).
(** The recipients' domains; one that is not hosted has the id 0. *)
Definition rcpt_domain (rcpt : string) : option (string * Z) :=
  match splitn_byte "@"%char rcpt 2 with
  | [_; d] => if broken (QDomain d) then None
              else Some (d, match List.find (fun h => bool_decide (fst h = d)) (hosted rules) with
                            | Some h => snd h | None => 0 end)
  | _ => None
  end.
Definition domain_allowlist (cfg : domainAllowlistConfig) (auth : list AuthResult) (m : EmailJSON) : Result :=
  let sender := sender_of m in
  if bool_decide (sender = "") then continueResult "domain_allowlist" "no sender"
  else
    let '(senderDomain, bare) :=
      match splitn_byte "@"%char sender 2 with [_; d] => ("@" +:+ d, d) | _ => ("", "") end in
    let domains := omap rcpt_domain (RcptTo (EEnvelope m)) in
    let blocked := fun detail => answer "domain_allowlist" "blocked" detail ActionReject (RejectMessage cfg) in
    if installationMatch sender senderDomain "block" then
      blocked ("sender " +:+ sender +:+ " blocked for the installation")
    else
      match List.find (fun d => domainMatch (snd d) sender senderDomain "block") domains with
      | Some d => blocked ("sender " +:+ sender +:+ " blocked for domain " +:+ fst d)
      | None =>
          let allowed := match List.find (fun d => domainMatch (snd d) sender senderDomain "allow") domains with
                         | Some d => Some ("domain " +:+ fst d)
                         | None => if installationMatch sender senderDomain "allow" then Some "the installation" else None
                         end in
          match allowed with
          | None => continueResult "domain_allowlist" "no matching rules"
          | Some by_ =>
              let detail := "sender " +:+ sender +:+ " allowed for " +:+ by_ in
              let authed := senderAuthenticated auth bare in
              {| Pipeline.RType := Pipeline.FilterTypeAction; Pipeline.RAction := ActionContinue; Pipeline.RMessage := None;
                 Pipeline.SkipFilters := if authed then ["rspamd"; "spamassassin"; "greylist"] else [];
                 Pipeline.RRejectMsg := "";
                 Pipeline.RLog := {| Pipeline.LFilter := "domain_allowlist"; Pipeline.LResult := "allowed";
                   Pipeline.LDetail := if authed then detail
                                       else detail +:+ " (unauthenticated sender: scanning not skipped)" |} |}
          end
      end.
End Allowlist.

(** ** contact_whitelist *)

(** The trust level a recipient's contacts give a sender, by local part, domain and address;
    [None] when there is none or the query fails. *)
Definition contacts := string -> string -> string -> option string.
Definition contact_pass (authed : bool) (skip : list string) (detail : string) : Result :=
  {| Pipeline.RType := Pipeline.FilterTypeAction; Pipeline.RAction := ActionContinue; Pipeline.RMessage := None;
     Pipeline.SkipFilters := if authed then skip else []; Pipeline.RRejectMsg := "";
     Pipeline.RLog := {| Pipeline.LFilter := "contact_whitelist"; Pipeline.LResult := "pass";
       Pipeline.LDetail := if authed then detail
                           else detail +:+ " (unauthenticated sender: scanning not skipped)" |} |}.
Fixpoint check_contacts (trust : contacts) (authed : bool) (sender : string) (rcpts : list string) : Result :=
  match rcpts with
  | [] => goes_on "contact_whitelist" "unknown" ("sender " +:+ sender +:+ " not in any recipient's contacts")
  | rcpt :: rest =>
      match splitn_byte "@"%char rcpt 2 with
      | [local; d] =>
          let level := default "" (trust local d sender) in
          if bool_decide (level = "blocked") then
            answer "contact_whitelist" "blocked" ("sender " +:+ sender +:+ " blocked by " +:+ rcpt) ActionReject
              "550 Sender blocked by recipient"
          else if bool_decide (level = "trusted") then
            contact_pass authed ["rspamd"; "spamassassin"; "greylist"]
              ("sender " +:+ sender +:+ " is trusted contact of " +:+ rcpt)
          else if bool_decide (level = "auto") then
            contact_pass authed ["rspamd"; "spamassassin"]
              ("sender " +:+ sender +:+ " is auto-collected contact of " +:+ rcpt)
          else check_contacts trust authed sender rest
      | _ => check_contacts trust authed sender rest
      end
  end.
Definition contact_whitelist (trust : contacts) (auth : list AuthResult) (m : EmailJSON) : Result :=
  let sender := sender_of m in
  if bool_decide (sender = "") then goes_on "contact_whitelist" "skip" "no sender to check"
  else
    let senderDomain := match cut_last "@"%char sender with Some (_, d) => d | None => "" end in
    check_contacts trust (senderAuthenticated auth senderDomain) sender (RcptTo (EEnvelope m)).

(** ** sender_verify *)

(** How many mailboxes have a local part and a domain; a failed query leaves the count at
    zero. *)
Definition sender_verify (mailboxes : string -> string -> option Z) (m : EmailJSON) : Result :=
  let sender := sender_of m in
  if bool_decide (sender = "") then
    answer "sender_verify" "reject" "no sender address" ActionReject "550 Sender address required"
  else match splitn_byte "@"%char sender 2 with
       | [local; d] =>
           if default 0 (mailboxes local d) =? 0 then
             answer "sender_verify" "reject" ("sender " +:+ sender +:+ " not found in local mailboxes") ActionReject
               ("550 <" +:+ sender +:+ ">: Sender not authorized")
           else goes_on "sender_verify" "pass" ("sender " +:+ sender +:+ " verified")
       | _ => answer "sender_verify" "reject" "invalid address format" ActionReject "550 Invalid sender address format"
       end.
End Filters.
End SenderAuth.

(** * What the authentication filters promise

    [dmarc_exact]: DMARC passes exactly for an aligned pass, and refuses or holds exactly
    what the domain's policy says. [known_senders_proven]: only an authenticated sender skips
    the spam checks, and a block wins over an allow. *)

Module SenderFacts.
Import GoTime GoStrings Emails AuthResults SenderAuth.
Import Pipeline(AuthResult, Method, AResult, Property, Domain,
  RAction, SkipFilters, Action, ActionContinue, ActionReject, ActionQuarantine).
Local Open Scope Z_scope.
Section Facts.
Context `{MailLib} `{AuthLib} `{Unicode}.

(** ** DMARC *)

(** A passing verdict whose domain is aligned with the From domain. *)
Definition aligned_pass (domain : string) (mode : AlignmentMode) (r : AuthResult) : bool :=
  bool_decide (AResult r = "pass") && fst (dmarcAligned (Domain r) domain mode).
(** A passing verdict whose alignment the DNS did not tell. *)
Definition unknown_pass (domain : string) (mode : AlignmentMode) (r : AuthResult) : bool :=
  bool_decide (AResult r = "pass") &&
  match snd (dmarcAligned (Domain r) domain mode) with Some _ => true | None => false end.
Definition is_some {A} (o : option A) : bool := match o with Some _ => true | None => false end.

Lemma spf_tally_spec domain mode t rs :
  aligned_ (foldl (spf_tally domain mode) t rs) = aligned_ t || existsb (aligned_pass domain mode) rs /\
  is_some (dnsErr (foldl (spf_tally domain mode) t rs)) = is_some (dnsErr t) || existsb (unknown_pass domain mode) rs.
Proof.
  revert t. induction rs as [|r rs IH]; intros t; simpl; [by rewrite !orb_false_r|].
  destruct (IH (spf_tally domain mode t r)) as [-> ->]. unfold spf_tally, judge, aligned_pass, unknown_pass.
  destruct (bool_decide (AResult r = "pass")); simpl; [|done].
  destruct (dmarcAligned _ _ _) as [ok [err|]]; simpl; rewrite ?orb_assoc, ?orb_true_r; simpl; by rewrite ?orb_assoc.
Qed.
Lemma dkim_tally_spec domain mode t rs :
  aligned_ (foldl (dkim_tally domain mode) t rs) = aligned_ t || existsb (aligned_pass domain mode) rs /\
  is_some (dnsErr (foldl (dkim_tally domain mode) t rs)) = is_some (dnsErr t) || existsb (unknown_pass domain mode) rs.
Proof.
  revert t. induction rs as [|r rs IH]; intros t; simpl; [by rewrite !orb_false_r|].
  destruct (IH (dkim_tally domain mode t r)) as [-> ->]. unfold dkim_tally, judge, aligned_pass, unknown_pass.
  destruct (bool_decide (AResult r = "pass")); simpl; [|by destruct (rank t <? 0)].
  destruct (dmarcAligned _ _ _) as [[] [err|]]; simpl; destruct (rank t <? _); simpl;
    rewrite ?orb_true_r; simpl; by rewrite ?orb_assoc, ?orb_false_r.
Qed.

Section Message.
Context (p : Policy) (domain : string) (auth : list AuthResult).
(** Some identifier passes and is aligned; none does and the DNS failed on one. *)
Definition dmarc_passes : bool :=
  existsb (aligned_pass domain (ASPF p)) (Find_ AuthSPF PropMailFrom auth) ||
  existsb (aligned_pass domain (ADKIM p)) (Find_ AuthDKIM PropHeaderD auth).
Definition dmarc_unknown : bool :=
  existsb (unknown_pass domain (ASPF p)) (Find_ AuthSPF PropMailFrom auth) ||
  existsb (unknown_pass domain (ADKIM p)) (Find_ AuthDKIM PropHeaderD auth).
Definition vouched (trusted : gset string) : bool :=
  bool_decide (fst (arc_status auth) = "pass") && sealerTrusted trusted (snd (arc_status auth)).
Definition from_list (m : EmailJSON) : bool :=
  match default [] (Raw (EHeaders m) !! "List-Id") with [] => false | _ => true end.
(** The policy is enforced on the message. *)
Definition enforced (trusted : gset string) : bool :=
  negb dmarc_passes && negb dmarc_unknown && negb (vouched trusted).
End Message.

Lemma disposition_enforced p arc m :
  let d := fst (disposition_of p false false arc m) in
  (d = "reject" <-> Applied p = "reject" /\ from_list m = false) /\
  (d = "quarantine" <-> Applied p = "quarantine" \/ Applied p = "reject" /\ from_list m = true).
Proof.
  unfold disposition_of, from_list. case_bool_decide as R.
  - destruct (default [] _) as [|l ls]; simpl; rewrite R; naive_solver.
  - simpl. naive_solver.
Qed.

#[local] Arguments disposition_of : simpl never.

(** The domain of the From address. *)
Definition from_domain (m : EmailJSON) : option string :=
  a ← head (From (EHeaders m));
  match cut_last "@"%char (AAddress a) with
  | None | Some (EmptyString, _) => None
  | Some (_, d) => MailAddress.DomainASCII d
  end.
(** What the filter did: the verdict it recorded and its action. *)
Definition outcome (c : Checked) : list AuthResult * option Action :=
  (SenderAuth.recorded (checked c), match answer_ (checked c) with Ok r => Some (RAction r) | Err _ => None end).

Lemma dmarc_outcome trusted has_db auth m domain p :
  from_domain m = Some domain -> dmarc_Discover domain = Ok p -> PRaw p <> "" ->
  outcome (dmarc_check trusted has_db auth m) =
    ([dmarc_verdict (if dmarc_passes p domain auth then "pass"
                     else if dmarc_unknown p domain auth then "temperror" else "fail") domain],
     Some (if enforced p domain auth trusted then
             let d := fst (disposition_of p false false (snd (arc_status auth)) m) in
             if bool_decide (d = "reject") then ActionReject
             else if bool_decide (d = "quarantine") then ActionQuarantine else ActionContinue
           else ActionContinue)).
Proof.
  unfold from_domain, dmarc_check. intros F D R. destruct (From (EHeaders m)) as [|a l]; [done|]. simpl in F.
  destruct (cut_last _ _) as [[[|x loc] d]|]; [done| |done]. rewrite F, D, bool_decide_eq_false_2 by done.
  set (spf := foldl _ _ _). set (dkim := foldl _ _ (Find_ AuthDKIM _ _)).
  destruct (spf_tally_spec domain (ASPF p) (no_tally None) (Find_ AuthSPF PropMailFrom auth)) as [S1 S2].
  destruct (dkim_tally_spec domain (ADKIM p) (no_tally (dnsErr spf)) (Find_ AuthDKIM PropHeaderD auth)) as [K1 K2].
  fold spf in S1, S2. fold dkim in K1, K2. simpl in S1, S2, K1, K2. rewrite S2 in K2.
  unfold enforced, vouched. destruct (arc_status auth) as [st sealer]. simpl.
  fold (dmarc_passes p domain auth) in *. fold (dmarc_unknown p domain auth) in *.
  assert (A : aligned_ spf || aligned_ dkim = dmarc_passes p domain auth) by (by rewrite S1, K1).
  rewrite A. destruct (dmarc_passes p domain auth); simpl; [by destruct (disposition_of p true (bool_decide (st = "pass") && sealerTrusted trusted sealer) sealer m)|].
  destruct (dnsErr dkim) as [err|]; simpl in K2; rewrite <- K2; simpl; [done|].
  destruct (bool_decide (st = "pass") && sealerTrusted trusted sealer); simpl; [by destruct (disposition_of p false true sealer m)|].
  destruct (disposition_of p false false sealer m) as [d' ov]. unfold outcome. simpl. by repeat case_bool_decide.
Qed.


(** ** Known senders *)

(** A verdict of this run that proves the sender's domain. *)
Definition proven (auth : list AuthResult) (domain : string) : Prop :=
  exists r, (r ∈ Find_ AuthSPF PropMailFrom auth \/ r ∈ Find_ AuthDKIM PropHeaderD auth) /\ AResult r = "pass" /\
    dmarcAligned (Domain r) (TrimSpace (TrimPrefix (TrimSpace domain) "@")) AlignmentRelaxed = (true, None).
Lemma authenticated_proven auth domain : senderAuthenticated auth domain = true -> proven auth domain.
Proof.
  unfold senderAuthenticated. case_bool_decide; [done|]. intros (r & I & K)%existsb_elem.
  apply andb_prop in K as [P A]. exists r. rewrite elem_of_app in I. split; [done|].
  split; [by apply bool_decide_eq_true in P|]. by destruct (dmarcAligned _ _ _) as [[] [|]].
Qed.
Lemma contacts_skip trust authed sender rcpts :
  SkipFilters (check_contacts trust authed sender rcpts) <> [] -> authed = true.
Proof.
  induction rcpts as [|rcpt rcpts IH]; simpl; [done|].
  destruct (cut_byte "@"%char rcpt) as [[l d]|]; [|exact IH].
  repeat case_bool_decide; simpl; first [done|by destruct authed|exact IH].
Qed.

(** What a sender's address is blocked by. *)
Definition blocked_by (rules : Rules) (broken : rule_stmt -> bool) (m : EmailJSON) (senderDomain : string) : Prop :=
  installationMatch rules broken (sender_of m) senderDomain "block" = true \/
  exists d, d ∈ omap (rcpt_domain rules broken) (RcptTo (EEnvelope m)) /\
    domainMatch rules broken (snd d) (sender_of m) senderDomain "block" = true.
Lemma find_exists {A} (p : A -> bool) l x : x ∈ l -> p x = true -> exists y, List.find p l = Some y.
Proof.
  intros I P. destruct (List.find p l) as [y|] eqn:F; [eauto|].
  pose proof (find_none _ _ F x (proj1 (list_elem_of_In _ _) I)). congruence.
Qed.

(** The allowlist and the contacts let a message skip spam and greylist checks only when
    an SPF or DKIM pass of this run proves the sender's domain; and a block rule of the
    installation or of any recipient's domain rejects the message whatever rules allow it. *)
Theorem known_senders_proven rules broken cfg trust auth m local domain :
  splitn_byte "@"%char (sender_of m) 2 = [local; domain] ->
  (SkipFilters (domain_allowlist rules broken cfg auth m) <> [] -> proven auth domain) /\
  (SkipFilters (contact_whitelist trust auth m) <> [] ->
     exists d, cut_last "@"%char (sender_of m) = Some d /\ proven auth (snd d)) /\
  (blocked_by rules broken m ("@" +:+ domain) -> RAction (domain_allowlist rules broken cfg auth m) = ActionReject).
Proof.
  intros S. assert (N : sender_of m <> "") by (intros E; by rewrite E in S).
  unfold domain_allowlist, contact_whitelist. rewrite bool_decide_eq_false_2 by done. rewrite S.
  split_and!.
  - destruct (installationMatch _ _ _ _ "block"); [done|]. destruct (List.find _ _); [done|].
    destruct (match List.find _ _ with Some _ => _ | None => _ end); [|done]. simpl.
    destruct (senderAuthenticated auth domain) eqn:A; [|done]. intros _. by apply authenticated_proven.
  - intros K. apply contacts_skip in K. destruct (cut_last _ _) as [[l d]|] eqn:C.
    + exists (l, d). split; [done|]. by apply authenticated_proven.
    + done.
  - intros [B|(d & I & B)]; [by rewrite B|]. destruct (installationMatch _ _ _ _ "block"); [done|].
    destruct (find_exists (fun d => domainMatch rules broken (snd d) (sender_of m) ("@" +:+ domain) "block") _ d I B) as [y ->].
    done.
Qed.
End Facts.
End SenderFacts.
