(* ===== verification/SendLimits.v ===== *)
(** * Sending limits kept in the database: internal/sendlimits

    Hourly and daily ceilings on an account's submissions, inherited down its chain of
    owners, with those of the domains and of the server. [Reserve] takes the advisory lock,
    works out every layer a submission is charged to, refuses it when one of them has no room
    and counts it in all of them otherwise, in one transaction: it is a function of the
    tables, and leaves them as they were on an error. [broken] names the statements the
    database refuses in one call. What [Attempt.Hold] writes is a table of its own, [R]. *)

From S2P Require Import Prelude GoTime GoStrings GoCodec AuditLog.
From Stdlib Require Import Ascii.
Import GoTime GoStrings.
Local Open Scope Z_scope.

Module SendLimits.

(** ** Limits: limits.go *)

Record SendLimitValues := {
  MessagesPerHour : Z;
  MessagesPerDay : Z;
  RecipientsPerHour : Z;
  RecipientsPerDay : Z
}.
Definition values (v : SendLimitValues) : list Z :=
  [MessagesPerHour v; MessagesPerDay v; RecipientsPerHour v; RecipientsPerDay v].
Definition fromValues (v : list Z) : SendLimitValues := {|
  MessagesPerHour := nth 0 v 0; MessagesPerDay := nth 1 v 0; RecipientsPerHour := nth 2 v 0; RecipientsPerDay := nth 3 v 0 |}.
Definition unlimited : SendLimitValues := fromValues [].

(** An override above the parent's ceiling, or without one below a ceiling. *)
Definition above (p c : Z) : bool := (0 <? p) && ((c =? 0) || (p <? c)).
Definition Inherit (parent : SendLimitValues) (override : option SendLimitValues) : SendLimitValues :=
  match override with
  | None => parent
  | Some c => fromValues (zip_with (fun p c => if above p c then p else c) (values parent) (values c))
  end.
Definition Within (parent child : SendLimitValues) : bool :=
  forallb (fun pc => negb ((snd pc <? 0) || above (fst pc) (snd pc))) (zip (values parent) (values child)).

Record SendLimitCounter := { Messages : Z; Recipients : Z }.
Definition no_count : SendLimitCounter := {| Messages := 0; Recipients := 0 |}.
Definition dimensions : list string :=
  ["messages_per_hour"; "messages_per_day"; "recipients_per_hour"; "recipients_per_day"].
(** No room for [added] more. *)
Definition full (n used added : Z) : bool := (0 <? n) && ((n <? added) || (GoInt.wrap64 (n - added) <? used)).
Definition Exceeded (cap : SendLimitValues) (hour day : SendLimitCounter) (recipients : Z) : string :=
  let used := [Messages hour; Messages day; Recipients hour; Recipients day] in
  let added := [1; 1; recipients; recipients] in
  default "" (head (omap (fun '(n, (u, (a, name))) => if full n u a then Some name else None)
                      (zip (values cap) (zip used (zip added dimensions))))).
Definition Bucket (now : Time) (window : Duration) : Time := now - now mod window.

(** ** The tables *)

Record Mailbox := { AccID : Z; Address : string; OwnerID : option Z; DomainID : Z; Active : bool }.
(** A counter's primary key: scope, window in seconds, start. *)
Definition Key : Type := string * Z * Z.
Record NoticeMessage := { NMailbox : Z; NTo : string; NBody : string; NReceivedAt : Time }.
Record DB {R : Type} := {
  mailboxes : list Mailbox;
  policies : gmap string SendLimitValues;
  counters : gmap Key SendLimitCounter;
  notices : gmap (Z * Z) (option Z);
  inbox : gmap Z NoticeMessage;
  next_message : Z;
  audit_log : list Audit.AuditEntry;
  held : R
}.
Arguments DB : clear implicits.

Inductive stmt :=
| QLock | QMailbox (id : Z) | QPolicy (scope : string) | QDomainOf (id : Z) | QCounter (k : Key) | QCount (k : Key)
| QActor | QNotice | QOwner | QMessage | QLinkNotice | QAudit | QSetPolicy.
Inductive limit_error :=
| DbFailed | NotFound | BadChain | ErrAccountInactive | NoAccount | NoRecipients | NoEntry | NegativeLimits
| ErrOwnerCeiling | HoldFailed.

Record Service := {
  Defaults : SendLimitValues;
  Domain : SendLimitValues;
  Server : SendLimitValues;
  PerMinute : Z
}.
Definition AccountScope (id : Z) : string := "account:" +:+ itoa id.
Definition DomainScope (id : Z) : string := "domain:" +:+ itoa id.

Record layer := { scope : string; limits : SendLimitValues; ownerID : Z }.
Record Hit := { HScope : string; HDimension : string; HOwner : Z; RetryAt : Time; NoticeID : Z }.

Section Tables.
Context {R : Type}.
Abbreviation DB := (DB R).

Record Attempt := {
  AccountID : Z;
  SenderID : Z;
  HeaderSenderID : Z;
  ARecipients : Z;
  Entry : option Audit.AuditEntry;
  BypassAccounts : bool;
  Hold : option (R -> Hit -> option R);
  ForceHit : string
}.

Definition with_policies (p : gmap string SendLimitValues) (db : DB) : DB := {|
  mailboxes := mailboxes db; policies := p; counters := counters db; notices := notices db; inbox := inbox db;
  next_message := next_message db; audit_log := audit_log db; held := held db |}.
Definition with_counters (c : gmap Key SendLimitCounter) (db : DB) : DB := {|
  mailboxes := mailboxes db; policies := policies db; counters := c; notices := notices db; inbox := inbox db;
  next_message := next_message db; audit_log := audit_log db; held := held db |}.
Definition with_notice (n : gmap (Z * Z) (option Z)) (i : gmap Z NoticeMessage) (next : Z) (db : DB) : DB := {|
  mailboxes := mailboxes db; policies := policies db; counters := counters db; notices := n; inbox := i;
  next_message := next; audit_log := audit_log db; held := held db |}.
Definition with_log (l : list Audit.AuditEntry) (db : DB) : DB := {|
  mailboxes := mailboxes db; policies := policies db; counters := counters db; notices := notices db; inbox := inbox db;
  next_message := next_message db; audit_log := l; held := held db |}.
Definition with_held (r : R) (db : DB) : DB := {|
  mailboxes := mailboxes db; policies := policies db; counters := counters db; notices := notices db; inbox := inbox db;
  next_message := next_message db; audit_log := audit_log db; held := r |}.

Definition find_mailbox (db : DB) (id : Z) : option Mailbox := List.find (fun m => AccID m =? id) (mailboxes db).

(** ** service.go *)

Section Calls.
Context (s : Service) (broken : stmt -> bool).

Definition lock : result limit_error unit := if broken QLock then Err DbFailed else Ok tt.
Definition policy (db : DB) (scope : string) (fallback : SendLimitValues) : result limit_error SendLimitValues :=
  if broken (QPolicy scope) then Err DbFailed else Ok (default fallback (policies db !! scope)).
(** First by primary key. *)
Definition first_mailbox (q : stmt) (db : DB) (id : Z) : result limit_error Mailbox :=
  if broken q then Err DbFailed
  else match find_mailbox db id with Some m => Ok m | None => Err NotFound end.

(** The account, its owner, and so on up; [chain] those passed so far. The fuel never runs
    out before the chain is cut off at 64 accounts (SendLimitsFacts.chain_ends). *)
Fixpoint ownership (fuel : nat) (db : DB) (id : Z) (chain : list Mailbox) : result limit_error (list Mailbox) :=
  if id =? 0 then Ok chain
  else if bool_decide (id ∈ AccID <$> chain) || (64 <=? length chain)%nat then Err BadChain
  else match fuel with
       | O => Err BadChain
       | S fuel =>
           m ← first_mailbox (QMailbox id) db id;
           if negb (Active m) then Err ErrAccountInactive
           else ownership fuel db (default 0 (OwnerID m)) (chain ++ [m])
       end.
Definition chain_fuel : nat := 65.
Definition owner_or_self (m : Mailbox) : Z := default (AccID m) (OwnerID m).
(** From the topmost owner down. *)
Fixpoint inherit_down (db : DB) (top : bool) (inherited : SendLimitValues) (chain : list Mailbox)
    : result limit_error (list layer) :=
  match chain with
  | [] => Ok []
  | m :: chain =>
      let scope := AccountScope (AccID m) in
      v ← policy db scope inherited;
      let v := if top then v else Inherit inherited (Some v) in
      rest ← inherit_down db false v chain;
      Ok ({| scope := scope; limits := v; ownerID := owner_or_self m |} :: rest)
  end.
Definition accountLayers (db : DB) (id : Z) : result limit_error (list layer * Z) :=
  chain ← ownership chain_fuel db id [];
  match chain with
  | [] => Err NoAccount
  | m :: _ => layers ← inherit_down db true (Defaults s) (rev chain); Ok (layers, owner_or_self m)
  end.
Definition EffectiveAccount (db : DB) (id : Z) : result limit_error SendLimitValues :=
  '(layers, _) ← accountLayers db id;
  Ok (match last layers with Some l => limits l | None => unlimited end).

Definition SetAccount (db : DB) (id : Z) (v : SendLimitValues) : result limit_error DB :=
  _ ← lock;
  if negb (Within unlimited v) then Err NegativeLimits
  else
    m ← first_mailbox (QMailbox id) db id;
    p ← match OwnerID m with Some o => Some <$> EffectiveAccount db o | None => Ok None end;
    if match p with Some p => negb (Within p v) | None => false end then Err ErrOwnerCeiling
    else if broken QSetPolicy then Err DbFailed
    else Ok (with_policies (<[AccountScope id := v]> (policies db)) db).

(** The domain layer of an account's mailbox; no account, no layer. *)
Definition domain_layer (db : DB) (owner id : Z) : result limit_error (list layer) :=
  if id =? 0 then Ok []
  else
    mb ← first_mailbox (QDomainOf id) db id;
    v ← policy db (DomainScope (DomainID mb)) (Domain s);
    Ok [{| scope := DomainScope (DomainID mb); limits := v; ownerID := owner |}].
Definition sender_of (a : Attempt) : Z := if SenderID a =? 0 then AccountID a else SenderID a.
Definition layers_of (db : DB) (a : Attempt) : result limit_error (list layer * Z) :=
  '(layers, owner) ← accountLayers db (AccountID a);
  '(extra, _) ← accountLayers db (sender_of a);
  header ← (if negb (HeaderSenderID a =? 0) && negb (HeaderSenderID a =? sender_of a)
            then fst <$> accountLayers db (HeaderSenderID a) else Ok []);
  d1 ← domain_layer db owner (AccountID a);
  d2 ← domain_layer db owner (sender_of a);
  d3 ← domain_layer db owner (HeaderSenderID a);
  sv ← policy db "*" (Server s);
  Ok (layers ++ extra ++ header ++ d1 ++ d2 ++ d3 ++ [{| scope := "*"; limits := sv; ownerID := owner |}], owner).

Definition seconds (w : Duration) : Z := w / Second.
Definition Day : Duration := 24 * Hour.
Definition key (scope : string) (w : Duration) (now : Time) : Key := (scope, seconds w, Bucket now w).
Definition read_counter (db : DB) (k : Key) : result limit_error SendLimitCounter :=
  if broken (QCounter k) then Err DbFailed else Ok (default no_count (counters db !! k)).
Definition counter_list : Type := list (Key * SendLimitCounter).

(** The first layer without room, and the counters read up to it. *)
Fixpoint check_layers (db : DB) (a : Attempt) (now : Time) (seen : list string) (layers : list layer)
    (acc : counter_list) : result limit_error (option Hit * counter_list) :=
  match layers with
  | [] => Ok (None, acc)
  | l :: layers =>
      if bool_decide (scope l ∈ seen) then check_layers db a now seen layers acc
      else
        hour ← read_counter db (key (scope l) Hour now);
        day ← read_counter db (key (scope l) Day now);
        let acc := acc ++ [(key (scope l) Hour now, hour); (key (scope l) Day now, day)] in
        let dimension := if BypassAccounts a && HasPrefix (scope l) "account:" then ""
                         else Exceeded (limits l) hour day (ARecipients a) in
        if bool_decide (dimension = "") then check_layers db a now (scope l :: seen) layers acc
        else
          let window := if HasSuffix dimension "_day" then Day else Hour in
          Ok (Some {| HScope := scope l; HDimension := dimension; HOwner := ownerID l;
                      RetryAt := Add (Bucket now window) window; NoticeID := 0 |}, acc)
  end.

(** A pipeline's refusal, and then the minute's cap. *)
Definition check_rest (db : DB) (a : Attempt) (now : Time) (owner : Z) (found : option Hit * counter_list)
    : result limit_error (option Hit * counter_list) :=
  let '(hit, acc) := found in
  match hit with
  | Some _ => Ok found
  | None =>
      if negb (bool_decide (ForceHit a = "")) then
        Ok (Some {| HScope := "pipeline"; HDimension := ForceHit a; HOwner := owner; RetryAt := Add now Minute;
                    NoticeID := 0 |}, acc)
      else if (0 <? PerMinute s) && negb (BypassAccounts a) then
        let k := key (AccountScope (AccountID a)) Minute now in
        c ← read_counter db k;
        if PerMinute s <=? Messages c then
          Ok (Some {| HScope := AccountScope (AccountID a); HDimension := "messages_per_minute"; HOwner := owner;
                      RetryAt := Add (Bucket now Minute) Minute; NoticeID := 0 |}, acc)
        else Ok (None, acc ++ [(k, c)])
      else Ok (None, acc)
  end.

Definition counted (recipients : Z) (c : SendLimitCounter) : SendLimitCounter := {|
  Messages := GoInt.wrap64 (Messages c + 1); Recipients := GoInt.wrap64 (Recipients c + recipients) |}.
Fixpoint count_all (recipients : Z) (acc : counter_list) (m : gmap Key SendLimitCounter)
    : result limit_error (gmap Key SendLimitCounter) :=
  match acc with
  | [] => Ok m
  | (k, c) :: acc =>
      if broken (QCount k) then Err DbFailed else count_all recipients acc (<[k := counted recipients c]> m)
  end.

(** ** A refusal: the hold, the owner's notice and the audit entry *)

Definition notice_text (hit : Hit) : string :=
  "Sending has reached " +:+ HDimension hit +:+ " (" +:+ HScope hit +:+
  "). Further mail is held: REST Mail retains API submissions; SMTP clients receive a temporary failure and retain their submissions. Sign in with two-factor authentication to review held mail or change send limits. Next budget reset: "
  +:+ Codec.RFC3339 (RetryAt hit) +:+ ".".
Definition with_notice_id (id : Z) (hit : Hit) : Hit := {|
  HScope := HScope hit; HDimension := HDimension hit; HOwner := HOwner hit; RetryAt := RetryAt hit; NoticeID := id |}.
(** One notice per owner and hour. *)
Definition notice (db : DB) (hit : Hit) (now : Time) : result limit_error (DB * Hit) :=
  let k := (HOwner hit, Bucket now Hour) in
  if broken QNotice then Err DbFailed
  else match notices db !! k with
       | Some _ => Ok (db, hit)
       | None =>
           owner ← first_mailbox QOwner db (HOwner hit);
           if broken QMessage || broken QLinkNotice then Err DbFailed
           else
             let id := next_message db in
             let msg := {| NMailbox := AccID owner; NTo := Address owner; NBody := notice_text hit; NReceivedAt := now |} in
             Ok (with_notice (<[k := Some id]> (notices db)) (<[id := msg]> (inbox db)) (id + 1) db, with_notice_id id hit)
       end.

Definition hit_entry (e : Audit.AuditEntry) (actor : string) (a : Attempt) (hit : Hit) (now : Time) : Audit.AuditEntry := {|
  Audit.Seq := Audit.Seq e; Audit.OccurredAt := now; Audit.ActorKind := Audit.ActorKind e; Audit.ActorID := Audit.ActorID e;
  Audit.ActorName := actor; Audit.CredentialID := Audit.CredentialID e; Audit.SessionID := Audit.SessionID e;
  Audit.Action := "send_limits.hit"; Audit.Outcome := "denied"; Audit.ErrorCode := "send_limit_exceeded";
  Audit.Method := Audit.Method e; Audit.Route := Audit.Route e; Audit.HttpStatus := Audit.HttpStatus e;
  Audit.Target := {[ "scope" := HScope hit; "dimension" := HDimension hit; "owner_id" := itoa (HOwner hit);
                     "account_id" := itoa (AccountID a); "recipients" := itoa (ARecipients a);
                     "retry_at" := Codec.RFC3339 (RetryAt hit) ]};
  Audit.IP := Audit.IP e; Audit.UserAgent := Audit.UserAgent e; Audit.RequestID := Audit.RequestID e;
  Audit.PrevHash := Audit.PrevHash e; Audit.EHash := Audit.EHash e |}.
Definition refuse (db : DB) (a : Attempt) (hit : Hit) (now : Time) : result limit_error (DB * option Hit) :=
  match Entry a with
  | None => Err NoEntry
  | Some e =>
      actor ← (if bool_decide (Audit.ActorName e = "") then Address <$> first_mailbox QActor db (AccountID a)
               else Ok (Audit.ActorName e));
      let entry := hit_entry e actor a hit now in
      kept ← match Hold a with
             | None => Ok db
             | Some hold => match hold (held db) hit with Some r => Ok (with_held r db) | None => Err HoldFailed end
             end;
      '(db, hit) ← notice kept hit now;
      match Audit.Append (broken QAudit) (audit_log db) now entry with
      | Some log => Ok (with_log log db, Some hit)
      | None => Err DbFailed
      end
  end.

(** [None]: the submission is counted and may go. *)
Definition Reserve (db : DB) (a : Attempt) (now : Time) : result limit_error (DB * option Hit) :=
  _ ← lock;
  if ARecipients a <? 1 then Err NoRecipients
  else
    '(layers, owner) ← layers_of db a;
    found ← check_layers db a now [] layers [];
    '(hit, acc) ← check_rest db a now owner found;
    match hit with
    | Some hit => refuse db a hit now
    | None => c ← count_all (ARecipients a) acc (counters db); Ok (with_counters c db, None)
    end.
End Calls.
End Tables.
Arguments Attempt : clear implicits.
End SendLimits.
