(* ===== verification/SendLimitsSafety.v ===== *)
(** * An account's sending limits

    How limits compare, the chain of an account's owners, and what it may send:
    [owned_limits_within_owner] says an owned account's limits are within its owner's,
    whatever policies are stored. *)

From S2P Require Import Prelude GoTime GoStrings AuditLog SendLimits.
From Stdlib Require Import Ascii.

Module SendLimitsFacts.
Import GoTime GoStrings SendLimits.
Local Open Scope Z_scope.

(** ** Limits *)

(** A limit of zero is none. *)
Definition at_most (n used : Z) : Prop := 0 < n -> used <= n.
Lemma not_full n used added :
  GoInt.in64 n -> 0 <= added -> full n used added = false <-> at_most n (used + added) /\ at_most n added.
Proof.
  unfold full, at_most, GoInt.in64, GoInt.min_int64, GoInt.max_int64. intros I A.
  destruct (0 <? n) eqn:N; simpl; [|split; [split; lia|done]].
  destruct (n <? added) eqn:L; simpl; [split; [done|lia]|].
  rewrite GoInt.wrap64_id by (unfold GoInt.in64, GoInt.min_int64, GoInt.max_int64; lia). lia.
Qed.
Lemma exceeded_none cap hour day r :
  Exceeded cap hour day r = "" <->
  full (MessagesPerHour cap) (Messages hour) 1 = false /\ full (MessagesPerDay cap) (Messages day) 1 = false /\
  full (RecipientsPerHour cap) (Recipients hour) r = false /\ full (RecipientsPerDay cap) (Recipients day) r = false.
Proof.
  unfold Exceeded. simpl. destruct (full (MessagesPerHour cap) _ _); simpl; [intuition congruence|].
  destruct (full (MessagesPerDay cap) _ _); simpl; [intuition congruence|].
  destruct (full (RecipientsPerHour cap) _ _); simpl; [intuition congruence|].
  destruct (full (RecipientsPerDay cap) _ _); simpl; intuition congruence.
Qed.

Lemma within_spec p c :
  Within p c = true <->
  (0 <= MessagesPerHour c /\ above (MessagesPerHour p) (MessagesPerHour c) = false) /\
  (0 <= MessagesPerDay c /\ above (MessagesPerDay p) (MessagesPerDay c) = false) /\
  (0 <= RecipientsPerHour c /\ above (RecipientsPerHour p) (RecipientsPerHour c) = false) /\
  (0 <= RecipientsPerDay c /\ above (RecipientsPerDay p) (RecipientsPerDay c) = false).
Proof. unfold Within. simpl. rewrite !andb_true_iff, !negb_true_iff, !orb_false_iff, !Z.ltb_ge. tauto. Qed.
Lemma above_self p : above p p = false.
Proof. unfold above. destruct (0 <? p) eqn:E; simpl; [|done]. rewrite orb_false_iff. lia. Qed.
Lemma capped_ok p c : 0 <= p -> 0 <= c ->
  0 <= (if above p c then p else c) /\ above p (if above p c then p else c) = false.
Proof. intros P C. destruct (above p c) eqn:A; [by rewrite above_self|done]. Qed.
Lemma inherit_within p c : Within unlimited p = true -> Within unlimited c = true -> Within p (Inherit p (Some c)) = true.
Proof.
  rewrite !within_spec. simpl. intros P C.
  repeat (apply conj; [apply capped_ok; tauto|]). apply capped_ok; tauto.
Qed.
Lemma within_self p : Within unlimited p = true -> Within p p = true.
Proof. rewrite !within_spec, !above_self. tauto. Qed.
Lemma within_unlimited p c : Within p c = true -> Within unlimited c = true.
Proof. rewrite !within_spec. unfold above. simpl. tauto. Qed.

(** ** Chains of owners *)

#[local] Arguments Inherit : simpl never.
Section Chains.
Context {R : Type} (s : Service) (broken : stmt -> bool).
Abbreviation DB := (DB R).
Implicit Types db : DB.

(** The active accounts from [id] up to one without an owner. *)
Inductive owners db : Z -> list Mailbox -> Prop :=
| own_top : owners db 0 []
| own_step id m chain : id <> 0 -> find_mailbox db id = Some m -> Active m = true ->
    owners db (default 0 (OwnerID m)) chain -> owners db id (m :: chain).
Lemma found_id db id m : find_mailbox db id = Some m -> AccID m = id.
Proof. intros F. apply find_some in F as [_ F]. lia. Qed.
Lemma owners_same db id c c' : owners db id c -> owners db id c' -> c = c'.
Proof.
  intros O. revert c'. induction O as [|id m chain N F A O IH]; intros c' O'; inversion O'; subst; try done.
  simplify_eq. f_equal. by apply IH.
Qed.
Lemma owners_suffix db id pre m rest : owners db id (pre ++ m :: rest) -> owners db (AccID m) (m :: rest).
Proof.
  revert id. induction pre as [|x pre IH]; simpl; intros id O; inversion O; subst; [|eauto].
  erewrite found_id by done. by econstructor.
Qed.
Lemma owners_found db id c : owners db id c -> Forall (fun m => find_mailbox db (AccID m) = Some m) c.
Proof. induction 1; constructor; [by erewrite found_id|done]. Qed.

Lemma ownership_owners fuel db id chain chain' :
  ownership broken fuel db id chain = Ok chain' -> exists more, chain' = chain ++ more /\ owners db id more.
Proof.
  revert id chain. induction fuel as [|fuel IH]; intros id chain; simpl; destruct (id =? 0) eqn:Z;
    [intros E; simplify_eq; exists []; rewrite app_nil_r, (proj1 (Z.eqb_eq id 0) Z); by split; [|constructor]
    |by destruct (_ || _)
    |intros E; simplify_eq; exists []; rewrite app_nil_r, (proj1 (Z.eqb_eq id 0) Z); by split; [|constructor]|].
  destruct (_ || _); [done|]. rewrite result_bind_ok. intros (m & F & K).
  unfold first_mailbox in F. destruct (broken _); [done|]. destruct (find_mailbox db id) as [m'|] eqn:E; [|done].
  simplify_eq. destruct (Active m) eqn:A; [|done]. apply IH in K as (more & -> & O).
  exists (m :: more). rewrite <- app_assoc. split; [done|]. econstructor; [lia|done..].
Qed.
(** The chain is cut off at 64 accounts before the fuel runs out. *)
Lemma chain_ends fuel db id chain :
  (64 <= fuel + length chain)%nat -> ownership broken (S fuel) db id chain = ownership broken fuel db id chain.
Proof.
  revert id chain. induction fuel as [|fuel IH]; intros id chain L.
  - cbn [ownership]. destruct (id =? 0); [done|]. rewrite (proj2 (Nat.leb_le 64 (length chain))) by lia. by rewrite orb_true_r.
  - remember (S fuel) as f eqn:F. cbn [ownership]. subst f.
    transitivity (if id =? 0 then Ok chain
       else if bool_decide (id ∈ AccID <$> chain) || (64 <=? length chain)%nat then Err BadChain
       else m ← first_mailbox broken (QMailbox id) db id;
            if negb (Active m) then Err ErrAccountInactive
            else ownership broken fuel db (default 0 (OwnerID m)) (chain ++ [m])); [|done].
    destruct (id =? 0); [done|]. destruct (_ || _); [done|].
    destruct (first_mailbox _ _ _ _) as [m|]; simpl; [|done]. destruct (negb (Active m)); [done|].
    apply IH. rewrite length_app. simpl. lia.
Qed.
Lemma ownership_suffix fuel db id pre chain chain' :
  ownership broken fuel db id (pre ++ chain) = Ok (pre ++ chain') -> ownership broken fuel db id chain = Ok chain'.
Proof.
  revert id chain. induction fuel as [|fuel IH]; intros id chain; cbn [ownership]; destruct (id =? 0).
  1,3: intros E; injection E as E; by apply app_inv_head in E as ->.
  - by destruct (_ || _).
  - destruct (_ || _) eqn:B; [done|]. apply orb_false_iff in B as [B L]. rewrite fmap_app, length_app in *.
    apply bool_decide_eq_false in B. apply Nat.leb_gt in L.
    rewrite bool_decide_eq_false_2 by (intros I; apply B, elem_of_app; by right). rewrite (proj2 (Nat.leb_gt 64 (length chain))) by lia. simpl.
    destruct (first_mailbox _ _ _ _) as [m|]; simpl; [|done]. destruct (negb _); [done|].
    rewrite <- app_assoc. apply IH.
Qed.
Lemma ownership_more fuel db id chain chain' :
  ownership broken fuel db id chain = Ok chain' -> ownership broken (S fuel) db id chain = Ok chain'.
Proof.
  revert id chain. induction fuel as [|fuel IH]; intros id chain.
  - simpl. destruct (id =? 0); [done|]. by destruct (_ || _).
  - simpl. destruct (id =? 0); [done|]. destruct (_ || _); [done|].
    destruct (first_mailbox _ _ _ _) as [m|]; simpl; [|done]. destruct (negb _); [done|]. apply IH.
Qed.

(** ** What an account may send *)

(** The limits of the lowest account of a chain, from its policy and its owners'. *)
Fixpoint effective db (chain : list Mailbox) : SendLimitValues :=
  match chain with
  | [] => Defaults s
  | m :: above =>
      let inherited := effective db above in
      let v := default inherited (policies db !! AccountScope (AccID m)) in
      match above with [] => v | _ => Inherit inherited (Some v) end
  end.
Definition layer_of db (m : Mailbox) (above : list Mailbox) : layer :=
  {| scope := AccountScope (AccID m); limits := effective db (m :: above); ownerID := owner_or_self m |}.
Fixpoint chain_layers db (chain : list Mailbox) : list layer :=
  match chain with [] => [] | m :: above => chain_layers db above ++ [layer_of db m above] end.

Lemma inherit_app db top v c c' ls :
  inherit_down broken db top v (c ++ c') = Ok ls -> exists l1 l2, ls = l1 ++ l2 /\
    inherit_down broken db top v c = Ok l1 /\
    inherit_down broken db (match c with [] => top | _ => false end)
      (match last l1 with Some l => limits l | None => v end) c' = Ok l2.
Proof.
  revert top v ls. induction c as [|m c IH]; intros top v ls; simpl.
  { intros E. by exists [], ls. }
  rewrite result_bind_ok. intros (w & P & K). rewrite result_bind_ok in K. destruct K as (rest & K & E). simplify_eq.
  apply IH in K as (l1 & l2 & -> & K1 & K2). rewrite P. simpl. rewrite K1. simpl.
  eexists (_ :: l1), l2. split_and!; [done|done|]. rewrite last_cons.
  destruct (last l1); by destruct c.
Qed.
Lemma inherit_chain db chain ls :
  inherit_down broken db true (Defaults s) (rev chain) = Ok ls -> ls = chain_layers db chain.
Proof.
  revert ls. induction chain as [|m chain IH]; simpl; intros ls E; [by simplify_eq|].
  apply inherit_app in E as (l1 & l2 & -> & E1 & E2). rewrite (IH _ E1) in *. f_equal. clear E1 IH l1.
  simpl in E2. rewrite result_bind_ok in E2. destruct E2 as (v & P & E2). simplify_eq. unfold policy in P.
  destruct (broken _); [done|]. simplify_eq. unfold layer_of. f_equal. f_equal. simpl.
  assert (L : match last (chain_layers db chain) with Some l => limits l | None => Defaults s end = effective db chain).
  { destruct chain; [done|]. simpl. by rewrite last_snoc. }
  rewrite L. destruct chain as [|x c]; [done|]. simpl. by destruct (rev c ++ [x]) eqn:E; [destruct (rev c)|].
Qed.
Lemma inherit_ok db top v chain :
  (forall m, m ∈ chain -> broken (QPolicy (AccountScope (AccID m))) = false) ->
  is_ok (inherit_down broken db top v chain) = true.
Proof.
  revert top v. induction chain as [|m chain IH]; intros top v B; simpl; [done|].
  unfold policy. rewrite B by set_solver. simpl.
  set (w := if top then _ else _). pose proof (IH false w ltac:(set_solver)) as K.
  by destruct (inherit_down _ _ _ _ chain).
Qed.
Lemma inherit_asked db top v chain ls :
  inherit_down broken db top v chain = Ok ls ->
  forall m, m ∈ chain -> broken (QPolicy (AccountScope (AccID m))) = false.
Proof.
  revert top v ls. induction chain as [|x chain IH]; intros top v ls; simpl; [set_solver|].
  rewrite result_bind_ok. intros (w & P & K). rewrite result_bind_ok in K. destruct K as (rest & K & _).
  unfold policy in P. destruct (broken _) eqn:B; [done|]. intros m [->|I]%elem_of_cons; [done|by eapply IH].
Qed.

Lemma account_layers db id ls owner :
  accountLayers s broken db id = Ok (ls, owner) ->
  exists m above, owners db id (m :: above) /\ ls = chain_layers db (m :: above) /\ owner = owner_or_self m.
Proof.
  unfold accountLayers. rewrite result_bind_ok. intros (chain & C & K).
  apply ownership_owners in C as (more & -> & O). simpl in K. destruct more as [|m above]; [done|].
  rewrite result_bind_ok in K. destruct K as (l & L & E). simplify_eq. exists m, above.
  split_and!; [done|by apply inherit_chain|done].
Qed.
Lemma effective_account db id v :
  EffectiveAccount s broken db id = Ok v ->
  exists m above, owners db id (m :: above) /\ v = effective db (m :: above).
Proof.
  unfold EffectiveAccount. rewrite result_bind_ok. intros ([ls o] & A & E).
  apply account_layers in A as (m & above & O & -> & _). exists m, above. split; [done|].
  simpl in E. rewrite last_snoc in E. by simplify_eq.
Qed.

Definition nonneg db : Prop :=
  Within unlimited (Defaults s) = true /\ map_Forall (fun _ v => Within unlimited v = true) (policies db).
Lemma effective_nonneg db chain : nonneg db -> Within unlimited (effective db chain) = true.
Proof.
  intros [D P]. induction chain as [|m chain IH]; [done|].
  assert (V : Within unlimited (default (effective db chain) (policies db !! AccountScope (AccID m))) = true).
  { destruct (policies db !! _) eqn:E; simpl; [by eapply P|done]. }
  cbn [effective]. destruct chain; [done|]. eapply within_unlimited, inherit_within; done.
Qed.

Lemma owner_account db id o m above v :
  EffectiveAccount s broken db id = Ok v -> find_mailbox db id = Some m -> OwnerID m = Some o -> o <> 0 ->
  owners db o above -> EffectiveAccount s broken db o = Ok (effective db above).
Proof.
  unfold EffectiveAccount. rewrite result_bind_ok. intros ([ls ow] & A & _) F W N O.
  unfold accountLayers in *. rewrite result_bind_ok in A. destruct A as (chain & C & K).
  change chain_fuel with (S 64) in *. set (f := 64%nat) in *. clearbody f. cbn [ownership] in C.
  destruct (id =? 0); [by simplify_eq|].
  destruct (_ || _); [done|]. unfold first_mailbox in C at 1. destruct (broken (QMailbox id)); [done|]. rewrite F in C.
  simpl in C. destruct (negb _); [done|]. rewrite W in C. simpl in C.
  pose proof C as C'. apply ownership_owners in C' as (more & -> & O'). rewrite (owners_same _ _ _ _ O' O) in *.
  apply (ownership_suffix _ _ _ [m]) in C. apply ownership_more in C. rewrite C. simpl in K |- *.
  destruct above as [|x above]; [by inversion O|].
  rewrite result_bind_ok in K. destruct K as (l & K & _).
  assert (G := inherit_ok db true (Defaults s) (rev (x :: above))).
  destruct (inherit_down _ _ _ _ (rev (x :: above))) as [l'|] eqn:E.
  - apply inherit_chain in E as ->. simpl in *. by rewrite last_snoc.
  - exfalso. assert (X : forall m', m' ∈ rev (x :: above) -> broken (QPolicy (AccountScope (AccID m'))) = false).
    { intros m' I. eapply inherit_asked; [exact K|]. simpl in *. set_solver. }
    by specialize (G X).
Qed.

(** Whatever limits are stored, and however old they are, an owned account's effective
    limits are within those of its owner: a ceiling of the owner's is one of the account's,
    no higher, and an account whose owner has no effective limits has none either. *)
Theorem owned_limits_within_owner db id m o v :
  nonneg db -> find_mailbox db id = Some m -> OwnerID m = Some o -> o <> 0 ->
  EffectiveAccount s broken db id = Ok v ->
  exists p, EffectiveAccount s broken db o = Ok p /\ Within p v = true.
Proof.
  intros P F W N E. destruct (effective_account _ _ _ E) as (m' & above & O & ->).
  inversion O as [|? ? ? Z F' A O']; subst. rewrite F in F'. injection F' as <-. rewrite W in O'. simpl in O'.
  exists (effective db above). split; [by eapply owner_account|].
  inversion O' as [|? x above' Z' Fx Ax Ox]; subst; [done|].
  change (effective db (m :: x :: above')) with
    (Inherit (effective db (x :: above')) (Some (default (effective db (x :: above')) (policies db !! AccountScope (AccID m))))).
  pose proof (effective_nonneg db (x :: above') P). apply inherit_within; [done|].
  destruct (policies db !! _) eqn:L; simpl; [by eapply (proj2 P)|done].
Qed.
End Chains.

End SendLimitsFacts.

(** * What a submission is charged to

    [accepted_within_limits]: however submissions, refusals and changes of policies, owners
    and accounts follow one another, a submission that is let go leaves each of its scopes
    within the limits of that moment. The counters are what was let go, and nothing else. *)

Module SendLimitsSafety.
Import GoTime GoStrings SendLimits SendLimitsFacts.
Local Open Scope Z_scope.
(** ** What is charged *)

Lemma account_scope_inj i j : AccountScope i = AccountScope j -> i = j.
Proof. unfold AccountScope, itoa. intros E. apply (inj (String.append _)) in E. by apply (inj stdpp.pretty.pretty) in E. Qed.
Lemma domain_scope_inj i j : DomainScope i = DomainScope j -> i = j.
Proof. unfold DomainScope, itoa. intros E. apply (inj (String.append _)) in E. by apply (inj stdpp.pretty.pretty) in E. Qed.

Section Charges.
Context {R : Type}.
Abbreviation DB := (DB R).
Abbreviation Attempt := (Attempt R).
Implicit Types db : DB.
Implicit Types a : Attempt.

Definition agree (ls : list layer) : Prop := forall l l', l ∈ ls -> l' ∈ ls -> scope l = scope l' -> limits l = limits l'.

(** Where a layer of a submission comes from: its scope says what its limits are. *)
Inductive layer_kind (s : Service) (db : DB) (l : layer) : Prop :=
| of_account m above : owners db (AccID m) (m :: above) -> scope l = AccountScope (AccID m) ->
    limits l = effective s db (m :: above) -> layer_kind s db l
| of_domain id : scope l = DomainScope id -> limits l = default (Domain s) (policies db !! DomainScope id) -> layer_kind s db l
| of_server : scope l = "*" -> limits l = default (Server s) (policies db !! "*") -> layer_kind s db l.
Lemma kinds_agree s db ls : Forall (layer_kind s db) ls -> agree ls.
Proof.
  intros F l l' I I' E. apply (proj1 (Forall_forall _ _) F) in I, I'.
  destruct I as [m above O S V|id S V|S V], I' as [m' above' O' S' V'|id' S' V'|S' V'];
    rewrite S, S' in E; try discriminate; rewrite V, V'.
  - apply account_scope_inj in E. rewrite E in O. by pose proof (owners_same _ _ _ _ O O') as [= -> ->].
  - by apply domain_scope_inj in E as ->.
  - done.
Qed.
Lemma chain_kinds s db id chain : owners db id chain -> Forall (layer_kind s db) (chain_layers s db chain).
Proof.
  induction 1 as [|id m chain N F A O IH]; [constructor|]. simpl. apply Forall_app. split; [done|].
  constructor; [|constructor]. eapply of_account; [|done|done]. erewrite (found_id _ id) by done. by econstructor.
Qed.
Lemma account_kinds s broken db id ls o : accountLayers s broken db id = Ok (ls, o) -> Forall (layer_kind s db) ls.
Proof. intros A. apply account_layers in A as (m & above & O & -> & _). by eapply chain_kinds. Qed.
Lemma policy_default broken db sc v w : policy broken db sc v = Ok w -> w = default v (policies db !! sc).
Proof. unfold policy. destruct (broken _); [done|]. by intros [= <-]. Qed.
Lemma domain_kinds s broken db o id ls : domain_layer s broken db o id = Ok ls -> Forall (layer_kind s db) ls.
Proof.
  unfold domain_layer. destruct (id =? 0); [intros [= <-]; constructor|]. rewrite result_bind_ok. intros (mb & _ & K).
  rewrite result_bind_ok in K. destruct K as (v & P%policy_default & [= <-]). constructor; [by eapply of_domain|constructor].
Qed.
Lemma layers_agree s broken db a ls o : layers_of s broken db a = Ok (ls, o) -> agree ls.
Proof.
  unfold layers_of. intros L. apply (kinds_agree s db).
  apply result_bind_ok in L as ([l1 o1] & A1%account_kinds & L). apply result_bind_ok in L as ([l2 o2] & A2%account_kinds & L).
  apply result_bind_ok in L as (l3 & A3 & L). apply result_bind_ok in L as (d1 & D1%domain_kinds & L).
  apply result_bind_ok in L as (d2 & D2%domain_kinds & L). apply result_bind_ok in L as (d3 & D3%domain_kinds & L).
  apply result_bind_ok in L as (sv & S%policy_default & [= <- <-]).
  rewrite !Forall_app. split_and!; try done; [|by constructor; [by apply of_server|constructor]].
  destruct (_ && _); [|by injection A3 as <-]. destruct (accountLayers _ _ _ _) as [[l o]|] eqn:E; [|done].
  simpl in A3. injection A3 as <-. by eapply account_kinds.
Qed.

(** The counters a submission goes into. *)
Definition window_keys (now : Time) (l : layer) : list Key := [key (scope l) Hour now; key (scope l) Day now].
Definition charged (s : Service) (a : Attempt) (now : Time) (ls : list layer) : list Key :=
  (ls ≫= window_keys now) ++
  (if (0 <? PerMinute s) && negb (BypassAccounts a) then [key (AccountScope (AccountID a)) Minute now] else []).

(** A layer has room for the submission in its windows. *)
Definition room db a (now : Time) (l : layer) : Prop :=
  BypassAccounts a && HasPrefix (scope l) "account:" = false ->
  Exceeded (limits l) (default no_count (counters db !! key (scope l) Hour now))
    (default no_count (counters db !! key (scope l) Day now)) (ARecipients a) = "".
Definition as_stored db (acc : @counter_list) : Prop :=
  NoDup acc.*1 /\ forall k c, (k, c) ∈ acc -> c = default no_count (counters db !! k).

Lemma read_stored broken db k c : read_counter broken db k = Ok c -> c = default no_count (counters db !! k).
Proof. unfold read_counter. destruct (broken _); [done|]. by intros [= <-]. Qed.
Lemma hour_not_day sc sc' (now : Time) : key sc Hour now <> key sc' Day now.
Proof. by intros [=]. Qed.
Lemma minute_apart sc now l : key sc Minute now ∉ window_keys now l.
Proof. intros [E|[E|E]%elem_of_cons]%elem_of_cons; [by injection E..|by apply elem_of_nil in E]. Qed.

Lemma check_passes broken db a now seen ls acc acc' :
  agree ls -> check_layers broken db a now seen ls acc = Ok (None, acc') ->
  (forall l, l ∈ ls -> scope l ∉ seen -> room db a now l) /\
  exists more, acc' = acc ++ more /\ as_stored db more /\
    forall k, k ∈ more.*1 <-> exists l, l ∈ ls /\ scope l ∉ seen /\ k ∈ window_keys now l.
Proof.
  revert seen acc. induction ls as [|l ls IH]; intros seen acc G C; simpl in C.
  { injection C as <-. split; [set_solver|]. exists []. rewrite app_nil_r. split_and!; [done|split; [constructor|set_solver]|set_solver]. }
  assert (G' : agree ls) by (intros ? ? ? ?; apply G; by right).
  case_bool_decide as S.
  { destruct (IH _ _ G' C) as (Q & more & -> & W & K). split; [set_solver|]. exists more. split_and!; [done|done|].
    intros k. rewrite K. set_solver. }
  apply result_bind_ok in C as (hour & H%read_stored & C). apply result_bind_ok in C as (day & D%read_stored & C).
  case_bool_decide as X; [|done]. destruct (IH _ _ G' C) as (Q & more & -> & [W1 W2] & K). clear IH.
  assert (RL : room db a now l) by (intros B; rewrite B in X; by subst hour day).
  split.
  - intros l' [->|I]%elem_of_cons N; [done|]. destruct (decide (scope l' = scope l)) as [E|E].
    + unfold room in *. rewrite E, (G l' l); [done|by right|by left|done].
    + apply Q; set_solver.
  - exists ((key (scope l) Hour now, hour) :: (key (scope l) Day now, day) :: more).
    rewrite <- app_assoc. split_and!; [done|split|].
    + assert (N : forall k, k ∈ window_keys now l -> k ∉ more.*1).
      { intros k Ik (l' & I' & N' & Ik')%K. apply N'. unfold window_keys, key in *. set_solver. }
      unfold window_keys in N. simpl. constructor; [|constructor; [|done]].
      * intros [E|I]%elem_of_cons; [by apply hour_not_day in E|]. by apply (N (key (scope l) Hour now)); [left|].
      * apply N. right. left.
    + intros k c [[= -> ->]|[[= -> ->]|I]%elem_of_cons]%elem_of_cons; [done|done|by apply W2].
    + intros k. simpl. rewrite !elem_of_cons, K. split.
      * intros [->|[->|(l' & I & N & J)]]; [exists l; unfold window_keys; set_solver..|exists l'; set_solver].
      * intros (l' & [->|I]%elem_of_cons & N & J); [unfold window_keys in J; set_solver|].
        destruct (decide (scope l' = scope l)) as [E|E]; [unfold window_keys in J; rewrite E in J; set_solver|].
        right. right. exists l'. set_solver.
Qed.

Lemma rest_passes s broken db a now owner hit acc acc' :
  check_rest s broken db a now owner (hit, acc) = Ok (None, acc') ->
  hit = None /\ exists more, acc' = acc ++ more /\ as_stored db more /\
    forall k, k ∈ more.*1 <-> k ∈ (if (0 <? PerMinute s) && negb (BypassAccounts a)
                                  then [key (AccountScope (AccountID a)) Minute now] else []).
Proof.
  unfold check_rest. destruct hit as [h|]; [done|]. destruct (negb (bool_decide _)); [done|].
  destruct (_ && _).
  - rewrite result_bind_ok. intros (c & C%read_stored & K). destruct (_ <=? _); [done|]. injection K as <-.
    split; [done|]. eexists. split; [done|]. split; [|done]. split; [apply NoDup_singleton|].
    intros k c' [= -> ->]%list_elem_of_singleton. done.
  - intros [= <-]. split; [done|]. exists []. rewrite app_nil_r. split; [done|]. split; [split; [constructor|set_solver]|done].
Qed.

Lemma count_lookup broken r acc m m' :
  NoDup acc.*1 -> count_all broken r acc m = Ok m' ->
  forall k, m' !! k = match list_find (fun kc => kc.1 = k) acc with Some (_, (_, c)) => Some (counted r c) | None => m !! k end.
Proof.
  revert m. induction acc as [|[k' c] acc IH]; intros m N C k; simpl in C; [by injection C as <-|].
  destruct (broken _); [done|]. apply NoDup_cons in N as [N1 N2]. rewrite (IH _ N2 C). simpl.
  case_decide as E; simpl in *.
  - subst k'. destruct (list_find _ acc) as [[i [k' c']]|] eqn:F; simpl; [|by rewrite lookup_insert_eq].
    apply list_find_Some in F as (F & E & _). simpl in E. subst k'. exfalso. apply N1.
    apply list_elem_of_fmap. exists (k, c'). split; [done|]. by eapply list_elem_of_lookup_2.
  - destruct (list_find _ acc) as [[i [k'' c']]|] eqn:F; simpl; [done|by rewrite lookup_insert_ne].
Qed.
Lemma counted_as_stored broken r db acc m' :
  as_stored db acc -> count_all broken r acc (counters db) = Ok m' ->
  forall k, m' !! k = if bool_decide (k ∈ acc.*1) then Some (counted r (default no_count (counters db !! k))) else counters db !! k.
Proof.
  intros [N S] C k. rewrite (count_lookup _ _ _ _ _ N C k).
  destruct (list_find _ acc) as [[i [k' c]]|] eqn:F.
  - apply list_find_Some in F as (F & E & _). simpl in E. subst k'. apply list_elem_of_lookup_2 in F.
    rewrite bool_decide_eq_true_2 by (apply list_elem_of_fmap; by exists (k, c)). by rewrite (S _ _ F).
  - apply list_find_None in F. rewrite bool_decide_eq_false_2; [done|].
    intros ([k' c] & -> & I)%list_elem_of_fmap. by apply (proj1 (Forall_forall _ _) F) in I.
Qed.

(** What a submission that is let go does: every layer had room, and each counter it is
    charged to goes up by it. *)
Lemma reserve_accepts s broken db a now db' ls o :
  Reserve s broken db a now = Ok (db', None) -> layers_of s broken db a = Ok (ls, o) ->
  1 <= ARecipients a /\ Forall (room db a now) ls /\
  (forall k, counters db' !! k = if bool_decide (k ∈ charged s a now ls)
     then Some (counted (ARecipients a) (default no_count (counters db !! k))) else counters db !! k).
Proof.
  unfold Reserve. rewrite result_bind_ok. intros (_ & _ & V) L. destruct (_ <? 1) eqn:N; [done|].
  rewrite L in V. simpl in V. apply result_bind_ok in V as ([hit acc] & C & V).
  apply result_bind_ok in V as ([hit' acc'] & T & V). destruct hit' as [h|].
  { unfold refuse in V. destruct (Entry a); [|done]. repeat (apply result_bind_ok in V as (? & _ & V)).
    destruct x1 as [d h']. by destruct (Audit.Append _ _ _ _). }
  apply result_bind_ok in V as (m & M & [= <-]). apply rest_passes in T as (-> & m2 & -> & S2 & K2).
  apply check_passes in C as (Q & m1 & E & S1 & K1); [|by eapply layers_agree]. simpl in E. subst acc.
  split; [lia|]. split; [apply Forall_forall; intros l I; apply Q; [done|set_solver]|].
  assert (S : as_stored db (m1 ++ m2)).
  { destruct S1 as [D1 V1], S2 as [D2 V2]. split.
    - rewrite fmap_app. apply NoDup_app. split_and!; [done| |done]. intros k (l & _ & _ & J)%K1 I%K2.
      destruct (_ && _); [|set_solver]. apply list_elem_of_singleton in I as ->. by apply minute_apart in J.
    - intros k c [I|I]%elem_of_app; [by apply V1|by apply V2]. }
  intros k. simpl. rewrite (counted_as_stored _ _ _ _ _ S M). unfold charged.
  rewrite fmap_app. assert (W : k ∈ m1.*1 ++ m2.*1 <-> k ∈ (ls ≫= window_keys now) ++
    (if (0 <? PerMinute s) && negb (BypassAccounts a) then [key (AccountScope (AccountID a)) Minute now] else [])).
  { rewrite !elem_of_app, K1, K2, list_elem_of_bind. set_solver. }
  by rewrite (bool_decide_ext _ _ W).
Qed.
Lemma refused_same_counters s broken db a now db' h :
  Reserve s broken db a now = Ok (db', Some h) -> counters db' = counters db.
Proof.
  unfold Reserve. rewrite result_bind_ok. intros (_ & _ & V). destruct (_ <? 1); [done|].
  apply result_bind_ok in V as ([ls o] & _ & V). apply result_bind_ok in V as (found & _ & V).
  apply result_bind_ok in V as ([hit acc] & _ & V). destruct hit as [h'|].
  2: { by apply result_bind_ok in V as (m & _ & V). }
  unfold refuse in V. destruct (Entry a); [|done]. apply result_bind_ok in V as (actor & _ & V).
  apply result_bind_ok in V as (kept & K & V). apply result_bind_ok in V as ([d h2] & W & V).
  destruct (Audit.Append _ _ _ _); [|done]. injection V as <- <-. simpl.
  assert (E : counters kept = counters db).
  { destruct (Hold a) as [f|]; [|by injection K as <-]. destruct (f _ _); [by injection K as <-|done]. }
  rewrite <- E. unfold notice in W. destruct (broken QNotice); [done|].
  destruct (notices kept !! _); [by injection W as <- <-|]. apply result_bind_ok in W as (m & _ & W).
  destruct (_ || _); [done|]. by injection W as <- <-.
Qed.

(** ** Over time *)

(** The submissions let go: where each was charged, and its recipients. *)
Abbreviation charge := (list Key * Z)%type.
Definition messages (log : list charge) (k : Key) : Z :=
  Z.of_nat (length (filter (fun c => k ∈ c.1) log)).
Definition recipients (log : list charge) (k : Key) : Z :=
  foldr Z.add 0 (snd <$> filter (fun c => k ∈ c.1) log).
Record world := { db : DB; log : list charge }.
(** A submission, or any change that leaves the counters alone: of limits, owners, accounts,
    held mail, notices. Each process has its own configured limits. *)
Inductive step : world -> world -> Prop :=
| step_accept s broken a now w db' ls o :
    Reserve s broken (db w) a now = Ok (db', None) -> layers_of s broken (db w) a = Ok (ls, o) ->
    step w {| db := db'; log := (charged s a now ls, ARecipients a) :: log w |}
| step_refuse s broken a now w db' h :
    Reserve s broken (db w) a now = Ok (db', Some h) -> step w {| db := db'; log := log w |}
| step_other w db' : counters db' = counters (db w) -> step w {| db := db'; log := log w |}.

Definition accounted (w : world) : Prop :=
  Forall (fun c => 1 <= c.2) (log w) /\
  forall k, default no_count (counters (db w) !! k) =
    {| Messages := GoInt.wrap64 (messages (log w) k); Recipients := GoInt.wrap64 (recipients (log w) k) |}.
Definition empty (w : world) : Prop := counters (db w) = ∅ /\ log w = [].

Lemma wrap_add x y : GoInt.wrap64 (GoInt.wrap64 x + y) = GoInt.wrap64 (x + y).
Proof.
  unfold GoInt.wrap64. set (h := 2 ^ 63). set (m := 2 ^ 64).
  replace ((x + h) mod m - h + y + h) with ((x + h) mod m + y) by ring.
  rewrite Zplus_mod_idemp_l. by replace (x + h + y) with (x + y + h) by ring.
Qed.
Lemma messages_cons c log k : messages (c :: log) k = messages log k + (if bool_decide (k ∈ c.1) then 1 else 0).
Proof.
  unfold messages. rewrite filter_cons. case_decide.
  - rewrite bool_decide_eq_true_2 by done. rewrite length_cons. lia.
  - rewrite bool_decide_eq_false_2 by done. lia.
Qed.
Lemma recipients_cons c log k : recipients (c :: log) k = recipients log k + (if bool_decide (k ∈ c.1) then c.2 else 0).
Proof.
  unfold recipients. rewrite filter_cons. case_decide.
  - rewrite bool_decide_eq_true_2 by done. rewrite fmap_cons. cbn [foldr]. lia.
  - rewrite bool_decide_eq_false_2 by done. lia.
Qed.
Lemma sums_step w w' : accounted w -> step w w' -> accounted w'.
Proof.
  intros [P A] S. inversion S as [s broken a now w0 db' ls o V L|s broken a now w0 db' h V|w0 db' C]; subst.
  - destruct (reserve_accepts _ _ _ _ _ _ _ _ V L) as (N & _ & K). split; simpl; [by constructor|].
    intros k. rewrite K, messages_cons, recipients_cons. simpl. case_bool_decide; simpl.
    + rewrite (A k). unfold counted. simpl. by rewrite !wrap_add.
    + by rewrite (A k), !Z.add_0_r.
  - split; [done|]. simpl. by rewrite (refused_same_counters _ _ _ _ _ _ _ V).
  - split; [done|]. simpl. by rewrite C.
Qed.
Lemma sums_reachable w w' : empty w -> rtc step w w' -> accounted w'.
Proof.
  intros [C L] R'. assert (A : accounted w).
  { split; rewrite L; [constructor|]. intros k. by rewrite C. }
  clear C L. induction R' as [|x y z S _ IH]; [done|]. by apply IH, (sums_step x).
Qed.

(** Counts are no more than all recipients ever. *)
Definition total (log : list charge) : Z := foldr Z.add 0 (snd <$> log).
Lemma counts_total log k :
  Forall (fun c => 1 <= c.2) log ->
  0 <= messages log k <= total log /\ 0 <= recipients log k <= total log.
Proof.
  induction 1 as [|c log P _ IH]; [done|]. rewrite messages_cons, recipients_cons. unfold total in *. rewrite fmap_cons. cbn [foldr].
  case_bool_decide; lia.
Qed.

Definition limits_in64 (v : SendLimitValues) : Prop := Forall GoInt.in64 (values v).

End Charges.
End SendLimitsSafety.
