(* ===== verification/StorageQuota.v ===== *)
(** * Storage quotas: internal/db/repositories/storage_quota.go

    A mailbox's quota and those of all its owners bound what it stores, and what an owned
    mailbox stores counts against its owners. [ReserveStorage] reads the chain of owners,
    takes their rows' locks from the top down, reads them again, and charges the mailbox when
    every quota above has room: [before] is the table the chain was first read from, [t] the
    one found once the rows are locked, which no other reservation under the same owners
    changes until this one commits. *)

From S2P Require Import Prelude GoTime.
Local Open Scope Z_scope.

Module StorageQuota.

Record Mailbox := { ID : Z; OwnerID : option Z; QuotaBytes : Z; QuotaUsedBytes : Z }.
Abbreviation Table := (list Mailbox).
Inductive quota_error := Cyclic | NotFound | OwnershipChanged | DbFailed | NegativeCharge | ErrStorageQuota | OutOfFuel.
Inductive stmt := QMailbox (id : Z) | QLocked (id : Z) | QUsed (id : Z) | QCharge.

Definition row (t : Table) (id : Z) : option Mailbox := List.find (fun m => ID m =? id) t.

Section Calls.
Context (broken : stmt -> bool).

Definition first (q : stmt) (t : Table) (id : Z) : result quota_error Mailbox :=
  if broken q then Err DbFailed else match row t id with Some m => Ok m | None => Err NotFound end.
(** The mailbox and its owners; the loop meets each row of the table once at most
    ([chain_total]). *)
Fixpoint owners (fuel : nat) (t : Table) (id : Z) (seen : list Z) : result quota_error (list Mailbox) :=
  if bool_decide (id ∈ seen) then Err Cyclic
  else match fuel with
       | O => Err OutOfFuel
       | S fuel =>
           mb ← first (QMailbox id) t id;
           match OwnerID mb with
           | None => Ok [mb]
           | Some o => rest ← owners fuel t o (id :: seen); Ok (mb :: rest)
           end
       end.
(** The rows again, locked from the last owner down. *)
Fixpoint locked (t : Table) (chain : list Mailbox) : result quota_error (list Mailbox) :=
  match chain with
  | [] => Ok []
  | m :: above =>
      above ← locked t above;
      mb ← first (QLocked (ID m)) t (ID m);
      if bool_decide (OwnerID mb = OwnerID m) then Ok (mb :: above) else Err OwnershipChanged
  end.
Definition StorageQuotaChain (before : Table) (id : Z) (lock : option Table) : result quota_error (list Mailbox) :=
  chain ← owners (S (length before)) before id [];
  match lock with Some t => locked t chain | None => Ok chain end.

Definition StorageQuotaCeiling (chain : list Mailbox) : Z :=
  foldl (fun ceiling mb =>
    if (0 <? QuotaBytes mb) && ((ceiling =? 0) || (QuotaBytes mb <? ceiling)) then QuotaBytes mb else ceiling) 0 chain.

(** The recursive query: an account and all those below it, whose rows it joins until no
    new one comes in; there are no more rounds than rows. *)
Definition owned_by (s : gset Z) (m : Mailbox) : bool :=
  match OwnerID m with Some o => bool_decide (o ∈ s) | None => false end.
Definition round (t : Table) (s : gset Z) : gset Z := s ∪ list_to_set (ID <$> List.filter (owned_by s) t).
Definition owned (t : Table) (id : Z) : gset Z :=
  Nat.iter (length t) (round t) (list_to_set (ID <$> List.filter (fun m => ID m =? id) t)).
Definition used (t : Table) (id : Z) : Z :=
  foldr Z.add 0 (QuotaUsedBytes <$> List.filter (fun m => bool_decide (ID m ∈ owned t id)) t).
Definition fits64 (z : Z) : bool := (GoInt.min_int64 <=? z) && (z <=? GoInt.max_int64).

Fixpoint remaining (t : Table) (left : Z) (chain : list Mailbox) : result quota_error Z :=
  match chain with
  | [] => Ok left
  | mb :: chain =>
      if QuotaBytes mb <=? 0 then remaining t left chain
      else if broken (QUsed (ID mb)) || negb (fits64 (used t (ID mb))) then Err DbFailed
      else
        let l := GoInt.wrap64 (QuotaBytes mb - used t (ID mb)) in
        remaining t (if l <? left then l else left) chain
  end.
Definition StorageRemaining (t : Table) (chain : list Mailbox) : result quota_error Z :=
  remaining t GoInt.max_int64 chain.

Definition charge (id cost : Z) (m : Mailbox) : Mailbox :=
  if ID m =? id then {| ID := ID m; OwnerID := OwnerID m; QuotaBytes := QuotaBytes m; QuotaUsedBytes := QuotaUsedBytes m + cost |}
  else m.
Definition ReserveStorage (before t : Table) (id cost : Z) : result quota_error Table :=
  if cost <? 0 then Err NegativeCharge
  else
    chain ← StorageQuotaChain before id (Some t);
    left ← StorageRemaining t chain;
    if left <? cost then Err ErrStorageQuota
    else if broken QCharge || negb (forallb (fun m => fits64 (QuotaUsedBytes m)) (charge id cost <$> t)) then Err DbFailed
    else Ok (charge id cost <$> t).
End Calls.

(** ** The chain ends *)

Implicit Types t : Table.

Lemma row_some t id m : row t id = Some m -> m ∈ t /\ ID m = id.
Proof. intros F. apply find_some in F as [I E]. split; [by apply list_elem_of_In|lia]. Qed.
Lemma owners_fuel broken fuel t id seen :
  NoDup seen -> (forall i, i ∈ seen -> i ∈ ID <$> t) -> (length t < fuel + length seen)%nat ->
  owners broken fuel t id seen <> Err OutOfFuel.
Proof.
  revert id seen. induction fuel as [|fuel IH]; intros id seen N S L; simpl; (case_bool_decide as E; [done|]).
  - exfalso. assert (K : (length seen <= length (ID <$> t))%nat) by (by apply submseteq_length, NoDup_submseteq).
    rewrite length_fmap in K. lia.
  - unfold first. destruct (broken _); [done|]. destruct (row t id) as [m|] eqn:F; [|done]. simpl.
    apply row_some in F as [I <-]. destruct (OwnerID m) as [o|]; [|done].
    pose proof (IH o (ID m :: seen)) as K. destruct (owners _ _ _ _ _) as [c|e]; [done|]. simpl. intros [= ->].
    apply K; [by constructor| |simpl; lia|done]. intros i [->|J]%elem_of_cons; [|by apply S].
    apply list_elem_of_fmap. by exists m.
Qed.
Lemma chain_total broken before id lock : StorageQuotaChain broken before id lock <> Err OutOfFuel.
Proof.
  unfold StorageQuotaChain. pose proof (owners_fuel broken (S (length before)) before id []) as K.
  destruct (owners _ _ _ _ _) as [c|e]; simpl in *.
  - destruct lock as [t|]; [|done]. clear K. induction c as [|m c IH]; [done|]. simpl.
    destruct (locked broken t c) as [l|e]; [|simpl in *; congruence]. simpl. unfold first.
    destruct (broken _); [done|]. destruct (row _ _); [|done]. simpl. by case_bool_decide.
  - intros [= ->]. apply K; [constructor|set_solver|lia|done].
Qed.

Lemma owners_errors broken fuel t id seen e : owners broken fuel t id seen = Err e -> e <> ErrStorageQuota.
Proof.
  revert id seen. induction fuel as [|fuel IH]; intros id seen; simpl; (case_bool_decide; [by intros [= <-]|]).
  { by intros [= <-]. }
  unfold first. destruct (broken _); [by intros [= <-]|]. destruct (row t id) as [m|]; [|by intros [= <-]]. simpl.
  destruct (OwnerID m) as [o|]; [|done]. destruct (owners _ _ _ _ _) eqn:O; [done|]. intros [= <-]. by eapply IH.
Qed.
Lemma locked_errors broken t c e : locked broken t c = Err e -> e <> ErrStorageQuota.
Proof.
  induction c as [|m c IH]; simpl; [done|]. destruct (locked broken t c) as [l|e']; simpl.
  - unfold first. destruct (broken _); [by intros [= <-]|]. destruct (row _ _); [|by intros [= <-]]. simpl.
    case_bool_decide; [done|by intros [= <-]].
  - intros [= <-]. by apply IH.
Qed.
Lemma remaining_errors broken t left c e : remaining broken t left c = Err e -> e = DbFailed.
Proof.
  revert left. induction c as [|m c IH]; intros left; simpl; [done|]. destruct (_ <=? 0); [apply IH|].
  destruct (_ || _); [by intros [= <-]|apply IH].
Qed.

(** ** Quotas hold *)

(** A chain of owners in the table. *)
Inductive chain_of (t : Table) : Z -> list Mailbox -> Prop :=
| chain_top m : m ∈ t -> OwnerID m = None -> chain_of t (ID m) [m]
| chain_up m o above : m ∈ t -> OwnerID m = Some o -> chain_of t o above -> chain_of t (ID m) (m :: above).
Definition within_quotas (t : Table) : Prop := forall m, m ∈ t -> 0 < QuotaBytes m -> used t (ID m) <= QuotaBytes m.
Definition same_row (t : Table) : Prop := forall m m', m ∈ t -> m' ∈ t -> ID m = ID m' -> m = m'.

Lemma nodup_same t : NoDup (ID <$> t) -> same_row t.
Proof.
  intros N m m' I I' E. induction t as [|x t IH]; [by apply elem_of_nil in I|].
  rewrite fmap_cons in N. apply NoDup_cons in N as [N1 N2].
  apply elem_of_cons in I as [->|I]; apply elem_of_cons in I' as [->|I']; [done|..|by apply IH];
    exfalso; apply N1, list_elem_of_fmap; [by exists m'|by exists m].
Qed.
Lemma owners_head broken fuel t id seen c : owners broken fuel t id seen = Ok c -> exists m above, c = m :: above /\ ID m = id.
Proof.
  destruct fuel as [|fuel]; simpl; (case_bool_decide; [done|]); [done|]. unfold first. destruct (broken _); [done|].
  destruct (row t id) as [m|] eqn:F; [|done]. apply row_some in F as [_ E]. simpl. destruct (OwnerID m) as [o|].
  - destruct (owners _ _ _ _ _) as [above|]; [|done]. intros [= <-]. by exists m, above.
  - intros [= <-]. by exists m, [].
Qed.
Lemma locked_chain broken fuel before t id seen c l :
  owners broken fuel before id seen = Ok c -> locked broken t c = Ok l -> chain_of t id l.
Proof.
  revert id seen c l. induction fuel as [|fuel IH]; intros id seen c l; simpl; (case_bool_decide; [done|]); [done|].
  unfold first at 1. destruct (broken _); [done|]. destruct (row before id) as [m|] eqn:F; [|done].
  apply row_some in F as [_ <-]. simpl. destruct (OwnerID m) as [o|] eqn:O.
  - destruct (owners _ fuel _ _ _) as [above|] eqn:A; [|done]. intros [= <-]. simpl.
    destruct (locked broken t above) as [l'|] eqn:L; [|done]. simpl. unfold first. destruct (broken _); [done|].
    destruct (row t (ID m)) as [mb|] eqn:R; [|done]. simpl. case_bool_decide as E; [|done]. intros [= <-].
    apply row_some in R as [I J]. rewrite <- J. eapply chain_up; [done|by rewrite E, O|by eapply IH].
  - intros [= <-]. simpl. unfold first. destruct (broken _); [done|].
    destruct (row t (ID m)) as [mb|] eqn:R; [|done]. simpl. case_bool_decide as E; [|done]. intros [= <-].
    apply row_some in R as [I J]. rewrite <- J. apply chain_top; [done|by rewrite E, O].
Qed.

(** An account is below those of its chain only. *)
Lemma chain_closed t id c i m o :
  same_row t -> chain_of t id c -> i ∈ ID <$> c -> m ∈ t -> ID m = i -> OwnerID m = Some o -> o ∈ ID <$> c.
Proof.
  intros S C. revert i m o. induction C as [x I O|x o' above I O C IH]; intros i m o J M E W; rewrite fmap_cons in *.
  - apply list_elem_of_singleton in J. rewrite (S m x) in W by (try done; by rewrite E). congruence.
  - apply elem_of_cons in J as [->|J]; [|right; by eapply IH].
    rewrite (S m x) in W by done. assert (o = o') as -> by congruence. right. inversion C; subst; by left.
Qed.
Lemma owned_above t a id c : same_row t -> chain_of t id c -> id ∈ owned t a -> a ∈ ID <$> c.
Proof.
  intros S C. unfold owned. assert (K : forall i, i ∈ ID <$> c -> forall n,
    i ∈ Nat.iter n (round t) (list_to_set (ID <$> List.filter (fun m => ID m =? a) t)) -> a ∈ ID <$> c).
  2: { apply K. destruct C; rewrite fmap_cons; by left. }
  intros i I n. revert i I. induction n as [|n IH]; intros i I; simpl.
  - intros (m & -> & J)%elem_of_list_to_set%list_elem_of_fmap. apply list_elem_of_In, filter_In in J as [J E].
    apply Z.eqb_eq in E. by rewrite <- E.
  - unfold round at 1. intros [J|J]%elem_of_union; [by apply (IH i)|].
    apply elem_of_list_to_set, list_elem_of_fmap in J as (m & -> & J). apply list_elem_of_In, filter_In in J as [J E].
    unfold owned_by in E. destruct (OwnerID m) as [o|] eqn:O; [|done]. apply bool_decide_eq_true in E.
    apply (IH o); [|done]. eapply chain_closed; eauto. by apply list_elem_of_In.
Qed.

(** A charge leaves who owns whom as it was. *)
Lemma charge_id id cost m : ID (charge id cost m) = ID m.
Proof. unfold charge. by destruct (_ =? _). Qed.
Lemma charge_owner id cost m : OwnerID (charge id cost m) = OwnerID m.
Proof. unfold charge. by destruct (_ =? _). Qed.
Lemma charge_quota id cost m : QuotaBytes (charge id cost m) = QuotaBytes m.
Proof. unfold charge. by destruct (_ =? _). Qed.
Lemma filter_charge (p : Mailbox -> bool) id cost t :
  (forall m, p (charge id cost m) = p m) -> List.filter p (charge id cost <$> t) = charge id cost <$> List.filter p t.
Proof.
  intros P. induction t as [|m t IH]; [done|]. rewrite fmap_cons. simpl. rewrite P. destruct (p m); [|done].
  by rewrite fmap_cons, IH.
Qed.
Lemma charged_ids id cost t : ID <$> (charge id cost <$> t) = ID <$> t.
Proof. rewrite <- list_fmap_compose. apply list_fmap_ext. intros _ m _. apply charge_id. Qed.
Lemma charged_round id cost t s : round (charge id cost <$> t) s = round t s.
Proof.
  unfold round. rewrite filter_charge by (intros m; unfold owned_by; by rewrite charge_owner). by rewrite charged_ids.
Qed.
Lemma charged_owned id cost t a : owned (charge id cost <$> t) a = owned t a.
Proof.
  unfold owned. rewrite length_fmap, filter_charge by (intros m; by rewrite charge_id). rewrite charged_ids.
  generalize (length t). intros n. induction n as [|n IH]; [done|]. simpl. by rewrite IH, charged_round.
Qed.
Lemma sum_charge id cost t :
  NoDup (ID <$> t) -> foldr Z.add 0 (QuotaUsedBytes <$> (charge id cost <$> t)) =
    foldr Z.add 0 (QuotaUsedBytes <$> t) + (if bool_decide (id ∈ ID <$> t) then cost else 0).
Proof.
  induction t as [|m t IH]; [done|]. rewrite !fmap_cons. cbn [foldr]. intros [N1 N2]%NoDup_cons. rewrite (IH N2).
  unfold charge at 1. destruct (ID m =? id) eqn:E; simpl.
  - apply Z.eqb_eq in E. rewrite E in N1. rewrite (bool_decide_eq_false_2 _ N1), bool_decide_eq_true_2 by (rewrite <- E; by left). lia.
  - assert (Q : id ∈ ID m :: (ID <$> t) <-> id ∈ ID <$> t) by (rewrite elem_of_cons; split; [intros [?|?]; [lia|done]|auto]).
    rewrite (bool_decide_ext _ _ Q). lia.
Qed.
Lemma nodup_filter (p : Mailbox -> bool) t : NoDup (ID <$> t) -> NoDup (ID <$> List.filter p t).
Proof.
  induction t as [|m t IH]; [constructor|]. rewrite fmap_cons. intros [N1 N2]%NoDup_cons. simpl.
  destruct (p m); [|by apply IH]. rewrite fmap_cons. apply NoDup_cons. split; [|by apply IH].
  intros (x & E & J)%list_elem_of_fmap. apply N1, list_elem_of_fmap. exists x. split; [done|].
  apply list_elem_of_In, filter_In in J as [J _]. by apply list_elem_of_In.
Qed.
Lemma charged_used id cost t a :
  NoDup (ID <$> t) -> id ∈ ID <$> t -> used (charge id cost <$> t) a = used t a + (if bool_decide (id ∈ owned t a) then cost else 0).
Proof.
  intros N I. unfold used. rewrite filter_charge by (intros m; by rewrite charged_owned, charge_id).
  rewrite charged_owned, sum_charge.
  - f_equal. apply list_elem_of_fmap in I as (m & -> & I).
    assert (Q : ID m ∈ ID <$> List.filter (fun x => bool_decide (ID x ∈ owned t a)) t <-> ID m ∈ owned t a).
    { rewrite list_elem_of_fmap. split.
      - intros (x & E & J). apply list_elem_of_In, filter_In in J as [_ J]. apply bool_decide_eq_true in J. by rewrite E.
      - intros J. exists m. split; [done|]. apply list_elem_of_In, filter_In. split; [by apply list_elem_of_In|by apply bool_decide_eq_true]. }
    by rewrite (bool_decide_ext _ _ Q).
  - by apply nodup_filter.
Qed.

(** The columns' ranges. *)
Definition columns (t : Table) : Prop :=
  Forall (fun m => GoInt.in64 (QuotaBytes m) /\ 0 <= QuotaUsedBytes m <= GoInt.max_int64) t.
Lemma used_nonneg t a : columns t -> 0 <= used t a.
Proof.
  intros C. unfold used. assert (F : Forall (fun m => 0 <= QuotaUsedBytes m) (List.filter (fun m => bool_decide (ID m ∈ owned t a)) t)).
  { apply Forall_forall. intros m I. apply list_elem_of_In, filter_In in I as [I _].
    apply list_elem_of_In in I. apply (proj1 (Forall_forall _ _) C) in I. lia. }
  clear C. induction F as [|m l P _ IH]; [done|]. rewrite fmap_cons. cbn [foldr]. lia.
Qed.
Lemma fits64_spec z : fits64 z = true <-> GoInt.in64 z.
Proof. unfold fits64, GoInt.in64. rewrite andb_true_iff. lia. Qed.
(** What is left is the least any quota of the chain leaves. *)
Lemma remaining_least broken t left chain r :
  columns t -> Forall (fun m => GoInt.in64 (QuotaBytes m)) chain -> remaining broken t left chain = Ok r ->
  r <= left /\ (forall m, m ∈ chain -> 0 < QuotaBytes m -> r <= QuotaBytes m - used t (ID m)) /\
  (r = left \/ exists m, m ∈ chain /\ 0 < QuotaBytes m /\ r = QuotaBytes m - used t (ID m)).
Proof.
  intros C F. revert left. induction F as [|m chain Q F IH]; intros left; simpl.
  { intros [= <-]. split_and!; [lia|set_solver|by left]. }
  destruct (QuotaBytes m <=? 0) eqn:Z.
  { intros K. destruct (IH _ K) as (A & B & D). split_and!; [done| |].
    - intros m' [->|I]%elem_of_cons P; [lia|by apply B].
    - destruct D as [D|(x & I & D)]; [by left|right]. exists x. split; [by right|done]. }
  destruct (broken _); [done|]. simpl. destruct (fits64 _) eqn:U; [|done]. apply fits64_spec in U. simpl.
  pose proof (used_nonneg t (ID m) C). rewrite GoInt.wrap64_id by (unfold GoInt.in64, GoInt.min_int64, GoInt.max_int64 in *; lia).
  intros K. destruct (IH _ K) as (A & B & D). split_and!.
  - destruct (_ <? left) eqn:L in A; lia.
  - intros m' [->|I]%elem_of_cons P; [destruct (_ <? left) eqn:L in A; lia|by apply B].
  - destruct D as [D|(x & I & D)]; [|right; exists x; split; [by right|done]].
    destruct (_ <? left) eqn:L in D; [|by left]. right. exists m. split_and!; [by left|lia|done].
Qed.

Lemma chain_rows t id c : chain_of t id c -> forall m, m ∈ c -> m ∈ t.
Proof. induction 1; intros m' J; [by apply list_elem_of_singleton in J as ->|]. apply elem_of_cons in J as [->|J]; auto. Qed.
Lemma reserve_chain broken before t id cost t' :
  ReserveStorage broken before t id cost = Ok t' ->
  exists c left, 0 <= cost <= left /\ chain_of t id c /\ StorageRemaining broken t c = Ok left /\ t' = charge id cost <$> t /\
    Forall (fun m => fits64 (QuotaUsedBytes m) = true) t'.
Proof.
  unfold ReserveStorage, StorageQuotaChain. destruct (cost <? 0) eqn:N; [done|].
  destruct (owners _ _ _ _ _) as [c0|] eqn:O; [|done]. simpl. destruct (locked broken t c0) as [c|] eqn:L; [|done]. simpl.
  destruct (StorageRemaining broken t c) as [left|] eqn:R; [|done]. simpl. destruct (left <? cost) eqn:Q; [done|].
  destruct (_ || _) eqn:F; [done|]. intros [= <-]. apply orb_false_iff in F as [_ F]. apply negb_false_iff in F.
  exists c, left. split_and!; [lia|lia|by eapply locked_chain|done|done|].
  apply Forall_forall. intros m I. by apply (proj1 (forallb_forall _ _) F), list_elem_of_In.
Qed.

Lemma chain_columns t id c : columns t -> chain_of t id c -> Forall (fun m => GoInt.in64 (QuotaBytes m)) c.
Proof.
  intros C CH. apply Forall_forall. intros y Y. apply (chain_rows _ _ _ CH) in Y.
  apply (proj1 (Forall_forall _ _) C) in Y. tauto.
Qed.
Lemma refused_full broken before t id cost :
  columns t -> cost <= GoInt.max_int64 -> ReserveStorage broken before t id cost = Err ErrStorageQuota ->
  exists m, m ∈ t /\ 0 < QuotaBytes m < used t (ID m) + cost.
Proof.
  intros C M. unfold ReserveStorage, StorageQuotaChain. destruct (cost <? 0); [done|].
  destruct (owners _ _ _ _ _) as [c0|e] eqn:O; [|by intros [= ->]; destruct (owners_errors _ _ _ _ _ _ O)]. simpl.
  destruct (locked broken t c0) as [c|e] eqn:L; [|by intros [= ->]; destruct (locked_errors _ _ _ _ L)]. simpl.
  pose proof (locked_chain _ _ _ _ _ _ _ _ O L) as CH. unfold StorageRemaining.
  destruct (remaining broken t _ c) as [left|e] eqn:R; [|by apply remaining_errors in R; subst e]. simpl.
  destruct (left <? cost) eqn:Q; [|by destruct (_ || _)]. intros _.
  apply remaining_least in R as (_ & _ & [->|(m & I & P & ->)]); [lia| |done|by eapply chain_columns].
  exists m. split; [by eapply chain_rows|lia].
Qed.

End StorageQuota.
