(* ===== verification/Recipients.v ===== *)
(** * Where a message goes: internal/db/repositories/recipient.go, alias.go and mailbox.go

    A recipient address is an account, an alias of another address, or an account's address
    with a tag. [ResolveRecipient] follows aliases, at most eight, to an account that may
    receive or to an address on another server; mail.StripSubaddress is
    internal/mail/subaddress.go, and recipient_check.go the pipeline filter that calls it.
    The accounts and domains are the worker's tables, the grants GrantStore's, and the
    quotas StorageQuota's. [broken], [broken_grants] and [broken_quota] name the statements
    the database refuses. *)

From S2P Require Import Prelude GoTime GoStrings GoNet MailAddress QueueModel MailStore Grants GrantStore Pipeline Emails StorageQuota.
From Stdlib Require Import Ascii.

Module Recipients.
Import GoTime GoStrings MailAddress Row Store Mailboxes.
Import Pipeline(ActionContinue, ActionReject, ActionDefer).
Local Open Scope Z_scope.

Definition MaxAliasHops : nat := 8.
Record Alias := { AlDomainID : Z; SourceAddress : string; DestinationAddress : string; AlActive : bool }.
Record Tables := {
  store : Store.DB;
  granted : GrantStore.GDB;
  aliases : list Alias;
  live : gset Z;                       (* the ids of the active domains *)
  quotas : list StorageQuota.Mailbox
}.
Inductive stmt := QFind (q : Store.stmt) | QLive | QHosted | QAliases | QAllAliases.
Inductive resolve_error :=
| ErrAliasRouting (reason : string) | NotFound | Unavailable | Database.
Definition of_find (e : find_error) : resolve_error :=
  match e with ErrRecordNotFound => NotFound | ErrMailboxUnavailable => Unavailable | ErrDatabase => Database end.

Record Recipient := {
  RMailbox : option Mailbox;
  RAddress : string;
  DeliveredTo : string;
  ForwardingDomain : string;
  RAlias : bool
}.

(** internal/mail/subaddress.go: the address without its tag, and the tag. *)
Definition StripSubaddress (address : string) : option (string * string) :=
  match cut_last "@"%char address with
  | None | Some (EmptyString, _) => None
  | Some (local, domain) =>
      match cut_byte "+"%char local with
      | None | Some (EmptyString, _) => None
      | Some (base, detail) => Some (base +:+ "@" +:+ domain, detail)
      end
  end.

(** ** net/mail's Address.String, for an address without a name *)

Definition atext (a : ascii) : bool :=
  negb (is_ascii_byte a) ||
  (in_range 33 126 a && negb (bool_decide (a ∈ ["("%char; ")"%char; "["%char; "]"%char; ";"%char; "@"%char; byte 92;
                                                ","%char; "<"%char; ">"%char; byte 34; ":"%char; "."%char]))).
(** A dot may stand between two bytes of which the first is no dot. *)
Fixpoint must_quote (prev : option ascii) (s : string) : bool :=
  match s with
  | EmptyString => false
  | String a r =>
      if atext a then must_quote (Some a) r
      else if bool_decide (a = "."%char) then
        match prev, r with
        | Some p, String _ _ => if bool_decide (p = "."%char) then true else must_quote (Some a) r
        | _, _ => true
        end
      else true
  end.
Definition quoted_rune (r : rune) : string :=
  match r with
  | Rune (String a EmptyString) =>
      if bool_decide (a = byte 92) || bool_decide (a = byte 34) then String (byte 92) (String a "")
      else if in_range 33 126 a || bool_decide (a = " "%char) || bool_decide (a = byte 9) then String a "" else ""
  | r => write_rune r
  end.
Definition quoteString (s : string) : string := quote +:+ concat_all (quoted_rune <$> runes s) +:+ quote.
(** Without the angle brackets, which [ResolveRecipient] takes off. *)
Definition address_text (address : string) : string :=
  let '(local, domain) := match cut_last "@"%char address with Some p => p | None => (address, "") end in
  (if must_quote None local then quoteString local else local) +:+ "@" +:+ domain.

Section Resolve.
Context `{Unicode, MailLib, TextLib}.
Context (broken : stmt -> bool) (broken_grants : GrantStore.stmt -> bool) (broken_quota : StorageQuota.stmt -> bool).
Context (override : option Held.Held) (now : Time) (db : Tables).

(** mailbox.go: an account that takes mail. [CanReceive] reads the row's id, address and
    activity. *)
Definition account_of (m : Mailbox) : GrantStore.Account := {|
  GrantStore.AcID := MbID m; GrantStore.AcAddress := MbAddress m; GrantStore.AcActive := MbActive m;
  GrantStore.OwnerID := None |}.
Definition RequireMailboxReceive (m : Mailbox) : result resolve_error unit :=
  match GrantStore.CanReceive broken_grants (granted db) now override (account_of m) with
  | Ok true => Ok tt
  | Ok false => Err Unavailable
  | Err _ => Err Database
  end.
Definition FindReceivingMailboxByAddress (address : string) : result resolve_error Mailbox :=
  match FindActiveMailboxByAddress (fun q => broken (QFind q)) (store db) address with
  | Err e => Err (of_find e)
  | Ok m =>
      _ ← RequireMailboxReceive m;
      if broken QLive then Err Database
      else if bool_decide (MbDomainID m ∈ live db) then Ok m else Err NotFound
  end.
Definition IsHostedDomain (domain : string) : result resolve_error bool :=
  match DomainASCII domain with
  | None => Ok false
  | Some ascii =>
      if broken QHosted then Err Database
      else Ok (existsb (fun d => bool_decide (DomName d = ascii)) (domains (store db)))
  end.

(** The hosted address's aliases: the query both lookups start from. *)
Definition aliases_of (domain : string) (liveDomainOnly : bool) : list Alias :=
  List.filter (fun a => existsb (fun d => bool_decide (DomID d = AlDomainID a /\ DomName d = domain)) (domains (store db))
                        && (negb liveDomainOnly || bool_decide (AlDomainID a ∈ live db))) (aliases db).
Definition exact_source (address canonical : string) (a : Alias) : bool :=
  bool_decide (SourceAddress a = address) || bool_decide (SourceAddress a = canonical).
Definition same_identity (canonical : string) (a : Alias) : bool :=
  bool_decide (CanonicalMailboxAddress (SourceAddress a) = Some canonical).
Definition findRecipientAlias (address : string) (liveDomainOnly : bool) : result resolve_error Alias :=
  match CanonicalMailboxAddress address with
  | None => Err NotFound
  | Some canonical =>
      if ContainsControlChar address then Err NotFound
      else if broken QAliases || broken QAllAliases then Err Database
      else
        let of_domain := aliases_of (DomainFromAddress canonical) liveDomainOnly in
        match List.filter (exact_source address canonical) of_domain
              ++ List.filter (fun a => negb (exact_source address canonical a) && same_identity canonical a) of_domain with
        | [] => Err NotFound
        | [a] => Ok a
        | _ => Err (ErrAliasRouting "ambiguous alias address")
        end
  end.
(** alias.go *)
Definition AliasClaimsAddress (address : string) (liveDomainOnly : bool) : result resolve_error bool :=
  match CanonicalMailboxAddress address with
  | None => Ok false
  | Some canonical =>
      if ContainsControlChar address then Ok false
      else
        let of_domain := aliases_of (after_at canonical) liveDomainOnly in
        if broken QAliases then Err Database
        else if existsb (exact_source address canonical) of_domain then Ok true
        else if broken QAllAliases then Err Database
        else Ok (existsb (same_identity canonical) of_domain)
  end.

(** ** The loop *)

Definition routing {A} (reason : string) : result resolve_error A := Err (ErrAliasRouting reason).
Definition with_address (a : string) (r : Recipient) : Recipient := {|
  RMailbox := RMailbox r; RAddress := a; DeliveredTo := DeliveredTo r; ForwardingDomain := ForwardingDomain r; RAlias := RAlias r |}.
Definition at_mailbox (m : Mailbox) (r : Recipient) : Recipient := {|
  RMailbox := Some m; RAddress := MbAddress m; DeliveredTo := DeliveredTo r; ForwardingDomain := ForwardingDomain r;
  RAlias := RAlias r |}.
Definition at_tagged (m : Mailbox) (address : string) (r : Recipient) : Recipient := {|
  RMailbox := Some m; RAddress := MbAddress m; DeliveredTo := address; ForwardingDomain := ForwardingDomain r; RAlias := RAlias r |}.
Definition onto (a : Alias) (address canonical : string) (r : Recipient) : Recipient := {|
  RMailbox := RMailbox r; RAddress := DestinationAddress a;
  DeliveredTo := if RAlias r then DeliveredTo r else address;
  ForwardingDomain := if RAlias r then ForwardingDomain r else DomainFromAddress canonical;
  RAlias := true |}.
(** An alias's destination, rewritten as it is sent: whether it is hosted here. *)
Definition destination (r : Recipient) : result resolve_error (Recipient * bool) :=
  if negb (ValidateAddress (RAddress r)) then routing "invalid alias destination"
  else match mail_ParseAddress (RAddress r) with
       | None => routing "invalid alias destination"
       | Some parsed =>
           hosted ← IsHostedDomain (DomainFromAddress parsed);
           Ok (with_address (address_text parsed) r, hosted)
       end.
(** The account a tag is on, when the address has one. *)
Definition tagged (r : Recipient) (address : string) : result resolve_error Recipient :=
  let unknown := if RAlias r then routing "alias destination is not a receiving mailbox" else Err NotFound in
  match StripSubaddress (RAddress r) with
  | None => unknown
  | Some (base, _) =>
      match FindReceivingMailboxByAddress base with
      | Ok m => Ok (at_tagged m address r)
      | Err NotFound => unknown
      | Err e => Err e
      end
  end.
Section Loop.
Context (address : string) (liveDomainOnly : bool).
(** One round at an address hosted here: the end, or the next address. *)
Definition hop (hops : nat) (seen : list string) (r : Recipient)
    : result resolve_error (Recipient + (Recipient * list string)) :=
  match CanonicalMailboxAddress (RAddress r) with
  | None => if RAlias r then routing "invalid alias destination" else Err NotFound
  | Some canonical =>
      if ContainsControlChar (RAddress r) then
        if RAlias r then routing "invalid alias destination" else Err NotFound
      else if bool_decide (canonical ∈ seen) then routing "alias loop"
      else match FindReceivingMailboxByAddress (RAddress r) with
           | Ok m => Ok (inl (at_mailbox m r))
           | Err NotFound =>
               match findRecipientAlias (RAddress r) liveDomainOnly with
               | Ok a =>
                   if negb (AlActive a) then routing "inactive alias"
                   else if negb (bool_decide (AlDomainID a ∈ live db)) then routing "alias domain is not active"
                   else if (hops =? MaxAliasHops)%nat then routing "alias chain exceeds 8 hops"
                   else Ok (inr (onto a address canonical r, canonical :: seen))
               | Err NotFound => inl <$> tagged r address
               | Err e => Err e
               end
           | Err e => Err e
           end
  end.
(** The fuel is the hops left; the last round follows no alias, so it is enough. *)
Fixpoint follow (fuel hops : nat) (seen : list string) (r : Recipient) : result resolve_error Recipient :=
  next ← (if RAlias r then destination r else Ok (r, true));
  let '(r, hosted) := next in
  if negb hosted then Ok r
  else
    step ← hop hops seen r;
    match step with
    | inl r => Ok r
    | inr (r, seen) => match fuel with O => routing "alias chain exceeds 8 hops" | S fuel => follow fuel (S hops) seen r end
    end.
Definition ResolveRecipient : result resolve_error Recipient :=
  follow MaxAliasHops 0 [] {| RMailbox := None; RAddress := address; DeliveredTo := ""; ForwardingDomain := ""; RAlias := false |}.
End Loop.

(** ** recipient_check *)

Definition check_answer (result detail : string) (action : Pipeline.Action) (reject : string) : Emails.Result :=
  Emails.answer "recipient_check" result detail action reject.
(** What a database error says is left out. *)
Definition deferResult : Emails.Result := check_answer "defer" "database error" ActionDefer "".
Definition rejectRecipient (rcpt : string) : Emails.Result :=
  check_answer "reject" ("recipient " +:+ rcpt +:+ " not found") ActionReject ("550 5.1.1 <" +:+ rcpt +:+ ">: Recipient not found").
Definition AliasRoutingRefusal : string := "Alias delivery is not available for this recipient.".
(** [None]: this recipient may have the message. *)
Definition check_one (rcpt : string) : option Emails.Result :=
  match CanonicalMailboxAddress rcpt with
  | None => Some (check_answer "reject" "invalid recipient address" ActionReject "550 5.1.1 Invalid recipient")
  | Some _ =>
      if ContainsControlChar rcpt then
        Some (check_answer "reject" "invalid recipient address" ActionReject "550 5.1.1 Invalid recipient")
      else match ResolveRecipient rcpt true with
           | Err (ErrAliasRouting reason) =>
               Some (check_answer "reject" ("alias routing refused: " +:+ reason +:+ ": record not found") ActionReject
                       ("550 5.1.1 " +:+ AliasRoutingRefusal))
           | Err Unavailable | Err NotFound => Some (rejectRecipient rcpt)
           | Err Database => Some deferResult
           | Ok r =>
               match RMailbox r with
               | None => None
               | Some mb =>
                   match StorageQuota.StorageQuotaChain broken_quota (quotas db) (MbID mb) None with
                   | Err _ => Some deferResult
                   | Ok chain =>
                       match StorageQuota.StorageRemaining broken_quota (quotas db) chain with
                       | Err _ => Some deferResult
                       | Ok room =>
                           if room <=? 0 then
                             Some (check_answer "reject" ("recipient " +:+ rcpt +:+ " storage quota exhausted") ActionReject
                                     ("452 4.2.2 <" +:+ rcpt +:+ ">: Mailbox full"))
                           else None
                       end
                   end
               end
           end
  end.
Definition recipient_check (m : Emails.EmailJSON) : Emails.Result :=
  let rcpts := Emails.RcptTo (Emails.EEnvelope m) in
  match head (omap check_one rcpts) with
  | Some r => r
  | None => Emails.goes_on "recipient_check" "pass"
              ("all " +:+ itoa (Z.of_nat (List.length rcpts)) +:+ " recipients valid")
  end.
End Resolve.
End Recipients.

(** * What resolving a recipient promises

    [resolve_arrives]: a recipient resolves only along active aliases, at most eight of them,
    each from an address no account here is known by, to an account that takes mail or to
    another server; [resolve_fuel]: more fuel changes nothing. [checked_recipients_arrive]:
    the recipient_check filter lets a message go on only when that holds of every recipient
    and each account found has storage left. *)

Module RecipientFacts.
Import GoTime GoStrings MailAddress Row Store Mailboxes Recipients.
Local Open Scope Z_scope.
Section Facts.
Context `{Unicode, MailLib, TextLib}.
Context (broken : stmt -> bool) (broken_grants : GrantStore.stmt -> bool) (broken_quota : StorageQuota.stmt -> bool).
Context (override : option Held.Held) (now : Time) (db : Tables).
Abbreviation receiving := (FindReceivingMailboxByAddress broken broken_grants override now db).
Abbreviation alias_at := (findRecipientAlias broken db).
Abbreviation resolve := (ResolveRecipient broken broken_grants override now db).

(** An account that takes mail. *)
Definition takes_mail (m : Mailbox) : Prop :=
  MbActive m = true /\ MbDomainID m ∈ live db /\
  GrantStore.CanReceive broken_grants (granted db) now override (account_of m) = Ok true.
Lemma receiving_takes a m : receiving a = Ok m -> takes_mail m.
Proof.
  unfold FindReceivingMailboxByAddress, FindActiveMailboxByAddress. destruct (ContainsControlChar a); [done|].
  destruct (FindMailboxByAddress _ _ _) as [m'|]; [|done]. simpl. destruct (MbActive m') eqn:A; [|done].
  unfold RequireMailboxReceive. destruct (GrantStore.CanReceive _ _ _ _ _) as [[]|] eqn:C; [|done..]. simpl.
  destruct (broken QLive); [done|]. case_bool_decide; [|done]. by intros [= <-].
Qed.

(** ** Routes *)

Section Route.
Context (address : string) (live_only : bool).
(** An active alias of an address that is no account's. *)
Definition alias_of (a : string) (al : Alias) : Prop :=
  receiving a = Err NotFound /\ alias_at a live_only = Ok al /\ AlActive al = true /\ AlDomainID al ∈ live db.
Definition sends_to (al : Alias) (b : string) : Prop :=
  ValidateAddress (DestinationAddress al) = true /\
  exists parsed, mail_ParseAddress (DestinationAddress al) = Some parsed /\ b = address_text parsed.
(** The address [n] aliases away. *)
Inductive reaches : nat -> string -> Prop :=
| here : reaches O address
| further n a al b : reaches n a -> alias_of a al -> sends_to al b -> reaches (S n) b.

Definition elsewhere (a : string) : Prop :=
  exists parsed, a = address_text parsed /\ IsHostedDomain broken db (DomainFromAddress parsed) = Ok false.
Definition is_tagged (a base : string) : Prop :=
  receiving a = Err NotFound /\ alias_at a live_only = Err NotFound /\ exists tag, StripSubaddress a = Some (base, tag).

(** What a result says of its route. *)
Definition route_kept (n : nat) (r : Recipient) : Prop :=
  RAlias r = (0 <? n)%nat /\
  ((0 < n)%nat -> DeliveredTo r = address /\
     exists c, CanonicalMailboxAddress address = Some c /\ ForwardingDomain r = DomainFromAddress c).
Definition arrived (n : nat) (a : string) (r : Recipient) : Prop :=
  match RMailbox r with
  | Some m => takes_mail m /\ RAddress r = MbAddress m /\
      (receiving a = Ok m \/ exists base, is_tagged a base /\ receiving base = Ok m /\ DeliveredTo r = address)
  | None => (0 < n)%nat /\ RAddress r = a /\ elsewhere a
  end.

(** Before a round: at the start, or with the destination of an alias [n] away. *)
Definition pending (n : nat) (r : Recipient) : Prop :=
  RMailbox r = None /\ route_kept n r /\
  match n with
  | O => RAddress r = address
  | S n => exists a al, reaches n a /\ alias_of a al /\ RAddress r = DestinationAddress al
  end.
Definition ready (n : nat) (r : Recipient) : Prop := RMailbox r = None /\ route_kept n r /\ reaches n (RAddress r).

Lemma destination_ready n r r' hosted :
  pending n r -> (if RAlias r then destination broken db r else Ok (r, true)) = Ok (r', hosted) ->
  ready n r' /\ (hosted = false -> (0 < n)%nat /\ elsewhere (RAddress r')).
Proof.
  intros (M & K & P). destruct n as [|n].
  - rewrite (proj1 K). simpl. intros [= <- <-]. split; [|done]. split_and!; [done|done|]. rewrite P. constructor.
  - rewrite (proj1 K). simpl. destruct P as (a & al & R & A & E). unfold destination. rewrite E.
    destruct (ValidateAddress _) eqn:V; [|done]. simpl. destruct (mail_ParseAddress _) as [parsed|] eqn:Q; [|done].
    destruct (IsHostedDomain _ _ _) as [h|] eqn:I; [|done]. simpl. intros [= <- <-]. split.
    + split_and!; [done|done|]. simpl. eapply further; [done|done|]. split; [done|]. by exists parsed.
    + intros ->. split; [lia|]. by exists parsed.
Qed.
Lemma tagged_arrives n r r' :
  ready n r -> receiving (RAddress r) = Err NotFound -> alias_at (RAddress r) live_only = Err NotFound ->
  tagged broken broken_grants override now db r address = Ok r' -> route_kept n r' /\ arrived n (RAddress r) r'.
Proof.
  intros (M & (K1 & K2) & R) F L. unfold tagged.
  destruct (StripSubaddress _) as [[base tag]|] eqn:S; [|by destruct (RAlias r)].
  destruct (receiving base) as [m|e] eqn:Q; [|by destruct e; try done; destruct (RAlias r)].
  intros [= <-]. split.
  - split; [done|]. intros P. split; [done|]. by apply K2.
  - unfold arrived. simpl. split_and!; [by eapply receiving_takes|done|]. right. exists base. split_and!; [|done|done].
    split_and!; [done|done|by exists tag].
Qed.
Lemma hop_arrives n seen r r' :
  ready n r -> hop broken broken_grants override now db address live_only n seen r = Ok (inl r') ->
  route_kept n r' /\ arrived n (RAddress r) r'.
Proof.
  intros Y. pose proof Y as (M & (K1 & K2) & R). unfold hop, routing.
  destruct (CanonicalMailboxAddress (RAddress r)) as [c|]; [|destruct (RAlias r); discriminate].
  destruct (ContainsControlChar (RAddress r)); [destruct (RAlias r); discriminate|]. case_bool_decide; [done|].
  destruct (receiving (RAddress r)) as [m|e] eqn:F.
  - intros [= <-]. split; [done|]. unfold arrived. simpl. split_and!; [by eapply receiving_takes|done|by left].
  - destruct e; try done. destruct (alias_at _ _) as [al|e] eqn:L.
    + destruct (negb _); [done|]. destruct (negb _); [done|]. by destruct (_ =? _)%nat.
    + destruct e; try done. destruct (tagged _ _ _ _ _ _ _) as [t|] eqn:T; [|done]. intros [= <-].
      by eapply tagged_arrives.
Qed.
Lemma hop_onward n seen r r' seen' :
  ready n r -> hop broken broken_grants override now db address live_only n seen r = Ok (inr (r', seen')) ->
  (n < MaxAliasHops)%nat /\ pending (S n) r' \/ (MaxAliasHops < n)%nat.
Proof.
  intros (M & (K1 & K2) & R). unfold hop, routing.
  destruct (CanonicalMailboxAddress (RAddress r)) as [c|] eqn:C; [|destruct (RAlias r); discriminate].
  destruct (ContainsControlChar (RAddress r)); [destruct (RAlias r); discriminate|]. case_bool_decide; [done|].
  destruct (receiving (RAddress r)) as [m|e] eqn:F; [done|]. destruct e; try done.
  destruct (alias_at _ _) as [al|e] eqn:L; [|by destruct e; try done; destruct (tagged _ _ _ _ _ _ _)].
  destruct (AlActive al) eqn:A; [|done]. case_bool_decide as D; [|done]. simpl.
  destruct (n =? MaxAliasHops)%nat eqn:N; [done|]. intros [= <- <-]. apply Nat.eqb_neq in N.
  destruct (decide (n < MaxAliasHops)%nat); [left|right; lia]. split; [done|]. split_and!; [done| |].
  - split; [done|]. intros _. simpl. destruct n as [|n]; simpl in K1; rewrite K1.
    + assert (RAddress r = address) as E by (by inversion R). rewrite E in C. split; [done|]. by exists c.
    + apply K2. lia.
  - exists (RAddress r), al. split_and!; [done| |done]. by split_and!.
Qed.
Lemma follow_arrives fuel n seen r r' :
  (fuel + n = MaxAliasHops)%nat -> pending n r ->
  follow broken broken_grants override now db address live_only fuel n seen r = Ok r' ->
  exists n' a, (n' <= MaxAliasHops)%nat /\ reaches n' a /\ route_kept n' r' /\ arrived n' a r'.
Proof.
  revert n seen r. induction fuel as [|fuel IH]; intros n seen r L P; cbn [follow];
    destruct (if RAlias r then _ else _) as [[r1 hosted]|] eqn:D; try done; simpl;
    destruct (destination_ready _ _ _ _ P D) as [Y E].
  all: destruct hosted; simpl; [|intros [= <-]; destruct (E eq_refl) as [Z X]; exists n, (RAddress r1);
    split_and!; [lia|apply Y|apply Y|]; unfold arrived; by rewrite (proj1 Y)].
  all: destruct (hop _ _ _ _ _ _ _ _ _ _) as [[r2|[r2 seen2]]|] eqn:O; try done; simpl.
  1,2: intros [= <-]; destruct (hop_arrives _ _ _ _ Y O); exists n, (RAddress r1); split_and!; [lia|apply Y|done|done].
  apply hop_onward in O as [[_ O]|]; [|unfold MaxAliasHops in *; lia|done]. intros F. eapply (IH (S n)); [lia|exact O|exact F].
Qed.
(** More fuel changes nothing. *)
Lemma follow_enough k fuel n seen r :
  (fuel + n = MaxAliasHops)%nat -> pending n r ->
  follow broken broken_grants override now db address live_only (fuel + k) n seen r =
  follow broken broken_grants override now db address live_only fuel n seen r.
Proof.
  revert n seen r. induction fuel as [|fuel IH]; intros n seen r L P.
  - destruct k as [|k]; [done|]. cbn [follow plus].
    destruct (if RAlias r then _ else _) as [[r1 hosted]|] eqn:D; [|done]. simpl.
    destruct (destination_ready _ _ _ _ P D) as [Y _]. destruct hosted; [|done]. simpl.
    destruct (hop _ _ _ _ _ _ _ _ _ _) as [[r2|[r2 seen2]]|] eqn:O; [done| |done].
    apply hop_onward in O as [[O _]|]; [|unfold MaxAliasHops in *; lia|done]. unfold MaxAliasHops in *. lia.
  - cbn [follow plus]. destruct (if RAlias r then _ else _) as [[r1 hosted]|] eqn:D; [|done].
    simpl mbind. destruct (destination_ready _ _ _ _ P D) as [Y _]. destruct hosted; [|done]. cbn [negb].
    destruct (hop _ _ _ _ _ _ _ _ _ _) as [[r2|[r2 seen2]]|] eqn:O; [done| |done].
    apply hop_onward in O as [[_ O]|]; [|unfold MaxAliasHops in *; lia|done]. simpl mbind. apply IH; [lia|done].
Qed.

(** ** ResolveRecipient *)

Definition unresolved : Recipient :=
  {| RMailbox := None; RAddress := address; DeliveredTo := ""; ForwardingDomain := ""; RAlias := false |}.
Lemma unresolved_pending : pending 0 unresolved.
Proof. split_and!; [done| |done]. split; [done|lia]. Qed.
Lemma resolve_fuel k :
  follow broken broken_grants override now db address live_only (MaxAliasHops + k) 0 [] unresolved = resolve address live_only.
Proof. apply follow_enough; [done|apply unresolved_pending]. Qed.
Lemma resolve_arrives r :
  resolve address live_only = Ok r ->
  exists n a, (n <= MaxAliasHops)%nat /\ reaches n a /\ route_kept n r /\ arrived n a r.
Proof. apply follow_arrives; [done|apply unresolved_pending]. Qed.
End Route.

(** ** recipient_check *)

Definition has_room (r : Recipient) : Prop :=
  forall m, RMailbox r = Some m -> exists chain room,
    StorageQuota.StorageQuotaChain broken_quota (quotas db) (MbID m) None = Ok chain /\
    StorageQuota.StorageRemaining broken_quota (quotas db) chain = Ok room /\ 0 < room.
Lemma checked_one rcpt :
  check_one broken broken_grants broken_quota override now db rcpt = None ->
  ContainsControlChar rcpt = false /\ exists r, resolve rcpt true = Ok r /\ has_room r.
Proof.
  unfold check_one, has_room. destruct (CanonicalMailboxAddress rcpt); [|done]. destruct (ContainsControlChar rcpt); [done|].
  destruct (resolve rcpt true) as [r|e]; [|by destruct e]. intros C. split; [done|]. exists r. split; [done|].
  intros m M. rewrite M in C. destruct (StorageQuota.StorageQuotaChain _ _ _ _) as [chain|]; [|done]. exists chain.
  destruct (StorageQuota.StorageRemaining _ _ _) as [room|]; [|done]. exists room.
  destruct (Z.leb_spec room 0); [done|]. done.
Qed.
Lemma refused_one rcpt res :
  check_one broken broken_grants broken_quota override now db rcpt = Some res -> Pipeline.RAction res <> Pipeline.ActionContinue.
Proof.
  unfold check_one. destruct (CanonicalMailboxAddress rcpt); [|by intros [= <-]].
  destruct (ContainsControlChar rcpt); [by intros [= <-]|].
  destruct (resolve rcpt true) as [r|e]; [|by destruct e; intros [= <-]]. destruct (RMailbox r) as [m|]; [|done].
  destruct (StorageQuota.StorageQuotaChain _ _ _ _) as [chain|]; [|by intros [= <-]].
  destruct (StorageQuota.StorageRemaining _ _ _) as [room|]; [|by intros [= <-]]. by destruct (room <=? 0); [intros [= <-]|].
Qed.
Lemma all_checked rcpts :
  head (omap (check_one broken broken_grants broken_quota override now db) rcpts) = None ->
  Forall (fun a => check_one broken broken_grants broken_quota override now db a = None) rcpts.
Proof.
  induction rcpts as [|a rcpts IH]; [done|]. cbn [omap list_omap].
  destruct (check_one _ _ _ _ _ _ a) eqn:C; [done|]. intros N. constructor; [done|auto].
Qed.
(** C30: The recipient_check filter lets a message go on only when each of its recipients
    resolves: at most eight active aliases of active domains lead from its address, each from
    an address that is no receiving account's to that alias's destination, to an account that
    may receive mail (the grants say so), perhaps by the address's tag, and has storage left
    all along its owners, or, after one alias at least, to an address of a domain not hosted
    here. *)
Theorem checked_recipients_arrive m rcpt :
  Pipeline.RAction (recipient_check broken broken_grants broken_quota override now db m) = Pipeline.ActionContinue ->
  rcpt ∈ Emails.RcptTo (Emails.EEnvelope m) ->
  exists r n a, resolve rcpt true = Ok r /\ (n <= MaxAliasHops)%nat /\ reaches rcpt true n a /\
    route_kept rcpt n r /\ arrived rcpt true n a r /\ has_room r.
Proof.
  unfold recipient_check. destruct (head _) as [res|] eqn:E.
  - intros G I. apply head_Some in E as [rest E]. assert (res ∈ res :: rest) as X by left. rewrite <- E in X.
    apply list_elem_of_omap in X as (a & _ & C). by apply refused_one in C.
  - intros _ I. apply all_checked in E. rewrite Forall_forall in E. apply E in I.
    apply checked_one in I as (_ & r & Q & K). destruct (resolve_arrives _ _ _ Q) as (n & a & N & P & W & V).
    by exists r, n, a.
Qed.
End Facts.
End RecipientFacts.
