(* ===== verification/Auth.v ===== *)
(** * Tokens, passwords and secrets: internal/auth

    The claims of a session's tokens and how they are minted (auth.go, client_secret.go), the
    formats of app passwords and API keys (app_password.go, api_key.go), the recovery codes
    (totp.go) and how a stored password is read (auth.go, imported_password.go). Signing and
    reading a JWT, drawing random bytes, bcrypt and TOTP are library calls: [AuthLib] has the
    pure ones, the others are questions ([Accounts.Q]). *)

From S2P Require Import Prelude GoTime GoStrings.
From Stdlib Require Import Ascii.
Import GoTime GoStrings.
Local Open Scope Z_scope.

(** bcrypt's comparison; the imported schemes' (crypt(3) and Argon2, with the bounds their
    hashes are held to); the hex SHA-256; AES under MASTER_KEY, [None] when a text does not
    decrypt; and jwt.NewNumericDate. *)
Class AuthLib := {
  bcrypt_matches : string -> string -> bool;
  imported_matches : string -> string -> bool;
  sha256_hex : string -> string;
  DecryptString : string -> string -> option string;
  NewNumericDate : Time -> Time
}.

Module Auth.

(** ** auth.go *)

Definition AMRPassword : string := "pwd".
Definition AMROTP : string := "otp".
Definition TokenIssuer : string := "restmail".
Definition CredentialKindAPIKey : string := "api_key".
Definition CredentialKindClientSecret : string := "client_secret".

Record ScopedPermission := { PCapability : string; PScope : string }.
#[export] Instance ScopedPermission_eq : EqDecision ScopedPermission.
Proof. solve_decision. Defined.

(** The last six fields are never in a token: they are put there by who checks the request. *)
Record Claims := {
  ID : string;
  Subject : string;
  Issuer : string;
  IssuedAt : Time;
  ExpiresAt : Time;
  AccountID : Z;
  Address : string;
  AMR : list string;
  TwoFactor : bool;
  AuthTime : option Time;
  SetupPending : bool;
  CredentialEpoch : Z;
  SessionID : string;
  TokenType : string;
  MachineCredentialID : Z;
  CredentialID : Z;
  CredentialKind : string;
  APIKeyPermissions : list ScopedPermission;
  GatewaySessionID : Z;
  GatewayService : string;
  GatewayProtocol : string
}.
#[export] Instance Claims_eq : EqDecision Claims.
Proof. solve_decision. Defined.

Definition hasMethod (amr : list string) (method : string) : bool := existsb (fun m => bool_decide (m = method)) amr.
Definition HasAMR (c : Claims) (method : string) : bool := hasMethod (AMR c) method.
Definition IsAPIKey (c : Claims) : bool := bool_decide (CredentialKind c = CredentialKindAPIKey).
Definition IsScopedCredential (c : Claims) : bool :=
  IsAPIKey c || bool_decide (CredentialKind c = CredentialKindClientSecret).
Definition MailboxOnly (c : Claims) : bool := bool_decide (CredentialKind c = "app_password").

(** Claims as they come out of a token: what is not in it is zero. *)
Definition decoded (c : Claims) : Claims := {|
  ID := ID c; Subject := Subject c; Issuer := Issuer c; IssuedAt := IssuedAt c; ExpiresAt := ExpiresAt c; AccountID := AccountID c;
  Address := Address c; AMR := AMR c; TwoFactor := TwoFactor c; AuthTime := AuthTime c; SetupPending := SetupPending c;
  CredentialEpoch := CredentialEpoch c; SessionID := SessionID c; TokenType := TokenType c;
  MachineCredentialID := MachineCredentialID c; CredentialID := 0; CredentialKind := ""; APIKeyPermissions := []; GatewaySessionID := 0;
  GatewayService := ""; GatewayProtocol := "" |}.

Record JWTService := { secret : string; accessExpiry : Duration; refreshExpiry : Duration; issuer : string }.
(** What ContinueSession and ContinueAuthentication set. *)
Record tokenOptions := { sessionID : string; continued : bool; authTime : option Time }.
Definition sign_in_options : tokenOptions := {| sessionID := ""; continued := false; authTime := None |}.

Section Mint.
Context `{AuthLib}.
(** When the tokens say the second factor was proved. *)
Definition auth_time (amr : list string) (o : tokenOptions) (now : Time) : option Time :=
  if hasMethod amr AMROTP then (if continued o then authTime o else Some (NewNumericDate now)) else None.
(** GenerateSession's [claims]. *)
Definition session_claims (s : JWTService) (account : Z) (address : string) (epoch : Z) (amr : list string) (setupPending : bool)
    (o : tokenOptions) (now : Time) (sid jti tokenType : string) (expires : Time) : Claims := {|
  ID := jti; Subject := "account:" +:+ itoa account; Issuer := issuer s; IssuedAt := NewNumericDate now;
  ExpiresAt := NewNumericDate expires; AccountID := account; Address := address; AMR := amr; TwoFactor := hasMethod amr AMROTP;
  AuthTime := auth_time amr o now; SetupPending := setupPending; CredentialEpoch := epoch; SessionID := sid; TokenType := tokenType;
  MachineCredentialID := 0; CredentialID := 0; CredentialKind := ""; APIKeyPermissions := []; GatewaySessionID := 0;
  GatewayService := ""; GatewayProtocol := "" |}.
End Mint.

Record TokenPair := {
  AccessToken : string; RefreshToken : string; ExpiresIn : Z; RefreshJTI : string; RefreshExpiresAt : Time; SessionSID : string
}.
(** [int(d.Seconds())]: whole seconds, for durations whose float64 is exact. *)
Definition whole_seconds (d : Duration) : Z := Z.quot d Second.

(** ** Passwords *)

Definition DummyPasswordHash : string := "{BLF-CRYPT}$2a$10$aA7IA.HJ0RwvnriddDdy0OX/T7cjApOOFFehVikg6m7FO01jW4iCu".
Definition importedSchemes : list string :=
  ["{SHA256-CRYPT}"; "{SHA512-CRYPT}"; "{ARGON2ID}"; "{ARGON2I}"; "$5$"; "$6$"; "$argon2"].
Definition isImportedHash (hash : string) : bool := existsb (HasPrefix hash) importedSchemes.
Definition PasswordNeedsRehash (password hash : string) : bool := (len password <=? 72) && isImportedHash hash.
Section Passwords.
Context `{AuthLib}.
Definition CheckPassword (password hash : string) : bool :=
  if isImportedHash hash then imported_matches password hash
  else bcrypt_matches password (if (11 <? len hash) && bool_decide (take_bytes 11 hash = "{BLF-CRYPT}") then drop_bytes 11 hash else hash).
End Passwords.

(** ** totp.go *)

Definition remove_byte (b : ascii) (s : string) : string := concat_all (split_byte b s).
Definition NormalizeRecoveryCode `{Unicode} (s : string) : string :=
  remove_byte " "%char (remove_byte "-"%char (ToLower (TrimSpace s))).
Definition CheckRecoveryCode `{Unicode, AuthLib} (code hash : string) : bool := CheckPassword (NormalizeRecoveryCode code) hash.

(** ** app_password.go and api_key.go *)

Definition AppPasswordPrefix : string := "rm_".
Definition APIKeyPrefix : string := "rmk_".
Definition appPasswordIDLength : nat := 12.
Definition appPasswordSecretLength : nat := 43.
Definition base62Alphabet : string := "ABCDEFGHIJKLMNOPQRSTUVWXYZabcdefghijklmnopqrstuvwxyz0123456789".
Definition base62_byte (c : ascii) : bool := in_range 65 90 c || in_range 97 122 c || is_digit c.
Definition isBase62 (s : string) : bool := sforall base62_byte s.
(** What both formats share: the public id and the secret after a prefix. *)
Definition parse_secret (prefix s : string) : option (string * string) :=
  if negb (String.length s =? String.length prefix + appPasswordIDLength + 1 + appPasswordSecretLength)%nat then None
  else match cut_prefix prefix s with
       | None => None
       | Some rest =>
           let publicID := take_bytes appPasswordIDLength rest in
           let secret := drop_bytes (S appPasswordIDLength) rest in
           if negb (bool_decide (String.get appPasswordIDLength rest = Some "_"%char)) then None
           else if negb (isBase62 publicID) || negb (isBase62 secret) then None
           else Some (publicID, secret)
       end.
Definition ParseAppPassword : string -> option (string * string) := parse_secret AppPasswordPrefix.
Definition IsAppPassword (s : string) : bool := match ParseAppPassword s with Some _ => true | None => false end.
Definition ParseAPIKey : string -> option (string * string) := parse_secret APIKeyPrefix.
Definition LooksLikeAPIKey (token : string) : bool := HasPrefix token APIKeyPrefix.
Section Secrets.
Context `{AuthLib}.
Definition HashAppPasswordSecret : string -> string := sha256_hex.
Definition dummyAppPasswordHash : string := HashAppPasswordSecret (concat_all (repeat "0" appPasswordSecretLength)).
Definition AppPasswordSecretMatches (secret hash : string) : bool :=
  let want := if bool_decide (hash = "") then dummyAppPasswordHash else hash in
  bool_decide (HashAppPasswordSecret secret = want) && negb (bool_decide (hash = "")).
Definition APIKeySecretMatches : string -> string -> bool := AppPasswordSecretMatches.
End Secrets.

(** randomBase62 reads buffers of bytes until it has enough: what one byte adds. *)
Definition base62_limit : nat := 248.
Definition base62_char (b : ascii) : option ascii :=
  if (nat_of_ascii b <? base62_limit)%nat then String.get (nat_of_ascii b mod 62) base62Alphabet else None.
Definition base62_chars (n : nat) (bytes : list ascii) : list ascii := take n (omap base62_char bytes).

Inductive credential_reason :=
| CredentialUnknown | CredentialWrongSecret | CredentialWrongAddress | CredentialRevoked | CredentialExpired
| CredentialAccountInactive | CredentialWrongPassword | CredentialNeedsAppPassword | CredentialAccountInSetup | CredentialMalformed.
#[export] Instance credential_reason_eq : EqDecision credential_reason.
Proof. solve_decision. Defined.
(** [RefusedID]: the credential, once its secret has matched. *)
Record CredentialRefusal := { Reason : credential_reason; PublicID : string; RefusedID : option Z }.

(** ** client_secret.go *)

Definition MachineTokenLifetime : Duration := 300 * Second.
Definition ClientSecretPermissionAllowed (p : ScopedPermission) : bool :=
  let c := PCapability p in
  if bool_decide (c ∈ ["mail:read"; "mail:write"; "mail:send"; "mail:receive"]) then true
  else if bool_decide (c ∈ ["domains:read"; "accounts:read"; "pipelines:read"; "pipelines:write"; "pipelines:delete"])
  then (len "domain:" <? len (PScope p)) && bool_decide (take_bytes 7 (PScope p) = "domain:")
  else false.
End Auth.
