(* ===== verification/Accounts.v ===== *)
(** * Accounts, credentials and sessions in the database

    The tables of internal/db/models (mailbox.go, credential.go, refresh_token.go,
    gateway_session.go, one_time_token.go) and the statements on them of
    internal/db/repositories (credential.go, two_factor.go, refresh_token.go,
    gateway_session.go), internal/api/handlers (sessions.go, auth.go, credentials.go) and
    internal/bootstrap (tokens.go, recovery.go). A transaction is one function: it is done
    whole or not at all. [D] is every statement a handler makes and [exec] what the database
    answers when it does not fail; an account's row is also its mailbox and what its grants
    are held by. *)

From S2P Require Import Prelude GoTime GoStrings MailAddress QueueModel Prog MailStore Grants GrantStore Auth.
From Stdlib Require Import Ascii.
Import GoTime GoStrings Auth Prog.
Local Open Scope Z_scope.

Module Accounts.

Definition KindPassword : string := "password".
Definition KindTOTP : string := "totp".
Definition KindRecoveryCode : string := "recovery_code".
Definition KindAppPassword : string := "app_password".

Record Account := {
  AcID : Z;
  AcAddress : string;
  DisplayName : string;
  Active : bool;
  PasswordChangeRequired : bool;
  TwoFactorRequired : bool;
  Epoch : Z;
  BootstrapExpiresAt : option Time;
  LastPasswordChange : option Time;
  LastLoginAt : option Time;
  AcDomain : Z;
  AcOwner : option Z
}.
Definition BootstrapExpired (a : Account) (now : Time) : bool :=
  PasswordChangeRequired a && match BootstrapExpiresAt a with Some t => negb (Before now t) | None => false end.

Record Credential := {
  CrID : Z;
  CrAccount : Z;
  Kind : string;
  Name : string;
  CrPublicID : string;
  SecretHash : string;
  EncryptedSecret : string;
  Permissions : list ScopedPermission;
  CreatedByID : option Z;
  ConfirmedAt : option Time;
  LastUsedAt : option Time;
  CrExpiresAt : option Time;
  RevokedAt : option Time
}.
Definition is_none {A} (o : option A) : bool := match o with None => true | Some _ => false end.
(** credential.go's Usable, and the same in SQL: [revoked_at IS NULL AND (expires_at IS NULL
    OR expires_at > now)]. *)
Definition CredentialUsable (c : Credential) (now : Time) : bool :=
  is_none (RevokedAt c) && match CrExpiresAt c with None => true | Some t => Before now t end.

Inductive token_status := RefreshTokenActive | RefreshTokenRotated | RefreshTokenRevoked.
#[export] Instance token_status_eq : EqDecision token_status.
Proof. solve_decision. Defined.
Record RefreshRow := { Jti : string; RfAccount : Z; RfSession : string; Status : token_status; RfExpiresAt : Time }.
Record GatewaySession := {
  GwID : Z; TokenHash : string; GwAccount : Z; GwCredential : Z; GwKind : string; Service : string; Protocol : string;
  GwLastUsedAt : Time; ClosedAt : option Time
}.
Record OneTimeToken := { Purpose : string; OtHash : string; OtAccount : option Z; OtExpiresAt : Time; UsedAt : option Time }.
(** A credentials.revoke entry of the audit log. *)
Record Revocation := { VAccount : Z; VCredential : Z; VPublicID : string; VName : string; VReason : string }.

Record Tables := {
  accounts : list Account;
  credentials : list Credential;
  next_credential : Z;
  refresh_tokens : list RefreshRow;
  gateway_sessions : list GatewaySession;
  next_session : Z;
  one_time_tokens : list OneTimeToken;
  revocations : list Revocation;
  granted : GrantStore.GDB;           (* the roles and grants of it *)
  hosted : list Store.HostedDomain
}.
Definition with_accounts (l : list Account) (t : Tables) : Tables := {|
  accounts := l; credentials := credentials t; next_credential := next_credential t; refresh_tokens := refresh_tokens t;
  gateway_sessions := gateway_sessions t; next_session := next_session t; one_time_tokens := one_time_tokens t;
  revocations := revocations t; granted := granted t; hosted := hosted t |}.
Definition with_credentials (l : list Credential) (t : Tables) : Tables := {|
  accounts := accounts t; credentials := l; next_credential := next_credential t; refresh_tokens := refresh_tokens t;
  gateway_sessions := gateway_sessions t; next_session := next_session t; one_time_tokens := one_time_tokens t;
  revocations := revocations t; granted := granted t; hosted := hosted t |}.
Definition with_refresh (l : list RefreshRow) (t : Tables) : Tables := {|
  accounts := accounts t; credentials := credentials t; next_credential := next_credential t; refresh_tokens := l;
  gateway_sessions := gateway_sessions t; next_session := next_session t; one_time_tokens := one_time_tokens t;
  revocations := revocations t; granted := granted t; hosted := hosted t |}.
Definition with_sessions (l : list GatewaySession) (next : Z) (t : Tables) : Tables := {|
  accounts := accounts t; credentials := credentials t; next_credential := next_credential t; refresh_tokens := refresh_tokens t;
  gateway_sessions := l; next_session := next; one_time_tokens := one_time_tokens t;
  revocations := revocations t; granted := granted t; hosted := hosted t |}.
Definition with_one_time (l : list OneTimeToken) (t : Tables) : Tables := {|
  accounts := accounts t; credentials := credentials t; next_credential := next_credential t; refresh_tokens := refresh_tokens t;
  gateway_sessions := gateway_sessions t; next_session := next_session t; one_time_tokens := l;
  revocations := revocations t; granted := granted t; hosted := hosted t |}.
Definition with_revocations (l : list Revocation) (t : Tables) : Tables := {|
  accounts := accounts t; credentials := credentials t; next_credential := next_credential t; refresh_tokens := refresh_tokens t;
  gateway_sessions := gateway_sessions t; next_session := next_session t; one_time_tokens := one_time_tokens t;
  revocations := l; granted := granted t; hosted := hosted t |}.
(** The row takes the next id. *)
Definition insert_credential (f : Z -> Credential) (t : Tables) : Tables := {|
  accounts := accounts t; credentials := credentials t ++ [f (next_credential t)]; next_credential := next_credential t + 1;
  refresh_tokens := refresh_tokens t; gateway_sessions := gateway_sessions t; next_session := next_session t;
  one_time_tokens := one_time_tokens t; revocations := revocations t; granted := granted t; hosted := hosted t |}.

(** UPDATE ... WHERE. *)
Definition update {A} (where_ : A -> bool) (set_ : A -> A) (l : list A) : list A :=
  map (fun a => if where_ a then set_ a else a) l.
Definition affected {A} (where_ : A -> bool) (l : list A) : bool := existsb where_ l.

(** ** credential.go *)

Definition of_account (account : Z) (kinds : list string) (c : Credential) : bool :=
  (CrAccount c =? account) && bool_decide (Kind c ∈ kinds).
Definition revoke_at (now : Time) (c : Credential) : Credential := {|
  CrID := CrID c; CrAccount := CrAccount c; Kind := Kind c; Name := Name c; CrPublicID := CrPublicID c; SecretHash := SecretHash c;
  EncryptedSecret := EncryptedSecret c; Permissions := Permissions c; CreatedByID := CreatedByID c; ConfirmedAt := ConfirmedAt c;
  LastUsedAt := LastUsedAt c; CrExpiresAt := CrExpiresAt c; RevokedAt := Some now |}.
Definition with_hash (hash : string) (c : Credential) : Credential := {|
  CrID := CrID c; CrAccount := CrAccount c; Kind := Kind c; Name := Name c; CrPublicID := CrPublicID c; SecretHash := hash;
  EncryptedSecret := EncryptedSecret c; Permissions := Permissions c; CreatedByID := CreatedByID c; ConfirmedAt := ConfirmedAt c;
  LastUsedAt := LastUsedAt c; CrExpiresAt := CrExpiresAt c; RevokedAt := RevokedAt c |}.
Definition confirmed_at (now : Time) (c : Credential) : Credential := {|
  CrID := CrID c; CrAccount := CrAccount c; Kind := Kind c; Name := Name c; CrPublicID := CrPublicID c; SecretHash := SecretHash c;
  EncryptedSecret := EncryptedSecret c; Permissions := Permissions c; CreatedByID := CreatedByID c; ConfirmedAt := Some now;
  LastUsedAt := LastUsedAt c; CrExpiresAt := CrExpiresAt c; RevokedAt := RevokedAt c |}.
Definition used_at (now : Time) (c : Credential) : Credential := {|
  CrID := CrID c; CrAccount := CrAccount c; Kind := Kind c; Name := Name c; CrPublicID := CrPublicID c; SecretHash := SecretHash c;
  EncryptedSecret := EncryptedSecret c; Permissions := Permissions c; CreatedByID := CreatedByID c; ConfirmedAt := ConfirmedAt c;
  LastUsedAt := Some now; CrExpiresAt := CrExpiresAt c; RevokedAt := RevokedAt c |}.

Definition Passwords (account : Z) (now : Time) (t : Tables) : list Credential :=
  List.filter (fun c => of_account account [KindPassword] c && CredentialUsable c now) (credentials t).
(** What RevokeKinds revokes: the rows it answers, and the table after. *)
Definition to_revoke (account : Z) (kinds : list string) (c : Credential) : bool := of_account account kinds c && is_none (RevokedAt c).
Definition RevokeKinds (account : Z) (now : Time) (kinds : list string) (t : Tables) : list Credential * Tables :=
  (List.filter (to_revoke account kinds) (credentials t),
   with_credentials (update (to_revoke account kinds) (revoke_at now) (credentials t)) t).
Definition RevokeAppPasswords (account : Z) (now : Time) : Tables -> list Credential * Tables :=
  RevokeKinds account now [KindAppPassword; CredentialKindAPIKey; CredentialKindClientSecret].
(** A credential of the account's own, under a fresh public id. *)
Definition new_credential (account : Z) (kind name publicID hash encrypted : string) (by_ : option Z) (id : Z) : Credential := {|
  CrID := id; CrAccount := account; Kind := kind; Name := name; CrPublicID := publicID; SecretHash := hash;
  EncryptedSecret := encrypted; Permissions := []; CreatedByID := by_; ConfirmedAt := None; LastUsedAt := None;
  CrExpiresAt := None; RevokedAt := None |}.
Definition SetPassword (account : Z) (hash publicID : string) (by_ : option Z) (now : Time) (t : Tables) : Tables :=
  insert_credential (new_credential account KindPassword "Password" publicID hash "" by_) (snd (RevokeKinds account now [KindPassword] t)).
(** The guarded update of a hash: by its id, only over the hash that was proven. *)
Definition upgradable (id : Z) (old : string) (now : Time) (c : Credential) : bool :=
  (CrID c =? id) && bool_decide (SecretHash c = old) && CredentialUsable c now.
Definition HasTwoFactor (account : Z) (t : Tables) : bool :=
  existsb (fun c => of_account account [KindTOTP] c && is_none (RevokedAt c) && negb (is_none (ConfirmedAt c))) (credentials t).
Definition find_credential (f : Credential -> bool) (t : Tables) : option Credential := head (List.filter f (credentials t)).
Definition find_account (id : Z) (t : Tables) : option Account := head (List.filter (fun a => AcID a =? id) (accounts t)).
(** [JOIN mailboxes]: the credential usable and its account active. *)
Definition Usable (id : Z) (now : Time) (t : Tables) : bool :=
  existsb (fun c => (CrID c =? id) && CredentialUsable c now &&
                    existsb (fun a => (AcID a =? CrAccount c) && Active a) (accounts t)) (credentials t).
Definition LastUsedEvery : Duration := Minute.
(** [last_used_at IS NULL OR last_used_at <= now - LastUsedEvery]. *)
Definition stale_use (id : Z) (now : Time) (c : Credential) : bool :=
  (CrID c =? id) && match LastUsedAt c with None => true | Some u => negb (After u (Add now (- LastUsedEvery))) end.

(** ** two_factor.go *)

Definition totp_row (account : Z) (confirmed : bool) (c : Credential) : bool :=
  of_account account [KindTOTP] c && is_none (RevokedAt c) && (negb confirmed || negb (is_none (ConfirmedAt c))).
(** [Order("id DESC").First]. *)
Definition newest (l : list Credential) : option Credential :=
  fold_left (fun best c => match best with Some b => if CrID b <? CrID c then Some c else best | None => Some c end) l None.
Definition Get (account : Z) (t : Tables) : option Credential := newest (List.filter (totp_row account false) (credentials t)).
Definition GetActive (account : Z) (t : Tables) : option Credential := newest (List.filter (totp_row account true) (credentials t)).
Definition ActiveTOTPs (account : Z) (t : Tables) : list Credential := List.filter (totp_row account true) (credentials t).
Definition recovery_codes (account : Z) (t : Tables) : list Credential :=
  List.filter (fun c => of_account account [KindRecoveryCode] c && is_none (RevokedAt c)) (credentials t).
(** The update that spends a recovery code. *)
Definition spendable (id : Z) (c : Credential) : bool := (CrID c =? id) && is_none (RevokedAt c).
Definition TwoFactorKinds : list string := [KindTOTP; KindRecoveryCode].
(** The public ids are drawn one per row. *)
Definition Enroll (account : Z) (encrypted : string) (publicID : string) (codes : list (string * string)) (now : Time) (t : Tables) : Tables :=
  let t := snd (RevokeKinds account now TwoFactorKinds t) in
  let t := insert_credential (new_credential account KindTOTP "Authenticator" publicID "" encrypted (Some account)) t in
  fold_left (fun t c => insert_credential (new_credential account KindRecoveryCode "Recovery code" (fst c) (snd c) "" (Some account)) t) codes t.
Definition confirmable (id : Z) (c : Credential) : bool :=
  (CrID c =? id) && bool_decide (Kind c = KindTOTP) && is_none (ConfirmedAt c) && is_none (RevokedAt c).

(** ** refresh_token.go *)

Definition with_status (s : token_status) (r : RefreshRow) : RefreshRow := {|
  Jti := Jti r; RfAccount := RfAccount r; RfSession := RfSession r; Status := s; RfExpiresAt := RfExpiresAt r |}.
Definition live_token (jti : string) (r : RefreshRow) : bool :=
  bool_decide (Jti r = jti) && bool_decide (Status r = RefreshTokenActive).
(** Whether a row was rotated. *)
Definition Rotate (jti : string) (t : Tables) : bool * Tables :=
  (affected (live_token jti) (refresh_tokens t),
   with_refresh (update (live_token jti) (with_status RefreshTokenRotated) (refresh_tokens t)) t).
Definition Revoke (jti : string) (t : Tables) : Tables :=
  with_refresh (update (fun r => bool_decide (Jti r = jti)) (with_status RefreshTokenRevoked) (refresh_tokens t)) t.
Definition live_of (account : Z) (r : RefreshRow) : bool :=
  (RfAccount r =? account) && bool_decide (Status r = RefreshTokenActive).
Definition revoke_tokens (account : Z) (t : Tables) : Tables :=
  with_refresh (update (live_of account) (with_status RefreshTokenRevoked) (refresh_tokens t)) t.

(** ** gateway_session.go *)

Definition GatewaySessionIdle : Duration := 24 * Hour.
Definition gatewaySessionTouchEvery : Duration := Minute.
Definition closed_at (now : Time) (s : GatewaySession) : GatewaySession := {|
  GwID := GwID s; TokenHash := TokenHash s; GwAccount := GwAccount s; GwCredential := GwCredential s; GwKind := GwKind s;
  Service := Service s; Protocol := Protocol s; GwLastUsedAt := GwLastUsedAt s; ClosedAt := Some now |}.
Definition touched_at (now : Time) (s : GatewaySession) : GatewaySession := {|
  GwID := GwID s; TokenHash := TokenHash s; GwAccount := GwAccount s; GwCredential := GwCredential s; GwKind := GwKind s;
  Service := Service s; Protocol := Protocol s; GwLastUsedAt := now; ClosedAt := ClosedAt s |}.
Definition update_sessions (where_ : GatewaySession -> bool) (set_ : GatewaySession -> GatewaySession) (t : Tables) : Tables :=
  with_sessions (update where_ set_ (gateway_sessions t)) (next_session t) t.
Definition is_open (s : GatewaySession) : bool := is_none (ClosedAt s).
Definition CloseAllForAccount (account : Z) (now : Time) : Tables -> Tables :=
  update_sessions (fun s => (GwAccount s =? account) && is_open s) (closed_at now).
Definition RevokeAllForAccount (account : Z) (now : Time) (t : Tables) : Tables :=
  CloseAllForAccount account now (revoke_tokens account t).

(** ** Ending sessions, new passwords, resets *)

Definition with_epoch (e : Z) (a : Account) : Account := {|
  AcID := AcID a; AcAddress := AcAddress a; DisplayName := DisplayName a; Active := Active a;
  PasswordChangeRequired := PasswordChangeRequired a; TwoFactorRequired := TwoFactorRequired a; Epoch := e;
  BootstrapExpiresAt := BootstrapExpiresAt a; LastPasswordChange := LastPasswordChange a; LastLoginAt := LastLoginAt a;
  AcDomain := AcDomain a; AcOwner := AcOwner a |}.
Definition own_password (now : Time) (a : Account) : Account := {|
  AcID := AcID a; AcAddress := AcAddress a; DisplayName := DisplayName a; Active := Active a;
  PasswordChangeRequired := false; TwoFactorRequired := TwoFactorRequired a; Epoch := Epoch a; BootstrapExpiresAt := None;
  LastPasswordChange := Some now; LastLoginAt := LastLoginAt a; AcDomain := AcDomain a; AcOwner := AcOwner a |}.
Definition let_back_in (now : Time) (a : Account) : Account := {|
  AcID := AcID a; AcAddress := AcAddress a; DisplayName := DisplayName a; Active := true;
  PasswordChangeRequired := false; TwoFactorRequired := true; Epoch := Epoch a + 1; BootstrapExpiresAt := None;
  LastPasswordChange := Some now; LastLoginAt := LastLoginAt a; AcDomain := AcDomain a; AcOwner := AcOwner a |}.
Definition logged_in (now : Time) (a : Account) : Account := {|
  AcID := AcID a; AcAddress := AcAddress a; DisplayName := DisplayName a; Active := Active a;
  PasswordChangeRequired := PasswordChangeRequired a; TwoFactorRequired := TwoFactorRequired a; Epoch := Epoch a;
  BootstrapExpiresAt := BootstrapExpiresAt a; LastPasswordChange := LastPasswordChange a; LastLoginAt := Some now;
  AcDomain := AcDomain a; AcOwner := AcOwner a |}.
Definition update_account (id : Z) (f : Account -> Account) (t : Tables) : Tables :=
  with_accounts (update (fun a => AcID a =? id) f (accounts t)) t.
Definition endSessions (account : Z) (now : Time) (t : Tables) : Tables :=
  RevokeAllForAccount account now (update_account account (fun a => with_epoch (Epoch a + 1) a) t).
Definition record_revocations (reason : string) (revoked : list Credential) (t : Tables) : Tables :=
  with_revocations (revocations t ++ map (fun c => {| VAccount := CrAccount c; VCredential := CrID c; VPublicID := CrPublicID c;
                                                      VName := Name c; VReason := reason |}) revoked) t.
Definition CredentialRevokedPasswordChanged : string := "password_changed".
Definition CredentialRevokedAccountReset : string := "account_reset".
Definition revokeAppPasswordsForNewPassword (account : Z) (now : Time) (t : Tables) : Tables :=
  let '(revoked, t) := RevokeAppPasswords account now t in record_revocations CredentialRevokedPasswordChanged revoked t.
(** [now] is the handler's clock, [at_] the one RevokeAllForAccount reads. *)
Definition setAccountPassword (account : Z) (hash publicID : string) (by_ : option Z) (now at_ : Time) (t : Tables) : Tables :=
  endSessions account at_ (revokeAppPasswordsForNewPassword account now (SetPassword account hash publicID by_ now t)).
(** The transaction of a password change and of a recovery. *)
Definition change_password (account : Z) (hash publicID : string) (now at_ : Time) (t : Tables) : Tables :=
  setAccountPassword account hash publicID (Some account) now at_ (update_account account (own_password now) t).
Definition disable_two_factor (account : Z) (at_ : Time) (t : Tables) : Tables :=
  endSessions account at_ (snd (RevokeKinds account at_ TwoFactorKinds t)).
Definition resetCredentials (account : Z) (hash publicID : string) (now : Time) (t : Tables) : Tables :=
  let t := SetPassword account hash publicID None now t in
  let t := snd (RevokeKinds account now TwoFactorKinds t) in
  let '(revoked, t) := RevokeAppPasswords account now t in
  RevokeAllForAccount account now (record_revocations CredentialRevokedAccountReset revoked t).

(** bootstrap/tokens.go *)
Definition OneTimeTokenResetAdmin : string := "reset_admin".
Definition redeemable (hash purpose : string) (now : Time) (o : OneTimeToken) : bool :=
  bool_decide (OtHash o = hash) && bool_decide (Purpose o = purpose) && is_none (UsedAt o) && After (OtExpiresAt o) now.
Definition spent_at (now : Time) (o : OneTimeToken) : OneTimeToken := {|
  Purpose := Purpose o; OtHash := OtHash o; OtAccount := OtAccount o; OtExpiresAt := OtExpiresAt o; UsedAt := Some now |}.
Inductive redeem_error := ErrTokenInvalid | ErrPasswordTooShort | ErrNoSuchAdmin | RedeemFailed.
(** token_hash is unique: at most one row is spent. *)
Definition redeem (hash purpose : string) (now : Time) (t : Tables) : result redeem_error (OneTimeToken * Tables) :=
  match List.filter (redeemable hash purpose now) (one_time_tokens t) with
  | [o] => Ok (o, with_one_time (update (redeemable hash purpose now) (spent_at now) (one_time_tokens t)) t)
  | _ => Err ErrTokenInvalid
  end.
Definition reset_admin (token_hash hash publicID : string) (now : Time) (t : Tables) : result redeem_error (Account * Tables) :=
  '(o, t) ← redeem token_hash OneTimeTokenResetAdmin now t;
  match OtAccount o with
  | None => Err ErrTokenInvalid
  | Some id =>
      match find_account id t with
      | None => Err ErrNoSuchAdmin
      | Some _ =>
          let t := resetCredentials id hash publicID now (update_account id (let_back_in now) t) in
          match find_account id t with Some a => Ok (a, t) | None => Err RedeemFailed end
      end
  end.

(** ** The statements a handler makes *)

(** Account rows as an address is looked up, and as grants are loaded. *)
Definition mailbox_of (a : Account) : Store.Mailbox :=
  {| Store.MbID := AcID a; Store.MbAddress := AcAddress a; Store.MbDomainID := AcDomain a; Store.MbActive := Active a |}.
Definition address_tables (t : Tables) : Store.DB := {|
  Store.queue := ∅; Store.next_queue := 0; Store.messages := ∅; Store.next_message := 0; Store.suppressions := ∅;
  Store.domains := hosted t; Store.mailboxes := mailbox_of <$> accounts t |}.
Definition holder_of (a : Account) : GrantStore.Account :=
  {| GrantStore.AcID := AcID a; GrantStore.AcAddress := AcAddress a; GrantStore.AcActive := Active a; GrantStore.OwnerID := AcOwner a |}.
Definition grant_tables (t : Tables) : GrantStore.GDB := {|
  GrantStore.accounts := holder_of <$> accounts t; GrantStore.roles := GrantStore.roles (granted t);
  GrantStore.next_role := GrantStore.next_role (granted t); GrantStore.capabilities := GrantStore.capabilities (granted t);
  GrantStore.role_capabilities := GrantStore.role_capabilities (granted t); GrantStore.grants := GrantStore.grants (granted t);
  GrantStore.next_grant := GrantStore.next_grant (granted t); GrantStore.activations := GrantStore.activations (granted t);
  GrantStore.next_activation := GrantStore.next_activation (granted t); GrantStore.credentials := GrantStore.credentials (granted t);
  GrantStore.audit_log := GrantStore.audit_log (granted t) |}.

(** [now] is the handler's clock; [exec] has the clock of the statements that read their
    own. The tokens, secrets and public ids drawn inside a transaction are arguments. *)
Inductive D : Type -> Type :=
| DAddress (address : string) : D (option Account)                       (* FindMailboxByAddress *)
| DAddressIs (address : string) : D (option Account)                     (* Where("address = ?") *)
| DAccount (id : Z) : D (option Account)
| DPasswords (account : Z) (now : Time) : D (list Credential)
| DUpgrade (id : Z) (old hash : string) (now : Time) : D bool
| DHasTwoFactor (account : Z) : D bool
| DGet (account : Z) : D (option Credential)
| DGetActive (account : Z) : D (option Credential)
| DActive (account : Z) : D (list Credential)
| DRecoveryCodes (account : Z) : D (list Credential)
| DSpend (id : Z) (now : Time) : D bool
| DEnroll (account : Z) (encrypted publicID : string) (codes : list (string * string)) : D unit
| DConfirm (id : Z) : D bool
| DDisable (account : Z) : D unit
| DHeld (account : Z) (now : Time) : D Held.Held
| DSave (r : RefreshRow) : D unit
| DRotate (jti : string) : D bool
| DRevoke (jti : string) : D unit
| DRevokeAll (account : Z) : D unit
| DSetPassword (account : Z) (hash publicID : string) (now : Time) : D unit
| DResetAdmin (token_hash hash publicID : string) : D (result redeem_error Account)
| DLoggedIn (account : Z) (now : Time) : D unit
| DByPublicID (publicID kind : string) : D (option Credential)
| DCredential (id : Z) : D (option Credential)
| DTouch (id : Z) (now : Time) : D unit
| DUsable (id : Z) (now : Time) : D bool
| DOpen (hash : string) (account credential : Z) (kind service protocol : string) (now : Time) : D GatewaySession
| DSession (hash : string) : D (option GatewaySession)
| DTouchSession (id : Z) (now : Time) : D unit
| DEndSession (id : Z) (now : Time) : D unit
| DCloseSession (hash service : string) (now : Time) : D unit.

Section Exec.
Context `{Unicode, MailLib, TextLib} (override : option Held.Held).

Definition spend (id : Z) (now : Time) (c : Credential) : Credential := used_at now (revoke_at now c).
Definition new_session (hash : string) (account credential : Z) (kind service protocol : string) (now : Time) (id : Z) : GatewaySession := {|
  GwID := id; TokenHash := hash; GwAccount := account; GwCredential := credential; GwKind := kind; Service := service;
  Protocol := protocol; GwLastUsedAt := now; ClosedAt := None |}.
Definition with_unused_hash (hash : string) (s : GatewaySession) : bool := bool_decide (TokenHash s = hash) && is_open s.

(** What the database answers, and the tables after; [Err]: it refuses, and nothing is
    done. [jti] is unique. *)
Definition exec (at_ : Time) {X} (d : D X) (t : Tables) : result unit X * Tables :=
  match d in D X return result unit X * Tables with
  | DAddress address =>
      (match Mailboxes.FindMailboxByAddress Store.sound (address_tables t) address with
       | Ok m => Ok (find_account (Store.MbID m) t)
       | Err Mailboxes.ErrRecordNotFound => Ok None
       | Err _ => Err tt
       end, t)
  | DAddressIs address => (Ok (head (List.filter (fun a => bool_decide (AcAddress a = address)) (accounts t))), t)
  | DAccount id => (Ok (find_account id t), t)
  | DPasswords account now => (Ok (Passwords account now t), t)
  | DUpgrade id old hash now =>
      (Ok (affected (upgradable id old now) (credentials t)),
       with_credentials (update (upgradable id old now) (with_hash hash) (credentials t)) t)
  | DHasTwoFactor account => (Ok (HasTwoFactor account t), t)
  | DGet account => (Ok (Get account t), t)
  | DGetActive account => (Ok (GetActive account t), t)
  | DActive account => (Ok (ActiveTOTPs account t), t)
  | DRecoveryCodes account => (Ok (recovery_codes account t), t)
  | DSpend id now =>
      (Ok (affected (spendable id) (credentials t)),
       with_credentials (update (spendable id) (spend id now) (credentials t)) t)
  | DEnroll account encrypted publicID codes => (Ok tt, Enroll account encrypted publicID codes at_ t)
  | DConfirm id =>
      (Ok (affected (confirmable id) (credentials t)),
       with_credentials (update (confirmable id) (confirmed_at at_) (credentials t)) t)
  | DDisable account => (Ok tt, disable_two_factor account at_ t)
  | DHeld account now =>
      (match GrantStore.Load GrantStore.sound (grant_tables t) now override account with Ok h => Ok h | Err _ => Err tt end, t)
  | DSave r =>
      if existsb (fun r' => bool_decide (Jti r' = Jti r)) (refresh_tokens t) || bool_decide (RfSession r = "") then (Err tt, t)
      else (Ok tt, with_refresh (refresh_tokens t ++ [r]) t)
  | DRotate jti => let '(rotated, t) := Rotate jti t in (Ok rotated, t)
  | DRevoke jti => (Ok tt, Revoke jti t)
  | DRevokeAll account => (Ok tt, RevokeAllForAccount account at_ t)
  | DSetPassword account hash publicID now => (Ok tt, change_password account hash publicID now at_ t)
  | DResetAdmin token_hash hash publicID =>
      match reset_admin token_hash hash publicID at_ t with
      | Ok (a, t) => (Ok (Ok a), t)
      | Err e => (Ok (Err e), t)
      end
  | DLoggedIn account now => (Ok tt, update_account account (logged_in now) t)
  | DByPublicID publicID kind =>
      (Ok (find_credential (fun c => bool_decide (CrPublicID c = publicID) && bool_decide (Kind c = kind)) t), t)
  | DCredential id => (Ok (find_credential (fun c => CrID c =? id) t), t)
  | DTouch id now => (Ok tt, with_credentials (update (stale_use id now) (used_at now) (credentials t)) t)
  | DUsable id now => (Ok (Usable id now t), t)
  | DOpen hash account credential kind service protocol now =>
      let s := new_session hash account credential kind service protocol now (next_session t) in
      (Ok s, with_sessions (gateway_sessions t ++ [s]) (next_session t + 1) t)
  | DSession hash => (Ok (head (List.filter (with_unused_hash hash) (gateway_sessions t))), t)
  | DTouchSession id now => (Ok tt, update_sessions (fun s => GwID s =? id) (touched_at now) t)
  | DEndSession id now => (Ok tt, update_sessions (fun s => (GwID s =? id) && is_open s) (closed_at now) t)
  | DCloseSession hash service now =>
      (Ok tt, update_sessions (fun s => with_unused_hash hash s && bool_decide (Service s = service)) (closed_at now) t)
  end.
End Exec.
End Accounts.
