(* ===== verification/SignIn.v ===== *)
(** * Signing in, refreshing, recovering: internal/api/handlers/auth.go, two_factor.go

    The sign-in, refresh, sign-out, reset, recovery and password change handlers of
    auth.go, the second factor of two_factor.go and fresh_two_factor.go, the tokens of
    internal/auth/auth.go, password matching of repositories/credential.go and
    bootstrap/tokens.go, as programs that ask the database ([Accounts.D]), the clock, the
    random generator and the libraries ([Q]). The handlers are as the server builds them:
    with a database. *)

From S2P Require Import Prelude GoTime GoStrings MailAddress Prog MailStore Grants GrantStore Auth Accounts.
From Stdlib Require Import Ascii.
Import GoTime GoStrings Auth Prog Accounts.
Local Open Scope Z_scope.

Module SignIn.

Inductive token_error := ErrTokenExpired | ErrInvalidToken | ErrWrongTokenType.
(** [QRandom] is 16 random bytes in hex, [QToken] 32 in base64, [QSign] an HS256 JWT of the claims, [QParse]
    jwt.ParseWithClaims pinned to HMAC, the issuer and the clock (what it decodes, [decoded]), [QTotp]
    totp.ValidateCustom at the moment it runs. The answers of the last group (the session
    cache, the push devices, the budgets of refusals, the audit log and the password memo)
    decide nothing that is proved here: any answer may come. *)
Inductive Q : Type -> Type :=
| QNow : Q Time
| QRandom : Q (result unit string)
| QPublicID : Q (result unit string)
| QSign (c : Claims) : Q (result unit string)
| QParse (token : string) : Q (result token_error Claims)
| QHash (password : string) : Q (result unit string)
| QTotp (code secret : string) : Q bool
| QTotpKey (issuer label : string) : Q (result unit (string * string))
| QEncrypt (text key : string) : Q (result unit string)
| QRecoveryCode : Q (result unit string)
| QDb {X} (d : D X) : Q (result unit X)
| QForget (account : Z) : Q unit
| QDevices (sid : string) : Q (result unit Z)
| QAvailable (address : string) : Q (option Duration)
| QCharge (address : string) : Q unit
| QAllow (key : string) : Q (option Duration)
| QRefused (address : string) (r : CredentialRefusal) : Q unit
| QToken : Q (result unit string)
| QRemembered (c : Credential) (secret : string) : Q bool
| QRemember (c : Credential) (secret : string) : Q unit.

(** [endpoint.Refuse], [endpoint.Invalid] by its fields, an error the server answers 500,
    and the recovery's 429. *)
Inductive refusal :=
| Refuse (status : Z) (code message : string)
| Invalid (fields : list string)
| Failed (what : string)
| TooMany (retry : Duration).
Definition internal (message : string) : refusal := Refuse 500 "internal_error" message.
Definition unauthorized (message : string) : refusal := Refuse 401 "unauthorized" message.

Record Cookie := { CkName : string; Value : string; Path : string; HttpOnly : bool; Secure : bool; SameSiteStrict : bool; MaxAge : Z }.
Record loginResponse := {
  RsExpiresIn : Z;
  RsUser : Z * string * string;
  RsCapabilities : list string;
  RsScoped : list Held.Entry;
  SetupRequired : list string;
  RsAccessToken : string;
  RsRefreshToken : string;
  RefreshExpiresIn : Z
}.
Record Headed (A : Type) := { Header : list Cookie; Body : A }.
Arguments Header {A}. Arguments Body {A}.

Record loginRequest := { Email : string; Password : string; TOTPCode : string; RecoveryCode : string; Client : string }.
Definition clientNative : string := "native".
Definition is_native (client : string) : bool := bool_decide (client = clientNative).

Local Open Scope prog_scope.

Section Handlers.
Context `{Unicode, AuthLib}.
Context (jwt : JWTService) (masterKey : string).
Abbreviation P := (prog Q).

Definition db {X} (d : D X) : P (result unit X) := ask (QDb d).
(** [if err != nil { return refusal }]. *)
Definition or_else {E F X} (e : F) (p : P (result E X)) : P (result F X) :=
  x <- p ; Ret (match x with Ok a => Ok a | Err _ => Err e end).
(** An error of a repository, passed on. *)
Abbreviation Failure := unit.

(** ** Tokens: auth.go *)

Definition sessionFor (o : tokenOptions) : P (result Failure string) :=
  if negb (continued o) then ask QRandom
  else if bool_decide (sessionID o = "") then Ret (Err tt) else Ret (Ok (sessionID o)).
Definition GenerateSession (account : Z) (address : string) (epoch : Z) (amr : list string) (setupPending : bool)
    (o : tokenOptions) : P (result Failure TokenPair) :=
  now <- ask QNow ;
  sid <-! sessionFor o ;
  accessJTI <-! ask QRandom ;
  access <-! ask (QSign (session_claims jwt account address epoch amr setupPending o now sid accessJTI "access" (Add now (accessExpiry jwt)))) ;
  jti <-! ask QRandom ;
  refresh <-! ask (QSign (session_claims jwt account address epoch amr setupPending o now sid jti "refresh" (Add now (refreshExpiry jwt)))) ;
  Ret (Ok {| AccessToken := access; RefreshToken := refresh; ExpiresIn := whole_seconds (accessExpiry jwt);
             RefreshJTI := jti; RefreshExpiresAt := Add now (refreshExpiry jwt); SessionSID := sid |}).
Definition ValidateToken (token : string) : P (result token_error Claims) :=
  claims <-! ask (QParse token) ;
  Ret (if bool_decide (SessionID claims = "") then Err ErrInvalidToken else Ok (decoded claims)).
Definition validate_type (type token : string) : P (result token_error Claims) :=
  claims <-! ValidateToken token ;
  Ret (if negb (bool_decide (TokenType claims = type)) then Err ErrWrongTokenType else Ok claims).
Definition ValidateAccessToken : string -> P (result token_error Claims) := validate_type "access".
Definition ValidateRefreshToken : string -> P (result token_error Claims) := validate_type "refresh".

(** ** Passwords: repositories/credential.go *)

Fixpoint remembered (creds : list Credential) (password : string) : P (option Credential) :=
  match creds with
  | [] => Ret None
  | c :: rest => known <- ask (QRemembered c password) ; if known : bool then Ret (Some c) else remembered rest password
  end.
Definition remember (memo : bool) (c : Credential) (password : string) : P (result Failure (option Credential)) :=
  if memo then ask (QRemember c password) ;; Ret (Ok (Some c)) else Ret (Ok (Some c)).
Fixpoint match_among (creds : list Credential) (password : string) (now : Time) (memo : bool) : P (result Failure (option Credential)) :=
  match creds with
  | [] => Ret (Ok None)
  | c :: rest =>
      if CheckPassword password (SecretHash c) then
        if PasswordNeedsRehash password (SecretHash c) then
          hash <-! ask (QHash password) ;
          stored <-! db (DUpgrade (CrID c) (SecretHash c) hash now) ;
          if stored : bool then remember memo (with_hash hash c) password else Ret (Ok None)
        else remember memo c password
      else match_among rest password now memo
  end.
Definition matchPassword (account : Z) (password : string) (now : Time) (memo : bool) : P (result Failure (option Credential)) :=
  creds <-! (if account =? 0 then Ret (Ok []) else db (DPasswords account now)) ;
  match creds with
  | [] => Ret (Ok None)
  | _ =>
      known <- (if memo then remembered creds password else Ret None) ;
      match known with
      | Some c => Ret (Ok (Some c))
      | None => match_among creds password now memo
      end
  end.
Definition MatchPassword (account : Z) (password : string) (now : Time) : P (result Failure (option Credential)) :=
  matchPassword account password now false.

(** ** The second factor: two_factor.go *)

Definition ValidateTOTPCode (code secret : string) : P bool :=
  let code := TrimSpace code in
  if bool_decide (code = "") || bool_decide (secret = "") then Ret false else ask (QTotp code secret).
Definition ConsumeRecoveryCode (account : Z) (plaintext : string) : P (result Failure bool) :=
  if bool_decide (plaintext = "") then Ret (Ok false)
  else codes <-! db (DRecoveryCodes account) ;
       match head (List.filter (fun c => CheckRecoveryCode plaintext (SecretHash c)) codes) with
       | None => Ret (Ok false)
       | Some c => now <- ask QNow ; db (DSpend (CrID c) now)
       end.
(** Whether a code matched, and whether a secret could not be read. *)
Fixpoint try_codes (creds : list Credential) (code : string) (unreadable : bool) : P (bool * bool) :=
  match creds with
  | [] => Ret (false, unreadable)
  | c :: rest =>
      if bool_decide (masterKey = "") then Ret (false, true)
      else match DecryptString (EncryptedSecret c) masterKey with
           | None => try_codes rest code true
           | Some secret =>
               ok <- ValidateTOTPCode code secret ;
               if ok : bool then Ret (true, unreadable) else try_codes rest code unreadable
           end
  end.
Definition verifyTOTPOrRecovery (account : Z) (totpCode recoveryCode : string) : P (result Failure bool) :=
  tried <-! (if bool_decide (totpCode = "") then Ret (Ok (false, false))
             else creds <-! db (DActive account) ; r <- try_codes creds totpCode false ; Ret (Ok r)) ;
  if fst tried : bool then Ret (Ok true)
  else consumed <-! (if bool_decide (recoveryCode = "") then Ret (Ok false) else ConsumeRecoveryCode account recoveryCode) ;
       Ret (if consumed : bool then Ok true else if snd tried then Err tt else Ok false).

(** ** Sessions: auth.go *)

Definition setupStepPassword : string := "password".
Definition setupStepTwoFactor : string := "two_factor".
Definition accountSetupSteps (account : Account) : P (result Failure (list string)) :=
  let steps := if PasswordChangeRequired account then [setupStepPassword] else [] in
  if TwoFactorRequired account then
    active <-! db (DGetActive (AcID account)) ;
    Ret (Ok (if is_none active then steps ++ [setupStepTwoFactor] else steps))
  else Ret (Ok steps).

(** [None]: not active, as AccountState answers a missing, disabled or expired account. *)
Record accountState := {
  StAddress : string; StDisplayName : string; StCapabilities : list string; StScoped : list Held.Entry;
  StSetupRequired : list string; StEpoch : Z
}.
Definition StSetupPending (s : accountState) : bool := negb (bool_decide (StSetupRequired s = [])).
Definition AccountState (id : Z) : P (result Failure (option accountState)) :=
  found <-! db (DAccount id) ;
  match found with
  | None => Ret (Ok None)
  | Some account =>
      now <- ask QNow ;
      if negb (Active account) || BootstrapExpired account now then Ret (Ok None)
      else
        now <- ask QNow ;
        held <-! db (DHeld id now) ;
        steps <-! accountSetupSteps account ;
        Ret (Ok (Some {| StAddress := AcAddress account; StDisplayName := DisplayName account;
                         StCapabilities := Held.Capabilities held; StScoped := Held.ScopedCapabilities held;
                         StSetupRequired := steps; StEpoch := Epoch account |}))
  end.

Definition persistRefreshToken (tokens : TokenPair) (account : Z) : P (result Failure unit) :=
  db (DSave {| Jti := RefreshJTI tokens; RfAccount := account; RfSession := SessionSID tokens; Status := RefreshTokenActive;
               RfExpiresAt := RefreshExpiresAt tokens |}).

Definition AccessCookieName : string := "restmail_access".
Definition RefreshCookieName : string := "restmail_refresh".
Definition CSRFCookieName : string := "restmail_csrf".
Definition newCSRFToken : P (result Failure string) := ask QRandom.
Definition session_cookie (name value : string) (httpOnly : bool) (age : Z) : Cookie :=
  {| CkName := name; Value := value; Path := "/"; HttpOnly := httpOnly; Secure := true; SameSiteStrict := true; MaxAge := age |}.
Definition setSessionCookies (accessToken : string) (age : Z) : P (result Failure (list Cookie)) :=
  csrf <-! newCSRFToken ;
  Ret (Ok [session_cookie AccessCookieName accessToken true age; session_cookie CSRFCookieName csrf false age]).
Definition clearSessionCookies : list Cookie :=
  [session_cookie AccessCookieName "" true (-1); session_cookie CSRFCookieName "" false (-1)].
Definition refresh_cookie (value : string) (age : Z) : Cookie :=
  {| CkName := RefreshCookieName; Value := value; Path := "/api/v1/auth"; HttpOnly := true; Secure := true;
     SameSiteStrict := true; MaxAge := age |}.

Definition with_tokens (access refresh : string) (expires : Z) (r : loginResponse) : loginResponse := {|
  RsExpiresIn := RsExpiresIn r; RsUser := RsUser r; RsCapabilities := RsCapabilities r; RsScoped := RsScoped r;
  SetupRequired := SetupRequired r; RsAccessToken := access; RsRefreshToken := refresh; RefreshExpiresIn := expires |}.
Definition deliverSession (tokens : TokenPair) (native : bool) (resp : loginResponse) : P (result Failure (Headed loginResponse)) :=
  if native then
    now <- ask QNow ;
    Ret (Ok {| Header := []; Body := with_tokens (AccessToken tokens) (RefreshToken tokens)
                                                 (whole_seconds (Sub (RefreshExpiresAt tokens) now)) resp |})
  else
    cookies <-! setSessionCookies (AccessToken tokens) (ExpiresIn tokens) ;
    Ret (Ok {| Header := refresh_cookie (RefreshToken tokens) (7 * 24 * 60 * 60) :: cookies; Body := resp |}).
(** [cookie]: the value of restmail_refresh, if the request has it; [body]: the token of a
    body, if it has one. *)
Definition presentedRefreshToken (cookie body : option string) : string * bool :=
  match cookie with
  | Some c => if negb (bool_decide (c = "")) then (c, false)
              else match body with Some b => if negb (bool_decide (b = "")) then (b, true) else ("", false) | None => ("", false) end
  | None => match body with Some b => if negb (bool_decide (b = "")) then (b, true) else ("", false) | None => ("", false) end
  end.

Definition newSession (account : Account) (native : bool) (amr : list string) : P (result refusal (Headed loginResponse)) :=
  now <- ask QNow ;
  held <-! or_else (internal "Failed to load the account's capabilities") (db (DHeld (AcID account) now)) ;
  steps <-! or_else (internal "Failed to read account state") (accountSetupSteps account) ;
  let pending := negb (bool_decide (steps = [])) in
  tokens <-! or_else (internal "Failed to generate tokens")
    (GenerateSession (AcID account) (AcAddress account) (Epoch account) amr pending sign_in_options) ;
  _ <-! or_else (internal "Failed to persist session") (persistRefreshToken tokens (AcID account)) ;
  let resp := {| RsExpiresIn := ExpiresIn tokens; RsUser := (AcID account, AcAddress account, DisplayName account);
                 RsCapabilities := if pending then [] else Held.Capabilities held;
                 RsScoped := if pending then [] else Held.ScopedCapabilities held;
                 SetupRequired := steps; RsAccessToken := ""; RsRefreshToken := ""; RefreshExpiresIn := 0 |} in
  answer <-! or_else (internal "Failed to establish session") (deliverSession tokens native resp) ;
  now <- ask QNow ;
  db (DLoggedIn (AcID account) now) ;;
  Ret (Ok answer).

Definition enforce2FA (account : Z) (req : loginRequest) : P (result refusal bool) :=
  active <-! or_else (internal "Failed to verify two-factor authentication") (db (DGetActive account)) ;
  if is_none active then Ret (Ok false)
  else
    verified <-! or_else (internal "Failed to verify two-factor authentication")
      (verifyTOTPOrRecovery account (TOTPCode req) (RecoveryCode req)) ;
    Ret (if verified : bool then Ok true
         else if bool_decide (TOTPCode req = "") && bool_decide (RecoveryCode req = "")
         then Err (Refuse 401 "totp_required" "Two-factor authentication code required")
         else Err (unauthorized "Invalid two-factor authentication code")).
Definition signInMethods (verified : bool) : list string := if verified then [AMRPassword; AMROTP] else [AMRPassword].
Definition errAccessRestricted : refusal :=
  Refuse 403 "access_restricted" "This server is not accepting sign-ins for this account right now".

Definition login (req : loginRequest) : P (result refusal (Headed loginResponse)) :=
  found <-! or_else (internal "Failed to verify the password") (db (DAddress (Email req))) ;
  now <- ask QNow ;
  cred <-! or_else (internal "Failed to verify the password")
    (MatchPassword (match found with Some a => AcID a | None => 0 end) (Password req) now) ;
  match found, cred with
  | Some account, Some _ =>
      if negb (Active account) then Ret (Err (unauthorized "Account is disabled"))
      else if BootstrapExpired account now then
        Ret (Err (Refuse 401 "bootstrap_expired"
          "This server's bootstrap password has expired. Deploy it again with a new one, then sign in with that."))
      else
        verified <-! enforce2FA (AcID account) req ;
        held <-! or_else (internal "Failed to load the account's capabilities") (db (DHeld (AcID account) now)) ;
        if negb (Held.MailboxSession held (AcAddress account)) && negb (Held.AdminSession held)
        then Ret (Err errAccessRestricted)
        else newSession account (is_native (Client req)) (signInMethods verified)
  | _, _ => Ret (Err (unauthorized "Invalid email or password"))
  end.

Definition logout (cookie body : option string) : P (result refusal (list Cookie)) :=
  let cleared := refresh_cookie "" (-1) :: clearSessionCookies in
  match fst (presentedRefreshToken cookie body) with
  | "" => Ret (Ok cleared)
  | token =>
      validated <- ValidateRefreshToken token ;
      match validated with
      | Err _ => Ret (Ok cleared)
      | Ok claims =>
          if bool_decide (ID claims = "") then Ret (Ok cleared)
          else _ <-! or_else (Failed "revoke the signed-out session") (db (DRevoke (ID claims))) ;
               ask (QDevices (SessionID claims)) ;;
               Ret (Ok cleared)
      end
  end.

Definition refresh (cookie body : option string) : P (result refusal (Headed loginResponse)) :=
  let (token, native) := presentedRefreshToken cookie body in
  if bool_decide (token = "") then Ret (Err (unauthorized "No refresh token"))
  else
    claims <-! or_else (unauthorized "Invalid or expired refresh token") (ValidateRefreshToken token) ;
    state <-! or_else (internal "Failed to verify the session") (AccountState (AccountID claims)) ;
    match state with
    | None => db (DRevokeAll (AccountID claims)) ;; Ret (Err (unauthorized "Account is disabled"))
    | Some state =>
        if negb (StEpoch state =? CredentialEpoch claims) then Ret (Err (unauthorized "This session has ended; sign in again"))
        else
          rotated <-! or_else (internal "Failed to verify the session") (db (DRotate (ID claims))) ;
          if negb rotated then Ret (Err (unauthorized "Invalid or expired refresh token"))
          else
            tokens <-! or_else (internal "Failed to generate tokens")
              (GenerateSession (AccountID claims) (StAddress state) (StEpoch state) (AMR claims) (StSetupPending state)
                 {| sessionID := SessionID claims; continued := true; authTime := AuthTime claims |}) ;
            _ <-! or_else (internal "Failed to persist session") (persistRefreshToken tokens (AccountID claims)) ;
            let pending := StSetupPending state in
            let resp := {| RsExpiresIn := ExpiresIn tokens; RsUser := (AccountID claims, StAddress state, StDisplayName state);
                           RsCapabilities := if pending then [] else StCapabilities state;
                           RsScoped := if pending then [] else StScoped state;
                           SetupRequired := StSetupRequired state; RsAccessToken := ""; RsRefreshToken := ""; RefreshExpiresIn := 0 |} in
            or_else (internal "Failed to establish session") (deliverSession tokens native resp)
    end.

(** ** Fresh proof: fresh_two_factor.go *)

Definition MaxFreshTwoFactorWindow : Duration := 15 * Minute.
Definition humanTwoFactor (c : option Claims) : bool :=
  match c with
  | None => false
  | Some c => (CredentialID c =? 0) && bool_decide (CredentialKind c = "") && (TwoFactor c || HasAMR c AMROTP)
  end.
Definition errTwoFactorRequired : refusal :=
  Refuse 403 "two_factor_required" "This action needs a session signed in with two-factor authentication: sign in again with your code".
Definition RequireTwoFactor (c : option Claims) : result refusal unit :=
  if humanTwoFactor c then Ok tt else Err errTwoFactorRequired.
Definition fresh_at (window : Duration) (at_ : option Time) (now : Time) : bool :=
  match at_ with None => false | Some a => negb (After a now) && (Sub now a <=? window) end.
Definition RequireFreshTwoFactor (window : Duration) (c : option Claims) : P (result refusal unit) :=
  match RequireTwoFactor c with
  | Err e => Ret (Err e)
  | Ok _ =>
      now <- ask QNow ;
      Ret (if fresh_at window (c ≫= AuthTime) now then Ok tt
           else Err (Refuse 403 "recent_two_factor_required"
                  "Sign in again with two-factor authentication: a recent second factor is required"))
  end.

(** ** Choosing a new password *)

Definition MinChosenPasswordLength : nat := 12.
Definition PasswordTooShort (password : string) : bool := (length (runes password) <? MinChosenPasswordLength)%nat.
Record changePasswordRequest := { CurrentPassword : string; NewPassword : string }.
Definition errAuthenticationRequired : refusal := unauthorized "Authentication required".
Definition changePassword (window : Duration) (claims : option Claims) (req : changePasswordRequest) : P (result refusal unit) :=
  match claims with
  | None => Ret (Err errAuthenticationRequired)
  | Some c =>
      if bool_decide (CurrentPassword req = "") || bool_decide (NewPassword req = "")
      then Ret (Err (Invalid ["current_password"; "new_password"]))
      else
        found <-! or_else (Failed "read the account") (db (DAccount (AccountID c))) ;
        match found with
        | None => Ret (Err (unauthorized "Invalid or expired session"))
        | Some account =>
            if negb (Active account) then Ret (Err (unauthorized "Invalid or expired session"))
            else
              initialSetup <-! (if SetupPending c && PasswordChangeRequired account then
                                  factor <-! or_else (Failed "read second factor") (db (DGetActive (AcID account))) ;
                                  Ret (Ok (is_none factor))
                                else Ret (Ok false)) ;
              _ <-! (if initialSetup : bool then Ret (Ok tt) else RequireFreshTwoFactor window claims) ;
              now <- ask QNow ;
              cred <-! or_else (Failed "verify the password") (MatchPassword (AcID account) (CurrentPassword req) now) ;
              match cred with
              | None => Ret (Err (Refuse 403 "invalid_password" "Current password is incorrect"))
              | Some _ =>
                  if PasswordTooShort (NewPassword req) then Ret (Err (Invalid ["new_password"]))
                  else if bool_decide (NewPassword req = CurrentPassword req) then Ret (Err (Invalid ["new_password"]))
                  else
                    hash <-! or_else (Failed "hash the password") (ask (QHash (NewPassword req))) ;
                    publicID <-! or_else (Failed "set the password") (ask QPublicID) ;
                    _ <-! or_else (Failed "set the password") (db (DSetPassword (AcID account) hash publicID now)) ;
                    ask (QForget (AcID account)) ;;
                    Ret (Ok tt)
              end
        end
  end.

(** bootstrap/tokens.go's ResetAdmin, which counts the password's bytes. *)
Definition ResetAdmin (token password : string) : P (result redeem_error Account) :=
  if len password <? Z.of_nat MinChosenPasswordLength then Ret (Err ErrPasswordTooShort)
  else
    hash <-! or_else RedeemFailed (ask (QHash password)) ;
    publicID <-! or_else RedeemFailed (ask QPublicID) ;
    account <-! or_else RedeemFailed (db (DResetAdmin (sha256_hex token) hash publicID)) ;
    Ret account.
Definition redeemRefusal (e : redeem_error) : refusal :=
  match e with
  | ErrTokenInvalid => Refuse 401 "invalid_token" "the token is not valid: unknown, already used, or expired"
  | ErrPasswordTooShort => Invalid ["password"]
  | ErrNoSuchAdmin | RedeemFailed => internal "Failed to redeem the token"
  end.
Record resetRequest := { RtToken : string; RtPassword : string; RtClient : string }.
Definition client_ok (client : string) : bool := bool_decide (client = "") || is_native client.
Definition reset (req : resetRequest) : P (result refusal (Headed loginResponse)) :=
  if negb (client_ok (RtClient req)) then Ret (Err (Invalid ["client"]))
  else
    redeemed <- ResetAdmin (RtToken req) (RtPassword req) ;
    match redeemed with
    | Err e => Ret (Err (redeemRefusal e))
    | Ok account => ask (QForget (AcID account)) ;; newSession account (is_native (RtClient req)) []
    end.

Record recoverRequest := { RcEmail : string; RcTOTP : string; RcRecovery : string; RcNewPassword : string; RcClient : string }.
Definition recover_problems (req : recoverRequest) : list string :=
  (if bool_decide (TrimSpace (RcEmail req) = "") then ["email"] else []) ++
  (if bool_decide (RcTOTP req = "") then ["totp_code"] else []) ++
  (if bool_decide (RcRecovery req = "") then ["recovery_code"] else []) ++
  (if PasswordTooShort (RcNewPassword req) then ["new_password"] else []) ++
  (if client_ok (RcClient req) then [] else ["client"]).
Definition refuse_recovery (address : string) : P (result refusal (Headed loginResponse)) :=
  ask (QCharge address) ;;
  Ret (Err (Refuse 401 "recovery_failed" "Invalid address, authenticator code or recovery code")).
Definition recoverAccount (req : recoverRequest) : P (result refusal (Headed loginResponse)) :=
  if negb (bool_decide (recover_problems req = [])) then Ret (Err (Invalid (recover_problems req)))
  else
    let address := ToLower (TrimSpace (RcEmail req)) in
    spent <- ask (QAvailable address) ;
    match spent with
    | Some retry => Ret (Err (TooMany retry))
    | None =>
        found <-! or_else (internal "Failed to read the account") (db (DAddressIs address)) ;
        match found with
        | None => refuse_recovery address
        | Some account =>
            if negb (Active account) then refuse_recovery address
            else
              let failed := internal "Failed to verify two-factor authentication" in
              codeMatched <-! or_else failed (verifyTOTPOrRecovery (AcID account) (RcTOTP req) "") ;
              if negb codeMatched then refuse_recovery address
              else
                recoveryMatched <-! or_else failed (verifyTOTPOrRecovery (AcID account) "" (RcRecovery req)) ;
                if negb recoveryMatched then refuse_recovery address
                else
                  let unset := internal "Failed to set password" in
                  hash <-! or_else unset (ask (QHash (RcNewPassword req))) ;
                  now <- ask QNow ;
                  publicID <-! or_else unset (ask QPublicID) ;
                  _ <-! or_else unset (db (DSetPassword (AcID account) hash publicID now)) ;
                  ask (QForget (AcID account)) ;;
                  again <-! or_else (internal "Failed to read the account") (db (DAccount (AcID account))) ;
                  match again with
                  | None => Ret (Err (internal "Failed to read the account"))
                  | Some account => newSession account (is_native (RcClient req)) (signInMethods true)
                  end
        end
    end.

(** ** Enrolling, confirming, turning off *)

Definition DefaultTOTPIssuer : string := "restmail".
Definition RecoveryCodeCount : nat := 10.
Definition errTwoFactorOff : refusal := Refuse 403 "forbidden" "Two-factor authentication is disabled on this server".
Definition errInvalidTOTP : refusal := Refuse 403 "invalid_totp" "Invalid two-factor authentication code".
Definition twoFactorOwner (c : option Claims) : option (Z * string) :=
  match c with
  | None => None
  | Some c => if (AccountID c =? 0) || negb (CredentialID c =? 0) then None else Some (AccountID c, Address c)
  end.
(** [hash]es of the codes, each under a public id of its own. *)
Fixpoint hash_codes (codes : list string) : P (result refusal (list (string * string))) :=
  match codes with
  | [] => Ret (Ok [])
  | c :: rest =>
      hash <-! or_else (Failed "secure recovery codes") (ask (QHash (NormalizeRecoveryCode c))) ;
      publicID <-! or_else (Failed "save 2FA enrollment") (ask QPublicID) ;
      rest <-! hash_codes rest ;
      Ret (Ok ((publicID, hash) :: rest))
  end.
Fixpoint GenerateRecoveryCodes (n : nat) : P (result refusal (list string)) :=
  match n with
  | O => Ret (Ok [])
  | S n => c <-! or_else (Failed "generate recovery codes") (ask QRecoveryCode) ;
           rest <-! GenerateRecoveryCodes n ; Ret (Ok (c :: rest))
  end.
Record enrollResponse := { Secret : string; OTPAuthURL : string; RecoveryCodes : list string }.
Definition enroll (enabled : bool) (claims : option Claims) : P (result refusal enrollResponse) :=
  if negb enabled then Ret (Err errTwoFactorOff)
  else if bool_decide (masterKey = "")
  then Ret (Err (Refuse 503 "unavailable" "Two-factor authentication requires server encryption to be configured"))
  else match twoFactorOwner claims with
  | None => Ret (Err errAuthenticationRequired)
  | Some (account, label) =>
      existing <-! or_else (Failed "read 2FA status") (db (DGet account)) ;
      match existing ≫= ConfirmedAt with
      | Some _ => Ret (Err (Refuse 409 "conflict" "Two-factor authentication is already enabled; disable it first"))
      | None =>
          key <-! or_else (Failed "generate 2FA secret") (ask (QTotpKey DefaultTOTPIssuer label)) ;
          encrypted <-! or_else (Failed "secure 2FA secret") (ask (QEncrypt (fst key) masterKey)) ;
          codes <-! GenerateRecoveryCodes RecoveryCodeCount ;
          hashes <-! hash_codes codes ;
          publicID <-! or_else (Failed "save 2FA enrollment") (ask QPublicID) ;
          _ <-! or_else (Failed "save 2FA enrollment") (db (DEnroll account encrypted publicID hashes)) ;
          Ret (Ok {| Secret := fst key; OTPAuthURL := snd key; RecoveryCodes := codes |})
      end
  end.
Definition confirm (enabled : bool) (claims : option Claims) (code : string) : P (result refusal unit) :=
  if negb enabled then Ret (Err errTwoFactorOff)
  else match twoFactorOwner claims with
  | None => Ret (Err errAuthenticationRequired)
  | Some (account, _) =>
      if bool_decide (code = "") then Ret (Err (Invalid ["totp_code"]))
      else
        existing <-! or_else (Failed "read 2FA enrollment") (db (DGet account)) ;
        match existing with
        | None => Ret (Err (Refuse 400 "bad_request" "No pending 2FA enrollment to confirm"))
        | Some tf =>
            if negb (is_none (ConfirmedAt tf)) then Ret (Err (Refuse 409 "conflict" "Two-factor authentication is already enabled"))
            else match DecryptString (EncryptedSecret tf) masterKey with
                 | None => Ret (Err (Failed "read 2FA secret"))
                 | Some secret =>
                     ok <- ValidateTOTPCode code secret ;
                     if negb ok then Ret (Err errInvalidTOTP)
                     else confirmed <-! or_else (Failed "enable 2FA") (db (DConfirm (CrID tf))) ;
                          Ret (if confirmed : bool then Ok tt else Err (Failed "enable 2FA"))
                 end
        end
  end.
Definition disableOwn (window : Duration) (claims : option Claims) (totpCode recoveryCode : string) : P (result refusal unit) :=
  _ <-! RequireFreshTwoFactor window claims ;
  match twoFactorOwner claims with
  | None => Ret (Err errAuthenticationRequired)
  | Some (account, _) =>
      if bool_decide (totpCode = "") && bool_decide (recoveryCode = "") then Ret (Err (Invalid ["totp_code"]))
      else
        active <-! or_else (Failed "read 2FA enrollment") (db (DGetActive account)) ;
        if is_none active then Ret (Err (Refuse 400 "bad_request" "Two-factor authentication is not enabled"))
        else
          verified <-! or_else (Failed "verify the second factor") (verifyTOTPOrRecovery account totpCode recoveryCode) ;
          if negb verified then
            Ret (Err (if bool_decide (totpCode = "")
                      then Refuse 403 "invalid_recovery_code" "Invalid or already used recovery code" else errInvalidTOTP))
          else
            found <-! or_else (Failed "read account") (db (DAccount account)) ;
            match found with
            | None => Ret (Err (Failed "read account"))
            | Some a =>
                if TwoFactorRequired a
                then Ret (Err (Refuse 403 "two_factor_required" "Two-factor authentication is required for this account and cannot be disabled"))
                else _ <-! or_else (Failed "disable 2FA") (db (DDisable account)) ;
                     ask (QForget account) ;;
                     Ret (Ok tt)
            end
  end.
End Handlers.
End SignIn.
