(* ===== verification/Sessions.v ===== *)
(** * The server's requests, interleaved

    Every request in flight is a program with what is left of it to run; a step answers one
    question of one of them, or a new request arrives, or something else of the server
    changes the tables ([others]). Statements and transactions are atomic; a statement may
    fail, or be done and its answer lost. Nothing else is assumed of the interleaving, nor
    of any clock.

    What is assumed of the libraries: the random generator repeats no value ([used]), and a
    token that parses is one this server signed, with the claims it signed ([issued]: HS256
    is not forged and the claims survive JSON). *)

From S2P Require Import Prelude GoTime GoStrings MailAddress Prog MailStore Grants GrantStore Auth Accounts SignIn.
Import GoTime GoStrings Auth Prog Accounts SignIn.
Local Open Scope Z_scope.

Module Sessions.

(** What can be done only once: exchanging a refresh token, spending a recovery code,
    redeeming a one-time token. *)
Inductive once := Exchanged (jti : string) | Spent (credential : Z) | Redeemed (hash : string).
#[export] Instance once_eq : EqDecision once.
Proof. solve_decision. Defined.

(** A request and the answer its sender is to get. *)
Inductive request :=
| Login (req : loginRequest)
| Refresh (cookie body : option string)
| Logout (cookie body : option string)
| ChangePassword (claims : option Claims) (req : changePasswordRequest)
| ResetPassword (req : resetRequest)
| Recover (req : recoverRequest)
| EnrollTOTP (claims : option Claims)
| ConfirmTOTP (claims : option Claims) (code : string)
| DisableTOTP (claims : option Claims) (totpCode recoveryCode : string).

Section World.
Context `{Unicode, AuthLib, MailLib, TextLib}.
(** The server's settings: the token keys, MASTER_KEY, whether 2FA is on and how long its
    proof is fresh, and the capability override. *)
Context (jwt : JWTService) (masterKey : string) (enabled : bool) (window : Duration) (override : option Held.Held).

Definition discard {A} (p : prog Q A) : prog Q unit := bind p (fun _ => Ret tt).
Definition serve (r : request) : prog Q unit :=
  match r with
  | Login req => discard (login jwt masterKey req)
  | Refresh cookie body => discard (refresh jwt cookie body)
  | Logout cookie body => discard (logout cookie body)
  | ChangePassword claims req => discard (changePassword window claims req)
  | ResetPassword req => discard (reset jwt req)
  | Recover req => discard (recoverAccount jwt masterKey req)
  | EnrollTOTP claims => discard (enroll masterKey enabled claims)
  | ConfirmTOTP claims code => discard (confirm masterKey enabled claims code)
  | DisableTOTP claims totpCode recoveryCode => discard (disableOwn masterKey window claims totpCode recoveryCode)
  end.

Record World := {
  tables : Tables;
  used : list string;
  issued : list (string * Claims);
  taken : list once;
  threads : list (prog Q unit)
}.
Definition with_threads (l : list (prog Q unit)) (w : World) : World :=
  {| tables := tables w; used := used w; issued := issued w; taken := taken w; threads := l |}.
Definition with_tables (t : Tables) (w : World) : World :=
  {| tables := t; used := used w; issued := issued w; taken := taken w; threads := threads w |}.
Definition drew (s : string) (w : World) : World :=
  {| tables := tables w; used := s :: used w; issued := issued w; taken := taken w; threads := threads w |}.
Definition signs (token : string) (c : Claims) (w : World) : World :=
  {| tables := tables w; used := used w; issued := (token, c) :: issued w; taken := taken w; threads := threads w |}.
Definition takes (l : list once) (w : World) : World :=
  {| tables := tables w; used := used w; issued := issued w; taken := l ++ taken w; threads := threads w |}.

(** What a statement uses up when it is done. *)
Definition uses (at_ : Time) {X} (d : D X) (t : Tables) : list once :=
  match d with
  | DRotate jti => if affected (live_token jti) (refresh_tokens t) then [Exchanged jti] else []
  | DSpend id _ => if affected (spendable id) (credentials t) then [Spent id] else []
  | DResetAdmin h hash publicID => if reset_admin h hash publicID at_ t then [Redeemed h] else []
  | _ => []
  end.
Definition done_db (at_ : Time) {X} (d : D X) (w : World) : World :=
  takes (uses at_ d (tables w)) (with_tables (snd (exec override at_ d (tables w))) w).

Inductive answers (w : World) : forall X, Q X -> X -> World -> Prop :=
| an_now t : answers w _ QNow t w
| an_random s : s ∉ used w -> answers w _ QRandom (Ok s) (drew s w)
| an_random_failed : answers w _ QRandom (Err tt) w
| an_sign c token : answers w _ (QSign c) (Ok token) (signs token c w)
| an_sign_failed c : answers w _ (QSign c) (Err tt) w
| an_parse token c : (token, c) ∈ issued w -> Issuer c = issuer jwt -> answers w _ (QParse token) (Ok c) w
| an_parse_failed token e : answers w _ (QParse token) (Err e) w
| an_db at_ X (d : D X) : answers w _ (QDb d) (fst (exec override at_ d (tables w))) (done_db at_ d w)
| an_db_failed X (d : D X) : answers w _ (QDb d) (Err tt) w
| an_db_lost at_ X (d : D X) : answers w _ (QDb d) (Err tt) (done_db at_ d w)
| an_publicID x : answers w _ QPublicID x w
| an_hash password x : answers w _ (QHash password) x w
| an_totp code secret x : answers w _ (QTotp code secret) x w
| an_key issuer label x : answers w _ (QTotpKey issuer label) x w
| an_encrypt text key x : answers w _ (QEncrypt text key) x w
| an_code x : answers w _ QRecoveryCode x w
| an_forget account : answers w _ (QForget account) tt w
| an_devices sid x : answers w _ (QDevices sid) x w
| an_available address x : answers w _ (QAvailable address) x w
| an_charge address : answers w _ (QCharge address) tt w
| an_allow key x : answers w _ (QAllow key) x w
| an_refused address r : answers w _ (QRefused address r) tt w
| an_token x : answers w _ QToken x w
| an_remembered c secret x : answers w _ (QRemembered c secret) x w
| an_remember c secret : answers w _ (QRemember c secret) tt w.

(** What the rest of the server may do to the tables: an account's epoch never goes back
    and no id is given twice; a refresh token is not revived or recorded but by the
    requests above; a revoked credential stays revoked, and a new one has a new id; a used
    one-time token stays used. Accounts and one-time tokens yet to be made are in the tables
    from the start, since nobody can have used them before; ids and token hashes are unique. *)
Record others (t t' : Tables) : Prop := {
  others_epoch : forall id a', find_account id t' = Some a' -> exists a, find_account id t = Some a /\ Epoch a <= Epoch a';
  others_tokens : exists f, refresh_tokens t' = omap f (refresh_tokens t)
      /\ forall r r', f r = Some r' -> r' = r \/ exists s, s <> RefreshTokenActive /\ r' = with_status s r;
  others_ids : next_credential t <= next_credential t' /\ Forall (fun c => CrID c < next_credential t') (credentials t');
  others_credentials : forall c', c' ∈ credentials t' -> RevokedAt c' = None ->
      next_credential t <= CrID c' \/ exists c, c ∈ credentials t /\ CrID c = CrID c' /\ RevokedAt c = None;
  others_one_time : forall o', o' ∈ one_time_tokens t' -> UsedAt o' = None ->
      exists o, o ∈ one_time_tokens t /\ OtHash o = OtHash o' /\ UsedAt o = None;
  others_accounts : NoDup (AcID <$> accounts t) -> NoDup (AcID <$> accounts t');
  others_hashes : NoDup (OtHash <$> one_time_tokens t) -> NoDup (OtHash <$> one_time_tokens t')
}.

Inductive step (w : World) : World -> Prop :=
| st_ask i X (q : Q X) k x w' : threads w !! i = Some (Ask q k) -> answers w X q x w' ->
    step w (with_threads (<[i := k x]> (threads w)) w')
| st_arrives r : step w (with_threads (threads w ++ [serve r]) w)
| st_others t' : others (tables w) t' -> step w (with_tables t' w).

Definition initial (w : World) : Prop :=
  refresh_tokens (tables w) = [] /\ issued w = [] /\ taken w = [] /\ threads w = [] /\
  Forall (fun c => CrID c < next_credential (tables w)) (credentials (tables w)) /\
  NoDup (AcID <$> accounts (tables w)) /\ NoDup (OtHash <$> one_time_tokens (tables w)).
Inductive reachable : World -> Prop :=
| reach_initial w : initial w -> reachable w
| reach_step w w' : reachable w -> step w w' -> reachable w'.
Inductive steps : World -> World -> Prop :=
| steps_none w : steps w w
| steps_more w w' w'' : steps w w' -> step w' w'' -> steps w w''.

(** sessions.go *)
Definition sessionCurrent (account : option Account) (epoch : Z) (now : Time) : bool :=
  match account with
  | None => false
  | Some a => Active a && negb (BootstrapExpired a now) && (Epoch a =? epoch)
  end.
Definition current (c : Claims) (w : World) (now : Time) : bool :=
  sessionCurrent (find_account (AccountID c) (tables w)) (CredentialEpoch c) now.
End World.
End Sessions.
