(* ===== verification/Custody.v ===== *)
(** * What a request may sign and record

    [custody] follows one request: the random values it drew, the accounts it read, the
    tokens it parsed, rotated and signed. A token may be signed only under a token id the
    request drew and used for nothing else, and only for a new session of an account it
    read, at the epoch it read, or for the session of a token it parsed, in all that a
    session keeps; a refresh token is recorded once, by who signed it, and only in a session
    it started or whose token it rotated. Every handler keeps to it. *)

From S2P Require Import Prelude GoTime GoStrings MailAddress Prog MailStore Grants GrantStore Auth Accounts SignIn Sessions.

Module Custody.
Import GoTime GoStrings Auth Prog Accounts SignIn Sessions.
Local Open Scope Z_scope.

Inductive fact :=
| Drawn (s : string)
| Read (account epoch : Z)
| Parsed (c : Claims)
| Rotated (c : Claims)
| Signed (c : Claims)
| Saved.
#[export] Instance fact_eq : EqDecision fact.
Proof. solve_decision. Defined.

(** What every token of a session shares; the proof time counts only with a second factor. *)
Definition proof_time (c : Claims) : option Time := if HasAMR c AMROTP then AuthTime c else None.
Definition kin (c c' : Claims) : bool :=
  bool_decide (SessionID c = SessionID c') && (AccountID c =? AccountID c') && (CredentialEpoch c =? CredentialEpoch c')
  && bool_decide (AMR c = AMR c') && bool_decide (proof_time c = proof_time c').

Definition has (f : fact) (log : list fact) : bool := bool_decide (f ∈ log).
Definition signed_as (id : string) (log : list fact) : bool :=
  existsb (fun f => match f with Signed c => bool_decide (ID c = id) | _ => false end) log.
Definition starts (c : Claims) (log : list fact) : bool :=
  has (Drawn (SessionID c)) log && has (Read (AccountID c) (CredentialEpoch c)) log
  && forallb (fun f => match f with Signed c' => if bool_decide (SessionID c' = SessionID c) then kin c' c else true | _ => true end) log.
Definition continues (c : Claims) (log : list fact) : bool :=
  existsb (fun f => match f with Parsed c0 => kin c0 c | _ => false end) log.
Definition entitled (c : Claims) (log : list fact) : bool :=
  has (Drawn (ID c)) log && negb (signed_as (ID c) log) && (starts c log || continues c log).
Definition owns (sid : string) (log : list fact) : bool :=
  has (Drawn sid) log || existsb (fun f => match f with Rotated c => bool_decide (SessionID c = sid) | _ => false end) log.
Definition pending (sid : string) (log : list fact) : bool := negb (has Saved log) && owns sid log.
Definition saveable (r : RefreshRow) (log : list fact) : bool :=
  pending (RfSession r) log && bool_decide (Status r = RefreshTokenActive)
  && has (Drawn (Jti r)) log
  && existsb (fun f => match f with Signed c => bool_decide (ID c = Jti r) && bool_decide (SessionID c = RfSession r) | _ => false end) log.
Definition parsed_as (jti : string) (log : list fact) : option Claims :=
  head (omap (fun f => match f with Parsed c => if bool_decide (ID c = jti) then Some c else None | _ => None end) log).

Definition noted (a : option Account) (log : list fact) : list fact :=
  match a with Some a => Read (AcID a) (Epoch a) :: log | None => log end.
Definition note_db (log : list fact) {X} (d : D X) : result unit X -> option (list fact) :=
  match d in D X return result unit X -> option (list fact) with
  | DAddress _ | DAddressIs _ | DAccount _ => fun x => Some (match x with Ok a => noted a log | Err _ => log end)
  | DResetAdmin _ _ _ => fun x => Some (match x with Ok (Ok a) => noted (Some a) log | _ => log end)
  | DRotate jti => fun x =>
      match parsed_as jti log with
      | None => None
      | Some c => Some (match x with Ok true => Rotated c :: log | _ => log end)
      end
  | DSave r => fun _ => if saveable r log then Some (Saved :: log) else None
  | _ => fun _ => Some log
  end.
Definition note (log : list fact) {X} (q : Q X) : X -> option (option (list fact)) :=
  match q in Q X return X -> option (option (list fact)) with
  | QRandom => fun x => Some (match x with
                              | Ok s => if has (Drawn s) log then None else Some (Drawn s :: log)
                              | Err _ => Some log
                              end)
  | QParse _ => fun x => Some (Some (match x with Ok c => Parsed c :: log | Err _ => log end))
  | QSign c => fun x => if entitled c log then Some (Some (match x with Ok _ => Signed c :: log | Err _ => log end)) else None
  | QDb d => fun x => Some <$> note_db log d x
  | _ => fun _ => Some (Some log)
  end.
(** [None]: the generator repeated itself, and anything goes. *)
Definition custody : monitor Q (option (list fact)) := fun X s q x =>
  match s with Some log => note log q x | None => Some None end.
Definition keeps {A} (log : list fact) (p : prog Q A) (post : list fact -> A -> Prop) : Prop :=
  wp custody (Some log) p (fun s a => match s with Some log => post log a | None => True end).

Lemma kin_spec c c' : kin c c' = true <->
  SessionID c = SessionID c' /\ AccountID c = AccountID c' /\ CredentialEpoch c = CredentialEpoch c'
  /\ AMR c = AMR c' /\ proof_time c = proof_time c'.
Proof. unfold kin. bprop. tauto. Qed.
Lemma kin_refl c : kin c c = true.
Proof. by apply kin_spec. Qed.
Lemma kin_sym c c' : kin c c' = true -> kin c' c = true.
Proof. rewrite !kin_spec. intuition congruence. Qed.
Lemma kin_trans a b c : kin a b = true -> kin b c = true -> kin a c = true.
Proof. rewrite !kin_spec. intuition congruence. Qed.

(** ** Walking a handler *)

Lemma absurd {A} (p : prog Q A) (post : list fact -> A -> Prop) :
  wp custody None p (fun s a => match s with Some log => post log a | None => True end).
Proof. induction p as [a|X q k IH]; simpl; [done|]. intros x. apply IH. Qed.
Lemma keeps_then {A B} log (p : prog Q A) (f : A -> prog Q B) post :
  keeps log p (fun log a => keeps log (f a) post) -> keeps log (bind p f) post.
Proof.
  intros K. apply wp_then. eapply wp_mono; [|exact K]. intros [l|] a; [done|]. intros _. apply absurd.
Qed.
Lemma keeps_try {E A B} log (p : prog Q (result E A)) (f : A -> prog Q (result E B)) post :
  keeps log p (fun log r => match r with Ok a => keeps log (f a) post | Err e => post log (Err e) end) ->
  keeps log (try_ p f) post.
Proof. intros K. apply keeps_then. eapply wp_mono; [|exact K]. by intros [l|] [a|e]. Qed.
Lemma keeps_ret {A} log (a : A) (post : list fact -> A -> Prop) : post log a -> keeps log (Ret a) post.
Proof. done. Qed.
Lemma keeps_mono {A} log (p : prog Q A) (post post' : list fact -> A -> Prop) :
  (forall log a, post log a -> post' log a) -> keeps log p post -> keeps log p post'.
Proof. intros M. apply wp_mono. intros [l|] a; [apply M|done]. Qed.
Lemma keeps_else {E F A} log (e : F) (p : prog Q (result E A)) post :
  keeps log p (fun log r => post log (match r with Ok a => Ok a | Err _ => Err e end)) -> keeps log (or_else e p) post.
Proof. intros K. apply keeps_then. eapply keeps_mono; [|exact K]. intros l [a|x] Q; exact Q. Qed.
Lemma keeps_ask {X} log (q : Q X) (post : list fact -> X -> Prop) :
  (forall x, match note log q x with Some (Some l) => post l x | Some None => True | None => False end) ->
  keeps log (ask q) post.
Proof. intros K x. specialize (K x). cbn in *. destruct (note log q x) as [[l|]|]; done. Qed.

(** A question that notes nothing, and a program that asks only such. *)
Definition quiet_db {X} (d : D X) : bool :=
  match d with
  | DAddress _ | DAddressIs _ | DAccount _ | DResetAdmin _ _ _ | DRotate _ | DSave _ => false
  | _ => true
  end.
Definition quiet : test Q := fun X q =>
  match q with QRandom | QParse _ | QSign _ => false | QDb d => quiet_db d | _ => true end.
Lemma quiet_note log X (q : Q X) x : quiet X q = true -> note log q x = Some (Some log).
Proof. destruct q; try done. cbn. by destruct d. Qed.
Lemma keeps_quiet {A} log (p : prog Q A) (post : A -> Prop) (post' : list fact -> A -> Prop) :
  always quiet p post -> (forall a, post a -> post' log a) -> keeps log p post'.
Proof.
  intros W M. eapply wp_mono; [|refine (wp_neutral custody (Some log) quiet p post _ W)].
  - intros s a [-> P]. by apply M.
  - intros X q x. apply quiet_note.
Qed.
Lemma keeps_quietly {A} log (p : prog Q A) (post' : list fact -> A -> Prop) :
  always quiet p (fun _ => True) -> (forall a, post' log a) -> keeps log p post'.
Proof. intros W M. eapply keeps_quiet; [exact W|auto]. Qed.

Section Quiet.
Context `{Unicode, AuthLib} (jwt : JWTService) (masterKey : string) (window : Duration).

Lemma quiet_or_else {E F A} (e : F) (p : prog Q (result E A)) :
  always quiet p (fun _ => True) -> always quiet (or_else e p) (fun _ => True).
Proof. intros W. unfold or_else. apply always_then. eapply always_mono; [|exact W]. done. Qed.
Ltac hush := first [done | unfold db; walk; try done].
Lemma quiet_remembered creds password : always quiet (remembered creds password) (fun _ => True).
Proof. induction creds; cbn [remembered]; hush. Qed.
Lemma quiet_match_among creds password now memo : always quiet (match_among creds password now memo) (fun _ => True).
Proof. induction creds; cbn [match_among]; unfold remember; hush. Qed.
Lemma quiet_matchPassword account password now memo : always quiet (matchPassword account password now memo) (fun _ => True).
Proof.
  unfold matchPassword. apply always_try. eapply (always_mono _ _ (fun _ => True)); [|hush]. intros [[|c l]|e] _; [done| |done].
  apply always_then. eapply (always_mono _ _ (fun _ => True)); [|destruct memo; [apply quiet_remembered|done]].
  intros [k|] _; [done|]. apply quiet_match_among.
Qed.
Lemma quiet_ValidateTOTPCode code s : always quiet (ValidateTOTPCode code s) (fun _ => True).
Proof. unfold ValidateTOTPCode. hush. Qed.
Lemma quiet_try_codes creds code u : always quiet (try_codes masterKey creds code u) (fun _ => True).
Proof.
  revert u. induction creds as [|c l IH]; intros u; cbn [try_codes]; [done|]. destruct (bool_decide _); [done|].
  destruct (DecryptString _ _); [|apply IH]. apply always_then. eapply always_mono; [|apply quiet_ValidateTOTPCode].
  intros [] _; [done|apply IH].
Qed.
Lemma quiet_verify account totp recovery : always quiet (verifyTOTPOrRecovery masterKey account totp recovery) (fun _ => True).
Proof.
  unfold verifyTOTPOrRecovery, ConsumeRecoveryCode. apply always_try.
  eapply (always_mono _ _ (fun _ => True)); [intros [[[] ?]|e] _; [done| |done]|].
  - hush.
  - destruct (bool_decide _); [done|]. apply always_try, always_ask; [done|]. intros [l|e]; [|done].
    apply always_then. eapply always_mono; [|apply quiet_try_codes]. done.
Qed.
Lemma quiet_steps account : always quiet (accountSetupSteps account) (fun _ => True).
Proof. unfold accountSetupSteps. hush. Qed.
Lemma quiet_fresh claims : always quiet (RequireFreshTwoFactor window claims) (fun _ => True).
Proof. unfold RequireFreshTwoFactor. hush. Qed.
Lemma quiet_hash_codes codes : always quiet (hash_codes codes) (fun _ => True).
Proof.
  induction codes as [|c l IH]; cbn [hash_codes]; [done|]. unfold or_else. walk; try done.
  eapply always_mono; [|exact IH]. intros [|] _; walk; done.
Qed.
Lemma quiet_codes n : always quiet (GenerateRecoveryCodes n) (fun _ => True).
Proof.
  induction n as [|n IH]; cbn [GenerateRecoveryCodes]; [done|]. unfold or_else. walk; try done.
  eapply always_mono; [|exact IH]. intros [|] _; walk; done.
Qed.
End Quiet.
End Custody.

(** * Every handler keeps to what a request may sign and record *)

Module HandlersKeep.
Import GoTime GoStrings Auth Prog Accounts SignIn Sessions Custody.
Local Open Scope Z_scope.

(** A program that signs, rotates and records nothing. *)
Definition calm : test Q := fun X q =>
  match q with QSign _ => false | QDb (DRotate _) | QDb (DSave _) => false | _ => true end.
Lemma calm_note log X (q : Q X) x : calm X q = true -> exists s, note log q x = Some s.
Proof. intros C. destruct q; try discriminate C; try (by eexists). destruct d; try discriminate C; by eexists. Qed.
Lemma keeps_calm {A} log (p : prog Q A) (post : list fact -> A -> Prop) :
  always calm p (fun a => forall log, post log a) -> keeps log p post.
Proof.
  unfold always, keeps. revert log. induction p as [a|X q k IH]; intros log W; [apply W|].
  intros x. specialize (W x). unfold stateless in W. destruct (calm X q) eqn:C; [|done].
  destruct (calm_note log X q x C) as [[l|] E]; unfold custody; rewrite E; [by apply IH|apply absurd].
Qed.
Lemma keeps_calmly {A} log (p : prog Q A) (post : list fact -> A -> Prop) :
  always calm p (fun _ => True) -> (forall log a, post log a) -> keeps log p post.
Proof. intros W M. apply keeps_calm. eapply always_mono; [|exact W]. auto. Qed.
Lemma calm_quiet {A} (p : prog Q A) : always quiet p (fun _ => True) -> always calm p (fun _ => True).
Proof. apply always_weaken. intros X q. destruct q; try done. by destruct d. Qed.

(** Nothing signed and nothing recorded yet. *)
Definition clean (log : list fact) : Prop := Saved ∉ log /\ forall c, Signed c ∉ log.
Lemma clean_cons f log : clean log -> (match f with Saved | Signed _ => False | _ => True end) -> clean (f :: log).
Proof. intros [S C] F. split; [|intros c]; intros [E|I]%elem_of_cons; subst; try done. by apply (C c). Qed.
Lemma clean_nil : clean [].
Proof. split; [|intros c]; apply not_elem_of_nil. Qed.
Lemma has_true f log : f ∈ log -> has f log = true.
Proof. intros I. by apply bool_decide_eq_true. Qed.
Lemma existsb_at {A} (P : A -> bool) l x : x ∈ l -> P x = true -> existsb P l = true.
Proof. intros I T. apply existsb_exists. exists x. split; [by apply list_elem_of_In|done]. Qed.
Lemma clean_signed log id : clean log -> signed_as id log = false.
Proof.
  intros [_ C]. unfold signed_as. destruct (existsb _ log) eqn:E; [|done]. apply existsb_exists in E as (f & I & T).
  apply list_elem_of_In in I. destruct f; try done. by destruct (C c).
Qed.
Lemma clean_forallb log (P : Claims -> bool) : clean log ->
  forallb (fun f => match f with Signed c => P c | _ => true end) log = true.
Proof.
  intros [_ C]. apply forallb_forall. intros f I%list_elem_of_In. destruct f; try done. by destruct (C c).
Qed.

Section Handlers.
Context `{Unicode, AuthLib, MailLib, TextLib}.
Context (jwt : JWTService) (masterKey : string) (enabled : bool) (window : Duration).

(** What a token is minted from: an account read for a new session, or the token whose
    session goes on. *)
Definition grounds (account epoch : Z) (amr : list string) (o : tokenOptions) (log : list fact) : Prop :=
  if continued o then
    exists c, Parsed c ∈ log /\ Rotated c ∈ log /\ SessionID c = sessionID o /\ AccountID c = account
      /\ CredentialEpoch c = epoch /\ AMR c = amr /\ AuthTime c = authTime o
  else Read account epoch ∈ log.
Lemma grounds_cons f account epoch amr o log : grounds account epoch amr o log -> grounds account epoch amr o (f :: log).
Proof.
  unfold grounds. destruct (continued o); [|by right]. intros (c & P & R & K). exists c.
  split; [by right|]. split; [by right|exact K].
Qed.

Section Claimed.
Context (account : Z) (address : string) (epoch : Z) (amr : list string) (setup : bool) (o : tokenOptions) (now : Time) (sid : string).
Definition claimed (jti type : string) (expires : Time) : Claims :=
  session_claims jwt account address epoch amr setup o now sid jti type expires.
Definition in_session (log : list fact) : Prop :=
  if continued o then sid = sessionID o else Drawn sid ∈ log.
Lemma claimed_kin j j' t t' e e' : kin (claimed j t e) (claimed j' t' e') = true.
Proof. by apply kin_spec. Qed.
Lemma claimed_continues jti type expires log : grounds account epoch amr o log -> in_session log -> continued o = true ->
  continues (claimed jti type expires) log = true.
Proof.
  unfold grounds, in_session. intros G S C. rewrite C in G, S. destruct G as (c & P & _ & K1 & K2 & K3 & K4 & K5).
  eapply existsb_at; [exact P|]. apply kin_spec. cbn. rewrite K4. split; [by rewrite K1, S|].
  split; [exact K2|]. split; [exact K3|]. split; [reflexivity|]. unfold proof_time, HasAMR. rewrite K4. cbn. unfold auth_time. rewrite C, K5.
  unfold hasMethod. by destruct (existsb _ amr).
Qed.
Lemma claimed_starts jti type expires log : grounds account epoch amr o log -> in_session log -> continued o = false ->
  (forall c, Signed c ∈ log -> kin c (claimed jti type expires) = true) -> starts (claimed jti type expires) log = true.
Proof.
  unfold grounds, in_session. intros G S C K. rewrite C in G, S. unfold starts. cbn. rewrite !has_true by done.
  apply forallb_forall. intros f I%list_elem_of_In. destruct f; try done. case_bool_decide; [|done]. by apply K.
Qed.
Lemma claimed_entitled jti type expires log : grounds account epoch amr o log -> in_session log ->
  Drawn jti ∈ log -> signed_as jti log = false -> (forall c, Signed c ∈ log -> kin c (claimed jti type expires) = true) ->
  entitled (claimed jti type expires) log = true.
Proof.
  intros G S D N K. unfold entitled. change (ID (claimed jti type expires)) with jti. rewrite (has_true _ _ D), N. cbn [andb negb].
  destruct (continued o) eqn:C; [by rewrite claimed_continues, orb_true_r|by rewrite claimed_starts].
Qed.
End Claimed.

(** Draws a value no earlier draw gave. *)
Lemma keeps_random log (post : list fact -> result unit string -> Prop) :
  (forall s, Drawn s ∉ log -> post (Drawn s :: log) (Ok s)) -> post log (Err tt) -> keeps log (ask QRandom) post.
Proof.
  intros K E. apply keeps_ask. intros [s|[]]; [|done]. cbn. unfold has. case_bool_decide; [done|by apply K].
Qed.
Lemma keeps_sign log c (post : list fact -> result unit string -> Prop) :
  entitled c log = true -> (forall token, post (Signed c :: log) (Ok token)) -> post log (Err tt) -> keeps log (ask (QSign c)) post.
Proof. intros T K E. apply keeps_ask. intros [s|[]]; cbn; rewrite T; [apply K|done]. Qed.
Lemma keeps_now log (post : list fact -> Time -> Prop) : (forall t, post log t) -> keeps log (ask QNow) post.
Proof. intros K. by apply keeps_ask. Qed.

Definition row_of (tokens : TokenPair) (account : Z) : RefreshRow :=
  {| Jti := RefreshJTI tokens; RfAccount := account; RfSession := SessionSID tokens; Status := RefreshTokenActive;
     RfExpiresAt := RefreshExpiresAt tokens |}.
Lemma keeps_session log o (post : list fact -> result unit string -> Prop) :
  (forall sid log', in_session o sid log' -> log' = log \/ log' = Drawn sid :: log -> post log' (Ok sid)) -> post log (Err tt) ->
  keeps log (sessionFor o) post.
Proof.
  intros K E. unfold sessionFor. destruct (continued o) eqn:C; cbn [negb].
  - destruct (bool_decide _); apply keeps_ret; [done|]. apply K; [|by left]. unfold in_session. by rewrite C.
  - apply keeps_random; [|done]. intros s _. apply K; [|by right]. unfold in_session. rewrite C. by left.
Qed.
Lemma keeps_GenerateSession log account address epoch amr setup o (post : list fact -> result unit TokenPair -> Prop) :
  clean log -> grounds account epoch amr o log ->
  (forall log' tokens, saveable (row_of tokens account) log' = true -> post log' (Ok tokens)) -> (forall log', post log' (Err tt)) ->
  keeps log (GenerateSession jwt account address epoch amr setup o) post.
Proof.
  intros C G P E. unfold GenerateSession. apply keeps_then, keeps_now. intros now.
  apply keeps_try, keeps_session; [|apply E]. intros sid l1 S Q1.
  assert (C1 : clean l1) by (destruct Q1 as [->| ->]; [done|by apply clean_cons]).
  assert (G1 : grounds account epoch amr o l1) by (destruct Q1 as [->| ->]; [done|by apply grounds_cons]).
  clear Q1 C G log. apply keeps_try, keeps_random; [|apply E]. intros j1 N1.
  assert (S1 : forall f l, in_session o sid l -> in_session o sid (f :: l)).
  { intros f l. unfold in_session. destruct (continued o); [done|by right]. }
  apply keeps_try, keeps_sign; [|intros access|apply E].
  { apply (claimed_entitled account address epoch amr setup o now sid); [by apply grounds_cons|by apply S1|by left| |].
    - by apply clean_signed, clean_cons.
    - intros c I. by destruct (proj2 (clean_cons (Drawn j1) _ C1 Logic.I) c). }
  apply keeps_try, keeps_random; [|apply E]. intros j2 N2.
  assert (J : j2 <> j1) by (intros ->; apply N2; right; by left).
  apply keeps_try, keeps_sign; [|intros token|apply E].
  { apply (claimed_entitled account address epoch amr setup o now sid); [by do 3 apply grounds_cons|by do 3 apply S1|by left| |].
    - unfold signed_as. cbn. rewrite bool_decide_eq_false_2 by congruence. exact (clean_signed _ _ C1).
    - intros c I. apply elem_of_cons in I as [I|I]; [done|]. apply elem_of_cons in I as [I|I].
      + injection I as ->. apply claimed_kin.
      + by destruct (proj2 (clean_cons (Drawn j1) _ C1 Logic.I) c). }
  apply keeps_ret, P. unfold saveable. cbn [row_of RfSession Status Jti RefreshJTI SessionSID]. rewrite !andb_true_iff. split_and!.
  - unfold pending. rewrite andb_true_iff. split.
    + unfold has. rewrite negb_true_iff, bool_decide_eq_false. intros I. do 4 (apply elem_of_cons in I as [?|I]; [done|]).
      by destruct C1 as [X _].
    + unfold owns. rewrite orb_true_iff. unfold in_session, grounds in *. destruct (continued o); [right|left].
      * destruct G1 as (c & _ & R & Q & _). eapply existsb_at; [do 4 right; exact R|]. apply bool_decide_eq_true. congruence.
      * apply has_true. by do 4 right.
  - by apply bool_decide_eq_true.
  - apply has_true. right. by left.
  - eapply existsb_at; [by left|]. cbn. by rewrite !bool_decide_eq_true_2.
Qed.
Lemma keeps_persist log tokens account (post : list fact -> result unit unit -> Prop) :
  saveable (row_of tokens account) log = true -> (forall log x, post log x) -> keeps log (persistRefreshToken tokens account) post.
Proof. intros S P. apply keeps_ask. intros x. cbn. unfold row_of in S. rewrite S. apply P. Qed.

Ltac soothe := first [done | unfold db, or_else; walk; try done].
Lemma calm_deliver tokens native resp : always calm (deliverSession tokens native resp) (fun _ => True).
Proof. unfold deliverSession, setSessionCookies, newCSRFToken. soothe. Qed.

(** What follows the minting asks for no more. *)
Lemma keeps_newSession log account native amr : clean log -> Read (AcID account) (Epoch account) ∈ log ->
  keeps log (newSession jwt account native amr) (fun _ _ => True).
Proof.
  intros C R. unfold newSession. apply keeps_then, keeps_now. intros now.
  apply keeps_try, keeps_else, keeps_quietly; [by apply always_ask|]. intros [held|e]; [|done].
  apply keeps_try, keeps_else, keeps_quietly; [apply quiet_steps|]. intros [steps|e]; [|done]. cbv zeta.
  apply keeps_try, keeps_else, keeps_GenerateSession; [done|done| |done]. intros l tokens S.
  apply keeps_try, keeps_else, keeps_persist; [done|]. intros l' [[]|e]; [|done].
  apply keeps_calmly; [|done]. apply always_try. unfold or_else. apply always_then. eapply always_mono; [|apply calm_deliver].
  intros [a|e] _; soothe.
Qed.
Ltac noting := cbn [note note_db fmap option_fmap option_map noted].
Ltac quietly L := apply keeps_quietly; [L|].
Ltac asked := by apply always_ask.

Lemma keeps_login req : keeps [] (login jwt masterKey req) (fun _ _ => True).
Proof.
  unfold login. apply keeps_try, keeps_else, keeps_ask. intros [found|e]; [|done]. noting.
  apply keeps_then, keeps_now. intros now.
  apply keeps_try, keeps_else, keeps_quietly; [apply quiet_matchPassword|]. intros [cred|e]; [|done].
  destruct found as [account|], cred as [cr|]; try done. destruct (negb _); [done|]. destruct (BootstrapExpired _ _); [done|].
  apply keeps_try. unfold enforce2FA. apply keeps_try, keeps_else. quietly asked. intros [active|e]; [|done].
  assert (L : forall v, keeps (noted (Some account) []) (held <-! or_else (internal "Failed to load the account's capabilities") (db (DHeld (AcID account) now)) ;
     if negb (Held.MailboxSession held (AcAddress account)) && negb (Held.AdminSession held)
     then Ret (Err errAccessRestricted) else newSession jwt account (is_native (Client req)) (signInMethods v))%prog (fun _ _ => True)).
  { intros v. apply keeps_try, keeps_else. quietly asked. intros [held|e]; [|done]. destruct (_ && _); [done|].
    apply keeps_newSession; [by apply clean_cons, Logic.I; apply clean_nil|by left]. }
  destruct (is_none active); [apply keeps_ret, L|].
  apply keeps_try, keeps_else. quietly ltac:(apply quiet_verify). intros [[]|e]; [apply keeps_ret, L| |done].
  apply keeps_ret. by destruct (_ && _).
Qed.

Lemma keeps_validate log type token (post : list fact -> result token_error Claims -> Prop) :
  (forall c, TokenType c = type -> post (Parsed c :: log) (Ok (decoded c))) -> (forall log' e, post log' (Err e)) ->
  keeps log (validate_type type token) post.
Proof.
  intros P E. unfold validate_type, ValidateToken. apply keeps_try, keeps_try, keeps_ask. intros [c|e]; noting; [|apply E].
  apply keeps_ret. destruct (bool_decide _); [apply E|]. apply keeps_ret. cbn [decoded TokenType]. destruct (bool_decide (TokenType c = type)) eqn:T; [|apply E].
  apply P. by apply bool_decide_eq_true in T.
Qed.
Lemma keeps_AccountState log id (post : list fact -> result unit (option accountState) -> Prop) :
  (forall a r, (a = None -> r = Ok None \/ r = Err tt) -> (match r with Ok (Some st) => exists a', a = Some a' /\ StEpoch st = Epoch a' | _ => True end) -> post (noted a log) r) ->
  post log (Err tt) -> keeps log (AccountState id) post.
Proof.
  intros P E. unfold AccountState. apply keeps_try, keeps_ask. intros [[a|]|[]]; noting; [|by apply (P None); auto|done].
  assert (P' : forall r, (match r with Ok (Some st) => StEpoch st = Epoch a | _ => True end) -> post (noted (Some a) log) r).
  { intros r Q. apply P; [done|]. destruct r as [[st|]|]; [|done|done]. by exists a. }
  apply keeps_then, keeps_now. intros n. destruct (_ || _); [apply keeps_ret; by apply P'|].
  apply keeps_then, keeps_now. intros n'. apply keeps_try. quietly asked. intros [held|[]]; [|by apply P'].
  apply keeps_try. quietly ltac:(apply quiet_steps). intros [steps|[]]; [|by apply P']. by apply keeps_ret, P'.
Qed.

Lemma keeps_refresh cookie body : keeps [] (refresh jwt cookie body) (fun _ _ => True).
Proof.
  unfold refresh. destruct (presentedRefreshToken _ _) as [token native]. destruct (bool_decide _); [done|].
  apply keeps_try, keeps_else, keeps_validate; [|done]. intros c T. cbn [decoded AccountID CredentialEpoch ID AMR SessionID AuthTime].
  apply keeps_try, keeps_else, keeps_AccountState; [|done]. intros a [[st|]|e] _ Q; [|apply keeps_calmly; [soothe|done]|done].
  destruct Q as (a' & -> & Q). destruct (StEpoch st =? CredentialEpoch c) eqn:EP; cbn [negb]; [|done]. apply Z.eqb_eq in EP.
  apply keeps_try, keeps_else, keeps_ask. intros rotated. noting.
  replace (parsed_as (ID c) _) with (Some c) by (unfold parsed_as; cbn; by rewrite bool_decide_eq_true_2). noting.
  destruct rotated as [[]|e]; [cbn [negb]|done..].
  apply keeps_try, keeps_else, keeps_GenerateSession; [| | |done].
  - repeat (apply clean_cons; [|done]). apply clean_nil.
  - unfold grounds. cbn. exists c. split_and!; try done; [do 2 right; by left|by left].
  - intros l tokens S. apply keeps_try, keeps_else, keeps_persist; [done|]. intros l' [[]|e]; [|done]. cbv zeta.
    apply keeps_else, keeps_calmly; [apply calm_deliver|done].
Qed.
Lemma keeps_reset req : keeps [] (reset jwt req) (fun _ _ => True).
Proof.
  unfold reset. destruct (negb _); [done|]. apply keeps_then. unfold ResetAdmin. destruct (_ <? _); [done|].
  apply keeps_try, keeps_else. quietly asked. intros [hash|e]; [|done].
  apply keeps_try, keeps_else. quietly asked. intros [pid|e]; [|done].
  apply keeps_try, keeps_else, keeps_ask. intros [[a|e]|e]; noting; [|done|done]. apply keeps_ret.
  apply keeps_then. quietly asked. intros _. apply keeps_newSession; [by apply clean_cons, Logic.I; apply clean_nil|by left].
Qed.
Lemma keeps_recover req : keeps [] (recoverAccount jwt masterKey req) (fun _ _ => True).
Proof.
  unfold recoverAccount. destruct (negb _); [done|]. cbv zeta. apply keeps_then. quietly asked. intros [r|]; [done|].
  assert (N : forall l, keeps l (refuse_recovery (ToLower (TrimSpace (RcEmail req)))) (fun _ _ => True)).
  { intros l. apply keeps_calmly; [unfold refuse_recovery; soothe|done]. }
  apply keeps_try, keeps_else, keeps_ask. intros [[a|]|e]; noting; [|apply N|done]. destruct (negb _); [apply N|].
  apply keeps_try, keeps_else. quietly ltac:(apply quiet_verify). intros [[]|e]; cbn [negb]; [|apply N|done].
  apply keeps_try, keeps_else. quietly ltac:(apply quiet_verify). intros [[]|e]; cbn [negb]; [|apply N|done].
  apply keeps_try, keeps_else. quietly asked. intros [hash|e]; [|done].
  apply keeps_then, keeps_now. intros n.
  apply keeps_try, keeps_else. quietly asked. intros [pid|e]; [|done].
  apply keeps_try, keeps_else. quietly asked. intros [u|e]; [|done].
  apply keeps_then. quietly asked. intros _.
  apply keeps_try, keeps_else, keeps_ask. intros [[a'|]|e]; noting; [|done|done].
  apply keeps_newSession; [|by left]. repeat (apply clean_cons; [|done]). apply clean_nil.
Qed.

(** The handlers that mint nothing. *)
Lemma calm_validate type token : always calm (validate_type type token) (fun _ => True).
Proof. unfold validate_type, ValidateToken. soothe. Qed.
Ltac calmly L := eapply (always_mono _ _ (fun _ => True)); [|first [done | apply calm_quiet; L | L]].
Lemma calm_logout cookie body : always calm (logout cookie body) (fun _ => True).
Proof.
  unfold logout. destruct (fst _); [done|]. apply always_then. calmly ltac:(apply calm_validate). intros [c|e] _; soothe.
Qed.
Lemma calm_else {E F A} (e : F) (p : prog Q (result E A)) :
  always calm p (fun _ => True) -> always calm (or_else e p) (fun _ => True).
Proof. intros W. unfold or_else. apply always_then. eapply always_mono; [|exact W]. done. Qed.
Lemma calm_changePassword claims req : always calm (changePassword window claims req) (fun _ => True).
Proof.
  unfold changePassword. destruct claims as [c|]; [|done]. destruct (_ || _); [done|].
  apply always_try. calmly ltac:(apply calm_else; by apply always_ask). intros [[a|]|e] _; [|done|done].
  destruct (negb _); [done|]. apply always_try. calmly soothe. intros [i|e] _; [|done].
  apply always_try. calmly ltac:(destruct i; [done|apply calm_quiet, quiet_fresh]). intros [[]|e] _; [|done].
  apply always_then, always_ask; [done|]. intros n. apply always_ret, always_try.
  calmly ltac:(apply calm_else, calm_quiet, quiet_matchPassword). intros [[cr|]|e] _; soothe.
Qed.
Lemma calm_enroll claims : always calm (enroll masterKey enabled claims) (fun _ => True).
Proof.
  unfold enroll. destruct (negb _); [done|]. destruct (bool_decide _); [done|]. destruct (twoFactorOwner _) as [[a l]|]; [|done].
  apply always_try. calmly ltac:(apply calm_else; by apply always_ask). intros [ex|e] _; [|done]. destruct (_ ≫= _); [done|].
  apply always_try. calmly ltac:(apply calm_else; by apply always_ask). intros [k|e] _; [|done].
  apply always_try. calmly ltac:(apply calm_else; by apply always_ask). intros [en|e] _; [|done].
  apply always_try. calmly ltac:(apply quiet_codes). intros [cs|e] _; [|done].
  apply always_try. calmly ltac:(apply quiet_hash_codes). intros [hs|e] _; [|done]. soothe.
Qed.
Lemma calm_confirm claims code : always calm (confirm masterKey enabled claims code) (fun _ => True).
Proof.
  unfold confirm. destruct (negb _); [done|]. destruct (twoFactorOwner _) as [[a l]|]; [|done]. destruct (bool_decide _); [done|].
  apply always_try. calmly ltac:(apply calm_else; by apply always_ask). intros [[tf|]|e] _; [|done|done]. destruct (negb _); [done|].
  destruct (DecryptString _ _); [|done]. apply always_then. calmly ltac:(apply quiet_ValidateTOTPCode). intros [] _; soothe.
Qed.
Lemma calm_disable claims totp recovery : always calm (disableOwn masterKey window claims totp recovery) (fun _ => True).
Proof.
  unfold disableOwn. apply always_try. calmly ltac:(apply quiet_fresh). intros [[]|e] _; [|done].
  destruct (twoFactorOwner _) as [[a l]|]; [|done]. destruct (_ && _); [done|].
  apply always_try. calmly ltac:(apply calm_else; by apply always_ask). intros [act|e] _; [|done]. destruct (is_none _); [done|].
  apply always_try. calmly ltac:(apply calm_else, calm_quiet, quiet_verify). intros [[]|e] _; cbn [negb]; soothe.
Qed.

Lemma serve_keeps r : keeps [] (serve jwt masterKey enabled window r) (fun _ _ => True).
Proof.
  destruct r; apply keeps_then; cbn beta;
    first [apply keeps_login | apply keeps_refresh | apply keeps_reset | apply keeps_recover
          |apply keeps_calmly; [first [apply calm_logout | apply calm_changePassword | apply calm_enroll | apply calm_confirm | apply calm_disable]|done]].
Qed.
End Handlers.
End HandlersKeep.
