(* ===== verification/AccountsFacts.v ===== *)
(** * What the statements leave as it was

    Every statement but the recording of a refresh token is one of the changes the rest of
    the server may make too ([Sessions.others]): epochs only grow, refresh tokens only stop
    being active, revoked credentials stay revoked. Those that end an account's sessions
    move its epoch on. *)

From S2P Require Import Prelude GoTime GoStrings MailAddress Prog MailStore Grants GrantStore Auth Accounts SignIn Sessions.
Import GoTime GoStrings Auth Prog Accounts SignIn Sessions.
Local Open Scope Z_scope.

Module AccountsFacts.

Definition ids_ok (t : Tables) : Prop := Forall (fun c => CrID c < next_credential t) (credentials t).

Lemma others_refl t : ids_ok t -> others t t.
Proof.
  intros I. constructor.
  - intros id a F. exists a. split; [done|lia].
  - exists Some. split; [by induction (refresh_tokens t) as [|r l IH]; [|cbn; f_equal]|]. intros r r' [= <-]. by left.
  - split; [lia|exact I].
  - intros c C N. right. by exists c.
  - intros o O U. by exists o.
  - done.
  - done.
Qed.
Lemma omap_omap {A B C} (f : A -> option B) (g : B -> option C) (l : list A) : omap g (omap f l) = omap (fun x => f x ≫= g) l.
Proof. induction l as [|x l IH]; [done|]. cbn. destruct (f x) as [y|]; cbn; [|exact IH]. by destruct (g y); cbn; rewrite IH. Qed.
Lemma others_trans t t' t'' : others t t' -> others t' t'' -> others t t''.
Proof.
  intros [E T I C O V U] [E' T' I' C' O' V' U']. constructor; [| | | | |auto|auto].
  - intros id a F. destruct (E' id a F) as (b & G & L). destruct (E id b G) as (a0 & G' & L'). exists a0. split; [done|lia].
  - destruct T as (f & T & F), T' as (g & T' & G). rewrite T', T. exists (fun r => f r ≫= g). split; [apply omap_omap|].
    intros r r'' Q. destruct (f r) as [r'|] eqn:FR; [|done]. cbn in Q.
    destruct (F _ _ FR) as [->|(s & S & ->)]; [by apply G|]. right.
    destruct (G _ _ Q) as [->|(s' & S' & ->)]; [by exists s|by exists s'].
  - split; [lia|apply I'].
  - intros c Q N. destruct (C' c Q N) as [L|(c' & Q' & D & N')]; [left; lia|].
    destruct (C c' Q' N') as [L|(c0 & Q0 & D0 & N0)]; [left; lia|]. right. exists c0. split_and!; [done|lia|done].
  - intros o Q W. destruct (O' o Q W) as (o' & Q' & H & W'). destruct (O o' Q' W') as (o0 & Q0 & H0 & W0).
    exists o0. split_and!; [done|congruence|done].
Qed.
Lemma others_ids_ok t t' : others t t' -> ids_ok t'.
Proof. intros O. apply O. Qed.

(** ** One table at a time *)

Lemma find_account_id id t a : find_account id t = Some a -> AcID a = id /\ a ∈ accounts t.
Proof.
  unfold find_account. intros E. destruct (List.filter _ _) as [|x l] eqn:L; [done|]. injection E as ->.
  assert (I : In a (a :: l)) by by left. rewrite <- L in I. apply filter_In in I as [J I]. split; [bool_lia|by apply list_elem_of_In].
Qed.
Lemma elem_of_update {A} (p : A -> bool) f (l : list A) x : x ∈ update p f l -> exists y, y ∈ l /\ x = if p y then f y else y.
Proof. unfold update. intros (y & -> & Y)%list_elem_of_fmap. by exists y. Qed.

Lemma find_updated id id' f t : (forall a, AcID (f a) = AcID a) ->
  find_account id (update_account id' f t) = (fun a => if AcID a =? id' then f a else a) <$> find_account id t.
Proof.
  intros F. unfold find_account, update_account, update. cbn. induction (accounts t) as [|a l IH]; [done|]. cbn.
  assert (Q : AcID (if AcID a =? id' then f a else a) = AcID a) by (by destruct (_ =? id')).
  rewrite Q. by destruct (AcID a =? id).
Qed.
Lemma others_account t id f : ids_ok t -> (forall a, AcID (f a) = AcID a /\ Epoch a <= Epoch (f a)) -> others t (update_account id f t).
Proof.
  intros I F. pose proof (others_refl t I) as [E T C K O HA HN]. constructor; cbn; [|exact T|exact C|exact K|exact O| |exact HN].
  - intros i a' Q. rewrite find_updated in Q by (intros; apply F). destruct (find_account i t) as [a|]; [|done]. injection Q as <-.
    exists a. split; [done|]. destruct (_ =? _); [apply F|lia].
  - intros D. replace (AcID <$> update (fun a => AcID a =? id) f (accounts t)) with (AcID <$> accounts t); [done|].
    unfold update. clear - F. induction (accounts t) as [|a l IH]; [done|]. cbn. rewrite <- IH. f_equal. destruct (_ =? _); [|done].
    symmetry. apply F.
Qed.
Lemma others_updated t p f : ids_ok t ->
  (forall c, CrID (f c) = CrID c /\ (RevokedAt (f c) = None -> RevokedAt c = None)) ->
  others t (with_credentials (update p f (credentials t)) t).
Proof.
  intros I F. pose proof (others_refl t I) as [E T C K O HA HN]. constructor; cbn; [exact E|exact T| |  |exact O|exact HA|exact HN].
  - split; [lia|]. apply Forall_forall. intros c (y & Y & ->)%elem_of_update.
    pose proof (proj1 (Forall_forall _ _) I y Y). destruct (p y); [by rewrite (proj1 (F y))|done].
  - intros c (y & Y & ->)%elem_of_update N. right. exists y. destruct (p y); [|done]. split_and!; [done|by rewrite (proj1 (F y))|by apply F].
Qed.
Lemma others_inserted t f : ids_ok t -> (forall id, CrID (f id) = id) -> others t (insert_credential f t).
Proof.
  intros I F. pose proof (others_refl t I) as [E T C K O HA HN]. constructor; cbn; [exact E|exact T| | |exact O|exact HA|exact HN].
  - split; [lia|]. apply Forall_app. split; [|constructor; [rewrite F; lia|done]].
    eapply Forall_impl; [exact I|]. cbn. intros; lia.
  - intros c [Q|Q]%elem_of_app N; [by apply K|]. apply list_elem_of_singleton in Q as ->. left. rewrite F. lia.
Qed.
Lemma others_refreshed t p s : ids_ok t -> s <> RefreshTokenActive -> others t (with_refresh (update p (with_status s) (refresh_tokens t)) t).
Proof.
  intros I S. pose proof (others_refl t I) as [E T C K O HA HN]. constructor; cbn; [exact E| |exact C|exact K|exact O|exact HA|exact HN].
  exists (fun r => Some (if p r then with_status s r else r)). split.
  - unfold update. induction (refresh_tokens t) as [|r l IH]; [done|]. cbn. by f_equal.
  - intros r r' [= <-]. destruct (p r); [right; by exists s|by left].
Qed.
Lemma others_sessions t l n : ids_ok t -> others t (with_sessions l n t).
Proof. intros I. pose proof (others_refl t I) as [E T C K O HA HN]. by constructor. Qed.
Lemma others_revocations t l : ids_ok t -> others t (with_revocations l t).
Proof. intros I. pose proof (others_refl t I) as [E T C K O HA HN]. by constructor. Qed.
Lemma others_spent t p now : ids_ok t -> others t (with_one_time (update p (spent_at now) (one_time_tokens t)) t).
Proof.
  intros I. pose proof (others_refl t I) as [E T C K O HA HN]. constructor; cbn; [exact E|exact T|exact C|exact K| |exact HA|].
  - intros o (y & Y & ->)%elem_of_update U. exists y. by destruct (p y).
  - intros D. replace (OtHash <$> update p (spent_at now) (one_time_tokens t)) with (OtHash <$> one_time_tokens t); [done|].
    unfold update. clear. induction (one_time_tokens t) as [|o l IH]; [done|]. cbn. rewrite <- IH. f_equal. by destruct (p o).
Qed.

(** ** The statements *)

Lemma others_RevokeKinds account now kinds t : ids_ok t -> others t (snd (RevokeKinds account now kinds t)).
Proof. intros I. apply others_updated; [done|]. done. Qed.
Lemma others_SetPassword account hash publicID by_ now t : ids_ok t -> others t (SetPassword account hash publicID by_ now t).
Proof.
  intros I. pose proof (others_RevokeKinds account now [KindPassword] t I) as O. eapply others_trans; [exact O|].
  by apply others_inserted; [apply O|].
Qed.
Lemma others_RevokeAll account now t : ids_ok t -> others t (RevokeAllForAccount account now t).
Proof.
  intros I. assert (O : others t (revoke_tokens account t)) by by apply others_refreshed.
  eapply others_trans; [exact O|]. apply others_sessions, O.
Qed.
Lemma others_endSessions account now t : ids_ok t -> others t (endSessions account now t).
Proof.
  intros I. assert (O : others t (update_account account (fun a => with_epoch (Epoch a + 1) a) t))
    by (apply others_account; [done|]; intros; cbn; split; [done|lia]).
  eapply others_trans; [exact O|]. apply others_RevokeAll, O.
Qed.
Lemma others_recorded account now reason t : ids_ok t ->
  others t (record_revocations reason (fst (RevokeAppPasswords account now t)) (snd (RevokeAppPasswords account now t))).
Proof.
  intros I. assert (O : others t (snd (RevokeAppPasswords account now t))) by by apply others_RevokeKinds.
  eapply others_trans; [exact O|]. apply others_revocations, O.
Qed.
Lemma others_change_password account hash publicID now at_ t : ids_ok t -> others t (change_password account hash publicID now at_ t).
Proof.
  intros I. unfold change_password, setAccountPassword.
  assert (O : others t (update_account account (own_password now) t)) by (apply others_account; [done|]; intros; cbn; split; [done|lia]).
  eapply others_trans; [exact O|]. destruct O as [_ _ [_ I'] _ _ _ _].
  pose proof (others_SetPassword account hash publicID (Some account) now _ I') as O. eapply others_trans; [exact O|].
  destruct O as [_ _ [_ I''] _ _ _ _]. pose proof (others_recorded account now CredentialRevokedPasswordChanged _ I'') as O.
  eapply others_trans; [exact O|]. apply others_endSessions, O.
Qed.
Lemma others_resetCredentials account hash publicID now t : ids_ok t -> others t (resetCredentials account hash publicID now t).
Proof.
  intros I. unfold resetCredentials. pose proof (others_SetPassword account hash publicID None now _ I) as O. cbv zeta.
  eapply others_trans; [exact O|]. destruct O as [_ _ [_ I'] _ _ _ _].
  pose proof (others_RevokeKinds account now TwoFactorKinds _ I') as O. eapply others_trans; [exact O|].
  destruct O as [_ _ [_ I''] _ _ _ _]. pose proof (others_recorded account now CredentialRevokedAccountReset _ I'') as O.
  eapply others_trans; [exact O|]. apply others_RevokeAll, O.
Qed.
Lemma others_Enroll account encrypted publicID codes now t : ids_ok t -> others t (Enroll account encrypted publicID codes now t).
Proof.
  intros I. unfold Enroll. cbv zeta. pose proof (others_RevokeKinds account now TwoFactorKinds _ I) as O.
  eapply others_trans; [exact O|]. destruct O as [_ _ [_ I'] _ _ _ _].
  match goal with |- others _ (fold_left _ codes (insert_credential ?f ?t0)) =>
    pose proof (others_inserted t0 f I' (fun _ => eq_refl)) as O end.
  eapply others_trans; [exact O|]. destruct O as [_ _ [_ I''] _ _ _ _]. revert I''.
  generalize (insert_credential (new_credential account KindTOTP "Authenticator" publicID "" encrypted (Some account))
    (snd (RevokeKinds account now TwoFactorKinds t))). clear. induction codes as [|c l IH]; intros t I; [by apply others_refl|].
  cbn [fold_left]. match goal with |- others _ (fold_left _ l (insert_credential ?f ?t0)) =>
    pose proof (others_inserted t0 f I (fun _ => eq_refl)) as O end.
  eapply others_trans; [exact O|]. apply IH, O.
Qed.

(** A redeemed token: spent, and what follows. *)
Lemma reset_admin_inv h hash publicID now t a t' : reset_admin h hash publicID now t = Ok (a, t') ->
  exists o id t1, redeem h OneTimeTokenResetAdmin now t = Ok (o, t1) /\ OtAccount o = Some id
    /\ t' = resetCredentials id hash publicID now (update_account id (let_back_in now) t1) /\ find_account id t' = Some a.
Proof.
  unfold reset_admin. intros ((o & t1) & R & E)%result_bind_ok. destruct (OtAccount o) as [id|] eqn:A; [|done].
  destruct (find_account id t1) eqn:F; [|done].
  destruct (find_account id (resetCredentials id hash publicID now (update_account id (let_back_in now) t1))) eqn:G; [|done].
  injection E as -> <-. by exists o, id, t1.
Qed.
Lemma redeem_inv h purpose now t o t1 : redeem h purpose now t = Ok (o, t1) ->
  List.filter (redeemable h purpose now) (one_time_tokens t) = [o]
  /\ t1 = with_one_time (update (redeemable h purpose now) (spent_at now) (one_time_tokens t)) t.
Proof. unfold redeem. destruct (List.filter _ _) as [|o' [|]]; [done| |done]. by intros [= -> <-]. Qed.
Lemma others_reset h hash publicID now t a t' : ids_ok t -> reset_admin h hash publicID now t = Ok (a, t') -> others t t'.
Proof.
  intros I (o & id & t1 & R & _ & -> & _)%reset_admin_inv. apply redeem_inv in R as [_ ->].
  pose proof (others_spent t (redeemable h OneTimeTokenResetAdmin now) now I) as O. eapply others_trans; [exact O|].
  destruct O as [_ _ [_ I'] _ _ _ _].
  match goal with |- others ?t0 _ => assert (O : others t0 (update_account id (let_back_in now) t0))
    by (apply others_account; [exact I'|]; intros; cbn; split; [done|lia]) end.
  eapply others_trans; [exact O|]. apply others_resetCredentials, O.
Qed.

Section Exec.
Context `{Unicode, AuthLib, MailLib, TextLib} (override : option Held.Held).

(** The refresh token a statement records. *)
Definition recorded {X} (d : D X) : option RefreshRow := match d with DSave r => Some r | _ => None end.
Lemma exec_others at_ X (d : D X) t : ids_ok t -> recorded d = None ->
  others t (snd (exec override at_ d t)).
Proof.
  intros I NS. destruct d; cbn [exec snd]; try (by apply others_refl); try (by apply others_updated); try (by apply others_sessions).
  - by apply others_Enroll.
  - unfold disable_two_factor. pose proof (others_RevokeKinds account at_ TwoFactorKinds _ I) as O.
    eapply others_trans; [exact O|]. apply others_endSessions, O.
  - discriminate NS.
  - unfold Rotate. cbn. by apply others_refreshed.
  - by apply others_refreshed.
  - by apply others_RevokeAll.
  - by apply others_change_password.
  - destruct (reset_admin _ _ _ _ _) as [[a t']|e] eqn:R; cbn; [by eapply others_reset|by apply others_refl].
  - apply others_account; [done|]. intros; cbn. split; [done|lia].
Qed.

(** ** Ending an account's sessions *)

(** The statement, when it is done, ends [account]'s sessions. *)
Definition ends (at_ : Time) {X} (d : D X) (t : Tables) (account : Z) : Prop :=
  match d with
  | DSetPassword a _ _ _ | DDisable a => a = account
  | DResetAdmin h hash publicID => exists a t', reset_admin h hash publicID at_ t = Ok (a, t') /\ AcID a = account
  | _ => False
  end.
(** The epoch has moved on, in every row there is. *)
Definition moved (account : Z) (t t' : Tables) : Prop :=
  forall a', find_account account t' = Some a' -> exists a, find_account account t = Some a /\ Epoch a < Epoch a'.
Lemma moved_by t t1 t2 t' account : others t t1 -> moved account t1 t2 -> others t2 t' -> moved account t t'.
Proof.
  intros O M O' a' F. destruct (others_epoch _ _ O' _ _ F) as (a2 & F2 & L2).
  destruct (M a2 F2) as (a1 & F1 & L1). destruct (others_epoch _ _ O _ _ F1) as (a & F0 & L0). exists a. split; [done|lia].
Qed.
Lemma moved_update account f t : (forall a, AcID (f a) = AcID a /\ Epoch a < Epoch (f a)) -> moved account t (update_account account f t).
Proof.
  intros F a' Q. rewrite find_updated in Q by (intros; apply F). destruct (find_account account t) as [a|] eqn:E; [|done].
  injection Q as <-. exists a. split; [done|]. rewrite (proj1 (find_account_id _ _ _ E)), Z.eqb_refl. apply F.
Qed.
Lemma moved_endSessions account now t : ids_ok t -> moved account t (endSessions account now t).
Proof.
  intros I. unfold endSessions. eapply moved_by; [by apply others_refl| |].
  - apply (moved_update account (fun a => with_epoch (Epoch a + 1) a)). intros; cbn. split; [done|lia].
  - apply others_RevokeAll. exact I.
Qed.
Lemma exec_moved at_ X (d : D X) t account : ids_ok t -> ends at_ d t account -> moved account t (snd (exec override at_ d t)).
Proof.
  intros I E. destruct d; try done; cbn [ends] in E; cbn [exec snd].
  - subst account0. unfold disable_two_factor. pose proof (others_RevokeKinds account at_ TwoFactorKinds _ I) as O.
    eapply moved_by; [exact O| |by apply others_refl, others_endSessions, O]. apply moved_endSessions, O.
  - subst account0. unfold change_password, setAccountPassword.
    assert (O : others t (revokeAppPasswordsForNewPassword account now (SetPassword account hash publicID (Some account) now
       (update_account account (own_password now) t)))).
    { assert (O : others t (update_account account (own_password now) t)) by (apply others_account; [done|]; intros; cbn; split; [done|lia]).
      eapply others_trans; [exact O|]. destruct O as [_ _ [_ I'] _ _ _ _].
      pose proof (others_SetPassword account hash publicID (Some account) now _ I') as O. eapply others_trans; [exact O|].
      apply others_recorded, O. }
    eapply moved_by; [exact O| |by apply others_refl, others_endSessions, O]. apply moved_endSessions, O.
  - destruct E as (a & t' & R & A). rewrite R. cbn [snd].
    apply reset_admin_inv in R as (o & id & t1 & R & _ & -> & F).
    destruct (find_account_id _ _ _ F) as [I' _]. assert (id = account) as -> by congruence.
    apply redeem_inv in R as [_ ->].
    pose proof (others_spent t (redeemable token_hash OneTimeTokenResetAdmin at_) at_ I) as O.
    eapply moved_by; [exact O|apply (moved_update account (let_back_in at_)); intros; cbn; split; [done|lia]|].
    apply others_resetCredentials. apply O.
Qed.
End Exec.
End AccountsFacts.
