(* ===== verification/SessionsSafety.v ===== *)
(** * What is used up stays used up

    A refresh token that was exchanged, a recovery code that was spent and a one-time token
    that was redeemed stay so, whatever the server does next. *)

From S2P Require Import Prelude GoTime GoStrings MailAddress Prog MailStore Grants GrantStore Auth Accounts SignIn Sessions Custody.
From S2P Require Import AccountsFacts.

Module SessionsOnce.
Import GoTime GoStrings Auth Prog Accounts SignIn Sessions AccountsFacts.
Local Open Scope Z_scope.

Record once_inv (t : Tables) (l : list once) : Prop := {
  on_ids : ids_ok t;
  on_accounts : NoDup (AcID <$> accounts t);
  on_hashes : NoDup (OtHash <$> one_time_tokens t);
  on_nodup : NoDup l;
  on_spent : forall id, Spent id ∈ l -> id < next_credential t
      /\ forall c, c ∈ credentials t -> CrID c = id -> RevokedAt c <> None;
  on_redeemed : forall h, Redeemed h ∈ l -> forall o, o ∈ one_time_tokens t -> OtHash o = h -> UsedAt o <> None;
  on_exchanged : forall j, Exchanged j ∈ l -> forall r, r ∈ refresh_tokens t -> Jti r = j -> Status r <> RefreshTokenActive
}.

Lemma elem_of_others_tokens t t' r' : others t t' -> r' ∈ refresh_tokens t' ->
  exists r, r ∈ refresh_tokens t /\ Jti r' = Jti r /\ RfSession r' = RfSession r
    /\ (Status r' = RefreshTokenActive -> r' = r).
Proof.
  intros O I. destruct (others_tokens _ _ O) as (f & E & F). rewrite E in I. apply list_elem_of_omap in I as (r & R & Q).
  exists r. split; [done|]. destruct (F _ _ Q) as [->|(s & S & ->)]; [done|]. split_and!; [done..|]. cbn. intros A. by destruct S.
Qed.
Lemma once_others t t' l : once_inv t l -> others t t' -> once_inv t' l.
Proof.
  intros [I A H N S R X] O. constructor; [by apply O|by apply O|by apply O|done| | |].
  - intros id Q. destruct (S id Q) as [L P]. split; [pose proof (others_ids _ _ O); lia|].
    intros c C E V. destruct (others_credentials _ _ O c C V) as [G|(c0 & C0 & E0 & V0)]; [lia|].
    by apply (P c0 C0); [congruence|].
  - intros h Q o I' E U. destruct (others_one_time _ _ O o I' U) as (o0 & I0 & E0 & U0). apply (R h Q o0 I0); congruence.
  - intros j Q r' I' E AC. destruct (elem_of_others_tokens _ _ _ O I') as (r & I0 & J & _ & K).
    specialize (K AC) as ->. by apply (X j Q r).
Qed.

Lemma affected_spec {A} (p : A -> bool) l : affected p l = true -> exists x, x ∈ l /\ p x = true.
Proof. unfold affected. intros (x & I & P)%existsb_exists. exists x. by rewrite list_elem_of_In. Qed.
Lemma once_take t t' l u : once_inv t l -> others t t' -> u ∉ l ->
  (match u with
   | Spent id => id < next_credential t' /\ forall c, c ∈ credentials t' -> CrID c = id -> RevokedAt c <> None
   | Redeemed h => forall o, o ∈ one_time_tokens t' -> OtHash o = h -> UsedAt o <> None
   | Exchanged j => forall r, r ∈ refresh_tokens t' -> Jti r = j -> Status r <> RefreshTokenActive
   end) -> once_inv t' (u :: l).
Proof.
  intros I O N U. destruct (once_others t t' l I O) as [I' A' H' N' S R X].
  constructor; [done|done|done|by constructor| | |].
  - intros id [E|Q]%elem_of_cons; [by subst u|by apply S].
  - intros h [E|Q]%elem_of_cons; [by subst u|by apply R].
  - intros j [E|Q]%elem_of_cons; [by subst u|by apply X].
Qed.

Lemma NoDup_fmap_eq {A B} (f : A -> B) l x y : NoDup (f <$> l) -> x ∈ l -> y ∈ l -> f x = f y -> x = y.
Proof.
  induction l as [|z l IH]; intros N; [by intros ?%not_elem_of_nil|]. apply NoDup_cons in N as [Z N].
  intros [->|X]%elem_of_cons [->|Y]%elem_of_cons E; [done| | |by apply IH].
  - destruct Z. rewrite E. by apply list_elem_of_fmap_2.
  - destruct Z. rewrite <- E. by apply list_elem_of_fmap_2.
Qed.
Lemma resetCredentials_one_time id hash publicID now t : one_time_tokens (resetCredentials id hash publicID now t) = one_time_tokens t.
Proof. reflexivity. Qed.
Section Exec.
Context `{Unicode, AuthLib, MailLib, TextLib} (override : option Held.Held).

Lemma once_exec at_ X (d : D X) t l : once_inv t l -> recorded d = None ->
  once_inv (snd (exec override at_ d t)) (uses at_ d t ++ l).
Proof.
  intros I N. pose proof (exec_others override at_ X d t (on_ids _ _ I) N) as O.
  destruct d; try exact (once_others _ _ _ I O).
  - cbn [uses]. destruct (affected _ _) eqn:A; [|exact (once_others _ _ _ I O)].
    apply affected_spec in A as (c & C & P). unfold spendable in P. bprop. destruct P as [<- P].
    assert (V : RevokedAt c = None) by (by destruct (RevokedAt c)). apply (once_take t); [done|done| |].
    + intros Q. by apply (proj2 (on_spent _ _ I _ Q) c C).
    + split; [exact (proj1 (Forall_forall _ _) (on_ids _ _ I) c C)|].
      intros c' (y & Y & ->)%elem_of_update E. destruct (spendable (CrID c) y) eqn:S; [done|].
      unfold spendable in S. intros V'. bprop. rewrite V' in S. destruct S; [lia|done].
  - cbn [uses]. destruct (affected _ _) eqn:A; [|exact (once_others _ _ _ I O)].
    apply affected_spec in A as (r & R & P). unfold live_token in P. bprop. destruct P as [<- P]. apply (once_take t); [done|done| |].
    + intros Q. by apply (on_exchanged _ _ I _ Q r).
    + intros r' (y & Y & ->)%elem_of_update E. destruct (live_token (Jti r) y) eqn:S; [done|].
      unfold live_token in S. bprop. destruct S; [done|done].
  - cbn [uses exec] in *. destruct (reset_admin _ _ _ _ _) as [[a t']|e] eqn:R; cbn [snd] in *; [|exact (once_others _ _ _ I O)].
    apply reset_admin_inv in R as (o & id & t1 & R & _ & -> & _). apply redeem_inv in R as [F ->].
    apply (once_take t); [done|done| |].
    + intros Q. assert (I' : In o [o]) by by left. rewrite <- F in I'. apply filter_In in I' as [I' P].
      apply list_elem_of_In in I'. unfold redeemable in P. rewrite !andb_true_iff in P. destruct P as [[[P _] U] _]. bprop.
      apply (on_redeemed _ _ I _ Q o I' P). by destruct (UsedAt o).
    + intros o' I' E U. rewrite resetCredentials_one_time in I'. cbn in I'. apply elem_of_update in I' as (y & Y & ->).
      assert (I' : In o [o]) by by left. rewrite <- F in I'. apply filter_In in I' as [I' P].
      apply list_elem_of_In in I'. assert (y = o) as ->.
      { apply (NoDup_fmap_eq OtHash _ y o (on_hashes _ _ I) Y I'). unfold redeemable in P. rewrite !andb_true_iff in P. destruct P as [[[P _] _] _].
        bprop. rewrite P. rewrite <- E. by destruct (redeemable _ _ _ y). }
      by rewrite P in U.
Qed.
End Exec.
End SessionsOnce.

(** * The custody of sessions, over every request in flight

    [held w logs]: [logs] is what each request in flight has done so far ([Custody]), and
    the tables and the issued tokens are as those requests left them. Every step keeps it. *)

Module SessionsInv.
Import GoTime GoStrings Auth Prog Accounts SignIn Sessions Custody HandlersKeep AccountsFacts SessionsOnce.
Local Open Scope Z_scope.

Definition live_row (sid : string) (r : RefreshRow) : bool :=
  bool_decide (RfSession r = sid) && bool_decide (Status r = RefreshTokenActive).
(** A session's refresh tokens that can be exchanged. *)
Definition live_rows (sid : string) (t : Tables) : list RefreshRow := List.filter (live_row sid) (refresh_tokens t).

Lemma elem_of_live sid t r : r ∈ live_rows sid t <-> r ∈ refresh_tokens t /\ RfSession r = sid /\ Status r = RefreshTokenActive.
Proof. unfold live_rows. rewrite !list_elem_of_In, filter_In. unfold live_row. bprop. tauto. Qed.
Lemma live_others sid t t' : others t t' -> (length (live_rows sid t') <= length (live_rows sid t))%nat.
Proof.
  intros O. destruct (others_tokens _ _ O) as (f & E & F). unfold live_rows. rewrite E. clear E O.
  induction (refresh_tokens t) as [|r l IH]; [done|]. cbn [omap list_omap List.filter].
  destruct (f r) as [r'|] eqn:Q; [|destruct (live_row sid r); cbn; lia].
  destruct (F _ _ Q) as [->|(s & S & ->)]; cbn [List.filter].
  - destruct (live_row sid r); cbn; lia.
  - replace (live_row sid (with_status s r)) with false; [destruct (live_row sid r); cbn; lia|].
    unfold live_row. cbn. by rewrite (bool_decide_eq_false_2 (s = _)), andb_false_r.
Qed.

Record held (w : World) (logs : list (list fact)) : Prop := {
  h_drawn : forall i l s, logs !! i = Some l -> Drawn s ∈ l -> s ∈ used w;
  h_apart : forall i j l l' s, logs !! i = Some l -> logs !! j = Some l' -> Drawn s ∈ l -> Drawn s ∈ l' -> i = j;
  h_used : forall tok c, (tok, c) ∈ issued w -> ID c ∈ used w /\ SessionID c ∈ used w;
  h_jti : forall tok c tok' c', (tok, c) ∈ issued w -> (tok', c') ∈ issued w -> ID c = ID c' -> c = c';
  h_kin : forall tok c tok' c', (tok, c) ∈ issued w -> (tok', c') ∈ issued w -> SessionID c = SessionID c' -> kin c c' = true;
  h_epoch : forall tok c a, (tok, c) ∈ issued w -> find_account (AccountID c) (tables w) = Some a -> CredentialEpoch c <= Epoch a;
  h_read : forall i l id e a, logs !! i = Some l -> Read id e ∈ l -> find_account id (tables w) = Some a -> e <= Epoch a;
  h_seen : forall i l c, logs !! i = Some l -> Parsed c ∈ l \/ Rotated c ∈ l \/ Signed c ∈ l -> exists tok, (tok, c) ∈ issued w;
  h_mine : forall i l tok c, logs !! i = Some l -> Drawn (ID c) ∈ l -> (tok, c) ∈ issued w -> Signed c ∈ l;
  h_session : forall i l tok c, logs !! i = Some l -> Drawn (SessionID c) ∈ l -> (tok, c) ∈ issued w ->
      exists c0, Signed c0 ∈ l /\ kin c0 c = true;
  h_rows : forall r, r ∈ refresh_tokens (tables w) ->
      exists tok c, (tok, c) ∈ issued w /\ ID c = Jti r /\ SessionID c = RfSession r;
  h_taken : forall j, Exchanged j ∈ taken w -> exists tok c, (tok, c) ∈ issued w /\ ID c = j;
  h_saved : forall i l j, logs !! i = Some l -> Drawn j ∈ l ->
      (exists r, r ∈ refresh_tokens (tables w) /\ Jti r = j) \/ Exchanged j ∈ taken w -> Saved ∈ l;
  h_live : forall sid, (length (live_rows sid (tables w)) <= 1)%nat;
  h_none : forall i l sid, logs !! i = Some l -> pending sid l = true -> live_rows sid (tables w) = [];
  h_sole : forall i j l l' sid, logs !! i = Some l -> logs !! j = Some l' -> pending sid l = true -> pending sid l' = true -> i = j
}.

Lemma owns_spec sid l : owns sid l = true <-> Drawn sid ∈ l \/ exists c, Rotated c ∈ l /\ SessionID c = sid.
Proof.
  unfold owns. bprop. unfold has. rewrite bool_decide_eq_true, existsb_exists. split; intros [D|P]; [by left| |by left|].
  - destruct P as (f & I & T). apply list_elem_of_In in I. destruct f as [| | |c| |]; try done. right. exists c. bprop. by split.
  - destruct P as (c & I & <-). right. exists (Rotated c). split; [by apply list_elem_of_In|by apply bool_decide_eq_true].
Qed.
Lemma pending_spec sid l : pending sid l = true <-> Saved ∉ l /\ (Drawn sid ∈ l \/ exists c, Rotated c ∈ l /\ SessionID c = sid).
Proof. unfold pending, has. rewrite andb_true_iff, negb_true_iff, bool_decide_eq_false, owns_spec. done. Qed.
Lemma elem_of_signed_as id l : signed_as id l = false -> forall c, Signed c ∈ l -> ID c <> id.
Proof.
  intros N c I E. unfold signed_as in N. apply not_true_iff_false in N. apply N. eapply existsb_at; [exact I|]. by apply bool_decide_eq_true.
Qed.
Lemma starts_spec c l : starts c l = true -> Drawn (SessionID c) ∈ l /\ Read (AccountID c) (CredentialEpoch c) ∈ l
  /\ forall c', Signed c' ∈ l -> SessionID c' = SessionID c -> kin c' c = true.
Proof.
  unfold starts. rewrite !andb_true_iff. unfold has. rewrite !bool_decide_eq_true, forallb_forall. intros [[D R] K].
  split_and!; [done..|]. intros c' I E. specialize (K (Signed c')). rewrite <- list_elem_of_In in K. specialize (K I). cbn in K.
  by rewrite bool_decide_eq_true_2 in K.
Qed.
Lemma continues_spec c l : continues c l = true -> exists c0, Parsed c0 ∈ l /\ kin c0 c = true.
Proof.
  unfold continues. intros (f & I & T)%existsb_exists. apply list_elem_of_In in I. destruct f as [| |c0| | |]; try done. by exists c0.
Qed.

(** ** The tables change, and nothing is signed or recorded *)

Lemma held_others w logs t' : held w logs -> others (tables w) t' -> held (with_tables t' w) logs.
Proof.
  intros [H1 H2 H3 H4 H5 H6 H7 H8 H9 H10 H11 H12 H13 H14 H15 H16] O. constructor; cbn; try assumption.
  - intros tok c a' I F. destruct (others_epoch _ _ O _ _ F) as (a & F0 & L). specialize (H6 tok c a I F0). lia.
  - intros i l id e a' I R F. destruct (others_epoch _ _ O _ _ F) as (a & F0 & L). specialize (H7 i l id e a I R F0). lia.
  - intros r' I. destruct (elem_of_others_tokens _ _ _ O I) as (r & I0 & J & S & _). rewrite J, S. by apply H11.
  - intros i l j I D [(r' & R & J)|T]; [|by eapply H13; eauto].
    destruct (elem_of_others_tokens _ _ _ O R) as (r & I0 & J' & _). eapply H13; [exact I|exact D|]. left. exists r. split; [done|congruence].
  - intros sid. etrans; [by apply live_others|done].
  - intros i l sid I P. pose proof (live_others sid _ _ O) as L. rewrite (H15 i l sid I P) in L.
    apply length_zero_iff_nil. cbn in L. lia.
Qed.

(** A longer log of request [i], when what was added owns nothing new. *)
Lemma inserted (logs : list (list fact)) i l j l' : <[i := l]> logs !! j = Some l' ->
  (i = j /\ l' = l) \/ (i <> j /\ logs !! j = Some l').
Proof. intros [(E & F & _)|Q]%list_lookup_insert_Some; [left; by split|by right]. Qed.
Ltac which Q := apply inserted in Q as [[<- ->]|[? Q]].
Definition plain (f : fact) : bool := match f with Read _ _ | Parsed _ => true | _ => false end.
Lemma plain_pending f l sid : plain f = true -> pending sid (f :: l) = pending sid l.
Proof.
  intros P. apply eq_true_iff_eq. rewrite !pending_spec, !elem_of_cons. setoid_rewrite elem_of_cons. destruct f; try done; naive_solver.
Qed.
Lemma held_plain w logs i l f : held w logs -> logs !! i = Some l -> plain f = true ->
  (match f with
   | Read id e => forall a, find_account id (tables w) = Some a -> e <= Epoch a
   | Parsed c => exists tok, (tok, c) ∈ issued w
   | _ => True
   end) -> held w (<[i := f :: l]> logs).
Proof.
  intros [H1 H2 H3 H4 H5 H6 H7 H8 H9 H10 H11 H12 H13 H14 H15 H16] L P V.
  assert (D : forall s, Drawn s ∈ f :: l -> Drawn s ∈ l) by (intros s [E|I]%elem_of_cons; [by subst f|done]).
  constructor; try assumption.
  - intros j l' s Q. which Q; [intros ?%D; by eapply H1|by eapply H1].
  - intros j k l1 l2 s Q1 Q2. which Q1; which Q2; [done|intros ?%D ?|intros ? ?%D|]; eauto.
  - intros j l' id e a Q. which Q; [|by eapply H7]. intros [E|I]%elem_of_cons; [subst f; apply V|by eapply H7].
  - intros j l' c Q. which Q; [|by eapply H8]. rewrite !elem_of_cons. intros [[E|I]|[[E|I]|[E|I]]]; try (by subst f); eapply H8; eauto.
  - intros j l' tok c Q. which Q; [|by eapply H9]. intros ?%D I. right. by eapply H9.
  - intros j l' tok c Q. which Q; [|by eapply H10]. intros ?%D I. destruct (H10 i l tok c L) as (c0 & S & K); [done..|].
    exists c0. split; [by right|done].
  - intros j l' s Q. which Q; [|by eapply H13]. intros ?%D I. right. by eapply H13.
  - intros j l' sid Q. which Q; [rewrite plain_pending by done|]; by eapply H15.
  - intros j k l1 l2 sid Q1 Q2. which Q1; which Q2; rewrite ?plain_pending by done; eauto.
Qed.

(** ** A value drawn, a token signed *)

Lemma held_drew w logs i l s : held w logs -> logs !! i = Some l -> s ∉ used w -> held (drew s w) (<[i := Drawn s :: l]> logs).
Proof.
  intros [H1 H2 H3 H4 H5 H6 H7 H8 H9 H10 H11 H12 H13 H14 H15 H16] L N.
  assert (NI : forall tok c, (tok, c) ∈ issued w -> ID c <> s /\ SessionID c <> s).
  { intros tok c I. destruct (H3 tok c I). split; intros E; apply N; rewrite <- E; done. }
  assert (NR : forall r, r ∈ refresh_tokens (tables w) -> Jti r <> s /\ RfSession r <> s).
  { intros r I. destruct (H11 r I) as (tok & c & IC & <- & <-). by eapply NI. }
  assert (NL : forall j l', logs !! j = Some l' -> pending s l' = false).
  { intros j l' Q. apply not_true_iff_false. rewrite pending_spec. intros [_ [D|(c & R & E)]].
    - by apply N, (H1 j l').
    - destruct (H8 j l' c Q) as (tok & I); [auto|]. by destruct (NI tok c I). }
  assert (P : forall sid, pending sid (Drawn s :: l) = true -> sid = s \/ pending sid l = true).
  { intros sid. rewrite !pending_spec, !elem_of_cons. setoid_rewrite elem_of_cons. naive_solver. }
  constructor; cbn; try assumption.
  - intros j l' s' Q. which Q; [intros [[= ->]|D]%elem_of_cons; [by left|]|intros D]; right; by eapply H1.
  - intros j k l1 l2 s' Q1 Q2 D1 D2. which Q1; which Q2; [done| | |by eauto].
    + apply elem_of_cons in D1 as [[= ->]|D1]; [|by eauto]. by destruct (N (H1 k l2 s Q2 D2)).
    + apply elem_of_cons in D2 as [[= ->]|D2]; [|by eauto]. by destruct (N (H1 j l1 s Q1 D1)).
  - intros tok c I. destruct (H3 tok c I). by split; right.
  - intros j l' id e a Q. which Q; [|by eapply H7]. intros [E|I]%elem_of_cons; [done|by eapply H7].
  - intros j l' c Q. which Q; [|by eapply H8]. rewrite !elem_of_cons. intros [[E|I]|[[E|I]|[E|I]]]; try done; eapply H8; eauto.
  - intros j l' tok c Q D I. which Q; [|by eapply H9]. apply elem_of_cons in D as [[= E]|D]; [by destruct (NI tok c I)|].
    right. by eapply H9.
  - intros j l' tok c Q D I. which Q; [|by eapply H10]. apply elem_of_cons in D as [[= E]|D]; [by destruct (NI tok c I)|].
    destruct (H10 i l tok c L D I) as (c0 & S & K). exists c0. split; [by right|done].
  - intros j l' s' Q D I. which Q; [|by eapply H13]. apply elem_of_cons in D as [[= ->]|D]; [|right; by eapply H13].
    destruct I as [(r & R & E)|T]; [by destruct (NR r R)|]. destruct (H12 s T) as (tok & c & I & E). by destruct (NI tok c I).
  - intros j l' sid Q D. which Q; [|by eapply H15]. apply P in D as [->|D]; [|by eapply H15].
    destruct (live_rows s (tables w)) as [|r rs] eqn:E; [done|]. assert (R : r ∈ live_rows s (tables w)) by (rewrite E; by left).
    apply elem_of_live in R as (R & S & _). by destruct (NR r R).
  - intros j k l1 l2 sid Q1 Q2 D1 D2. which Q1; which Q2; [done| | |by eauto].
    + apply P in D1 as [->|D1]; [by rewrite (NL k l2 Q2) in D2|by eauto].
    + apply P in D2 as [->|D2]; [by rewrite (NL j l1 Q1) in D1|by eauto].
Qed.

Lemma signed_pending c l sid : pending sid (Signed c :: l) = pending sid l.
Proof. apply eq_true_iff_eq. rewrite !pending_spec, !elem_of_cons. setoid_rewrite elem_of_cons. naive_solver. Qed.
Lemma held_signs w logs i l c token : held w logs -> logs !! i = Some l -> entitled c l = true ->
  held (signs token c w) (<[i := Signed c :: l]> logs).
Proof.
  intros H L E. pose proof H as [H1 H2 H3 H4 H5 H6 H7 H8 H9 H10 H11 H12 H13 H14 H15 H16].
  unfold entitled in E. rewrite !andb_true_iff, negb_true_iff, orb_true_iff in E. destruct E as [[D N] G].
  unfold has in D. rewrite bool_decide_eq_true in D. pose proof (elem_of_signed_as _ _ N) as NS.
  assert (FR : forall tok c', (tok, c') ∈ issued w -> ID c' <> ID c).
  { intros tok c' I E. apply (NS c'); [|done]. apply (H9 i l tok); [done| |done]. by rewrite E. }
  (* every token of its session already signed is its kin *)
  assert (K : forall tok c', (tok, c') ∈ issued w -> SessionID c' = SessionID c -> kin c' c = true).
  { intros tok c' I E. destruct G as [(S & _ & K)%starts_spec|(c0 & P & K)%continues_spec].
    - rewrite <- E in S. destruct (H10 i l tok c' L S I) as (c1 & I1 & K1). apply (kin_trans _ c1); [by apply kin_sym|].
      apply K; [done|]. apply kin_spec in K1 as [K1 _]. congruence.
    - destruct (H8 i l c0 L) as (tok0 & I0); [auto|]. apply (kin_trans _ c0); [|done]. apply (H5 tok _ tok0); [done..|].
      apply kin_spec in K as [K _]. congruence. }
  assert (U : SessionID c ∈ used w).
  { destruct G as [(S & _ & _)%starts_spec|(c0 & P & Q)%continues_spec]; [by eapply H1|].
    destruct (H8 i l c0 L) as (tok0 & I0); [auto|]. apply kin_spec in Q as [<- _]. by eapply H3. }
  assert (D' : forall s, Drawn s ∈ Signed c :: l -> Drawn s ∈ l) by (intros s [X|I]%elem_of_cons; done).
  constructor; cbn; try assumption.
  - intros j l' s Q. which Q; [intros ?%D'; by eapply H1|by eapply H1].
  - intros j k l1 l2 s Q1 Q2. which Q1; which Q2; [done|intros ?%D' ?|intros ? ?%D'|]; eauto.
  - intros tok c' [[= -> ->]|I]%elem_of_cons; [|by eapply H3]. split; [by eapply H1|done].
  - intros tok c1 tok' c2 [[= -> ->]|I1]%elem_of_cons [[= -> ->]|I2]%elem_of_cons E; [done| | |by eapply H4].
    + by destruct (FR _ _ I2).
    + by destruct (FR _ _ I1).
  - intros tok c1 tok' c2 [[= -> ->]|I1]%elem_of_cons [[= -> ->]|I2]%elem_of_cons E; [apply kin_refl| | |by eapply H5].
    + by apply kin_sym, (K tok').
    + by apply (K tok).
  - intros tok c' a [[= -> ->]|I]%elem_of_cons F; [|by eapply H6]. destruct G as [(_ & R & _)%starts_spec|(c0 & P & Q)%continues_spec].
    + by eapply H7.
    + destruct (H8 i l c0 L) as (tok0 & I0); [auto|]. apply kin_spec in Q as (_ & Q1 & Q2 & _). rewrite <- Q2. eapply H6; [exact I0|congruence].
  - intros j l' id e a Q. which Q; [|by eapply H7]. intros [E|I]%elem_of_cons; [done|by eapply H7].
  - intros j l' c' Q S. which Q.
    + rewrite !elem_of_cons in S. destruct S as [[E|I]|[[E|I]|[[= ->]|I]]]; try done.
      1,2,4: destruct (H8 i l c' L) as (tok & X); [auto|]; exists tok; by right.
      exists token. by left.
    + destruct (H8 j l' c' Q S) as (tok & X). exists tok. by right.
  - intros j l' tok c' Q Dr [[= -> ->]|I]%elem_of_cons.
    + which Q; [by left|]. destruct (H2 i j l l' (ID c)); done.
    + which Q; [right; apply D' in Dr|]; by eapply H9.
  - intros j l' tok c' Q Dr [[= -> ->]|I]%elem_of_cons.
    + which Q; [exists c; split; [by left|apply kin_refl]|].
      destruct G as [(S & _ & _)%starts_spec|(c0 & P & Q')%continues_spec]; [by destruct (H2 i j l l' (SessionID c))|].
      destruct (H8 i l c0 L) as (tok0 & I0); [auto|]. pose proof Q' as [E _]%kin_spec. rewrite <- E in Dr.
      destruct (H10 j l' tok0 c0 Q Dr I0) as (c1 & S1 & K1). exists c1. split; [done|by apply (kin_trans _ c0)].
    + which Q; [apply D' in Dr|by eapply H10]. destruct (H10 i l tok c' L Dr I) as (c0 & S & K'). exists c0. split; [by right|done].
  - intros r R. destruct (H11 r R) as (tok & c' & I & X). exists tok, c'. split; [by right|done].
  - intros j T. destruct (H12 j T) as (tok & c' & I & X). exists tok, c'. split; [by right|done].
  - intros j l' s Q Dr I. which Q; [right; apply D' in Dr|]; by eapply H13.
  - intros j l' sid Q P. which Q; [rewrite signed_pending in P|]; by eapply H15.
  - intros j k l1 l2 sid Q1 Q2. which Q1; which Q2; rewrite ?signed_pending; eauto.
Qed.
End SessionsInv.

(** * What holds of sessions, however requests interleave

    Every step keeps [SessionsInv.held] and [SessionsOnce.once_inv]; the theorems are about
    every state the server can reach. *)

Module SessionsSafety.
Import GoTime GoStrings Auth Prog Accounts SignIn Sessions Custody HandlersKeep AccountsFacts SessionsOnce SessionsInv.
Local Open Scope Z_scope.
Section Safety.
Context `{Unicode, AuthLib, MailLib, TextLib}.
Context (jwt : JWTService) (masterKey : string) (enabled : bool) (window : Duration) (override : option Held.Held).
Ltac which Q := apply inserted in Q as [[<- ->]|[? Q]].

Definition inv (w : World) (logs : list (list fact)) : Prop := held w logs /\ once_inv (tables w) (taken w).

(** ** The statements *)

Lemma held_done w logs at_ X (d : D X) : inv w logs -> recorded d = None -> inv (done_db override at_ d w) logs.
Proof.
  intros [I O] N. split; [|by apply once_exec].
  pose proof (exec_others override at_ X d _ (on_ids _ _ O) N) as T.
  assert (G : forall j, Exchanged j ∈ uses at_ d (tables w) -> exists r, r ∈ refresh_tokens (tables w) /\ Jti r = j).
  { intros j E. destruct d; cbn [uses] in E; try by apply not_elem_of_nil in E.
    - destruct (affected _ _); [by apply list_elem_of_singleton in E|by apply not_elem_of_nil in E].
    - destruct (affected _ _) eqn:A; [|by apply not_elem_of_nil in E]. apply list_elem_of_singleton in E as [= ->].
      apply affected_spec in A as (r & R & P). exists r. split; [done|]. unfold live_token in P. bprop. by destruct P.
    - destruct (reset_admin _ _ _ _ _); [by apply list_elem_of_singleton in E|by apply not_elem_of_nil in E]. }
  pose proof (held_others _ _ _ I T) as J. destruct J. unfold done_db. constructor; cbn in *; try assumption.
  - intros j [E|E]%elem_of_app; [|by apply h_taken0]. destruct (G j E) as (r & R & <-).
    destruct (h_rows _ _ I r R) as (tok & c & A & B & _). by exists tok, c.
  - intros i l j L D [E|[E|E]%elem_of_app]; [by eapply h_saved0; eauto| |by eapply h_saved0; eauto].
    eapply (h_saved _ _ I); [exact L|exact D|]. left. by apply G.
Qed.

(** A token exchanged: its session is the request's to go on with. *)
Lemma held_rotated w logs i l c : held w logs -> logs !! i = Some l -> Parsed c ∈ l -> live_rows (SessionID c) (tables w) = [] ->
  (forall j l', logs !! j = Some l' -> pending (SessionID c) l' = false) -> held w (<[i := Rotated c :: l]> logs).
Proof.
  intros [H1' H2' H3' H4 H5 H6 H7 H8 H9 H10 H11 H12 H13 H14 H15 H16] L P V N.
  assert (D : forall s, Drawn s ∈ Rotated c :: l -> Drawn s ∈ l) by (intros s [E|I]%elem_of_cons; done).
  assert (PE : forall sid, pending sid (Rotated c :: l) = true -> sid = SessionID c \/ pending sid l = true).
  { intros sid. rewrite !pending_spec, !elem_of_cons. setoid_rewrite elem_of_cons. naive_solver. }
  constructor; try assumption.
  - intros j l' s Q. which Q; [intros ?%D; by eapply H1'|by eapply H1'].
  - intros j k l1 l2 s Q1 Q2. which Q1; which Q2; [done|intros ?%D ?|intros ? ?%D|]; eauto.
  - intros j l' id e a Q. which Q; [|by eapply H7]. intros [E|I]%elem_of_cons; [done|by eapply H7].
  - intros j l' c' Q. which Q; [|by eapply H8]. rewrite !elem_of_cons. intros [[E|I]|[[[= ->]|I]|[E|I]]]; try done; eapply H8; eauto.
  - intros j l' tok c' Q. which Q; [|by eapply H9]. intros ?%D I. right. by eapply H9.
  - intros j l' tok c' Q. which Q; [|by eapply H10]. intros ?%D I. destruct (H10 i l tok c' L) as (c0 & S & K); [done..|].
    exists c0. split; [by right|done].
  - intros j l' s Q. which Q; [|by eapply H13]. intros ?%D I. right. by eapply H13.
  - intros j l' sid Q G. which Q; [|by eapply H15]. apply PE in G as [->|G]; [done|by eapply H15].
  - intros j k l1 l2 sid Q1 Q2 G1 G2. which Q1; which Q2; [done| | |by eauto].
    + apply PE in G1 as [->|G1]; [by rewrite (N k l2 Q2) in G2|by eauto].
    + apply PE in G2 as [->|G2]; [by rewrite (N j l1 Q1) in G1|by eauto].
Qed.

(** Recording a refresh token closes what the request may do; whether the row is there is
    the database's to say. *)
Lemma saved_pending l sid : pending sid (Saved :: l) = false.
Proof. apply not_true_iff_false. rewrite pending_spec. intros [N _]. apply N. by left. Qed.
Lemma held_noted w logs i l : held w logs -> logs !! i = Some l -> held w (<[i := Saved :: l]> logs).
Proof.
  intros [H1' H2' H3' H4 H5 H6 H7 H8 H9 H10 H11 H12 H13 H14 H15 H16] L.
  assert (D : forall s, Drawn s ∈ Saved :: l -> Drawn s ∈ l) by (intros s [E|I]%elem_of_cons; done).
  constructor; try assumption.
  - intros j l' s Q. which Q; [intros ?%D; by eapply H1'|by eapply H1'].
  - intros j k l1 l2 s Q1 Q2. which Q1; which Q2; [done|intros ?%D ?|intros ? ?%D|]; eauto.
  - intros j l' id e a Q. which Q; [|by eapply H7]. intros [E|I]%elem_of_cons; [done|by eapply H7].
  - intros j l' c' Q. which Q; [|by eapply H8]. rewrite !elem_of_cons. intros [[E|I]|[[E|I]|[E|I]]]; try done; eapply H8; eauto.
  - intros j l' tok c' Q. which Q; [|by eapply H9]. intros ?%D I. right. by eapply H9.
  - intros j l' tok c' Q. which Q; [|by eapply H10]. intros ?%D I. destruct (H10 i l tok c' L) as (c0 & S & K); [done..|].
    exists c0. split; [by right|done].
  - intros j l' s Q. which Q; [|by eapply H13]. intros _ _. by left.
  - intros j l' sid Q G. which Q; [by rewrite saved_pending in G|by eapply H15].
  - intros j k l1 l2 sid Q1 Q2 G1 G2. which Q1; which Q2; rewrite ?saved_pending in G1, G2; try done. by eauto.
Qed.
Lemma saveable_spec r l : saveable r l = true -> pending (RfSession r) l = true /\ Status r = RefreshTokenActive
  /\ Drawn (Jti r) ∈ l /\ exists c, Signed c ∈ l /\ ID c = Jti r /\ SessionID c = RfSession r.
Proof.
  unfold saveable. rewrite !andb_true_iff. intros [[[P S] D] (f & I & T)%existsb_exists]. bprop. apply list_elem_of_In in I.
  unfold has in D. rewrite bool_decide_eq_true in D. destruct f as [| | | |c|]; try done. split_and!; [done..|]. exists c. by bprop.
Qed.
Lemma held_saves w logs i l r : held w logs -> logs !! i = Some l -> saveable r l = true ->
  held (with_tables (with_refresh (refresh_tokens (tables w) ++ [r]) (tables w)) w) (<[i := Saved :: l]> logs).
Proof.
  intros I L S. apply saveable_spec in S as (P & A & D & c & SC & J & E).
  pose proof (h_none _ _ I i l _ L P) as V. pose proof (held_noted _ _ _ _ I L) as K. destruct K.
  assert (LV : forall sid, sid <> RfSession r -> live_rows sid (with_refresh (refresh_tokens (tables w) ++ [r]) (tables w)) = live_rows sid (tables w)).
  { intros sid N. unfold live_rows. cbn. rewrite List.filter_app. cbn. unfold live_row at 2. rewrite (bool_decide_eq_false_2 (RfSession r = sid)) by congruence.
    cbn. apply app_nil_r. }
  constructor; cbn [tables with_tables issued taken used]; try assumption.
  - intros r' R. cbn in R. apply elem_of_app in R as [R|R]; [by apply h_rows0|]. apply list_elem_of_singleton in R as ->.
    destruct (h_seen _ _ I i l c L) as (tok & X); [auto|]. by exists tok, c.
  - intros j l' s Q Dr [(r' & R & JR)|T].
    + cbn in R. apply elem_of_app in R as [R|R]; [by eapply h_saved0; eauto|]. apply list_elem_of_singleton in R as ->. subst s.
      which Q; [by left|]. by destruct (h_apart _ _ I i j l l' (Jti r) L Q D Dr).
    + eapply h_saved0; eauto.
  - intros sid. destruct (decide (sid = RfSession r)) as [->|N]; [|by rewrite LV].
    unfold live_rows in *. cbn. rewrite List.filter_app, V. cbn. by destruct (live_row _ r); cbn; lia.
  - intros j l' sid Q G. destruct (decide (sid = RfSession r)) as [->|N]; [|rewrite LV by done; by eapply h_none0].
    which Q; [by rewrite saved_pending in G|]. by destruct (h_sole _ _ I i j l l' (RfSession r) L Q P G).
Qed.

Lemma once_saves w logs i l r : inv w logs -> logs !! i = Some l -> saveable r l = true ->
  once_inv (with_refresh (refresh_tokens (tables w) ++ [r]) (tables w)) (taken w).
Proof.
  intros [I [O1 O2 O3 O4 O5 O6 O7]] L S. apply saveable_spec in S as (P & A & D & _). constructor; cbn; try assumption.
  intros j T r' [R|R]%elem_of_app J; [by eapply O7|]. apply list_elem_of_singleton in R as ->. subst j.
  assert (X : Saved ∈ l) by (eapply (h_saved _ _ I); eauto). apply pending_spec in P as [N _]. done.
Qed.
Lemma inv_save w logs i l r at_ : inv w logs -> logs !! i = Some l -> saveable r l = true ->
  inv (done_db override at_ (DSave r) w) (<[i := Saved :: l]> logs).
Proof.
  intros I L S. unfold done_db. cbn [uses exec]. destruct (_ || _); cbn [snd].
  - split; [|apply I]. apply held_noted; [|done]. destruct (proj1 I). by constructor.
  - split; [|exact (once_saves w logs i l r I L S)]. destruct (held_saves _ _ _ _ _ (proj1 I) L S). by constructor.
Qed.
Lemma inv_rotate w logs i l c at_ : inv w logs -> logs !! i = Some l -> Parsed c ∈ l ->
  affected (live_token (ID c)) (refresh_tokens (tables w)) = true ->
  inv (done_db override at_ (DRotate (ID c)) w) (<[i := Rotated c :: l]> logs).
Proof.
  intros I L P A. destruct (held_done w logs at_ _ (DRotate (ID c)) I eq_refl) as [J O]. split; [|done].
  apply affected_spec in A as (r & R & T). unfold live_token in T. bprop. destruct T as [T A].
  assert (S : RfSession r = SessionID c).
  { destruct (h_rows _ _ (proj1 I) r R) as (tok & c' & IC & E & <-). destruct (h_seen _ _ (proj1 I) i l c L) as (tok' & IC'); [auto|].
    f_equal. apply (h_jti _ _ (proj1 I) _ _ _ _ IC IC'). congruence. }
  assert (LR : r ∈ live_rows (SessionID c) (tables w)) by by apply elem_of_live.
  apply held_rotated; [done|done|done| |].
  - pose proof (h_live _ _ (proj1 I) (SessionID c)) as B.
    destruct (live_rows (SessionID c) (tables (done_db override at_ (DRotate (ID c)) w))) as [|r' rs] eqn:E; [done|].
    assert (R' : r' ∈ live_rows (SessionID c) (tables (done_db override at_ (DRotate (ID c)) w))) by (rewrite E; by left).
    apply elem_of_live in R' as (R' & S' & A'). cbn in R'. apply elem_of_update in R' as (y & Y & ->).
    destruct (live_token (ID c) y) eqn:LY; [done|].
    assert (LRy : y ∈ live_rows (SessionID c) (tables w)) by by apply elem_of_live.
    destruct (live_rows (SessionID c) (tables w)) as [|x [|? ?]]; [by apply not_elem_of_nil in LR| |cbn in B; lia].
    apply list_elem_of_singleton in LR as ->. apply list_elem_of_singleton in LRy as ->.
    unfold live_token in LY. by rewrite T, A, !bool_decide_eq_true_2 in LY.
  - intros j l' Q. apply not_true_iff_false. intros G. rewrite (h_none _ _ (proj1 I) j l' _ Q G) in LR.
    by apply not_elem_of_nil in LR.
Qed.

(** Reading an account. *)
Lemma inv_read w logs i l a : inv w logs -> logs !! i = Some l -> a ∈ accounts (tables w) ->
  inv w (<[i := Read (AcID a) (Epoch a) :: l]> logs).
Proof.
  intros [I O] L A. split; [|done]. apply held_plain; [done..|]. intros b [E B]%find_account_id.
  rewrite (NoDup_fmap_eq AcID _ a b (on_accounts _ _ O) A B); [lia|done].
Qed.
Lemma inv_same w logs i l : inv w logs -> logs !! i = Some l -> inv w (<[i := l]> logs).
Proof. intros I L. by rewrite list_insert_id. Qed.
Lemma parsed_as_spec jti l c : parsed_as jti l = Some c -> Parsed c ∈ l /\ ID c = jti.
Proof.
  unfold parsed_as. intros E. destruct (omap _ l) as [|x xs] eqn:M; [done|]. injection E as ->.
  assert (I : c ∈ c :: xs) by by left. rewrite <- M in I. apply list_elem_of_omap in I as (f & F & T).
  destruct f as [| |c'| | |]; try done. case_bool_decide; [|done]. by injection T as ->.
Qed.

(** A statement answered, at once or with its answer lost. *)
Lemma inv_db w logs i l at_ X (d : D X) x s' : inv w logs -> logs !! i = Some l ->
  x = fst (exec override at_ d (tables w)) \/ x = Err tt -> note_db l d x = Some s' ->
  inv (done_db override at_ d w) (<[i := s']> logs).
Proof.
  intros I L X' E. destruct (recorded d) as [r|] eqn:RC.
  { destruct d; try done. cbn in E. destruct (saveable r0 l) eqn:S; [|done]. injection E as <-. by apply inv_save. }
  pose proof (held_done w logs at_ X d I RC) as J.
  assert (SAME : s' = l -> inv (done_db override at_ d w) (<[i := s']> logs)) by (intros ->; by apply inv_same).
  assert (READ : forall a, a ∈ accounts (tables (done_db override at_ d w)) -> s' = Read (AcID a) (Epoch a) :: l ->
     inv (done_db override at_ d w) (<[i := s']> logs)) by (intros a A ->; by apply inv_read).
  destruct d; try discriminate RC; try (injection E as <-; by apply SAME).
  - destruct X' as [-> | ->]; [|injection E as <-; by apply SAME]. cbn [exec fst] in E. cbn [note_db] in E.
    destruct (Mailboxes.FindMailboxByAddress _ _ _) as [m|[]]; try (injection E as <-; by apply SAME).
    cbn in E. destruct (find_account _ _) as [a|] eqn:F; injection E as <-; [|by apply SAME].
    apply (READ a); [|done]. cbn. by eapply find_account_id.
  - destruct X' as [-> | ->]; [|injection E as <-; by apply SAME]. cbn [exec fst note_db] in E.
    destruct (head _) as [a|] eqn:F; injection E as <-; [|by apply SAME].
    apply (READ a); [|done]. cbn. destruct (List.filter _ _) as [|x l0] eqn:Q; [done|]. injection F as ->.
    assert (K : In a (a :: l0)) by by left. rewrite <- Q in K. apply filter_In in K as [K _]. by apply list_elem_of_In.
  - destruct X' as [-> | ->]; [|injection E as <-; by apply SAME]. cbn [exec fst note_db] in E.
    destruct (find_account _ _) as [a|] eqn:F; injection E as <-; [|by apply SAME].
    apply (READ a); [|done]. cbn. by eapply find_account_id.
  - cbn [note_db] in E. destruct (parsed_as jti l) as [c|] eqn:P; [|done]. apply parsed_as_spec in P as [P <-].
    destruct X' as [-> | ->]; [|injection E as <-; by apply SAME]. cbn [exec fst Rotate] in E.
    destruct (affected _ _) eqn:A; injection E as <-; [by apply inv_rotate|by apply SAME].
  - destruct X' as [-> | ->]; [|injection E as <-; by apply SAME]. cbn [exec note_db] in E.
    destruct (reset_admin _ _ _ _ _) as [[a t']|e] eqn:R; cbn [fst] in E; injection E as <-; [|by apply SAME].
    apply (READ a); [|done]. unfold done_db. cbn [exec with_tables takes tables]. rewrite R. cbn [snd].
    apply reset_admin_inv in R as (o & id & t1 & _ & _ & _ & F). by eapply find_account_id.
Qed.

(** ** A question answered, a step *)

Lemma answered w logs i l X (q : Q X) x w' s' : inv w logs -> logs !! i = Some l -> answers jwt override w X q x w' ->
  note l q x = Some s' -> exists l', s' = Some l' /\ inv w' (<[i := l']> logs).
Proof.
  intros I L A. destruct A; cbn [note]; intros E; try (injection E as <-; exists l; split; [done|by apply inv_same]).
  - destruct (has (Drawn s) l) eqn:D.
    + unfold has in D. bprop. by destruct H3; eapply (h_drawn _ _ (proj1 I)).
    + injection E as <-. eexists. split; [done|]. split; [|apply I]. by apply held_drew, H3; [apply I|].
  - destruct (entitled c l) eqn:T; [|done]. injection E as <-. eexists. split; [done|]. split; [|apply I]. by apply held_signs; [apply I|..].
  - destruct (entitled c l) eqn:T; [|done]. injection E as <-. exists l. split; [done|by apply inv_same].
  - injection E as <-. eexists. split; [done|]. split; [|apply I]. apply held_plain; [apply I|done|done|by exists token].
  - destruct (note_db l d _) as [l'|] eqn:N; [|done]. injection E as <-. exists l'. split; [done|].
    eapply inv_db; [done|done|by left|exact N].
  - destruct (note_db l d _) as [l'|] eqn:N; [|done]. injection E as <-. exists l'. split; [done|].
    destruct d; cbn in N; try (injection N as <-; by apply inv_same).
    + destruct (saveable r l) eqn:S; [|done]. injection N as <-. split; [|apply I]. by apply held_noted; [apply I|].
    + destruct (parsed_as jti l); [|done]. injection N as <-. by apply inv_same.
  - destruct (note_db l d _) as [l'|] eqn:N; [|done]. injection E as <-. exists l'. split; [done|].
    eapply inv_db; [done|done|by right|exact N].
Qed.

(** What each request has left to do keeps to its log. *)
Definition running (w : World) (logs : list (list fact)) : Prop :=
  length logs = length (threads w)
  /\ forall i l p, logs !! i = Some l -> threads w !! i = Some p -> keeps l p (fun _ _ => True).
Definition good (w : World) : Prop := exists logs, inv w logs /\ running w logs.

Lemma answers_threads w X (q : Q X) x w' : answers jwt override w X q x w' -> threads w' = threads w.
Proof. by destruct 1. Qed.
Lemma inv_threads w logs l : inv w logs -> inv (with_threads l w) logs.
Proof. intros [[] O]. split; [by constructor|done]. Qed.
Lemma held_arrives w logs : inv w logs -> inv w (logs ++ [[]]).
Proof.
  intros [[H1' H2' H3' H4 H5 H6 H7 H8 H9 H10 H11 H12 H13 H14 H15 H16] O]. split; [|done].
  assert (G : forall i l, (logs ++ [[]]) !! i = Some l -> logs !! i = Some l \/ l = []).
  { intros i l E. apply lookup_app_Some in E as [E|[_ E]]; [by left|right]. by apply list_lookup_singleton_Some in E as [_ <-]. }
  assert (PN : forall sid, pending sid [] = false) by done.
  constructor; try assumption; intros; repeat match goal with E : (logs ++ [[]]) !! _ = Some _ |- _ => apply G in E as [E|E]; [|subst] end;
    repeat match goal with E : _ ∈ [] |- _ => by apply not_elem_of_nil in E | E : pending _ [] = true |- _ => by rewrite PN in E end; eauto.
  match goal with E : _ ∈ [] \/ _ |- _ => destruct E as [E|[E|E]]; by apply not_elem_of_nil in E end.
Qed.

Lemma good_step w w' : good w -> step jwt masterKey enabled window override w w' -> good w'.
Proof.
  intros (logs & I & N & K) S. destruct S as [i X q k x w' T A|r|t' O].
  - destruct (lookup_lt_is_Some_2 logs i) as [l L]; [rewrite N; by eapply lookup_lt_Some|].
    pose proof (K i l _ L T x) as W. cbn in W. destruct (note l q x) as [s'|] eqn:E; [|done].
    destruct (answered w logs i l X q x w' s' I L A E) as (l' & -> & I'). exists (<[i := l']> logs).
    split; [by apply inv_threads|]. split; [cbn; by rewrite !length_insert|].
    intros j l0 p Q1 Q2. cbn in Q2. apply list_lookup_insert_Some in Q2 as [(<- & <- & B)|[Ne Q2]].
    + rewrite list_lookup_insert_eq in Q1 by (by eapply lookup_lt_Some). injection Q1 as <-. exact W.
    + rewrite list_lookup_insert_ne in Q1 by done. by apply (K j).
  - exists (logs ++ [[]]). split; [by apply inv_threads, held_arrives|]. split; [cbn; by rewrite !length_app, N|].
    intros j l p Q1 Q2. cbn in Q2. apply lookup_app_Some in Q2 as [Q2|[G Q2]].
    + apply (K j); [|done]. rewrite lookup_app_l in Q1; [done|]. rewrite N. by eapply lookup_lt_Some.
    + apply list_lookup_singleton_Some in Q2 as [Z <-]. rewrite lookup_app_r in Q1 by lia.
      apply list_lookup_singleton_Some in Q1 as [_ <-]. apply serve_keeps.
  - exists logs. destruct I as [I U]. split; [|done]. split; [by apply held_others|by eapply once_others].
Qed.
Ltac nothing := match goal with E : _ ∈ [] |- _ => by apply not_elem_of_nil in E end.
Lemma reachable_good w : reachable jwt masterKey enabled window override w -> good w.
Proof.
  induction 1 as [w (R & I & T & P & C & A & O)|w w' _ IH S]; [|by eapply good_step].
  exists []. split; [|split; [by rewrite P|done]]. split.
  - constructor; cbn; rewrite ?R, ?I, ?T; try done; try (intros; nothing).
    intros sid. unfold live_rows. rewrite R. cbn. lia.
  - constructor; [done..| | | |]; rewrite T; [constructor|intros; nothing..].
Qed.

(** ** What later states keep *)

Abbreviation Reachable := (reachable jwt masterKey enabled window override).
Abbreviation Step := (step jwt masterKey enabled window override).
Abbreviation Steps := (steps jwt masterKey enabled window override).

Lemma exec_epochs at_ X (d : D X) t id a' : ids_ok t -> find_account id (snd (exec override at_ d t)) = Some a' ->
  exists a, find_account id t = Some a /\ Epoch a <= Epoch a'.
Proof.
  intros I F. destruct (recorded d) as [r|] eqn:R; [|exact (others_epoch _ _ (exec_others override at_ X d t I R) _ _ F)].
  destruct d; try discriminate R. exists a'. split; [|lia]. cbn [exec] in F. by destruct (_ || _).
Qed.
Lemma step_epochs w w' id a' : good w -> Step w w' -> find_account id (tables w') = Some a' ->
  exists a, find_account id (tables w) = Some a /\ Epoch a <= Epoch a'.
Proof.
  intros (logs & [_ O] & _) S F. destruct S as [i X q k x w' T A|r|t' T].
  - destruct A; try (exists a'; split; [exact F|lia]); exact (exec_epochs _ _ _ _ _ _ (on_ids _ _ O) F).
  - exists a'. split; [exact F|lia].
  - exact (others_epoch _ _ T _ _ F).
Qed.
Lemma step_issued w w' e : Step w w' -> e ∈ issued w -> e ∈ issued w'.
Proof. intros S I. destruct S as [i X q k x w' T A|r|t' T]; [|done..]. destruct A; try exact I. by right. Qed.
Lemma steps_later w w' : good w -> Steps w w' -> good w' /\ (forall e, e ∈ issued w -> e ∈ issued w')
  /\ forall id a', find_account id (tables w') = Some a' -> exists a, find_account id (tables w) = Some a /\ Epoch a <= Epoch a'.
Proof.
  intros G S. induction S as [w|w w' w'' S IH T].
  - split; [done|]. split; [done|]. intros id a' F. exists a'. split; [done|lia].
  - destruct (IH G) as (G' & I & E). split; [by eapply good_step|]. split.
    + intros e M. eapply step_issued; [exact T|auto].
    + intros id a'' F. destruct (step_epochs w' w'' id a'' G' T F) as (a' & F' & L').
      destruct (E id a' F') as (a & F0 & L). exists a. split; [done|lia].
Qed.
Lemma current_epoch c w now : current c w now = true ->
  exists a, find_account (AccountID c) (tables w) = Some a /\ Epoch a = CredentialEpoch c.
Proof.
  unfold current, sessionCurrent. destruct (find_account _ _) as [a|]; [|done]. intros E. exists a. bprop. split; [done|lia].
Qed.

(** ** The theorems *)

(** C11: Ending an account's sessions ends them for good. Take any state the server can be
    in, with any requests in flight, and any step that ends an account's sessions (a new
    password, two-factor authentication turned off, a redeemed reset): from then on, whatever
    happens, no token issued before is current, and neither is any token of its session that
    a refresh caught in the middle issues after. *)
Theorem ended_sessions_stay_ended (w w1 w2 : World) (at_ : Time) (X : Type) (d : D X) (account : Z)
    (token token' : string) (c c' : Claims) (now : Time) :
  Reachable w -> Step w w1 -> ends at_ d (tables w) account -> tables w1 = snd (exec override at_ d (tables w)) ->
  Steps w1 w2 -> (token, c) ∈ issued w -> AccountID c = account ->
  (token', c') ∈ issued w2 -> SessionID c' = SessionID c -> current c' w2 now = false.
Proof.
  intros R S E T M I A I' SID. apply not_true_iff_false. intros (a2 & F2 & Q)%current_epoch.
  pose proof (reachable_good w R) as G. pose proof (good_step w w1 G S) as G1.
  destruct (steps_later w1 w2 G1 M) as ((logs & [K _] & _) & MI & ME).
  pose proof (h_kin _ _ K token' c' token c I' (MI _ (step_issued _ _ _ S I)) SID) as (_ & A' & EP & _)%kin_spec.
  rewrite A', A in F2. destruct (ME _ _ F2) as (a1 & F1 & L1). rewrite T in F1.
  destruct G as (logs0 & [K0 O0] & _). destruct (exec_moved override at_ X d _ account (on_ids _ _ O0) E a1 F1) as (a0 & F0 & L0).
  rewrite <- A in F0. pose proof (h_epoch _ _ K0 token c a0 I F0). lia.
Qed.

(** C15: A session never forks. However requests interleave, whatever fails and whatever
    answers are lost, no session has two refresh tokens that could be exchanged. *)
Theorem one_refresh_token_per_session (w : World) (sid : string) :
  Reachable w -> (length (live_rows sid (tables w)) <= 1)%nat.
Proof. intros (logs & [K _] & _)%reachable_good. exact (h_live _ _ K sid). Qed.

(** C19: Nothing meant for one use works twice: of all the requests that ever run at once,
    one at most exchanges a refresh token, spends a recovery code or redeems a reset token. *)
Theorem used_once (w : World) : Reachable w -> NoDup (taken w).
Proof. intros (logs & [_ O] & _)%reachable_good. exact (on_nodup _ _ O). Qed.

(** Refreshing never makes more of a session than signing in made: every token of a
    session is for the same account at the same epoch, says the same sign-in methods, and
    with a second factor the same moment it was proved. *)
Theorem refreshing_never_upgrades (w : World) (token token' : string) (c c' : Claims) :
  Reachable w -> (token, c) ∈ issued w -> (token', c') ∈ issued w -> SessionID c = SessionID c' ->
  AccountID c = AccountID c' /\ CredentialEpoch c = CredentialEpoch c' /\ AMR c = AMR c'
  /\ (HasAMR c AMROTP = true -> AuthTime c = AuthTime c').
Proof.
  intros (logs & [K _] & _)%reachable_good I I' S.
  pose proof (proj1 (kin_spec _ _) (h_kin _ _ K _ _ _ _ I I' S)) as H'.
  destruct H' as (_ & A & E & M & P). split_and!; [done..|]. intros O. unfold proof_time in P.
  assert (O' : HasAMR c' AMROTP = true) by (unfold HasAMR in *; by rewrite <- M). by rewrite O, O' in P.
Qed.
End Safety.
End SessionsSafety.
