(* ===== verification/SignInProof.v ===== *)
(** * What a session was earned with

    For every handler, the questions that must have been answered, and how, before a token
    is signed: at sign-in, the password and any second factor the account has; at recovery,
    both the authenticator and a recovery code; at reset, the redeemed token; at refresh,
    the exchanged refresh token of an account that is still the one it was. *)

From S2P Require Import Prelude GoTime GoStrings MailAddress Prog MailStore Grants GrantStore Auth Accounts SignIn Sessions Custody.
Import GoTime GoStrings Auth Prog History Accounts SignIn Sessions Custody.
Local Open Scope Z_scope.

Module SignInProof.
Section Proof.
Context `{Unicode, AuthLib, MailLib, TextLib}.
Context (jwt : JWTService) (masterKey : string) (enabled : bool) (window : Duration).
Abbreviation log_t := (list (event Q)).
Definition told {X} (log : log_t) (d : D X) (x : X) : Prop := Event (QDb d) (Ok x) ∈ log.

(** ** Evidence *)

Definition knew_password (log : log_t) (account : Z) (password : string) : Prop :=
  exists now creds c, told log (DPasswords account now) creds /\ c ∈ creds /\ CheckPassword password (SecretHash c) = true.
Definition totp_matched (log : log_t) (account : Z) (code : string) : Prop :=
  exists creds c secret, told log (DActive account) creds /\ c ∈ creds
    /\ DecryptString (EncryptedSecret c) masterKey = Some secret /\ Event (QTotp (TrimSpace code) secret) true ∈ log.
Definition recovery_spent (log : log_t) (account : Z) (code : string) : Prop :=
  exists creds c now, told log (DRecoveryCodes account) creds /\ c ∈ creds
    /\ CheckRecoveryCode code (SecretHash c) = true /\ told log (DSpend (CrID c) now) true.
Definition let_in (log : log_t) (a : Account) : Prop :=
  exists now held, told log (DHeld (AcID a) now) held /\ Held.MailboxSession held (AcAddress a) || Held.AdminSession held = true.
(** A session is held in setup exactly while its account owes something. *)
Definition setup_of (log : log_t) (a : Account) (pending : bool) : Prop :=
  if pending then PasswordChangeRequired a = true \/ TwoFactorRequired a = true /\ told log (DGetActive (AcID a)) None
  else PasswordChangeRequired a = false
       /\ (TwoFactorRequired a = false \/ exists c, told log (DGetActive (AcID a)) (Some c)).
Definition says (a : Account) (c : Claims) : Prop :=
  AccountID c = AcID a /\ Address c = AcAddress a /\ CredentialEpoch c = Epoch a.

(** What each request must have shown before [c] is signed for it. *)
Definition earned (r : request) (log : log_t) (c : Claims) : Prop :=
  match r with
  | Login req => exists a now,
      told log (DAddress (Email req)) (Some a) /\ says a c /\ setup_of log a (SetupPending c)
      /\ Active a = true /\ Event QNow now ∈ log /\ BootstrapExpired a now = false
      /\ knew_password log (AcID a) (Password req) /\ let_in log a
      /\ (AMR c = [AMRPassword] /\ told log (DGetActive (AcID a)) None
          \/ AMR c = [AMRPassword; AMROTP]
             /\ (totp_matched log (AcID a) (TOTPCode req) \/ recovery_spent log (AcID a) (RecoveryCode req)))
  | Refresh cookie body => exists c0 a now,
      Event (QParse (fst (presentedRefreshToken cookie body))) (Ok c0) ∈ log /\ TokenType c0 = "refresh"
      /\ told log (DRotate (ID c0)) true
      /\ told log (DAccount (AccountID c0)) (Some a) /\ Active a = true
      /\ Event QNow now ∈ log /\ BootstrapExpired a now = false
      /\ kin c0 c = true /\ Epoch a = CredentialEpoch c0 /\ Address c = AcAddress a /\ setup_of log a (SetupPending c)
  | ResetPassword req => exists a hash publicID,
      told log (DResetAdmin (sha256_hex (RtToken req)) hash publicID) (Ok a)
      /\ Event (QHash (RtPassword req)) (Ok hash) ∈ log
      /\ says a c /\ setup_of log a (SetupPending c) /\ AMR c = []
  | Recover req => exists a0 a hash publicID now,
      told log (DAddressIs (ToLower (TrimSpace (RcEmail req)))) (Some a0) /\ Active a0 = true
      /\ totp_matched log (AcID a0) (RcTOTP req) /\ recovery_spent log (AcID a0) (RcRecovery req)
      /\ Event (QHash (RcNewPassword req)) (Ok hash) ∈ log
      /\ told log (DSetPassword (AcID a0) hash publicID now) tt
      /\ told log (DAccount (AcID a0)) (Some a) /\ says a c /\ setup_of log a (SetupPending c)
      /\ AMR c = [AMRPassword; AMROTP]
  | _ => False
  end.
Definition earns (r : request) : guard Q := fun log X q => match q with QSign c => earned r log c | _ => True end.

(** ** Evidence is kept *)

Ltac kept := repeat match goal with
  | H : exists _, _ |- _ => destruct H
  | H : _ /\ _ |- _ => destruct H
  end; repeat eexists; unfold told in *; eauto.
Lemma knew_grows l l' a p : grows l l' -> knew_password l a p -> knew_password l' a p.
Proof. intros G (n & cs & c & T & I & K). exists n, cs, c. split; [by apply G|done]. Qed.
Lemma totp_grows l l' a p : grows l l' -> totp_matched l a p -> totp_matched l' a p.
Proof. intros G (cs & c & s & T & I & K & E). exists cs, c, s. split; [by apply G|]. split; [done|]. split; [done|by apply G]. Qed.
Lemma spent_grows l l' a p : grows l l' -> recovery_spent l a p -> recovery_spent l' a p.
Proof. intros G (cs & c & n & T & I & K & E). exists cs, c, n. split; [by apply G|]. split; [done|]. split; [done|by apply G]. Qed.
Lemma let_in_grows l l' a : grows l l' -> let_in l a -> let_in l' a.
Proof. intros G (n & h & T & K). exists n, h. split; [by apply G|done]. Qed.
Lemma setup_grows l l' a b : grows l l' -> setup_of l a b -> setup_of l' a b.
Proof.
  intros G. unfold setup_of. destruct b.
  - intros [P|[T E]]; [by left|right]. split; [done|by apply G].
  - intros [P [T|(c & T)]]; split; try done; [by left|right]. exists c. by apply G.
Qed.
Lemma earned_grows r l l' c : grows l l' -> earned r l c -> earned r l' c.
Proof.
  intros G. destruct r; cbn [earned]; try done.
  - intros (a & n & T1 & S & SU & A & E & B & K & L & F). exists a, n. split; [by apply G|]. split; [done|].
    split; [by eapply setup_grows|]. split; [done|]. split; [by apply G|]. split; [done|]. split; [by eapply knew_grows|].
    split; [by eapply let_in_grows|]. destruct F as [[F T]|[F [T|T]]]; [left|right|right]; split; try done; [by apply G|left; by eapply totp_grows|right; by eapply spent_grows].
  - intros (c0 & a & n & T1 & TT & R & T2 & A & E & B & K & EP & AD & SU). exists c0, a, n. split; [by apply G|]. split; [done|].
    split; [by apply G|]. split; [by apply G|]. split; [done|]. split; [by apply G|]. do 4 (split; [done|]). by eapply setup_grows.
  - intros (a & h & p & T & E & S & SU & F). exists a, h, p. split; [by apply G|]. split; [by apply G|]. split; [done|].
    split; [by eapply setup_grows|done].
  - intros (a0 & a & h & p & n & T & A & TM & RS & E & D & T2 & S & SU & F). exists a0, a, h, p, n. split; [by apply G|].
    split; [done|]. split; [by eapply totp_grows|]. split; [by eapply spent_grows|]. do 3 (split; [by apply G|]).
    split; [done|]. split; [by eapply setup_grows|done].
Qed.

(** ** The parts *)

Context (g : guard Q).
Context (free : forall l X q, (match q with QSign _ => False | _ => True end) -> g l X q).

Definition unsigned : test Q := fun X q => match q with QSign _ => false | _ => true end.
Lemma unsigned_free l X (q : Q X) : unsigned X q = true -> g l X q.
Proof. intros U. apply free. by destruct q. Qed.
Lemma guarded_unsigned {A} log (p : prog Q A) (post : log_t -> A -> Prop) :
  always unsigned p (fun _ => True) -> (forall l a, grows log l -> post l a) -> guarded g log p post.
Proof. intros W M. eapply guarded_always; [exact unsigned_free|exact W|]. intros l a G _. by apply M. Qed.
Lemma guarded_free {X} log (q : Q X) (post : log_t -> X -> Prop) :
  unsigned X q = true -> (forall x, post (Event q x :: log) x) -> guarded g log (ask q) post.
Proof. intros U. apply guarded_ask, unsigned_free, U. Qed.
Lemma guarded_else {E F A} log (e : F) (p : prog Q (result E A)) (post : log_t -> result F A -> Prop) :
  guarded g log p (fun l r => post l (match r with Ok a => Ok a | Err _ => Err e end)) -> guarded g log (or_else e p) post.
Proof. intros W. apply guarded_then. eapply guarded_mono; [|exact W]. intros l [a|x] _ K; exact K. Qed.

Lemma guarded_matchPassword log account password now (post : log_t -> result unit (option Credential) -> Prop) :
  (forall l c, grows log l -> knew_password l account password -> post l (Ok (Some c))) ->
  (forall l, grows log l -> post l (Ok None)) -> (forall l, grows log l -> post l (Err tt)) ->
  guarded g log (MatchPassword account password now) post.
Proof.
  intros K N E. unfold MatchPassword, matchPassword. apply guarded_try.
  destruct (account =? 0); [apply guarded_ret; by apply N, grows_refl|].
  apply guarded_free; [done|]. intros [creds|[]]; [|by apply E, grows_cons].
  set (log1 := Event _ _ :: log).
  assert (G1 : grows log log1) by apply grows_cons.
  assert (T : told log1 (DPasswords account now) creds) by by left.
  destruct creds as [|c0 l0]; [by apply N|]. apply guarded_then, guarded_ret.
  enough (W : forall rest, (forall c, c ∈ rest -> c ∈ c0 :: l0) ->
    forall l, grows log1 l -> guarded g l (match_among rest password now false) post) by (apply W; [done|apply grows_refl]).
  induction rest as [|c rest IH]; intros S l L; cbn [match_among]; [apply N; by eapply grows_trans|].
  destruct (CheckPassword password (SecretHash c)) eqn:C.
  - assert (KN : forall l', grows l l' -> knew_password l' account password).
    { intros l' L'. exists now, (c0 :: l0), c. split; [by apply L', L|]. split; [by apply S; left|done]. }
    destruct (PasswordNeedsRehash _ _); [|apply guarded_ret, K; [by eapply grows_trans|by apply KN, grows_refl]].
    apply guarded_try, guarded_free; [done|]. intros [h|[]]; [|apply E; eapply grows_trans; [exact G1|]; eapply grows_trans; [exact L|apply grows_cons]].
    apply guarded_try, guarded_free; [done|]. intros x. set (l2 := Event _ _ :: Event _ _ :: l).
    assert (L2 : grows l l2) by (eapply grows_trans; apply grows_cons).
    assert (L3 : grows log l2) by (eapply grows_trans; [exact G1|]; eapply grows_trans; [exact L|done]).
    destruct x as [[]|[]]; [|by apply guarded_ret, N|by apply E].
    apply guarded_ret, K; [done|]. by apply KN.
  - apply IH; [|done]. intros x X. apply S. by right.
Qed.

Lemma guarded_try_codes log0 account code creds0 creds u log (post : log_t -> bool * bool -> Prop) :
  told log0 (DActive account) creds0 -> (forall c, c ∈ creds -> c ∈ creds0) -> grows log0 log ->
  (forall l u, grows log l -> totp_matched l account code -> post l (true, u)) -> (forall l u, grows log l -> post l (false, u)) ->
  guarded g log (try_codes masterKey creds code u) post.
Proof.
  intros T S L0 K N. revert u log L0 K N. induction creds as [|c rest IH]; intros u log L0 K N; cbn [try_codes];
    [apply guarded_ret, N, grows_refl|]. destruct (bool_decide _); [apply guarded_ret, N, grows_refl|].
  assert (S' : forall x, x ∈ rest -> x ∈ creds0) by (intros; apply S; by right).
  destruct (DecryptString _ _) as [secret|] eqn:D; [|by apply IH].
  apply guarded_then. unfold ValidateTOTPCode. destruct (_ || _); [apply guarded_ret; by apply IH|].
  apply guarded_free; [done|]. intros x. set (l1 := Event _ _ :: log). assert (L1 : grows log l1) by apply grows_cons.
  destruct x.
  - apply guarded_ret, K; [done|]. exists creds0, c, secret. split; [by apply L1, L0|]. split; [apply S; by left|]. split; [done|by left].
  - apply IH; [done|by eapply grows_trans| |]; intros; [apply K|apply N]; try done; by eapply grows_trans.
Qed.
Lemma guarded_verify log account totp recovery (post : log_t -> result unit bool -> Prop) :
  (forall l, grows log l -> (totp <> "" /\ totp_matched l account totp \/ recovery <> "" /\ recovery_spent l account recovery) -> post l (Ok true)) ->
  (forall l, grows log l -> post l (Ok false)) -> (forall l, grows log l -> post l (Err tt)) ->
  guarded g log (verifyTOTPOrRecovery masterKey account totp recovery) post.
Proof.
  intros K N E. unfold verifyTOTPOrRecovery. apply guarded_try.
  assert (R : forall l u, grows log l -> guarded g l
     (consumed <-! (if bool_decide (recovery = "") then Ret (Ok false) else ConsumeRecoveryCode account recovery) ;
       Ret (if consumed : bool then Ok true else if u : bool then Err tt else Ok false))%prog post).
  { intros l u L. apply guarded_try. destruct (bool_decide (recovery = "")) eqn:B; bprop.
    { apply guarded_ret, guarded_ret. destruct u; [by apply E|by apply N]. }
    unfold ConsumeRecoveryCode. rewrite bool_decide_eq_false_2 by done.
    apply guarded_try, guarded_free; [done|]. intros [codes|[]]; [|by apply E; eapply grows_trans; [exact L|apply grows_cons]].
    destruct (head _) as [c|] eqn:HD.
    2:{ apply guarded_ret, guarded_ret. destruct u; [apply E|apply N]; by eapply grows_trans; [exact L|apply grows_cons]. }
    apply guarded_then, guarded_free; [done|]. intros now. apply guarded_free; [done|]. intros x.
    set (l2 := Event _ _ :: Event _ _ :: Event _ _ :: l). assert (L2 : grows log l2).
    { eapply grows_trans; [exact L|]. do 2 (eapply grows_trans; [apply grows_cons|]). apply grows_cons. }
    destruct x as [[]|[]]; [|apply guarded_ret; destruct u; [by apply E|by apply N]|by apply E].
    apply guarded_ret, K; [done|]. right. split; [done|]. exists codes, c, now.
    destruct (List.filter _ codes) as [|x xs] eqn:F; [done|]. injection HD as ->.
    assert (I : In c (c :: xs)) by by left. rewrite <- F in I. apply filter_In in I as [I C].
    split; [do 2 right; by left|]. split; [by apply list_elem_of_In|]. split; [done|by left]. }
  destruct (bool_decide (totp = "")) eqn:B; bprop; [by apply guarded_ret, R, grows_refl|].
  apply guarded_try, guarded_free; [done|]. intros [creds|[]]; [|by apply E, grows_cons].
  apply guarded_then. eapply guarded_try_codes; [by left|done|apply grows_refl| |].
  - intros l u L T. apply guarded_ret, guarded_ret, K; [by eapply grows_trans; [apply grows_cons|]|]. left. by split.
  - intros l u L. apply guarded_ret, R. by eapply grows_trans; [apply grows_cons|].
Qed.
Lemma guarded_steps log a (post : log_t -> result unit (list string) -> Prop) :
  (forall l steps, grows log l -> setup_of l a (negb (bool_decide (steps = []))) -> post l (Ok steps)) ->
  (forall l, grows log l -> post l (Err tt)) -> guarded g log (accountSetupSteps a) post.
Proof.
  intros K E. unfold accountSetupSteps. destruct (TwoFactorRequired a) eqn:T.
  - apply guarded_try, guarded_free; [done|]. intros [[c|]|[]]; [| |by apply E, grows_cons]; apply guarded_ret, K; try apply grows_cons.
    + cbn. destruct (PasswordChangeRequired a) eqn:P; [by left|]. split; [done|]. right. exists c. by left.
    + cbn [is_none]. replace (negb _) with true; [right; split; [done|by left]|]. symmetry. rewrite negb_true_iff, bool_decide_eq_false.
      by destruct (PasswordChangeRequired a).
  - apply guarded_ret, K; [apply grows_refl|]. destruct (PasswordChangeRequired a) eqn:P; [by left|]. split; [done|by left].
Qed.

(** A token of the session may be signed, whatever its id, its kind and its expiry. *)
Lemma guarded_GenerateSession log account address epoch amr setup o (post : log_t -> result unit TokenPair -> Prop) :
  (forall l now sid jti type expires, grows log l -> (continued o = true -> sid = sessionID o) ->
     g l _ (QSign (session_claims jwt account address epoch amr setup o now sid jti type expires))) ->
  (forall l x, post l x) -> guarded g log (GenerateSession jwt account address epoch amr setup o) post.
Proof.
  intros G P. unfold GenerateSession. apply guarded_then, guarded_free; [done|]. intros now. apply guarded_try.
  set (l1 := Event _ _ :: log). assert (L1 : grows log l1) by apply grows_cons.
  eapply (guarded_mono _ _ _ (fun l r => grows log l /\ forall sid, r = Ok sid -> continued o = true -> sid = sessionID o)).
  - intros l2 [sid|[]] _ [L2 S]; [|apply P]. specialize (S sid eq_refl).
    apply guarded_try, guarded_free; [done|]. intros [j1|[]]; [|apply P].
    apply guarded_try, guarded_ask; [apply G; [by eapply grows_trans; [exact L2|apply grows_cons]|done]|]. intros [t1|[]]; [|apply P].
    apply guarded_try, guarded_free; [done|]. intros [j2|[]]; [|apply P].
    apply guarded_try, guarded_ask; [apply G; [|done]|intros [t2|[]]; apply P].
    eapply grows_trans; [exact L2|]. do 2 (eapply grows_trans; [apply grows_cons|]). apply grows_cons.
  - unfold sessionFor. destruct (continued o) eqn:C; cbn [negb].
    + destruct (bool_decide _); apply guarded_ret; (split; [done|]); [done|]. by intros sid [= <-].
    + apply guarded_free; [done|]. intros x. split; [by eapply grows_trans; [exact L1|apply grows_cons]|done].
Qed.

Ltac soothe := first [done | unfold db, or_else; walk; try done].
Lemma unsigned_deliver tokens native resp : always unsigned (deliverSession tokens native resp) (fun _ => True).
Proof. unfold deliverSession, setSessionCookies, newCSRFToken. soothe. Qed.
Ltac silently L := apply guarded_unsigned; [L|].
Lemma guarded_newSession log a native amr :
  (forall l c, grows log l -> says a c -> setup_of l a (SetupPending c) -> AMR c = amr -> g l _ (QSign c)) ->
  guarded g log (newSession jwt a native amr) (fun _ _ => True).
Proof.
  intros G. unfold newSession. apply guarded_then, guarded_free; [done|]. intros now.
  apply guarded_try, guarded_else, guarded_free; [done|]. intros [h|e]; [|done].
  apply guarded_try, guarded_else, guarded_steps; [|done]. intros l steps L S. cbv zeta.
  apply guarded_try, guarded_else, guarded_GenerateSession.
  - intros l' n sid jti type expires L' _. apply G; [|done|by eapply setup_grows|done].
    eapply grows_trans; [|exact L']. eapply grows_trans; [|exact L]. eapply grows_trans; apply grows_cons.
  - intros l' [tokens|e]; [|done]. apply guarded_try, guarded_else. silently soothe. intros l2 [[]|e] _; [|done].
    silently ltac:(idtac); [|done]. apply always_try. unfold or_else. apply always_then. eapply always_mono; [|apply unsigned_deliver].
    intros [x|e] _; soothe.
Qed.
End Proof.

(** ** The handlers *)

Section Handlers.
Context `{Unicode, AuthLib, MailLib, TextLib}.
Context (jwt : JWTService) (masterKey : string) (enabled : bool) (window : Duration).
Lemma earns_free r l X (q : Q X) : (match q with QSign _ => False | _ => True end) -> earns masterKey r l X q.
Proof. by destruct q. Qed.
Ltac soothe := first [done | unfold db, or_else; walk; try done].
Ltac free_ := apply guarded_free; [apply earns_free|done|].
Ltac silently L := apply guarded_unsigned; [apply earns_free|L|].
Ltac refused := try done; try (silently soothe; done).
(** The log grew from one question to the next. *)
Ltac grown := do 8 try first [eassumption | apply grows_refl | apply grows_cons
  | eapply grows_trans; [eassumption|] | eapply grows_trans; [apply grows_cons|]].

Lemma earned_login req : guarded (earns masterKey (Login req)) [] (login jwt masterKey req) (fun _ _ => True).
Proof.
  unfold login. apply guarded_try, guarded_else. free_. intros [found|e]; [|done].
  apply guarded_then. free_. intros now. set (l1 := [_; _] : list (event Q)).
  apply guarded_try, guarded_else, guarded_matchPassword; [apply earns_free| | |done].
  2:{ intros l _. destruct found; done. }
  intros l2 cr L2 K. destruct found as [a|]; [|done]. destruct (Active a) eqn:A; [|done]. cbn [negb].
  destruct (BootstrapExpired a now) eqn:B; [done|].
  assert (F : told l2 (DAddress (Email req)) (Some a)) by (apply L2; right; by left).
  assert (N : Event QNow now ∈ l2) by (apply L2; by left).
  assert (W : forall l v, grows l2 l -> (signInMethods v = [AMRPassword] /\ told l (DGetActive (AcID a)) None
       \/ signInMethods v = [AMRPassword; AMROTP] /\ (totp_matched masterKey l (AcID a) (TOTPCode req) \/ recovery_spent l (AcID a) (RecoveryCode req))) ->
     guarded (earns masterKey (Login req)) l (held <-! or_else (internal "Failed to load the account's capabilities") (db (DHeld (AcID a) now)) ;
       if negb (Held.MailboxSession held (AcAddress a)) && negb (Held.AdminSession held)
       then Ret (Err errAccessRestricted) else newSession jwt a (is_native (Client req)) (signInMethods v))%prog (fun _ _ => True)).
  { intros l v L M. apply guarded_try, guarded_else. free_. intros [held|e]; [|done].
    destruct (negb _ && negb _) eqn:HD; [done|]. rewrite <- negb_orb, negb_false_iff in HD.
    apply guarded_newSession; [apply earns_free|]. intros l' c L' SY SU AM.
    exists a, now. split; [apply L', grows_cons, L, F|]. split; [done|]. split; [done|]. split; [done|].
    split; [apply L', grows_cons, L, N|]. split; [done|]. split; [by eapply knew_grows; [|exact K]; grown|].
    split; [exists now, held; split; [apply L'; by left|done]|]. rewrite AM.
    destruct M as [[-> T]|[-> [T|T]]]; [left|right|right]; split; try done.
    - by apply L', grows_cons.
    - left. eapply totp_grows; [|exact T]. grown.
    - right. eapply spent_grows; [|exact T]. grown. }
  apply guarded_try. unfold enforce2FA. apply guarded_try, guarded_else. free_. intros [active|e]; [|done].
  destruct active as [tf|]; cbn [is_none].
  - apply guarded_try, guarded_else, guarded_verify; [apply earns_free| | |done].
    + intros l L T. apply guarded_ret, W; [grown|]. right. split; [done|]. destruct T as [[_ T]|[_ T]]; [by left|by right].
    + intros l _. apply guarded_ret. by destruct (_ && _).
  - apply guarded_ret, W; [apply grows_cons|]. left. split; [done|by left].
Qed.

(** What AccountState saw of an active account. *)
Lemma guarded_AccountState r log id (post : list (event Q) -> result unit (option accountState) -> Prop) :
  (forall l a now st, grows log l -> told l (DAccount id) (Some a) -> Active a = true -> Event QNow now ∈ l ->
     BootstrapExpired a now = false -> StEpoch st = Epoch a -> StAddress st = AcAddress a -> setup_of l a (StSetupPending st) ->
     post l (Ok (Some st))) ->
  (forall l, post l (Ok None)) -> (forall l, post l (Err tt)) ->
  guarded (earns masterKey r) log (AccountState id) post.
Proof.
  intros K N E. unfold AccountState. apply guarded_try. free_. intros [[a|]|[]]; [|apply guarded_ret, N|apply E].
  apply guarded_then. free_. intros now. destruct (negb (Active a) || BootstrapExpired a now) eqn:B; [apply guarded_ret, N|].
  bprop. destruct B as [A B]. apply guarded_then. free_. intros now'. apply guarded_try. free_. intros [held|[]]; [|apply E].
  apply guarded_try, guarded_steps; [apply earns_free| |intros; apply E]. intros l steps L S. apply guarded_ret.
  apply (K l a now); try done.
  - grown.
  - apply L. do 3 right. by left.
  - apply L. do 2 right. by left.
Qed.
Lemma guarded_validate r log type token (post : list (event Q) -> result token_error Claims -> Prop) :
  (forall l c, Event (QParse token) (Ok c) ∈ l -> TokenType c = type -> post l (Ok (decoded c))) -> (forall l e, post l (Err e)) ->
  guarded (earns masterKey r) log (validate_type type token) post.
Proof.
  intros K E. unfold validate_type, ValidateToken. apply guarded_try, guarded_try. free_. intros [c|e]; [|apply E].
  apply guarded_ret. destruct (bool_decide (SessionID c = "")); [apply E|]. apply guarded_ret.
  cbn [decoded TokenType]. destruct (bool_decide (TokenType c = type)) eqn:T; [|apply E]. bprop. apply K; [by left|done].
Qed.
Lemma refreshed_kin account address epoch setup c now sid jti type expires :
  AccountID c = account -> CredentialEpoch c = epoch -> sid = SessionID c ->
  kin c (session_claims jwt account address epoch (AMR c) setup
           {| sessionID := SessionID c; continued := true; authTime := AuthTime c |} now sid jti type expires) = true.
Proof.
  intros <- <- ->. apply kin_spec. do 4 (split; [done|]). unfold proof_time, HasAMR, hasMethod, session_claims, auth_time, hasMethod.
  cbn [AMR AuthTime continued authTime]. by destruct (existsb _ (AMR c)).
Qed.
Lemma earned_refresh cookie body : guarded (earns masterKey (Refresh cookie body)) [] (refresh jwt cookie body) (fun _ _ => True).
Proof.
  unfold refresh. destruct (presentedRefreshToken cookie body) as [token native] eqn:PT. destruct (bool_decide _); [done|].
  apply guarded_try, guarded_else, guarded_validate; [|done]. intros l c T TY. cbn [decoded AccountID CredentialEpoch ID AMR SessionID AuthTime].
  apply guarded_try, guarded_else, guarded_AccountState; [| |done].
  2:{ intros l'. silently soothe. done. }
  intros l1 a now st L1 TA A N B SE SA SU. destruct (StEpoch st =? CredentialEpoch c) eqn:EP; [|done]. cbn [negb]. apply Z.eqb_eq in EP.
  apply guarded_try, guarded_else. free_. intros [[]|e]; [cbn [negb]|done..].
  apply guarded_try, guarded_else, guarded_GenerateSession; [apply earns_free| |].
  - intros l2 now' sid jti type expires L2 SID. specialize (SID eq_refl). exists c, a, now.
    split; [rewrite PT; by apply L2, grows_cons, L1|]. split; [done|]. split; [apply L2; by left|].
    split; [by apply L2, grows_cons|]. split; [done|]. split; [by apply L2, grows_cons|]. split; [done|].
    split; [by apply refreshed_kin|]. split; [lia|]. split; [done|]. eapply setup_grows; [|exact SU]. grown.
  - intros l2 [tokens|e]; [|done]. apply guarded_try, guarded_else. silently soothe. intros l3 [[]|e] _; [|done]. cbv zeta.
    apply guarded_else. silently ltac:(apply unsigned_deliver). done.
Qed.
Lemma earned_reset req : guarded (earns masterKey (ResetPassword req)) [] (reset jwt req) (fun _ _ => True).
Proof.
  unfold reset. destruct (negb _); [done|]. apply guarded_then. unfold ResetAdmin. destruct (_ <? _); [done|].
  apply guarded_try, guarded_else. free_. intros [hash|e]; [|done].
  apply guarded_try, guarded_else. free_. intros [pid|e]; [|done].
  apply guarded_try, guarded_else. free_. intros [[a|e]|e]; [|done|done]. apply guarded_ret, guarded_then. free_. intros [].
  apply guarded_newSession; [apply earns_free|]. intros l c L SY SU AM. exists a, hash, pid.
  split; [apply L; right; by left|]. split; [apply L; do 3 right; by left|done].
Qed.
Lemma earned_recover req : guarded (earns masterKey (Recover req)) [] (recoverAccount jwt masterKey req) (fun _ _ => True).
Proof.
  unfold recoverAccount. destruct (negb _); [done|]. cbv zeta. apply guarded_then. free_. intros [r|]; [done|].
  assert (N : forall l, guarded (earns masterKey (Recover req)) l (refuse_recovery (ToLower (TrimSpace (RcEmail req)))) (fun _ _ => True)).
  { intros l. silently ltac:(unfold refuse_recovery; soothe). done. }
  apply guarded_try, guarded_else. free_. intros [[a0|]|e]; [|apply N|done]. destruct (Active a0) eqn:A; cbn [negb]; [|apply N].
  apply guarded_try, guarded_else, guarded_verify; [apply earns_free| | |done].
  2:{ intros l _. apply N. }
  intros l1 L1 [[_ TM]|[X _]]; [|done]. cbn [negb]. apply guarded_try, guarded_else, guarded_verify; [apply earns_free| | |done].
  2:{ intros l _. apply N. }
  intros l2 L2 [[X _]|[_ RS]]; [done|]. cbn [negb].
  apply guarded_try, guarded_else. free_. intros [hash|e]; [|done].
  apply guarded_then. free_. intros now.
  apply guarded_try, guarded_else. free_. intros [pid|e]; [|done].
  apply guarded_try, guarded_else. free_. intros [[]|e]; [|done].
  apply guarded_then. free_. intros [].
  apply guarded_try, guarded_else. free_. intros [[a|]|e]; [|done|done].
  apply guarded_newSession; [apply earns_free|]. intros l c L SY SU AM. exists a0, a, hash, pid, now.
  split; [apply L; do 6 right; apply L2, L1; by left|]. split; [done|]. split; [eapply totp_grows; [|exact TM]; grown|].
  split; [eapply spent_grows; [|exact RS]; grown|]. split; [apply L; do 5 right; by left|]. split; [apply L; do 2 right; by left|].
  split; [apply L; by left|]. done.
Qed.

(** Requests that sign nothing. *)
Lemma unsigned_calm X (q : Q X) : HandlersKeep.calm X q = true -> unsigned X q = true.
Proof. by destruct q. Qed.
Lemma earned_calm {A} r (p : prog Q A) : always HandlersKeep.calm p (fun _ => True) -> guarded (earns masterKey r) [] p (fun _ _ => True).
Proof. intros W. silently ltac:(idtac); [|done]. eapply always_weaken; [apply unsigned_calm|exact W]. Qed.

(** C10: Every session is earned. Whatever the database, the clock and the libraries answer,
    no request signs a token but for what it has shown: a sign-in, an active account found
    by its address, one of its passwords matching the one sent, a grant that lets it in, and
    a code of its authenticator or one of its recovery codes, spent, unless it has no
    authenticator; a recovery, both of these, and the new password set; a reset, the redeemed
    token and the new password; a refresh, a refresh token of the same session exchanged, for
    an account that is active and still at the token's epoch. The token says exactly that:
    the account, its epoch, the methods, and whether its setup is unfinished. *)
Theorem sessions_are_earned (r : request) :
  guarded (earns masterKey r) [] (serve jwt masterKey enabled window r) (fun _ _ => True).
Proof.
  destruct r; apply guarded_then; cbn beta; (eapply guarded_mono; [by intros|]);
    first [apply earned_login | apply earned_refresh | apply earned_reset | apply earned_recover | apply earned_calm];
    first [apply HandlersKeep.calm_logout | apply HandlersKeep.calm_changePassword | apply HandlersKeep.calm_enroll
          |apply HandlersKeep.calm_confirm | apply HandlersKeep.calm_disable].
Qed.
End Handlers.
End SignInProof.
