(* ===== verification/Access.v ===== *)
(** * Who a request comes from, and what it may do

    Checking a mail client's password, an app password, an API key and a client secret
    (repositories/credential.go, api_key.go, client_secret.go), the gateways' connection
    sessions (repositories/gateway_session.go, handlers/gateway_sessions.go), the middleware
    every request passes (internal/api/middleware: auth.go, api_keys.go, csrf.go,
    gateway_sessions.go, session_passwords.go) and what an account's requests reach
    (handlers/account_access.go, credentials.go). *)

From S2P Require Import Prelude GoTime GoStrings MailAddress Prog MailStore Grants GrantStore Auth Accounts SignIn Sessions.
From Stdlib Require Import Ascii.
Import GoTime GoStrings Auth Prog Accounts SignIn Sessions.
Local Open Scope Z_scope.

Module Access.
Local Open Scope prog_scope.

(** ** The models' names *)

Definition GatewayServiceIMAP : string := "imap".
Definition GatewayServicePOP3 : string := "pop3".
Definition GatewayServiceSMTPSubmission : string := "smtp-submission".
Definition GatewayServiceSMTPDelivery : string := "smtp-delivery".

(** A credential is refused for a reason, or could not be checked. *)
Inductive verify_error := Refused (r : CredentialRefusal) | Unverified.
Definition refused_as (reason : credential_reason) (publicID : string) (id : option Z) : verify_error :=
  Refused {| Reason := reason; PublicID := publicID; RefusedID := id |}.

(** The claims of a request made with a credential. *)
Definition credential_claims (a : Account) (id : Z) (kind : string) (permissions : list ScopedPermission) (session : Z) (service protocol : string) : Claims := {|
  ID := ""; Subject := "account:" +:+ itoa (AcID a); Issuer := ""; IssuedAt := GoTime.zero; ExpiresAt := GoTime.zero;
  AccountID := AcID a; Address := AcAddress a; AMR := []; TwoFactor := false; AuthTime := None; SetupPending := false;
  CredentialEpoch := 0; SessionID := ""; TokenType := "access"; MachineCredentialID := 0; CredentialID := id; CredentialKind := kind;
  APIKeyPermissions := permissions; GatewaySessionID := session; GatewayService := service;
  GatewayProtocol := protocol |}.

Section Verify.
Context `{Unicode, AuthLib}.
Abbreviation P := (prog Q).

(** ** repositories/credential.go *)

Definition verifyPassword (address password : string) (now : Time) (memo : bool) : P (result verify_error (Credential * Account)) :=
  found <-! or_else Unverified (db (DAddress address)) ;
  cred <-! or_else Unverified (matchPassword (match found with Some a => AcID a | None => 0 end) password now memo) ;
  match found, cred with
  | Some mailbox, Some cred =>
      let refused reason := refused_as reason (CrPublicID cred) (Some (CrID cred)) in
      if negb (Active mailbox) then Ret (Err (refused CredentialAccountInactive))
      else if PasswordChangeRequired mailbox || BootstrapExpired mailbox now then Ret (Err (refused CredentialAccountInSetup))
      else
        twoFactor <-! or_else Unverified (db (DHasTwoFactor (AcID mailbox))) ;
        Ret (if twoFactor : bool then Err (refused CredentialNeedsAppPassword) else Ok (cred, mailbox))
  | _, _ => Ret (Err (refused_as CredentialWrongPassword "" None))
  end.
Definition VerifyAppPassword (address password : string) (now : Time) : P (result verify_error (Credential * Account)) :=
  match ParseAppPassword password with
  | None => Ret (Err (refused_as CredentialWrongSecret "" None))
  | Some (publicID, secret) =>
      found <-! or_else Unverified (db (DByPublicID publicID KindAppPassword)) ;
      match found with
      | None => Ret (Err (refused_as CredentialUnknown publicID None))
      | Some cred =>
          if negb (AppPasswordSecretMatches secret (SecretHash cred))
          then Ret (Err (refused_as CredentialWrongSecret publicID None))
          else
            let refused reason := refused_as reason publicID (Some (CrID cred)) in
            mailbox <-! or_else Unverified (db (DAccount (CrAccount cred))) ;
            match mailbox with
            | None => Ret (Err (refused CredentialWrongAddress))
            | Some mailbox =>
                addressed <-! or_else Unverified (db (DAddress address)) ;
                Ret (if negb (bool_decide (AcID <$> addressed = Some (AcID mailbox))) then Err (refused CredentialWrongAddress)
                     else if negb (is_none (RevokedAt cred)) then Err (refused CredentialRevoked)
                     else if negb (CredentialUsable cred now) then Err (refused CredentialExpired)
                     else if negb (Active mailbox) then Err (refused CredentialAccountInactive)
                     else Ok (cred, mailbox))
            end
      end
  end.
Definition VerifyPassword (address secret : string) (now : Time) (memo : bool) : P (result verify_error (Credential * Account)) :=
  if IsAppPassword secret then VerifyAppPassword address secret now else verifyPassword address secret now memo.
(** [TouchLastUsed], when the row read says it is time; a failure is logged. *)
Definition touch (c : Credential) (now : Time) : P unit :=
  if match LastUsedAt c with None => true | Some u => LastUsedEvery <=? Sub now u end
  then db (DTouch (CrID c) now) ;; Ret tt else Ret tt.
(** handlers/credentials.go *)
Definition PasswordVerifier (address secret : string) : P (result verify_error Claims) :=
  now <- ask QNow ;
  verified <-! VerifyPassword address secret now true ;
  touch (fst verified) now ;;
  Ret (Ok (credential_claims (snd verified) (CrID (fst verified)) (Kind (fst verified)) [] 0 "" "")).

(** ** api_key.go and client_secret.go *)

(** An account still in setup: a password to replace, or an authenticator it must have. *)
Definition in_setup (a : Account) (now : Time) : P (result verify_error bool) :=
  if PasswordChangeRequired a || BootstrapExpired a now then Ret (Ok true)
  else if TwoFactorRequired a then
    enrolled <-! or_else Unverified (db (DHasTwoFactor (AcID a))) ; Ret (Ok (negb enrolled))
  else Ret (Ok false).
Definition VerifyAPIKey (key : string) (now : Time) : P (result verify_error (Credential * Account)) :=
  match ParseAPIKey key with
  | None => Ret (Err (refused_as CredentialMalformed "" None))
  | Some (publicID, secret) =>
      found <-! or_else Unverified (db (DByPublicID publicID CredentialKindAPIKey)) ;
      match found with
      | None => Ret (Err (refused_as CredentialUnknown publicID None))
      | Some cred =>
          if negb (APIKeySecretMatches secret (SecretHash cred)) then Ret (Err (refused_as CredentialWrongSecret publicID None))
          else
            let refused reason := refused_as reason publicID (Some (CrID cred)) in
            mailbox <-! or_else Unverified (db (DAccount (CrAccount cred))) ;
            match mailbox with
            | None => Ret (Err (refused CredentialAccountInactive))
            | Some mailbox =>
                if negb (is_none (RevokedAt cred)) then Ret (Err (refused CredentialRevoked))
                else if negb (CredentialUsable cred now) then Ret (Err (refused CredentialExpired))
                else if negb (Active mailbox) then Ret (Err (refused CredentialAccountInactive))
                else
                  setup <-! in_setup mailbox now ;
                  Ret (if setup : bool then Err (refused CredentialAccountInSetup) else Ok (cred, mailbox))
            end
      end
  end.
Definition APIKeyClaims (c : Credential) (a : Account) : Claims :=
  credential_claims a (CrID c) CredentialKindAPIKey (Permissions c) 0 "" "".
Definition APIKeyVerifier (key : string) : P (result verify_error Claims) :=
  now <- ask QNow ;
  verified <-! VerifyAPIKey key now ;
  touch (fst verified) now ;;
  Ret (Ok (APIKeyClaims (fst verified) (snd verified))).
Definition clientSecretAccount (c : Credential) (now : Time) : P (result verify_error Account) :=
  let invalid := refused_as CredentialUnknown "" None in
  if negb (bool_decide (Kind c = CredentialKindClientSecret)) || negb (CredentialUsable c now) then Ret (Err invalid)
  else
    found <-! or_else Unverified (db (DAccount (CrAccount c))) ;
    match found with
    | None => Ret (Err Unverified)
    | Some a =>
        if negb (Active a) then Ret (Err invalid)
        else setup <-! in_setup a now ; Ret (if setup : bool then Err invalid else Ok a)
    end.
Definition VerifyClientSecret (id secret : string) (now : Time) : P (result verify_error (Credential * Account)) :=
  let invalid := refused_as CredentialUnknown "" None in
  found <-! or_else Unverified (db (DByPublicID id CredentialKindClientSecret)) ;
  match found with
  | None => Ret (Err invalid)
  | Some cred =>
      if negb (AppPasswordSecretMatches secret (SecretHash cred)) then Ret (Err invalid)
      else account <-! clientSecretAccount cred now ; Ret (Ok (cred, account))
  end.
(** What a client secret may do now: its own permissions that its tier allows, each where
    its account's grants reach. *)
Definition machine_permissions (held : Held.Held) (c : Credential) : list ScopedPermission :=
  List.filter ClientSecretPermissionAllowed (Permissions c) ≫= fun p =>
    (fun scope => {| PCapability := PCapability p; PScope := scope |})
      <$> Held.IntersectScopes (Held.Scopes held (PCapability p)) [PScope p].
Definition as_machine (c : Claims) (cred : Credential) (a : Account) (permissions : list ScopedPermission) : Claims := {|
  ID := ID c; Subject := Subject c; Issuer := Issuer c; IssuedAt := IssuedAt c; ExpiresAt := ExpiresAt c; AccountID := AccountID c;
  Address := AcAddress a; AMR := []; TwoFactor := false; AuthTime := AuthTime c; SetupPending := SetupPending c;
  CredentialEpoch := CredentialEpoch c; SessionID := SessionID c; TokenType := TokenType c;
  MachineCredentialID := MachineCredentialID c; CredentialID := CrID cred; CredentialKind := Kind cred;
  APIKeyPermissions := permissions; GatewaySessionID := GatewaySessionID c; GatewayService := GatewayService c;
  GatewayProtocol := GatewayProtocol c |}.
Definition MachineTokenVerifier (c : Claims) : P (result verify_error Claims) :=
  found <-! or_else Unverified (db (DCredential (MachineCredentialID c))) ;
  match found with
  | None => Ret (Err Unverified)
  | Some cred =>
      if negb (CrAccount cred =? AccountID c) then Ret (Err (refused_as CredentialUnknown "" None))
      else
        now <- ask QNow ;
        account <-! clientSecretAccount cred now ;
        now <- ask QNow ;
        held <-! or_else Unverified (db (DHeld (AcID account) now)) ;
        Ret (Ok (as_machine c cred account (machine_permissions held cred)))
  end.
(** auth/client_secret.go *)
Definition GenerateMachineToken (jwt : JWTService) (account : Z) (address : string) (credential : Z) : P (result unit string) :=
  if (account =? 0) || (credential =? 0) then Ret (Err tt)
  else
    now <- ask QNow ;
    sid <-! ask QRandom ;
    jti <-! ask QRandom ;
    ask (QSign {| ID := jti; Subject := "account:" +:+ itoa account; Issuer := issuer jwt; IssuedAt := NewNumericDate now;
                  ExpiresAt := NewNumericDate (Add now MachineTokenLifetime); AccountID := account; Address := address; AMR := [];
                  TwoFactor := false; AuthTime := None; SetupPending := false; CredentialEpoch := 0; SessionID := sid;
                  TokenType := "access"; MachineCredentialID := credential; CredentialID := 0; CredentialKind := "";
                  APIKeyPermissions := []; GatewaySessionID := 0; GatewayService := ""; GatewayProtocol := "" |}).

(** ** gateway_session.go *)

Definition GatewaySessionTokenPrefix : string := "rmgs_".
Definition hashGatewayToken : string -> string := sha256_hex.
Definition Open (account credential : Z) (kind service protocol : string) (now : Time) : P (result unit (GatewaySession * string)) :=
  raw <-! ask QToken ;
  let token := GatewaySessionTokenPrefix +:+ raw in
  s <-! db (DOpen (hashGatewayToken token) account credential kind service protocol now) ;
  Ret (Ok (s, token)).
Inductive use_error := ErrGatewaySessionEnded | UseFailed.
Definition end_session (id : Z) (now : Time) : P (result use_error GatewaySession) :=
  _ <-! or_else UseFailed (db (DEndSession id now)) ; Ret (Err ErrGatewaySessionEnded).
Definition Use (token service : string) (now : Time) : P (result use_error GatewaySession) :=
  found <-! or_else UseFailed (db (DSession (hashGatewayToken token))) ;
  match found with
  | None => Ret (Err ErrGatewaySessionEnded)
  | Some s =>
      if negb (bool_decide (Service s = service)) then Ret (Err ErrGatewaySessionEnded)
      else if GatewaySessionIdle <? Sub now (GwLastUsedAt s) then end_session (GwID s) now
      else
        usable <-! or_else UseFailed (db (DUsable (GwCredential s) now)) ;
        if negb usable then end_session (GwID s) now
        else if gatewaySessionTouchEvery <=? Sub now (GwLastUsedAt s) then
          _ <-! or_else UseFailed (db (DTouchSession (GwID s) now)) ; Ret (Ok (touched_at now s))
        else Ret (Ok s)
  end.
Definition Close (token service : string) (now : Time) : P (result unit unit) := db (DCloseSession (hashGatewayToken token) service now).

(** ** handlers/gateway_sessions.go *)

Definition gatewayServiceProtocols (service : string) : option string :=
  if bool_decide (service = GatewayServiceIMAP) then Some "imap"
  else if bool_decide (service = GatewayServicePOP3) then Some "pop3"
  else if bool_decide (service = GatewayServiceSMTPSubmission) then Some "smtp"
  else None.
Definition errGatewayRequired : refusal :=
  Refuse 403 "gateway_required" "Only a protocol gateway, with its own client certificate, may do this".
(** [service]: the one the request's client certificate names, or "". *)
Definition open_session (service : string) (claims : option Claims) (protocol : string) : P (result refusal (string * Claims)) :=
  match gatewayServiceProtocols service with
  | None => Ret (Err errGatewayRequired)
  | Some served =>
      let missing := Refuse 400 "credential_required" "Send the account's address, and its password or an app password" in
      match claims with
      | None => Ret (Err missing)
      | Some c =>
          if (CredentialID c =? 0) || IsScopedCredential c || negb (GatewaySessionID c =? 0) then Ret (Err missing)
          else if negb (bool_decide (protocol = served)) then Ret (Err (Invalid ["protocol"]))
          else
            found <-! or_else (internal "Failed to load the account") (db (DAccount (AccountID c))) ;
            match found with
            | None => Ret (Err (internal "Failed to load the account"))
            | Some account =>
                now <- ask QNow ;
                held <-! or_else (internal "Failed to load the account's capabilities") (db (DHeld (AcID account) now)) ;
                if negb (Held.MailboxSession held (AcAddress account)) then Ret (Err errAccessRestricted)
                else
                  now <- ask QNow ;
                  opened <-! or_else (internal "Failed to open the session")
                    (Open (AcID account) (CredentialID c) (CredentialKind c) service protocol now) ;
                  Ret (Ok (snd opened, c))
            end
      end
  end.
Definition GatewaySessionVerifier (token service : string) : P (result use_error Claims) :=
  now <- ask QNow ;
  s <-! Use token service now ;
  found <-! or_else UseFailed (db (DAccount (GwAccount s))) ;
  Ret (match found with
       | None => Err UseFailed
       | Some account => Ok (credential_claims account (GwCredential s) (GwKind s) [] (GwID s) (Service s) (Protocol s))
       end).

(** ** internal/api/middleware *)

(** What the middleware reads of a request: its Authorization header ("" when there is
    none), the values of its restmail_access and restmail_csrf cookies, its X-CSRF-Token
    header, its method and the service its client certificate names. *)
Record Request := {
  Method : string; Authorization : string; AccessCookie : option string; CSRFCookie : option string; CSRFHeader : string;
  ClientIP : string; ClientService : string
}.
(** [strings.SplitN(header, " ", 2)], when it has two parts. *)
Definition bearer (header : string) : option string :=
  match cut_byte " "%char header with
  | Some (scheme, token) => if EqualFold scheme "Bearer" then Some token else None
  | None => None
  end.
Definition AccessTokenFromRequest (r : Request) : result string string :=
  if negb (bool_decide (Authorization r = "")) then
    match bearer (Authorization r) with Some t => Ok t | None => Err "Invalid authorization header format" end
  else match AccessCookie r with
       | Some c => if negb (bool_decide (c = "")) then Ok c else Err "Missing authorization header"
       | None => Err "Missing authorization header"
       end.
(** [machine]: whether the route takes machine tokens. *)
Definition JWTMiddleware (machine : bool) (r : Request) : P (result refusal Claims) :=
  match AccessTokenFromRequest r with
  | Err m => Ret (Err (unauthorized m))
  | Ok token =>
      claims <-! or_else (unauthorized "Invalid or expired token") (ValidateAccessToken token) ;
      if MachineCredentialID claims =? 0 then Ret (Ok claims)
      else
        let refused := unauthorized "Invalid or expired machine token" in
        if negb machine then Ret (Err refused)
        else
          claims <-! or_else refused (MachineTokenVerifier claims) ;
          Ret (if negb (bool_decide (CredentialKind claims = CredentialKindClientSecret))
                  || negb (CredentialID claims =? MachineCredentialID claims) || TwoFactor claims || negb (bool_decide (AMR claims = []))
               then Err refused else Ok claims)
  end.
Definition apiKeyFromRequest (r : Request) : option string :=
  match bearer (Authorization r) with Some t => if LooksLikeAPIKey t then Some t else None | None => None end.
(** [None]: the request goes to the fallback. Refusals are charged and recorded. *)
Definition too_many (retry : Duration) : refusal := TooMany retry.
Definition refuse_credential (ip address : string) (r : CredentialRefusal) (answer : refusal) : P (result refusal Claims) :=
  over <- ask (QAllow (match RefusedID r with Some id => "cred:" +:+ itoa id | None => "ip:" +:+ ip end)) ;
  match over with
  | Some retry => Ret (Err (too_many retry))
  | None => ask (QRefused address r) ;; Ret (Err answer)
  end.
Definition unavailable : refusal := Refuse 503 "unavailable" "Could not verify the credential".
Definition APIKeys_Authenticate (fallback : P (result refusal Claims)) (r : Request) : P (result refusal Claims) :=
  match apiKeyFromRequest r with
  | None => fallback
  | Some key =>
      over <- ask (QAvailable ("ip:" +:+ ClientIP r)) ;
      match over with
      | Some retry => Ret (Err (too_many retry))
      | None =>
          verified <- APIKeyVerifier key ;
          match verified with
          | Err (Refused refusal) => refuse_credential (ClientIP r) "" refusal (unauthorized "Invalid or expired API key")
          | Err Unverified => Ret (Err unavailable)
          | Ok claims => Ret (if negb (IsAPIKey claims) || TwoFactor claims then Err unavailable else Ok claims)
          end
      end
  end.
(** The answer says why only once the password is proven. *)
Definition password_refusal (r : CredentialRefusal) : refusal :=
  match Reason r with
  | CredentialNeedsAppPassword => Refuse 401 "app_password_required" "This account has two-factor authentication: sign in with an app password"
  | CredentialAccountInSetup => Refuse 401 "setup_required" "Finish setting up this account first: sign in to choose a password and enroll an authenticator"
  | _ => unauthorized "Invalid address or password"
  end.
Definition SessionPasswords_Authenticate (ip address password : string) : P (result refusal Claims) :=
  if bool_decide (address = "") || bool_decide (password = "")
  then Ret (Err (Refuse 400 "credential_required" "Send the account's address, and its password or an app password"))
  else
    over <- ask (QAvailable ("ip:" +:+ ip)) ;
    match over with
    | Some retry => Ret (Err (too_many retry))
    | None =>
        verified <- PasswordVerifier address password ;
        match verified with
        | Err (Refused refusal) => refuse_credential ip address refusal (password_refusal refusal)
        | Err Unverified => Ret (Err unavailable)
        | Ok claims => Ret (Ok claims)
        end
    end.
Definition GatewaySessionToken (r : Request) : option string :=
  match bearer (Authorization r) with
  | Some t => if HasPrefix t GatewaySessionTokenPrefix then Some t else None
  | None => None
  end.
Definition errSessionEnded : refusal := unauthorized "This session has ended; sign in again".
Definition GatewaySessions (fallback : P (result refusal Claims)) (r : Request) : P (result refusal Claims) :=
  match GatewaySessionToken r with
  | None => fallback
  | Some token =>
      if bool_decide (ClientService r = "")
      then Ret (Err (unauthorized "A gateway session is used only by its gateway, over the internal listener"))
      else
        used <- GatewaySessionVerifier token (ClientService r) ;
        Ret (match used with
             | Ok claims => Ok claims
             | Err UseFailed => Err (Refuse 503 "unavailable" "Could not verify the session")
             | Err ErrGatewaySessionEnded => Err errSessionEnded
             end)
  end.

(** The checks after the claims are known. *)
Definition SessionOnly (c : Claims) : result refusal unit :=
  if negb (CredentialID c =? 0) then Err (Refuse 403 "session_required" "Sign in with your password to manage eligible permissions") else Ok tt.
Definition SetupDone (c : Claims) : result refusal unit :=
  if SetupPending c
  then Err (Refuse 403 "setup_required" "Finish setting up this account first: a new password and two-factor authentication")
  else Ok tt.
Definition SessionCurrent (account epoch : Z) : P (result unit bool) :=
  found <-! db (DAccount account) ; now <- ask QNow ; Ret (Ok (sessionCurrent found epoch now)).
Definition RejectStaleSessions (current : Z -> Z -> P (result unit bool)) (c : Claims) : P (result refusal unit) :=
  if negb (CredentialID c =? 0) then Ret (Ok tt)
  else
    ok <-! or_else (Refuse 503 "unavailable" "Could not verify the session") (current (AccountID c) (CredentialEpoch c)) ;
    Ret (if ok : bool then Ok tt else Err errSessionEnded).
Definition CSRFProtectsMethod (m : string) : bool := negb (bool_decide (m ∈ ["GET"; "HEAD"; "OPTIONS"])).
Definition errCSRF : refusal := Refuse 403 "csrf_failed" "Missing or invalid CSRF token".
Definition CSRF (r : Request) : result refusal unit :=
  if negb (CSRFProtectsMethod (Method r)) then Ok tt
  else match AccessCookie r with
       | None => Ok tt
       | Some session =>
           if bool_decide (session = "") then Ok tt
           else match CSRFCookie r with
                | None => Err errCSRF
                | Some csrf => if bool_decide (csrf = "") || bool_decide (CSRFHeader r = "") || negb (bool_decide (csrf = CSRFHeader r))
                               then Err errCSRF else Ok tt
                end
       end.
Definition permits (kind capability scope : string) (p : ScopedPermission) : bool :=
  bool_decide (PCapability p = capability) && Scope.Covers (PScope p) scope
  && (negb (bool_decide (kind = CredentialKindClientSecret)) || ClientSecretPermissionAllowed p).
Definition CredentialAllows (c : Claims) (capability scope : string) : bool :=
  if negb (IsScopedCredential c) then true else existsb (permits (CredentialKind c) capability scope) (APIKeyPermissions c).
Definition credentialAllowsSomewhere (c : Claims) (capability : string) : bool :=
  if negb (IsScopedCredential c) then true
  else existsb (fun p => bool_decide (PCapability p = capability)) (APIKeyPermissions c).
(** [target]: what finds the scope of what the request acts on, for a route that has one;
    [Ok None], that there is no such domain or mailbox. *)
Definition RequireCapability (held : Z -> P (result unit Held.Held)) (capability : string) (target : option (P (result unit (option string)))) (c : Claims)
    : P (result refusal Held.Held) :=
  if negb (CredentialID c =? 0) && negb (IsScopedCredential c) then Ret (Err (Refuse 403 "forbidden" "Sign in to do this"))
  else
    let unknown := Refuse 503 "unavailable" "Could not verify permissions" in
    let short := Refuse 403 "forbidden" "Insufficient permissions" in
    h <-! or_else unknown (held (AccountID c)) ;
    if Held.Allows h capability Scope.All && CredentialAllows c capability Scope.All then Ret (Ok h)
    else match target with
    | None => Ret (Err short)
    | Some find =>
        if Held.AllowsSomewhere h capability && credentialAllowsSomewhere c capability then
          scope <-! or_else unknown find ;
          Ret (match scope with
               | Some s => if Held.Allows h capability s && CredentialAllows c capability s then Ok h else Err short
               | None => Err short
               end)
        else Ret (Err short)
    end.

(** ** handlers/account_access.go *)

Inductive access_error := errNoAccess | errNotAllowed | AccessFailed.
Definition appPasswordHolds (capability : string) : bool :=
  bool_decide (capability ∈ [Held.CapMailRead; Held.CapMailWrite; Held.CapMailImport; Held.CapMailSend]).
Definition known_by : list string :=
  [Held.CapMailRead; Held.CapMailWrite; Held.CapMailImport; Held.CapMailSend; Held.CapMailSendAs; Held.CapMailSendOnBehalf; Held.CapMailboxManage].
Definition mayKnowOf (held : Held.Held) (c : Claims) (mailbox : Account) : bool :=
  (AcID mailbox =? AccountID c)
  || existsb (fun capability => Held.Allows held capability (Scope.Mailbox (AcAddress mailbox))
                               && CredentialAllows c capability (Scope.Mailbox (AcAddress mailbox))) known_by.
Definition mayReach (c : Claims) (id : Z) (capability : string) : P (result access_error Account) :=
  found <-! or_else AccessFailed (db (DAccount id)) ;
  match found with
  | None => Ret (Err errNoAccess)
  | Some mailbox =>
      if MailboxOnly c && negb (AcID mailbox =? AccountID c) then Ret (Err errNoAccess)
      else if MailboxOnly c && negb (appPasswordHolds capability) then Ret (Err errNotAllowed)
      else
        now <- ask QNow ;
        held <-! or_else AccessFailed (db (DHeld (AccountID c) now)) ;
        let scope := Scope.Mailbox (AcAddress mailbox) in
        Ret (if MailboxOnly c then (if Held.Allows held capability scope then Ok mailbox else Err errNotAllowed)
             else if Held.Allows held capability scope && CredentialAllows c capability scope then Ok mailbox
             else if mayKnowOf held c mailbox then Err errNotAllowed else Err errNoAccess)
  end.
Definition mayActAs (c : Claims) (address capability : string) : P (result access_error Account) :=
  found <-! or_else AccessFailed (db (DAddressIs address)) ;
  match found with
  | None => Ret (Err errNoAccess)
  | Some mailbox => mayReach c (AcID mailbox) capability
  end.
(** credentials.go: the account a session may manage the credentials of. *)
Definition errAccountNotFound : refusal := Refuse 404 "not_found" "Account not found".
Definition managedAccount (claims : option Claims) (id : Z) : P (result refusal (Claims * Z)) :=
  match claims with
  | None => Ret (Err errAuthenticationRequired)
  | Some c =>
      if negb (CredentialID c =? 0) then Ret (Err (Refuse 403 "forbidden" "Sign in with your password to manage app passwords"))
      else
        reached <- mayReach c id Held.CapMailboxManage ;
        Ret (match reached with
             | Ok _ => Ok (c, id)
             | Err errNoAccess => Err errAccountNotFound
             | Err errNotAllowed => Err (Refuse 403 "forbidden" "Access denied")
             | Err AccessFailed => Err (Failed "read the account")
             end)
  end.
(** ** routes.go: what a group of routes asks of a request, in order *)

(** The mail routes: a session, an API key, a machine token or a gateway's session. *)
Definition mail_routes (current : Z -> Z -> P (result unit bool)) (r : Request) : P (result refusal Claims) :=
  c <-! GatewaySessions (APIKeys_Authenticate (JWTMiddleware true r) r) r ;
  _ <-! RejectStaleSessions current c ;
  _ <-! Ret (SetupDone c) ;
  _ <-! Ret (CSRF r) ;
  Ret (Ok c).
(** The routes that need a person: only a session. *)
Definition person_routes (current : Z -> Z -> P (result unit bool)) (r : Request) : P (result refusal Claims) :=
  c <-! JWTMiddleware false r ;
  _ <-! RejectStaleSessions current c ;
  _ <-! Ret (CSRF r) ;
  _ <-! Ret (SetupDone c) ;
  Ret (Ok c).
(** An admin route, and what it requires. *)
Definition admin_route (current : Z -> Z -> P (result unit bool)) (held : Z -> P (result unit Held.Held)) (capability : string)
    (target : option (P (result unit (option string)))) (r : Request) : P (result refusal Claims) :=
  c <-! APIKeys_Authenticate (JWTMiddleware true r) r ;
  _ <-! RejectStaleSessions current c ;
  _ <-! Ret (SetupDone c) ;
  _ <-! Ret (CSRF r) ;
  _ <-! RequireCapability held capability target c ;
  Ret (Ok c).
(** A gateway opens a session for a mail client. *)
Definition open_route (service ip address password protocol : string) : P (result refusal (string * Claims)) :=
  c <-! SessionPasswords_Authenticate ip address password ; open_session service (Some c) protocol.
End Verify.
End Access.
