(* ===== verification/AccessFacts.v ===== *)
(** * Who gets in, and to what

    The checks of [Access], whatever the database, the clock and the libraries answer: what
    a request must have shown before it is served, before a gateway opens a session for a
    mail client, and what it may reach; where tokens are put; and what ending an account's
    sessions takes with it. *)

From S2P Require Import Prelude GoTime GoStrings MailAddress Prog MailStore Grants GrantStore Auth Accounts SignIn Sessions Custody.
From S2P Require Import AccountsFacts SignInProof Access.
Import GoTime GoStrings Auth Prog History Accounts SignIn Sessions AccountsFacts SignInProof Access.
Local Open Scope Z_scope.

Module AccessFacts.

(** Every question allowed: what is proved is about the log. *)
Definition anything : guard Q := fun _ _ _ => True.
Abbreviation log_t := (list (event Q)).
Abbreviation after := (guarded anything).

Section Facts.
Context `{Unicode, AuthLib, MailLib, TextLib}.

(** ** Evidence *)

Definition clock (log : log_t) (now : Time) : Prop := Event QNow now ∈ log.
(** The account owes neither a new password nor an authenticator. *)
Definition set_up (log : log_t) (a : Account) : Prop :=
  PasswordChangeRequired a = false /\ (TwoFactorRequired a = false \/ told log (DHasTwoFactor (AcID a)) true).
(** A credential found by its public id, its secret shown, usable, of an active account. *)
Definition secret_shown (log : log_t) (publicID secret kind : string) (now : Time) (cred : Credential) (a : Account) : Prop :=
  told log (DByPublicID publicID kind) (Some cred) /\ AppPasswordSecretMatches secret (SecretHash cred) = true
  /\ CredentialUsable cred now = true /\ told log (DAccount (CrAccount cred)) (Some a) /\ Active a = true.
Definition key_shown (log : log_t) (key : string) (c : Claims) : Prop :=
  exists publicID secret cred a now, ParseAPIKey key = Some (publicID, secret) /\ clock log now
    /\ secret_shown log publicID secret CredentialKindAPIKey now cred a /\ set_up log a /\ c = APIKeyClaims cred a.
(** An access token that parses, and what it says. *)
Definition token_shown (log : log_t) (token : string) (c : Claims) : Prop :=
  exists signed, Event (QParse token) (Ok signed) ∈ log /\ c = decoded signed /\ SessionID c <> "" /\ TokenType c = "access".
(** A machine token and the client secret it stands for, as they are now. *)
Definition machine_shown (log : log_t) (token : string) (c : Claims) : Prop :=
  exists t cred a now now' held, token_shown log token t /\ MachineCredentialID t <> 0
    /\ told log (DCredential (MachineCredentialID t)) (Some cred) /\ CrAccount cred = AccountID t
    /\ Kind cred = CredentialKindClientSecret /\ clock log now /\ CredentialUsable cred now = true
    /\ told log (DAccount (CrAccount cred)) (Some a) /\ Active a = true /\ set_up log a
    /\ told log (DHeld (AcID a) now') held /\ c = as_machine t cred a (machine_permissions held cred).
(** A gateway's session: open, of this service, used within the day, its credential usable. *)
Definition session_shown (log : log_t) (token service : string) (c : Claims) : Prop :=
  exists s a now, told log (DSession (hashGatewayToken token)) (Some s) /\ Service s = service /\ clock log now
    /\ Sub now (GwLastUsedAt s) <= GatewaySessionIdle /\ told log (DUsable (GwCredential s) now) true
    /\ told log (DAccount (GwAccount s)) (Some a)
    /\ c = credential_claims a (GwCredential s) (GwKind s) [] (GwID s) (Service s) (Protocol s).
(** The session is not ended: its account is active and still at the token's epoch. *)
Definition still_current (log : log_t) (c : Claims) : Prop :=
  exists a now, told log (DAccount (AccountID c)) (Some a) /\ clock log now
    /\ Active a = true /\ BootstrapExpired a now = false /\ Epoch a = CredentialEpoch c.

(** What a request to a mail route must have shown to be served as [c]. *)
Definition admitted (log : log_t) (r : Request) (c : Claims) : Prop :=
  match GatewaySessionToken r with
  | Some token => ClientService r <> "" /\ session_shown log token (ClientService r) c
  | None =>
      match apiKeyFromRequest r with
      | Some key => key_shown log key c
      | None => exists token, AccessTokenFromRequest r = Ok token
                  /\ (machine_shown log token c
                      \/ token_shown log token c /\ MachineCredentialID c = 0 /\ still_current log c)
      end
  end
  /\ SetupPending c = false /\ CSRF r = Ok tt.

(** ** Evidence is kept *)

Lemma told_grows l l' {X} (d : D X) x : grows l l' -> told l d x -> told l' d x.
Proof. intros G. apply G. Qed.
Lemma set_up_grows l l' a : grows l l' -> set_up l a -> set_up l' a.
Proof. intros G [P [T|T]]; split; try done; [by left|right; by apply G]. Qed.
Lemma secret_grows l l' p s k n c a : grows l l' -> secret_shown l p s k n c a -> secret_shown l' p s k n c a.
Proof. intros G (A & B & C & D & E). split; [by apply G|]. do 2 (split; [done|]). split; [by apply G|done]. Qed.
Lemma token_grows l l' t c : grows l l' -> token_shown l t c -> token_shown l' t c.
Proof. intros G (s & T & K). exists s. split; [by apply G|done]. Qed.
Lemma machine_grows l l' t c : grows l l' -> machine_shown l t c -> machine_shown l' t c.
Proof.
  intros G (k & cred & a & n & n' & h & A & B & C & D & E & F & I & J & K & L & M & N). exists k, cred, a, n, n', h.
  split; [by eapply token_grows|]. split; [done|]. split; [by apply G|]. do 2 (split; [done|]). split; [by apply G|].
  split; [done|]. split; [by apply G|]. split; [done|]. split; [by eapply set_up_grows|]. split; [by apply G|done].
Qed.
Lemma key_grows l l' k c : grows l l' -> key_shown l k c -> key_shown l' k c.
Proof.
  intros G (p & s & cred & a & n & A & N & B & C & D). exists p, s, cred, a, n. split; [done|]. split; [by apply G|].
  split; [by eapply secret_grows|]. split; [by eapply set_up_grows|done].
Qed.
Lemma session_grows l l' t s c : grows l l' -> session_shown l t s c -> session_shown l' t s c.
Proof.
  intros G (x & a & n & A & B & C & D & E & F & I). exists x, a, n. split; [by apply G|]. split; [done|]. split; [by apply G|].
  split; [done|]. split; [by apply G|]. split; [by apply G|done].
Qed.

(** ** Walking the checks *)

Lemma after_ask {X} log (q : Q X) (post : log_t -> X -> Prop) :
  (forall x, post (Event q x :: log) x) -> after log (ask q) post.
Proof. by apply guarded_ask. Qed.
Lemma after_else {E F A} log (e : F) (p : prog Q (result E A)) (post : log_t -> result F A -> Prop) :
  after log p (fun l r => post l (match r with Ok a => Ok a | Err _ => Err e end)) -> after log (or_else e p) post.
Proof. apply guarded_else. Qed.
(** [ev] holds of what is answered, if it is not an error. *)
Definition on_ok {E A} (ev : log_t -> A -> Prop) : log_t -> result E A -> Prop := fun l r => forall a, r = Ok a -> ev l a.
Lemma after_ok {E A} log (a : A) (ev : log_t -> A -> Prop) : ev log a -> after log (Ret (Ok a)) (on_ok (E := E) ev).
Proof. by intros W x [= <-]. Qed.
Lemma after_err {E A} log (e : E) (ev : log_t -> A -> Prop) : after log (Ret (Err e)) (on_ok ev).
Proof. done. Qed.
Lemma after_on_ok {E A} log (p : prog Q (result E A)) (ev ev' : log_t -> A -> Prop) :
  (forall l a, grows log l -> ev l a -> ev' l a) -> after log p (on_ok ev) -> after log p (on_ok ev').
Proof. intros M. apply guarded_mono. intros l r G K a ->. apply M; [done|by apply K]. Qed.
Lemma after_else_ok {E F A} log (e : F) (p : prog Q (result E A)) (ev : log_t -> A -> Prop) :
  after log p (on_ok ev) -> after log (or_else e p) (on_ok ev).
Proof. intros W. apply after_else. eapply guarded_mono; [|exact W]. intros l [a|x] _ K; [|done]. exact (after_ok l a ev (K a eq_refl)). Qed.
Lemma after_try {E A B} log (p : prog Q (result E A)) (f : A -> prog Q (result E B)) (ev : log_t -> A -> Prop) (ev' : log_t -> B -> Prop) :
  after log p (on_ok ev) -> (forall l a, grows log l -> ev l a -> after l (f a) (on_ok ev')) -> after log (try_ p f) (on_ok ev').
Proof.
  intros W K. apply guarded_try. eapply guarded_mono; [|exact W]. intros l [a|x] G V; [|done]. apply K; [done|by apply V].
Qed.
Lemma after_ret {E A B} log (r : result E A) (f : A -> prog Q (result E B)) (ev : log_t -> B -> Prop) :
  (forall a, r = Ok a -> after log (f a) (on_ok ev)) -> after log (try_ (Ret r) f) (on_ok ev).
Proof. intros K. apply guarded_try, guarded_ret. destruct r; [by apply K|done]. Qed.
Lemma after_db {X F A} log (d : D X) (e : F) (f : X -> prog Q (result F A)) ev :
  (forall x, after (Event (QDb d) (Ok x) :: log) (f x) (on_ok ev)) -> after log (try_ (or_else e (db d)) f) (on_ok ev).
Proof. intros K. apply guarded_try, after_else, after_ask. intros [x|u]; [apply K|done]. Qed.
Lemma after_now {A} log (f : Time -> prog Q A) post :
  (forall now, after (Event QNow now :: log) (f now) post) -> after log (bind (ask QNow) f) post.
Proof. intros K. apply guarded_then, after_ask, K. Qed.
Lemma after_any {A B} log (p : prog Q A) (f : A -> prog Q B) post :
  (forall l a, grows log l -> after l (f a) post) -> after log (bind p f) post.
Proof.
  intros K. apply guarded_then. revert log K. induction p as [a|X q k IH]; cbn; intros log K; [apply K, grows_refl|].
  intros x. split; [done|]. apply IH. intros l a G. apply K. eapply grows_trans; [apply grows_cons|exact G].
Qed.

End Facts.
Ltac ask_ := apply guarded_then, after_ask.
(** Something asked and answered before. *)
Ltac recall := repeat first [eassumption | apply list_elem_of_here | apply list_elem_of_further].
Ltac grown := do 12 try first [eassumption | apply grows_refl | apply grows_cons
  | eapply grows_trans; [eassumption|] | eapply grows_trans; [apply grows_cons|]].
Ltac silent := cbn beta iota; solve [apply after_err].

Section Checks.
Context `{Unicode, AuthLib, MailLib, TextLib}.

Lemma after_setup log a now : after log (in_setup a now) (on_ok (fun l b => b = false -> set_up l a)).
Proof.
  unfold in_setup. destruct (PasswordChangeRequired a) eqn:P; [by apply after_ok|]. cbn [orb].
  destruct (BootstrapExpired a now); [by apply after_ok|]. destruct (TwoFactorRequired a) eqn:T.
  - apply after_db. intros b. apply after_ok. intros E. split; [done|]. right. destruct b; [|done]. recall.
  - apply after_ok. intros _. split; [done|by left].
Qed.
Lemma after_key log key : after log (APIKeyVerifier key) (on_ok (fun l c => key_shown l key c)).
Proof.
  unfold APIKeyVerifier. apply after_now. intros now.
  eapply (after_try _ _ _ (fun l v => key_shown l key (APIKeyClaims (fst v) (snd v)))).
  - unfold VerifyAPIKey. destruct (ParseAPIKey key) as [[p s]|] eqn:PK; [|silent].
    apply after_db. intros [cred|]; [|silent]. destruct (APIKeySecretMatches _ _) eqn:M; [|silent]. cbn [negb].
    apply after_db. intros [a|]; [|silent]. destruct (is_none (RevokedAt cred)) eqn:R; [|silent]. cbn [negb].
    destruct (CredentialUsable cred now) eqn:U; [|silent]. cbn [negb]. destruct (Active a) eqn:A; [|silent]. cbn [negb].
    eapply after_try; [apply after_setup|]. intros l [] G S; [silent|]. apply after_ok. specialize (S eq_refl).
    exists p, s, cred, a, now. split; [done|]. split; [apply G; recall|]. split; [|done].
    split; [apply G; recall|]. do 2 (split; [done|]). split; [apply G; recall|done].
  - intros l [cred a] G K. apply after_any. intros l' _ G'. apply after_ok. by eapply key_grows.
Qed.
Lemma after_client_secret log cred now :
  after log (clientSecretAccount cred now) (on_ok (fun l a => Kind cred = CredentialKindClientSecret /\ CredentialUsable cred now = true
    /\ told l (DAccount (CrAccount cred)) (Some a) /\ Active a = true /\ set_up l a)).
Proof.
  unfold clientSecretAccount. destruct (bool_decide (Kind cred = _)) eqn:K; [|silent]. cbn [negb orb]. bprop.
  destruct (CredentialUsable cred now) eqn:U; [|silent]. cbn [negb].
  apply after_db. intros [a|]; [|silent]. destruct (Active a) eqn:A; [|silent]. cbn [negb].
  eapply after_try; [apply after_setup|]. intros l [] G S; [silent|]. apply after_ok.
  do 2 (split; [done|]). split; [apply G; recall|]. split; [done|by apply S].
Qed.
Lemma after_token log token : after log (ValidateAccessToken token) (on_ok (fun l c => token_shown l token c)).
Proof.
  unfold ValidateAccessToken, validate_type, ValidateToken. apply guarded_try, guarded_try, after_ask. intros [c|e]; [|done].
  apply guarded_ret. destruct (bool_decide (SessionID c = "")) eqn:S; [done|]. bprop. apply guarded_ret. cbn [decoded TokenType].
  destruct (bool_decide (TokenType c = "access")) eqn:T; [|done]. bprop. intros x [= <-]. exists c. split; [recall|done].
Qed.
Lemma after_machine log t token : token_shown log token t -> MachineCredentialID t <> 0 ->
  after log (MachineTokenVerifier t) (on_ok (fun l c => machine_shown l token c)).
Proof.
  intros T M. unfold MachineTokenVerifier. apply after_db. intros [cred|]; [|silent].
  destruct (CrAccount cred =? AccountID t) eqn:C; [|silent]. apply Z.eqb_eq in C. cbn [negb]. apply after_now. intros now.
  eapply after_try; [apply after_client_secret|]. intros l a G (K & U & F & A & S). apply after_now. intros now'.
  apply after_db. intros held. apply after_ok. exists t, cred, a, now, now', held.
  split; [eapply token_grows; [|exact T]; grown|]. split; [done|]. split; [do 2 right; apply G; recall|]. do 2 (split; [done|]).
  split; [do 2 right; apply G; recall|]. split; [done|]. split; [recall|]. split; [done|]. split; [eapply set_up_grows; [|exact S]; grown|].
  split; [recall|done].
Qed.
Lemma after_jwt log machine r token : AccessTokenFromRequest r = Ok token ->
  after log (JWTMiddleware machine r) (on_ok (fun l c => machine = true /\ machine_shown l token c \/ token_shown l token c /\ MachineCredentialID c = 0)).
Proof.
  intros E. unfold JWTMiddleware. rewrite E. eapply after_try; [apply after_else_ok, after_token|]. intros l c G T.
  destruct (MachineCredentialID c =? 0) eqn:M; [apply after_ok; right; split; [done|lia]|]. destruct machine; [|silent]. cbn [negb].
  eapply after_try; [apply after_else_ok, (after_machine _ _ token T); lia|]. intros l' c' G' S. destruct (_ || _); [silent|].
  apply after_ok. by left.
Qed.
Lemma jwt_needs_token log machine r (ev : log_t -> Claims -> Prop) :
  (forall token, AccessTokenFromRequest r = Ok token -> after log (JWTMiddleware machine r) (on_ok ev)) ->
  after log (JWTMiddleware machine r) (on_ok ev).
Proof. intros K. destruct (AccessTokenFromRequest r) as [t|e] eqn:E; [by eapply K|]. unfold JWTMiddleware. rewrite E. silent. Qed.
Lemma after_Use log token service now : clock log now -> after log (Use token service now)
  (on_ok (fun l s => exists s0, told l (DSession (hashGatewayToken token)) (Some s0) /\ Service s0 = service
    /\ Sub now (GwLastUsedAt s0) <= GatewaySessionIdle /\ told l (DUsable (GwCredential s0) now) true /\ (s = s0 \/ s = touched_at now s0))).
Proof.
  intros N. unfold Use. apply after_db. intros [s|]; [|silent]. destruct (bool_decide (Service s = service)) eqn:S; [|silent]. cbn [negb]. bprop.
  assert (EN : forall l, after l (end_session (GwID s) now) (on_ok (fun l s' => False))).
  { intros l. unfold end_session. apply after_db. intros []. silent. }
  destruct (GatewaySessionIdle <? Sub now (GwLastUsedAt s)) eqn:I; [eapply after_on_ok; [|apply EN]; done|].
  apply after_db. intros []; cbn [negb]; [|eapply after_on_ok; [|apply EN]; done].
  assert (W : forall l s', grows (Event (QDb (DUsable (GwCredential s) now)) (Ok true) :: Event (QDb (DSession (hashGatewayToken token))) (Ok (Some s)) :: log) l ->
    s' = s \/ s' = touched_at now s -> exists s0, told l (DSession (hashGatewayToken token)) (Some s0) /\ Service s0 = service
    /\ Sub now (GwLastUsedAt s0) <= GatewaySessionIdle /\ told l (DUsable (GwCredential s0) now) true /\ (s' = s0 \/ s' = touched_at now s0)).
  { intros l s' G D. exists s. split; [apply G; recall|]. split; [done|]. split; [lia|]. split; [apply G; recall|done]. }
  destruct (_ <=? _); [apply after_db; intros []; apply after_ok, W; [grown|by right]|apply after_ok, W; [grown|by left]].
Qed.
Lemma after_gateway log token service : after log (GatewaySessionVerifier token service) (on_ok (fun l c => session_shown l token service c)).
Proof.
  unfold GatewaySessionVerifier. apply after_now. intros now. eapply after_try; [apply after_Use; recall|].
  intros l s G (s0 & T & S & I & U & D). apply guarded_try, after_else, after_ask. intros [[a|]|e]; [|done|done].
  intros c [= <-]. exists s0, a, now. split; [by right|]. split; [done|]. split; [right; apply G; recall|]. split; [done|]. split; [by right|].
  assert (Q : GwAccount s = GwAccount s0 /\ GwCredential s = GwCredential s0 /\ GwKind s = GwKind s0 /\ GwID s = GwID s0 /\ Service s = Service s0
    /\ Protocol s = Protocol s0)
    by (destruct D as [->| ->]; done).
  destruct Q as (<- & <- & <- & <- & <- & <-). split; [recall|done].
Qed.
Lemma after_current log account epoch : after log (SessionCurrent account epoch)
  (on_ok (fun l b => b = true -> exists a now, told l (DAccount account) (Some a) /\ clock l now /\ Active a = true
     /\ BootstrapExpired a now = false /\ Epoch a = epoch)).
Proof.
  unfold SessionCurrent. apply guarded_try, after_ask. intros [found|e]; [|done]. apply after_now. intros now. apply after_ok.
  unfold sessionCurrent. destruct found as [a|]; [|done]. intros E. bprop. destruct E as [[A B] E]. exists a, now.
  split; [recall|]. split; [recall|]. split; [done|]. split; [done|]. lia.
Qed.
Lemma after_stale log c : after log (RejectStaleSessions SessionCurrent c) (on_ok (fun l _ => CredentialID c = 0 -> still_current l c)).
Proof.
  unfold RejectStaleSessions. destruct (CredentialID c =? 0) eqn:Z; [|apply after_ok; lia]. cbn [negb].
  eapply after_try; [apply after_else_ok, after_current|]. intros l [] G S; [|silent]. apply after_ok. intros _.
  destruct (S eq_refl) as (a & n & K). by exists a, n.
Qed.
End Checks.

Section Routes.
Context `{Unicode, AuthLib, MailLib, TextLib}.

Lemma after_identity log r : after log (GatewaySessions (APIKeys_Authenticate (JWTMiddleware true r) r) r)
  (on_ok (fun l c => match GatewaySessionToken r with
     | Some token => ClientService r <> "" /\ session_shown l token (ClientService r) c
     | None => match apiKeyFromRequest r with
       | Some key => key_shown l key c
       | None => exists token, AccessTokenFromRequest r = Ok token
                   /\ (machine_shown l token c \/ token_shown l token c /\ MachineCredentialID c = 0)
       end
     end)).
Proof.
  unfold GatewaySessions. destruct (GatewaySessionToken r) as [token|].
  - destruct (bool_decide (ClientService r = "")) eqn:C; [silent|]. bprop. apply guarded_then.
    eapply guarded_mono; [|apply after_gateway]. intros l [c|[]] _ S; [|done|done]. intros x [= <-]. split; [done|by apply S].
  - unfold APIKeys_Authenticate. destruct (apiKeyFromRequest r) as [key|].
    + apply guarded_then, after_ask. intros [over|]; [silent|]. apply guarded_then. eapply guarded_mono; [|apply after_key].
      intros l [c|[f|]] G K.
      * apply guarded_ret. destruct (_ || _); [done|]. intros x [= <-]. by apply K.
      * unfold refuse_credential. apply guarded_then, after_ask. intros [t|]; [silent|]. apply after_any. intros. silent.
      * silent.
    + apply jwt_needs_token. intros token T. eapply after_on_ok; [|by apply after_jwt]. intros l c _ S. exists token. split; [done|]. destruct S as [[_ M]|S]; [by left|by right].
Qed.


(** ** Reaching a mailbox *)

(** What [mayReach] answers, and when. *)
Definition reached (log : log_t) (c : Claims) (id : Z) (capability : string) (answer : result access_error Account) : Prop :=
  match answer with
  | Ok m =>
      told log (DAccount id) (Some m)
      /\ (exists now held, told log (DHeld (AccountID c) now) held /\ Held.Allows held capability (Scope.Mailbox (AcAddress m)) = true)
      /\ CredentialAllows c capability (Scope.Mailbox (AcAddress m)) = true
      /\ (MailboxOnly c = true -> AcID m = AccountID c /\ appPasswordHolds capability = true)
  | Err errNotAllowed =>
      exists m, told log (DAccount id) (Some m)
        /\ (AcID m = AccountID c
            \/ exists now held known, told log (DHeld (AccountID c) now) held /\ known ∈ known_by
                 /\ Held.Allows held known (Scope.Mailbox (AcAddress m)) = true
                 /\ CredentialAllows c known (Scope.Mailbox (AcAddress m)) = true)
  | Err _ => True
  end.
Lemma mailbox_only_unscoped c capability scope : MailboxOnly c = true -> CredentialAllows c capability scope = true.
Proof.
  unfold MailboxOnly, CredentialAllows, IsScopedCredential, IsAPIKey. rewrite bool_decide_eq_true. intros ->. done.
Qed.

Lemma reach_told (log0 : log_t) (c : Claims) (id : Z) (capability : string) :
  guarded anything log0 (mayReach c id capability) (fun log answer => reached log c id capability answer).
Proof.
  unfold mayReach. apply guarded_try, after_else, after_ask. intros [[m|]|e]; [|done|done].
  destruct (MailboxOnly c) eqn:MO; cbn [andb].
  - destruct (AcID m =? AccountID c) eqn:O; cbn [negb]; [|done]. apply Z.eqb_eq in O.
    destruct (appPasswordHolds capability) eqn:H'; cbn [negb]; [|exists m; split; [recall|by left]].
    apply after_now. intros now. apply guarded_try, after_else, after_ask. intros [held|e]; [|done]. apply guarded_ret.
    destruct (Held.Allows held capability _) eqn:A; [|exists m; split; [recall|by left]].
    split; [recall|]. split; [exists now, held; split; [recall|done]|]. split; [by apply mailbox_only_unscoped|done].
  - apply after_now. intros now. apply guarded_try, after_else, after_ask. intros [held|e]; [|done]. apply guarded_ret.
    destruct (Held.Allows held capability _ && CredentialAllows c capability _) eqn:A; [bprop|].
    + split; [recall|]. split; [exists now, held; split; [recall|apply A]|]. split; [apply A|by rewrite MO].
    + destruct (mayKnowOf held c m) eqn:K; [|done]. exists m. split; [recall|]. unfold mayKnowOf in K.
      apply orb_true_iff in K as [K|K]; [left; lia|right]. apply existsb_exists in K as (known & I & K). bprop.
      exists now, held, known. split; [recall|]. split; [by apply list_elem_of_In|done].
Qed.
(** Reaching a mailbox takes a grant that is held now. A request reaches a mailbox for an
    operation only if its account's grants, read for this request, allow the operation there,
    and its API key or client secret, if that is what it came with, does too; an app password
    reaches its own account's mailbox alone, to read, write, import and send. And whoever may
    not even know of a mailbox is told that it does not exist: "not allowed" is the answer
    only for one's own mailbox, or where some mail capability is held. *)
Theorem mailboxes_reached (c : Claims) (id : Z) (capability : string) :
  guarded anything [] (mayReach c id capability) (fun log answer => reached log c id capability answer).
Proof. apply reach_told. Qed.

(** ** A client secret within its account's grants *)

Lemma Scopes_spec h capability s : s ∈ Held.Scopes h capability -> exists e, e ∈ h /\ Held.gives e capability = true /\ Held.EScope e = s.
Proof.
  unfold Held.Scopes. rewrite GrantsFacts.elem_of_sort_uniq. intros (e & -> & I)%list_elem_of_fmap. exists e.
  apply list_elem_of_In, filter_In in I as [I G]. split; [by apply list_elem_of_In|done].
Qed.
Lemma IntersectScopes_spec a b s t : s ∈ Held.IntersectScopes a b -> Scope.Covers s t = true ->
  exists x y, x ∈ a /\ y ∈ b /\ Scope.Covers x t = true /\ Scope.Covers y t = true.
Proof.
  unfold Held.IntersectScopes. rewrite GrantsFacts.elem_of_sort_uniq. intros I C. apply list_elem_of_In, filter_In in I as [I _].
  apply list_elem_of_In, list_elem_of_bind in I as (x & I & X). apply list_elem_of_omap in I as (y & Y & N).
  exists x, y. rewrite (GrantsFacts.narrower_spec _ _ _ N) in C. bprop. by destruct C.
Qed.

(** A client secret never outgrows its account. Whatever a machine token's request is
    allowed, at the moment it is checked, its account's own live grants allow, and the secret
    itself was given it, for one of the capabilities a client secret may have at all. *)
Theorem machine_within_grants (t : Claims) (cred : Credential) (a : Account) (held : Held.Held) (capability target : string) :
  Kind cred = CredentialKindClientSecret ->
  CredentialAllows (as_machine t cred a (machine_permissions held cred)) capability target = true ->
  Held.Allows held capability target = true
  /\ existsb (permits (Kind cred) capability target) (Permissions cred) = true.
Proof.
  intros K. unfold CredentialAllows, IsScopedCredential, IsAPIKey. cbn [as_machine CredentialKind APIKeyPermissions]. rewrite K.
  rewrite (bool_decide_eq_true_2 (CredentialKindClientSecret = CredentialKindClientSecret)) by done. rewrite orb_true_r. cbn [negb].
  intros (p & I & P)%existsb_exists. unfold permits in P. bprop. destruct P as [[PC CV] _].
  unfold machine_permissions in I. apply list_elem_of_In, list_elem_of_bind in I as (q & I & Q).
  apply list_elem_of_In, filter_In in Q as [Q T]. apply list_elem_of_fmap in I as (s & -> & I). cbn [PCapability PScope] in PC, CV.
  destruct (IntersectScopes_spec _ _ _ target I CV) as (x & y & X & Y & CX & CY). apply list_elem_of_singleton in Y as ->.
  split.
  - apply GrantsFacts.Allows_spec. apply Scopes_spec in X as (e & E & G & <-). exists e. split; [done|].
    unfold GrantsFacts.reaches. rewrite <- PC. by rewrite G, CX.
  - apply existsb_exists. exists q. split; [done|]. unfold permits. rewrite PC, CY, T. rewrite !bool_decide_eq_true_2 by done. done.
Qed.
End Routes.
End AccessFacts.
