(* ===== verification/AccessSafety.v ===== *)
(** * Opening sessions, delivering them, ending them

    What a gateway must have shown before a session is opened for a mail client; where a
    new session's tokens are put; and all that ending an account's sessions reaches. *)

From S2P Require Import Prelude GoTime GoStrings MailAddress Prog MailStore Grants GrantStore Auth Accounts SignIn Sessions Custody.
From S2P Require Import AccountsFacts SignInProof Access AccessFacts.
Import GoTime GoStrings Auth Prog History Accounts SignIn Sessions AccountsFacts SignInProof Access AccessFacts.
Local Open Scope Z_scope.

Module AccessSafety.

Section Opening.
Context `{Unicode, AuthLib, MailLib, TextLib}.

(** The client's address and password, or app password, proven. *)
Definition client_proven (log : log_t) (address password : string) (cred : Credential) (a : Account) : Prop :=
  match ParseAppPassword password with
  | Some (publicID, secret) =>
      (exists now, clock log now /\ secret_shown log publicID secret KindAppPassword now cred a)
      /\ exists a', told log (DAddress address) (Some a') /\ AcID a' = AcID a
  | None =>
      told log (DAddress address) (Some a) /\ Active a = true /\ PasswordChangeRequired a = false
      /\ told log (DHasTwoFactor (AcID a)) false
      /\ exists now creds c, told log (DPasswords (AcID a) now) creds /\ clock log now /\ c ∈ creds /\ CrID c = CrID cred
           /\ (CheckPassword password (SecretHash c) = true \/ Event (QRemembered c password) true ∈ log)
  end.
(** What the gateway of [service] must have shown when a session is opened. *)
Definition opens (service address password : string) : guard Q := fun log X q =>
  match q with
  | QDb (DOpen hash account credential kind svc protocol _) =>
      exists cred a a' now held, client_proven log address password cred a
        /\ account = AcID a' /\ credential = CrID cred /\ kind = Kind cred
        /\ svc = service /\ gatewayServiceProtocols service = Some protocol
        /\ told log (DAccount (AcID a)) (Some a') /\ told log (DHeld (AcID a') now) held
        /\ Held.MailboxSession held (AcAddress a') = true
  | _ => True
  end.
Definition not_opening : test Q := fun X q => match q with QDb (DOpen _ _ _ _ _ _ _) => false | _ => true end.
Lemma opens_others service address password l X (q : Q X) : not_opening X q = true -> opens service address password l X q.
Proof. destruct q; try done. cbn. by destruct d. Qed.
Lemma guarded_both {A} (g : guard Q) (t : test Q) log (p : prog Q A) (post : log_t -> A -> Prop) :
  (forall l X q, t X q = true -> g l X q) -> always t p (fun _ => True) -> after log p post -> guarded g log p post.
Proof.
  intros T. unfold always. revert log. induction p as [a|X q k IH]; cbn; intros log W K; [done|].
  intros x. specialize (W x). unfold stateless in W. destruct (t X q) eqn:E; [|done]. split; [by apply T|]. apply IH; [exact W|apply K].
Qed.

(** The password of an account, matched among its own or remembered to have matched. *)
Definition matched (log : log_t) (account : Z) (password : string) (now : Time) (cred : Credential) : Prop :=
  exists creds c, told log (DPasswords account now) creds /\ c ∈ creds /\ CrID c = CrID cred
    /\ (CheckPassword password (SecretHash c) = true \/ Event (QRemembered c password) true ∈ log).
Lemma matched_grows l l' a p n c : grows l l' -> matched l a p n c -> matched l' a p n c.
Proof.
  intros G (creds & x & T & I & E & D). exists creds, x. split; [by apply G|]. do 2 (split; [done|]). destruct D as [D|D]; [by left|right; by apply G].
Qed.
Lemma client_proven_grows l l' address password cred a : grows l l' ->
  client_proven l address password cred a -> client_proven l' address password cred a.
Proof.
  intros G. unfold client_proven. destruct (ParseAppPassword password) as [[p s]|].
  - intros ((n & N & S) & a' & T & E). split; [exists n; split; [by apply G|by eapply secret_grows]|exists a'; split; [by apply G|done]].
  - intros (T & A & P & F & n & creds & x & D & N & I & E & M). split; [by apply G|]. do 2 (split; [done|]). split; [by apply G|].
    exists n, creds, x. split; [by apply G|]. split; [by apply G|]. do 2 (split; [done|]). destruct M as [M|M]; [by left|right; by apply G].
Qed.
Lemma after_remembered log creds password :
  after log (remembered creds password) (fun l r => forall c, r = Some c -> c ∈ creds /\ Event (QRemembered c password) true ∈ l).
Proof.
  revert log. induction creds as [|x rest IH]; intros log; cbn [remembered]; [done|]. apply guarded_then, after_ask. intros [].
  - intros c [= <-]. split; recall.
  - eapply guarded_mono; [|apply IH]. intros l r _ K c E. destruct (K c E). split; [by right|done].
Qed.
Lemma after_match_among log creds password now memo :
  after log (match_among creds password now memo)
    (on_ok (fun l r => forall c, r = Some c -> exists x, x ∈ creds /\ CrID x = CrID c /\ CheckPassword password (SecretHash x) = true)).
Proof.
  revert log. induction creds as [|x rest IH]; intros log; cbn [match_among]; [by apply after_ok|].
  assert (RM : forall l y, CrID x = CrID y -> CheckPassword password (SecretHash x) = true -> after l (remember memo y password)
    (on_ok (fun l r => forall c, r = Some c -> exists z, z ∈ x :: rest /\ CrID z = CrID c /\ CheckPassword password (SecretHash z) = true))).
  { intros l y E C. unfold remember. destruct memo; [apply after_any; intros l' _ _|]; apply after_ok; intros c [= <-]; exists x; (split; [by left|done]). }
  destruct (CheckPassword password (SecretHash x)) eqn:C.
  - destruct (PasswordNeedsRehash _ _); [|by apply RM]. apply guarded_try, after_ask. intros [h|e]; [|done].
    apply guarded_try, after_ask. intros [[]|e]; [by apply RM| |done]. by apply after_ok.
  - eapply after_on_ok; [|apply IH]. intros l r _ K c E. destruct (K c E) as (z & Z & W). exists z. split; [by right|done].
Qed.
Lemma after_matchPassword log account password now memo :
  after log (matchPassword account password now memo) (on_ok (fun l r => forall c, r = Some c -> matched l account password now c)).
Proof.
  unfold matchPassword. apply guarded_try. destruct (account =? 0); [apply guarded_ret; by apply after_ok|].
  apply after_ask. intros [creds|e]; [|done]. destruct creds as [|c0 rest] eqn:E; [by apply after_ok|]. rewrite <- E.
  apply guarded_then. eapply (guarded_mono _ _ _ (fun l r => forall c, r = Some c -> c ∈ creds /\ Event (QRemembered c password) true ∈ l)).
  - intros l [c|] G K.
    + apply after_ok. intros x [= <-]. destruct (K c eq_refl) as [I V]. exists creds, c. split; [apply G; recall|]. by do 2 (split; [done|]); right.
    + eapply after_on_ok; [|apply after_match_among]. intros l' r G' M c Q. destruct (M c Q) as (z & Z & W & V).
      exists creds, z. split; [apply G', G; recall|]. by do 2 (split; [done|]); left.
  - destruct memo; [apply after_remembered|done].
Qed.

Lemma after_password log address password : after log (PasswordVerifier address password)
  (on_ok (fun l c => exists cred a, client_proven l address password cred a
     /\ AccountID c = AcID a /\ CredentialID c = CrID cred /\ CredentialKind c = Kind cred)).
Proof.
  unfold PasswordVerifier. apply after_now. intros now.
  eapply (after_try _ _ _ (fun l v => client_proven l address password (fst v) (snd v))).
  2:{ intros l [cred a] G K. apply after_any. intros l' _ G'. apply after_ok. exists cred, a. split; [|done].
      by eapply client_proven_grows. }
  unfold VerifyPassword, IsAppPassword, VerifyAppPassword, client_proven. destruct (ParseAppPassword password) as [[p s]|].
  - apply after_db. intros [cred|]; [|silent]. destruct (AppPasswordSecretMatches _ _) eqn:M; [|silent]. cbn [negb].
    apply after_db. intros [a|]; [|silent]. apply after_db. intros ad. destruct (bool_decide (AcID <$> ad = Some (AcID a))) eqn:AD; [|silent]. cbn [negb].
    destruct (is_none (RevokedAt cred)); [|silent]. cbn [negb]. destruct (CredentialUsable cred now) eqn:U; [|silent]. cbn [negb].
    destruct (Active a) eqn:A; [|silent]. apply after_ok. cbn [fst snd]. split.
    + exists now. split; [recall|]. split; [recall|]. do 2 (split; [done|]). split; [recall|done].
    + bprop. destruct ad as [a'|]; [|done]. injection AD as AD. exists a'. split; [recall|done].
  - unfold verifyPassword. apply after_db. intros found. eapply after_try; [apply after_else_ok, after_matchPassword|].
    intros l [cred|] G M; [|destruct found; silent]. destruct found as [a|]; [|silent]. destruct (Active a) eqn:A; [|silent]. cbn [negb].
    destruct (PasswordChangeRequired a) eqn:P; [silent|]. cbn [orb]. destruct (BootstrapExpired a now); [silent|].
    apply after_db. intros []; [silent|]. apply after_ok. cbn [fst snd]. destruct (M cred eq_refl) as (creds & c & T & I & E & D).
    split; [right; apply G; recall|]. do 2 (split; [done|]). split; [recall|]. exists now, creds, c. split; [by right|]. split; [right; apply G; recall|].
    do 2 (split; [done|]). destruct D as [D|D]; [by left|right; by right].
Qed.
End Opening.

Section Opened.
Context `{Unicode, AuthLib, MailLib, TextLib}.

Ltac unopened := first [done | unfold db, or_else; walk; try done].
Lemma unopened_then {A B} (p : prog Q A) (f : A -> prog Q B) :
  always not_opening p (fun _ => True) -> (forall a, always not_opening (f a) (fun _ => True)) -> always not_opening (bind p f) (fun _ => True).
Proof. intros W K. apply always_then. eapply always_mono; [|exact W]. intros a _. apply K. Qed.
Lemma unopened_try {E A B} (p : prog Q (result E A)) (f : A -> prog Q (result E B)) :
  always not_opening p (fun _ => True) -> (forall a, always not_opening (f a) (fun _ => True)) -> always not_opening (try_ p f) (fun _ => True).
Proof. intros W K. apply unopened_then; [done|]. intros [a|e]; [apply K|done]. Qed.
Lemma unopened_matchPassword account password now memo : always not_opening (matchPassword account password now memo) (fun _ => True).
Proof.
  unfold matchPassword. apply unopened_try; [destruct (account =? 0); unopened|]. intros [|c l]; [done|].
  apply unopened_then.
  - destruct memo; [|done]. generalize (c :: l). induction l0 as [|x rest IH]; cbn [remembered]; unopened.
  - intros [k|]; [done|]. generalize (c :: l). induction l0 as [|x rest IH]; cbn [match_among]; unfold remember; unopened.
Qed.
Lemma unopened_password ip address password : always not_opening (SessionPasswords_Authenticate ip address password) (fun _ => True).
Proof.
  unfold SessionPasswords_Authenticate. destruct (_ || _); [done|]. apply unopened_then; [unopened|]. intros [r|]; [done|].
  apply unopened_then; [|intros [c|[f|]]; [done| |done]; unfold refuse_credential; unopened].
  unfold PasswordVerifier. apply unopened_then; [unopened|]. intros now. apply unopened_try; [|intros v; unfold touch; unopened].
  unfold VerifyPassword, VerifyAppPassword, verifyPassword. destruct (IsAppPassword password); [unopened|].
  unfold or_else at 1. apply unopened_try; [unopened|]. intros found. apply unopened_try; [|intros cr; unopened].
  apply unopened_then; [apply unopened_matchPassword|done].
Qed.

Lemma after_SessionPasswords log ip address password : after log (SessionPasswords_Authenticate ip address password)
  (on_ok (fun l c => exists cred a, client_proven l address password cred a
     /\ AccountID c = AcID a /\ CredentialID c = CrID cred /\ CredentialKind c = Kind cred)).
Proof.
  unfold SessionPasswords_Authenticate. destruct (_ || _); [done|]. apply guarded_then, after_ask. intros [t|]; [done|]. apply guarded_then.
  eapply guarded_mono; [|apply after_password]. intros l [c|[f|]] _ K; [|unfold refuse_credential|done].
  - apply after_ok, K. done.
  - apply guarded_then, after_ask. intros [t|]; [done|]. by apply after_any.
Qed.

(** A mail client's session is earned. A gateway is given a session for a mail client only
    on its own certificate, for the protocol it serves, and only for who the client proved to
    be: an app password whose secret matches, usable, of an active account the address it gave
    belongs to; or a password of the account at that address, active, with no password to
    replace and no two-factor authentication; and whose grants, read then, let it in. *)
Theorem gateway_sessions_are_earned (service ip address password protocol : string) :
  guarded (opens service address password) [] (open_route service ip address password protocol) (fun _ _ => True).
Proof.
  unfold open_route. apply guarded_try. eapply guarded_mono;
    [|apply (guarded_both _ not_opening); [apply opens_others|apply unopened_password|apply after_SessionPasswords]].
  intros l [c|e] _ K; [|done]. destruct (K c eq_refl) as (cred & a & PR & A & ID & KD). unfold open_session.
  destruct (gatewayServiceProtocols service) as [served|] eqn:GS; [|done]. destruct (_ || _); [done|].
  destruct (bool_decide (protocol = served)) eqn:PT; [|done]. bprop. subst served. cbn [negb].
  apply guarded_try, guarded_else, guarded_ask; [by apply opens_others|]. intros [[a'|]|e]; [|done|done].
  apply guarded_then, guarded_ask; [done|]. intros now.
  apply guarded_try, guarded_else, guarded_ask; [by apply opens_others|]. intros [held|e]; [|done].
  destruct (Held.MailboxSession held (AcAddress a')) eqn:MS; [|done]. cbn [negb].
  apply guarded_then, guarded_ask; [done|]. intros now'. apply guarded_try, guarded_else. unfold Open.
  apply guarded_try, guarded_ask; [done|]. intros [raw|e]; [|done].
  apply guarded_try, guarded_ask; [|intros [s|e]; done].
  exists cred, a, a', now, held. split; [eapply client_proven_grows; [|exact PR]; grown|].
  do 5 (split; [done|]). rewrite A. split; [recall|]. split; [recall|done].
Qed.
End Opened.

Section Delivery.
Context `{Unicode, AuthLib, MailLib, TextLib}.
Context (jwt : JWTService) (masterKey : string).

(** Where the tokens of an answer are: a native client's in its body, with no cookies; a
    page's in cookies its scripts cannot read, beside a CSRF token drawn for the purpose. *)
Definition delivered (native : bool) (log : log_t) (h : Headed loginResponse) : Prop :=
  if native then Header h = []
  else RsAccessToken (Body h) = "" /\ RsRefreshToken (Body h) = ""
       /\ forall k, k ∈ Header h -> Secure k = true /\ SameSiteStrict k = true
            /\ (HttpOnly k = true \/ CkName k = CSRFCookieName /\ Event QRandom (Ok (Value k)) ∈ log).
Lemma delivered_grows native l l' h : grows l l' -> delivered native l h -> delivered native l' h.
Proof.
  intros G. unfold delivered. destruct native; [done|]. intros (A & B & K). do 2 (split; [done|]). intros k I.
  destruct (K k I) as (S & T & [O|[C E]]); do 2 (split; [done|]); [by left|right]. split; [done|by apply G].
Qed.
(** Whatever came before. *)
Lemma after_try_any {E A B} log (p : prog Q (result E A)) (f : A -> prog Q (result E B)) (ev : log_t -> B -> Prop) :
  (forall l a, grows log l -> after l (f a) (on_ok ev)) -> after log (try_ p f) (on_ok ev).
Proof. intros K. apply after_any. intros l [a|e] G; [by apply K|apply after_err]. Qed.
Lemma after_deliver log tokens native resp : RsAccessToken resp = "" -> RsRefreshToken resp = "" ->
  after log (deliverSession tokens native resp) (on_ok (delivered native)).
Proof.
  intros A R. unfold deliverSession. destruct native; [apply after_any; intros l now _; by apply after_ok|].
  unfold setSessionCookies, newCSRFToken. apply guarded_try, guarded_try, after_ask. intros [csrf|e]; [|done]. apply guarded_ret.
  apply after_ok. split; [done|]. split; [done|]. intros k. cbn [Header].
  intros [->|[->|[->|I]%elem_of_cons]%elem_of_cons]%elem_of_cons; [| | |by apply not_elem_of_nil in I]; cbn; (do 2 (split; [done|])); [by left|by left|right; split; [done|recall]].
Qed.
Lemma after_newSession log account native amr : after log (newSession jwt account native amr) (on_ok (delivered native)).
Proof.
  unfold newSession. apply after_any. intros l1 now _. apply after_try_any. intros l2 held _. apply after_try_any. intros l3 steps _.
  cbv zeta. apply after_try_any. intros l4 tokens _. apply after_try_any. intros l5 [] _.
  eapply after_try; [by apply after_else_ok, after_deliver|]. intros l6 h _ D. apply after_any. intros l7 now' G7. apply after_any.
  intros l8 [] G8; apply after_ok; by do 2 (eapply delivered_grows; [eassumption|]).
Qed.

(** No page ever sees a token. However signing in, refreshing, redeeming a reset and
    recovering end, a browser is given its tokens only in Secure, SameSite=Strict, HttpOnly
    cookies, the one cookie its scripts may read being a random CSRF token, and nothing in
    the body; a native client, which alone is given them in the body, is given no cookie. *)
Theorem tokens_stay_out_of_pages :
  (forall req, after [] (login jwt masterKey req) (on_ok (delivered (is_native (Client req)))))
  /\ (forall cookie body, after [] (refresh jwt cookie body) (on_ok (delivered (snd (presentedRefreshToken cookie body)))))
  /\ (forall req, after [] (reset jwt req) (on_ok (delivered (is_native (RtClient req)))))
  /\ (forall req, after [] (recoverAccount jwt masterKey req) (on_ok (delivered (is_native (RcClient req))))).
Proof.
  split; [|split; [|split]].
  - intros req. unfold login. apply after_try_any. intros l found _. apply after_any. intros l1 now _. apply after_try_any. intros l2 cred _.
    destruct found as [a|]; [|done]. destruct cred as [c|]; [|done]. destruct (negb (Active a)); [done|]. destruct (BootstrapExpired a now); [done|].
    apply after_try_any. intros l3 v _. apply after_try_any. intros l4 held _. destruct (_ && _); [done|]. apply after_newSession.
  - intros cookie body. unfold refresh. destruct (presentedRefreshToken cookie body) as [token native]. cbn [snd].
    destruct (bool_decide _); [done|]. apply after_try_any. intros l c _. apply after_try_any. intros l1 [st|] _; [|by apply after_any].
    destruct (negb _); [done|]. apply after_try_any. intros l2 rotated _. destruct (negb rotated); [done|]. apply after_try_any. intros l3 tokens _.
    apply after_try_any. intros l4 [] _. cbv zeta. by apply after_else_ok, after_deliver.
  - intros req. unfold reset. destruct (negb _); [done|]. apply after_any. intros l [a|e] _; [|done]. apply after_any. intros l1 [] _. apply after_newSession.
  - intros req. unfold recoverAccount. destruct (negb _); [done|]. cbv zeta.
    assert (N : forall l address, after l (refuse_recovery address) (on_ok (delivered (is_native (RcClient req)))))
      by (intros; unfold refuse_recovery; by apply after_any).
    apply after_any. intros l [t|] _; [done|]. apply after_try_any. intros l1 [a|] _; [|apply N]. destruct (negb (Active a)); [apply N|].
    apply after_try_any. intros l2 m _. destruct (negb m); [apply N|]. apply after_try_any. intros l3 m' _. destruct (negb m'); [apply N|].
    apply after_try_any. intros l4 hash _. apply after_any. intros l5 now _. apply after_try_any. intros l6 pid _. apply after_try_any. intros l7 [] _.
    apply after_any. intros l8 [] _. apply after_try_any. intros l9 [again|] _; [apply after_newSession|done].
Qed.
End Delivery.

Section Ending.
Context `{Unicode, AuthLib, MailLib, TextLib} (override : option Held.Held).

(** A program run by itself: the database answers from the tables, and [h] the rest. *)
Definition answer (h : outside Q) (at_ : Time) (t : Tables) {X} (q : Q X) : X * Tables :=
  match q in Q X return X * Tables with
  | QDb d => exec override at_ d t
  | q => (h _ q, t)
  end.
Fixpoint run_on {A} (h : outside Q) (at_ : Time) (p : prog Q A) (t : Tables) : A * Tables :=
  match p with
  | Ret a => (a, t)
  | Ask q k => run_on h at_ (k (fst (answer h at_ t q))) (snd (answer h at_ t q))
  end.

Definition closed_out (account : Z) (t : Tables) : Prop :=
  (forall s, s ∈ gateway_sessions t -> GwAccount s = account -> is_open s = false)
  /\ (forall r, r ∈ refresh_tokens t -> RfAccount r = account -> Status r <> RefreshTokenActive).
Lemma closed_RevokeAll account now t : closed_out account (RevokeAllForAccount account now t).
Proof.
  unfold RevokeAllForAccount, CloseAllForAccount, update_sessions, revoke_tokens. split; cbn.
  - intros s I A. apply elem_of_update in I as (y & I & ->). destruct ((GwAccount y =? account) && is_open y) eqn:E; [done|].
    rewrite A, Z.eqb_refl in E. exact E.
  - intros r I A. apply elem_of_update in I as (y & I & ->). unfold live_of in *. destruct ((RfAccount y =? account) && _) eqn:E; [done|].
    intros S. by rewrite A, S, Z.eqb_refl in E.
Qed.
Lemma closed_exec at_ X (d : D X) t account : ends at_ d t account -> closed_out account (snd (exec override at_ d t)).
Proof.
  intros E. destruct d; try done; cbn [ends] in E; cbn [exec snd].
  - subst account0. unfold disable_two_factor, endSessions. apply closed_RevokeAll.
  - subst account0. unfold change_password, setAccountPassword, endSessions. apply closed_RevokeAll.
  - destruct E as (a & t' & R & A). rewrite R. cbn [snd]. apply reset_admin_inv in R as (o & id & t1 & R & _ & -> & F).
    assert (id = account) as -> by (destruct (find_account_id _ _ _ F); congruence).
    unfold resetCredentials. destruct (RevokeAppPasswords _ _ _). apply closed_RevokeAll.
Qed.
End Ending.

Section Ended.
Context `{Unicode, AuthLib, MailLib, TextLib} (override : option Held.Held).

Lemma Use_session h at_ token service now t s : fst (run_on override h at_ (Use token service now) t) = Ok s ->
  exists s0, s0 ∈ gateway_sessions t /\ is_open s0 = true /\ TokenHash s0 = hashGatewayToken token /\ GwAccount s = GwAccount s0.
Proof.
  unfold Use, try_, or_else, db, end_session. cbn [bind ask run_on answer exec fst snd].
  destruct (head _) as [s0|] eqn:E; [|done].
  assert (I : s0 ∈ gateway_sessions t /\ with_unused_hash (hashGatewayToken token) s0 = true).
  { destruct (List.filter _ _) as [|x l] eqn:L; [done|]. injection E as ->. assert (I : In s0 (s0 :: l)) by by left.
    rewrite <- L in I. apply filter_In in I as [I W]. split; [by apply list_elem_of_In|done]. }
  destruct I as [I W]. unfold with_unused_hash in W. bprop. destruct W as [W O].
  intros R. exists s0. do 3 (split; [done|]). revert R. destruct (negb _); [done|]. destruct (_ <? _); [done|].
  cbn [bind run_on answer exec fst snd]. destruct (Usable _ _ _); cbn [negb]; [|done]. destruct (_ <=? _); cbn; by intros [= <-].
Qed.

(** Ending sessions spares nothing of the account. When a new password, a redeemed reset
    or two-factor authentication turned off is done, the account has no refresh token left to
    exchange and no gateway's session left open; and whatever token a gateway sends next,
    for whatever service, the session it uses is not that account's. *)
Theorem ending_spares_nothing (at_ : Time) (X : Type) (d : D X) (t : Tables) (account : Z) :
  ends at_ d t account ->
  let t' := snd (exec override at_ d t) in
  closed_out account t'
  /\ forall h at_' token service now s,
       fst (run_on override h at_' (Use token service now) t') = Ok s -> GwAccount s <> account.
Proof.
  intros E. cbv zeta. pose proof (closed_exec override at_ X d t account E) as C. split; [exact C|].
  intros h at_' token service now s (s0 & I & O & _ & A)%Use_session. intros Q. rewrite A in Q.
  by rewrite (proj1 C s0 I Q) in O.
Qed.
End Ended.
End AccessSafety.
