(* ===== verification/Threads.v ===== *)
(** * Folder names: internal/mail/folder.go, handlers/subscriptions.go

    What a folder may be called, which folders every mailbox has and what they are for, and
    the names an account is subscribed to. *)

From S2P Require Import Prelude GoStrings MailAddress GoCodec.
From Stdlib Require Import Ascii.

Module Folders.
Import GoStrings.
Local Open Scope Z_scope.

(** ** internal/mail/folder.go *)

Definition MaxFolderNameLen : Z := 255.
Definition StandardFolders : list string := ["INBOX"; "Sent"; "Drafts"; "Trash"; "Spam"; "Archive"].

Inductive FolderRole := RoleInbox | RoleSent | RoleDrafts | RoleTrash | RoleJunk | RoleArchive.
#[export] Instance role_eq_dec : EqDecision FolderRole.
Proof. solve_decision. Defined.
Definition folderRoles : gmap string FolderRole :=
  list_to_map [("INBOX", RoleInbox); ("Sent", RoleSent); ("Drafts", RoleDrafts); ("Trash", RoleTrash); ("Spam", RoleJunk);
               ("Archive", RoleArchive)].
Definition role_name (r : FolderRole) : string :=
  match r with
  | RoleInbox => "inbox" | RoleSent => "sent" | RoleDrafts => "drafts" | RoleTrash => "trash" | RoleJunk => "junk"
  | RoleArchive => "archive"
  end.
Definition SpecialUse (r : FolderRole) : string :=
  match r with
  | RoleInbox => ""
  | RoleSent => "\Sent" | RoleDrafts => "\Drafts" | RoleTrash => "\Trash" | RoleJunk => "\Junk" | RoleArchive => "\Archive"
  end.

(** [r < 0x20 || r == 0x7f || r >= 0x80 && r <= 0x9f]: the last are C2 followed by 80 to 9F. *)
Definition control_rune (r : rune) : bool :=
  match r with
  | Rune (String a EmptyString) => (nat_of_ascii a <? 32)%nat || (nat_of_ascii a =? 127)%nat
  | Rune (String a (String b EmptyString)) => (nat_of_ascii a =? 194)%nat && (nat_of_ascii b <=? 159)%nat
  | _ => false
  end.
(** What is wrong with a name; [""]: nothing. *)
Definition FolderNameProblem (name : string) : string :=
  if bool_decide (TrimSpace name = "") then "required"
  else if MaxFolderNameLen <? len name then "must be at most 255 bytes"
  else if negb (ValidString name) then "must be valid UTF-8"
  else if negb (bool_decide (TrimSpace name = name)) then "must not begin or end with a space"
  else if Contains name ".." then "must not contain " +:+ quote +:+ ".." +:+ quote
  else if existsb control_rune (runes name) then "must not contain a control character"
  else "".
Definition good_name (name : string) : bool := bool_decide (FolderNameProblem name = "").

Definition byte_le (x y : string) : Prop := String.leb x y = true.
#[global] Instance byte_le_dec x y : Decision (byte_le x y).
Proof. unfold byte_le. apply _. Defined.

Section Fold.
Context `{Unicode}.

Definition CanonicalFolder (folder : string) : string := if EqualFold folder "INBOX" then "INBOX" else folder.
Definition RoleOf (folder : string) : option FolderRole := folderRoles !! CanonicalFolder folder.
Definition IsStandardFolder (folder : string) : bool := bool_decide (CanonicalFolder folder ∈ StandardFolders).

(** ** handlers/subscriptions.go *)

(** The account's choices, a row a name. *)
Abbreviation Choices := (gmap string bool).
Definition subscribed (rows : Choices) : Choices := rows ∪ set_to_map (fun f => (f, true)) (list_to_set StandardFolders : gset string).
Definition names_of (rows : Choices) : list string :=
  merge_sort byte_le (fst <$> List.filter snd (map_to_list (subscribed rows))).
Definition setSubscription (name : string) (on : bool) (rows : Choices) : Choices :=
  if negb on && negb (IsStandardFolder name) then delete name rows else <[name := on]> rows.

(** ** What the rules say *)

(** A good name is UTF-8, fits its column and has no byte that could end a line. *)
Definition line_byte (a : ascii) : bool := negb ((nat_of_ascii a <? 32)%nat || (nat_of_ascii a =? 127)%nat).

Lemma good_name_parts name : good_name name = true ->
  TrimSpace name <> "" /\ len name <= MaxFolderNameLen /\ ValidString name = true /\ TrimSpace name = name /\
  Contains name ".." = false /\ existsb control_rune (runes name) = false.
Proof.
  unfold good_name, FolderNameProblem. rewrite bool_decide_eq_true. case_bool_decide; [done|]. destruct (_ <? _) eqn:L; [done|].
  destruct (ValidString name); [|done]. case_bool_decide; [|done]. destruct (Contains _ _); [done|]. destruct (existsb _ _); [done|].
  intros _. apply Z.ltb_ge in L. by repeat split.
Qed.

(** What Unicode's folding has to leave alone: no letter outside ASCII folds to one of INBOX,
    as none does. *)
Definition inbox_folds_alone : Prop := forall s, is_ascii s = false -> uni_fold s "INBOX" = false.

Lemma canonical_idem folder : CanonicalFolder (CanonicalFolder folder) = CanonicalFolder folder.
Proof. unfold CanonicalFolder. destruct (EqualFold folder "INBOX") eqn:E; [done|]. by rewrite E. Qed.
Lemma canonical_cases folder : CanonicalFolder folder = folder \/ CanonicalFolder folder = "INBOX".
Proof. unfold CanonicalFolder. destruct (EqualFold _ _); [by right|by left]. Qed.
Lemma inbox_canonical : CanonicalFolder "INBOX" = "INBOX".
Proof. reflexivity. Qed.
Lemma canonical_good folder : good_name folder = true -> good_name (CanonicalFolder folder) = true.
Proof. intros G. destruct (canonical_cases folder) as [-> | ->]; [done|reflexivity]. Qed.
Lemma standard_canonical folder : folder ∈ StandardFolders -> CanonicalFolder folder = folder.
Proof. unfold StandardFolders. intros I. repeat (apply elem_of_cons in I as [->|I]; [reflexivity|]). by apply elem_of_nil in I. Qed.
Lemma standard_good folder : folder ∈ StandardFolders -> good_name folder = true.
Proof. unfold StandardFolders. intros I. repeat (apply elem_of_cons in I as [->|I]; [reflexivity|]). by apply elem_of_nil in I. Qed.

(** Every folder that is standard has a role, and no other has. *)
Lemma standard_has_role folder : IsStandardFolder folder = true <-> is_Some (RoleOf folder).
Proof.
  unfold IsStandardFolder, RoleOf. rewrite bool_decide_eq_true. generalize (CanonicalFolder folder). intros f. unfold folderRoles. split.
  - intros I. unfold StandardFolders in I. repeat (apply elem_of_cons in I as [->|I]; [eexists; reflexivity|]). by apply elem_of_nil in I.
  - intros [r R%elem_of_list_to_map_2]. repeat (apply elem_of_cons in R as [[= -> _]|R]; [unfold StandardFolders; set_solver|]). by apply elem_of_nil in R.
Qed.

(** ** Subscriptions *)

Lemma subscribed_lookup rows f : subscribed rows !! f =
  match rows !! f with Some on => Some on | None => if bool_decide (f ∈ StandardFolders) then Some true else None end.
Proof.
  unfold subscribed. destruct (rows !! f) as [on|] eqn:E; [by apply lookup_union_Some_l|].
  rewrite lookup_union_r by done. case_bool_decide as I.
  - apply lookup_set_to_map; [done|]. exists f. split; [by apply elem_of_list_to_set|done].
  - apply eq_None_not_Some. intros [on S]. apply lookup_set_to_map in S as (g & G & [= -> _]); [|done]. by apply elem_of_list_to_set in G.
Qed.
Lemma names_of_spec rows f : f ∈ names_of rows <-> subscribed rows !! f = Some true.
Proof.
  unfold names_of. rewrite merge_sort_Permutation, list_elem_of_fmap. split.
  - intros ([g on] & -> & I). apply list_elem_of_In, filter_In in I as [I S]. apply list_elem_of_In, elem_of_map_to_list in I. simpl in *.
    by rewrite I, S.
  - intros L. exists (f, true). split; [done|]. apply list_elem_of_In, filter_In. split; [|done]. by apply list_elem_of_In, elem_of_map_to_list.
Qed.
(** A choice is what the list says from then on, and changes nothing else. *)
Lemma subscription_taken rows name on f : CanonicalFolder name = name ->
  f ∈ names_of (setSubscription name on rows) <-> if bool_decide (f = name) then on = true else f ∈ names_of rows.
Proof.
  intros C. rewrite !names_of_spec, !subscribed_lookup. unfold setSubscription, IsStandardFolder. rewrite C. destruct (decide (f = name)) as [->|F].
  - rewrite (bool_decide_eq_true_2 (name = name)) by done. destruct on; simpl; [by rewrite lookup_insert_eq|]. case_bool_decide as S; simpl.
    + by rewrite lookup_insert_eq.
    + by rewrite lookup_delete_eq.
  - rewrite (bool_decide_eq_false_2 (f = name)) by done. rewrite names_of_spec, subscribed_lookup.
    destruct (negb on && _); [by rewrite lookup_delete_ne|by rewrite lookup_insert_ne].
Qed.
End Fold.
End Folders.

(** * Message-IDs and threads: internal/mail/thread.go, messageid.go, msgid_syntax.go,
    internal/db/repositories/message_thread.go

    A Message-ID is compared in one spelling, [<id>]. A message joins the thread of the
    stored message it answers, looked for by In-Reply-To and then by References from the last
    to the first; one that answers nothing stored goes by its own headers. The rows are those
    of one mailbox, in the order of their ids. *)

Module Threads.
Import GoStrings.
Local Open Scope Z_scope.

(** ** messageid.go, thread.go *)

Definition angle (a : ascii) : bool := bool_decide (a = "<"%char) || bool_decide (a = ">"%char).
Definition CanonicalID (id : string) : string :=
  let id := TrimSpace (Trim angle (TrimSpace id)) in
  if bool_decide (id = "") then "" else "<" +:+ id +:+ ">".
Definition DomainFromAddress (email : string) : string :=
  match cut_last "@"%char email with Some (_, domain) => domain | None => email end.
(** [fmt.Sprintf("<%x-%x-%x-%x-%x@%s>", ...)] of 16 random bytes. *)
Definition GenerateMessageID (random : list Z) (domain : string) : string :=
  let part from to := Codec.EncodeToString (take (to - from) (drop from random)) in
  "<" +:+ part 0%nat 4%nat +:+ "-" +:+ part 4%nat 6%nat +:+ "-" +:+ part 6%nat 8%nat +:+ "-" +:+ part 8%nat 10%nat +:+ "-" +:+
  part 10%nat 16%nat +:+ "@" +:+ domain +:+ ">".

Definition HeaderThreadID (messageID inReplyTo references : string) : string :=
  match Fields references with
  | first :: _ => CanonicalID first
  | [] => if negb (bool_decide (inReplyTo = "")) then CanonicalID inReplyTo else CanonicalID messageID
  end.
Definition ReplyReferences (messageID inReplyTo references : string) : string :=
  let refs := match Fields references with
              | [] => match Fields inReplyTo with [parent] => [parent] | _ => [] end
              | refs => refs
              end in
  Join (List.filter (fun id => negb (bool_decide (id = ""))) (CanonicalID <$> (refs ++ [messageID]))) " ".

(** ** msgid_syntax.go: what is left of the text after what is read, in the place of an index *)

Inductive msgid_error := ErrMsgIDControl | ErrMsgIDSyntax | ErrMsgIDListForm | ErrMsgIDTooLong.
Definition MaxMsgIDLength : Z := 998.

Fixpoint skipWSP (s : string) : string :=
  match s with
  | String a r => if bool_decide (a = " "%char) || bool_decide (a = byte 9) then skipWSP r else s
  | EmptyString => ""
  end.
Definition isAtext (c : ascii) : bool :=
  in_range 97 122 c || in_range 65 90 c || in_range 48 57 c || (128 <=? nat_of_ascii c)%nat
  || bool_decide (c ∈ ["!"%char; "#"%char; "$"%char; "%"%char; "&"%char; "'"%char; "*"%char; "+"%char; "-"%char; "/"%char; "="%char;
                       "?"%char; "^"%char; "_"%char; "`"%char; "{"%char; "|"%char; "}"%char; "~"%char]).
(** [seen]: whether the atom being read has a character already. *)
Fixpoint dotAtomTextEnd (s : string) (seen : bool) : option string :=
  match s with
  | String a r =>
      if isAtext a then dotAtomTextEnd r true
      else if negb seen then None
      else if bool_decide (a = "."%char) then dotAtomTextEnd r false
      else Some s
  | EmptyString => if seen then Some "" else None
  end.
Fixpoint quotedStringEnd (s : string) : option string :=
  match s with
  | String c r =>
      let n := nat_of_ascii c in
      if (n =? 34)%nat then Some r
      else if (n =? 92)%nat then match r with String _ r => quotedStringEnd r | EmptyString => None end
      else if bool_decide (c = " "%char) || (n =? 9)%nat || (n =? 33)%nat || in_range 35 91 c || in_range 93 126 c || (128 <=? n)%nat
           then quotedStringEnd r
      else None
  | EmptyString => None
  end.
Fixpoint domainLiteralEnd (s : string) : option string :=
  match s with
  | String c r =>
      if bool_decide (c = "]"%char) then Some r
      else if in_range 33 90 c || in_range 94 126 c || (128 <=? nat_of_ascii c)%nat then domainLiteralEnd r
      else None
  | EmptyString => None
  end.
Definition expect (c : ascii) (s : option string) : option string :=
  match s with
  | Some (String a r) => if bool_decide (a = c) then Some r else None
  | _ => None
  end.
Definition dquote : ascii := byte 34.
Definition msgIDEnd (s : string) : option string :=
  rest ← expect "<"%char (Some s);
  rest ← expect "@"%char (match rest with
                          | String a r => if bool_decide (a = dquote) then quotedStringEnd r else dotAtomTextEnd rest false
                          | EmptyString => None
                          end);
  expect ">"%char (match rest with
                   | String a r => if bool_decide (a = "["%char) then domainLiteralEnd r else dotAtomTextEnd rest false
                   | EmptyString => None
                   end).
(** Each msg-id takes at least a byte of the text, its fuel. *)
Fixpoint count_ids (fuel : nat) (s : string) (count : Z) : result msgid_error Z :=
  match fuel, s with
  | _, EmptyString => Ok count
  | O, _ => Ok count
  | S fuel, _ =>
      match msgIDEnd s with
      | None => Err ErrMsgIDSyntax
      | Some rest => if MaxMsgIDLength <? len s - len rest then Err ErrMsgIDTooLong else count_ids fuel (skipWSP rest) (count + 1)
      end
  end.
(** [(r < 0x20 && r != '\t') || r == 0x7f || (r >= 0x80 && r < 0xa0)]. *)
Definition refused_rune (r : rune) : bool :=
  match r with
  | Rune (String a EmptyString) => let n := nat_of_ascii a in ((n <? 32) && negb (n =? 9) || (n =? 127))%nat
  | Rune (String a (String b EmptyString)) => (nat_of_ascii a =? 194)%nat && (nat_of_ascii b <? 160)%nat
  | _ => false
  end.
Definition validateMsgIDs (s : string) : result msgid_error Z :=
  if negb (ValidString s) then Err ErrMsgIDSyntax
  else if existsb refused_rune (runes s) then Err ErrMsgIDControl
  else count_ids (String.length s) (skipWSP s) 0.
Definition ValidateMsgID (s : string) : result msgid_error unit :=
  n ← validateMsgIDs s; if n =? 1 then Ok tt else Err ErrMsgIDSyntax.
Definition ValidateMsgIDList (s : string) : result msgid_error unit :=
  match validateMsgIDs s with
  | Err ErrMsgIDSyntax => Err ErrMsgIDListForm
  | Err e => Err e
  | Ok n => if n =? 0 then Err ErrMsgIDListForm else Ok tt
  end.

Example list_accepted : ValidateMsgIDList "<a.b@c> <x@[1.2.3.4]><y@z>" = Ok tt.
Proof. reflexivity. Qed.
Example dots_refused : ValidateMsgID "<a..b@c>" = Err ErrMsgIDSyntax.
Proof. reflexivity. Qed.

(** ** message_thread.go *)

Record Parent := { PMsgID : string; PInReplyTo : string; PReferences : string; PThreadID : string }.
(** The ids a message may answer, without repeats: In-Reply-To, then the references from the
    last. *)
Fixpoint distinct_ids (seen : list string) (candidates : list string) : list string :=
  match candidates with
  | [] => []
  | c :: rest =>
      let id := CanonicalID c in
      if bool_decide (id = "") || bool_decide (id ∈ seen) then distinct_ids seen rest
      else id :: distinct_ids (id :: seen) rest
  end.
Definition candidate_ids (inReplyTo references : string) : list string :=
  distinct_ids [] (inReplyTo :: rev (Fields references)).
Definition spellings (ids : list string) : list string := id ← ids; [id; Trim angle id].
Definition FindMessageParent (rows : list Parent) (inReplyTo references : string) : option Parent :=
  let ordered := candidate_ids inReplyTo references in
  let parents := List.filter (fun p => bool_decide (PMsgID p ∈ spellings ordered)) rows in
  let byID id := head (List.filter (fun p => bool_decide (CanonicalID (PMsgID p) = id)) parents) in
  head (omap byID ordered).
(** The thread of a message that answers [parent]; [None]: it gets a new id for its own. *)
Definition thread_under (parent : option Parent) (messageID inReplyTo references : string) : option string :=
  match parent with
  | Some p => Some (if negb (bool_decide (PThreadID p = "")) then CanonicalID (PThreadID p)
                    else HeaderThreadID (PMsgID p) (PInReplyTo p) (PReferences p))
  | None =>
      let thread := HeaderThreadID messageID inReplyTo references in
      if bool_decide (thread = "") && negb (bool_decide (messageID = "")) then None else Some thread
  end.
Definition references_under (parent : option Parent) (inReplyTo : string) : string :=
  match parent with
  | None => CanonicalID inReplyTo
  | Some p => ReplyReferences (PMsgID p) (PInReplyTo p) (PReferences p)
  end.
(** [fresh]: the id made for a message whose own names nothing. *)
Definition ResolveThreadID (rows : list Parent) (messageID inReplyTo references fresh : string) : string :=
  default fresh (thread_under (FindMessageParent rows inReplyTo references) messageID inReplyTo references).
Definition ReferencesForReply (rows : list Parent) (inReplyTo : string) : string :=
  references_under (FindMessageParent rows inReplyTo "") inReplyTo.
End Threads.

(** * Conversations and msg-ids

    A conversation stays one thread however long it gets; an accepted msg-id list is one
    line of text. *)

Module ThreadsFacts.
Import GoStrings Threads.
Local Open Scope Z_scope.

(** ** The parent is found *)

Lemma head_elem {A} (l : list A) x : head l = Some x -> x ∈ l.
Proof. destruct l; [done|]. intros [= ->]. by left. Qed.
Lemma distinct_first c rest : CanonicalID c <> "" -> exists more, distinct_ids [] (c :: rest) = CanonicalID c :: more.
Proof.
  intros N. cbn [distinct_ids]. rewrite (bool_decide_eq_false_2 (_ = "")) by done. rewrite (bool_decide_eq_false_2 (_ ∈ [])) by by intros I%elem_of_nil.
  by eexists.
Qed.
Lemma spelled_canonical id ids : id ∈ ids -> id ∈ spellings ids.
Proof. intros I. apply list_elem_of_bind. exists id. split; [by left|done]. Qed.

(** A stored message under the id answered is the parent found, or another of that id is. *)
Lemma parent_found rows inReplyTo references p :
  CanonicalID inReplyTo <> "" -> p ∈ rows -> PMsgID p = CanonicalID inReplyTo -> CanonicalID (PMsgID p) = PMsgID p ->
  exists q, FindMessageParent rows inReplyTo references = Some q /\ q ∈ rows /\ CanonicalID (PMsgID q) = CanonicalID inReplyTo.
Proof.
  intros N I E C. unfold FindMessageParent, candidate_ids. destruct (distinct_first inReplyTo (rev (Fields references)) N) as [more ->].
  cbn [omap list_omap]. set (parents := List.filter _ rows).
  assert (P : In p parents).
  { apply filter_In. split; [by apply list_elem_of_In|]. apply bool_decide_eq_true. rewrite E. apply spelled_canonical. by left. }
  set (byID := List.filter (fun p0 => bool_decide (CanonicalID (PMsgID p0) = CanonicalID inReplyTo)) parents).
  assert (B : In p byID) by (apply filter_In; split; [done|]; apply bool_decide_eq_true; congruence).
  destruct byID as [|q more'] eqn:Q; [done|]. exists q. assert (In q byID) as [J F]%filter_In by (rewrite Q; by left).
  apply filter_In in J as [J _]. apply bool_decide_eq_true in F. split_and!; [reflexivity|by apply list_elem_of_In|done].
Qed.

(** ** Conversations *)

Record Incoming := { MessageID : string; InReplyTo : string; References : string; Fresh : string }.
Definition stored (rows : list Parent) (m : Incoming) : Parent := {|
  PMsgID := MessageID m; PInReplyTo := InReplyTo m; PReferences := References m;
  PThreadID := ResolveThreadID rows (MessageID m) (InReplyTo m) (References m) (Fresh m) |}.
Fixpoint store_all (rows : list Parent) (ms : list Incoming) : list Parent :=
  match ms with [] => [] | m :: ms => stored rows m :: store_all (rows ++ [stored rows m]) ms end.
Definition ids_of (rows : list Parent) : list string := (fun p => CanonicalID (PMsgID p)) <$> rows.
(** Each message answers one of those before it, and has a new id of its own. *)
Fixpoint follow (used known : list string) (ms : list Incoming) : Prop :=
  match ms with
  | [] => True
  | m :: ms => CanonicalID (InReplyTo m) ∈ known /\ MessageID m <> "" /\ CanonicalID (MessageID m) = MessageID m /\ MessageID m ∉ used /\
               follow (used ++ [MessageID m]) (MessageID m :: known) ms
  end.
(** The messages so far, of thread [T]. *)
Definition conversation (T : string) (rows : list Parent) (known : list string) : Prop :=
  forall id, id ∈ known -> id <> "" /\ CanonicalID id = id /\ (exists p, p ∈ rows /\ PMsgID p = id) /\
    forall p, p ∈ rows -> CanonicalID (PMsgID p) = id -> PThreadID p = T.

Lemma joins T rows known m : CanonicalID T = T -> T <> "" -> conversation T rows known -> CanonicalID (InReplyTo m) ∈ known ->
  PThreadID (stored rows m) = T.
Proof.
  intros C N V K. destruct (V _ K) as (N' & C' & (p & I & E) & A). cbn. unfold ResolveThreadID.
  destruct (parent_found rows (InReplyTo m) (References m) p) as (q & -> & J & Q); [done|done|done|by rewrite E|].
  cbn [thread_under default]. rewrite (A q J Q), bool_decide_eq_false_2 by done. done.
Qed.

Definition mail1 : Incoming := {| MessageID := "<2@x>"; InReplyTo := "<1@x>"; References := "<1@x>"; Fresh := "<f@x>" |}.
Definition mail2 : Incoming := {| MessageID := "<3@x>"; InReplyTo := " 2@x "; References := "<0@elsewhere> <2@x>"; Fresh := "<f@x>" |}.
Definition root1 : Parent := {| PMsgID := "<1@x>"; PInReplyTo := ""; PReferences := ""; PThreadID := "<1@x>" |}.

(** ** An accepted list is one line *)

Definition plain_byte (a : ascii) : bool := MailAddress.not_ctl a || bool_decide (a = byte 9).
Lemma accepted_runes s n : validateMsgIDs s = Ok n -> ValidString s = true /\ existsb refused_rune (runes s) = false.
Proof. unfold validateMsgIDs. destruct (ValidString s); [|done]. simpl. destruct (existsb _ _); [done|]. done. Qed.
Lemma rune_plain r : MailAddress.high_or_clean r -> r <> Bad -> refused_rune r = false ->
  match r with Rune c => sforall plain_byte c = true | Bad => True end.
Proof.
  destruct r as [c|]; [|done]. destruct c as [|a [|b c]]; [done| |].
  - cbn [refused_rune sforall MailAddress.high_or_clean]. intros A _ F. rewrite andb_true_r. unfold plain_byte, MailAddress.not_ctl, MailAddress.is_ctl.
    apply orb_false_iff in F as [F1 F2]. rewrite F2, orb_false_r. destruct (nat_of_ascii a <? 32)%nat; [|done]. simpl in *.
    apply negb_false_iff, Nat.eqb_eq in F1. apply bool_decide_eq_true. by rewrite <- (ascii_nat_embedding a), F1.
  - intros A _ _. change (sforall MailAddress.not_ctl (String a (String b c)) = true) in A.
    eapply sforall_impl; [|exact A]. intros x X. unfold plain_byte. by rewrite X.
Qed.
(** A value accepted as In-Reply-To or References, or as a Message-ID, holds no line break nor any other control byte but
    a tab, so that it can never become more than one header line. *)
Theorem accepted_ids_are_one_line s : ValidateMsgIDList s = Ok tt \/ ValidateMsgID s = Ok tt -> sforall plain_byte s = true.
Proof.
  intros V. assert (A : exists n, validateMsgIDs s = Ok n).
  { unfold ValidateMsgIDList, ValidateMsgID in V. destruct (validateMsgIDs s) as [n|[]]; [by exists n|by destruct V..]. }
  destruct A as [n [Vs E]%accepted_runes]. destruct (CodecFacts.runes_valid s Vs) as [_ C].
  assert (K : sforall plain_byte (concat_all (write_rune <$> runes s)) = true); [|by rewrite C in K].
  apply sforall_concat_all, Forall_fmap, Forall_forall. intros r I. unfold ValidString in Vs.
  rewrite forallb_elem in Vs. specialize (Vs r I). apply bool_decide_eq_true in Vs. rewrite existsb_false in E.
  pose proof (MailAddress.runes_clean s) as L. rewrite Forall_forall in L. pose proof (rune_plain r (L r I) Vs (E r I)) as K. by destruct r.
Qed.

(** The fuel is enough: a msg-id is at least a byte. *)
Lemma dot_end_shorter s seen r : dotAtomTextEnd s seen = Some r -> (String.length r <= String.length s)%nat.
Proof.
  revert seen. induction s as [|a s IH]; intros seen; cbn; [destruct seen; [by intros [= <-]|done]|].
  destruct (isAtext a); [intros E; apply IH in E; lia|]. destruct seen; [|done]. simpl.
  case_bool_decide; [intros E; apply IH in E; lia|]. intros [= <-]. simpl. lia.
Qed.
Lemma quoted_end_shorter s r : quotedStringEnd s = Some r -> (String.length r <= String.length s)%nat.
Proof.
  revert r. induction s as [s IH] using CodecFacts.list_ind_len. intros r. destruct s as [|c s]; [done|]. cbn [quotedStringEnd].
  destruct (_ =? 34)%nat; [intros [= <-]; cbn; lia|]. destruct (_ =? 92)%nat.
  - destruct s as [|d s]; [done|]. intros E. apply IH in E; [|cbn; lia]. cbn. lia.
  - destruct (_ || _); [|done]. intros E. apply IH in E; [|cbn; lia]. cbn. lia.
Qed.
Lemma literal_end_shorter s r : domainLiteralEnd s = Some r -> (String.length r <= String.length s)%nat.
Proof.
  induction s as [|c s IH]; [done|]. cbn. case_bool_decide; [intros [= <-]; lia|]. destruct (_ || _); [|done].
  intros E. apply IH in E. lia.
Qed.
Lemma expect_shorter c s r : expect c s = Some r -> exists t, s = Some t /\ (String.length r < String.length t)%nat.
Proof. destruct s as [[|a t]|]; [done| |done]. cbn. case_bool_decide; [|done]. intros [= <-]. eexists. split; [done|]. cbn. lia. Qed.
Lemma msg_id_shorter s r : msgIDEnd s = Some r -> (String.length r < String.length s)%nat.
Proof.
  unfold msgIDEnd. intros (s1 & (t & [= <-] & L1)%expect_shorter & (s2 & (t2 & E2 & L2)%expect_shorter & (t3 & E3 & L3)%expect_shorter)%bind_Some)%bind_Some.
  assert (String.length t2 <= String.length s1)%nat.
  { destruct s1 as [|a s1]; [done|]. case_bool_decide; [apply quoted_end_shorter in E2|apply dot_end_shorter in E2]; cbn in *; lia. }
  assert (String.length t3 <= String.length s2)%nat.
  { destruct s2 as [|a s2]; [done|]. case_bool_decide; [apply literal_end_shorter in E3|apply dot_end_shorter in E3]; cbn in *; lia. }
  lia.
Qed.
Lemma skip_shorter s : (String.length (skipWSP s) <= String.length s)%nat.
Proof. induction s as [|a s IH]; cbn; [done|]. destruct (_ || _); cbn; lia. Qed.
Lemma count_fuel f f' s n : (String.length s <= f)%nat -> (String.length s <= f')%nat -> count_ids f s n = count_ids f' s n.
Proof.
  revert f' s n. induction f as [|f IH]; intros f' s n L L'; (destruct s as [|a s]; [by destruct f'|]); [cbn in L; lia|].
  destruct f' as [|f']; [cbn in L'; lia|]. cbn [count_ids]. destruct (msgIDEnd _) as [r|] eqn:E; [|done].
  destruct (_ <? _); [done|]. apply msg_id_shorter in E. pose proof (skip_shorter r). apply IH; cbn in *; lia.
Qed.
End ThreadsFacts.
