(* ===== verification/MessageStore.v ===== *)
(** * Messages in the database

    The tables the mailbox handlers work on (internal/db/models: message.go, pipeline.go's
    Attachment and Quarantine, mailbox.go's quota, quota.go, thread_snooze.go, thread_due.go,
    folder_subscription.go, queue.go's rows of a redirect, scheduled_send.go) and the
    statements and transactions of
    internal/api/handlers/messages.go, pipeline.go, thread_snooze.go, thread_due.go,
    scheduled_send.go and internal/digest/quota.go on them. [M] is every statement a handler
    makes and [exec] what the database answers when it does not fail; a transaction is one
    function, done whole or not at all. Messages are in the order of their ids. *)

From S2P Require Import Prelude GoTime GoStrings Pipeline Emails StorageQuota Threads.
From Stdlib Require Import Ascii.
Import GoTime GoStrings Threads.
Local Open Scope Z_scope.

Module MessageStore.

(** ** The rows *)

(** A jsonb column. *)
Inductive jsonb := JNull | JString (s : string) | JAtom (text : string) | JArray (l : list jsonb) | JObject (text : string).
(** [json.Marshal] of a list of strings. *)
Definition marshal_strings (l : list string) : jsonb := JArray (JString <$> l).
(** What [_ = json.Unmarshal(column, &list)] leaves in the list: an element that is no
    string is left empty. *)
Definition unmarshal_strings (j : jsonb) : list string :=
  match j with
  | JArray l => (fun v => match v with JString s => s | _ => "" end) <$> l
  | _ => []
  end.

Record Content := {
  Sender : string;
  SenderName : string;
  RecipientsTo : jsonb;
  RecipientsCc : jsonb;
  Subject : string;
  BodyText : string;
  BodyHTML : string
}.
Record Source := {
  RawMessage : string;
  AuthResults : list Pipeline.AuthResult;
  Calendar : list Emails.CalendarEvent;
  ReceivedTLS : option bool;
  TLSVersion : string;
  RequireTLS : bool;
  RuleClass : string
}.
Definition no_source : Source := {|
  RawMessage := ""; AuthResults := []; Calendar := []; ReceivedTLS := None; TLSVersion := ""; RequireTLS := false; RuleClass := "" |}.
Record Flags := {
  IsAnswered : bool;
  IsRead : bool;
  IsFlagged : bool;
  IsStarred : bool;
  Keywords : list string;
  IMAPDeleted : bool;
  IsDraft : bool
}.
Definition no_flags : Flags := {|
  IsAnswered := false; IsRead := false; IsFlagged := false; IsStarred := false; Keywords := []; IMAPDeleted := false; IsDraft := false |}.
(** The Message-ID, In-Reply-To, References and thread are [Ids]. *)
Record Message := {
  ID : Z;
  MailboxID : Z;
  Folder : string;
  Ids : Threads.Parent;
  Parts : Content;
  Stored : Source;
  Marks : Flags;
  SizeBytes : Z;
  HasAttachments : bool;
  IsDeleted : bool;
  ReceivedAt : Time
}.
Definition thread (m : Message) : string := PThreadID (Ids m).
Record Attachment := { AtMessage : Z; AtSize : Z; AtFilename : string; AtRef : string }.
Record Held := {
  HlID : Z; HlMailbox : Z; HlSender : string; HlSubject : string; BodyPreview : string; HlRaw : string;
  QuarantineReason : string; HlReceivedAt : Time; HlExpiresAt : Time; Released : bool
}.
Record QuotaUsage := { SubjectBytes : Z; BodyBytes : Z; AttachmentBytes : Z; MessageCount : Z }.
Record EventVersion := {
  EvMailbox : Z; EvUID : string; EvSequence : Z; EvMethod : string; EvStatus : string; EvSummary : string; EvStart : option Time;
  EvEnd : option Time; EvOrganizer : string; EvMessage : Z
}.
(** The columns of a queue row that a delivery or a send sets. *)
Record Queued := {
  QuMessage : option Z; QuSender : string; QuSendingDomain : string; QuRecipient : string; QuDomain : string; QuRaw : string;
  QuRequireTLS : bool; QuARCResults : string; QuARCChain : string
}.
(** [FindMailboxByAddress] and [RequireMailboxReceive] are in Mailboxes and Recipients; what
    is kept here of a mailbox is its quota row and whether it is active. *)
Record Tables := {
  messages : list Message;
  next_message : Z;
  attachments : list Attachment;
  quotas : StorageQuota.Table;
  active : gset Z;
  usage : gmap Z QuotaUsage;
  held : list Held;
  next_held : Z;
  versions : list EventVersion;
  queued : list Queued;
  snoozes : gmap (Z * string) (option Time);
  dues : gmap (Z * string) (option (Time * string));
  choices : gmap Z (gmap string bool)
}.
Definition with_messages (l : list Message) (t : Tables) : Tables := {|
  messages := l; next_message := next_message t; attachments := attachments t; quotas := quotas t; active := active t;
  usage := usage t; held := held t; next_held := next_held t; versions := versions t; queued := queued t; snoozes := snoozes t;
  dues := dues t; choices := choices t |}.
Definition with_attachments (l : list Attachment) (t : Tables) : Tables := {|
  messages := messages t; next_message := next_message t; attachments := l; quotas := quotas t; active := active t;
  usage := usage t; held := held t; next_held := next_held t; versions := versions t; queued := queued t; snoozes := snoozes t;
  dues := dues t; choices := choices t |}.
Definition with_quotas (q : StorageQuota.Table) (t : Tables) : Tables := {|
  messages := messages t; next_message := next_message t; attachments := attachments t; quotas := q; active := active t;
  usage := usage t; held := held t; next_held := next_held t; versions := versions t; queued := queued t; snoozes := snoozes t;
  dues := dues t; choices := choices t |}.
Definition with_usage (u : gmap Z QuotaUsage) (t : Tables) : Tables := {|
  messages := messages t; next_message := next_message t; attachments := attachments t; quotas := quotas t; active := active t;
  usage := u; held := held t; next_held := next_held t; versions := versions t; queued := queued t; snoozes := snoozes t;
  dues := dues t; choices := choices t |}.
Definition with_held (l : list Held) (next : Z) (t : Tables) : Tables := {|
  messages := messages t; next_message := next_message t; attachments := attachments t; quotas := quotas t; active := active t;
  usage := usage t; held := l; next_held := next; versions := versions t; queued := queued t; snoozes := snoozes t;
  dues := dues t; choices := choices t |}.
Definition with_versions (l : list EventVersion) (t : Tables) : Tables := {|
  messages := messages t; next_message := next_message t; attachments := attachments t; quotas := quotas t; active := active t;
  usage := usage t; held := held t; next_held := next_held t; versions := l; queued := queued t; snoozes := snoozes t;
  dues := dues t; choices := choices t |}.
Definition with_queued (l : list Queued) (t : Tables) : Tables := {|
  messages := messages t; next_message := next_message t; attachments := attachments t; quotas := quotas t; active := active t;
  usage := usage t; held := held t; next_held := next_held t; versions := versions t; queued := l; snoozes := snoozes t;
  dues := dues t; choices := choices t |}.
Definition with_snoozes (s : gmap (Z * string) (option Time)) (t : Tables) : Tables := {|
  messages := messages t; next_message := next_message t; attachments := attachments t; quotas := quotas t; active := active t;
  usage := usage t; held := held t; next_held := next_held t; versions := versions t; queued := queued t; snoozes := s;
  dues := dues t; choices := choices t |}.
Definition with_dues (d : gmap (Z * string) (option (Time * string))) (t : Tables) : Tables := {|
  messages := messages t; next_message := next_message t; attachments := attachments t; quotas := quotas t; active := active t;
  usage := usage t; held := held t; next_held := next_held t; versions := versions t; queued := queued t; snoozes := snoozes t;
  dues := d; choices := choices t |}.
Definition with_choices (c : gmap Z (gmap string bool)) (t : Tables) : Tables := {|
  messages := messages t; next_message := next_message t; attachments := attachments t; quotas := quotas t; active := active t;
  usage := usage t; held := held t; next_held := next_held t; versions := versions t; queued := queued t; snoozes := snoozes t;
  dues := dues t; choices := c |}.

(** ** Changes of a row *)

Definition in_folder (f : string) (m : Message) : Message := {|
  ID := ID m; MailboxID := MailboxID m; Folder := f; Ids := Ids m; Parts := Parts m; Stored := Stored m; Marks := Marks m;
  SizeBytes := SizeBytes m; HasAttachments := HasAttachments m; IsDeleted := IsDeleted m; ReceivedAt := ReceivedAt m |}.
Definition with_marks (f : Flags) (m : Message) : Message := {|
  ID := ID m; MailboxID := MailboxID m; Folder := Folder m; Ids := Ids m; Parts := Parts m; Stored := Stored m; Marks := f;
  SizeBytes := SizeBytes m; HasAttachments := HasAttachments m; IsDeleted := IsDeleted m; ReceivedAt := ReceivedAt m |}.
Definition under_id (id : Z) (m : Message) : Message := {|
  ID := id; MailboxID := MailboxID m; Folder := Folder m; Ids := Ids m; Parts := Parts m; Stored := Stored m; Marks := Marks m;
  SizeBytes := SizeBytes m; HasAttachments := HasAttachments m; IsDeleted := IsDeleted m; ReceivedAt := ReceivedAt m |}.
Definition received (at_ : Time) (m : Message) : Message := {|
  ID := ID m; MailboxID := MailboxID m; Folder := Folder m; Ids := Ids m; Parts := Parts m; Stored := Stored m; Marks := Marks m;
  SizeBytes := SizeBytes m; HasAttachments := HasAttachments m; IsDeleted := IsDeleted m; ReceivedAt := at_ |}.
(** The map of updates of updateMessage. *)
Record Changes := {
  NewKeywords : option (list string);
  NewIMAPDeleted : option bool;
  NewIsAnswered : option bool;
  NewIsRead : option bool;
  NewIsFlagged : option bool;
  NewIsStarred : option bool;
  NewIsDraft : option bool;
  NewFolder : option string
}.
Definition is_some {A} (o : option A) : bool := match o with Some _ => true | None => false end.
Definition has_changes (c : Changes) : bool :=
  is_some (NewKeywords c) || is_some (NewIMAPDeleted c) || is_some (NewIsAnswered c) || is_some (NewIsRead c) || is_some (NewIsFlagged c)
  || is_some (NewIsStarred c) || is_some (NewIsDraft c) || is_some (NewFolder c).
Definition changed (c : Changes) (m : Message) : Message :=
  let f := Marks m in
  in_folder (default (Folder m) (NewFolder c))
    (with_marks {| IsAnswered := default (IsAnswered f) (NewIsAnswered c); IsRead := default (IsRead f) (NewIsRead c);
                   IsFlagged := default (IsFlagged f) (NewIsFlagged c); IsStarred := default (IsStarred f) (NewIsStarred c);
                   Keywords := default (Keywords f) (NewKeywords c); IMAPDeleted := default (IMAPDeleted f) (NewIMAPDeleted c);
                   IsDraft := default (IsDraft f) (NewIsDraft c) |} m).
(** The map of updates of updateDraft, with the mailbox it moves to. *)
Record DraftChanges := {
  DrMailbox : Z;
  DrFrom : option string;
  DrTo : option (list string);
  DrCc : option (list string);
  DrSubject : option string;
  DrBodyText : option string;
  DrBodyHTML : option string;
  DrInReplyTo : option string;
  DrReferences : option string;
  DrThread : option string
}.
Definition redrafted (c : DraftChanges) (m : Message) : Message :=
  let p := Parts m in let i := Ids m in
  {| ID := ID m; MailboxID := DrMailbox c; Folder := Folder m;
     Ids := {| PMsgID := PMsgID i; PInReplyTo := default (PInReplyTo i) (DrInReplyTo c); PReferences := default (PReferences i) (DrReferences c);
               PThreadID := default (PThreadID i) (DrThread c) |};
     Parts := {| Sender := default (Sender p) (DrFrom c); SenderName := SenderName p;
                 RecipientsTo := default (RecipientsTo p) (marshal_strings <$> DrTo c);
                 RecipientsCc := default (RecipientsCc p) (marshal_strings <$> DrCc c);
                 Subject := default (Subject p) (DrSubject c); BodyText := default (BodyText p) (DrBodyText c);
                 BodyHTML := default (BodyHTML p) (DrBodyHTML c) |};
     Stored := Stored m; Marks := Marks m; SizeBytes := SizeBytes m; HasAttachments := HasAttachments m; IsDeleted := IsDeleted m;
     ReceivedAt := ReceivedAt m |}.
Definition released (h : Held) : Held := {|
  HlID := HlID h; HlMailbox := HlMailbox h; HlSender := HlSender h; HlSubject := HlSubject h; BodyPreview := BodyPreview h; HlRaw := HlRaw h;
  QuarantineReason := QuarantineReason h; HlReceivedAt := HlReceivedAt h; HlExpiresAt := HlExpiresAt h; Released := true |}.

(** ** Selecting *)

Definition update {A} (where_ : A -> bool) (set_ : A -> A) (l : list A) : list A := map (fun a => if where_ a then set_ a else a) l.
Definition find_message (id : Z) (t : Tables) : option Message := List.find (fun m => ID m =? id) (messages t).
Definition of_mailbox (mb : Z) (m : Message) : bool := MailboxID m =? mb.
Definition of_folder (mb : Z) (folder : string) (m : Message) : bool := of_mailbox mb m && bool_decide (Folder m = folder).
Definition of_thread (mb : Z) (thread_id : string) (m : Message) : bool :=
  of_mailbox mb m && bool_decide (thread m = thread_id) && negb (IsDeleted m).
Definition sum (l : list Z) : Z := foldr Z.add 0 l.
Definition attached (id : Z) (t : Tables) : list Attachment := List.filter (fun a => AtMessage a =? id) (attachments t).
Definition attached_bytes (id : Z) (t : Tables) : Z := sum (AtSize <$> attached id t).
(** [visibleThreads]. *)
Definition visible_thread (t : Tables) (m : Message) : bool :=
  match snoozes t !! (MailboxID m, thread m) with Some (Some _) => false | _ => true end.
(** What a listing of a folder shows. *)
Definition listed (mb : Z) (folder : string) (imap_deleted snoozed : bool) (t : Tables) (m : Message) : bool :=
  of_folder mb folder m && negb (IsDeleted m) && (imap_deleted || negb (IMAPDeleted (Marks m))) && (snoozed || visible_thread t m).
(** [ORDER BY received_at DESC, id DESC]. *)
Definition newer_first (x y : Message) : Prop := ReceivedAt y < ReceivedAt x \/ (ReceivedAt x = ReceivedAt y /\ ID y <= ID x).
#[export] Instance newer_first_dec x y : Decision (newer_first x y).
Proof. unfold newer_first. apply _. Defined.
Definition older (at_ : Time) (id : Z) (m : Message) : bool := (ReceivedAt m <? at_) || ((ReceivedAt m =? at_) && (ID m <? id)).
Definition page (mb : Z) (folder : string) (imap_deleted snoozed : bool) (limit : nat) (after : option (Time * Z)) (t : Tables) : list Message :=
  take limit (merge_sort newer_first
    (List.filter (fun m => listed mb folder imap_deleted snoozed t m && match after with Some (at_, id) => older at_ id m | None => true end) (messages t))).
Definition oldest_first (x y : Message) : Prop := ReceivedAt x <= ReceivedAt y.
#[export] Instance oldest_first_dec x y : Decision (oldest_first x y).
Proof. unfold oldest_first. apply _. Defined.
Definition live_mail (m : Message) : bool := negb (IsDeleted m) && negb (IMAPDeleted (Marks m)).
(** GROUP BY folder ORDER BY folder: a folder's live messages, and the unread among them. *)
Definition folder_names (mb : Z) (t : Tables) : list string :=
  merge_sort Folders.byte_le (elements (list_to_set (Folder <$> List.filter (of_mailbox mb) (messages t)) : gset string)).
Definition shown (mb : Z) (folder : string) (t : Tables) : list Message :=
  List.filter (fun m => of_folder mb folder m && live_mail m && visible_thread t m) (messages t).
Definition count {A} (l : list A) : Z := Z.of_nat (length l).
Definition summary (mb : Z) (t : Tables) (folder : string) : string * Z * Z :=
  (folder, count (shown mb folder t), count (List.filter (fun m => negb (IsRead (Marks m))) (shown mb folder t))).
Definition held_for (mb : Z) (h : Held) : bool := (HlMailbox h =? mb) && negb (Released h).
Definition newest_held (x y : Held) : Prop := HlReceivedAt y <= HlReceivedAt x.
#[export] Instance newest_held_dec x y : Decision (newest_held x y).
Proof. unfold newest_held. apply _. Defined.
(** [ORDER BY uid, sequence DESC]. *)
Definition by_uid (x y : EventVersion) : Prop :=
  (EvUID x <> EvUID y /\ Folders.byte_le (EvUID x) (EvUID y)) \/ (EvUID x = EvUID y /\ EvSequence y <= EvSequence x).
#[export] Instance by_uid_dec x y : Decision (by_uid x y).
Proof. unfold by_uid. apply _. Defined.
Definition parents (mb : Z) (t : Tables) : list Threads.Parent := Ids <$> List.filter (of_mailbox mb) (messages t).

(** ** Storage *)

(** [GREATEST(quota_used_bytes - n, 0)]. *)
Definition give_back (mb n : Z) (t : Tables) : Tables :=
  if 0 <? n then
    with_quotas (update (fun q => StorageQuota.ID q =? mb)
      (fun q => {| StorageQuota.ID := StorageQuota.ID q; StorageQuota.OwnerID := StorageQuota.OwnerID q;
                   StorageQuota.QuotaBytes := StorageQuota.QuotaBytes q;
                   StorageQuota.QuotaUsedBytes := Z.max (StorageQuota.QuotaUsedBytes q - n) 0 |}) (quotas t)) t
  else t.
Definition set_used (mb n : Z) (t : Tables) : Tables :=
  with_quotas (update (fun q => StorageQuota.ID q =? mb)
    (fun q => {| StorageQuota.ID := StorageQuota.ID q; StorageQuota.OwnerID := StorageQuota.OwnerID q;
                 StorageQuota.QuotaBytes := StorageQuota.QuotaBytes q; StorageQuota.QuotaUsedBytes := n |}) (quotas t)) t.
Definition quota_row (mb : Z) (t : Tables) : option StorageQuota.Mailbox := StorageQuota.row (quotas t) mb.
(** A stored row takes the next id, and the database's clock when it has no date. *)
Definition insert (at_ : Time) (m : Message) (t : Tables) : Message * Tables :=
  let m := under_id (next_message t) (if IsZero (ReceivedAt m) then received at_ m else m) in
  (m, {| messages := messages t ++ [m]; next_message := next_message t + 1; attachments := attachments t; quotas := quotas t;
         active := active t; usage := usage t; held := held t; next_held := next_held t; versions := versions t;
         queued := queued t; snoozes := snoozes t; dues := dues t; choices := choices t |}).
(** deleteMessage's transaction, for the row as it was loaded: whether a row went. *)
Definition purge (m : Message) (t : Tables) : bool * Tables :=
  let reclaim := if IsDeleted m then 0 else SizeBytes m + (if HasAttachments m then attached_bytes (ID m) t else 0) in
  let t := if HasAttachments m then with_attachments (List.filter (fun a => negb (AtMessage a =? ID m)) (attachments t)) t else t in
  if existsb (fun x => ID x =? ID m) (messages t)
  then (true, give_back (MailboxID m) reclaim (with_messages (List.filter (fun x => negb (ID x =? ID m)) (messages t)) t))
  else (false, t).
(** deleteFolder's transaction. *)
Definition drop_folder (mb : Z) (folder : string) (t : Tables) : bool * Tables :=
  let gone := List.filter (of_folder mb folder) (messages t) in
  match gone with
  | [] => (false, t)
  | _ => (true, give_back mb (sum (SizeBytes <$> gone)) (with_messages (List.filter (fun m => negb (of_folder mb folder m)) (messages t)) t))
  end.
(** The transaction that stores a delivered message, with what it carries: its attachments
    and calendar versions take its id. [SizeBytes] is the subject's and bodies' bytes. *)
Definition charge_usage (mb : Z) (m : Message) (att : Z) (t : Tables) : Tables :=
  with_usage (alter (fun u => {| SubjectBytes := SubjectBytes u + len (Subject (Parts m));
                                 BodyBytes := BodyBytes u + (len (BodyText (Parts m)) + len (BodyHTML (Parts m)));
                                 AttachmentBytes := AttachmentBytes u + att; MessageCount := MessageCount u + 1 |}) mb (usage t)) t.
Definition attached_to (id : Z) (a : Attachment) : Attachment := {|
  AtMessage := id; AtSize := AtSize a; AtFilename := AtFilename a; AtRef := AtRef a |}.
Definition version_of (id : Z) (e : EventVersion) : EventVersion := {|
  EvMailbox := EvMailbox e; EvUID := EvUID e; EvSequence := EvSequence e; EvMethod := EvMethod e; EvStatus := EvStatus e;
  EvSummary := EvSummary e; EvStart := EvStart e; EvEnd := EvEnd e; EvOrganizer := EvOrganizer e; EvMessage := id |}.
Definition deliver (at_ : Time) (m : Message) (atts : list Attachment) (events : list EventVersion) (t : Tables)
    : result StorageQuota.quota_error (Message * Tables) :=
  let att := sum (AtSize <$> atts) in
  quotas' ← StorageQuota.ReserveStorage (fun _ => false) (quotas t) (quotas t) (MailboxID m) (SizeBytes m + att);
  let '(stored, t) := insert at_ m (with_quotas quotas' t) in
  let t := with_versions (versions t ++ (version_of (ID stored) <$> events)) t in
  let t := with_attachments (attachments t ++ (attached_to (ID stored) <$> atts)) t in
  Ok (stored, charge_usage (MailboxID m) m att t).
(** digest/quota.go: the two sums of reconcile. *)
Definition live_of (mb : Z) (t : Tables) : list Message := List.filter (fun m => of_mailbox mb m && negb (IsDeleted m)) (messages t).
Definition message_bytes (mb : Z) (t : Tables) : Z := sum (SizeBytes <$> live_of mb t).
Definition attachment_bytes (mb : Z) (t : Tables) : Z := sum ((fun m => attached_bytes (ID m) t) <$> live_of mb t).
Definition active_accounts (t : Tables) : list (Z * Z) :=
  (fun q => (StorageQuota.ID q, StorageQuota.QuotaUsedBytes q)) <$> List.filter (fun q => bool_decide (StorageQuota.ID q ∈ active t)) (quotas t).
(** pipeline.go: releaseQuarantine's transaction; [make] makes the message from the held row
    and the mailbox's rows. *)
Definition release (at_ : Time) (mb mid : Z) (make : Held -> list Threads.Parent -> Message) (t : Tables)
    : option (Message * Tables) :=
  item ← List.find (fun h => (HlID h =? mid) && (HlMailbox h =? mb)) (held t);
  let t := with_held (update (fun h => HlID h =? HlID item) released (held t)) (next_held t) t in
  let '(m, t) := insert at_ (make item (parents mb t)) t in
  _ ← quota_row mb t;
  Some (m, with_quotas (StorageQuota.charge mb (SizeBytes m) <$> quotas t) t).

(** ** The statements *)

Inductive M : Type -> Type :=
| MLoad (id : Z) : M (option Message)
| MPage (mb : Z) (folder : string) (imap_deleted snoozed : bool) (limit : nat) (after : option (Time * Z)) : M (list Message)
| MCount (mb : Z) (folder : string) (imap_deleted snoozed : bool) : M Z
| MUpdate (id : Z) (c : Changes) : M (option Message)
| MPurge (m : Message) : M bool
| MTrash (id : Z) : M unit
| MFolders (mb : Z) : M (list (string * Z * Z))
| MFolderRows (mb : Z) (folder : string) : M Z
| MCreate (m : Message) : M Message
| MRename (mb : Z) (from to : string) : M Z
| MDeleteFolder (mb : Z) (folder : string) : M bool
| MQuota (mb : Z) : M (option StorageQuota.Mailbox)
| MMessages (mb : Z) : M Z
| MParent (mb : Z) (inReplyTo references : string) : M (option Threads.Parent)
| MDraft (id : Z) : M (option Message)
| MRedraft (id mb : Z) (c : DraftChanges) : M (option Message)
| MThread (mb : Z) (thread_id : string) : M (list Message)
| MThreadRows (mb : Z) (thread_id : string) : M Z
| MSnooze (mb : Z) (thread_id : string) (until : option Time) : M unit
| MReturnDue (now : Time) : M (list (Z * string))
| MDue (mb : Z) (thread_id : string) (due : option (Time * string)) : M unit
| MChoices (mb : Z) : M (gmap string bool)
| MChoose (mb : Z) (name : string) (on : bool) : M unit
| MDeliver (m : Message) (atts : list Attachment) (events : list EventVersion) : M (result StorageQuota.quota_error Message)
| MHold (h : Held) : M unit
| MQueue (rows : list Queued) : M unit
| MUnread (mb : Z) : M Z
| MRelease (mb mid : Z) (make : Held -> list Threads.Parent -> Message) : M (option Message)
| MUnhold (mb mid : Z) : M bool
| MHeldCount (mb : Z) : M Z
| MHeldPage (mb : Z) (limit offset : nat) : M (list Held)
| MVersions (mb : Z) : M (list EventVersion)
| MAccounts : M (list (Z * Z))
| MMessageBytes (mb : Z) : M Z
| MAttachmentBytes (mb : Z) : M Z
| MSetUsed (mb n : Z) : M unit.

Section Exec.
Context `{Unicode}.

(** A row is updated by its id; one that is gone since is not. *)
Definition exec (at_ : Time) {X} (m : M X) (t : Tables) : X * Tables :=
  match m in M X return X * Tables with
  | MLoad id => (find_message id t, t)
  | MPage mb folder imap_deleted snoozed limit after => (page mb folder imap_deleted snoozed limit after t, t)
  | MCount mb folder imap_deleted snoozed => (count (List.filter (listed mb folder imap_deleted snoozed t) (messages t)), t)
  | MUpdate id c =>
      let t' := with_messages (update (fun m => ID m =? id) (changed c) (messages t)) t in
      (find_message id t', t')
  | MPurge m => purge m t
  | MTrash id => (tt, with_messages (update (fun m => ID m =? id) (in_folder "Trash") (messages t)) t)
  | MFolders mb => (summary mb t <$> folder_names mb t, t)
  | MFolderRows mb folder => (count (List.filter (of_folder mb folder) (messages t)), t)
  | MCreate m => insert at_ m t
  | MRename mb from to =>
      (count (List.filter (of_folder mb from) (messages t)), with_messages (update (of_folder mb from) (in_folder to) (messages t)) t)
  | MDeleteFolder mb folder => drop_folder mb folder t
  | MQuota mb => (quota_row mb t, t)
  | MMessages mb => (count (List.filter (of_mailbox mb) (messages t)), t)
  | MParent mb inReplyTo references => (FindMessageParent (parents mb t) inReplyTo references, t)
  | MDraft id => (List.find (fun m => (ID m =? id) && IsDraft (Marks m)) (messages t), t)
  | MRedraft id mb c =>
      let mine m := (ID m =? id) && IsDraft (Marks m) && (MailboxID m =? mb) in
      let t' := with_messages (update mine (redrafted c) (messages t)) t in
      (if existsb mine (messages t) then List.find (fun m => (ID m =? id) && IsDraft (Marks m) && (MailboxID m =? DrMailbox c)) (messages t') else None, t')
  | MThread mb thread_id =>
      (merge_sort oldest_first (List.filter (fun m => of_thread mb thread_id m && negb (IMAPDeleted (Marks m))) (messages t)), t)
  | MThreadRows mb thread_id => (count (List.filter (of_thread mb thread_id) (messages t)), t)
  | MSnooze mb thread_id until => (tt, with_snoozes (<[(mb, thread_id) := until]> (snoozes t)) t)
  | MReturnDue now =>
      let due (s : option Time) := match s with Some u => u <=? now | None => false end in
      (fst <$> List.filter (fun e => due (snd e)) (map_to_list (snoozes t)),
       with_snoozes ((fun s => if due s then None else s) <$> snoozes t) t)
  | MDue mb thread_id due => (tt, with_dues (<[(mb, thread_id) := due]> (dues t)) t)
  | MChoices mb => (default ∅ (choices t !! mb), t)
  | MChoose mb name on => (tt, with_choices (<[mb := Folders.setSubscription name on (default ∅ (choices t !! mb))]> (choices t)) t)
  | MDeliver m atts events =>
      match deliver at_ m atts events t with
      | Ok (m, t') => (Ok m, t')
      | Err e => (Err e, t)
      end
  | MHold h =>
      (tt, with_held (held t ++ [{| HlID := next_held t; HlMailbox := HlMailbox h; HlSender := HlSender h; HlSubject := HlSubject h;
                                    BodyPreview := BodyPreview h; HlRaw := HlRaw h; QuarantineReason := QuarantineReason h;
                                    HlReceivedAt := HlReceivedAt h; HlExpiresAt := HlExpiresAt h; Released := Released h |}])
                     (next_held t + 1) t)
  | MQueue rows => (tt, with_queued (queued t ++ rows) t)
  | MUnread mb =>
      (count (List.filter (fun m => of_folder mb "INBOX" m && live_mail m && negb (IsRead (Marks m))) (messages t)), t)
  | MRelease mb mid make =>
      match release at_ mb mid make t with
      | Some (m, t') => (Some m, t')
      | None => (None, t)
      end
  | MUnhold mb mid =>
      (existsb (fun h => (HlID h =? mid) && (HlMailbox h =? mb)) (held t),
       with_held (List.filter (fun h => negb ((HlID h =? mid) && (HlMailbox h =? mb))) (held t)) (next_held t) t)
  | MHeldCount mb => (count (List.filter (held_for mb) (held t)), t)
  | MHeldPage mb limit offset => (take limit (drop offset (merge_sort newest_held (List.filter (held_for mb) (held t)))), t)
  | MVersions mb => (merge_sort by_uid (List.filter (fun e => EvMailbox e =? mb) (versions t)), t)
  | MAccounts => (active_accounts t, t)
  | MMessageBytes mb => (message_bytes mb t, t)
  | MAttachmentBytes mb => (attachment_bytes mb t, t)
  | MSetUsed mb n => (tt, set_used mb n t)
  end.
End Exec.
End MessageStore.
