(* ===== verification/GoBase64.v ===== *)
(** * encoding/base64's StdEncoding

    The padded encoding of bytes, and DecodeString: line breaks are skipped wherever they
    stand, padding is required and nothing may follow it. *)

From S2P Require Import Prelude GoStrings.
From Stdlib Require Import Ascii.
Import GoStrings.
Local Open Scope Z_scope.

Module Base64.

Definition digit (n : Z) : ascii :=
  byte (Z.to_nat (if n <? 26 then 65 + n else if n <? 52 then 71 + n else if n <? 62 then n - 4 else if n =? 62 then 43 else 47)).
Definition value (a : ascii) : option Z :=
  let n := byte_z a in
  if (65 <=? n) && (n <=? 90) then Some (n - 65)
  else if (97 <=? n) && (n <=? 122) then Some (n - 71)
  else if (48 <=? n) && (n <=? 57) then Some (n + 4)
  else if n =? 43 then Some 62
  else if n =? 47 then Some 63
  else None.
Definition pad : ascii := byte 61.

Fixpoint EncodeToString (bs : list Z) : string :=
  match bs with
  | [] => ""
  | [a] => String (digit (a / 4)) (String (digit (a mod 4 * 16)) (String pad (String pad "")))
  | [a; b] => String (digit (a / 4)) (String (digit (a mod 4 * 16 + b / 16)) (String (digit (b mod 16 * 4)) (String pad "")))
  | a :: b :: c :: rest =>
      String (digit (a / 4)) (String (digit (a mod 4 * 16 + b / 16)) (String (digit (b mod 16 * 4 + c / 64)) (String (digit (c mod 64))
        (EncodeToString rest))))
  end.

Definition line_break (a : ascii) : bool := bool_decide (a = cr) || bool_decide (a = lf).
Fixpoint without_breaks (s : string) : string :=
  match s with
  | EmptyString => ""
  | String a r => if line_break a then without_breaks r else String a (without_breaks r)
  end.
Fixpoint decode (s : string) : option (list Z) :=
  match s with
  | EmptyString => Some []
  | String a (String b (String c (String d rest))) =>
      x ← value a; y ← value b;
      let first := x * 4 + y / 16 in
      if bool_decide (c = pad) then
        if bool_decide (d = pad) && bool_decide (rest = "") then Some [first] else None
      else
        z ← value c;
        let second := y mod 16 * 16 + z / 4 in
        if bool_decide (d = pad) then if bool_decide (rest = "") then Some [first; second] else None
        else w ← value d; more ← decode rest; Some (first :: second :: z mod 4 * 64 + w :: more)
  | _ => None
  end.
Definition DecodeString (s : string) : option (list Z) := decode (without_breaks s).

Example encoded : EncodeToString [77; 97; 110; 255] = "TWFu/w==".
Proof. reflexivity. Qed.

(** ** The round trip *)

Definition in_byte (n : Z) : Prop := 0 <= n < 256.
Definition sextets : list Z := Z.of_nat <$> seq 0 64.
Lemma sextet_in n : 0 <= n < 64 -> n ∈ sextets.
Proof. intros L. apply list_elem_of_fmap. exists (Z.to_nat n). split; [lia|]. apply elem_of_seq. lia. Qed.
Lemma digits_fine : forallb (fun n => bool_decide (value (digit n) = Some n) && negb (line_break (digit n)) && negb (bool_decide (digit n = pad))) sextets = true.
Proof. vm_compute. reflexivity. Qed.
Lemma digit_fine n : 0 <= n < 64 -> value (digit n) = Some n /\ line_break (digit n) = false /\ digit n <> pad.
Proof.
  intros L. pose proof digits_fine as F. rewrite forallb_elem in F. specialize (F n (sextet_in n L)).
  apply andb_prop in F as [[F1 F2]%andb_prop F3]. apply bool_decide_eq_true in F1. apply negb_true_iff in F2.
  apply negb_true_iff, bool_decide_eq_false in F3. done.
Qed.
Lemma keeps n s : 0 <= n < 64 -> without_breaks (String (digit n) s) = String (digit n) (without_breaks s).
Proof. intros L. cbn [without_breaks]. by destruct (digit_fine n L) as (_ & -> & _). Qed.
Lemma keeps_pad s : without_breaks (String pad s) = String pad (without_breaks s).
Proof. reflexivity. Qed.
Lemma no_pad n : 0 <= n < 64 -> bool_decide (digit n = pad) = false.
Proof. intros L. apply bool_decide_eq_false. by destruct (digit_fine n L) as (_ & _ & ?). Qed.

Lemma high n k : in_byte n -> 0 < k -> 256 <= k * 64 -> 0 <= n / k < 64.
Proof. intros B P L. split; [apply Z.div_pos; unfold in_byte in B; lia|]. apply Z.div_lt_upper_bound; unfold in_byte in B; lia. Qed.
Lemma joined a b k l : 0 < k -> 0 < l -> k * l = 64 -> in_byte a -> 0 <= b < l -> 0 <= a mod k * l + b < 64.
Proof. intros K L E A B. pose proof (Z.mod_pos_bound a k K). nia. Qed.
Lemma part b k l : 0 < k -> k * l = 256 -> in_byte b -> 0 <= b / k < l.
Proof. intros K E B. split; [apply Z.div_pos; unfold in_byte in B; lia|]. apply Z.div_lt_upper_bound; unfold in_byte in B; lia. Qed.
Lemma back a b k l : 0 < k -> 0 < l -> 0 <= b < l -> (a mod k * l + b) / l = a mod k /\ (a mod k * l + b) mod l = b.
Proof.
  intros K L B. split.
  - rewrite Z.div_add_l by lia. rewrite (Z.div_small b) by lia. lia.
  - rewrite Z.add_comm, Z.mod_add by lia. by apply Z.mod_small.
Qed.

Theorem decode_encode bs : Forall in_byte bs -> DecodeString (EncodeToString bs) = Some bs.
Proof.
  unfold DecodeString. intros F. remember (length bs) as n eqn:N. revert bs F N. induction n as [n IH] using (well_founded_induction lt_wf).
  intros bs F ->. destruct bs as [|a [|b [|c rest]]]; [done| | |].
  - apply Forall_cons in F as [A _]. cbn [EncodeToString].
    pose proof (high a 4 A ltac:(lia) ltac:(lia)) as H1. pose proof (joined a 0 4 16 ltac:(lia) ltac:(lia) eq_refl A ltac:(lia)) as H2.
    rewrite Z.add_0_r in H2. rewrite !keeps, !keeps_pad by done. cbn [without_breaks decode].
    destruct (digit_fine _ H1) as (-> & _ & _). destruct (digit_fine _ H2) as (-> & _ & _). cbn -[Z.div Z.modulo Z.mul Z.add].
    rewrite Z.div_mul by lia. do 2 f_equal. pose proof (Z.div_mod a 4). lia.
  - apply Forall_cons in F as [A [B _]%Forall_cons]. cbn [EncodeToString].
    pose proof (high a 4 A ltac:(lia) ltac:(lia)) as H1. pose proof (part b 16 16 ltac:(lia) eq_refl B) as PB.
    pose proof (joined a (b / 16) 4 16 ltac:(lia) ltac:(lia) eq_refl A PB) as H2.
    pose proof (joined b 0 16 4 ltac:(lia) ltac:(lia) eq_refl B ltac:(lia)) as H3. rewrite Z.add_0_r in H3.
    rewrite !keeps, !keeps_pad by done. cbn [without_breaks decode].
    destruct (digit_fine _ H1) as (-> & _ & _). destruct (digit_fine _ H2) as (-> & _ & _). cbn -[Z.div Z.modulo Z.mul Z.add].
    rewrite no_pad by done. destruct (digit_fine _ H3) as (-> & _ & _). cbn -[Z.div Z.modulo Z.mul Z.add].
    destruct (back a (b / 16) 4 16 ltac:(lia) ltac:(lia) PB) as [-> ->]. rewrite Z.div_mul by lia.
    pose proof (Z.div_mod a 4). pose proof (Z.div_mod b 16). do 2 f_equal; [lia|]. f_equal. lia.
  - apply Forall_cons in F as [A [B [C F]%Forall_cons]%Forall_cons]. cbn [EncodeToString].
    pose proof (high a 4 A ltac:(lia) ltac:(lia)) as H1. pose proof (part b 16 16 ltac:(lia) eq_refl B) as PB.
    pose proof (part c 64 4 ltac:(lia) eq_refl C) as PC.
    pose proof (joined a (b / 16) 4 16 ltac:(lia) ltac:(lia) eq_refl A PB) as H2.
    pose proof (joined b (c / 64) 16 4 ltac:(lia) ltac:(lia) eq_refl B PC) as H3.
    pose proof (Z.mod_pos_bound c 64 ltac:(lia)) as H4.
    rewrite !keeps by done. cbn [decode].
    destruct (digit_fine _ H1) as (-> & _ & _). destruct (digit_fine _ H2) as (-> & _ & _). cbn -[Z.div Z.modulo Z.mul Z.add].
    rewrite !no_pad by done. destruct (digit_fine _ H3) as (-> & _ & _). destruct (digit_fine _ H4) as (-> & _ & _). cbn -[Z.div Z.modulo Z.mul Z.add].
    rewrite (IH (length rest)) by (done || cbn; lia). cbn -[Z.div Z.modulo Z.mul Z.add].
    destruct (back a (b / 16) 4 16 ltac:(lia) ltac:(lia) PB) as [-> ->]. destruct (back b (c / 64) 16 4 ltac:(lia) ltac:(lia) PC) as [-> ->].
    pose proof (Z.div_mod a 4). pose proof (Z.div_mod b 16). pose proof (Z.div_mod c 64). do 2 f_equal; [lia|]. f_equal; [lia|]. f_equal. lia.
Qed.

(** Text as its bytes. *)
Fixpoint bytes_of (s : string) : list Z := match s with EmptyString => [] | String a r => byte_z a :: bytes_of r end.
Definition text_of (bs : list Z) : string := foldr (fun n s => String (byte (Z.to_nat n)) s) "" bs.
Lemma bytes_in s : Forall in_byte (bytes_of s).
Proof.
  induction s as [|a s IH]; constructor; [|done]. unfold in_byte, byte_z. pose proof (N_ascii_bounded a). lia.
Qed.
Lemma text_bytes s : text_of (bytes_of s) = s.
Proof.
  induction s as [|a s IH]; [done|]. cbn [bytes_of text_of foldr]. change (foldr _ "" (bytes_of s)) with (text_of (bytes_of s)). rewrite IH. f_equal. unfold byte_z, byte. rewrite <- Z_N_nat, N2Z.id.
  apply ascii_nat_embedding.
Qed.
End Base64.
