(* ===== verification/Messages.v ===== *)
(** * Reading, changing and deleting mail: internal/api/handlers/messages.go

    The handlers of an account's messages, folders, threads, drafts, subscriptions and
    quarantine (messages.go, subscriptions.go, thread_snooze.go, thread_due.go, pipeline.go)
    and the quota reconciler (internal/digest/quota.go), as programs that ask the database
    ([MessageStore.M]), the sign-in tables, as whoever checks a mailbox's access does
    ([Access.mayReach]), the clock and the random generator. A database that fails answers
    [Err]. [QAwaiting] is attachAwaitingSince's query, which decides only what
    [awaiting_since] an answer shows. *)

From S2P Require Import Prelude GoTime GoStrings MailAddress Prog MailStore Grants GoCodec GrantStore StorageQuota Auth Accounts.
From S2P Require Import SignIn Sessions Access Threads MessageStore GoBase64.
From Stdlib Require Import Ascii.

Module Messages.
Import GoTime GoStrings Auth Prog Accounts SignIn Access MessageStore.
Local Open Scope Z_scope.
Local Open Scope prog_scope.

(** What a mailbox's event streams are told. *)
Inductive Event :=
| MessageUpdated (id : Z) (folder : string) (is_read is_flagged is_starred is_draft : bool)
| FolderUpdate (folder : string)
| MessageDeleted (id : Z)
| ThreadSnoozed (thread_id : string) (until : option Time)
| NewMessage (id : Z) (folder sender subject : string)
| UnreadUpdate (folder : string) (unread : Z)
| MessageSent (id : Z) (subject : string).

Inductive Q : Type -> Type :=
| QDb {X} (m : M X) : Q (result unit X)
| QAccount {X} (q : SignIn.Q X) : Q X
| QNow : Q Time
| QRandom16 : Q (list Z)
| QAwaiting (mb : Z) (rows : list Message) : Q (result unit (list (option Time)))
| QPublish (mb : Z) (e : Event) : Q unit.

(** [json.Unmarshal] of a cursor's two fields; what it reads is not a text the server made
    only. *)
Class CursorLib := { unmarshal_cursor : string -> option (Time * Z) }.

(** ** third_party/go-imap/pkg/imap/import_flags.go *)

Definition MaxKeywordLength : Z := 255.
Definition MaxKeywords : Z := 100.
Definition keyword_byte (a : ascii) : bool :=
  let n := nat_of_ascii a in
  negb ((n <=? 32) || (127 <=? n))%nat && negb (bool_decide (a ∈ [byte 40; byte 41; byte 123; byte 37; byte 42; byte 34; byte 92; byte 93])).
Inductive flag_error := KeywordLength | KeywordAtom | TooManyKeywords.

Section Flags.
Context `{Unicode}.

Definition system_flag (key : string) : option string :=
  if bool_decide (key = "\seen") then Some "\Seen"
  else if bool_decide (key = "\answered") then Some "\Answered"
  else if bool_decide (key = "\flagged") then Some "\Flagged"
  else if bool_decide (key = "\draft") then Some "\Draft"
  else if bool_decide (key = "\deleted") then Some "\Deleted"
  else None.
Fixpoint normalize_flags (flags : list string) (seen : list string) (keywords : Z) (result : list string) : Prelude.result flag_error (list string) :=
  match flags with
  | [] => Ok result
  | flag :: rest =>
      let key := ToLower flag in
      let fresh := negb (bool_decide (key ∈ seen)) in
      match system_flag key with
      | Some flag => if fresh then normalize_flags rest (key :: seen) keywords (result ++ [flag]) else normalize_flags rest seen keywords result
      | None =>
          if bool_decide (flag = "") || (MaxKeywordLength <? len flag) then Err KeywordLength
          else if negb (sforall keyword_byte flag) then Err KeywordAtom
          else
            let keywords := if fresh then keywords + 1 else keywords in
            if MaxKeywords <? keywords then Err TooManyKeywords
            else if fresh then normalize_flags rest (key :: seen) keywords (result ++ [flag]) else normalize_flags rest seen keywords result
      end
  end.
Definition NormalizeImportFlags (flags : list string) : Prelude.result flag_error (list string) := normalize_flags flags [] 0 [].
End Flags.

(** ** Shared steps *)

Section Handlers.
Context `{Unicode, AuthLib, MailLib, CursorLib}.
Abbreviation P := (prog Q).

Definition db {X} (m : M X) : P (result unit X) := ask (QDb m).
Definition account {A} (p : prog SignIn.Q A) : P A := within (@QAccount) p.
Definition or_else {E F X} (e : F) (p : P (result E X)) : P (result F X) :=
  x <- p ; Ret (match x with Ok a => Ok a | Err _ => Err e end).
Definition publish (mb : Z) (e : Event) : P unit := ask (QPublish mb e).

Definition errNotAllowed : refusal := Refuse 403 "forbidden" "Access denied".
Definition errMessageNotFound : refusal := Refuse 404 "message_not_found" "Message not found".
(** What a refused access reads as; another account's mailbox or message does not exist. *)
Definition access_refusal (missing : refusal) (what : string) (e : access_error) : refusal :=
  match e with
  | errNoAccess => missing
  | Access.errNotAllowed => errNotAllowed
  | AccessFailed => Failed what
  end.
Definition reach (c : Claims) (id : Z) (capability : string) (missing : refusal) (what : string) : P (result refusal Account) :=
  r <- account (mayReach c id capability) ;
  Ret (match r with Ok m => Ok m | Err e => Err (access_refusal missing what e) end).
Definition accountMailbox (claims : option Claims) (id : Z) (capability : string) : P (result refusal Z) :=
  match claims with
  | None => Ret (Err errAuthenticationRequired)
  | Some c => m <-! reach c id capability errAccountNotFound "resolve the account" ; Ret (Ok (AcID m))
  end.
Definition ownedMessage (claims : option Claims) (id : Z) (capability : string) : P (result refusal Message) :=
  match claims with
  | None => Ret (Err errAuthenticationRequired)
  | Some c =>
      found <-! or_else (Failed "load message") (db (MLoad id)) ;
      match found with
      | None => Ret (Err errMessageNotFound)
      | Some m => _ <-! reach c (MailboxID m) capability errMessageNotFound "check message access" ; Ret (Ok m)
      end
  end.
Definition attachAwaitingSince (mb : Z) (rows : list Message) : P (result refusal (list (option Time))) :=
  if forallb (fun m => bool_decide (thread m = "")) rows then Ret (Ok (replicate (length rows) None))
  else or_else (Failed "derive waiting threads") (ask (QAwaiting mb rows)).

(** ** Threads: internal/db/repositories/message_thread.go *)

Definition NewMessageID (domain : string) : P string :=
  r <- ask QRandom16 ; Ret (Threads.GenerateMessageID r domain).
Definition ResolveThreadID (mb : Z) (messageID inReplyTo references : string) : P (result unit string) :=
  parent <-! db (MParent mb inReplyTo references) ;
  match Threads.thread_under parent messageID inReplyTo references with
  | Some t => Ret (Ok t)
  | None => id <- NewMessageID "rest-mail.invalid" ; Ret (Ok id)
  end.
Definition ReferencesForReply (mb : Z) (inReplyTo : string) : P (result unit string) :=
  parent <-! db (MParent mb inReplyTo "") ; Ret (Ok (Threads.references_under parent inReplyTo)).

(** ** Listing *)

Record listMessagesRequest := {
  LmAccount : Z; LmFolder : string; LmLimit : option Z; LmCursor : string; IncludeIMAPDeleted : bool; IncludeSnoozed : bool
}.
Record Page := { Data : list (Message * option Time); NextCursor : string; HasMore : bool; PgTotal : Z }.

Definition marshal_cursor (at_ : Time) (id : Z) : string :=
  "{" +:+ quote +:+ "received_at" +:+ quote +:+ ":" +:+ quote +:+ Codec.RFC3339Nano at_ +:+ quote +:+ ","
  +:+ quote +:+ "id" +:+ quote +:+ ":" +:+ itoa id +:+ "}".
Definition encodeMessageCursor (m : Message) : string :=
  Base64.EncodeToString (Base64.bytes_of (marshal_cursor (ReceivedAt m) (ID m))).
Definition decodeMessageCursor (cursor : string) : option (Time * Z) :=
  if bool_decide (cursor = "") then None
  else
    raw ← Base64.DecodeString cursor;
    after ← unmarshal_cursor (Base64.text_of raw);
    if (snd after =? 0) || IsZero (fst after) then None else Some after.
Definition page_limit (limit : option Z) : nat :=
  match limit with Some l => if (0 <? l) && (l <=? 100) then Z.to_nat l else 50%nat | None => 50%nat end.
(** A page of the rows found, one more than fit if there are more: the rows shown, whether
    there are more, and the cursor to them. *)
Definition paged (limit : nat) (rows : list Message) : list Message * bool * string :=
  let more := (limit <? length rows)%nat in
  let shown := if more then take limit rows else rows in
  (shown, more, if more then match last shown with Some m => encodeMessageCursor m | None => "" end else "").
Definition listMessages (claims : option Claims) (req : listMessagesRequest) : P (result refusal Page) :=
  let folder := if bool_decide (LmFolder req = "") then "INBOX" else LmFolder req in
  mb <-! accountMailbox claims (LmAccount req) Held.CapMailRead ;
  let limit := page_limit (LmLimit req) in
  rows <-! or_else (internal "Failed to list messages")
    (db (MPage mb folder (IncludeIMAPDeleted req) (IncludeSnoozed req) (S limit) (decodeMessageCursor (LmCursor req)))) ;
  let '(shown, more, next) := paged limit rows in
  since <-! attachAwaitingSince mb shown ;
  total <-! or_else (Failed "count messages") (db (MCount mb folder (IncludeIMAPDeleted req) (IncludeSnoozed req))) ;
  Ret (Ok {| Data := zip shown since; NextCursor := next; HasMore := more; PgTotal := total |}).
Definition getMessage (claims : option Claims) (id : Z) : P (result refusal (Message * option Time)) :=
  m <-! ownedMessage claims id Held.CapMailRead ;
  since <-! attachAwaitingSince (MailboxID m) [m] ;
  Ret (Ok (m, mjoin (head since))).
(** [Source()] is the raw octets where they are kept apart, else the raw text: both [RawMessage]. *)
Definition getRawMessage (claims : option Claims) (id : Z) : P (result refusal string) :=
  m <-! ownedMessage claims id Held.CapMailRead ;
  Ret (if bool_decide (RawMessage (Stored m) = "") then Err (Refuse 404 "not_found" "Raw message not available") else Ok (RawMessage (Stored m))).

(** ** Changing *)

(** The folder as asked for, the keywords as asked for. *)
Definition no_keyword_slash (flags : list string) : bool := negb (existsb (fun f => Contains f (String (byte 92) "")) flags).
Definition updateMessage (claims : option Claims) (id : Z) (req : Changes) : P (result refusal Message) :=
  m <-! ownedMessage claims id Held.CapMailWrite ;
  keywords <-! Ret (match NewKeywords req with
                    | None => Ok None
                    | Some flags => match NormalizeImportFlags flags with
                                    | Err _ => Err (Invalid ["keywords"])
                                    | Ok flags => if no_keyword_slash flags then Ok (Some flags) else Err (Invalid ["keywords"])
                                    end
                    end) ;
  folder <-! Ret (match NewFolder req with
                  | None => Ok None
                  | Some f => if Folders.good_name f then Ok (Some (Folders.CanonicalFolder f)) else Err (Invalid ["folder"])
                  end) ;
  let updates := {| NewKeywords := keywords; NewIMAPDeleted := NewIMAPDeleted req; NewIsAnswered := NewIsAnswered req;
                    NewIsRead := NewIsRead req; NewIsFlagged := NewIsFlagged req; NewIsStarred := NewIsStarred req;
                    NewIsDraft := NewIsDraft req; NewFolder := folder |} in
  stored <-! or_else (Failed "update message") (if has_changes updates then db (MUpdate (ID m) updates) else db (MLoad id)) ;
  match stored with
  | None => Ret (Err (Failed "update message"))
  | Some m =>
      publish (MailboxID m) (MessageUpdated (ID m) (Folder m) (IsRead (Marks m)) (IsFlagged (Marks m)) (IsStarred (Marks m)) (IsDraft (Marks m))) ;;
      (if is_some (NewFolder req) then publish (MailboxID m) (FolderUpdate (Folder m)) else Ret tt) ;;
      Ret (Ok m)
  end.
Definition deleteMessage (claims : option Claims) (id : Z) (permanent : string) : P (result refusal unit) :=
  m <-! ownedMessage claims id Held.CapMailWrite ;
  let hardDelete := bool_decide (permanent = "true") || bool_decide (Folder m = "Trash") || IsDeleted m in
  let failed := Refuse 500 "delete_failed" "Failed to delete message" in
  _ <-! (if hardDelete then gone <-! or_else failed (db (MPurge m)) ; Ret (Ok tt)
         else or_else failed (db (MTrash (ID m)))) ;
  publish (MailboxID m) (MessageDeleted (ID m)) ;;
  Ret (Ok tt).

(** ** Folders *)

Record FolderSummary := { FsFolder : string; FsTotal : Z; FsUnread : Z; FsRole : option string }.
Definition listedFolders : list string := ["INBOX"; "Sent"; "Drafts"; "Trash"].
Definition errFolderExists : refusal := Refuse 409 "already_exists" "Folder already exists".
Definition folder_list (rows : list (string * Z * Z)) : list FolderSummary :=
  let held := fst ∘ fst <$> rows in
  let all := rows ++ ((fun f => (f, 0, 0)) <$> List.filter (fun f => negb (bool_decide (f ∈ held))) listedFolders) in
  (fun r => {| FsFolder := fst (fst r); FsTotal := snd (fst r); FsUnread := snd r;
               FsRole := Folders.role_name <$> Folders.RoleOf (fst (fst r)) |}) <$> all.
Definition listFolders (claims : option Claims) (id : Z) : P (result refusal (list FolderSummary)) :=
  mb <-! accountMailbox claims id Held.CapMailRead ;
  rows <-! or_else (Failed "list folders") (db (MFolders mb)) ;
  Ret (Ok (folder_list rows)).
Definition folderExists (mb : Z) (folder : string) : P (result refusal bool) :=
  if bool_decide (folder ∈ listedFolders) then Ret (Ok true)
  else n <-! or_else (Failed "check folder existence") (db (MFolderRows mb folder)) ; Ret (Ok (0 <? n)).
Definition folderNameRefusal (name : string) : result refusal unit :=
  if Folders.good_name name then Ok tt else Err (Invalid ["name"]).
(** The row that keeps an empty folder. *)
Definition marker (mb : Z) (name : string) : Message := {|
  ID := 0; MailboxID := mb; Folder := name;
  Ids := {| Threads.PMsgID := ""; Threads.PInReplyTo := ""; Threads.PReferences := ""; Threads.PThreadID := "" |};
  Parts := {| Sender := "system"; SenderName := ""; RecipientsTo := JNull; RecipientsCc := JNull; Subject := ""; BodyText := ""; BodyHTML := "" |};
  Stored := no_source; Marks := no_flags; SizeBytes := 0; HasAttachments := false; IsDeleted := true; ReceivedAt := GoTime.zero |}.
Definition createFolder (claims : option Claims) (id : Z) (name : string) : P (result refusal string) :=
  mb <-! accountMailbox claims id Held.CapMailWrite ;
  _ <-! Ret (folderNameRefusal name) ;
  let name := Folders.CanonicalFolder name in
  exists_ <-! folderExists mb name ;
  if exists_ : bool then Ret (Err errFolderExists)
  else _ <-! or_else (Failed "create folder marker") (db (MCreate (marker mb name))) ; Ret (Ok name).
Definition renameFolder (claims : option Claims) (id : Z) (folder name : string) : P (result refusal string) :=
  mb <-! accountMailbox claims id Held.CapMailWrite ;
  let from := Folders.CanonicalFolder folder in
  if Folders.IsStandardFolder from then Ret (Err (Invalid ["folder"]))
  else
    _ <-! Ret (folderNameRefusal name) ;
    let name := Folders.CanonicalFolder name in
    if Folders.IsStandardFolder name then Ret (Err (Invalid ["name"]))
    else
      let errNoFolder := Refuse 404 "not_found" "Folder not found or empty" in
      exists_ <-! folderExists mb from ;
      if negb exists_ then Ret (Err errNoFolder)
      else
        exists_ <-! folderExists mb name ;
        if exists_ : bool then Ret (Err errFolderExists)
        else
          moved <-! or_else (Failed "rename folder messages") (db (MRename mb from name)) ;
          Ret (if moved =? 0 then Err errNoFolder else Ok name).
Definition deleteFolder (claims : option Claims) (id : Z) (folder : string) : P (result refusal unit) :=
  mb <-! accountMailbox claims id Held.CapMailWrite ;
  let folder := Folders.CanonicalFolder folder in
  if Folders.IsStandardFolder folder then Ret (Err (Invalid ["folder"]))
  else
    gone <-! or_else (Failed "delete folder messages") (db (MDeleteFolder mb folder)) ;
    Ret (if gone : bool then Ok tt else Err (Refuse 404 "not_found" "Folder not found")).
(** The percentage is [used * 100 / limit], a limit of 0 or less being none. *)
Record Quota := { QtMessages : Z; QtBytes : Z; QtUsed : Z }.
Definition getQuota (claims : option Claims) (id : Z) : P (result refusal Quota) :=
  mb <-! accountMailbox claims id Held.CapMailRead ;
  found <-! or_else (Failed "read the mailbox") (db (MQuota mb)) ;
  match found with
  | None => Ret (Err (Refuse 404 "not_found" "Mailbox not found"))
  | Some q =>
      n <-! or_else (Failed "count messages") (db (MMessages mb)) ;
      Ret (Ok {| QtMessages := n; QtBytes := StorageQuota.QuotaBytes q; QtUsed := StorageQuota.QuotaUsedBytes q |})
  end.

(** ** Subscriptions *)

Definition listSubscriptions (claims : option Claims) (id : Z) : P (result refusal (list string)) :=
  mb <-! accountMailbox claims id Held.CapMailRead ;
  rows <-! or_else (Failed "list subscriptions") (db (MChoices mb)) ;
  Ret (Ok (Folders.names_of rows)).
Definition subscribeFolder (claims : option Claims) (id : Z) (folder : string) : P (result refusal string) :=
  mb <-! accountMailbox claims id Held.CapMailWrite ;
  if negb (Folders.good_name folder) then Ret (Err (Invalid ["folder"]))
  else
    let name := Folders.CanonicalFolder folder in
    _ <-! or_else (Failed "subscribe folder") (db (MChoose mb name true)) ; Ret (Ok name).
Definition unsubscribeFolder (claims : option Claims) (id : Z) (folder : string) : P (result refusal unit) :=
  mb <-! accountMailbox claims id Held.CapMailWrite ;
  or_else (Failed "unsubscribe folder") (db (MChoose mb (Folders.CanonicalFolder folder) false)).
End Handlers.
End Messages.

(** * Drafts, threads, snoozes, quarantine, quotas

    The rest of an account's mail routes: handlers/messages.go's drafts and threads,
    thread_snooze.go, thread_due.go, calendar versions, pipeline.go's quarantine; the
    snooze worker and internal/digest/quota.go's reconciler. *)

Import GoTime GoStrings MailAddress Auth Prog Accounts SignIn Access MessageStore Messages.
Local Open Scope Z_scope.

(** rmime.ParseHeaders, on go-message: a message's Message-ID, In-Reply-To and References, as
    the parser gives them; [None]: the headers do not parse. And [time.Parse] of an RFC 3339
    date-time. *)
Class HeaderLib := {
  header_ids : string -> option (string * string * list string);
  parse_RFC3339 : string -> option Time
}.

Module Mailboxes.
Import GoTime GoStrings MailAddress Auth Prog Accounts SignIn Access MessageStore Messages.
Local Open Scope Z_scope.
Local Open Scope prog_scope.

Section Handlers.
Context `{Unicode, AuthLib, MailLib, CursorLib, HeaderLib}.
Abbreviation P := (prog Messages.Q).

(** ** Drafts *)

Record saveDraftBody := {
  SdFrom : string; SdTo : list string; SdCc : list string; SdSubject : string; SdBodyText : string; SdBodyHTML : string;
  SdInReplyTo : string; SdReferences : string
}.
Definition addresses (field : string) (l : list string) : result refusal unit :=
  if forallb ValidateAddress l then Ok tt else Err (Invalid [field]).
Definition draft_of (body : saveDraftBody) (mb : Z) (messageID threadID : string) (now : Time) : Message := {|
  ID := 0; MailboxID := mb; Folder := "Drafts";
  Ids := {| Threads.PMsgID := messageID; Threads.PInReplyTo := SdInReplyTo body; Threads.PReferences := SdReferences body;
            Threads.PThreadID := threadID |};
  Parts := {| Sender := SdFrom body; SenderName := ""; RecipientsTo := marshal_strings (SdTo body);
              RecipientsCc := marshal_strings (SdCc body); Subject := SdSubject body; BodyText := SdBodyText body;
              BodyHTML := SdBodyHTML body |};
  Stored := no_source;
  Marks := {| IsAnswered := false; IsRead := true; IsFlagged := false; IsStarred := false; Keywords := []; IMAPDeleted := false; IsDraft := true |};
  SizeBytes := len (SdSubject body) + len (SdBodyText body) + len (SdBodyHTML body); HasAttachments := false; IsDeleted := false;
  ReceivedAt := now |}.
Definition saveDraft (claims : option Claims) (body : saveDraftBody) : P (result refusal Message) :=
  match claims with
  | None => Ret (Err errAuthenticationRequired)
  | Some c =>
      _ <-! Ret (addresses "to" (SdTo body)) ;
      _ <-! Ret (addresses "cc" (SdCc body)) ;
      reached <- account (if bool_decide (SdFrom body = "") then mayReach c (AccountID c) Held.CapMailWrite
                          else mayActAs c (SdFrom body) Held.CapMailWrite) ;
      let refused := if bool_decide (SdFrom body = "") then Refuse 403 "forbidden" "You are not authorized to write drafts to this mailbox"
                     else Refuse 403 "forbidden" "You are not authorized to send from this address" in
      match reached with
      | Err AccessFailed => Ret (Err (internal "Failed to check the sender"))
      | Err _ => Ret (Err refused)
      | Ok mb =>
          id <- NewMessageID (Threads.DomainFromAddress (AcAddress mb)) ;
          thread <-! Messages.or_else (internal "Failed to look up the reply thread") (ResolveThreadID (AcID mb) id (SdInReplyTo body) (SdReferences body)) ;
          now <- ask QNow ;
          Messages.or_else (internal "Failed to save draft") (Messages.db (MCreate (draft_of body (AcID mb) id thread now)))
      end
  end.
Definition errDraftNotFound : refusal := Refuse 404 "not_found" "Draft not found".
Definition errDraftUnread : refusal := internal "Failed to read draft".
Definition draftAccess (c : Claims) (draft : Message) : P (result refusal unit) :=
  r <- account (mayReach c (MailboxID draft) Held.CapMailWrite) ;
  Ret (match r with
       | Ok _ => Ok tt
       | Err errNoAccess => Err errMessageNotFound
       | Err Access.errNotAllowed => Err Messages.errNotAllowed
       | Err AccessFailed => Err (internal "Failed to check draft access")
       end).
(** [None]: left as it is. *)
Record updateDraftBody := {
  UdFrom : option string; UdTo : option (list string); UdCc : option (list string); UdSubject : option string;
  UdBodyText : option string; UdBodyHTML : option string; UdInReplyTo : option string; UdReferences : option string
}.
Definition updateDraft (claims : option Claims) (id : Z) (body : updateDraftBody) : P (result refusal Message) :=
  match claims with
  | None => Ret (Err errAuthenticationRequired)
  | Some c =>
      found <-! Messages.or_else errDraftUnread (Messages.db (MDraft id)) ;
      match found with
      | None => Ret (Err errDraftNotFound)
      | Some draft =>
          _ <-! draftAccess c draft ;
          _ <-! Ret (addresses "to" (default [] (UdTo body))) ;
          _ <-! Ret (addresses "cc" (default [] (UdCc body))) ;
          mb <-! match UdFrom body with
                 | Some from =>
                     if bool_decide (from = "") then Ret (Ok (MailboxID draft))
                     else
                       r <- account (mayActAs c from Held.CapMailWrite) ;
                       Ret (match r with
                            | Ok m => Ok (AcID m)
                            | Err AccessFailed => Err (internal "Failed to check the sender")
                            | Err _ => Err (Refuse 403 "forbidden" "You are not authorized to send from this address")
                            end)
                 | None => Ret (Ok (MailboxID draft))
                 end ;
          let inReplyTo := default (Threads.PInReplyTo (Ids draft)) (UdInReplyTo body) in
          let references := default (Threads.PReferences (Ids draft)) (UdReferences body) in
          thread <-! (if is_some (UdInReplyTo body) || is_some (UdReferences body)
                      then t <-! Messages.or_else (internal "Failed to look up the reply thread")
                                   (ResolveThreadID mb (Threads.PMsgID (Ids draft)) inReplyTo references) ;
                           Ret (Ok (Some t))
                      else Ret (Ok None)) ;
          updated <-! Messages.or_else (internal "Failed to update draft")
            (Messages.db (MRedraft (ID draft) (MailboxID draft)
              {| DrMailbox := mb; DrFrom := UdFrom body; DrTo := UdTo body; DrCc := UdCc body; DrSubject := UdSubject body;
                 DrBodyText := UdBodyText body; DrBodyHTML := UdBodyHTML body; DrInReplyTo := UdInReplyTo body;
                 DrReferences := UdReferences body; DrThread := thread |})) ;
          Ret (match updated with Some m => Ok m | None => Err errDraftNotFound end)
      end
  end.

(** ** Threads *)

Definition getThread (claims : option Claims) (id : Z) (threadID : string) : P (result refusal (list Message)) :=
  mb <-! accountMailbox claims id Held.CapMailRead ;
  Messages.or_else (internal "Failed to retrieve thread") (Messages.db (MThread mb threadID)).
Definition errNoThread : refusal := Refuse 404 "not_found" "Thread not found".
(** thread_snooze.go *)
Definition snoozeThread (claims : option Claims) (id : Z) (threadID : string) (until : option Time) : P (result refusal (string * option Time)) :=
  mb <-! accountMailbox claims id Held.CapMailWrite ;
  past <- match until with Some u => now <- ask QNow ; Ret (negb (After u now)) | None => Ret false end ;
  if past : bool then Ret (Err (Invalid ["snoozed_until"]))
  else
    n <-! Messages.or_else (Failed "find snoozed thread") (Messages.db (MThreadRows mb threadID)) ;
    if n =? 0 then Ret (Err errNoThread)
    else
      _ <-! Messages.or_else (Failed "store thread snooze") (Messages.db (MSnooze mb threadID until)) ;
      publish mb (ThreadSnoozed threadID until) ;;
      Ret (Ok (threadID, until)).
Fixpoint publish_all (rows : list (Z * string)) : P unit :=
  match rows with
  | [] => Ret tt
  | (mb, t) :: rest => publish mb (ThreadSnoozed t None) ;; publish_all rest
  end.
Definition returnSnoozedThreads : P unit :=
  now <- ask QNow ;
  returned <- Messages.db (MReturnDue now) ;
  match returned with Ok rows => publish_all rows | Err _ => Ret tt end.
(** thread_due.go *)
Definition setThreadDue (claims : option Claims) (id : Z) (threadID : string) (due : option string) (source : string)
    : P (result refusal (string * option (Time * string))) :=
  mb <-! accountMailbox claims id Held.CapMailWrite ;
  row <-! Ret (match due with
               | None => Ok None
               | Some text => match parse_RFC3339 text with Some d => Ok (Some (d, source)) | None => Err (Invalid ["due"]) end
               end) ;
  n <-! Messages.or_else (Failed "find due thread") (Messages.db (MThreadRows mb threadID)) ;
  if n =? 0 then Ret (Err errNoThread)
  else _ <-! Messages.or_else (Failed "store thread due") (Messages.db (MDue mb threadID row)) ; Ret (Ok (threadID, row)).

(** ** Calendar versions *)

Record CalendarEventSummary := {
  CsUID : string; CsMethod : string; CsStatus : string; CsSummary : string; CsSequence : Z; IsCancelled : bool; CsMessage : Z; CsVersions : Z
}.
Definition first_version (v : EventVersion) : CalendarEventSummary := {|
  CsUID := EvUID v; CsMethod := EvMethod v; CsStatus := EvStatus v; CsSummary := EvSummary v; CsSequence := EvSequence v;
  IsCancelled := bool_decide (EvMethod v = "CANCEL") || bool_decide (EvStatus v = "CANCELLED"); CsMessage := EvMessage v; CsVersions := 1 |}.
Definition another_version (v : EventVersion) (s : CalendarEventSummary) : CalendarEventSummary := {|
  CsUID := CsUID s; CsMethod := CsMethod s; CsStatus := CsStatus s; CsSummary := CsSummary s; CsSequence := CsSequence s;
  IsCancelled := bool_decide (EvMethod v = "CANCEL") || IsCancelled s; CsMessage := CsMessage s; CsVersions := CsVersions s + 1 |}.
(** The summaries in the order their events were first met. *)
Fixpoint summarize (seen : list CalendarEventSummary) (versions : list EventVersion) : list CalendarEventSummary :=
  match versions with
  | [] => seen
  | v :: rest =>
      if existsb (fun s => bool_decide (CsUID s = EvUID v)) seen
      then summarize (update (fun s => bool_decide (CsUID s = EvUID v)) (another_version v) seen) rest
      else summarize (seen ++ [first_version v]) rest
  end.
Definition listCalendarEvents (claims : option Claims) (id : Z) : P (result refusal (list CalendarEventSummary)) :=
  mb <-! accountMailbox claims id Held.CapMailRead ;
  versions <-! Messages.or_else (Failed "list calendar events") (Messages.db (MVersions mb)) ;
  Ret (Ok (summarize [] versions)).

(** ** Quarantine: pipeline.go, query_util.go *)

Definition pagination (limit offset : option Z) (defLimit maxLimit : Z) : Z * Z :=
  (match limit with Some l => if 0 <? l then Z.min l maxLimit else defLimit | None => defLimit end,
   match offset with Some o => if 0 <? o then o else 0 | None => 0 end).
Definition defaultListLimit : Z := 50.
Definition maxListLimit : Z := 200.
(** The route's method says what is needed: mail:read to list, mail:write to change. *)
Definition quarantineMailbox (claims : option Claims) (id : Z) (capability : string) : P (result refusal Z) :=
  match claims with
  | None => Ret (Err errAccountNotFound)
  | Some c => m <-! reach c id capability errAccountNotFound "resolve quarantine account" ; Ret (Ok (AcID m))
  end.
Definition listQuarantine (claims : option Claims) (id : Z) (limit offset : option Z) : P (result refusal (list Held * Z * bool)) :=
  mb <-! quarantineMailbox claims id Held.CapMailRead ;
  let '(limit, offset) := pagination limit offset defaultListLimit maxListLimit in
  total <-! Messages.or_else (Failed "count quarantined messages") (Messages.db (MHeldCount mb)) ;
  rows <-! Messages.or_else (Failed "list quarantined messages") (Messages.db (MHeldPage mb (Z.to_nat limit) (Z.to_nat offset))) ;
  Ret (Ok (rows, total, offset + limit <? total)).
Definition maxMessageIDColumn : Z := 995.
(** message_import.go: a text column takes no NUL and no invalid UTF-8. *)
Definition imported_rune (r : rune) : string :=
  match r with Bad => rune_error | Rune (String a EmptyString) => if bool_decide (a = byte 0) then rune_error else String a "" | Rune s => s end.
Fixpoint imported_runes (after_bad : bool) (rs : list rune) : string :=
  match rs with
  | [] => ""
  | Bad :: rest => (if after_bad then "" else rune_error) +:+ imported_runes true rest
  | r :: rest => imported_rune r +:+ imported_runes false rest
  end.
Definition importedText (value : string) : string := imported_runes false (runes value).
(** [fresh]: the id made when the message has none that fits. *)
Definition releasedMessageIdentity (raw fresh : string) : string * string * string :=
  let '(id, irt, refs) :=
    match header_ids raw with
    | Some (id, irt, refs) =>
        let irt := Threads.CanonicalID (importedText irt) in
        (Threads.CanonicalID (importedText id), if maxMessageIDColumn <? len irt then "" else irt, importedText (Join refs " "))
    | None => ("", "", "")
    end in
  (if bool_decide (id = "") || (maxMessageIDColumn <? len id) then fresh else id, irt, refs).
(** What follows the first blank line. *)
Definition source_body (raw preview : string) : string :=
  if bool_decide (raw = "") then preview
  else match Cut raw (crlf +:+ crlf) with
       | Some (_, body) => body
       | None => match Cut raw (String lf (String lf "")) with Some (_, body) => body | None => preview end
       end.
Definition released_message (fresh fresh_thread : string) (item : Held) (rows : list Threads.Parent) : Message :=
  let '(id, irt, refs) := releasedMessageIdentity (HlRaw item) fresh in
  let thread := Threads.ResolveThreadID rows id irt refs fresh_thread in
  {| ID := 0; MailboxID := HlMailbox item; Folder := "INBOX";
     Ids := {| Threads.PMsgID := id; Threads.PInReplyTo := irt; Threads.PReferences := refs;
               Threads.PThreadID := if maxMessageIDColumn <? len thread then id else thread |};
     Parts := {| Sender := HlSender item; SenderName := ""; RecipientsTo := JNull; RecipientsCc := JNull; Subject := HlSubject item;
                 BodyText := source_body (HlRaw item) (BodyPreview item); BodyHTML := "" |};
     Stored := {| RawMessage := HlRaw item; AuthResults := []; Calendar := []; ReceivedTLS := None; TLSVersion := ""; RequireTLS := false;
                  RuleClass := "" |};
     Marks := no_flags; SizeBytes := len (HlRaw item); HasAttachments := false; IsDeleted := false; ReceivedAt := GoTime.zero |}.
Definition errQuarantineNotFound : refusal := Refuse 404 "not_found" "Quarantined message not found".
Definition releaseQuarantine (claims : option Claims) (id mid : Z) : P (result refusal Z) :=
  _ <-! Ret (RequireTwoFactor claims) ;
  mb <-! quarantineMailbox claims id Held.CapMailWrite ;
  fresh <- NewMessageID "rest-mail.invalid" ;
  fresh_thread <- NewMessageID "rest-mail.invalid" ;
  done <-! Messages.or_else (Failed "release the message") (Messages.db (MRelease mb mid (released_message fresh fresh_thread))) ;
  Ret (match done with Some m => Ok (ID m) | None => Err errQuarantineNotFound end).
Definition deleteQuarantine (claims : option Claims) (id mid : Z) : P (result refusal unit) :=
  mb <-! quarantineMailbox claims id Held.CapMailWrite ;
  gone <-! Messages.or_else (internal "Failed to delete") (Messages.db (MUnhold mb mid)) ;
  Ret (if gone : bool then Ok tt else Err errQuarantineNotFound).

(** ** The quota reconciler *)

(** Each mailbox as it was listed; a failure to add up the attachments leaves them out. *)
Fixpoint reconcile_each (accounts : list (Z * Z)) (updated : Z) : P Z :=
  match accounts with
  | [] => Ret updated
  | (mb, recorded) :: rest =>
      actual <- Messages.db (MMessageBytes mb) ;
      match actual with
      | Err _ => reconcile_each rest updated
      | Ok actual =>
          more <- Messages.db (MAttachmentBytes mb) ;
          let total := actual + match more with Ok n => n | Err _ => 0 end in
          if total =? recorded then reconcile_each rest updated
          else Messages.db (MSetUsed mb total) ;; reconcile_each rest (updated + 1)
      end
  end.
Definition reconcile : P (result unit Z) :=
  accounts <-! Messages.db MAccounts ;
  n <- reconcile_each accounts 0 ; Ret (Ok n).

(** ** The routes: RegisterMessages, RegisterFolders, registerSubscriptions, RegisterQuarantine *)

Inductive Request :=
| RqListMessages (req : listMessagesRequest)
| RqGetMessage (id : Z)
| RqGetRawMessage (id : Z)
| RqUpdateMessage (id : Z) (req : Changes)
| RqDeleteMessage (id : Z) (permanent : string)
| RqListFolders (id : Z)
| RqCreateFolder (id : Z) (name : string)
| RqRenameFolder (id : Z) (folder name : string)
| RqDeleteFolder (id : Z) (folder : string)
| RqGetQuota (id : Z)
| RqListSubscriptions (id : Z)
| RqSubscribe (id : Z) (folder : string)
| RqUnsubscribe (id : Z) (folder : string)
| RqSaveDraft (body : saveDraftBody)
| RqUpdateDraft (id : Z) (body : updateDraftBody)
| RqGetThread (id : Z) (threadID : string)
| RqSnoozeThread (id : Z) (threadID : string) (until : option Time)
| RqSetThreadDue (id : Z) (threadID : string) (due : option string) (source : string)
| RqListCalendarEvents (id : Z)
| RqListQuarantine (id : Z) (limit offset : option Z)
| RqReleaseQuarantine (id mid : Z)
| RqDeleteQuarantine (id mid : Z).
Definition served {A} (p : P (result refusal A)) : P (option refusal) :=
  r <- p ; Ret (match r with Ok _ => None | Err e => Some e end).
(** What a request is refused with, if it is. *)
Definition handle (claims : option Claims) (r : Request) : P (option refusal) :=
  match r with
  | RqListMessages req => served (listMessages claims req)
  | RqGetMessage id => served (getMessage claims id)
  | RqGetRawMessage id => served (getRawMessage claims id)
  | RqUpdateMessage id req => served (updateMessage claims id req)
  | RqDeleteMessage id permanent => served (deleteMessage claims id permanent)
  | RqListFolders id => served (listFolders claims id)
  | RqCreateFolder id name => served (createFolder claims id name)
  | RqRenameFolder id folder name => served (renameFolder claims id folder name)
  | RqDeleteFolder id folder => served (deleteFolder claims id folder)
  | RqGetQuota id => served (getQuota claims id)
  | RqListSubscriptions id => served (listSubscriptions claims id)
  | RqSubscribe id folder => served (subscribeFolder claims id folder)
  | RqUnsubscribe id folder => served (unsubscribeFolder claims id folder)
  | RqSaveDraft body => served (saveDraft claims body)
  | RqUpdateDraft id body => served (updateDraft claims id body)
  | RqGetThread id threadID => served (getThread claims id threadID)
  | RqSnoozeThread id threadID until => served (snoozeThread claims id threadID until)
  | RqSetThreadDue id threadID due source => served (setThreadDue claims id threadID due source)
  | RqListCalendarEvents id => served (listCalendarEvents claims id)
  | RqListQuarantine id limit offset => served (listQuarantine claims id limit offset)
  | RqReleaseQuarantine id mid => served (releaseQuarantine claims id mid)
  | RqDeleteQuarantine id mid => served (deleteQuarantine claims id mid)
  end.
End Handlers.
End Mailboxes.
