(* ===== verification/StorageExact.v ===== *)
(** * What an account is charged for is what it stores

    [used], the recorded bytes of a mailbox, follows [stored], the bytes of its messages and
    their attachments, through deliveries, purges, moves and releases in any order; the
    reconciler sets them equal again. Also what a deletion of a folder and a draft leave
    wrong. *)

From S2P Require Import Prelude GoTime GoStrings StorageQuota Threads MessageStore.
Import GoTime GoStrings MessageStore.
Local Open Scope Z_scope.

Module StorageExact.

(** ** Sums *)

Lemma sum_cons x l : sum (x :: l) = x + sum l.
Proof. done. Qed.
Lemma sum_app l k : sum (l ++ k) = sum l + sum k.
Proof. unfold sum. induction l as [|x l IH]; [done|]. cbn. rewrite IH. lia. Qed.
Lemma sum_nonneg l : Forall (fun n => 0 <= n) l -> 0 <= sum l.
Proof. induction 1; [done|]. cbn. unfold sum in IHForall. lia. Qed.
Lemma sum_zero {A} (f : A -> Z) l : (forall a, a ∈ l -> f a = 0) -> sum (f <$> l) = 0.
Proof.
  induction l as [|a l IH]; intros N; [done|]. rewrite fmap_cons, sum_cons, IH, (N a) by (intros; try apply N; by constructor). done.
Qed.
Lemma sum_ext {A} (f g : A -> Z) l : (forall a, a ∈ l -> f a = g a) -> sum (f <$> l) = sum (g <$> l).
Proof. intros E. f_equal. apply list_fmap_ext. intros i x L. apply E. by eapply list_elem_of_lookup_2. Qed.
(** A sum over the rows that pass a test. *)
Definition where_ {A} (p : A -> bool) (f : A -> Z) (a : A) : Z := if p a then f a else 0.
Lemma sum_where {A} (p : A -> bool) (f : A -> Z) l : sum (f <$> List.filter p l) = sum (where_ p f <$> l).
Proof.
  induction l as [|a l IH]; [done|]. rewrite fmap_cons, sum_cons, <- IH. unfold where_. cbn [List.filter].
  destruct (p a); [by rewrite fmap_cons, sum_cons|lia].
Qed.
Lemma sum_minus {A} (f g h : A -> Z) (b : bool) l : (forall a, a ∈ l -> f a = g a - (if b then h a else 0)) ->
  sum (f <$> l) = sum (g <$> l) - (if b then sum (h <$> l) else 0).
Proof.
  induction l as [|a l IH]; intros E; [by destruct b|]. rewrite !fmap_cons, !sum_cons, (E a), IH by (intros; try apply E; by constructor). destruct b; lia.
Qed.
Lemma sum_fmap_le {A} (f : A -> Z) l a : (forall x, x ∈ l -> 0 <= f x) -> a ∈ l -> f a <= sum (f <$> l).
Proof.
  induction l as [|x l IH]; intros N I; [by apply elem_of_nil in I|]. rewrite fmap_cons, sum_cons.
  apply elem_of_cons in I as [->|I].
  - assert (0 <= sum (f <$> l)); [|lia]. apply sum_nonneg, Forall_fmap, Forall_forall. intros y Y. apply N. by right.
  - assert (0 <= f x) by (apply N; by left). assert (f a <= sum (f <$> l)); [|lia]. apply IH; [|done]. intros y Y. apply N. by right.
Qed.
Lemma sum_without {A} (key : A -> Z) (f : A -> Z) l m : NoDup (key <$> l) -> m ∈ l ->
  sum (f <$> List.filter (fun x => negb (key x =? key m)) l) = sum (f <$> l) - f m.
Proof.
  induction l as [|x l IH]; intros N I; [by apply elem_of_nil in I|]. rewrite fmap_cons in N. apply NoDup_cons in N as [X N]. cbn [List.filter].
  apply elem_of_cons in I as [->|I].
  - rewrite Z.eqb_refl. cbn [negb]. rewrite fmap_cons, sum_cons.
    assert (E : List.filter (fun y => negb (key y =? key x)) l = l).
    { clear IH N. induction l as [|y l IH]; [done|]. cbn. rewrite fmap_cons, not_elem_of_cons in X. destruct X as [X1 X2].
      destruct (key y =? key x) eqn:K; [lia|]. cbn. by rewrite IH. }
    rewrite E. lia.
  - assert (K : key x =? key m = false).
    { apply Z.eqb_neq. intros K. apply X. rewrite K. by apply list_elem_of_fmap_2. }
    rewrite K. cbn [negb]. rewrite !fmap_cons, !sum_cons, IH by done. lia.
Qed.

(** ** What is stored, what is charged *)

Definition bytes_of_message (atts : list Attachment) (id : Z) : Z := sum (where_ (fun a => AtMessage a =? id) AtSize <$> atts).
Definition weight (atts : list Attachment) (m : Message) : Z := if IsDeleted m then 0 else SizeBytes m + bytes_of_message atts (ID m).
Definition stored (mb : Z) (t : Tables) : Z := sum (where_ (of_mailbox mb) (weight (attachments t)) <$> messages t).
Definition exact (t : Tables) : Prop := forall q, q ∈ quotas t -> StorageQuota.QuotaUsedBytes q = stored (StorageQuota.ID q) t.
Definition sized (next : Z) (atts : list Attachment) (m : Message) : Prop :=
  ID m < next /\ 0 <= SizeBytes m /\ (forall a, a ∈ atts -> AtMessage a = ID m -> HasAttachments m = true).
Definition wf (t : Tables) : Prop :=
  NoDup (ID <$> messages t) /\ NoDup (StorageQuota.ID <$> quotas t) /\ Forall (sized (next_message t) (attachments t)) (messages t) /\
  Forall (fun a => AtMessage a < next_message t /\ 0 <= AtSize a) (attachments t).

Lemma attached_weight id t : attached_bytes id t = bytes_of_message (attachments t) id.
Proof. apply sum_where. Qed.
Lemma stored_parts mb t : stored mb t = message_bytes mb t + attachment_bytes mb t.
Proof.
  unfold stored, message_bytes, attachment_bytes, live_of. rewrite !sum_where. generalize (messages t). intros l.
  induction l as [|m l IH]; [done|]. rewrite !fmap_cons, !sum_cons, IH.
  unfold where_, weight. rewrite attached_weight. destruct (of_mailbox mb m), (IsDeleted m); cbn; lia.
Qed.
Lemma bytes_nonneg next atts id : Forall (fun a => AtMessage a < next /\ 0 <= AtSize a) atts -> 0 <= bytes_of_message atts id.
Proof.
  intros F. apply sum_nonneg, Forall_fmap. eapply Forall_impl; [exact F|]. intros a [_ S]. unfold where_. cbn. by destruct (_ =? _).
Qed.
Lemma weight_nonneg t m : wf t -> m ∈ messages t -> 0 <= weight (attachments t) m.
Proof.
  intros (_ & _ & S & A) I. apply (proj1 (Forall_forall _ _) S) in I as (_ & N & _). pose proof (bytes_nonneg _ _ (ID m) A).
  unfold weight. destruct (IsDeleted m); lia.
Qed.
Lemma no_bytes_yet next atts id : Forall (fun a => AtMessage a < next /\ 0 <= AtSize a) atts -> next <= id -> bytes_of_message atts id = 0.
Proof.
  intros F L. apply sum_zero. intros a I. apply (proj1 (Forall_forall _ _) F) in I as [B _]. unfold where_. by destruct (AtMessage a =? id) eqn:E; [lia|].
Qed.

(** ** Rows changed in place *)

(** The columns that say what a row stores. *)
Definition same_storage (x m : Message) : Prop :=
  ID x = ID m /\ MailboxID x = MailboxID m /\ SizeBytes x = SizeBytes m /\ IsDeleted x = IsDeleted m /\ HasAttachments x = HasAttachments m.
Lemma same_weight atts x m : same_storage x m -> weight atts x = weight atts m.
Proof. unfold weight. by intros (-> & _ & -> & -> & _). Qed.
Lemma same_sized next atts x m : same_storage x m -> sized next atts m -> sized next atts x.
Proof. unfold sized. intros (-> & _ & -> & _ & ->). done. Qed.
Lemma update_fmap {A} (p : A -> bool) f (l : list A) : update p f l = (fun a => if p a then f a else a) <$> l.
Proof. done. Qed.
Lemma updated_keeps p f t : (forall m, m ∈ messages t -> p m = true -> same_storage (f m) m) -> wf t -> exact t ->
  wf (with_messages (update p f (messages t)) t) /\ exact (with_messages (update p f (messages t)) t).
Proof.
  intros S (N & NQ & SZ & A) E. assert (S' : forall m, m ∈ messages t -> same_storage (if p m then f m else m) m).
  { intros m I. destruct (p m) eqn:P; [by apply S|]. by repeat split. }
  assert (IDS : ID <$> update p f (messages t) = ID <$> messages t).
  { rewrite update_fmap, <- list_fmap_compose. apply list_fmap_ext. intros i m L. apply list_elem_of_lookup_2 in L. by apply S'. }
  split.
  - split; cbn; [by rewrite IDS|]. split; [done|]. split; [|done]. apply Forall_forall. intros x I. rewrite update_fmap in I.
    apply list_elem_of_fmap in I as (m & -> & I). eapply same_sized; [by apply S'|]. by apply (proj1 (Forall_forall _ _) SZ).
  - intros q Q. cbn in Q. rewrite (E q Q). unfold stored. cbn. rewrite update_fmap, <- list_fmap_compose. apply sum_ext. intros m I.
    unfold where_, of_mailbox. cbn. rewrite (same_weight _ _ _ (S' m I)). destruct (S' m I) as (_ & -> & _). done.
Qed.

(** ** Rows come *)

(** Adding to a mailbox's record. *)
Definition recharge (mb n : Z) (q : StorageQuota.Mailbox) : StorageQuota.Mailbox :=
  if StorageQuota.ID q =? mb then {| StorageQuota.ID := StorageQuota.ID q; StorageQuota.OwnerID := StorageQuota.OwnerID q;
    StorageQuota.QuotaBytes := StorageQuota.QuotaBytes q; StorageQuota.QuotaUsedBytes := n |} else q.
Lemma insert_rows at_ m t : let '(x, t') := insert at_ m t in
  ID x = next_message t /\ messages t' = messages t ++ [x] /\ attachments t' = attachments t /\ quotas t' = quotas t /\
  next_message t' = next_message t + 1 /\ MailboxID x = MailboxID m /\ SizeBytes x = SizeBytes m /\ IsDeleted x = IsDeleted m /\
  HasAttachments x = HasAttachments m /\ held t' = held t /\ usage t' = usage t /\ versions t' = versions t.
Proof. unfold insert. destruct (IsZero (ReceivedAt m)); by repeat split. Qed.
(** A row with its attachments comes in, and its mailbox is charged for it. *)
Lemma added_exact t t' x more :
  wf t -> exact t -> ID x = next_message t -> 0 <= SizeBytes x -> Forall (fun a => AtMessage a = ID x /\ 0 <= AtSize a) more ->
  (more <> [] -> HasAttachments x = true) ->
  messages t' = messages t ++ [x] -> attachments t' = attachments t ++ more -> next_message t' = next_message t + 1 ->
  quotas t' = StorageQuota.charge (MailboxID x) (weight more x) <$> quotas t ->
  wf t' /\ exact t'.
Proof.
  intros (N & NQ & SZ & A) E X P MO HA EM EA EN EQ.
  assert (OLD : forall m, m ∈ messages t -> bytes_of_message (attachments t ++ more) (ID m) = bytes_of_message (attachments t) (ID m)).
  { intros m I. unfold bytes_of_message. rewrite fmap_app, sum_app, (sum_zero _ more); [lia|]. intros a J.
    apply (proj1 (Forall_forall _ _) MO) in J as [J _]. apply (proj1 (Forall_forall _ _) SZ) in I as (I & _). unfold where_.
    by destruct (AtMessage a =? ID m) eqn:K; [lia|]. }
  assert (NEW : weight (attachments t ++ more) x = weight more x).
  { unfold weight. destruct (IsDeleted x); [done|]. unfold bytes_of_message. rewrite fmap_app, sum_app.
    fold (bytes_of_message (attachments t) (ID x)). rewrite (no_bytes_yet _ _ _ A) by lia. lia. }
  assert (STORED : forall mb, stored mb t' = stored mb t + (if MailboxID x =? mb then weight more x else 0)).
  { intros mb. unfold stored. rewrite EM, EA, fmap_app, sum_app. cbn. rewrite Z.add_0_r. f_equal.
    - apply sum_ext. intros m I. unfold where_, weight. by rewrite (OLD m I).
    - unfold where_ at 1, of_mailbox. by rewrite NEW. }
  split.
  - split; [rewrite EM, fmap_app; apply NoDup_app; split; [done|]; split; [|apply NoDup_singleton]|].
    { intros i (m & -> & I)%list_elem_of_fmap J. apply list_elem_of_singleton in J. apply (proj1 (Forall_forall _ _) SZ) in I as (I & _). lia. }
    split; [by rewrite EQ, StorageQuota.charged_ids|]. rewrite EM, EA, EN. split.
    + apply Forall_app. split; [|apply Forall_singleton].
      * apply Forall_forall. intros m I. destruct (proj1 (Forall_forall _ _) SZ _ I) as (L & S & HM). split; [lia|]. split; [done|].
        intros a [J|J]%elem_of_app K; [by apply (HM a)|]. apply (proj1 (Forall_forall _ _) MO) in J as [J _]. lia.
      * split; [lia|]. split; [done|]. intros a [J|J]%elem_of_app K; [apply (proj1 (Forall_forall _ _) A) in J as [J _]; lia|].
        apply HA. intros ->. by apply elem_of_nil in J.
    + apply Forall_app. split; [eapply Forall_impl; [exact A|]; intros a [L S]; split; [lia|done]|].
      eapply Forall_impl; [exact MO|]. intros a [L S]. split; [lia|done].
  - intros q Q. rewrite EQ in Q. apply list_elem_of_fmap in Q as (q0 & -> & Q). rewrite StorageQuota.charge_id, STORED. rewrite <- (E q0 Q).
    unfold StorageQuota.charge. rewrite Z.eqb_sym. destruct (_ =? _); cbn; lia.
Qed.

(** ** Rows go *)

Lemma give_back_rows mb n t : messages (give_back mb n t) = messages t /\ attachments (give_back mb n t) = attachments t /\
  next_message (give_back mb n t) = next_message t.
Proof. unfold give_back. by destruct (0 <? n). Qed.
Lemma give_back_quotas mb n t : 0 <= n -> quotas (give_back mb n t) =
  (fun q => recharge mb (if 0 <? n then Z.max (StorageQuota.QuotaUsedBytes q - n) 0 else StorageQuota.QuotaUsedBytes q) q) <$> quotas t.
Proof.
  intros P. unfold give_back. destruct (0 <? n); [done|]. rewrite <- (list_fmap_id (quotas t)) at 1. apply list_fmap_ext. intros i q _.
  unfold recharge. destruct (_ =? _); [by destruct q|done].
Qed.
Lemma recharge_id mb n q : StorageQuota.ID (recharge mb n q) = StorageQuota.ID q.
Proof. unfold recharge. by destruct (_ =? _). Qed.
(** Rows go, and their mailbox gets their bytes back. *)
Lemma gone_exact t t' mb n :
  wf t -> exact t -> 0 <= n -> (forall x, x ∈ messages t' -> x ∈ messages t) -> NoDup (ID <$> messages t') ->
  (forall a, a ∈ attachments t' -> a ∈ attachments t) -> next_message t' = next_message t -> quotas t' = quotas (give_back mb n t) ->
  (forall i, stored i t' = stored i t - (if i =? mb then n else 0)) -> (forall i, 0 <= stored i t') ->
  wf t' /\ exact t'.
Proof.
  intros (N & NQ & SZ & A) E P SUB ND SUBA EN EQ ST POS. rewrite give_back_quotas in EQ by done. split.
  - split; [done|]. split.
    { rewrite EQ, <- list_fmap_compose. erewrite list_fmap_ext; [exact NQ|]. intros i q _. apply recharge_id. }
    rewrite EN. split; apply Forall_forall; intros x I.
    + destruct (proj1 (Forall_forall _ _) SZ _ (SUB _ I)) as (L & S & HM). split; [done|]. split; [done|]. intros a J. by apply HM, SUBA.
    + by apply (proj1 (Forall_forall _ _) A), SUBA.
  - intros q Q. rewrite EQ in Q. apply list_elem_of_fmap in Q as (q0 & -> & Q). rewrite recharge_id, ST.
    pose proof (POS (StorageQuota.ID q0)) as PS. rewrite ST in PS. rewrite <- (E q0 Q) in *. unfold recharge.
    destruct (StorageQuota.ID q0 =? mb); cbn; [|lia]. destruct (0 <? n) eqn:Z; lia.
Qed.
Lemma stored_nonneg t mb : wf t -> 0 <= stored mb t.
Proof.
  intros W. apply sum_nonneg, Forall_fmap, Forall_forall. intros m I. unfold where_. cbn. destruct (of_mailbox mb m); [by apply weight_nonneg|done].
Qed.
Lemma nodup_fmap_filter {A B} (f : A -> B) (p : A -> bool) l : NoDup (f <$> l) -> NoDup (f <$> List.filter p l).
Proof.
  induction l as [|x l IH]; [done|]. rewrite fmap_cons. intros [X N]%NoDup_cons. cbn. destruct (p x); [|by apply IH].
  rewrite fmap_cons. apply NoDup_cons. split; [|by apply IH]. intros (y & E & I)%list_elem_of_fmap. apply X. rewrite E.
  apply list_elem_of_fmap_2. apply list_elem_of_In, filter_In in I as [I _]. by apply list_elem_of_In.
Qed.
Lemma in_filter {A} (p : A -> bool) l x : x ∈ List.filter p l <-> x ∈ l /\ p x = true.
Proof. rewrite !list_elem_of_In. apply filter_In. Qed.

(** deleteMessage's purge, of a row as it was loaded: the row is as it was, or gone. *)
Definition as_loaded (m : Message) (t : Tables) : Prop := forall x, x ∈ messages t -> ID x = ID m -> same_storage m x.
Definition not_of (id : Z) (a : Attachment) : bool := negb (AtMessage a =? id).
Lemma bytes_without atts id i : i <> id -> bytes_of_message (List.filter (not_of id) atts) i = bytes_of_message atts i.
Proof.
  intros D. unfold bytes_of_message. rewrite <- !sum_where. f_equal. f_equal. induction atts as [|a atts IH]; [done|]. cbn. unfold not_of at 1.
  destruct (AtMessage a =? id) eqn:K; cbn; [|destruct (AtMessage a =? i); by rewrite IH].
  destruct (AtMessage a =? i) eqn:J; [lia|done].
Qed.
Definition unattached (m : Message) (t : Tables) : list Attachment :=
  if HasAttachments m then List.filter (not_of (ID m)) (attachments t) else attachments t.
Lemma unattached_others m t i : i <> ID m -> bytes_of_message (unattached m t) i = bytes_of_message (attachments t) i.
Proof. intros D. unfold unattached. destruct (HasAttachments m); [by apply bytes_without|done]. Qed.
Lemma unattached_sub m t a : a ∈ unattached m t -> a ∈ attachments t.
Proof. unfold unattached. destruct (HasAttachments m); [by intros [I _]%in_filter|done]. Qed.
Lemma purge_rows m t : exists gone t', purge m t = (gone, t') /\ attachments t' = unattached m t /\ next_message t' = next_message t /\
  messages t' = List.filter (fun x => negb (ID x =? ID m)) (messages t) /\
  ((gone = true /\ quotas t' = quotas (give_back (MailboxID m) (if IsDeleted m then 0 else SizeBytes m + (if HasAttachments m then attached_bytes (ID m) t else 0)) t)
     /\ exists x, x ∈ messages t /\ ID x = ID m)
   \/ (gone = false /\ quotas t' = quotas t /\ forall x, x ∈ messages t -> ID x <> ID m)).
Proof.
  assert (STAY : (forall x, x ∈ messages t -> ID x <> ID m) -> List.filter (fun x => negb (ID x =? ID m)) (messages t) = messages t).
  { induction (messages t) as [|x l IH]; intros F; [done|]. cbn. destruct (ID x =? ID m) eqn:K; [apply Z.eqb_eq in K; destruct (F x); [by left|done]|].
    cbn. rewrite IH; [done|]. intros y Y. apply F. by right. }
  unfold purge, unattached. set (n := if IsDeleted m then 0 else _). set (t0 := if HasAttachments m then with_attachments _ t else t).
  assert (T0 : messages t0 = messages t /\ next_message t0 = next_message t /\ quotas t0 = quotas t /\
    attachments t0 = if HasAttachments m then List.filter (not_of (ID m)) (attachments t) else attachments t)
    by (unfold t0; by destruct (HasAttachments m)).
  destruct T0 as (M & NX & QT & AT). rewrite M. destruct (existsb _ _) eqn:EX; eexists _, _; (split; [reflexivity|]).
  - destruct (give_back_rows (MailboxID m) n (with_messages (List.filter (fun x => negb (ID x =? ID m)) (messages t)) t0)) as (-> & -> & ->).
    do 3 (split; [done|]). left. split; [done|]. split; [unfold give_back; destruct (0 <? n); cbn; by rewrite QT|].
    apply existsb_elem in EX as (x & I & K). apply Z.eqb_eq in K. by exists x.
  - do 2 (split; [done|]). assert (F : forall x, x ∈ messages t -> ID x <> ID m).
    { intros x I K. assert (existsb (fun y => ID y =? ID m) (messages t) = true) as EX' by (apply existsb_elem; exists x; split; [done|by apply Z.eqb_eq]). congruence. }
    split; [rewrite M; symmetry; by apply STAY|]. right. by split_and!.
Qed.
Lemma purge_exact m t : as_loaded m t -> wf t -> exact t -> wf (snd (purge m t)) /\ exact (snd (purge m t)).
Proof.
  intros L W E. pose proof W as (N & NQ & SZ & A). destruct (purge_rows m t) as (gone & t' & -> & EA & EN & EM & C). cbn [snd].
  assert (ND : NoDup (ID <$> messages t')) by (rewrite EM; by apply nodup_fmap_filter).
  assert (SUB : forall x, x ∈ messages t' -> x ∈ messages t) by (rewrite EM; by intros x [I _]%in_filter).
  assert (SUBA : forall a, a ∈ attachments t' -> a ∈ attachments t) by (rewrite EA; apply unattached_sub).
  assert (W' : forall x, x ∈ messages t' -> weight (attachments t') x = weight (attachments t) x).
  { intros x I. rewrite EM in I. apply in_filter in I as [I D]. apply negb_true_iff, Z.eqb_neq in D. unfold weight. by rewrite EA, unattached_others. }
  assert (ST : forall i, stored i t' = sum (where_ (of_mailbox i) (weight (attachments t)) <$> messages t')).
  { intros i. apply sum_ext. intros x I. unfold where_. by rewrite (W' x I). }
  assert (POS : forall i, 0 <= stored i t').
  { intros i. rewrite ST. apply sum_nonneg, Forall_fmap, Forall_forall. intros x I. unfold where_. cbn. destruct (of_mailbox i x); [|done]. apply weight_nonneg; [done|by apply SUB]. }
  destruct C as [(-> & EQ & x & I & K)|(-> & EQ & F)].
  - pose proof (L x I K) as S. assert (WM : (if IsDeleted m then 0 else SizeBytes m + (if HasAttachments m then attached_bytes (ID m) t else 0)) = weight (attachments t) x).
    { rewrite <- (same_weight _ _ _ S). unfold weight. rewrite attached_weight. destruct (IsDeleted m); [done|]. destruct (HasAttachments m) eqn:HA; [done|]. f_equal.
      symmetry. apply sum_zero. intros a J. unfold where_. destruct (AtMessage a =? ID m) eqn:Q; [|done]. apply Z.eqb_eq in Q.
      destruct (proj1 (Forall_forall _ _) SZ _ I) as (_ & _ & HX). destruct S as (_ & _ & _ & _ & S). rewrite (HX a J) in S by congruence. congruence. }
    rewrite WM in EQ. eapply gone_exact; [done|done|by eapply weight_nonneg|done|done|done|done|done| |done]. intros i. rewrite ST, EM, <- K, sum_without by done.
    fold (stored i t). unfold where_, of_mailbox. destruct S as (_ & <- & _). rewrite (Z.eqb_sym i). destruct (_ =? i); lia.
  - eapply (gone_exact t t' 0 0); try done. intros i. rewrite ST. replace (if i =? 0 then 0 else 0) with 0 by (by destruct (_ =? _)). rewrite Z.sub_0_r.
    unfold stored. f_equal. f_equal. rewrite EM. clear - F. induction (messages t) as [|x l IH]; [done|]. cbn. destruct (ID x =? ID m) eqn:K; [apply Z.eqb_eq in K; destruct (F x); [by left|done]|].
    cbn. f_equal. apply IH. intros y Y. apply F. by right.
Qed.

(** ** Statements *)

(** deleteFolder's transaction gives back the rows' own sizes. *)
Definition bare (mb : Z) (folder : string) (t : Tables) : Prop := forall m, m ∈ messages t -> of_folder mb folder m = true ->
  if IsDeleted m then SizeBytes m = 0 else bytes_of_message (attachments t) (ID m) = 0.
Lemma drop_folder_exact mb folder t : bare mb folder t -> wf t -> exact t ->
  wf (snd (drop_folder mb folder t)) /\ exact (snd (drop_folder mb folder t)).
Proof.
  intros B W E. pose proof W as (N & NQ & SZ & A). unfold drop_folder. destruct (List.filter (of_folder mb folder) (messages t)) as [|m0 more] eqn:G; [done|].
  rewrite <- G. cbn [snd]. set (n := sum _). set (t1 := with_messages _ t).
  destruct (give_back_rows mb n t1) as (EM & EA & EN).
  assert (P : 0 <= n).
  { apply sum_nonneg, Forall_fmap, Forall_forall. intros m [I _]%in_filter. by destruct (proj1 (Forall_forall _ _) SZ _ I) as (_ & S & _). }
  assert (W1 : forall i, 0 <= stored i t1).
  { intros i. apply sum_nonneg, Forall_fmap, Forall_forall. intros x [I _]%in_filter. unfold where_. cbn. destruct (of_mailbox i x); [by apply weight_nonneg|done]. }
  assert (ST : forall i, stored i (give_back mb n t1) = stored i t1) by (intros i; unfold stored; by rewrite EM, EA).
  eapply (gone_exact t _ mb n); try done.
  - rewrite EM. by intros x [I _]%in_filter.
  - rewrite EM. by apply nodup_fmap_filter.
  - by rewrite EA.
  - unfold give_back. by destruct (0 <? n).
  - intros i. rewrite ST. unfold stored, n. cbn [t1 with_messages messages attachments]. rewrite !sum_where.
    apply sum_minus. intros m I. specialize (B m I). unfold where_, of_folder, of_mailbox in *. destruct (MailboxID m =? mb) eqn:MB; cbn [andb negb] in *.
    + apply Z.eqb_eq in MB. rewrite MB, (Z.eqb_sym i). destruct (bool_decide (Folder m = folder)); cbn [negb]; destruct (mb =? i); try lia.
      specialize (B eq_refl). unfold weight. destruct (IsDeleted m); lia.
    + rewrite Tauto.if_same. lia.
  - intros i. by rewrite ST.
Qed.

(** What keeps the record: a purge of a row as it was loaded, a marker, a move of a draft
    that stays in its mailbox, a delivered message that is not deleted and whose attachments
    are said, a released message of its own mailbox, a record set to what is stored. *)
Definition accounted {X} (s : M X) (t : Tables) : Prop :=
  match s with
  | MPurge m => as_loaded m t
  | MCreate m => 0 <= SizeBytes m /\ (IsDeleted m = true \/ SizeBytes m = 0)
  | MRedraft _ mb c => DrMailbox c = mb
  | MDeleteFolder mb folder => bare mb folder t
  | MDeliver m atts _ => IsDeleted m = false /\ 0 <= SizeBytes m /\ Forall (fun a => 0 <= AtSize a) atts /\ (atts <> [] -> HasAttachments m = true)
  | MRelease mb _ make => forall h rows, MailboxID (make h rows) = HlMailbox h /\ IsDeleted (make h rows) = false /\ 0 <= SizeBytes (make h rows)
  | MSetUsed mb n => n = stored mb t
  | _ => True
  end.

(** Tables that store and charge the same. *)
Definition same_bytes (t t' : Tables) : Prop :=
  messages t' = messages t /\ attachments t' = attachments t /\ quotas t' = quotas t /\ next_message t' = next_message t.
Lemma same_bytes_exact t t' : same_bytes t t' -> wf t -> exact t -> wf t' /\ exact t'.
Proof.
  intros (M & A & QT & N) W E. unfold wf, exact, stored. rewrite M, A, QT, N. done.
Qed.
Lemma inserted_exact at_ m t t0 n :
  same_bytes t0 t -> wf t0 -> exact t0 -> 0 <= SizeBytes m -> n = weight [] m ->
  wf (with_quotas (StorageQuota.charge (MailboxID m) n <$> quotas t) (snd (insert at_ m t))) /\
  exact (with_quotas (StorageQuota.charge (MailboxID m) n <$> quotas t) (snd (insert at_ m t))).
Proof.
  intros (EM & EA & EQ & EN) W E P ->. pose proof (insert_rows at_ m t) as I. destruct (insert at_ m t) as [x t'].
  destruct I as (I & M & A & QT & N & MB & SZ & D & HA & _). cbn [snd].
  apply (added_exact t0 _ x []); cbn; [done|done|congruence|by rewrite SZ|constructor|done|congruence| |congruence|].
  - by rewrite app_nil_r, A.
  - rewrite MB, EQ. unfold weight. by rewrite D, SZ.
Qed.
Lemma charge_nothing mb (l : list StorageQuota.Mailbox) : StorageQuota.charge mb 0 <$> l = l.
Proof.
  rewrite <- (list_fmap_id l) at 2. apply list_fmap_ext. intros i q _. unfold StorageQuota.charge. destruct (_ =? _); [|done]. rewrite Z.add_0_r. by destruct q.
Qed.
Lemma deliver_exact at_ m atts events t x t' : accounted (MDeliver m atts events) t -> wf t -> exact t ->
  deliver at_ m atts events t = Ok (x, t') -> wf t' /\ exact t'.
Proof.
  intros (D & P & AP & HA) W E. unfold deliver. destruct (StorageQuota.ReserveStorage _ _ _ _ _) as [qs|e] eqn:R; [|done]. cbn -[insert].
  apply StorageQuota.reserve_chain in R as (c & left & _ & _ & _ & -> & _).
  pose proof (insert_rows at_ m (with_quotas (StorageQuota.charge (MailboxID m) (SizeBytes m + sum (AtSize <$> atts)) <$> quotas t) t)) as I.
  destruct (insert at_ m _) as [y t1]. destruct I as (I & M & A & QT & N & MB & SZ & DL & HAS & _). cbn in *. intros [= <- <-].
  assert (BY : bytes_of_message (attached_to (ID y) <$> atts) (ID y) = sum (AtSize <$> atts)).
  { unfold bytes_of_message. rewrite <- list_fmap_compose. apply sum_ext. intros a _. unfold where_. cbn. by rewrite Z.eqb_refl. }
  apply (added_exact t _ y (attached_to (ID y) <$> atts)); cbn; [done|done|congruence|by rewrite SZ| | |by rewrite M|by rewrite A|congruence|].
  - apply Forall_fmap. eapply Forall_impl; [exact AP|]. by intros a S.
  - rewrite HAS. intros NE. apply HA. by intros ->.
  - rewrite QT, MB. unfold weight. by rewrite DL, D, BY, SZ.
Qed.
Lemma release_exact at_ mb mid make t x t' : accounted (MRelease mb mid make) t -> wf t -> exact t ->
  release at_ mb mid make t = Some (x, t') -> wf t' /\ exact t'.
Proof.
  intros AC W E. unfold release. destruct (List.find _ _) as [item|] eqn:F; [|done]. cbn [mbind option_bind].
  apply find_some in F as [_ F]. apply andb_prop in F as [_ F]. apply Z.eqb_eq in F.
  set (t1 := with_held (update (fun h => HlID h =? HlID item) released (held t)) (next_held t) t). set (m := make item (parents mb t1)).
  destruct (AC item (parents mb t1)) as (MB & D & P). fold m in MB, D, P.
  pose proof (inserted_exact at_ m t1 t (weight [] m) ltac:(done) W E P eq_refl) as K.
  pose proof (insert_rows at_ m t1) as I. destruct (insert at_ m t1) as [y t2]. cbn [snd] in K.
  destruct I as (_ & _ & _ & QT & _ & _ & SZ & _ & _ & _). destruct (quota_row mb t2); cbn; [|done]. intros [= <- <-].
  rewrite MB, F in K. rewrite QT, SZ. unfold weight in K. rewrite D in K. cbn in K. by rewrite Z.add_0_r in K.
Qed.
Lemma set_used_exact mb t : wf t -> exact t -> wf (set_used mb (stored mb t) t) /\ exact (set_used mb (stored mb t) t).
Proof.
  intros (N & NQ & SZ & A) E. split.
  - split; [done|]. split; [|done]. cbn. rewrite update_fmap, <- list_fmap_compose. erewrite list_fmap_ext; [exact NQ|]. intros i q _. cbn. by destruct (_ =? mb).
  - intros q Q. cbn in Q. rewrite update_fmap in Q. apply list_elem_of_fmap in Q as (q0 & -> & Q). destruct (_ =? mb) eqn:K; [cbn; by apply Z.eqb_eq in K as ->|].
    by apply E.
Qed.

Section Steps.
Context `{Unicode}.

Lemma exec_exact at_ {X} (s : M X) t : accounted s t -> wf t -> exact t -> wf (snd (exec at_ s t)) /\ exact (snd (exec at_ s t)).
Proof.
  intros AC W E. destruct s; cbn [exec snd]; try done; try (by eapply same_bytes_exact).
  - apply updated_keeps; [|done|done]. by intros.
  - by apply purge_exact.
  - apply updated_keeps; [|done|done]. by intros.
  - destruct AC as [P Z]. pose proof (inserted_exact at_ m t t 0 ltac:(done) W E P) as K. rewrite charge_nothing in K.
    pose proof (insert_rows at_ m t) as I. destruct (insert at_ m t) as [y t2]. destruct I as (_ & _ & _ & QT & _). cbn [snd] in *.
    eapply (same_bytes_exact (with_quotas (quotas t) t2)); [by split_and!| |]; (apply K; unfold weight; destruct Z as [-> | ->]; [done|by destruct (IsDeleted m)]).
  - apply updated_keeps; [|done|done]. by intros.
  - by apply drop_folder_exact.
  - apply updated_keeps; [|done|done]. intros m I P. apply andb_prop in P as [_ P]. apply Z.eqb_eq in P. cbn in AC. repeat split; cbn. congruence.
  - destruct (deliver at_ m atts events t) as [[y t2]|e] eqn:D; cbn [snd]; [|done]. by eapply deliver_exact.
  - destruct (release at_ mb mid make t) as [[y t2]|] eqn:D; cbn [snd]; [|done]. by eapply release_exact.
  - cbn in AC. rewrite AC. by apply set_used_exact.
Qed.

(** Statements one after another, whoever makes them. *)
Inductive step :=
| Step {X : Type} (at_ : Time) (s : M X).
Definition after_step (t : Tables) (x : step) : Tables := match x with Step at_ s => snd (exec at_ s t) end.
Fixpoint all_accounted (t : Tables) (l : list step) : Prop :=
  match l with
  | [] => True
  | Step at_ s :: rest => accounted s t /\ all_accounted (snd (exec at_ s t)) rest
  end.

End Steps.
End StorageExact.
