(* ===== verification/MailRuns.v ===== *)
(** * The mailbox handlers on the tables

    [serve] runs a handler against the tables with everything else answered by a [World]:
    what the sign-in tables answer, the clock, the random generator. Then what listings,
    renames and the quota reconciler do, as a whole. *)

From S2P Require Import Prelude GoTime GoStrings MailAddress Prog Grants StorageQuota Auth Accounts SignIn Access Threads MessageStore.
From S2P Require Import GoBase64 Messages StorageExact.
From stdpp Require Import sorting.

Module MailRuns.
Import GoTime GoStrings Auth Prog History Accounts SignIn Access MessageStore Messages Mailboxes StorageExact.
Local Open Scope Z_scope.

Record World := {
  answers : outside SignIn.Q;
  clock_now : Time;
  random16 : list Z;
  awaiting : Z -> Message -> option Time
}.

Section Runs.
Context `{Unicode, AuthLib, MailLib, CursorLib, HeaderLib}.
Context (w : World).

Definition answer {X} (t : Tables) (q : Messages.Q X) : X * Tables :=
  match q in Messages.Q X return X * Tables with
  | Messages.QDb m => let '(x, t') := exec (clock_now w) m t in (Ok x, t')
  | QAccount q => (answers w _ q, t)
  | Messages.QNow => (clock_now w, t)
  | QRandom16 => (random16 w, t)
  | QAwaiting mb rows => (Ok (awaiting w mb <$> rows), t)
  | QPublish _ _ => (tt, t)
  end.
Fixpoint serve {A} (t : Tables) (p : prog Messages.Q A) : A * Tables :=
  match p with
  | Ret a => (a, t)
  | Ask q k => let '(x, t') := answer t q in serve t' (k x)
  end.

Lemma serve_bind {A B} t (p : prog Messages.Q A) (f : A -> prog Messages.Q B) :
  serve t (bind p f) = let '(a, t') := serve t p in serve t' (f a).
Proof. revert t. induction p as [a|X q k IH]; intros t; [done|]. cbn. destruct (answer t q) as [x t']. apply IH. Qed.
Lemma serve_try {E A B} t (p : prog Messages.Q (result E A)) (f : A -> prog Messages.Q (result E B)) :
  serve t (try_ p f) = match serve t p with (Ok a, t') => serve t' (f a) | (Err e, t') => (Err e, t') end.
Proof. unfold try_. rewrite serve_bind. by destruct (serve t p) as [[a|e] t']. Qed.
Lemma serve_account {A} t (p : prog SignIn.Q A) : serve t (account p) = (run (answers w) p, t).
Proof. unfold account. induction p as [a|X q k IH]; cbn; [done|]. apply IH. Qed.
Lemma serve_db {X} t (m : M X) : serve t (Messages.db m) = let '(x, t') := exec (clock_now w) m t in (Ok x, t').
Proof. cbn. by destruct (exec _ _ _). Qed.
Lemma serve_else {E F X} t (e : F) (p : prog Messages.Q (result E X)) :
  serve t (Messages.or_else e p) = match serve t p with (Ok a, t') => (Ok a, t') | (Err _, t') => (Err e, t') end.
Proof. unfold Messages.or_else. rewrite serve_bind. by destruct (serve t p) as [[a|e'] t']. Qed.
(** Whether the request reaches the account's mailbox changes nothing. *)
Lemma serve_mailbox t claims id capability : exists r, serve t (accountMailbox claims id capability) = (r, t).
Proof.
  destruct claims as [c|]; [|by eexists]. unfold accountMailbox, reach. rewrite serve_try, serve_bind, serve_account. cbn. destruct (run _ _); by eexists.
Qed.
(** The mailbox a request reaches for an operation, if any. *)
Definition reaches (claims : option Claims) (id : Z) (capability : string) (mb : Z) : Prop :=
  exists c m, claims = Some c /\ run (answers w) (mayReach c id capability) = Ok m /\ AcID m = mb.
Lemma reached_mailbox t claims id capability mb : reaches claims id capability mb -> serve t (accountMailbox claims id capability) = (Ok mb, t).
Proof. intros (c & m & -> & R & <-). unfold accountMailbox, reach. by rewrite serve_try, serve_bind, serve_account, R. Qed.

(** ** The reconciler *)

Lemma set_used_rows mb n t : messages (set_used mb n t) = messages t /\ attachments (set_used mb n t) = attachments t /\
  active (set_used mb n t) = active t /\ StorageQuota.ID <$> quotas (set_used mb n t) = StorageQuota.ID <$> quotas t.
Proof.
  do 3 (split; [done|]). cbn. rewrite update_fmap, <- list_fmap_compose. apply list_fmap_ext. intros i q _. cbn. by destruct (_ =? mb).
Qed.
Definition used_by (t : Tables) (mb n : Z) : Prop := forall q, q ∈ quotas t -> StorageQuota.ID q = mb -> StorageQuota.QuotaUsedBytes q = n.
Lemma set_used_by t mb n i k : used_by (set_used mb n t) i k <-> if i =? mb then (i ∈ StorageQuota.ID <$> quotas t -> k = n) else used_by t i k.
Proof.
  unfold used_by. cbn. rewrite update_fmap. split.
  - intros U. destruct (i =? mb) eqn:E.
    + apply Z.eqb_eq in E as ->. intros (q & EQ & I)%list_elem_of_fmap. specialize (U _ (list_elem_of_fmap_2 _ _ _ I)). cbn in U.
      rewrite <- EQ, Z.eqb_refl in U. symmetry. by apply U.
    + intros q I <-. specialize (U _ (list_elem_of_fmap_2 _ _ _ I)). cbn in U. rewrite E in U. by apply U.
  - intros U q (q0 & -> & I)%list_elem_of_fmap E. destruct (StorageQuota.ID q0 =? mb) eqn:K; cbn in *.
    + rewrite <- E, K in U. symmetry. apply U. by apply list_elem_of_fmap_2.
    + rewrite <- E, K in U. by apply U.
Qed.
Lemma reconcile_each_spec accounts n t :
  NoDup (fst <$> accounts) -> (forall mb r, (mb, r) ∈ accounts -> used_by t mb r) ->
  exists n' t', serve t (reconcile_each accounts n) = (n', t') /\ messages t' = messages t /\ attachments t' = attachments t /\
    forall i, (forall k, i ∉ fst <$> accounts -> used_by t' i k <-> used_by t i k) /\
              (i ∈ fst <$> accounts -> used_by t' i (stored i t)).
Proof.
  revert n t. induction accounts as [|[mb r] accounts IH]; intros n t N U.
  { exists n, t. do 3 (split; [done|]). intros i. split; [done|]. by intros I%elem_of_nil. }
  rewrite fmap_cons in N. apply NoDup_cons in N as [X N]. cbn [reconcile_each]. rewrite serve_bind, serve_db. cbn [exec].
  rewrite serve_bind, serve_db. cbn [exec]. rewrite <- (stored_parts mb t). destruct (stored mb t =? r) eqn:S.
  - destruct (IH n t N ltac:(intros; apply U; by right)) as (n' & t' & -> & M & A & K). exists n', t'. do 3 (split; [done|]). intros i. destruct (K i) as [K1 K2]. split.
    + intros k. rewrite fmap_cons, not_elem_of_cons. intros [_ D]. by apply K1.
    + rewrite fmap_cons, elem_of_cons. intros [-> |I]; [|by apply K2]. apply K1; [done|]. apply Z.eqb_eq in S. cbn. rewrite S. apply U. by left.
  - rewrite serve_bind, serve_db. cbn [exec]. destruct (set_used_rows mb (stored mb t) t) as (M0 & A0 & _ & I0).
    destruct (IH (n + 1) (set_used mb (stored mb t) t) N) as (n' & t' & -> & M & A & K).
    { intros i k I. apply set_used_by. destruct (i =? mb) eqn:E; [|apply U; by right]. apply Z.eqb_eq in E as ->. destruct X. by apply (list_elem_of_fmap_2 fst _ (mb, k)). }
    exists n', t'. split; [done|]. split; [congruence|]. split; [congruence|]. intros i. destruct (K i) as [K1 K2].
    assert (ST : stored i (set_used mb (stored mb t) t) = stored i t) by done. split.
    + intros k. rewrite fmap_cons, not_elem_of_cons. intros [D1 D2]. cbn in D1. rewrite K1 by done. rewrite set_used_by. by destruct (i =? mb) eqn:E; [lia|].
    + rewrite fmap_cons, elem_of_cons. intros [-> |I]; [|rewrite <- ST; by apply K2]. apply K1; [done|]. cbn. apply set_used_by. by rewrite Z.eqb_refl.
Qed.

(** C27: A run of the quota reconciler that nothing interrupts leaves every active account charged for exactly the
    bytes of its messages and their attachments, whatever was recorded before, and changes nothing else: no message,
    no attachment and no inactive account's record. *)
Theorem reconciled (t : Tables) :
  NoDup (StorageQuota.ID <$> quotas t) ->
  exists n t', serve t reconcile = (Ok n, t') /\ messages t' = messages t /\ attachments t' = attachments t /\
    (forall q, q ∈ quotas t' -> StorageQuota.ID q ∈ active t ->
       StorageQuota.QuotaUsedBytes q = message_bytes (StorageQuota.ID q) t' + attachment_bytes (StorageQuota.ID q) t') /\
    (forall i k, i ∉ active t -> used_by t' i k <-> used_by t i k).
Proof.
  intros N. unfold reconcile. rewrite serve_try, serve_db. cbn [exec]. rewrite serve_bind. unfold active_accounts.
  set (l := List.filter _ (quotas t)). set (accounts := (fun q => (StorageQuota.ID q, StorageQuota.QuotaUsedBytes q)) <$> l).
  assert (F : fst <$> accounts = StorageQuota.ID <$> l) by (unfold accounts; by rewrite <- list_fmap_compose).
  destruct (reconcile_each_spec accounts 0 t) as (n & t' & -> & M & A & K).
  { rewrite F. by apply nodup_fmap_filter. }
  { intros mb r (q & E & I)%list_elem_of_fmap q' I' E'. simplify_eq. apply in_filter in I as [I _]. f_equal.
    symmetry. by apply (StorageQuota.nodup_same _ N). }
  exists n, t'. do 3 (split; [done|]). split.
  - intros q I AC. rewrite <- stored_parts. unfold stored. rewrite M, A. fold (stored (StorageQuota.ID q) t). destruct (K (StorageQuota.ID q)) as [K1 K2].
    destruct (decide (StorageQuota.ID q ∈ fst <$> accounts)) as [J|J]; [by apply K2|].
    exfalso. assert (NO : used_by t (StorageQuota.ID q) (StorageQuota.QuotaUsedBytes q + 1)).
    { intros q' I' E'. destruct J. rewrite F, <- E'. apply list_elem_of_fmap_2, in_filter. split; [done|]. apply bool_decide_eq_true. by rewrite E'. }
    apply (K1 _ J) in NO. specialize (NO q I eq_refl). lia.
  - intros i k D. apply K. rewrite F. intros (q & -> & [_ J]%in_filter)%list_elem_of_fmap. by apply bool_decide_eq_true in J.
Qed.

(** ** Renaming *)

Lemma serve_exists t mb folder : serve t (folderExists mb folder) =
  (Ok (bool_decide (folder ∈ listedFolders) || (0 <? count (List.filter (of_folder mb folder) (messages t)))), t).
Proof. unfold folderExists. case_bool_decide; [done|]. rewrite serve_try, serve_else, serve_db. done. Qed.
Lemma none_counted {A} (p : A -> bool) l : 0 <? count (List.filter p l) = false -> forall x, x ∈ l -> p x = false.
Proof.
  intros C x I. destruct (p x) eqn:P; [|done]. assert (J : x ∈ List.filter p l) by (by apply in_filter). apply Z.ltb_ge in C. unfold count in C.
  destruct (List.filter p l); [by apply elem_of_nil in J|]. cbn [length] in C. lia.
Qed.

(** C28: Renaming a folder moves its messages and does nothing else: an answer of success means that a folder of the
    new name did not exist, neither as a message nor among the folders every account lists, that the old one did, and
    that every message of the old folder is now in the new one, unchanged otherwise, no other message touched; any
    refusal leaves everything as it was. *)
Theorem renamed_whole (t : Tables) (claims : option Claims) (id mb : Z) (folder name : string) :
  reaches claims id Held.CapMailWrite mb ->
  let from := Folders.CanonicalFolder folder in let to := Folders.CanonicalFolder name in
  match serve t (renameFolder claims id folder name) with
  | (Ok answer, t') => answer = to /\ Folders.good_name name = true /\ to ∉ listedFolders /\
      (forall m, m ∈ messages t -> of_folder mb to m = false) /\ (exists m, m ∈ messages t /\ of_folder mb from m = true) /\
      t' = with_messages ((fun m => if of_folder mb from m then in_folder to m else m) <$> messages t) t
  | (Err _, t') => t' = t
  end.
Proof.
  intros R from to. unfold renameFolder. rewrite serve_try, (reached_mailbox _ _ _ _ _ R). fold from.
  destruct (Folders.IsStandardFolder from); [done|]. unfold folderNameRefusal. destruct (Folders.good_name name) eqn:G; [|done]. cbn [try_ bind].
  fold to. destruct (Folders.IsStandardFolder to); [done|]. rewrite serve_try, serve_exists. destruct (_ || _); [|done]. cbn [negb].
  rewrite serve_try, serve_exists. destruct (bool_decide (to ∈ listedFolders)) eqn:L; [done|]. cbn [orb]. destruct (0 <? _) eqn:C; [done|].
  rewrite serve_try, serve_else, serve_db. cbn [exec serve]. destruct (count _ =? 0) eqn:Z.
  - apply Z.eqb_eq in Z. assert (N : forall m, m ∈ messages t -> of_folder mb from m = false) by (apply none_counted; by rewrite Z).
    assert (E : update (of_folder mb from) (in_folder to) (messages t) = messages t).
    { rewrite update_fmap. rewrite <- (list_fmap_id (messages t)) at 2. apply list_fmap_ext. intros i m I. by rewrite (N m (list_elem_of_lookup_2 _ _ _ I)). }
    rewrite E. by destruct t.
  - split; [done|]. split; [done|]. apply bool_decide_eq_false in L. split; [done|]. split; [by apply none_counted|]. split; [|done].
    apply Z.eqb_neq in Z. unfold count in Z. destruct (List.filter (of_folder mb from) (messages t)) as [|m l] eqn:F; [done|]. exists m.
    apply in_filter. rewrite F. by left.
Qed.
End Runs.

(** ** Snoozing *)

Section Snooze.
Context `{Unicode, AuthLib, MailLib, CursorLib, HeaderLib}.

Lemma serve_publish_all w t rows : serve w t (publish_all rows) = (tt, t).
Proof. induction rows as [|[mb th] rows IH]; [done|]. cbn [publish_all]. rewrite serve_bind. cbn. apply IH. Qed.

(** A snoozed thread leaves the folder listings and comes back: a snooze is granted only to a moment still to come
    and only of a thread with a message, no listing shows the thread's messages until then unless it asks for snoozed
    ones too, and the first pass of the worker at or after that moment shows them again as if they had never been
    snoozed, the other threads untouched; no message is changed or moved by it. *)
Theorem snooze_ends (w w' : World) (t t1 : Tables) (claims : option Claims) (id mb : Z) (threadID : string) (u : Time) granted :
  reaches w claims id Held.CapMailWrite mb -> serve w t (snoozeThread claims id threadID (Some u)) = (Ok granted, t1) ->
  let t2 := snd (serve w' t1 returnSnoozedThreads) in
  clock_now w < u /\ messages t1 = messages t /\ messages t2 = messages t /\
  (exists m, m ∈ messages t /\ of_thread mb threadID m = true) /\
  (forall folder deleted m, listed mb folder deleted false t1 m = true -> thread m <> threadID) /\
  (u <= clock_now w' -> forall folder deleted m, thread m = threadID -> listed mb folder deleted false t2 m = listed mb folder deleted true t m) /\
  (forall folder deleted m, thread m <> threadID -> listed mb folder deleted false t1 m = listed mb folder deleted false t m).
Proof.
  intros R. unfold snoozeThread. rewrite serve_try, (reached_mailbox _ _ _ _ _ _ R). rewrite serve_bind. cbn [serve bind ask answer].
  destruct (After u (clock_now w)) eqn:AF; [|done]. cbn [negb]. rewrite serve_try, serve_else, serve_db. cbn [exec].
  destruct (count _ =? 0) eqn:C; [done|]. rewrite serve_try, serve_else, serve_db. cbn [exec]. rewrite serve_bind. cbn [serve ask publish answer].
  intros [= <- <-]. cbn zeta. unfold returnSnoozedThreads. rewrite serve_bind. cbn [serve ask answer]. rewrite serve_bind, serve_db. cbn [exec].
  rewrite serve_publish_all. cbn [snd]. unfold After in AF. split; [lia|]. split; [done|]. split; [done|]. split.
  { apply Z.eqb_neq in C. unfold count in C. destruct (List.filter (of_thread mb threadID) (messages t)) as [|m l] eqn:F; [done|].
    exists m. apply in_filter. rewrite F. by left. }
  split; [|split].
  - intros folder deleted m L E. unfold listed in L. apply andb_prop in L as [L V]. do 2 apply andb_prop in L as [L _]. unfold of_folder, of_mailbox in L.
    apply andb_prop in L as [L _]. apply Z.eqb_eq in L. cbn [orb] in V. unfold visible_thread in V. cbn in V. rewrite L, E, lookup_insert_eq in V. done.
  - intros D folder deleted m E. unfold listed. cbn [orb]. rewrite andb_true_r. destruct (of_folder mb folder m) eqn:L; [|done]. cbn [andb].
    unfold of_folder, of_mailbox in L. apply andb_prop in L as [L _]. apply Z.eqb_eq in L. unfold visible_thread. cbn. rewrite L, E, lookup_fmap, lookup_insert_eq. cbn.
    destruct (u <=? clock_now w') eqn:K; [|lia]. by rewrite andb_true_r.
  - intros folder deleted m D. unfold listed, visible_thread. cbn. rewrite lookup_insert_ne; [done|]. intros [= _ E]. done.
Qed.
End Snooze.

(** A request is its handler with the answer left out. *)
Lemma guarded_served `{Unicode, AuthLib, MailLib, CursorLib, HeaderLib} {A} g log (p : prog Messages.Q (result refusal A)) :
  guarded g log p (fun _ _ => True) -> guarded g log (served p) (fun _ _ => True).
Proof. intros K. apply guarded_then. eapply guarded_mono; [|exact K]. done. Qed.
End MailRuns.

(** * Listings page by page

    Following the cursors of listMessages from the newest page: every message of the folder
    the listing shows, once, newest first, and an end. *)

Module Paging.
Import GoTime GoStrings Auth Prog Accounts SignIn Access MessageStore Messages StorageExact MailRuns.
Local Open Scope Z_scope.

#[export] Instance newer_trans : Transitive newer_first.
Proof. intros x y z. unfold newer_first. lia. Qed.
#[export] Instance newer_total : Total newer_first.
Proof. intros x y. unfold newer_first. lia. Qed.

(** ** Sorted rows *)

Lemma sorted_filter {A} (R0 : relation A) (p : A -> bool) l : StronglySorted R0 l -> StronglySorted R0 (List.filter p l).
Proof.
  induction 1 as [|x l S IH F]; cbn; [constructor|]. destruct (p x); [|done]. constructor; [done|]. apply Forall_forall. intros y [I _]%in_filter.
  by apply (proj1 (Forall_forall _ _) F).
Qed.
Lemma filter_perm {A} (p : A -> bool) (l k : list A) : l ≡ₚ k -> List.filter p l ≡ₚ List.filter p k.
Proof.
  induction 1 as [|x l k _ IH|x y l|l k m _ IH1 _ IH2]; cbn; [done| | |by etrans].
  - destruct (p x); [by constructor|done].
  - destruct (p x), (p y); done || constructor.
Qed.
Lemma filter_filter {A} (p q : A -> bool) l : List.filter p (List.filter q l) = List.filter (fun x => q x && p x) l.
Proof. induction l as [|x l IH]; [done|]. cbn. destruct (q x); cbn; [destruct (p x)|]; by rewrite IH. Qed.
Lemma none_left {A} (p : A -> bool) l : (forall y, y ∈ l -> p y = false) -> List.filter p l = [].
Proof. induction l as [|x l IH]; intros F; [done|]. cbn. rewrite (F x) by (by left). apply IH. intros y I. apply F. by right. Qed.
(** Sorting, then choosing. *)
Lemma sort_filter (p : Message -> bool) l : NoDup (ID <$> l) -> merge_sort newer_first (List.filter p l) = List.filter p (merge_sort newer_first l).
Proof.
  intros N. apply (StronglySorted_unique_strong newer_first).
  - intros x y I J X Y. rewrite merge_sort_Permutation in I. apply in_filter in I as [I _]. apply in_filter in J as [J _].
    rewrite merge_sort_Permutation in J. assert (E : ID x = ID y) by (unfold newer_first in *; lia).
    clear - N I J E. induction l as [|z l IH]; [by apply elem_of_nil in I|]. rewrite fmap_cons in N. apply NoDup_cons in N as [Z N].
    apply elem_of_cons in I as [->|I]; apply elem_of_cons in J as [->|J]; [done| | |by apply IH]; destruct Z.
    + rewrite E. by apply list_elem_of_fmap_2.
    + rewrite <- E. by apply list_elem_of_fmap_2.
  - apply (StronglySorted_merge_sort _ _).
  - apply sorted_filter, (StronglySorted_merge_sort _ _).
  - rewrite merge_sort_Permutation. apply filter_perm. by rewrite merge_sort_Permutation.
Qed.
(** What is older than a row of a sorted list is what follows it. *)
Lemma older_rest A x B : NoDup (ID <$> A ++ x :: B) -> StronglySorted newer_first (A ++ x :: B) ->
  List.filter (older (ReceivedAt x) (ID x)) (A ++ x :: B) = B.
Proof.
  intros N S. rewrite fmap_app, fmap_cons in N. apply NoDup_app in N as (NA & D & NB). apply NoDup_cons in NB as [NX NB].
  rewrite List.filter_app. cbn. assert (NO : forall y, newer_first y x -> older (ReceivedAt x) (ID x) y = false).
  { intros y. unfold newer_first, older. intros L. apply orb_false_iff. rewrite andb_false_iff. lia. }
  rewrite (NO x) by (unfold newer_first; lia). assert (FA : List.filter (older (ReceivedAt x) (ID x)) A = []).
  { apply none_left. intros y I. apply NO. eapply (StronglySorted_app_1_elem_of _ A (x :: B)); [exact S|done|by left]. }
  rewrite FA. cbn. apply StronglySorted_app_1_r in S. inversion S as [|? ? S' F]; subst. clear - F NX. revert NX. induction F as [|y B L F IH]; intros NX; [done|].
  rewrite fmap_cons, not_elem_of_cons in NX. destruct NX as [NX1 NX2]. cbn. unfold older at 1. unfold newer_first in L.
  replace _ with true; [by rewrite IH|]. symmetry. apply orb_true_iff. rewrite andb_true_iff. lia.
Qed.

(** ** Pages *)

Section Pages.
Context `{Unicode, AuthLib, MailLib, CursorLib, HeaderLib}.
Context (w : World).

Definition with_cursor (c : string) (req : listMessagesRequest) : listMessagesRequest := {|
  LmAccount := LmAccount req; LmFolder := LmFolder req; LmLimit := LmLimit req; LmCursor := c;
  IncludeIMAPDeleted := IncludeIMAPDeleted req; IncludeSnoozed := IncludeSnoozed req |}.
(** A client that asks for the next page as long as it is told there are more. *)
Fixpoint follow (n : nat) (claims : option Claims) (req : listMessagesRequest) (t : Tables) : option (list Message) :=
  match n with
  | O => None
  | S n =>
      match fst (serve w t (listMessages claims req)) with
      | Err _ => None
      | Ok p =>
          let shown := fst <$> Data p in
          if HasMore p then more ← follow n claims (with_cursor (NextCursor p) req) t; Some (shown ++ more) else Some shown
      end
  end.
Definition folder_of (req : listMessagesRequest) : string := if bool_decide (LmFolder req = "") then "INBOX" else LmFolder req.
Definition visible (mb : Z) (req : listMessagesRequest) (t : Tables) (m : Message) : bool :=
  listed mb (folder_of req) (IncludeIMAPDeleted req) (IncludeSnoozed req) t m.
(** The whole listing. *)
Definition listing (mb : Z) (req : listMessagesRequest) (t : Tables) : list Message :=
  merge_sort newer_first (List.filter (visible mb req t) (messages t)).
(** What encoding/json does with a cursor it wrote. *)
Definition cursors_read_back (l : list Message) : Prop :=
  forall m, m ∈ l -> unmarshal_cursor (marshal_cursor (ReceivedAt m) (ID m)) = Some (ReceivedAt m, ID m).

Lemma cursor_back m : unmarshal_cursor (marshal_cursor (ReceivedAt m) (ID m)) = Some (ReceivedAt m, ID m) -> ID m <> 0 -> ReceivedAt m <> 0 ->
  decodeMessageCursor (encodeMessageCursor m) = Some (ReceivedAt m, ID m).
Proof.
  intros U I R. unfold decodeMessageCursor, encodeMessageCursor. rewrite bool_decide_eq_false_2.
  - rewrite Base64.decode_encode by apply Base64.bytes_in. cbn [mbind option_bind]. rewrite Base64.text_bytes, U. cbn [mbind option_bind fst snd].
    unfold IsZero. destruct (ID m =? 0) eqn:A; [lia|]. destruct (ReceivedAt m =? 0) eqn:B; [lia|]. done.
  - unfold marshal_cursor. cbn. done.
Qed.
Lemma page_rest mb req limit after t : NoDup (ID <$> messages t) ->
  page mb (folder_of req) (IncludeIMAPDeleted req) (IncludeSnoozed req) limit after t =
  take limit (match after with Some (at_, id) => List.filter (older at_ id) (listing mb req t) | None => listing mb req t end).
Proof.
  intros N. unfold page, listing, visible. destruct after as [[at_ id]|].
  - rewrite <- sort_filter by by apply nodup_fmap_filter. by rewrite filter_filter.
  - f_equal. f_equal. apply List.filter_ext. intros m. apply andb_true_r.
Qed.
Lemma limit_positive l : (1 <= page_limit l)%nat.
Proof. unfold page_limit. destruct l as [l|]; [|lia]. destruct (_ && _) eqn:E; [|lia]. apply andb_prop in E. lia. Qed.

Lemma one_page claims req t mb after rest :
  reaches w claims (LmAccount req) Held.CapMailRead mb -> NoDup (ID <$> messages t) ->
  decodeMessageCursor (LmCursor req) = after ->
  rest = match after with Some (at_, id) => List.filter (older at_ id) (listing mb req t) | None => listing mb req t end ->
  let '(shown, more, next) := paged (page_limit (LmLimit req)) (take (S (page_limit (LmLimit req))) rest) in
  exists total since, length since = length shown /\
    fst (serve w t (listMessages claims req)) = Ok {| Data := zip shown since; NextCursor := next; HasMore := more; PgTotal := total |}.
Proof.
  intros R N D ->. destruct (paged _ _) as [[shown more] next] eqn:PG. eexists. unfold listMessages.
  rewrite serve_try. fold (folder_of req). rewrite (reached_mailbox w _ _ _ _ _ R).
  rewrite serve_try, serve_else, serve_db. cbn [exec]. rewrite D, page_rest, PG by done.
  rewrite serve_try. unfold attachAwaitingSince. destruct (forallb _ _).
  - exists (replicate (length shown) None). split; [apply length_replicate|]. cbn [serve]. rewrite serve_try, serve_else, serve_db. cbn [exec serve fst]. reflexivity.
  - exists (awaiting w mb <$> shown). split; [apply length_fmap|]. rewrite serve_else. cbn [serve ask answer].
    rewrite serve_try, serve_else, serve_db. cbn [exec serve fst]. reflexivity.
Qed.
Lemma paged_page limit L : (1 <= limit)%nat ->
  if decide (length L <= limit)%nat then paged limit (take (S limit) L) = (L, false, "")
  else exists A x B, L = A ++ x :: B /\ paged limit (take (S limit) L) = (A ++ [x], true, encodeMessageCursor x).
Proof.
  intros P. unfold paged. rewrite length_take. case_decide as C.
  - replace (_ <? _)%nat with false; [by rewrite take_ge by lia|]. symmetry. apply Nat.ltb_ge. lia.
  - replace (_ <? _)%nat with true; [|symmetry; apply Nat.ltb_lt; lia]. rewrite take_take, Nat.min_l by lia.
    assert (T : exists A x, take limit L = A ++ [x]).
    { destruct (exists_last (l := take limit L)) as (A & x & E); [|by exists A, x]. intros E. apply (f_equal length) in E. rewrite length_take in E. cbn in E. lia. }
    destruct T as (A & x & T). exists A, x, (drop limit L). split; [by rewrite <- (take_drop limit L) at 1; rewrite T, <- app_assoc|].
    by rewrite T, last_snoc.
Qed.
Lemma zip_fst {A B} (l : list A) (k : list B) : length k = length l -> (zip l k).*1 = l.
Proof. intros E. apply fst_zip. lia. Qed.

(** From a cursor on. *)
Lemma follow_rest n claims req t mb rest done_ :
  reaches w claims (LmAccount req) Held.CapMailRead mb -> NoDup (ID <$> messages t) -> cursors_read_back (messages t) ->
  Forall (fun m => ID m <> 0 /\ ReceivedAt m <> 0) (messages t) ->
  listing mb req t = done_ ++ rest -> (length rest < n)%nat ->
  match last done_ with
  | None => decodeMessageCursor (LmCursor req) = None
  | Some x => decodeMessageCursor (LmCursor req) = Some (ReceivedAt x, ID x)
  end ->
  follow n claims req t = Some rest.
Proof.
  intros R N CB F. revert req rest done_ R. induction n as [|n IH]; intros req rest done_ R E L D; [lia|].
  assert (SL : StronglySorted newer_first (listing mb req t)) by apply (StronglySorted_merge_sort _ _).
  assert (NL : NoDup (ID <$> listing mb req t)).
  { unfold listing. rewrite merge_sort_Permutation. by apply nodup_fmap_filter. }
  assert (IN : forall m, m ∈ listing mb req t -> m ∈ messages t).
  { intros m I. unfold listing in I. rewrite merge_sort_Permutation in I. by apply in_filter in I as [I _]. }
  set (after := match last done_ with Some x => Some (ReceivedAt x, ID x) | None => None end).
  assert (DA : decodeMessageCursor (LmCursor req) = after) by (unfold after; destruct (last done_); done).
  assert (RA : rest = match after with Some (at_, id) => List.filter (older at_ id) (listing mb req t) | None => listing mb req t end).
  { unfold after. destruct (last done_) as [x|] eqn:LA.
    - apply last_Some in LA as [A ->]. rewrite E, <- app_assoc in *. cbn in *. symmetry. by apply older_rest.
    - apply last_None in LA as ->. by rewrite E. }
  pose proof (one_page claims req t mb after rest R N DA RA) as OP. pose proof (paged_page (page_limit (LmLimit req)) rest (limit_positive _)) as PP.
  cbn [follow]. case_decide as C.
  - rewrite PP in OP. destruct OP as (total & since & SL' & ->). cbn [HasMore Data]. by rewrite zip_fst.
  - destruct PP as (A & x & B & EL & PP). rewrite PP in OP. destruct OP as (total & since & SL' & ->). cbn [HasMore Data NextCursor]. rewrite zip_fst by done.
    assert (IX : x ∈ messages t) by (apply IN; rewrite E, EL; set_solver). destruct (proj1 (Forall_forall _ _) F _ IX) as [IX0 RX0].
    rewrite (IH (with_cursor (encodeMessageCursor x) req) B (done_ ++ A ++ [x])); [cbn; by rewrite EL, <- app_assoc|done| | |].
    + change (listing mb (with_cursor (encodeMessageCursor x) req) t) with (listing mb req t). by rewrite E, EL, <- !app_assoc.
    + rewrite EL, length_app in L. cbn in L. lia.
    + rewrite app_assoc, last_snoc. apply cursor_back; [by apply CB|done|done].
Qed.

(** C18: A folder read page by page, each page asked for with the cursor of the one before, is the folder: the pages
    put together are every message the listing shows, once each and no other, newest first with ties in the order of
    the ids, whatever the page size and however many messages arrived in the same instant; and the pages end. *)
Theorem pages_are_the_folder (claims : option Claims) (req : listMessagesRequest) (t : Tables) (mb : Z) :
  reaches w claims (LmAccount req) Held.CapMailRead mb -> NoDup (ID <$> messages t) ->
  Forall (fun m => ID m <> 0 /\ ReceivedAt m <> 0) (messages t) -> cursors_read_back (messages t) -> LmCursor req = "" ->
  exists l, follow (S (length (messages t))) claims req t = Some l /\ StronglySorted newer_first l /\ NoDup l /\
    forall m, m ∈ l <-> m ∈ messages t /\ listed mb (folder_of req) (IncludeIMAPDeleted req) (IncludeSnoozed req) t m = true.
Proof.
  intros R N F CB C. exists (listing mb req t).
  assert (P : listing mb req t ≡ₚ List.filter (visible mb req t) (messages t)) by apply merge_sort_Permutation.
  split; [|split; [apply (StronglySorted_merge_sort _ _)|split]].
  - apply (follow_rest _ _ _ _ mb _ []); try done; [|by rewrite C].
    apply Permutation_length in P. rewrite P. pose proof (List.filter_length_le (visible mb req t) (messages t)). lia.
  - rewrite P. eapply NoDup_fmap_1. apply (nodup_fmap_filter ID). exact N.
  - intros m. rewrite P. apply in_filter.
Qed.
End Pages.
End Paging.
