(* ===== verification/MailAccess.v ===== *)
(** * Folder names, and renaming

    Whatever the requests of an account do, a folder is stored under a name the rules allow
    and in one spelling, and no standard folder is renamed or deleted; what renaming does to
    the messages. *)

From S2P Require Import Prelude GoTime GoStrings MailAddress Prog MailStore Grants GrantStore StorageQuota Auth Accounts SignIn.
From S2P Require Import Sessions SignInProof Access AccessFacts Threads MessageStore Messages StorageExact MailRuns.

Module FolderSafety.
Import GoTime GoStrings Auth Prog History Accounts SignIn Access MessageStore Messages Mailboxes StorageExact MailRuns.
Local Open Scope Z_scope.

Section Names.
Context `{Unicode, AuthLib, MailLib, CursorLib, HeaderLib}.

Definition well_named (folder : string) : bool := Folders.good_name folder && bool_decide (Folders.CanonicalFolder folder = folder).
Definition names_ok (t : Tables) : Prop := forall m, m ∈ messages t -> well_named (Folder m) = true.

(** What a statement writes into a folder column, and the folders it moves or removes. *)
Definition named {X} (s : M X) : bool :=
  match s with
  | MUpdate _ c => match NewFolder c with Some f => well_named f | None => true end
  | MCreate m => well_named (Folder m)
  | MRename _ from to => well_named to && negb (Folders.IsStandardFolder from) && negb (Folders.IsStandardFolder to)
  | MDeleteFolder _ folder => negb (Folders.IsStandardFolder folder)
  | MDeliver m _ _ => well_named (Folder m)
  | MRelease _ _ _ => false
  | _ => true
  end.
Lemma canonical_named folder : Folders.good_name folder = true -> well_named (Folders.CanonicalFolder folder) = true.
Proof.
  intros G. unfold well_named. rewrite Folders.canonical_good, Folders.canonical_idem by done. by rewrite bool_decide_eq_true_2.
Qed.
Lemma updated_named p f t : names_ok t -> (forall m, p m = true -> well_named (Folder m) = true -> well_named (Folder (f m)) = true) ->
  names_ok (with_messages (update p f (messages t)) t).
Proof.
  intros N F m I. cbn in I. rewrite update_fmap in I. apply list_elem_of_fmap in I as (x & -> & I). specialize (N x I). destruct (p x) eqn:P; [by apply F|done].
Qed.
Lemma inserted_named at_ m t : names_ok t -> well_named (Folder m) = true -> names_ok (snd (insert at_ m t)).
Proof.
  intros N W x I. unfold insert in I. cbn in I. apply elem_of_app in I as [I|I]; [by apply N|]. apply list_elem_of_singleton in I as ->. by destruct (IsZero _).
Qed.
Lemma filtered_named (p : Message -> bool) t : names_ok t -> names_ok (with_messages (List.filter p (messages t)) t).
Proof. intros N m I. apply in_filter in I as [I _]. by apply N. Qed.
Lemma exec_named at_ {X} (s : M X) t : named s = true -> names_ok t -> names_ok (snd (exec at_ s t)).
Proof.
  intros S N. destruct s; cbn [exec snd]; try done.
  - apply updated_named; [done|]. intros m _ W. cbn in *. destruct (NewFolder c); done.
  - destruct (purge_rows m t) as (g & t' & -> & _ & _ & EM & _). cbn [snd]. intros x I. rewrite EM in I. apply in_filter in I as [I _]. by apply N.
  - apply updated_named; [done|]. intros m _ _. reflexivity.
  - by apply inserted_named.
  - apply andb_prop in S as [S _]. apply andb_prop in S as [S _]. apply updated_named; [done|]. by intros m _ _.
  - unfold drop_folder. destruct (List.filter _ _); [done|]. cbn [snd]. intros x I. destruct (give_back_rows mb (sum (SizeBytes <$> (m :: l))) (with_messages (List.filter (fun m => negb (of_folder mb folder m)) (messages t)) t)) as (E & _ & _).
    rewrite E in I. apply in_filter in I as [I _]. by apply N.
  - apply updated_named; [done|]. by intros m _ W.
  - destruct (deliver at_ m atts events t) as [[y t2]|e] eqn:D; cbn [snd]; [|done]. unfold deliver in D.
    destruct (StorageQuota.ReserveStorage _ _ _ _ _) as [qs|]; [|done]. cbn -[insert] in D.
    pose proof (inserted_named at_ m (with_quotas qs t) N S) as K. destruct (insert at_ m _) as [x t3]. by injection D as <- <-.
Qed.

(** ** Every handler *)

(** A statement that leaves every folder name good and canonical, and renames or deletes no
    standard folder. *)
Definition keeps_names : guard Messages.Q := fun _ X q =>
  match q with
  | Messages.QDb s =>
      (forall at_ t, names_ok t -> names_ok (snd (exec at_ s t))) /\
      match s with
      | MRename _ from to => Folders.IsStandardFolder from = false /\ Folders.IsStandardFolder to = false
      | MDeleteFolder _ folder => Folders.IsStandardFolder folder = false
      | _ => True
      end
  | _ => True
  end.
Definition tidy : test Messages.Q := fun X q => match q with Messages.QDb s => named s | _ => true end.
Lemma tidy_keeps l X (q : Messages.Q X) : tidy X q = true -> keeps_names l X q.
Proof.
  destruct q as [X s| | | | |]; try done. cbn. intros S. split; [by intros at_ t; apply exec_named|]. destruct s; try done; cbn in S; bprop; tauto.
Qed.
Lemma always_account {A} (t : test Messages.Q) (p : prog SignIn.Q A) (post : A -> Prop) :
  (forall X q, t X (QAccount q) = true) -> (forall a, post a) -> always t (account p) post.
Proof.
  intros T P. unfold account, always. induction p as [a|X q k IH]; cbn; [done|]. intros x. unfold stateless. rewrite T. apply IH.
Qed.
Lemma always_publish_all (t : test Messages.Q) rows : (forall mb e, t unit (QPublish mb e) = true) -> always t (publish_all rows) (fun _ => True).
Proof. intros T. induction rows as [|[mb th] rows IH]; [done|]. cbn [publish_all]. apply always_then, always_ask_done; [apply T|done]. Qed.
Lemma always_reconcile_each (t : test Messages.Q) l n :
  (forall mb, t _ (Messages.QDb (MMessageBytes mb)) = true) -> (forall mb, t _ (Messages.QDb (MAttachmentBytes mb)) = true) ->
  (forall mb k, t _ (Messages.QDb (MSetUsed mb k)) = true) -> always t (reconcile_each l n) (fun _ => True).
Proof.
  intros A B C. revert n. induction l as [|[mb r] l IH]; intros n; [done|]. cbn [reconcile_each]. unfold Messages.db. apply always_then, always_ask_done; [apply A|].
  intros [k|e]; [|apply IH]. apply always_then, always_ask_done; [apply B|]. intros k'. destruct (_ =? r); [apply IH|]. apply always_then, always_ask_done; [apply C|]. done.
Qed.

Ltac step_handler :=
  lazymatch goal with
  | |- always _ (account _) _ => apply always_account; [done|intro]
  | |- always _ (publish_all _) _ => apply always_publish_all; done
  | |- always _ (reconcile_each _ _) _ => apply always_reconcile_each; done
  | |- always _ (accountMailbox _ _ _) _ => unfold accountMailbox
  | |- always _ (quarantineMailbox _ _ _) _ => unfold quarantineMailbox
  | |- always _ (reach _ _ _ _ _) _ => unfold reach
  | |- always _ (ownedMessage _ _ _) _ => unfold ownedMessage
  | |- always _ (Messages.or_else _ _) _ => unfold Messages.or_else
  | |- always _ (Messages.db _) _ => unfold Messages.db
  | |- always _ (publish _ _) _ => unfold publish
  | |- always _ (attachAwaitingSince _ _) _ => unfold attachAwaitingSince
  | |- always _ (ResolveThreadID _ _ _ _) _ => unfold ResolveThreadID
  | |- always _ (NewMessageID _) _ => unfold NewMessageID
  | |- always _ (folderExists _ _) _ => unfold folderExists
  | |- always _ (draftAccess _ _) _ => unfold draftAccess
  | |- _ => Prog.walk_step
  end.
Ltac handler := repeat (cbn beta iota zeta; step_handler); cbn beta iota zeta; try done.

Lemma tidy_update claims id req : always tidy (updateMessage claims id req) (fun _ => True).
Proof.
  unfold updateMessage. handler. cbn. destruct a3 as [f|]; [|done]. destruct (NewFolder req) as [f0|]; [|done].
  destruct (Folders.good_name f0) eqn:G; [|done]. simplify_eq. by apply canonical_named.
Qed.
Lemma tidy_create claims id name : always tidy (createFolder claims id name) (fun _ => True).
Proof.
  unfold createFolder. handler. all: cbn; unfold folderNameRefusal in *; destruct (Folders.good_name name) eqn:G; [|done]. all: by apply canonical_named.
Qed.
Lemma tidy_rename claims id folder name : always tidy (renameFolder claims id folder name) (fun _ => True).
Proof.
  unfold renameFolder. handler. all: cbn; unfold folderNameRefusal in *; destruct (Folders.good_name name) eqn:G; [|done].
  all: rewrite canonical_named by done; match goal with K1 : Folders.IsStandardFolder _ = false, K2 : Folders.IsStandardFolder _ = false |- _ => by rewrite K1, K2 end.
Qed.
Lemma tidy_delete_folder claims id folder : always tidy (deleteFolder claims id folder) (fun _ => True).
Proof. unfold deleteFolder. handler. all: cbn; match goal with K : Folders.IsStandardFolder _ = false |- _ => by rewrite K end. Qed.
Lemma tidy_delete claims id permanent : always tidy (deleteMessage claims id permanent) (fun _ => True).
Proof. unfold deleteMessage. handler. Qed.
Lemma tidy_save_draft claims body : always tidy (saveDraft claims body) (fun _ => True).
Proof. unfold saveDraft. handler. all: destruct (bool_decide _); by handler. Qed.
Lemma tidy_update_draft claims id body : always tidy (updateDraft claims id body) (fun _ => True).
Proof. unfold updateDraft. handler. Qed.
Lemma always_served {A} (t : test Messages.Q) (p : prog Messages.Q (result refusal A)) :
  always t p (fun _ => True) -> always t (served p) (fun _ => True).
Proof. intros K. apply always_then. eapply always_mono; [|exact K]. done. Qed.
Lemma release_named at_ mb mid make t : (forall h rows, well_named (Folder (make h rows)) = true) -> names_ok t ->
  names_ok (snd (exec at_ (MRelease mb mid make) t)).
Proof.
  intros W N. cbn [exec]. destruct (release at_ mb mid make t) as [[y t2]|] eqn:D; [|done]. cbn [snd]. unfold release in D.
  destruct (List.find _ _) as [item|]; [|done]. cbn [mbind option_bind] in D. set (t1 := with_held (update (fun h => HlID h =? HlID item) released (held t)) (next_held t) t) in D.
  pose proof (inserted_named at_ (make item (parents mb t1)) t1 N (W _ _)) as K. destruct (insert _ _ _) as [x t3]. cbn [snd] in K.
  destruct (quota_row mb t3); [|done]. by injection D as <- <-.
Qed.
Lemma quarantine_tidy claims id capability : always tidy (quarantineMailbox claims id capability) (fun _ => True).
Proof. handler. Qed.
Lemma names_release claims id mid : guarded keeps_names [] (releaseQuarantine claims id mid) (fun _ _ => True).
Proof.
  unfold releaseQuarantine. apply guarded_try, guarded_ret. destruct (RequireTwoFactor claims); [|done].
  apply guarded_try. eapply (guarded_always _ tidy _ _ (fun _ => True)); [apply tidy_keeps|apply quarantine_tidy|]. intros l [mb|e] _ _; [|done].
  unfold NewMessageID. do 2 (apply guarded_then, guarded_then, guarded_ask; [done|intros ?; apply guarded_ret]).
  apply guarded_try, guarded_then, guarded_ask; [|intros [y|e]; by repeat apply guarded_ret].
  split; [|done]. intros at_ t. apply release_named. intros h rows. unfold released_message. by destruct (releasedMessageIdentity _ _) as [[? ?] ?].
Qed.

(** C26: No request of an account leaves a folder under a name the rules refuse, or two spellings of the inbox, and
    none renames or deletes a standard folder: every statement any route of messages, folders, drafts, threads and the
    quarantine makes, whatever the database answered before it and whatever ran in between, leaves the names of all
    folders good and canonical where they were, and what it renames or deletes is no standard folder, nor renamed to
    one. *)
Theorem folder_names_kept (claims : option Claims) (r : Request) :
  guarded keeps_names [] (handle claims r) (fun _ _ => True).
Proof.
  assert (G : forall A (p : prog Messages.Q (result refusal A)), always tidy p (fun _ => True) -> guarded keeps_names [] (served p) (fun _ _ => True)).
  { intros A p K. eapply guarded_always; [apply tidy_keeps|by apply always_served|done]. }
  destruct r; cbn [handle]; lazymatch goal with |- guarded _ _ (served (releaseQuarantine _ _ _)) _ => idtac | _ => apply G end.
  - unfold listMessages. handler.
  - unfold getMessage. handler.
  - unfold getRawMessage. handler.
  - apply tidy_update.
  - apply tidy_delete.
  - unfold listFolders. handler.
  - apply tidy_create.
  - apply tidy_rename.
  - apply tidy_delete_folder.
  - unfold getQuota. handler.
  - unfold listSubscriptions. handler.
  - unfold subscribeFolder. handler.
  - unfold unsubscribeFolder. handler.
  - apply tidy_save_draft.
  - apply tidy_update_draft.
  - unfold getThread. handler.
  - unfold snoozeThread. handler.
  - unfold setThreadDue. handler.
  - unfold listCalendarEvents. handler.
  - unfold listQuarantine. handler.
  - apply guarded_served, names_release.
  - unfold deleteQuarantine. handler.
Qed.
End Names.
End FolderSafety.

(** * Whose mail a request reaches

    Every statement a request makes about a mailbox comes after [mayReach] found, for this
    request, that its account may do so there now; a message named by its id is loaded to
    know whose it is, and nothing of it is answered or changed before that. *)

Module MailAccess.
Import GoTime GoStrings Auth Prog History Accounts SignIn SignInProof Access AccessFacts MessageStore Messages Mailboxes MailRuns.
Local Open Scope Z_scope.
Section Access.
Context `{Unicode, AuthLib, MailLib, TextLib, CursorLib, HeaderLib}.
Abbreviation mail_log := (list (event Messages.Q)).

(** What the sign-in tables answered, in a request's log. *)
Definition lifted (e : event SignIn.Q) : event Messages.Q := match e with History.Event q x => History.Event (QAccount q) x end.
Definition holds (log : mail_log) (l : log_t) : Prop := forall e, e ∈ l -> lifted e ∈ log.
(** The request was found to reach the mailbox for an operation. *)
Definition may (log : mail_log) (c : Claims) (mb : Z) (capability : string) : Prop :=
  exists l id m, holds log l /\ reached l c id capability (Ok m) /\ (id = mb \/ AcID m = mb).
Definition loaded (log : mail_log) (m : Message) : Prop :=
  (exists id, History.Event (Messages.QDb (MLoad id)) (Ok (Some m)) ∈ log) \/ (exists id, History.Event (Messages.QDb (MDraft id)) (Ok (Some m)) ∈ log).

Definition reads (log : mail_log) (c : Claims) (mb : Z) : Prop := may log c mb Held.CapMailRead \/ may log c mb Held.CapMailWrite.
Definition writes (log : mail_log) (c : Claims) (mb : Z) : Prop := may log c mb Held.CapMailWrite.
Definition writes_row (log : mail_log) (c : Claims) (id : Z) : Prop := exists m, loaded log m /\ ID m = id /\ writes log c (MailboxID m).

(** A row that may be written, read again. *)
Definition again (log : mail_log) (c : Claims) (m : Message) : Prop :=
  exists id m0, History.Event (Messages.QDb (MLoad id)) (Ok (Some m0)) ∈ log /\ writes log c (MailboxID m0) /\
    (History.Event (Messages.QDb (MLoad id)) (Ok (Some m)) ∈ log
     \/ exists ch, History.Event (Messages.QDb (MUpdate (ID m0) ch)) (Ok (Some m)) ∈ log).

(** What each statement of a request needs. *)
Definition permitted (c : Claims) : guard Messages.Q := fun log X q =>
  match q with
  | Messages.QDb s =>
      match s with
      | MLoad _ | MDraft _ => True
      | MPage mb _ _ _ _ _ | MCount mb _ _ _ | MFolders mb | MFolderRows mb _ | MQuota mb | MMessages mb | MParent mb _ _
      | MThread mb _ | MThreadRows mb _ | MChoices mb | MHeldCount mb | MHeldPage mb _ _ | MVersions mb => reads log c mb
      | MRename mb _ _ | MDeleteFolder mb _ | MSnooze mb _ _ | MDue mb _ _ | MChoose mb _ _ | MRelease mb _ _ | MUnhold mb _ => writes log c mb
      | MCreate m => writes log c (MailboxID m)
      | MUpdate id _ | MTrash id => writes_row log c id
      | MPurge m => loaded log m /\ writes log c (MailboxID m)
      | MRedraft id mb ch => writes_row log c id /\ writes log c mb /\ writes log c (DrMailbox ch)
      | _ => False
      end
  | QAwaiting mb _ => reads log c mb
  | QPublish mb _ => writes log c mb \/ exists m, again log c m /\ MailboxID m = mb
  | _ => True
  end.

(** ** Logs grow *)

Lemma holds_grows log log' l : grows log log' -> holds log l -> holds log' l.
Proof. intros G K e I. by apply G, K. Qed.
Lemma may_grows log log' c mb cap : grows log log' -> may log c mb cap -> may log' c mb cap.
Proof. intros G (l & id & m & K & R & E). exists l, id, m. split; [by eapply holds_grows|done]. Qed.

(** A program of the sign-in tables, within a request. *)
Lemma guarded_within {A} (g : guard Messages.Q) (p : prog SignIn.Q A) (post : log_t -> A -> Prop) log l0 :
  (forall lg X (q : SignIn.Q X), g lg X (QAccount q)) -> holds log l0 -> after l0 p post ->
  guarded g log (account p) (fun lg a => exists l, holds lg l /\ post l a).
Proof.
  intros G. unfold account. revert log l0. induction p as [a|X q k IH]; intros log l0 K P; [by exists l0|]. intros x. split; [apply G|].
  destruct (P x) as [_ P']. apply IH with (l0 := History.Event q x :: l0); [|done]. intros e [->|I]%elem_of_cons; [by left|right; by apply K].
Qed.
Lemma permitted_account c lg X (q : SignIn.Q X) : permitted c lg X (QAccount q).
Proof. done. Qed.
Lemma guarded_reach c log id capability missing what :
  guarded (permitted c) log (reach c id capability missing what)
    (fun lg r => match r with Ok m => may lg c id capability /\ may lg c (AcID m) capability | Err _ => True end).
Proof.
  unfold reach. apply guarded_then. eapply guarded_mono; [|eapply (guarded_within _ _ _ _ []); [apply permitted_account|by intros e I%elem_of_nil|apply reach_told]].
  intros lg r _ (l & K & R). apply guarded_ret. destruct r as [m|e]; [|done]. split; exists l, id, m; (split; [done|]; split; [done|]); tauto.
Qed.
Lemma guarded_mailbox c log id capability :
  guarded (permitted c) log (accountMailbox (Some c) id capability) (fun lg r => match r with Ok mb => may lg c mb capability | Err _ => True end).
Proof. unfold accountMailbox. apply guarded_try. eapply guarded_mono; [|apply guarded_reach]. intros lg [m|e] _ K; [|done]. apply guarded_ret, K. Qed.
Lemma guarded_quarantine c log id capability :
  guarded (permitted c) log (quarantineMailbox (Some c) id capability) (fun lg r => match r with Ok mb => may lg c mb capability | Err _ => True end).
Proof. unfold quarantineMailbox. apply guarded_try. eapply guarded_mono; [|apply guarded_reach]. intros lg [m|e] _ K; [|done]. apply guarded_ret, K. Qed.
Lemma guarded_owned c log id capability :
  guarded (permitted c) log (ownedMessage (Some c) id capability)
    (fun lg r => match r with Ok m => loaded lg m /\ may lg c (MailboxID m) capability | Err _ => True end).
Proof.
  unfold ownedMessage, Messages.or_else, Messages.db. apply guarded_try, guarded_then, guarded_ask; [done|]. intros [[m|]|[]]; apply guarded_ret; [|done|done].
  apply guarded_try. eapply guarded_mono; [|apply guarded_reach]. intros lg [a|e] G K; [destruct K as [K _]|done]. apply guarded_ret. split; [|done]. left. exists id. apply G. by left.
Qed.

(** After a mailbox is reached, a test per statement is enough. *)
Definition within_mailbox (mb : Z) (write : bool) : test Messages.Q := fun X q =>
  match q with
  | Messages.QDb s =>
      match s with
      | MPage m _ _ _ _ _ | MCount m _ _ _ | MFolders m | MFolderRows m _ | MQuota m | MMessages m | MParent m _ _
      | MThread m _ | MThreadRows m _ | MChoices m | MHeldCount m | MHeldPage m _ _ | MVersions m => m =? mb
      | MRename m _ _ | MDeleteFolder m _ | MSnooze m _ _ | MDue m _ _ | MChoose m _ _ | MRelease m _ _ | MUnhold m _ => write && (m =? mb)
      | MCreate x => write && (MailboxID x =? mb)
      | _ => false
      end
  | QAwaiting m _ => m =? mb
  | QPublish m _ => write && (m =? mb)
  | _ => true
  end.
Lemma within_permitted {A} c log mb (write : bool) (p : prog Messages.Q A) (post : mail_log -> A -> Prop) :
  may log c mb (if write then Held.CapMailWrite else Held.CapMailRead) -> always (within_mailbox mb write) p (fun _ => True) ->
  (forall lg a, post lg a) -> guarded (permitted c) log p post.
Proof.
  intros M. unfold always. revert log M. induction p as [a|X q k IH]; cbn; intros log M W P; [apply P|]. intros x. specialize (W x).
  unfold stateless in W. destruct (within_mailbox mb write X q) eqn:T; [|done]. split.
  - assert (RD : reads log c mb) by (destruct write; [by right|by left]).
    destruct q as [Y s| | | | |]; try done; [destruct s; try done| |]; cbn in *; bprop; first [destruct T as [T1 T2]; subst; first [done|by left]|subst; done|done].
  - apply IH; [|done|done]. eapply may_grows; [apply grows_cons|done].
Qed.

Ltac step_within :=
  lazymatch goal with
  | |- always _ (Messages.or_else _ _) _ => unfold Messages.or_else
  | |- always _ (Messages.db _) _ => unfold Messages.db
  | |- always _ (publish _ _) _ => unfold publish
  | |- always _ (attachAwaitingSince _ _) _ => unfold attachAwaitingSince
  | |- always _ (folderExists _ _) _ => unfold folderExists
  | |- always _ (ask _) _ => apply always_ask_done; [cbn; rewrite ?Z.eqb_refl; try done|]
  | |- _ => Prog.walk_step
  end.
Ltac within := repeat (cbn beta iota zeta; step_within); cbn beta iota zeta; try done.
(** A handler that reaches its mailbox first. *)
Ltac reached_first := apply guarded_served; apply guarded_try; eapply guarded_mono; [|apply guarded_mailbox];
  let lg := fresh in let mb := fresh "mb" in let M := fresh in intros lg [mb|] _ M; [|done].
Ltac reading := reached_first; eapply (within_permitted _ _ _ false); [eassumption| |done]; within.
Ltac writing := reached_first; eapply (within_permitted _ _ _ true); [eassumption| |done]; within.


Lemma permitted_reading c r :
  match r with
  | RqListMessages _ | RqListFolders _ | RqGetQuota _ | RqListSubscriptions _ | RqGetThread _ _ | RqListCalendarEvents _ => True
  | _ => False
  end -> guarded (permitted c) [] (handle (Some c) r) (fun _ _ => True).
Proof. destruct r; try done; intros _; cbn [handle]; reading. Qed.
Lemma permitted_writing c r :
  match r with
  | RqCreateFolder _ _ | RqRenameFolder _ _ _ | RqDeleteFolder _ _ | RqSubscribe _ _ | RqUnsubscribe _ _ | RqSnoozeThread _ _ _
  | RqSetThreadDue _ _ _ _ => True
  | _ => False
  end -> guarded (permitted c) [] (handle (Some c) r) (fun _ _ => True).
Proof. destruct r; try done; intros _; cbn [handle]; writing. Qed.

(** ** Messages by their ids *)

Lemma permitted_get c id : guarded (permitted c) [] (getMessage (Some c) id)
  (fun log r => match r with Ok (m, _) => loaded log m /\ may log c (MailboxID m) Held.CapMailRead | Err _ => True end).
Proof.
  unfold getMessage. apply guarded_try. eapply guarded_mono; [|apply guarded_owned]. intros lg [m|e] _ K; [|done]. destruct K as [L M].
  apply guarded_try. eapply (guarded_mono _ _ _ (fun lg' _ => grows lg lg')).
  - intros l [since|e] _ G; [|done]. apply guarded_ret. split; [|by eapply may_grows]. destruct L as [[i L]|[i L]]; [left|right]; exists i; by apply G.
  - unfold attachAwaitingSince, Messages.or_else. destruct (forallb _ _); [apply grows_refl|]. apply guarded_then, guarded_ask; [by left|].
    intros x. apply guarded_ret, grows_cons.
Qed.
Lemma permitted_raw c id : guarded (permitted c) [] (getRawMessage (Some c) id)
  (fun log r => match r with Ok raw => exists m, loaded log m /\ raw = RawMessage (Stored m) /\ may log c (MailboxID m) Held.CapMailRead | Err _ => True end).
Proof.
  unfold getRawMessage. apply guarded_try. eapply guarded_mono; [|apply guarded_owned]. intros lg [m|e] _ K; [|done]. destruct K as [L M].
  apply guarded_ret. destruct (bool_decide _); [done|]. by exists m.
Qed.
(** A message the path names, with what its row was loaded by. *)
Lemma guarded_owned_row c log id capability :
  guarded (permitted c) log (ownedMessage (Some c) id capability)
    (fun lg r => match r with Ok m => History.Event (Messages.QDb (MLoad id)) (Ok (Some m)) ∈ lg /\ may lg c (MailboxID m) capability | Err _ => True end).
Proof.
  unfold ownedMessage, Messages.or_else, Messages.db. apply guarded_try, guarded_then, guarded_ask; [done|]. intros [[m|]|[]]; apply guarded_ret; [|done|done].
  apply guarded_try. eapply guarded_mono; [|apply guarded_reach]. intros lg [a|e] G K; [destruct K as [K _]|done]. apply guarded_ret. split; [|done]. apply G. by left.
Qed.
Lemma permitted_delete c id permanent : guarded (permitted c) [] (handle (Some c) (RqDeleteMessage id permanent)) (fun _ _ => True).
Proof.
  cbn [handle]. apply guarded_served. unfold deleteMessage. apply guarded_try. eapply guarded_mono; [|apply guarded_owned]. intros lg [m|e] _ K; [|done].
  destruct K as [L M]. assert (PUB : forall l, grows lg l -> guarded (permitted c) l (bind (publish (MailboxID m) (MessageDeleted (ID m))) (fun _ => Ret (Ok tt) : prog Messages.Q (result refusal unit))) (fun _ _ => True)).
  { intros l G. apply guarded_then, guarded_ask; [|done]. left. by eapply may_grows. }
  apply guarded_try. destruct (_ || _).
  - apply guarded_try, guarded_then, guarded_ask; [by split|]. intros [x|[]]; apply guarded_ret; [|done]. apply guarded_ret, PUB. apply grows_cons.
  - apply guarded_then, guarded_ask; [by exists m|]. intros [x|[]]; apply guarded_ret; [|done]. apply PUB, grows_cons.
Qed.
Lemma permitted_update c id req : guarded (permitted c) [] (handle (Some c) (RqUpdateMessage id req)) (fun _ _ => True).
Proof.
  cbn [handle]. apply guarded_served. unfold updateMessage. apply guarded_try. eapply guarded_mono; [|apply guarded_owned_row]. intros lg [m|e] _ K; [|done].
  destruct K as [L M]. apply guarded_try, guarded_ret. destruct (match NewKeywords req with Some _ => _ | None => _ end) as [kw|]; [|done].
  apply guarded_try, guarded_ret. destruct (match NewFolder req with Some _ => _ | None => _ end) as [f|]; [|done]. cbv zeta.
  assert (PUB : forall l m', grows lg l -> again l c m' -> forall ev, permitted c l unit (QPublish (MailboxID m') ev)) by (intros l m' G A ev; right; by exists m').
  apply guarded_try, guarded_then. eapply (guarded_mono _ _ _ (fun l r => grows lg l /\ match r with Ok (Some m') => again l c m' | _ => True end)).
  - intros l r _ [G K]. apply guarded_ret. destruct r as [[m'|]|e]; [|done|done].
    apply guarded_then, guarded_ask; [by apply PUB|]. intros []. apply guarded_then.
    assert (A' : forall x, again (x :: l) c m').
    { intros x. destruct K as (i & m0 & I & W & D). exists i, m0. split; [by right|]. split; [eapply may_grows; [apply grows_cons|done]|].
      destruct D as [D|[ch D]]; [left; by right|right; exists ch; by right]. }
    destruct (is_some _); [apply guarded_ask; [apply PUB; [eapply grows_trans; [exact G|apply grows_cons]|apply A']|done]|done].
  - destruct (has_changes _); apply guarded_ask; try done.
    + exists m. split; [left; by exists id|done].
    + intros x. split; [apply grows_cons|]. destruct x as [[m'|]|]; [|done|done]. exists id, m. split; [by right|]. split; [eapply may_grows; [apply grows_cons|done]|].
      right. eexists. by left.
    + intros x. split; [apply grows_cons|]. destruct x as [[m'|]|]; [|done|done]. exists id, m. split; [by right|]. split; [eapply may_grows; [apply grows_cons|done]|].
      left. by left.
Qed.

(** ** Drafts *)

Definition acts (c : Claims) (capability : string) (l : log_t) (r : result access_error Account) : Prop :=
  match r with Ok m => exists id, reached l c id capability (Ok m) | Err _ => True end.
Lemma act_told c address capability : after [] (mayActAs c address capability) (acts c capability).
Proof.
  unfold mayActAs, SignIn.or_else, SignIn.db. apply guarded_try, guarded_then, guarded_ask; [done|]. intros [[m|]|e]; apply guarded_ret; [|done|done].
  eapply guarded_mono; [|apply reach_told]. intros l [a|e] _ K; [|done]. by exists (AcID m).
Qed.
Lemma guarded_and {Q A} (g : guard Q) log (p : prog Q A) post post' :
  guarded g log p post -> guarded g log p post' -> guarded g log p (fun l a => post l a /\ post' l a).
Proof.
  revert log. induction p as [a|X q k IH]; cbn; intros log K K'; [done|]. intros x. destruct (K x) as [A1 A2]. destruct (K' x) as [_ B]. split; [done|]. by apply IH.
Qed.
Lemma guarded_acts c log (p : prog SignIn.Q (result access_error Account)) capability : after [] p (acts c capability) ->
  guarded (permitted c) log (account p) (fun lg r => grows log lg /\ match r with Ok m => may lg c (AcID m) capability | Err _ => True end).
Proof.
  intros P. assert (G : guarded (permitted c) log (account p) (fun lg r => grows log lg)).
  { unfold account. generalize log. clear P. induction p as [r|X q k IH]; intros lg; [apply grows_refl|]. intros x. split; [done|].
    eapply guarded_mono; [|apply IH]. intros l r _ G. eapply grows_trans; [apply grows_cons|exact G]. }
  pose proof (guarded_within (permitted c) p _ log [] (permitted_account c) ltac:(by intros e I%elem_of_nil) P) as K.
  eapply guarded_mono; [|exact (guarded_and _ _ _ _ _ G K)]. intros lg [m|e] _ [GR (l & L & A)]; (split; [done|]); [|done].
  destruct A as [id A]. exists l, id, m. split; [done|]. split; [done|]. by right.
Qed.
Lemma guarded_thread c log mb messageID inReplyTo references : reads log c mb ->
  guarded (permitted c) log (ResolveThreadID mb messageID inReplyTo references) (fun lg _ => grows log lg).
Proof.
  intros R. unfold ResolveThreadID, Messages.db, NewMessageID. apply guarded_try, guarded_ask; [done|]. intros [parent|e]; [|apply grows_cons].
  destruct (Threads.thread_under _ _ _ _); [apply grows_cons|]. apply guarded_then, guarded_then, guarded_ask; [done|]. intros x.
  apply guarded_ret, guarded_ret. eapply grows_trans; apply grows_cons.
Qed.
Lemma permitted_save c body : guarded (permitted c) [] (handle (Some c) (RqSaveDraft body)) (fun _ _ => True).
Proof.
  cbn [handle]. apply guarded_served. unfold saveDraft. apply guarded_try, guarded_ret. destruct (addresses "to" _); [|done].
  apply guarded_try, guarded_ret. destruct (addresses "cc" _); [|done]. apply guarded_then. eapply guarded_mono; [|apply guarded_acts].
  - intros lg [m|e] _ [_ M]; [|by destruct e; apply guarded_ret]. unfold NewMessageID. apply guarded_then, guarded_then, guarded_ask; [done|]. intros rnd. apply guarded_ret.
    apply guarded_try. unfold Messages.or_else. apply guarded_then. eapply guarded_mono; [|apply guarded_thread].
    + intros l [th|e] _ G; apply guarded_ret; [|done]. apply guarded_then, guarded_ask; [done|]. intros now. apply guarded_then, guarded_ask; [|by intros x].
      cbn. eapply may_grows; [|exact M]. eapply grows_trans; [apply grows_cons|]. eapply grows_trans; [exact G|apply grows_cons].
    + right. eapply may_grows; [apply grows_cons|exact M].
  - destruct (bool_decide _); [|apply act_told]. eapply guarded_mono; [|apply reach_told]. intros l [m|e] _ K; [|done]. by exists (AccountID c).
Qed.
Lemma guarded_reached c log id capability :
  guarded (permitted c) log (account (mayReach c id capability))
    (fun lg r => grows log lg /\ match r with Ok m => may lg c id capability | Err _ => True end).
Proof.
  pose proof (guarded_within (permitted c) (mayReach c id capability) _ log [] (permitted_account c) ltac:(by intros e I%elem_of_nil) (reach_told [] c id capability)) as K.
  assert (P : after [] (mayReach c id capability) (acts c capability)).
  { eapply guarded_mono; [|apply reach_told]. intros l [m|e] _ R; [|done]. by exists id. }
  eapply guarded_mono; [|exact (guarded_and _ _ _ _ _ (guarded_acts c log _ capability P) K)]. intros lg [m|e] _ [[G _] (l & L & R)]; (split; [done|]); [|done].
  exists l, id, m. split; [done|]. split; [done|]. by left.
Qed.
(** The mailbox a draft goes to: where it is, or that of a new sender. *)
Definition draft_mailbox (c : Claims) (draft : Message) (from : option string) : prog Messages.Q (result refusal Z) :=
  match from with
  | Some from =>
      if bool_decide (from = "") then Ret (Ok (MailboxID draft))
      else
        bind (account (mayActAs c from Held.CapMailWrite)) (fun r =>
        Ret (match r with
             | Ok m => Ok (AcID m)
             | Err AccessFailed => Err (internal "Failed to check the sender")
             | Err _ => Err (Refuse 403 "forbidden" "You are not authorized to send from this address")
             end))
  | None => Ret (Ok (MailboxID draft))
  end.
Lemma guarded_draft_mailbox c log draft from : writes log c (MailboxID draft) ->
  guarded (permitted c) log (draft_mailbox c draft from) (fun lg r => grows log lg /\ match r with Ok mb => writes lg c mb | Err _ => True end).
Proof.
  intros W. unfold draft_mailbox. destruct from as [from|]; [|by split]. destruct (bool_decide _); [by split|].
  apply guarded_then. eapply guarded_mono; [|apply (guarded_acts c log _ Held.CapMailWrite), act_told]. intros lg [m|e] _ [G K]; apply guarded_ret; (split; [done|]); [done|].
  by destruct e.
Qed.
Lemma permitted_redraft c id body : guarded (permitted c) [] (handle (Some c) (RqUpdateDraft id body)) (fun _ _ => True).
Proof.
  cbn [handle]. apply guarded_served. unfold updateDraft. apply guarded_try. unfold Messages.or_else at 1, Messages.db at 1.
  apply guarded_then, guarded_ask; [done|]. intros [[draft|]|e]; apply guarded_ret; [|done|done].
  set (log := [_]). assert (L : loaded log draft) by (right; exists id; by left).
  assert (LG : forall l, grows log l -> loaded l draft) by (intros l G; right; exists id; apply G; by left).
  apply guarded_try. unfold draftAccess. apply guarded_then. eapply guarded_mono; [|apply guarded_reached].
  intros l1 [m|e] _ [G1 W1]; apply guarded_ret; [|by destruct e]. fold (writes l1 c (MailboxID draft)) in W1.
  apply guarded_try, guarded_ret. destruct (addresses "to" _); [|done]. apply guarded_try, guarded_ret. destruct (addresses "cc" _); [|done].
  apply guarded_try. eapply guarded_mono; [|apply (guarded_draft_mailbox c l1 draft (UdFrom body) W1)].
  intros l2 [mb|e] _ [G2 W2]; [|done]. cbv zeta.
  assert (G02 : grows log l2) by by eapply grows_trans.
  assert (SAVE : forall l ch, grows l2 l -> DrMailbox ch = mb -> permitted c l _ (Messages.QDb (MRedraft (ID draft) (MailboxID draft) ch))).
  { intros l ch G E. split; [exists draft; split; [apply LG; by eapply grows_trans|split; [done|]]|split].
    - eapply may_grows; [|exact W1]. by eapply grows_trans.
    - eapply may_grows; [|exact W1]. by eapply grows_trans.
    - rewrite E. by eapply may_grows. }
  apply guarded_try. eapply (guarded_mono _ _ _ (fun l _ => grows l2 l)).
  - intros l [th|e] _ G; [|done]. unfold Messages.or_else, Messages.db. apply guarded_try, guarded_then, guarded_ask; [by apply SAVE|].
    intros [x|e]; apply guarded_ret; done.
  - destruct (_ || _); [|apply grows_refl]. unfold Messages.or_else. apply guarded_try, guarded_then. eapply guarded_mono; [|apply guarded_thread; by right].
    intros l [th|e] _ G; apply guarded_ret; done.
Qed.

(** ** Quarantine *)

Ltac quarantined := apply guarded_try; eapply guarded_mono; [|apply guarded_quarantine];
  let lg := fresh in let mb := fresh "mb" in let M := fresh "M" in intros lg [mb|] _ M; [|done].
Lemma permitted_quarantine c r :
  match r with RqListQuarantine _ _ _ | RqReleaseQuarantine _ _ | RqDeleteQuarantine _ _ => True | _ => False end ->
  guarded (permitted c) [] (handle (Some c) r) (fun _ _ => True).
Proof.
  destruct r; try done; intros _; cbn [handle]; apply guarded_served.
  - unfold listQuarantine. quarantined. eapply (within_permitted _ _ _ false); [eassumption| |done]. within.
  - unfold releaseQuarantine. apply guarded_try, guarded_ret. destruct (RequireTwoFactor _); [|done]. quarantined.
    eapply (within_permitted _ _ _ true); [eassumption| |done]. unfold NewMessageID. within.
  - unfold deleteQuarantine. quarantined. eapply (within_permitted _ _ _ true); [eassumption| |done]. within.
Qed.

(** C8: No request reads or changes another account's mail. Whatever the database holds and answers, each statement a
    request makes about a mailbox, to read it, to change it or to tell its event streams, comes after the request was
    found to reach that mailbox, by a grant its account holds now and its credential allows: with mail:read or
    mail:write to read, with mail:write to change; a row named by its id is changed only if the mailbox it was loaded
    from is such a one; a message or a source that is answered is of a mailbox reached with mail:read; and a request
    that is not signed in makes no statement at all. *)
Theorem own_mail_only (r : Request) :
  (forall c, guarded (permitted c) [] (handle (Some c) r) (fun _ _ => True)) /\
  (forall c id, guarded (permitted c) [] (getMessage (Some c) id)
     (fun log a => match a with Ok (m, _) => loaded log m /\ may log c (MailboxID m) Held.CapMailRead | Err _ => True end)) /\
  (forall c id, guarded (permitted c) [] (getRawMessage (Some c) id)
     (fun log a => match a with Ok raw => exists m, loaded log m /\ raw = RawMessage (Stored m) /\ may log c (MailboxID m) Held.CapMailRead
                              | Err _ => True end)) /\
  guarded (fun _ X q => match q with Messages.QDb _ | QAccount _ | QPublish _ _ => False | _ => True end) [] (handle None r) (fun _ _ => True).
Proof.
  split; [|split; [apply permitted_get|split; [apply permitted_raw|]]].
  - intros c. destruct r; first [by apply permitted_reading | by apply permitted_writing | apply permitted_save | apply permitted_redraft
      | apply permitted_delete | apply permitted_update | by apply permitted_quarantine | idtac]; cbn [handle]; apply guarded_served.
    + eapply guarded_mono; [|apply permitted_get]. done.
    + eapply guarded_mono; [|apply permitted_raw]. done.
  - by destruct r.
Qed.
End Access.
End MailAccess.
