(* ===== verification/Forwards.v ===== *)
(** * What a delivery makes of a message's header and its filters' answers

    internal/mime/authresults.go's removal of forged Authentication-Results,
    handlers/redirect_forward.go's forwards, handlers/account_sieve.go's choice of script,
    folder and flags, and handlers/delivery_stages.go and trace.go. *)

From S2P Require Import Prelude GoTime GoStrings Pipeline AuthResults Emails Threads MessageStore.
From Stdlib Require Import Ascii.
Import GoTime GoStrings.
Local Open Scope Z_scope.

(** encoding/json on what deliveries store as JSON: a list of strings, a sieve step's
    script, and the step's configuration for an account's own. *)
Class DeliveryLib := {
  decode_strings : string -> option (list string);
  encode_strings : list string -> string;
  step_script : string -> option string;
  sieve_config : string -> string -> Z -> string
}.

Module Forwards.

(** ** mime/authresults.go *)

Definition blank (a : ascii) : bool := bool_decide (a = " "%char) || bool_decide (a = byte 9).
(** The field that starts the text, its continuation lines with it, and what follows. *)
Fixpoint take_field (after_line : bool) (s : string) : string * string :=
  match s with
  | EmptyString => ("", "")
  | String a r =>
      if after_line && negb (blank a) then ("", s)
      else let '(f, rest) := take_field (bool_decide (a = lf)) r in (String a f, rest)
  end.
Definition fieldEnd (s : string) : string * string := take_field false s.
Definition specials : list ascii :=
  ["("%char; ")"%char; "<"%char; ">"%char; "@"%char; ","%char; ";"%char; ":"%char; byte 92; byte 34; "/"%char; "["%char; "]"%char; "?"%char; "="%char].
Definition isTokenChar (c : ascii) : bool :=
  let n := nat_of_ascii c in ((32 <? n) && (n <? 127))%nat && negb (bool_decide (c ∈ specials)).
(** Past whitespace, folds and comments; a comment never closed leaves nothing. *)
Fixpoint skipCFWS (depth : nat) (s : string) : string :=
  match s with
  | EmptyString => ""
  | String c r =>
      if (0 <? depth)%nat && bool_decide (c = byte 92) then match r with String _ r => skipCFWS depth r | EmptyString => "" end
      else if bool_decide (c = "("%char) then skipCFWS (S depth) r
      else if (0 <? depth)%nat && bool_decide (c = ")"%char) then skipCFWS (pred depth) r
      else if (0 <? depth)%nat || blank c || bool_decide (c = cr) || bool_decide (c = lf) then skipCFWS depth r
      else s
  end.
Fixpoint quoted_text (s acc : string) : option string :=
  match s with
  | EmptyString => None
  | String c r =>
      if bool_decide (c = byte 92) then match r with String d r => quoted_text r (acc +:+ String d "") | EmptyString => None end
      else if bool_decide (c = byte 34) then (if bool_decide (acc = "") then None else Some acc)
      else if bool_decide (c = cr) || bool_decide (c = lf) then quoted_text r acc
      else quoted_text r (acc +:+ String c "")
  end.
Fixpoint token_text (s : string) : string :=
  match s with
  | String c r => if isTokenChar c then String c (token_text r) else ""
  | EmptyString => ""
  end.
Definition readAuthServID (v : string) : option string :=
  match skipCFWS 0 v with
  | EmptyString => None
  | String c r =>
      if bool_decide (c = byte 34) then quoted_text r ""
      else let t := token_text (String c r) in if bool_decide (t = "") then None else Some t
  end.
(** [strings.TrimRight(s, " \t")]. *)
Definition trim_right (p : ascii -> bool) (s : string) : string := srev (trim_left_set p (srev s)).

Section Strip.
Context `{Unicode}.

Definition claimsAuthServID (field authservID : string) : bool :=
  match cut_byte ":"%char field with
  | None => false
  | Some (name, value) =>
      if negb (EqualFold (trim_right blank name) "Authentication-Results") then false
      else match readAuthServID value with None => true | Some id => EqualFold id authservID end
  end.
Definition header_ends (s : string) : bool :=
  match s with EmptyString => true | String a _ => bool_decide (a = lf) || HasPrefix s crlf end.
(** The fields of the header section that stay, whether one went, and the rest. *)
Fixpoint strip_fields (fuel : nat) (s authservID : string) : list string * bool * string :=
  match fuel with
  | O => ([], false, s)
  | S fuel =>
      if header_ends s then ([], false, s)
      else
        let '(field, rest) := fieldEnd s in
        let '(kept, removed, rest) := strip_fields fuel rest authservID in
        if claimsAuthServID field authservID then (kept, true, rest) else (field :: kept, removed, rest)
  end.
(** A field is a byte or more. *)
Definition StripAuthResults (raw authservID : string) : string :=
  let '(kept, removed, rest) := strip_fields (String.length raw) raw authservID in
  if removed then concat_all kept +:+ rest else raw.

(** ** redirect_forward.go *)

Definition redirectMetaTargets : string := "redirect_to".
Definition redirectMetaSuppressKeep : string := "redirect_suppress_keep".
Definition meta (key : string) (m : Emails.EmailJSON) : string := default "" (Emails.Metadata m !! key).
Definition redirectSuppressesKeep (m : Emails.EmailJSON) : bool := bool_decide (meta redirectMetaSuppressKeep m = "true").
Definition normalizeRedirectAddr (addr : string) : string :=
  ToLower (TrimSpace (TrimSuffix (TrimPrefix (TrimSpace addr) "<") ">")).
Definition is_cr (a : ascii) : bool := bool_decide (a = cr).
Definition delivered_to_line (line : string) : option string :=
  let line := trim_right is_cr line in
  match line with
  | EmptyString => None
  | String a _ =>
      if blank a then None
      else match cut_byte ":"%char line with
           | None => None
           | Some (name, value) => if EqualFold (TrimSpace name) "Delivered-To" then Some (TrimSpace value) else None
           end
  end.
Definition header_block (raw : string) : string :=
  match Cut raw (crlf +:+ crlf) with
  | Some (h, _) => h
  | None => match Cut raw (String lf (String lf "")) with Some (h, _) => h | None => raw end
  end.
Definition deliveredToChain (raw : string) : list string :=
  if bool_decide (raw = "") then [] else omap delivered_to_line (split_byte lf (header_block raw)).
Definition arcChain (auth : list Pipeline.AuthResult) : string :=
  let cv := default "" (last (Pipeline.AResult <$> List.filter (fun r => bool_decide (Pipeline.Method r = AuthResults.AuthARC)) auth)) in
  if bool_decide (cv ∈ ["none"; "pass"; "fail"]) then cv else "".

Section Json.
Context `{DeliveryLib}.
Definition decodeRedirectTargets (raw : string) : list string :=
  if bool_decide (raw = "") then [] else default [] (decode_strings raw).
Definition forward_row (sender domain raw target : string) (auth : list Pipeline.AuthResult) : MessageStore.Queued := {|
  MessageStore.QuMessage := None; MessageStore.QuSender := sender; MessageStore.QuSendingDomain := domain; MessageStore.QuRecipient := target;
  MessageStore.QuDomain := Threads.DomainFromAddress target; MessageStore.QuRaw := "Delivered-To: " +:+ target +:+ crlf +:+ raw;
  MessageStore.QuRequireTLS := false; MessageStore.QuARCResults := AuthResults.AuthResultsValue auth; MessageStore.QuARCChain := arcChain auth |}.
(** [seen]: where the message has been; [emitted]: where it is sent already. *)
Fixpoint forwards_to (targets : list string) (seen emitted : list string) (sender raw domain : string) (auth : list Pipeline.AuthResult)
    : list MessageStore.Queued :=
  match targets with
  | [] => []
  | target :: rest =>
      let key := normalizeRedirectAddr target in
      if bool_decide (key = "") || bool_decide (key ∈ emitted) || bool_decide (key ∈ seen) then forwards_to rest seen emitted sender raw domain auth
      else if bool_decide (Threads.DomainFromAddress target = "") then forwards_to rest seen (key :: emitted) sender raw domain auth
      else forward_row sender domain raw target auth :: forwards_to rest seen (key :: emitted) sender raw domain auth
  end.
Definition buildRedirectForwards (m : Emails.EmailJSON) (raw sender : string) (recipients : list string) (domain : string)
    (auth : list Pipeline.AuthResult) : list MessageStore.Queued :=
  if bool_decide (TrimSpace raw = "") then []
  else
    let targets := decodeRedirectTargets (meta redirectMetaTargets m) in
    forwards_to targets (normalizeRedirectAddr <$> deliveredToChain raw ++ recipients) [] sender raw domain auth.

(** ** account_sieve.go *)

Record SieveScript := { Script : string; ScriptHash : string }.
Definition sieve_on (s : Pipeline.FilterConfig) : bool := bool_decide (Pipeline.Name s = "sieve") && Pipeline.Enabled s.
Definition with_config (config : string) (s : Pipeline.FilterConfig) : Pipeline.FilterConfig := {|
  Pipeline.Name := Pipeline.Name s; Pipeline.Type_ := Pipeline.Type_ s; Pipeline.Enabled := Pipeline.Enabled s;
  Pipeline.Unskippable := Pipeline.Unskippable s; Pipeline.Config := config |}.
Definition own_sieve_step (config : string) : Pipeline.FilterConfig := {|
  Pipeline.Name := "sieve"; Pipeline.Type_ := Pipeline.FilterTypeTransform; Pipeline.Enabled := true; Pipeline.Unskippable := false;
  Pipeline.Config := config |}.
(** The first sieve step without a script takes the account's; with none such, a step of its
    own follows the last. [before] is in reverse; [after_last], what follows the last sieve
    step so far, in reverse. *)
Inductive placed := Filled (steps : list Pipeline.FilterConfig) | Broken | NoPlace (upto after_ : list Pipeline.FilterConfig).
Fixpoint place_script (config : string) (steps : list Pipeline.FilterConfig) (upto after_ : list Pipeline.FilterConfig) : placed :=
  match steps with
  | [] => NoPlace upto after_
  | s :: rest =>
      if negb (sieve_on s) then place_script config rest upto (after_ ++ [s])
      else match (if bool_decide (Pipeline.Config s = "") then Some "" else step_script (Pipeline.Config s)) with
           | None => Broken
           | Some own => if bool_decide (own = "") then Filled (upto ++ after_ ++ with_config config s :: rest)
                         else place_script config rest (upto ++ after_ ++ [s]) []
           end
  end.
Definition withSieveScript (cfg : Pipeline.PipelineConfig) (mb : Z) (s : SieveScript) : result unit Pipeline.PipelineConfig :=
  let config := sieve_config (Script s) (ScriptHash s) mb in
  match place_script config (Pipeline.Filters cfg) [] [] with
  | Filled steps => Ok (Pipeline.with_filters steps cfg)
  | Broken => Err tt
  | NoPlace [] _ => Ok cfg
  | NoPlace upto after_ => Ok (Pipeline.with_filters (upto ++ own_sieve_step config :: after_) cfg)
  end.
(** The account's active script, unless it is blank. *)
Definition activeSieveScript (stored : option SieveScript) : option SieveScript :=
  match stored with Some s => if bool_decide (TrimSpace (Script s) = "") then None else Some s | None => None end.
Definition withAccountSieve (cfg : Pipeline.PipelineConfig) (mb : Z) (stored : option SieveScript) : result unit Pipeline.PipelineConfig :=
  match activeSieveScript stored with Some s => withSieveScript cfg mb s | None => Ok cfg end.
Fixpoint vacations_after (after_sieve : bool) (steps : list Pipeline.FilterConfig) : list Pipeline.FilterConfig :=
  match steps with
  | [] => []
  | s :: rest =>
      if sieve_on s then vacations_after true rest
      else if after_sieve && bool_decide (Pipeline.Name s = "vacation") && Pipeline.Enabled s then s :: vacations_after after_sieve rest
      else vacations_after after_sieve rest
  end.
Definition accountSieveOnly (cfg : Pipeline.PipelineConfig) (mb : Z) (stored : option SieveScript) : result unit (option Pipeline.PipelineConfig) :=
  if negb (existsb sieve_on (Pipeline.Filters cfg)) then Ok None
  else match activeSieveScript stored with
       | None => Ok None
       | Some s =>
           only ← withSieveScript {| Pipeline.ID := Pipeline.ID cfg; Pipeline.DomainID := Pipeline.DomainID cfg;
                    Pipeline.Direction := Pipeline.Direction cfg;
                    Pipeline.Filters := own_sieve_step "" :: vacations_after false (Pipeline.Filters cfg); Pipeline.Active := true;
                    Pipeline.CreatedAt := GoTime.zero; Pipeline.UpdatedAt := GoTime.zero |} mb s;
           Ok (Some only)
       end.
End Json.
Definition sieveFolder (m : Emails.EmailJSON) : string :=
  let folder := meta "deliver_to_folder" m in
  if bool_decide (folder = "") then "INBOX" else if Folders.good_name folder then Folders.CanonicalFolder folder else "INBOX".
(** mail/classification.go *)
Definition SieveReceiptKeyword : string := "$receipt".
Definition ClassReceipt : string := "receipt".
Definition RuleClassOf (keywords : list string) : string :=
  if existsb (fun k => EqualFold k SieveReceiptKeyword) keywords then ClassReceipt else "".
Record sieveFlags := { seen_ : bool; flagged_ : bool; draft_ : bool; rule_class : string }.
Definition sieveFlagsOf (m : Emails.EmailJSON) : sieveFlags :=
  let keywords := Fields (meta "imap_flags" m) in
  let has flag := existsb (fun k => bool_decide (ToLower k = flag)) keywords in
  {| seen_ := has "\seen"; flagged_ := has "\flagged"; draft_ := has "\draft"; rule_class := RuleClassOf keywords |}.
(** A recipient's own copy of a message the domain's pipeline has run on. *)
Definition once_only (key : string) : bool := HasPrefix key "redirect_" || HasPrefix key "notify_" || HasPrefix key "vacation_".
Definition recipientCopy (m : Emails.EmailJSON) (rcpt : string) : Emails.EmailJSON := {|
  Emails.EEnvelope := {| Emails.MailFrom := Emails.MailFrom (Emails.EEnvelope m); Emails.RcptTo := [rcpt];
    Emails.ClientIP := Emails.ClientIP (Emails.EEnvelope m); Emails.ClientHostname := Emails.ClientHostname (Emails.EEnvelope m);
    Emails.Helo := Emails.Helo (Emails.EEnvelope m); Emails.TLS := Emails.TLS (Emails.EEnvelope m);
    Emails.EDirection := Emails.EDirection (Emails.EEnvelope m) |};
  Emails.EHeaders := Emails.EHeaders m; Emails.EBody := Emails.EBody m; Emails.Attachments := Emails.Attachments m;
  Emails.Inline := Emails.Inline m; Emails.CalendarEvents := Emails.CalendarEvents m;
  Emails.Metadata := base.filter (fun kv => once_only (fst kv) = false) (Emails.Metadata m) |}.

(** ** trace.go *)

Definition transportLabel (received : option bool) : string :=
  match received with None => "" | Some true => "tls" | Some false => "plaintext" end.
Definition terminalStep {E} (r : Pipeline.ExecutionResult E) : option Pipeline.StepResult :=
  if bool_decide (Pipeline.FinalAction r = Pipeline.ActionContinue) then None else last (Pipeline.Steps r).
Definition quarantineReason {E} (r : Pipeline.ExecutionResult E) : string :=
  match terminalStep r with
  | Some s => let code := Pipeline.ReasonForStep s in if bool_decide (code = "") then "pipeline" else code
  | None => "pipeline"
  end.
End Strip.
End Forwards.
