(* ===== verification/SmtpText.v ===== *)
(** * What the SMTP gateway reads off a message and an address

    The pure parts of internal/gateway/smtp: the UTF-8 checks of the envelope and of the
    header block (smtputf8.go), addresses and the peer (util.go), the trace header
    (received.go, internal/mail/received.go), the hop count (internal/mime/limits.go), the
    search for a blank line in a spooled message (spool.go) and the tarpit's delays
    (tarpit.go). A message on disk is its bytes; what reads of it can fail is said where the
    code looks. *)

From S2P Require Import Prelude GoTime GoStrings GoDate MailAddress Outbound Emails.
From Stdlib Require Import Ascii.
Import GoTime GoStrings GoDate MailAddress.
Local Open Scope Z_scope.

Module SmtpText.

(** go-smtp's SMTPError: what a command is answered. *)
Record SMTPError := { Code : Z; EnhancedCode : Z * Z * Z; Message : string }.
Definition refuse {A} (code : Z) (enhanced : Z * Z * Z) (message : string) : result SMTPError A :=
  Err {| Code := code; EnhancedCode := enhanced; Message := message |}.

(** ** smtputf8.go *)

Definition containsNonASCII (s : string) : bool := negb (is_ascii s).
Definition validateUTF8Address (address : string) (enabled : bool) (code : Z) : result SMTPError unit :=
  if negb (ValidString address) then refuse code (5, 1, 3) "Invalid UTF-8 in envelope address"
  else if negb enabled && containsNonASCII address then
    refuse code (5, 6, 7) "Internationalized envelope address requires SMTPUTF8"
  else Ok tt.

Definition is_lf (r : rune) : bool := bool_decide (r = Rune (String lf "")).
Definition is_cr (r : rune) : bool := bool_decide (r = Rune (String cr "")).
(** 128 and above; U+FFFD for what is no UTF-8. *)
Definition non_ascii (r : rune) : bool := match r with Rune c => negb (is_ascii c) | Bad => true end.
Definition is_bad (r : rune) : bool := match r with Rune _ => false | Bad => true end.
Fixpoint scan_headers (rs : list rune) (lineStart invalid nonASCII : bool) : bool * bool :=
  match rs with
  | [] => (invalid, nonASCII)
  | char :: rs =>
      if lineStart && (is_lf char || (is_cr char && match rs with next :: _ => is_lf next | [] => false end))
      then (invalid, nonASCII)
      else scan_headers rs (is_lf char) (invalid || is_bad char) (nonASCII || non_ascii char)
  end.
(** [disk]: the file reads back. *)
Definition messageDiskFailure {A} : result SMTPError A := refuse 451 (4, 3, 0) "Error reading message data".
Definition validateUTF8Headers (message : option string) (enabled : bool) : result SMTPError unit :=
  match message with
  | None => messageDiskFailure
  | Some raw =>
      let '(invalid, nonASCII) := scan_headers (runes raw) true false false in
      if invalid then refuse 550 (5, 6, 0) "Invalid UTF-8 in message headers"
      else if negb enabled && nonASCII then
        refuse 554 (5, 6, 9) "Internationalized message headers require SMTPUTF8"
      else Ok tt
  end.

(** ** util.go *)

Definition splitHostPort (addr : string) : string * string :=
  match cut_prefix "[" addr with
  | Some rest =>
      match cut_byte "]"%char rest with
      | None => (addr, "")
      | Some (host, after) => match after with String ":"%char port => (host, port) | _ => (host, "") end
      end
  | None => match cut_last ":"%char addr with Some (host, port) => (host, port) | None => (addr, "") end
  end.
Definition extractIP (addr : string) : string := fst (splitHostPort addr).
Definition bareAddresses (addrs : list Emails.Address) : list string :=
  List.filter (fun a => negb (bool_decide (a = ""))) (Emails.AAddress <$> addrs).

(** ** The trace header *)

Definition receivedWith (isTLS authenticated smtpUTF8 : bool) : string :=
  (if smtpUTF8 then "UTF8SMTP" else "ESMTP") +:+ (if isTLS then "S" else "") +:+ (if authenticated then "A" else "").
Definition singleRecipient (rcpts : list string) : string := match rcpts with [r] => r | _ => "" end.

Record ReceivedInfo := {
  RFrom : string; RemoteIP : string; By : string; With : string; RID : string; For : string; Timestamp : Time
}.
Definition sanitizeHeaderToken (s : string) : string :=
  if negb (ContainsControlChar s) then TrimSpace s
  else TrimSpace (concat_all (write_rune <$> List.filter (fun r => negb (ctl_rune r)) (runes s))).
Definition unless_empty (s other : string) : string := if bool_decide (s = "") then other else s.
(** [fresh]: what GenerateQueueID answers; the session gives its own. [offset]: the server's
    time zone, in seconds. *)
Definition BuildReceivedHeader (fresh : string) (now : Time) (offset : Z) (info : ReceivedInfo) : string :=
  let ip := sanitizeHeaderToken (RemoteIP info) in
  let forAddr := sanitizeHeaderToken (For info) in
  "Received: from " +:+ unless_empty (sanitizeHeaderToken (RFrom info)) "unknown" +:+
  (if bool_decide (ip = "") then "" else " ([" +:+ ip +:+ "])") +:+
  crlf +:+ Outbound.tab +:+ "by " +:+ unless_empty (sanitizeHeaderToken (By info)) "localhost" +:+ " (RESTMAIL) with " +:+
  unless_empty (sanitizeHeaderToken (With info)) "ESMTP" +:+ " id " +:+ unless_empty (sanitizeHeaderToken (RID info)) fresh +:+
  (if bool_decide (forAddr = "") then "" else crlf +:+ Outbound.tab +:+ "for <" +:+ forAddr +:+ ">") +:+ "; " +:+
  RFC1123Z (if IsZero (Timestamp info) then now else Timestamp info) offset +:+ crlf.

(** ** The hop count: internal/mime/limits.go *)

Section Hops.
Context `{Unicode}.

(** [bufio.ScanLines]: an end of input after a line feed begins no line. *)
Definition scan_lines (raw : string) : list string :=
  match reverse (split_byte lf raw) with
  | "" :: ls => reverse ls
  | ls => reverse ls
  end.
Definition TrimRightCR (s : string) : string := srev (trim_left_set (fun a => bool_decide (a = cr)) (srev s)).
Fixpoint count_fields (lines : list string) : nat :=
  match lines with
  | [] => 0
  | l :: lines =>
      let line := TrimRightCR l in
      if bool_decide (line = "") then 0
      else if Outbound.folded line then count_fields lines
      else match cut_byte ":"%char line with
           | Some (name, _) =>
               (if EqualFold (Outbound.TrimRight name) "Received" then 1 else 0) + count_fields lines
           | None => count_fields lines
           end
  end%nat.
Definition ReceivedCount (raw : string) : nat := count_fields (scan_lines raw).
End Hops.

(** What [CountReceived] knows of the line it is in. *)
Record in_line := { is_first : bool; onlyCR : bool; continuation : bool; decided : bool; matched : nat }.
Definition new_line : in_line := {| is_first := true; onlyCR := true; continuation := false; decided := false; matched := 0 |}.
Definition received_name : string := "received".
(** One byte of a line: what is known now, and whether it ended the name of a Received field. *)
Definition line_byte (c : ascii) (st : in_line) : in_line * bool :=
  let continuation := if is_first st then Outbound.blank_byte c else continuation st in
  let upd d m := {| is_first := false; onlyCR := onlyCR st && bool_decide (c = cr); continuation := continuation;
                    decided := d; matched := m |} in
  if continuation || decided st then (upd (decided st) (matched st), false)
  else if bool_decide (c = ":"%char) then (upd true (matched st), (matched st =? String.length received_name)%nat)
  else if (matched st <? String.length received_name)%nat
          && bool_decide (String.get (matched st) received_name = Some (byte (Nat.lor (nat_of_ascii c) 32))) then
    (upd false (S (matched st)), false)
  else if (matched st <? String.length received_name)%nat || negb (Outbound.blank_byte c) then (upd true (matched st), false)
  else (upd false (matched st), false).
Fixpoint count_from (s : string) (st : in_line) : nat :=
  match s with
  | EmptyString => 0
  | String c s =>
      if bool_decide (c = lf) then if onlyCR st then 0 else count_from s new_line
      else let '(st, hit) := line_byte c st in (if hit then 1 else 0) + count_from s st
  end%nat.
Definition CountReceived (raw : string) : nat := count_from raw new_line.

(** ** spool.go *)

(** The first [n] bytes at [offset] of the file, [None] when the disk fails there. *)
Definition read_at (message : string) (disk : nat -> bool) (offset n : nat) : option string :=
  if disk offset then Some (take_bytes n (drop_bytes offset message)) else None.
Definition Index (s sep : string) : option nat := String.length ∘ fst <$> Cut s sep.
Definition chunk : nat := Z.to_nat (64 * 1024).
(** [offset]: where the bytes [kept] of the last round begin. Each round reads at least one
    byte more, so that the file's length is fuel enough ([index_found]). *)
Fixpoint index_loop (fuel : nat) (message : string) (disk : nat -> bool) (separator : string) (offset : nat) (kept : string)
    : result unit (option nat) :=
  match fuel with
  | O => Err tt
  | S fuel =>
      let space := (chunk + String.length separator - 1 - String.length kept)%nat in
      match read_at message disk (offset + String.length kept) space with
      | None => Err tt
      | Some new =>
          let have := kept +:+ new in
          match Index have separator with
          | Some at_ => Ok (Some (offset + at_)%nat)
          | None =>
              if bool_decide (new = "") then Ok None
              else if (String.length separator <=? String.length have)%nat then
                let next := (String.length have - (String.length separator - 1))%nat in
                index_loop fuel message disk separator (offset + next) (drop_bytes next have)
              else index_loop fuel message disk separator offset have
          end
      end
  end.
Definition indexInFile (message : string) (disk : nat -> bool) (separator : string) : result unit (option nat) :=
  index_loop (S (S (String.length message))) message disk separator 0 "".
Definition crlf2 : string := crlf +:+ crlf.
Definition lf2 : string := String lf (String lf "").
Definition blankLineAt (message : string) (disk : nat -> bool) : result unit (option nat) :=
  at_ ← indexInFile message disk crlf2;
  match at_ with
  | Some n => Ok (Some (n + 4)%nat)
  | None => at_ ← indexInFile message disk lf2; Ok (option_map (fun n => n + 2)%nat at_)
  end.
Definition hasBlankLine (message : string) (disk : nat -> bool) : result unit bool :=
  at_ ← blankLineAt message disk; Ok (match at_ with Some _ => true | None => false end).
Definition onlyWhitespace (message : string) : bool := bool_decide (trim_left message = "").
(** [None]: no text. *)
Definition recoverBody (message : string) (disk : nat -> bool) : result unit (option string) :=
  start ← blankLineAt message disk;
  Ok (match start with
      | Some n => if (String.length message <=? n)%nat then None else Some (drop_bytes n message)
      | None => None
      end).

(** ** tarpit.go *)

Record tarpitPolicy := { enabled : bool; base : Duration; softLimit : Z; max : Duration }.
Definition defaultTarpitPolicy : tarpitPolicy := {|
  enabled := true; base := Second; softLimit := 2; max := 15 * Second |}.
Definition tarpitDelay (errCount softLimit : Z) (base max : Duration) : Duration :=
  if (base <=? 0) || (max <=? 0) then 0
  else if errCount <=? softLimit then 0
  else
    let over := GoInt.wrap64 (errCount - softLimit) in
    let steps := Z.quot max base in
    if (steps <=? 0) || (steps <? over) then max else GoInt.wrap64 (base * over).
Definition delayFor (p : tarpitPolicy) (errCount : Z) : Duration :=
  if enabled p then tarpitDelay errCount (softLimit p) (base p) (max p) else 0.
End SmtpText.
