(* ===== verification/LocalDelivery.v ===== *)
(** * Delivering to a mailbox: handlers/messages.go, alias_delivery.go, local_delivery_policy.go

    deliverToLocal takes a message for one mailbox through the domain's inbound pipeline and
    stores, holds, forwards, drops or refuses it; deliverToRecipient comes before it where an
    alias led; deliverMessage is the gateways' route. delivery_stages.go splits a delivery in
    two, and trace.go records how it ended.

    A message the pipeline works on is behind a pointer, [ref]: the engine ([Pipeline]) runs on
    pointers, and what a filter leaves behind one is read by [LqRead]. The parser, the stored
    pipelines and scripts, the receive gate and alias lookup ([Recipients]), the TLS report
    reader, the object store and the spool files are questions. A server without an event
    broker or push service publishes to nobody. *)

From S2P Require Import Prelude GoTime GoStrings MailAddress Prog MailStore Grants GrantStore Pipeline AuthResults Emails StorageQuota.
From S2P Require Import Recipients Auth Accounts SignIn Access Threads MessageStore Messages Forwards SmtpText.
From Stdlib Require Import Ascii.
Import GoTime GoStrings Auth Prog Accounts SignIn Access MessageStore Messages Forwards.
Local Open Scope Z_scope.

(** encoding/json: a stored pipeline's filters, and every string token of a text. *)
Class PolicyLib := {
  decode_filters : string -> option (list Pipeline.FilterConfig);
  json_texts : jsonb -> list string
}.

Module LocalDelivery.
Local Open Scope prog_scope.

Abbreviation ref := Z.
Abbreviation EmailJSON := Emails.EmailJSON.
Abbreviation ExecutionResult := (Pipeline.ExecutionResult ref).

(** ** delivery_stages.go *)

Inductive deliveryStage := deliverWhole | deliverRequired | deliverContent.
#[export] Instance deliveryStage_eq_dec : EqDecision deliveryStage.
Proof. solve_decision. Defined.
(** No raw headers, or none left, count as none kept: the stored JSON leaves them out. *)
Record deliveryState := { Run : Pipeline.RunState; RawHeaders : gmap string (list string); KeptMetadata : gmap string string }.
Definition newDeliveryState : deliveryState := {| Run := Pipeline.NewRunState; RawHeaders := ∅; KeptMetadata := ∅ |}.
Definition keep (run : Pipeline.RunState) (m : EmailJSON) : deliveryState := {|
  Run := run; RawHeaders := Emails.Raw (Emails.EHeaders m); KeptMetadata := Emails.Metadata m |}.
Definition with_metadata (meta : gmap string string) (m : EmailJSON) : EmailJSON := {|
  Emails.EEnvelope := Emails.EEnvelope m; Emails.EHeaders := Emails.EHeaders m; Emails.EBody := Emails.EBody m;
  Emails.Attachments := Emails.Attachments m; Emails.Inline := Emails.Inline m; Emails.CalendarEvents := Emails.CalendarEvents m;
  Emails.Metadata := meta |}.
Definition put_back (s : deliveryState) (m : EmailJSON) : EmailJSON :=
  let m := if bool_decide (RawHeaders s = ∅) then m else Emails.with_headers (Emails.with_raw (RawHeaders s) (Emails.EHeaders m)) m in
  with_metadata (KeptMetadata s ∪ Emails.Metadata m) m.
Definition stageOf (stage : deliveryStage) (state : deliveryState) (cfg : Pipeline.PipelineConfig) (m : EmailJSON)
    : Pipeline.PipelineConfig * Pipeline.RunState * EmailJSON :=
  match stage with
  | deliverRequired => (fst (Pipeline.Split cfg), Run state, m)
  | deliverContent => (snd (Pipeline.Split cfg), Run state, put_back state m)
  | deliverWhole => (cfg, Pipeline.NewRunState, m)
  end.

(** ** trace.go *)

Definition outcomeDelivered : string := "delivered".
Definition outcomeRejected : string := "rejected".
Definition outcomeQuarantined : string := "quarantined".
Definition outcomeDiscarded : string := "discarded".
Definition outcomeDeferred : string := "deferred".
Record traceInputs := {
  PipelineID : Z; TrResult : ExecutionResult; TrEnvelope : Emails.Envelope; Transport : string; RFCMessageID : string; Outcome : string;
  TrMessage : option Z
}.
(** Every trace here is of inbound mail. Durations and spam scores are left out. *)
Record MessageTrace := {
  MtMessage : option Z; MtRFCMessageID : string; MtTransport : string; MtMailFrom : string; MtRcptTo : string; MtClientIP : string;
  MtPipelineID : Z; MtFinalAction : string; MtOutcome : string; ReasonCode : string; Stages : list Pipeline.StepResult
}.
Definition buildTrace (i : traceInputs) : MessageTrace := {|
  MtMessage := TrMessage i; MtRFCMessageID := RFCMessageID i; MtTransport := Transport i; MtMailFrom := Emails.MailFrom (TrEnvelope i);
  MtRcptTo := default "" (head (Emails.RcptTo (TrEnvelope i))); MtClientIP := Emails.ClientIP (TrEnvelope i); MtPipelineID := PipelineID i;
  MtFinalAction := Pipeline.FinalAction (TrResult i); MtOutcome := Outcome i;
  ReasonCode := match terminalStep (TrResult i) with Some s => Pipeline.ReasonForStep s | None => "" end;
  Stages := Pipeline.Steps (TrResult i) |}.
Definition ended (outcome : string) (i : traceInputs) : MessageTrace := buildTrace {|
  PipelineID := PipelineID i; TrResult := TrResult i; TrEnvelope := TrEnvelope i; Transport := Transport i; RFCMessageID := RFCMessageID i;
  Outcome := outcome; TrMessage := TrMessage i |}.
Definition delivered_trace (m : Message) (i : traceInputs) : MessageTrace := buildTrace {|
  PipelineID := PipelineID i; TrResult := TrResult i; TrEnvelope := TrEnvelope i; Transport := Transport i;
  RFCMessageID := Threads.PMsgID (Ids m); Outcome := outcomeDelivered; TrMessage := Some (ID m) |}.

(** ** What a delivery is given *)

(** Without InCommit, which a queued delivery adds to the transaction; the gateways set none. *)
Record localDeliveryParams := {
  LdMailbox : Store.Mailbox;
  LdSender : string;
  LdSenderName : string;
  LdRecipientsTo : jsonb;
  LdRecipientsCc : jsonb;
  LdSubject : string;
  LdBodyText : string;
  LdBodyHTML : string;
  LdMessageID : string;
  LdInReplyTo : string;
  LdReferences : string;
  LdRawMessage : string;
  LdClientIP : string;
  HeloName : string;
  LdFolder : string;
  LdIsAnswered : option bool;
  LdIsRead : option bool;
  LdIsFlagged : option bool;
  LdIsStarred : option bool;
  LdIsDraft : option bool;
  LdReceivedAt : option Time;
  LdReceivedTLS : option bool;
  LdTLSVersion : string;
  LdRequireTLS : bool;
  LdStage : deliveryStage;
  LdState : deliveryState;
  IndependentAttachments : bool;
  ReceiveChecked : bool
}.
Definition with_source (raw : string) (p : localDeliveryParams) : localDeliveryParams := {|
  LdMailbox := LdMailbox p; LdSender := LdSender p; LdSenderName := LdSenderName p; LdRecipientsTo := LdRecipientsTo p;
  LdRecipientsCc := LdRecipientsCc p; LdSubject := LdSubject p; LdBodyText := LdBodyText p; LdBodyHTML := LdBodyHTML p;
  LdMessageID := LdMessageID p; LdInReplyTo := LdInReplyTo p; LdReferences := LdReferences p; LdRawMessage := raw;
  LdClientIP := LdClientIP p; HeloName := HeloName p; LdFolder := LdFolder p; LdIsAnswered := LdIsAnswered p; LdIsRead := LdIsRead p;
  LdIsFlagged := LdIsFlagged p; LdIsStarred := LdIsStarred p; LdIsDraft := LdIsDraft p; LdReceivedAt := LdReceivedAt p;
  LdReceivedTLS := LdReceivedTLS p; LdTLSVersion := LdTLSVersion p; LdRequireTLS := LdRequireTLS p; LdStage := LdStage p;
  LdState := LdState p; IndependentAttachments := IndependentAttachments p; ReceiveChecked := ReceiveChecked p |}.
Definition for_mailbox (mb : Store.Mailbox) (p : localDeliveryParams) : localDeliveryParams := {|
  LdMailbox := mb; LdSender := LdSender p; LdSenderName := LdSenderName p; LdRecipientsTo := LdRecipientsTo p;
  LdRecipientsCc := LdRecipientsCc p; LdSubject := LdSubject p; LdBodyText := LdBodyText p; LdBodyHTML := LdBodyHTML p;
  LdMessageID := LdMessageID p; LdInReplyTo := LdInReplyTo p; LdReferences := LdReferences p; LdRawMessage := LdRawMessage p;
  LdClientIP := LdClientIP p; HeloName := HeloName p; LdFolder := LdFolder p; LdIsAnswered := LdIsAnswered p; LdIsRead := LdIsRead p;
  LdIsFlagged := LdIsFlagged p; LdIsStarred := LdIsStarred p; LdIsDraft := LdIsDraft p; LdReceivedAt := LdReceivedAt p;
  LdReceivedTLS := LdReceivedTLS p; LdTLSVersion := LdTLSVersion p; LdRequireTLS := LdRequireTLS p; LdStage := LdStage p;
  LdState := LdState p; IndependentAttachments := IndependentAttachments p; ReceiveChecked := ReceiveChecked p |}.
(** Any other error is known by how its text begins; what a wrapped error adds is left out. *)
Inductive delivery_error :=
| ErrMailboxUnavailable
| ContentStageNext (state : deliveryState)
| Text (s : string)
| Broken.
Definition rejected (why : string) : delivery_error := Text ("rejected: " +:+ why).
Definition deferred (why : string) : delivery_error := Text ("deferred: " +:+ why).

(** What could not be parsed: past the limits on a message's structure, or not a message. *)
Inductive parse_error := ErrStructureLimit | Unparsed.
(** A row of the pipelines table. *)
Record StoredPipeline := { SpID : Z; SpDomainID : Z; SpDirection : string; SpFilters : string; SpActive : bool }.

Section Delivery.
Context `{Unicode, AuthLib, MailLib, CursorLib, DeliveryLib, PolicyLib}.
Context {Filter : Type}.

Inductive Q : Type -> Type :=
| LqMail {X} (q : Messages.Q X) : Q X
| LqEngine {X} (c : @Pipeline.call Filter ref X) : Q X
| LqNew (m : EmailJSON) : Q ref
| LqRead (r : ref) : Q EmailJSON
| LqParse (raw : string) : Q (result parse_error EmailJSON)
| LqReport (address raw : string) : Q (result unit bool)
| LqReceive (mb : Z) : Q (result Recipients.resolve_error unit)
| LqResolve (address : string) : Q (result Recipients.resolve_error Recipients.Recipient)
| LqMailbox (id : Z) : Q (result unit (option Store.Mailbox))
| LqDomain (name : string) : Q (result unit (option Z))
| LqPipeline (domain : Z) : Q (result unit (option StoredPipeline))
| LqScript (mb : Z) : Q (result unit (option SieveScript))
| LqCopyParts (m : EmailJSON) : Q (result unit EmailJSON)
| LqTrace (t : MessageTrace) : Q unit
| LqNewMail (mb : Z) : Q unit
| LqSpooled (part : string) : Q (result refusal string).
Abbreviation P := (prog Q).
Abbreviation Engine := (@Pipeline.Engine Filter).

Definition mail {A} (p : prog Messages.Q A) : P A := within (@LqMail) p.
Definition failing {E F X} (e : F) (p : P (result E X)) : P (result F X) :=
  x <- p ; Ret (match x with Ok a => Ok a | Err _ => Err e end).
Definition recordTrace (t : MessageTrace) : P unit := ask (LqTrace t).

(** ** local_delivery_policy.go *)

Definition stored_config (s : StoredPipeline) (filters : list Pipeline.FilterConfig) : Pipeline.PipelineConfig := {|
  Pipeline.ID := SpID s; Pipeline.DomainID := SpDomainID s; Pipeline.Direction := SpDirection s;
  Pipeline.Filters := Pipeline.WithDMARCReportsStep (Pipeline.WithVacationStep filters); Pipeline.Active := SpActive s;
  Pipeline.CreatedAt := GoTime.zero; Pipeline.UpdatedAt := GoTime.zero |}.
(** The domain's active inbound pipeline, the default one when it has none. *)
Definition inbound_config (domain : Z) (load decode : delivery_error) : P (result delivery_error Pipeline.PipelineConfig) :=
  stored <-! failing load (ask (LqPipeline domain)) ;
  match stored with
  | None => now <- mail (ask QNow) ; Ret (Ok (Pipeline.DefaultInboundPipeline domain now))
  | Some s => Ret (match decode_filters (SpFilters s) with Some fs => Ok (stored_config s fs) | None => Err decode end)
  end.
Definition localInboundPolicy (mb : Store.Mailbox) : P (result delivery_error Pipeline.PipelineConfig) :=
  cfg <-! inbound_config (Store.MbDomainID mb) (deferred "load inbound policy: ") (deferred "decode inbound policy: ") ;
  script <-! failing (deferred "load inbound account script: ") (ask (LqScript (Store.MbID mb))) ;
  Ret (match withAccountSieve cfg (Store.MbID mb) script with
       | Ok cfg => Ok cfg
       | Err _ => Err (deferred "load inbound account script: ")
       end).
(** restmail.go *)
Definition inboundPipeline (domainName : string) : P (result delivery_error (option Pipeline.PipelineConfig)) :=
  if bool_decide (domainName = "") then Ret (Ok None)
  else
    found <-! failing Broken (ask (LqDomain domainName)) ;
    match found with
    | None => Ret (Ok None)
    | Some domain => cfg <-! inbound_config domain Broken (Text "decode inbound pipeline: ") ; Ret (Ok (Some cfg))
    end.

(** ** The message the pipeline works on *)

(** [json.Unmarshal(column, &list)] when it succeeds, and nothing otherwise. *)
Definition string_element (v : jsonb) : option string := match v with JString s => Some s | JNull => Some "" | _ => None end.
Definition strings_of (j : jsonb) : list string := match j with JArray l => default [] (mapM string_element l) | _ => [] end.
Definition addresses_of (j : jsonb) : list Emails.Address := (fun a => {| Emails.AName := ""; Emails.AAddress := a |}) <$> strings_of j.
Definition built_body (text html : string) : Emails.Body :=
  if negb (bool_decide (text = "")) && negb (bool_decide (html = "")) then
    Emails.BodyPart "multipart/alternative" "" [Emails.BodyPart "text/plain; charset=utf-8" text []; Emails.BodyPart "text/html; charset=utf-8" html []]
  else if negb (bool_decide (html = "")) then Emails.BodyPart "text/html" html []
  else Emails.BodyPart "text/plain" text [].
Definition no_envelope : Emails.Envelope := {|
  Emails.MailFrom := ""; Emails.RcptTo := []; Emails.ClientIP := ""; Emails.ClientHostname := ""; Emails.Helo := ""; Emails.TLS := false;
  Emails.EDirection := "" |}.
(** The message the gateway's own fields make. *)
Definition built (p : localDeliveryParams) : EmailJSON := {|
  Emails.EEnvelope := no_envelope;
  Emails.EHeaders := {| Emails.From := []; Emails.To := []; Emails.Cc := []; Emails.Bcc := []; Emails.Subject := LdSubject p; Emails.Date := "";
    Emails.MessageID := LdMessageID p; Emails.InReplyTo := LdInReplyTo p; Emails.References := []; Emails.Raw := ∅; Emails.Extra := ∅ |};
  Emails.EBody := built_body (LdBodyText p) (LdBodyHTML p);
  Emails.Attachments := []; Emails.Inline := []; Emails.CalendarEvents := []; Emails.Metadata := ∅ |}.
Definition receivedTLSFlag (t : option bool) : bool := default false t.
Definition envelope_of (rcpt : string) (p : localDeliveryParams) : Emails.Envelope := {|
  Emails.MailFrom := LdSender p; Emails.RcptTo := [rcpt]; Emails.ClientIP := LdClientIP p; Emails.ClientHostname := "";
  Emails.Helo := HeloName p; Emails.TLS := receivedTLSFlag (LdReceivedTLS p); Emails.EDirection := "inbound" |}.
Definition or_empty {A} (l d : list A) : list A := match l with [] => d | _ => l end.
Definition or_text (s d : string) : string := if bool_decide (s = "") then d else s.
Definition filled (p : localDeliveryParams) (h : Emails.Headers) : Emails.Headers := {|
  Emails.From := or_empty (Emails.From h) [ {| Emails.AName := LdSenderName p; Emails.AAddress := LdSender p |} ];
  Emails.To := or_empty (Emails.To h) (addresses_of (LdRecipientsTo p)); Emails.Cc := or_empty (Emails.Cc h) (addresses_of (LdRecipientsCc p));
  Emails.Bcc := Emails.Bcc h; Emails.Subject := or_text (Emails.Subject h) (LdSubject p); Emails.Date := Emails.Date h;
  Emails.MessageID := or_text (Emails.MessageID h) (LdMessageID p); Emails.InReplyTo := or_text (Emails.InReplyTo h) (LdInReplyTo p);
  Emails.References := Emails.References h; Emails.Raw := Emails.Raw h; Emails.Extra := Emails.Extra h |}.
Definition enveloped (e : Emails.Envelope) (h : Emails.Headers) (m : EmailJSON) : EmailJSON := {|
  Emails.EEnvelope := e; Emails.EHeaders := h; Emails.EBody := Emails.EBody m; Emails.Attachments := Emails.Attachments m;
  Emails.Inline := Emails.Inline m; Emails.CalendarEvents := Emails.CalendarEvents m; Emails.Metadata := Emails.Metadata m |}.
Definition with_raw_message (raw : string) (m : EmailJSON) : EmailJSON :=
  if bool_decide (raw = "") then m else with_metadata (<["raw_message" := raw]> (Emails.Metadata m)) m.
Definition addressed (p : localDeliveryParams) (m : EmailJSON) : EmailJSON :=
  with_raw_message (LdRawMessage p) (enveloped (envelope_of (Store.MbAddress (LdMailbox p)) p) (filled p (Emails.EHeaders m)) m).

(** ** The inbound pipeline *)

(** What came of it: gone on, with the verdicts and, when it ran, what its trace will say; or
    dealt with. *)
Inductive checked := Passed (m : EmailJSON) (auth : list Pipeline.AuthResult) (trace : option traceInputs) | Processed.
Definition previewLength : nat := 200.
Definition held_copy (p : localDeliveryParams) (r : ExecutionResult) (now later : Time) : Held := {|
  HlID := 0; HlMailbox := Store.MbID (LdMailbox p); HlSender := LdSender p; HlSubject := LdSubject p;
  BodyPreview := String.substring 0 previewLength (LdBodyText p); HlRaw := LdRawMessage p; QuarantineReason := quarantineReason r;
  HlReceivedAt := now; HlExpiresAt := later + 30 * 24 * Hour; Released := false |}.
Definition runPipeline (e : Engine) (p : localDeliveryParams) (m : EmailJSON) : P (result delivery_error checked) :=
  cfg <-! localInboundPolicy (LdMailbox p) ;
  let '(stage, run, m) := stageOf (LdStage p) (LdState p) cfg m in
  r <- ask (LqNew m) ;
  ran <- within (@LqEngine) (Pipeline.ExecuteStage e stage r run) ;
  match ran with
  | None => Ret (Err Broken)
  | Some (result, run) =>
      seen <- ask (LqRead r) ;
      let base := {| PipelineID := Pipeline.ID cfg; TrResult := result; TrEnvelope := Emails.EEnvelope seen;
                     Transport := transportLabel (LdReceivedTLS p); RFCMessageID := Emails.MessageID (Emails.EHeaders seen); Outcome := "";
                     TrMessage := None |} in
      let action := Pipeline.FinalAction result in
      if bool_decide (action = Pipeline.ActionReject) then
        recordTrace (ended outcomeRejected base) ;; Ret (Err (rejected (Pipeline.RejectMsg result)))
      else if bool_decide (action = Pipeline.ActionQuarantine) then
        now <- mail (ask QNow) ; later <- mail (ask QNow) ;
        _ <-! failing (Text "hold the message in quarantine: ") (mail (db (MHold (held_copy p result now later)))) ;
        recordTrace (ended outcomeQuarantined base) ;; Ret (Ok Processed)
      else if bool_decide (action = Pipeline.ActionDiscard) then
        recordTrace (ended outcomeDiscarded base) ;; Ret (Ok Processed)
      else if bool_decide (action = Pipeline.ActionDefer) then
        recordTrace (ended outcomeDeferred base) ;; Ret (Err (deferred "try again later"))
      else if bool_decide (action = Pipeline.ActionContinue) then
        final <- ask (LqRead (Pipeline.FinalEmail result)) ;
        if bool_decide (LdStage p = deliverRequired) then Ret (Err (ContentStageNext (keep run final)))
        else Ret (Ok (Passed final (Pipeline.EAuth result) (Some base)))
      else Ret (Ok (Passed seen [] None))
  end.

(** ** deliverToLocal *)

(** The rows queued of those the Sieve redirects ask for; one that cannot be queued is passed
    over. *)
Definition tagged (requireTLS : bool) (r : Queued) : Queued := {|
  QuMessage := QuMessage r; QuSender := QuSender r; QuSendingDomain := QuSendingDomain r; QuRecipient := QuRecipient r; QuDomain := QuDomain r;
  QuRaw := QuRaw r; QuRequireTLS := requireTLS; QuARCResults := QuARCResults r; QuARCChain := QuARCChain r |}.
Fixpoint queue_forwards (rows : list Queued) (forwarded : Z) : P Z :=
  match rows with
  | [] => Ret forwarded
  | row :: rest =>
      done <- mail (db (MQueue [row])) ;
      queue_forwards rest (match done with Ok _ => forwarded + 1 | Err _ => forwarded end)
  end.
Definition stored_attachment (a : Emails.Attachment) : Attachment := {|
  AtMessage := 0; AtSize := Emails.Size a; AtFilename := Emails.Filename a; AtRef := Emails.Ref a |}.
Definition attachment_rows (m : EmailJSON) : list Attachment :=
  stored_attachment <$> List.filter (fun a => negb (bool_decide (Emails.Ref a = ""))) (Emails.Attachments m ++ Emails.Inline m).
Definition some_time (t : Time) : option Time := if IsZero t then None else Some t.
Definition calendar_version (mb : Z) (e : Emails.CalendarEvent) : EventVersion := {|
  EvMailbox := mb; EvUID := Emails.UID e; EvSequence := Emails.Sequence e; EvMethod := Emails.CMethod e; EvStatus := Emails.CStatus e;
  EvSummary := Emails.Summary e; EvStart := some_time (Emails.DTStart e); EvEnd := some_time (Emails.DTEnd e);
  EvOrganizer := Emails.CAddress (Emails.Organizer e); EvMessage := 0 |}.
Definition calendar_versions (mb : Z) (events : list Emails.CalendarEvent) : list EventVersion :=
  calendar_version mb <$> List.filter (fun e => negb (bool_decide (Emails.UID e = ""))) events.
Definition new_message (p : localDeliveryParams) (m : EmailJSON) (messageID inReplyTo references threadID raw : string)
    (auth : list Pipeline.AuthResult) (calendar : list Emails.CalendarEvent) (attached : bool) : Message :=
  let flags := sieveFlagsOf m in
  {| ID := 0; MailboxID := Store.MbID (LdMailbox p);
     Folder := if bool_decide (LdFolder p = "") then sieveFolder m else LdFolder p;
     Ids := {| Threads.PMsgID := messageID; Threads.PInReplyTo := inReplyTo; Threads.PReferences := references; Threads.PThreadID := threadID |};
     Parts := {| Sender := LdSender p; SenderName := LdSenderName p; RecipientsTo := LdRecipientsTo p; RecipientsCc := LdRecipientsCc p;
                 Subject := LdSubject p; BodyText := LdBodyText p; BodyHTML := LdBodyHTML p |};
     Stored := {| RawMessage := raw; AuthResults := auth; Calendar := calendar; ReceivedTLS := LdReceivedTLS p; TLSVersion := LdTLSVersion p;
                  RequireTLS := LdRequireTLS p; RuleClass := rule_class flags |};
     Marks := {| IsAnswered := default false (LdIsAnswered p); IsRead := default (seen_ flags) (LdIsRead p);
                 IsFlagged := default (flagged_ flags) (LdIsFlagged p); IsStarred := default false (LdIsStarred p); Keywords := [];
                 IMAPDeleted := false; IsDraft := default (draft_ flags) (LdIsDraft p) |};
     SizeBytes := len (LdSubject p) + len (LdBodyText p) + len (LdBodyHTML p); HasAttachments := attached; IsDeleted := false;
     ReceivedAt := default GoTime.zero (LdReceivedAt p) |}.
(** What follows the pipeline: forwards, then the row with everything it carries. *)
Definition store (p : localDeliveryParams) (parsed : option EmailJSON) (m : EmailJSON) (auth : list Pipeline.AuthResult) (trace : option traceInputs)
    : P (result delivery_error (option Message)) :=
  let mb := Store.MbID (LdMailbox p) in
  let address := Store.MbAddress (LdMailbox p) in
  forwarded <- queue_forwards (tagged (LdRequireTLS p) <$>
    buildRedirectForwards m (LdRawMessage p) (LdSender p) [address] (Threads.DomainFromAddress address) auth) 0 ;
  if (0 <? forwarded) && redirectSuppressesKeep m then
    match trace with Some t => recordTrace (ended outcomeDelivered t) | None => Ret tt end ;;
    Ret (Ok None)
  else
    let raw := if bool_decide (LdRawMessage p = "") then "" else AuthResults.AuthResultsHeader auth +:+ LdRawMessage p in
    messageID <- (if bool_decide (LdMessageID p = "") then mail (NewMessageID (Threads.DomainFromAddress (LdSender p))) else Ret (LdMessageID p)) ;
    let inReplyTo := or_text (LdInReplyTo p) (Emails.InReplyTo (Emails.EHeaders m)) in
    let references := or_text (LdReferences p) (Join (Emails.References (Emails.EHeaders m)) " ") in
    threadID <-! failing Broken (mail (ResolveThreadID mb messageID inReplyTo references)) ;
    m' <-! (if IndependentAttachments p then failing Broken (ask (LqCopyParts m)) else Ret (Ok m)) ;
    let rows := attachment_rows m' in
    calendar <- (if bool_decide (raw = "") then Ret []
                 else match parsed with
                      | Some first => Ret (Emails.CalendarEvents first)
                      | None => again <- ask (LqParse raw) ; Ret (match again with Ok first => Emails.CalendarEvents first | Err _ => [] end)
                      end) ;
    stored <-! failing (Text "failed to create message: ")
      (mail (db (MDeliver (new_message p m messageID inReplyTo references threadID raw auth calendar (negb (bool_decide (rows = []))))
                  rows (calendar_versions mb calendar)))) ;
    match stored with
    | Err StorageQuota.ErrStorageQuota => Ret (Err (Text "mailbox_full: recipient mailbox is over quota"))
    | Err _ => Ret (Err (Text "failed to create message: "))
    | Ok msg =>
        match trace with Some t => recordTrace (delivered_trace msg t) | None => Ret tt end ;;
        mail (publish mb (NewMessage (ID msg) (Folder msg) (Sender (Parts msg)) (Subject (Parts msg)))) ;;
        unread <- mail (db (MUnread mb)) ;
        mail (publish mb (UnreadUpdate "INBOX" (match unread with Ok n => n | Err _ => 0 end))) ;;
        (if bool_decide (Folder msg = "INBOX") && negb (IsRead (Marks msg)) then ask (LqNewMail mb) else Ret tt) ;;
        Ret (Ok (Some msg))
    end.
(** [None] for the engine: the server has none. *)
Definition deliverToLocal (engine : option Engine) (p : localDeliveryParams) : P (result delivery_error (option Message)) :=
  let mb := LdMailbox p in
  _ <-! (if ReceiveChecked p then Ret (Ok tt)
         else r <- ask (LqReceive (Store.MbID mb)) ;
              Ret (match r with Ok _ => Ok tt | Err Recipients.Unavailable => Err ErrMailboxUnavailable | Err _ => Err Broken end)) ;
  consumed <-! (if bool_decide (LdStage p = deliverContent) then Ret (Ok false)
                else failing Broken (ask (LqReport (Store.MbAddress mb) (LdRawMessage p)))) ;
  if consumed : bool then Ret (Ok None)
  else
    let p := with_source (StripAuthResults (LdRawMessage p) AuthResults.AuthServID) p in
    first <- (if bool_decide (LdRawMessage p = "") then Ret (Err Unparsed) else ask (LqParse (LdRawMessage p))) ;
    match first with
    | Err ErrStructureLimit => Ret (Err (rejected "message structure too complex: "))
    | _ =>
        let parsed := match first with Ok m => Some m | Err _ => None end in
        let m := addressed p (default (built p) parsed) in
        outcome <-! match engine with Some e => runPipeline e p m | None => Ret (Ok (Passed m [] None)) end ;
        match outcome with
        | Processed => Ret (Ok None)
        | Passed m auth trace => store p parsed m auth trace
        end
    end.

(** ** alias_delivery.go *)

Definition no_recipient : Recipients.Recipient := {|
  Recipients.RMailbox := None; Recipients.RAddress := ""; Recipients.DeliveredTo := ""; Recipients.ForwardingDomain := ""; Recipients.RAlias := false |}.
Definition loops (deliveredTo raw : string) : bool :=
  existsb (fun previous => bool_decide (normalizeRedirectAddr previous = normalizeRedirectAddr deliveredTo)) (deliveredToChain raw).
Definition with_target (address : string) (m : EmailJSON) : EmailJSON :=
  with_metadata (<[redirectMetaTargets := encode_strings [address]]> (Emails.Metadata m)) m.
(** The row for an alias's other server, in its own statement. *)
Definition queue_alias (r : Recipients.Recipient) (p : localDeliveryParams) (m : EmailJSON) (auth : list Pipeline.AuthResult)
    (trace : option traceInputs) : P (result delivery_error (option Message)) :=
  match buildRedirectForwards (with_target (Recipients.RAddress r) m) (LdRawMessage p) (LdSender p) [Recipients.DeliveredTo r]
          (Recipients.ForwardingDomain r) auth with
  | [row] =>
      _ <-! failing (deferred "queue alias forward: ") (mail (db (MQueue [tagged (LdRequireTLS p) row]))) ;
      match trace with Some t => recordTrace (ended outcomeDelivered t) | None => Ret tt end ;;
      Ret (Ok None)
  | _ => Ret (Err (rejected "alias forwarding loop or invalid destination"))
  end.
Definition forwardAlias (engine : option Engine) (r : Recipients.Recipient) (p : localDeliveryParams)
    : P (result delivery_error (option Message)) :=
  if bool_decide (TrimSpace (LdRawMessage p) = "") then Ret (Err (rejected "alias forwarding requires the original raw message"))
  else
    let p := with_source (StripAuthResults (LdRawMessage p) AuthResults.AuthServID) p in
    m <-! failing (rejected "invalid alias message: ") (ask (LqParse (LdRawMessage p))) ;
    let m := enveloped (envelope_of (Recipients.DeliveredTo r) p) (Emails.EHeaders m) m in
    let m := with_metadata (<["raw_message" := LdRawMessage p]> (Emails.Metadata m)) m in
    match engine with
    | None =>
        if bool_decide (LdStage p = deliverRequired) then Ret (Err (ContentStageNext (keep (Run (LdState p)) m)))
        else queue_alias r p m [] None
    | Some e =>
        found <-! failing (deferred "alias inbound policy: ") (inboundPipeline (Recipients.ForwardingDomain r)) ;
        match found with
        | None => Ret (Err (rejected "alias domain no longer exists"))
        | Some cfg =>
            let '(stage, run, m) := stageOf (LdStage p) (LdState p) cfg m in
            ptr <- ask (LqNew m) ;
            ran <- within (@LqEngine) (Pipeline.ExecuteStage e stage ptr run) ;
            match ran with
            | None => Ret (Err (deferred "alias pipeline: "))
            | Some (result, run) =>
                seen <- ask (LqRead ptr) ;
                let base := {| PipelineID := Pipeline.ID cfg; TrResult := result; TrEnvelope := Emails.EEnvelope seen;
                               Transport := transportLabel (LdReceivedTLS p); RFCMessageID := Emails.MessageID (Emails.EHeaders seen);
                               Outcome := ""; TrMessage := None |} in
                let action := Pipeline.FinalAction result in
                if bool_decide (action = Pipeline.ActionContinue) then
                  final <- ask (LqRead (Pipeline.FinalEmail result)) ;
                  if bool_decide (LdStage p = deliverRequired) then Ret (Err (ContentStageNext (keep run final)))
                  else queue_alias r p final (Pipeline.EAuth result) (Some base)
                else if bool_decide (action = Pipeline.ActionDefer) then
                  recordTrace (ended outcomeDeferred base) ;; Ret (Err (deferred "alias pipeline deferred delivery"))
                else
                  recordTrace (ended outcomeRejected base) ;;
                  Ret (Err (rejected ("alias pipeline: " +:+ action +:+ " " +:+ Pipeline.RejectMsg result)))
            end
        end
    end.
Definition deliverToRecipient (engine : option Engine) (r : Recipients.Recipient) (p : localDeliveryParams)
    : P (result delivery_error (option Message)) :=
  let tracked := negb (bool_decide (Recipients.DeliveredTo r = "")) && negb (bool_decide (LdRawMessage p = "")) in
  if tracked && negb (bool_decide (LdStage p = deliverContent)) && loops (Recipients.DeliveredTo r) (LdRawMessage p) then
    Ret (Err (rejected ("alias forwarding loop at " +:+ Recipients.DeliveredTo r)))
  else
    let p := if tracked then with_source ("Delivered-To: " +:+ Recipients.DeliveredTo r +:+ crlf +:+ LdRawMessage p) p else p in
    match Recipients.RMailbox r with
    | Some mb => deliverToLocal engine (for_mailbox mb p)
    | None => if Recipients.RAlias r then forwardAlias engine r p else deliverToLocal engine p
    end.

(** ** deliverMessage *)

Record deliverMessageBody := {
  DmMailboxID : Z; DmAddress : string; DmNul : bool; DmSender : string; DmSenderName : string; DmRecipientsTo : jsonb; DmRecipientsCc : jsonb;
  DmSubject : string; DmMessageID : string; DmInReplyTo : string; DmReferences : string; DmClientIP : string; DmHeloName : string;
  DmFolder : string; DmIsAnswered : option bool; DmIsRead : option bool; DmIsFlagged : option bool; DmIsStarred : option bool;
  DmIsDraft : option bool; DmReceivedAt : option Time; DmReceivedTLS : option bool; DmTLSVersion : string; DmRequireTLS : bool
}.
Definition has_nul (s : string) : bool := negb (free (byte 0) s).
(** [spool.raw.nul], and the two columns a NUL cannot be stored in. *)
Definition nul_fields (b : deliverMessageBody) : list string :=
  (if DmNul b then ["raw_message"] else []) ++
  (if existsb has_nul (json_texts (DmRecipientsTo b)) then ["recipients_to"] else []) ++
  (if existsb has_nul (json_texts (DmRecipientsCc b)) then ["recipients_cc"] else []).
Definition no_mailbox : Store.Mailbox := {| Store.MbID := 0; Store.MbAddress := ""; Store.MbDomainID := 0; Store.MbActive := false |}.
Definition errNoMailbox : refusal := Refuse 404 "mailbox_not_found" "Mailbox not found".
(** The mailbox the message is for, and how it was reached. *)
Definition find_target (b : deliverMessageBody) : P (result refusal (Store.Mailbox * Recipients.Recipient)) :=
  if 0 <? DmMailboxID b then
    found <-! failing (internal "Failed to look up mailbox") (ask (LqMailbox (DmMailboxID b))) ;
    Ret (match found with Some mb => Ok (mb, no_recipient) | None => Err errNoMailbox end)
  else if negb (bool_decide (DmAddress b = "")) then
    found <- ask (LqResolve (DmAddress b)) ;
    Ret (match found with
         | Ok r => Ok (default no_mailbox (Recipients.RMailbox r), r)
         | Err (Recipients.ErrAliasRouting _) => Err (Refuse 550 "rejected" Recipients.AliasRoutingRefusal)
         | Err Recipients.Database => Err (internal "Failed to look up mailbox")
         | Err _ => Err errNoMailbox
         end)
  else Ret (Err (Invalid ["mailbox_id"; "address"])).
(** What the gateway is told of an error, by how its text begins. *)
Definition delivery_refusal (e : delivery_error) : refusal :=
  match e with
  | ErrMailboxUnavailable => errNoMailbox
  | Text s =>
      if HasPrefix s "rejected:" then Refuse 550 "rejected" (TrimPrefix s "rejected: ")
      else if HasPrefix s "deferred:" then Refuse 451 "deferred" "Try again later"
      else if HasPrefix s "mailbox_full:" then Refuse 422 "mailbox_full" "Recipient mailbox is over quota"
      else internal "Failed to deliver message"
  | _ => internal "Failed to deliver message"
  end.
Definition params_of (b : deliverMessageBody) (mb : Store.Mailbox) (folder text html raw : string) (checked : bool) : localDeliveryParams := {|
  LdMailbox := mb; LdSender := DmSender b; LdSenderName := DmSenderName b; LdRecipientsTo := DmRecipientsTo b; LdRecipientsCc := DmRecipientsCc b;
  LdSubject := DmSubject b; LdBodyText := text; LdBodyHTML := html; LdMessageID := DmMessageID b; LdInReplyTo := DmInReplyTo b;
  LdReferences := DmReferences b; LdRawMessage := raw; LdClientIP := DmClientIP b; HeloName := DmHeloName b; LdFolder := folder;
  LdIsAnswered := DmIsAnswered b; LdIsRead := DmIsRead b; LdIsFlagged := DmIsFlagged b; LdIsStarred := DmIsStarred b; LdIsDraft := DmIsDraft b;
  LdReceivedAt := DmReceivedAt b; LdReceivedTLS := DmReceivedTLS b; LdTLSVersion := DmTLSVersion b; LdRequireTLS := DmRequireTLS b;
  LdStage := deliverWhole; LdState := newDeliveryState; IndependentAttachments := false; ReceiveChecked := checked |}.
(** [maxReceived]: the limit on Received fields in force. The answer: the message made, or
    [None] for one that was held, dropped, forwarded or taken as a report. *)
Definition deliverMessage (engine : option Engine) (maxReceived : nat) (b : deliverMessageBody) : P (result refusal (option Message)) :=
  match nul_fields b with
  | _ :: _ as fields => Ret (Err (Invalid fields))
  | [] =>
      folder <-! Ret (if bool_decide (DmFolder b = "") then Ok ""
                      else if Folders.good_name (DmFolder b) then Ok (Folders.CanonicalFolder (DmFolder b)) else Err (Invalid ["folder"])) ;
      _ <-! match DmReceivedTLS b with
            | None => Ret (Ok tt)
            | Some _ =>
                section <-! ask (LqSpooled "header_section") ;
                Ret (if (maxReceived <? SmtpText.ReceivedCount section)%nat
                     then Err (Refuse 550 "rejected" "Routing loop detected: too many Received headers") else Ok tt)
            end ;
      target <-! find_target b ;
      let '(mb, recipient) := target in
      let checked := negb (Store.MbID mb =? 0) in
      _ <-! (if checked
             then r <- ask (LqReceive (Store.MbID mb)) ;
                  Ret (match r with
                       | Ok _ => Ok tt
                       | Err Recipients.Unavailable => Err errNoMailbox
                       | Err _ => Err (internal "Failed to deliver message")
                       end)
             else Ret (Ok tt)) ;
      text <-! ask (LqSpooled "body_text") ;
      html <-! ask (LqSpooled "body_html") ;
      raw <-! ask (LqSpooled "raw_message") ;
      done <- deliverToRecipient engine recipient (params_of b mb folder text html raw checked) ;
      Ret (match done with Ok m => Ok m | Err e => Err (delivery_refusal e) end)
  end.
End Delivery.
End LocalDelivery.
