(* ===== verification/SmtpTextFacts.v ===== *)
(** * What the SMTP gateway's readers promise

    [received_counts_agree]: the streaming hop count is the one over lines.
    [index_in_file_exact]: searching a spooled message chunk by chunk finds what searching
    it whole would. [tarpit_delay_exact]: the delays grow by a base each, up to the cap. *)

From S2P Require Import Prelude GoTime GoStrings GoDate MailAddress Outbound Emails SmtpText.
From Stdlib Require Import Ascii.
Import GoTime GoStrings GoDate MailAddress SmtpText.
Local Open Scope Z_scope.

Module SmtpTextFacts.

(** ** The tarpit *)

(** A rejection is delayed by a base for each error past the soft limit, and never more
    than the cap; without a policy, or within the limit, it is not delayed at all. *)
Theorem tarpit_delay_exact (p : tarpitPolicy) n :
  GoInt.in64 (max p) -> 0 <= softLimit p -> 0 <= n <= GoInt.max_int64 ->
  delayFor p n =
    if enabled p && (0 <? base p) && (0 <? max p) then Z.min (max p) (base p * Z.max 0 (n - softLimit p)) else 0.
Proof.
  intros M S N. unfold delayFor, tarpitDelay. destruct (enabled p); [|done]. simpl.
  unfold GoInt.in64, GoInt.min_int64, GoInt.max_int64 in *.
  destruct (Z.leb_spec (base p) 0), (Z.ltb_spec 0 (base p)); try lia; try done. simpl.
  destruct (Z.leb_spec (max p) 0), (Z.ltb_spec 0 (max p)); try lia; try done. simpl.
  destruct (Z.leb_spec n (softLimit p)).
  { rewrite Z.max_l by lia. rewrite Z.mul_0_r. lia. }
  rewrite GoInt.wrap64_id by (unfold GoInt.in64, GoInt.min_int64, GoInt.max_int64; lia).
  rewrite Z.max_r by lia. set (over := n - softLimit p).
  assert (Q := Z.quot_rem' (max p) (base p)). assert (Z.rem (max p) (base p) < base p) by (apply Z.rem_bound_pos; lia).
  assert (0 <= Z.rem (max p) (base p)) by (apply Z.rem_bound_pos; lia).
  destruct (Z.leb_spec (Z.quot (max p) (base p)) 0); simpl; [nia|].
  destruct (Z.ltb_spec (Z.quot (max p) (base p)) over); [nia|].
  assert (base p * over <= max p) by nia. assert (0 <= base p * over) by nia.
  rewrite GoInt.wrap64_id by (unfold GoInt.in64, GoInt.min_int64, GoInt.max_int64; lia). lia.
Qed.

(** ** The search *)

Lemma cut_prefix_length p s r : cut_prefix p s = Some r -> (String.length s = String.length p + String.length r)%nat.
Proof. intros ->%cut_prefix_spec. apply length_app_string. Qed.
Lemma cut_prefix_more p s t r : cut_prefix p s = Some r -> cut_prefix p (s +:+ t) = Some (r +:+ t).
Proof. intros ->%cut_prefix_spec. rewrite app_string_assoc. apply cut_prefix_app. Qed.
Lemma cut_prefix_here p s t : (String.length p <= String.length s)%nat -> cut_prefix p s = None -> cut_prefix p (s +:+ t) = None.
Proof.
  revert s. induction p as [|a p IH]; intros [|b s]; simpl; try done; try lia. intros L.
  destruct (ascii_dec a b); [apply IH; lia|done].
Qed.
Lemma Index_cons a s sep :
  Index (String a s) sep = match cut_prefix sep (String a s) with Some _ => Some O | None => S <$> Index s sep end.
Proof.
  unfold Index. cbn [Cut compose]. destruct (cut_prefix sep (String a s)); [done|]. simpl. destruct (Cut s sep) as [[]|]; done.
Qed.
Lemma Index_length s sep n : Index s sep = Some n -> (n + String.length sep <= String.length s)%nat.
Proof.
  revert n. induction s as [|a s IH]; intros n.
  - unfold Index. simpl. destruct (cut_prefix sep "") eqn:E; [|done]. intros [= <-]. apply cut_prefix_length in E. simpl in *. lia.
  - rewrite Index_cons. destruct (cut_prefix sep (String a s)) eqn:E.
    + intros [= <-]. apply cut_prefix_length in E. lia.
    + destruct (Index s sep) as [m|]; [|done]. intros [= <-]. specialize (IH m eq_refl). simpl. lia.
Qed.
(** What is found stays found. *)
Lemma Index_more s t sep n : Index s sep = Some n -> Index (s +:+ t) sep = Some n.
Proof.
  revert n. induction s as [|a s IH]; intros n.
  - destruct sep; [|done]. intros [= <-]. by destruct t.
  - rewrite string_app_cons, !Index_cons. destruct (cut_prefix sep (String a s)) eqn:E.
    + intros [= <-]. apply (cut_prefix_more _ _ t) in E. rewrite string_app_cons in E. by rewrite E.
    + destruct (Index s sep) as [m|] eqn:I; [|done]. intros [= <-]. apply (cut_prefix_here _ _ t) in E.
      * rewrite string_app_cons in E. by rewrite E, (IH m eq_refl).
      * apply Index_length in I. simpl. lia.
Qed.
Ltac index_cases := match goal with |- context [Index ?u ?sep] => destruct (Index u sep) end; [simpl; f_equal; lia|reflexivity].
(** What is not found in [x] begins in its last bytes, if at all. *)
Lemma Index_skip x t sep :
  let next := (String.length x - (String.length sep - 1))%nat in
  Index x sep = None -> (0 < String.length sep)%nat ->
  Index (x +:+ t) sep = Nat.add next <$> Index (drop_bytes next x +:+ t) sep.
Proof.
  simpl. intros N L. induction x as [|a x IH]; [simpl; by destruct (Index (EmptyString +:+ t) sep)|].
  rewrite Index_cons in N. destruct (cut_prefix sep (String a x)) eqn:E; [done|].
  destruct (Index x sep) eqn:I; [done|]. specialize (IH eq_refl). cbn [String.length].
  destruct (decide (String.length sep <= S (String.length x))%nat).
  - replace (S (String.length x) - (String.length sep - 1))%nat
      with (S (String.length x - (String.length sep - 1))) by lia.
    apply (cut_prefix_here _ _ t) in E; [|simpl; lia]. rewrite string_app_cons in *. rewrite Index_cons, E, IH.
    cbn [drop_bytes]. index_cases.
  - replace (S (String.length x) - (String.length sep - 1))%nat with O by lia. cbn [drop_bytes].
    index_cases.
Qed.

Lemma drop_bytes_length n s : String.length (drop_bytes n s) = (String.length s - n)%nat.
Proof. revert s. induction n as [|n IH]; intros [|a s]; simpl; try done. Qed.
Lemma take_none n s : (0 < n)%nat -> take_bytes n s = "" -> drop_bytes n s = "".
Proof. destruct n, s; simpl; try done; lia. Qed.
Lemma drop_drop n m s : drop_bytes n (drop_bytes m s) = drop_bytes (m + n) s.
Proof. revert s. induction m as [|m IH]; intros [|a s]; simpl; try done; by destruct n. Qed.
Lemma take_then_drop n s : take_bytes n s +:+ drop_bytes n s = s.
Proof. revert s. induction n as [|n IH]; intros [|a s]; simpl; try done. by rewrite string_app_cons, IH. Qed.
Lemma drop_bytes_prefix n s t : (n <= String.length s)%nat -> drop_bytes n (s +:+ t) = drop_bytes n s +:+ t.
Proof. revert s. induction n as [|n IH]; intros [|a s] L; simpl in *; try done; try lia. apply IH. lia. Qed.
Lemma chunk_pos : (0 < chunk)%nat.
Proof. unfold chunk. lia. Qed.
#[local] Opaque chunk.

Lemma index_loop_spec fuel message sep offset kept rest :
  (0 < String.length sep)%nat -> (String.length kept < String.length sep)%nat ->
  drop_bytes offset message = kept +:+ rest -> (S (String.length rest) < fuel)%nat ->
  index_loop fuel message (fun _ => true) sep offset kept = Ok (Nat.add offset <$> Index (kept +:+ rest) sep).
Proof.
  intros P. revert offset kept rest. induction fuel as [|fuel IH]; [lia|]. intros offset kept rest L D F. cbn [index_loop].
  set (space := (chunk + String.length sep - 1 - String.length kept)%nat). pose proof chunk_pos as C.
  assert (0 < space)%nat by (subst space; lia). unfold read_at. rewrite <- (drop_drop (String.length kept)), D, drop_bytes_app.
  set (new := take_bytes space rest). set (rest' := drop_bytes space rest).
  assert (E : rest = new +:+ rest') by (symmetry; apply take_then_drop). rewrite E at 1. rewrite <- app_string_assoc.
  destruct (Index (kept +:+ new) sep) as [at_|] eqn:I.
  { by rewrite (Index_more _ rest' _ _ I). }
  case_bool_decide as N.
  { replace rest' with "" by (symmetry; by apply take_none). by rewrite app_string_nil, I. }
  assert (S (String.length rest') <= String.length rest)%nat.
  { rewrite E, length_app_string. destruct new; [done|]. simpl. lia. }
  assert (K : drop_bytes offset message = (kept +:+ new) +:+ rest') by (by rewrite app_string_assoc, <- E).
  destruct (Nat.leb_spec (String.length sep) (String.length (kept +:+ new))).
  - set (next := (String.length (kept +:+ new) - (String.length sep - 1))%nat).
    rewrite (IH _ _ rest'); [|rewrite drop_bytes_length; subst next; lia| |lia].
    + rewrite (Index_skip _ _ _ I P). fold next. simpl fmap. match goal with |- context [Index ?u ?sep] => destruct (Index u sep) end; [simpl; do 2 f_equal; lia|done].
    + rewrite <- drop_drop, K. apply drop_bytes_prefix. subst next. lia.
  - rewrite (IH _ _ rest'); [done|lia|done|lia].
Qed.
(** Searching the spooled message chunk by chunk, keeping a separator's length less one
    byte between chunks, ends and finds the separator's first occurrence in the whole
    message, wherever chunks divide it; so the first blank line, a CRLF one first, ends
    where it does in the message held in memory. *)
Theorem index_in_file_exact message sep :
  sep <> "" ->
  indexInFile message (fun _ => true) sep = Ok (Index message sep) /\
  blankLineAt message (fun _ => true) =
    Ok (match Index message crlf2 with
        | Some n => Some (n + 4)%nat
        | None => option_map (fun n => n + 2)%nat (Index message lf2)
        end).
Proof.
  assert (F : forall s, s <> "" -> indexInFile message (fun _ => true) s = Ok (Index message s)).
  { intros s N. unfold indexInFile. rewrite (index_loop_spec _ message s 0 "" message); try done.
    - change (EmptyString +:+ message) with message. by destruct (Index message s).
    - destruct s; [done|simpl; lia].
    - destruct s; [done|simpl; lia].
    - lia. }
  intros N. split; [by apply F|]. unfold blankLineAt. rewrite (F crlf2), (F lf2) by done. cbn [mbind result_bind].
  destruct (Index message crlf2); reflexivity.
Qed.

(** ** The hop count *)

Lemma trim_left_set_last f s c :
  trim_left_set f (s +:+ String c "") =
    if sforall f s then if f c then "" else String c "" else trim_left_set f s +:+ String c "".
Proof. induction s as [|a s IH]; [done|]. rewrite string_app_cons. simpl. destruct (f a); [exact IH|done]. Qed.
Definition trim_right (f : ascii -> bool) (s : string) : string := srev (trim_left_set f (srev s)).
Lemma srev_empty s : srev s = "" -> s = "".
Proof. destruct s as [|a s]; [done|]. rewrite srev_cons. by destruct (srev s). Qed.
Lemma trim_left_all f s : sforall f s = true <-> trim_left_set f s = "".
Proof. induction s as [|a s IH]; [done|]. simpl. destruct (f a); simpl; [done|]. by split. Qed.
Lemma trim_right_all f s : bool_decide (trim_right f s = "") = sforall f s.
Proof.
  unfold trim_right. rewrite <- (sforall_srev f). apply eq_bool_prop_intro. rewrite bool_decide_spec.
  destruct (sforall f (srev s)) eqn:E.
  - apply trim_left_all in E. by rewrite E.
  - split; [|done]. intros T%srev_empty%trim_left_all. congruence.
Qed.
Lemma trim_right_cons f c s :
  trim_right f (String c s) = if bool_decide (trim_right f s = "") && f c then "" else String c (trim_right f s).
Proof.
  rewrite trim_right_all. unfold trim_right. rewrite srev_cons, trim_left_set_last, sforall_srev.
  destruct (sforall f s) eqn:E; simpl.
  - rewrite <- (sforall_srev f) in E. apply trim_left_all in E. rewrite E. by destruct (f c).
  - by rewrite srev_app_string.
Qed.

(** The rest of a line begins with the rest of the name, blanks and a colon. *)
Fixpoint named (name t : string) : bool :=
  match name with
  | String n name => match t with String c t => bool_decide (lower_byte c = n) && named name t | EmptyString => false end
  | EmptyString =>
      (fix blanks (t : string) : bool :=
         match t with
         | String c t => bool_decide (c = ":"%char) || (Outbound.blank_byte c && blanks t)
         | EmptyString => false
         end) t
  end.
Lemma named_spec name t :
  sforall (fun n => negb (Outbound.blank_byte n) && negb (bool_decide (n = ":"%char))) name = true ->
  named name t = match cut_byte ":"%char t with
                 | Some (n, _) => bool_decide (smap lower_byte (Outbound.TrimRight n) = name)
                 | None => false
                 end.
Proof.
  change Outbound.TrimRight with (trim_right Outbound.blank_byte). revert name. induction t as [|c t IH]; intros name N.
  { by destruct name. }
  cbn [cut_byte]. destruct (ascii_dec c ":") as [->|C].
  { destruct name as [|n name]; [done|]. simpl in N. apply andb_true_iff in N as [N _]. simpl.
    rewrite (bool_decide_eq_false_2 (":"%char = n)); [reflexivity|].
    intros <-. by rewrite andb_false_r in N. }
  destruct name as [|n name].
  - cbn [named]. rewrite bool_decide_eq_false_2 by done. specialize (IH "" eq_refl). cbn [named] in IH. cbn [orb].
    rewrite IH. destruct (cut_byte ":" t) as [[b r]|]; [|by rewrite andb_false_r]. rewrite trim_right_cons.
    destruct (bool_decide (trim_right Outbound.blank_byte b = "")) eqn:T; simpl.
    + apply bool_decide_eq_true in T. rewrite T. simpl. by destruct (Outbound.blank_byte c).
    + apply bool_decide_eq_false in T. destruct (trim_right Outbound.blank_byte b); [done|]. by rewrite andb_false_r.
  - cbn [named]. simpl in N. apply andb_true_iff in N as [N1 N2]. rewrite (IH _ N2).
    destruct (cut_byte ":" t) as [[b r]|]; [|by rewrite andb_false_r]. rewrite trim_right_cons.
    destruct (_ && Outbound.blank_byte c) eqn:B; simpl.
    + apply andb_true_iff in B as [_ B]. rewrite (bool_decide_eq_false_2 (lower_byte c = n)); [done|]. intros <-.
      unfold Outbound.blank_byte in *. apply orb_true_iff in B. rewrite !bool_decide_eq_true in B. by destruct B as [->| ->].
    + apply eq_bool_prop_intro. rewrite andb_True, !bool_decide_spec. split; [by intros [-> ->]|by intros [= -> ->]].
Qed.

Fixpoint line_hits (l : string) (st : in_line) : nat * in_line :=
  match l with
  | EmptyString => (0%nat, st)
  | String c l =>
      let '(st, hit) := line_byte c st in
      let '(n, st) := line_hits l st in (((if hit then 1 else 0) + n)%nat, st)
  end.
Lemma count_line l rest st :
  free lf l = true ->
  count_from (l +:+ String lf rest) st =
    (fst (line_hits l st) + if onlyCR (snd (line_hits l st)) then 0 else count_from rest new_line)%nat /\
  count_from l st = fst (line_hits l st).
Proof.
  revert st. induction l as [|c l IH]; intros st F.
  { cbn [line_hits fst snd]. split; [|done]. change (EmptyString +:+ String lf rest) with (String lf rest). cbn [count_from].
    by rewrite bool_decide_eq_true_2. }
  simpl in F. apply andb_true_iff in F as [C F]. apply negb_true_iff, bool_decide_eq_false in C.
  rewrite string_app_cons. cbn [count_from line_hits]. rewrite bool_decide_eq_false_2 by done.
  destruct (line_byte c st) as [st' hit]. destruct (IH st' F) as [I1 I2]. rewrite I1, I2.
  destruct (line_hits l st') as [n st2]. simpl. split; lia.
Qed.
Lemma line_byte_cr c st : onlyCR (fst (line_byte c st)) = onlyCR st && bool_decide (c = cr).
Proof. unfold line_byte. by repeat (case_match; simpl; try done). Qed.
Lemma line_hits_cr l st : onlyCR (snd (line_hits l st)) = onlyCR st && sforall (fun c => bool_decide (c = cr)) l.
Proof.
  revert st. induction l as [|c l IH]; intros st; simpl; [by rewrite andb_true_r|].
  pose proof (line_byte_cr c st) as C. destruct (line_byte c st) as [st' hit]. specialize (IH st').
  destruct (line_hits l st') as [n st2]. simpl in *. by rewrite IH, C, andb_assoc.
Qed.
Lemma line_done l st :
  is_first st = false -> continuation st || decided st = true -> fst (line_hits l st) = O.
Proof.
  revert st. induction l as [|c l IH]; intros st F D; [done|]. cbn [line_hits]. unfold line_byte. rewrite F, D.
  match goal with |- context [line_hits l ?s] => specialize (IH s eq_refl D); destruct (line_hits l s) end. done.
Qed.
Lemma letter_bytes m c :
  (m < 8)%nat ->
  bool_decide (String.get m received_name = Some (byte (Nat.lor (nat_of_ascii c) 32)))
  = bool_decide (String.get m received_name = Some (lower_byte c)).
Proof.
  intros M. assert (T : forallb (fun m => forallb (fun k => Bool.eqb
      (bool_decide (String.get m received_name = Some (byte (Nat.lor k 32))))
      (bool_decide (String.get m received_name = Some (lower_byte (byte k))))) (seq 0 256)) (seq 0 8) = true)
    by (vm_compute; reflexivity).
  rewrite forallb_forall in T. specialize (T m ltac:(apply in_seq; lia)). rewrite forallb_forall in T.
  pose proof (nat_ascii_bounded c). specialize (T (nat_of_ascii c) ltac:(apply in_seq; lia)). unfold byte in T at 2.
  rewrite ascii_nat_embedding in T. by apply Bool.eqb_prop.
Qed.
Lemma drop_get m s n : String.get m s = Some n -> drop_bytes m s = String n (drop_bytes (S m) s).
Proof. revert s. induction m as [|m IH]; intros [|a s]; try done; [by intros [= ->]; destruct s|apply IH]. Qed.
Lemma get_some m : (m < 8)%nat -> exists n, String.get m received_name = Some n.
Proof. intros M. do 8 (destruct m as [|m]; [by eexists|]). lia. Qed.
Lemma line_named l st :
  is_first st = false -> continuation st = false -> decided st = false -> (matched st <= 8)%nat ->
  fst (line_hits l st) = if named (drop_bytes (matched st) received_name) l then 1%nat else O.
Proof.
  revert st. induction l as [|c l IH]; intros st F K D M.
  { cbn [line_hits fst]. by destruct (drop_bytes (matched st) received_name). }
  cbn [line_hits]. unfold line_byte. rewrite F, K, D. cbn [orb]. change (String.length received_name) with 8%nat.
  destruct (decide (matched st = 8)%nat) as [E|N].
  - rewrite E. change (drop_bytes 8 received_name) with EmptyString. cbn [named]. change (8 =? 8)%nat with true.
    change (8 <? 8)%nat with false. cbn [andb orb]. case_bool_decide as C; cbn [orb].
    + match goal with |- context [line_hits l ?s] => pose proof (line_done l s eq_refl eq_refl); destruct (line_hits l s) end.
      simpl in *. by subst.
    + destruct (Outbound.blank_byte c); cbn [negb andb].
      * match goal with |- context [line_hits l ?s] => specialize (IH s eq_refl eq_refl eq_refl ltac:(simpl; lia)); destruct (line_hits l s) end.
        exact IH.
      * match goal with |- context [line_hits l ?s] => pose proof (line_done l s eq_refl eq_refl); destruct (line_hits l s) end. done.
  - assert (m8 : (matched st < 8)%nat) by lia. destruct (get_some _ m8) as [n G]. rewrite (drop_get _ _ _ G). cbn [named].
    rewrite (letter_bytes _ _ m8), G. replace (matched st <? 8)%nat with true by (symmetry; apply Nat.ltb_lt; lia).
    replace (matched st =? 8)%nat with false by (symmetry; apply Nat.eqb_neq; lia). cbn [andb orb].
    case_bool_decide as C.
    + subst c. assert (lower_byte ":" <> n) as L.
      { intros <-. clear -m8 G. revert G. generalize (matched st) m8. intros m. do 8 (destruct m as [|m]; [done|]). lia. }
      rewrite (bool_decide_eq_false_2 _ L). cbn [andb].
      match goal with |- context [line_hits l ?s] => pose proof (line_done l s eq_refl eq_refl); destruct (line_hits l s) end. done.
    + case_bool_decide as Q.
      * injection Q as Q. rewrite (bool_decide_eq_true_2 (lower_byte c = n)) by done. cbn [andb].
        match goal with |- context [line_hits l ?s] => specialize (IH s eq_refl eq_refl eq_refl ltac:(simpl; lia)); destruct (line_hits l s) end.
        exact IH.
      * rewrite (bool_decide_eq_false_2 (lower_byte c = n)) by congruence. cbn [andb].
        match goal with |- context [line_hits l ?s] => pose proof (line_done l s eq_refl eq_refl); destruct (line_hits l s) end. done.
Qed.

Lemma srev_srev s : srev (srev s) = s.
Proof. induction s as [|a s IH]; [done|]. by rewrite srev_cons, srev_app_string, IH. Qed.
Abbreviation all_cr := (sforall (fun c => bool_decide (c = cr))).
Lemma trim_cr_parts l : exists e, l = TrimRightCR l +:+ e /\ all_cr e = true.
Proof.
  unfold TrimRightCR. assert (K : forall s, exists e, s = e +:+ trim_left_set (fun a => bool_decide (a = cr)) s /\ all_cr e = true).
  { induction s as [|a s (e & E & F)]; [by exists ""|]. simpl. case_bool_decide as C; [|by exists ""].
    exists (String a e). rewrite string_app_cons, <- E. split; [done|]. simpl. by rewrite bool_decide_eq_true_2. }
  destruct (K (srev l)) as (e & E & F). exists (srev e). split; [|by rewrite sforall_srev].
  rewrite <- srev_app_string, <- E. symmetry. apply srev_srev.
Qed.
Lemma trim_cr_empty l : bool_decide (TrimRightCR l = "") = all_cr l.
Proof. apply (trim_right_all (fun a => bool_decide (a = cr))). Qed.
Lemma cut_byte_free c s : free c s = true -> cut_byte c s = None.
Proof. intros F. destruct (cut_byte c s) as [[x y]|] eqn:E; [|done]. apply cut_byte_Some in E as [-> _].
  unfold free in F. rewrite sforall_app in F. simpl in F. rewrite bool_decide_eq_true_2, andb_false_r in F by done. done.
Qed.
(** The line's field name is the same with its carriage returns. *)
Lemma cut_colon l : fst <$> cut_byte ":"%char l = fst <$> cut_byte ":"%char (TrimRightCR l).
Proof.
  destruct (trim_cr_parts l) as (e & E & F). rewrite E at 1. destruct (cut_byte ":" (TrimRightCR l)) as [[n r]|] eqn:C.
  - apply cut_byte_Some in C as [C N]. rewrite C, app_string_assoc, string_app_cons. by rewrite cut_byte_app.
  - apply cut_byte_None in C. rewrite cut_byte_free; [done|]. unfold free in *. rewrite sforall_app, C. simpl.
    revert F. apply sforall_impl. intros a A%bool_decide_eq_true. subst a. done.
Qed.

Section Hops.
Context `{Unicode}.
(** The one thing of Unicode's folding that counts here: nothing but ASCII letters folds to
    those of the name, which has no k and no s. *)
Definition folds_alone : Prop := forall s, is_ascii s = false -> uni_fold s "Received" = false.
Context (alone : folds_alone).

Lemma fold_received s : EqualFold s "Received" = bool_decide (smap lower_byte s = received_name).
Proof.
  unfold EqualFold. change (is_ascii "Received") with true. rewrite andb_true_r. destruct (is_ascii s) eqn:A; [done|].
  rewrite (alone _ A). symmetry. apply bool_decide_eq_false_2. intros E.
  rewrite <- smap_lower_ascii, E in A. done.
Qed.
Definition field_hit (line : string) : nat :=
  match cut_byte ":"%char line with
  | Some (name, _) => if EqualFold (Outbound.TrimRight name) "Received" then 1%nat else O
  | None => O
  end.
Lemma field_named l : (if named received_name l then 1%nat else O) = field_hit (TrimRightCR l).
Proof.
  rewrite named_spec by done. unfold field_hit. pose proof (cut_colon l) as C.
  destruct (cut_byte ":" l) as [[n r]|], (cut_byte ":" (TrimRightCR l)) as [[n' r']|]; try done.
  simpl in C. injection C as <-. by rewrite fold_received.
Qed.
Lemma folded_cons c t : Outbound.folded (String c t) = Outbound.blank_byte c.
Proof.
  assert (P : forall a, HasPrefix (String c t) (String a "") = bool_decide (c = a)).
  { intros a. unfold HasPrefix. cbn [cut_prefix]. destruct (ascii_dec a c) as [->|N].
    - rewrite bool_decide_eq_true_2 by done. by destruct t.
    - by rewrite bool_decide_eq_false_2 by congruence. }
  unfold Outbound.folded, Outbound.blank_byte. by rewrite <- !P.
Qed.
Lemma line_counted l :
  fst (line_hits l new_line) = if bool_decide (TrimRightCR l = "") || Outbound.folded (TrimRightCR l) then O else field_hit (TrimRightCR l).
Proof.
  destruct l as [|c l]; [done|]. destruct (trim_cr_parts (String c l)) as (e & E & F).
  destruct (Outbound.blank_byte c) eqn:B.
  - assert (fst (line_hits (String c l) new_line) = O) as ->.
    { cbn [line_hits]. unfold line_byte. simpl. rewrite B. cbn [orb].
      match goal with |- context [line_hits l ?s] => pose proof (line_done l s eq_refl eq_refl); destruct (line_hits l s) end. done. }
    destruct (TrimRightCR (String c l)) as [|c' t]; [done|]. injection E as <- E.
    unfold Outbound.blank_byte in B. apply orb_true_iff in B. rewrite !bool_decide_eq_true in B. by destruct B as [->| ->].
  - assert (fst (line_hits (String c l) new_line) = if named received_name (String c l) then 1%nat else O) as ->.
    { etransitivity;
        [|apply (line_named (String c l) {| is_first := false; onlyCR := true; continuation := false; decided := false; matched := 0 |});
          [done..|simpl; lia]]. cbn [line_hits]. unfold line_byte. simpl. rewrite B. done. }
    rewrite field_named. case_bool_decide as T; [by rewrite T|]. simpl.
    destruct (TrimRightCR (String c l)) as [|c' t]; [done|]. injection E as <- E.
    by rewrite folded_cons, B.
Qed.

Lemma count_lines l rest : count_fields (l :: rest) =
  (fst (line_hits l new_line) + if onlyCR (snd (line_hits l new_line)) then 0 else count_fields rest)%nat.
Proof.
  rewrite line_hits_cr, line_counted. cbn [count_fields onlyCR new_line]. rewrite <- trim_cr_empty, andb_true_l.
  case_bool_decide; [done|]. destruct (Outbound.folded _); [done|]. unfold field_hit.
  by destruct (cut_byte ":" (TrimRightCR l)) as [[n r]|]; [destruct (EqualFold _ _)|].
Qed.
Lemma count_split n raw : (String.length raw < n)%nat -> count_from raw new_line = count_fields (split_byte lf raw).
Proof.
  revert raw. induction n as [|n IH]; intros raw L; [lia|]. destruct (cut_byte lf raw) as [[l rest]|] eqn:C.
  - apply cut_byte_Some in C as [-> F]. rewrite split_byte_app, count_lines by done. destruct (count_line l rest new_line F) as [-> _].
    rewrite (IH rest); [done|]. rewrite length_app_string in L. simpl in L. lia.
  - apply cut_byte_None in C. rewrite split_byte_free, count_lines by done.
    destruct (count_line raw "" new_line C) as [_ ->]. by destruct (onlyCR _).
Qed.
Lemma count_last ls : count_fields (ls ++ [""]) = count_fields ls.
Proof.
  induction ls as [|l ls IH]; [done|]. cbn [app count_fields]. case_bool_decide; [done|]. destruct (Outbound.folded _); [done|].
  by destruct (cut_byte _ _) as [[n r]|]; rewrite IH.
Qed.
(** The streaming hop count, which reads the header block byte by byte and keeps no
    line, is the count over its lines: the fields named Received in any case, folded ones
    once, up to the first empty line, whatever the message's line ends. *)
Theorem received_counts_agree raw : CountReceived raw = ReceivedCount raw.
Proof.
  unfold CountReceived, ReceivedCount, scan_lines. rewrite (count_split _ _ (Nat.lt_succ_diag_r _)).
  rewrite <- (reverse_involutive (split_byte lf raw)) at 1. destruct (reverse (split_byte lf raw)) as [|l ls]; [done|].
  destruct l; [|done]. by rewrite reverse_cons, count_last.
Qed.
End Hops.
End SmtpTextFacts.
