(* ===== verification/LocalFacts.v ===== *)
(** * Forged verdicts are removed; forwarding ends

    What [StripAuthResults] leaves of a header section, and that redirects can't go round in
    circles. *)

From S2P Require Import Prelude GoTime GoStrings MailAddress Prog MailStore Grants Pipeline AuthResults Emails StorageQuota Recipients.
From S2P Require Import Auth Accounts SignIn Access Threads MessageStore Messages StorageExact Forwards LocalDelivery SmtpTextFacts.
From Stdlib Require Import Ascii.

Module ForwardsFacts.
Import GoTime GoStrings Forwards.
Local Open Scope Z_scope.

(** ** A header section as its fields *)

(** The fields of the header section, and what follows them. *)
Fixpoint fields_of (fuel : nat) (s : string) : list string * string :=
  match fuel with
  | O => ([], s)
  | S fuel => if header_ends s then ([], s) else let '(field, rest) := fieldEnd s in let '(fs, rest) := fields_of fuel rest in (field :: fs, rest)
  end.
Definition HeaderFields (s : string) : list string := fst (fields_of (String.length s) s).
Definition AfterFields (s : string) : string := snd (fields_of (String.length s) s).

(** A text that continues no field. *)
Definition starts_clean (s : string) : bool := match s with EmptyString => true | String a _ => negb (blank a) end.
Lemma take_field_split b s f rest : take_field b s = (f, rest) -> s = f +:+ rest.
Proof.
  revert b f rest. induction s as [|a s IH]; intros b f rest; cbn; [by intros [= <- <-]|]. destruct (b && negb (blank a)); [by intros [= <- <-]|].
  destruct (take_field _ s) as [f' r'] eqn:E. intros [= <- <-]. rewrite string_app_cons. f_equal. by eapply IH.
Qed.
Lemma take_field_rest b s f rest : take_field b s = (f, rest) -> starts_clean rest = true.
Proof.
  revert b f rest. induction s as [|a s IH]; intros b f rest; cbn; [by intros [= <- <-]|]. destruct (b && negb (blank a)) eqn:B.
  - intros [= <- <-]. cbn. by apply andb_prop in B as [_ B].
  - destruct (take_field _ s) as [f' r'] eqn:E. intros [= <- <-]. by eapply IH.
Qed.
(** A field that something followed ends there whatever follows it. *)
Lemma take_field_again b s f rest t : take_field b s = (f, rest) -> rest <> "" -> starts_clean t = true -> take_field b (f +:+ t) = (f, t).
Proof.
  revert b f rest. induction s as [|a s IH]; intros b f rest; cbn; [by intros [= <- <-]|]. destruct (b && negb (blank a)) eqn:B.
  - intros [= <- <-] _ C. apply andb_prop in B as [-> _]. change ("" +:+ t) with t. destruct t as [|c t]; [done|]. cbn [take_field andb]. cbn in C. by rewrite C.
  - destruct (take_field _ s) as [f' r'] eqn:E. intros [= <- <-] N C. rewrite string_app_cons. cbn [take_field]. rewrite B. by rewrite (IH _ _ _ E N C).
Qed.
Lemma take_field_some a s f rest : fieldEnd (String a s) = (f, rest) -> exists f', f = String a f'.
Proof. unfold fieldEnd. cbn. destruct (take_field _ s). intros [= <- <-]. by eexists. Qed.
Lemma field_shorter s f rest : header_ends s = false -> fieldEnd s = (f, rest) -> (String.length rest < String.length s)%nat.
Proof.
  destruct s as [|a s]; [done|]. intros _ E. destruct (take_field_some _ _ _ _ E) as [f' F]. apply take_field_split in E. rewrite E, length_app_string, F. cbn. lia.
Qed.
(** A field that starts a header section starts one whatever follows it. *)
Lemma ends_again s f rest t : header_ends s = false -> fieldEnd s = (f, rest) -> (rest = "" -> t = "") -> header_ends (f +:+ t) = false.
Proof.
  destruct s as [|a s]; [done|]. intros N E K. destruct (take_field_some _ _ _ _ E) as [f' F]. pose proof (take_field_split _ _ _ _ E) as S.
  destruct (decide (rest = "")) as [R|R]; [by rewrite (K R), <- R, <- S|]. subst f.
  destruct f' as [|b f'].
  - exfalso. unfold fieldEnd in E. cbn in E. destruct s as [|c s]; [by destruct (take_field _ "") eqn:Q; cbn in Q; simplify_eq|].
    cbn in E. destruct (bool_decide (a = lf)) eqn:L; [by cbn in N; rewrite L in N|]. cbn in E. by destruct (take_field _ s).
  - rewrite S in N. rewrite !string_app_cons in *. unfold header_ends, HasPrefix, crlf in *. cbn [cut_prefix] in *.
    destruct (bool_decide (a = lf)); [done|]. cbn [orb] in *. destruct (ascii_dec cr a); [|done]. by destruct (ascii_dec lf b).
Qed.

Section Strip.
Context `{Unicode}.

Definition kept (authservID : string) (f : string) : bool := negb (claimsAuthServID f authservID).
Lemma fields_clean n s : starts_clean s = true -> forall p, starts_clean (concat_all (List.filter p (fst (fields_of n s))) +:+ snd (fields_of n s)) = true.
Proof.
  revert s. induction n as [|n IH]; intros s C p; [done|]. cbn. destruct (header_ends s) eqn:HE; [done|]. destruct (fieldEnd s) as [f rest] eqn:E.
  pose proof (take_field_rest _ _ _ _ E) as CR. specialize (IH rest CR p). destruct (fields_of n rest) as [fs r]. cbn in *. destruct (p f); [|done].
  destruct s as [|a s]; [done|]. destruct (take_field_some _ _ _ _ E) as [f' ->]. cbn. done.
Qed.
(** The fields that are left of a header section are the fields of what is left. *)
Lemma refields n m s p : (String.length s <= n)%nat -> let '(fs, rest) := fields_of n s in
  (String.length (concat_all (List.filter p fs) +:+ rest) <= m)%nat ->
  fields_of m (concat_all (List.filter p fs) +:+ rest) = (List.filter p fs, rest).
Proof.
  revert m s. induction n as [|n IH]; intros m s L.
  { destruct s; [|cbn in L; lia]. cbn. intros _. by destruct m. }
  cbn. destruct (header_ends s) eqn:HE; [intros _; change (concat_all (List.filter p []) +:+ s) with s; destruct m; cbn; [done|by rewrite HE]|].
  destruct (fieldEnd s) as [f rest] eqn:E. pose proof (field_shorter _ _ _ HE E) as SH. pose proof (take_field_rest _ _ _ _ E) as CR.
  pose proof (fields_clean n rest CR p) as FC. pose proof (fun m => IH m rest ltac:(lia)) as IH'.
  assert (EM : rest = "" -> fields_of n rest = ([], "")) by (intros ->; by destruct n).
  destruct (fields_of n rest) as [fs r]. cbn in FC. cbn [List.filter]. destruct (p f); [|intros; by apply IH'].
  cbn [concat_all foldr]. fold (concat_all (List.filter p fs)). rewrite app_string_assoc. set (t := concat_all (List.filter p fs) +:+ r) in *. intros LM.
  assert (T : rest = "" -> t = "") by (intros R; specialize (EM R); by simplify_eq).
  destruct s as [|a s]; [done|]. destruct (take_field_some _ _ _ _ E) as [f' F].
  destruct m as [|m]; [rewrite F, length_app_string in LM; cbn in LM; lia|]. cbn [fields_of]. rewrite (ends_again _ _ _ t HE E T).
  assert (FE : fieldEnd (f +:+ t) = (f, t)).
  { destruct (decide (rest = "")) as [R|R]; [|by eapply take_field_again]. rewrite (T R), app_string_nil. pose proof (take_field_split _ _ _ _ E) as SP.
    rewrite R, app_string_nil in SP. rewrite SP in E. by rewrite R in E. }
  rewrite FE. rewrite IH'; [done|]. rewrite F in LM. rewrite length_app_string in LM. cbn in LM. lia.
Qed.
Lemma strip_spec n s id : strip_fields n s id =
  (List.filter (kept id) (fst (fields_of n s)), existsb (fun f => claimsAuthServID f id) (fst (fields_of n s)), snd (fields_of n s)).
Proof.
  revert s. induction n as [|n IH]; intros s; [done|]. cbn. destruct (header_ends s); [done|]. destruct (fieldEnd s) as [f rest]. rewrite IH.
  destruct (fields_of n rest) as [fs r]. cbn [fst snd List.filter existsb]. unfold kept. by destruct (claimsAuthServID f id).
Qed.
Lemma fields_join n s : (String.length s <= n)%nat -> concat_all (fst (fields_of n s)) +:+ snd (fields_of n s) = s.
Proof.
  revert s. induction n as [|n IH]; intros s L; [done|]. cbn. destruct (header_ends s) eqn:HE; [done|]. destruct (fieldEnd s) as [f rest] eqn:E.
  pose proof (field_shorter _ _ _ HE E). specialize (IH rest ltac:(lia)). destruct (fields_of n rest) as [fs r]. cbn in *. rewrite app_string_assoc, IH.
  by apply take_field_split in E.
Qed.

(** C16: No message is stored with verdicts its sender wrote. Of a message's header, removing the
    Authentication-Results that claim this server, or whose author cannot be read, leaves exactly its other fields, in
    their order and byte for byte, and leaves what follows the header as it was: nothing that claims this server is
    left, nothing else is lost, and the removal joins no two fields into a new one, whatever the text is. *)
Theorem forged_verdicts_removed (raw authservID : string) :
  HeaderFields (StripAuthResults raw authservID) = List.filter (fun f => negb (claimsAuthServID f authservID)) (HeaderFields raw) /\
  AfterFields (StripAuthResults raw authservID) = AfterFields raw /\
  (existsb (fun f => claimsAuthServID f authservID) (HeaderFields raw) = false -> StripAuthResults raw authservID = raw).
Proof.
  unfold HeaderFields, AfterFields, StripAuthResults. rewrite strip_spec. set (n := String.length raw).
  pose proof (fun m => refields n m raw (kept authservID) ltac:(done)) as RF. pose proof (fields_join n raw ltac:(done)) as J.
  destruct (fields_of n raw) as [fs rest]. cbn [fst snd] in *. destruct (existsb _ fs) eqn:EX.
  - rewrite RF by done. done.
  - assert (F : List.filter (kept authservID) fs = fs).
    { clear - EX. induction fs as [|f fs IH]; [done|]. cbn in *. apply orb_false_iff in EX as [E1 E2]. unfold kept at 1. rewrite E1. cbn. by rewrite IH. }
    rewrite F, J in RF. specialize (RF n ltac:(done)). change (String.length raw) with n. rewrite RF. cbn [fst snd]. change (List.filter _ fs) with (List.filter (kept authservID) fs). by rewrite F.
Qed.
End Strip.
End ForwardsFacts.

(** * Redirects end

    The Delivered-To fields a message gathers as Sieve redirects and aliases send it on
    (handlers/redirect_forward.go): a forward's field reads back, so no address is forwarded
    to twice on one path, and a path is no longer than there are addresses. *)

Module RedirectFacts.
Import GoStrings MessageStore Forwards.
Local Open Scope Z_scope.

(** ** A field before a message *)

Definition one_line (s : string) : bool := free cr s && free lf s.
(** A message that begins with a field. *)
Definition starts_field (raw : string) : bool :=
  match raw with String a _ => negb (bool_decide (a = cr)) && negb (bool_decide (a = lf)) | EmptyString => false end.
Definition blank_line (sep : string) : Prop := sep = crlf +:+ crlf \/ sep = String lf (String lf "").
Definition after (line : string) (o : option (string * string)) : option (string * string) :=
  match o with Some (h, r) => Some (line +:+ h, r) | None => None end.

Lemma cut_step a s sep : cut_prefix sep (String a s) = None -> Cut (String a s) sep = after (String a "") (Cut s sep).
Proof. intros P. cbn [Cut]. rewrite P. by destruct (Cut s sep) as [[h r]|]. Qed.
Lemma after_after x y o : after x (after y o) = after (x +:+ y) o.
Proof. destruct o as [[h r]|]; [|done]. cbn. by rewrite app_string_assoc. Qed.
Lemma not_at sep a s : blank_line sep -> a <> cr -> a <> lf -> cut_prefix sep (String a s) = None.
Proof.
  intros [-> | ->] C L; [change (crlf +:+ crlf) with (String cr (String lf crlf)); cbn [cut_prefix]; destruct (ascii_dec cr a)|
    cbn [cut_prefix]; destruct (ascii_dec lf a)]; congruence.
Qed.
Lemma cut_break raw sep : blank_line sep -> starts_field raw = true -> Cut (crlf +:+ raw) sep = after crlf (Cut raw sep).
Proof.
  intros B S. destruct raw as [|c raw]; [done|]. apply andb_prop in S as [S1 S2]. apply negb_true_iff, bool_decide_eq_false in S1, S2.
  change (crlf +:+ String c raw) with (String cr (String lf (String c raw))).
  assert (P1 : cut_prefix sep (String cr (String lf (String c raw))) = None).
  { destruct B as [-> | ->]; [|done]. change (cut_prefix (String cr (String lf (String cr (String lf "")))) (String cr (String lf (String c raw))) = None).
    cbn [cut_prefix]. destruct (ascii_dec cr cr); [|done]. destruct (ascii_dec lf lf); [|done]. destruct (ascii_dec cr c); [congruence|done]. }
  assert (P2 : cut_prefix sep (String lf (String c raw)) = None).
  { destruct B as [-> | ->]; [done|]. cbn [cut_prefix]. destruct (ascii_dec lf lf); [|done]. destruct (ascii_dec lf c); [congruence|done]. }
  rewrite (cut_step _ _ _ P1), (cut_step _ _ _ P2), after_after. done.
Qed.
Lemma cut_line line raw sep : one_line line = true -> blank_line sep -> starts_field raw = true ->
  Cut (line +:+ crlf +:+ raw) sep = after (line +:+ crlf) (Cut raw sep).
Proof.
  intros O B S. apply andb_prop in O as [O1 O2]. unfold free in O1, O2. induction line as [|a line IH]; [by apply cut_break|].
  cbn [sforall] in O1, O2. apply andb_prop in O1 as [A1 O1]. apply andb_prop in O2 as [A2 O2].
  apply negb_true_iff, bool_decide_eq_false in A1, A2. rewrite !string_app_cons, cut_step by by apply not_at. rewrite IH by done.
  by rewrite after_after.
Qed.
Lemma header_line line raw : one_line line = true -> starts_field raw = true ->
  header_block (line +:+ crlf +:+ raw) = line +:+ crlf +:+ header_block raw.
Proof.
  intros O S. unfold header_block. rewrite (cut_line _ _ _ O (or_introl eq_refl) S). destruct (Cut raw (crlf +:+ crlf)) as [[h r]|]; cbn [after];
    [by rewrite app_string_assoc|]. rewrite (cut_line _ _ _ O (or_intror eq_refl) S).
  destruct (Cut raw _) as [[h r]|]; cbn [after]; by rewrite ?app_string_assoc.
Qed.

Section Chain.
Context `{Unicode}.

(** An address as a filter writes it: on one line, without spaces around it. *)
Definition plain (t : string) : bool := one_line t && bool_decide (TrimSpace (String " " t) = t).
Definition delivered_to (t raw : string) : string := "Delivered-To: " +:+ t +:+ crlf +:+ raw.
Lemma free_in_both c x y : free c (x +:+ y) = free c x && free c y.
Proof. unfold free. induction x as [|a x IH]; [done|]. rewrite string_app_cons. cbn [sforall]. by rewrite IH, andb_assoc. Qed.
Lemma trim_cr_end x : free cr x = true -> Forwards.trim_right is_cr (x +:+ String cr "") = x.
Proof.
  intros F. unfold Forwards.trim_right. rewrite srev_app_string. change (srev (String cr "")) with (String cr ""). rewrite string_app_cons.
  change ("" +:+ srev x) with (srev x). cbn [trim_left_set]. change (is_cr cr) with true. cbv iota.
  assert (K : free cr (srev x) = true) by (unfold free; by rewrite sforall_srev). destruct (srev x) as [|a y] eqn:E.
  - by rewrite <- (SmtpTextFacts.srev_srev x), E.
  - unfold free in K. cbn [sforall] in K. apply andb_prop in K as [K _]. cbn [trim_left_set]. unfold is_cr.
    destruct (bool_decide (a = cr)); [done|]. rewrite <- E. apply SmtpTextFacts.srev_srev.
Qed.
Lemma reads_back t : plain t = true -> delivered_to_line ("Delivered-To: " +:+ t +:+ String cr "") = Some t.
Proof.
  intros P. apply andb_prop in P as [O P]. apply bool_decide_eq_true in P. apply andb_prop in O as [O _]. unfold delivered_to_line.
  rewrite <- (app_string_assoc "Delivered-To: " t (String cr "")). rewrite trim_cr_end by (rewrite free_in_both, O; reflexivity).
  change ("Delivered-To: " +:+ t) with ("Delivered-To" +:+ String ":" (String " " t)). rewrite cut_byte_app by reflexivity.
  rewrite P. change (TrimSpace "Delivered-To") with "Delivered-To". reflexivity.
Qed.
Lemma chain_grows t raw : plain t = true -> starts_field raw = true -> deliveredToChain (delivered_to t raw) = t :: deliveredToChain raw.
Proof.
  intros P S. pose proof P as O. apply andb_prop in O as [O _]. unfold deliveredToChain at 1, delivered_to. rewrite bool_decide_eq_false_2 by done.
  rewrite <- (app_string_assoc "Delivered-To: " t (crlf +:+ raw)). rewrite header_line; [|apply andb_prop in O as [O1 O2]; unfold one_line; by rewrite !free_in_both, O1, O2|done].
  change (crlf +:+ header_block raw) with (String cr "" +:+ String lf (header_block raw)). rewrite <- (app_string_assoc _ (String cr "")).
  rewrite split_byte_app by (apply andb_prop in O as [_ O]; rewrite !free_in_both, O; reflexivity).
  rewrite app_string_assoc. cbn [omap list_omap]. rewrite reads_back by done. unfold deliveredToChain. rewrite bool_decide_eq_false_2; [done|]. by intros ->.
Qed.

(** ** A path of forwards *)

Section Paths.
Context `{DeliveryLib}.

Lemma forwards_rows targets seen emitted sender raw domain auth row : row ∈ forwards_to targets seen emitted sender raw domain auth ->
  QuRecipient row ∈ targets /\ normalizeRedirectAddr (QuRecipient row) ∉ seen /\ QuRaw row = delivered_to (QuRecipient row) raw.
Proof.
  revert emitted. induction targets as [|t targets IH]; intros emitted; cbn [forwards_to]; [by intros I%elem_of_nil|].
  destruct (bool_decide (normalizeRedirectAddr t = "") || _ || bool_decide (_ ∈ seen)) eqn:D.
  { intros I. destruct (IH _ I) as (T & N & R). split; [by right|done]. }
  destruct (bool_decide (Threads.DomainFromAddress t = "")); intros I.
  { destruct (IH _ I) as (T & N & R). split; [by right|done]. }
  apply elem_of_cons in I as [-> |I]; [|destruct (IH _ I) as (T & N & R); split; [by right|done]].
  split; [by left|]. apply orb_false_iff in D as [_ D]. apply bool_decide_eq_false in D. by split.
Qed.
Lemma forwards_fresh m raw sender recipients domain auth row : row ∈ buildRedirectForwards m raw sender recipients domain auth ->
  normalizeRedirectAddr (QuRecipient row) ∉ normalizeRedirectAddr <$> deliveredToChain raw /\ QuRaw row = delivered_to (QuRecipient row) raw /\
  QuRecipient row ∈ decodeRedirectTargets (meta redirectMetaTargets m).
Proof.
  unfold buildRedirectForwards. destruct (bool_decide _); [by intros I%elem_of_nil|]. intros (T & N & R)%forwards_rows. split; [|done].
  intros I. apply N. rewrite fmap_app, elem_of_app. by left.
Qed.
(** One server sends a message on and the next one gets it: whatever the mail systems between
    them change, the Delivered-To fields it had are still there. *)
Inductive hop (raw : string) : Queued -> string -> Prop :=
| Hop m sender recipients domain auth row raw' :
    starts_field raw = true -> row ∈ buildRedirectForwards m raw sender recipients domain auth ->
    plain (QuRecipient row) = true -> deliveredToChain (QuRaw row) ⊆ deliveredToChain raw' -> hop raw row raw'.
Inductive path : string -> list Queued -> Prop :=
| Here raw : path raw []
| There raw row raw' rows : hop raw row raw' -> path raw' rows -> path raw (row :: rows).
Lemma path_fresh raw rows : path raw rows ->
  NoDup (normalizeRedirectAddr ∘ QuRecipient <$> rows) /\
  forall row, row ∈ rows -> normalizeRedirectAddr (QuRecipient row) ∉ normalizeRedirectAddr <$> deliveredToChain raw.
Proof.
  induction 1 as [raw|raw row raw' rows J P [N F]]; [split; [constructor|by intros row I%elem_of_nil]|].
  destruct J as [m sender recipients domain auth row raw' S I PL C]. destruct (forwards_fresh _ _ _ _ _ _ _ I) as (FR & R & _). rewrite R, chain_grows in C by done.
  assert (MORE : forall x, x ∈ rows -> normalizeRedirectAddr (QuRecipient x) ∉ normalizeRedirectAddr <$> QuRecipient row :: deliveredToChain raw).
  { intros x J K. apply (F x J). apply list_elem_of_fmap in K as (y & E & K). rewrite E. by apply list_elem_of_fmap_2, C. }
  split.
  - rewrite fmap_cons. apply NoDup_cons. split; [|done]. intros (x & E & J)%list_elem_of_fmap. cbn in E. apply (MORE x J). rewrite <- E. apply list_elem_of_fmap_2. by left.
  - intros x [-> |J]%elem_of_cons; [done|]. intros K. apply (MORE x J). apply list_elem_of_fmap in K as (y & E & K). rewrite E. apply list_elem_of_fmap_2. by right.
Qed.

(** C17: Forwarding ends: however accounts redirect to one another, on however many servers that forward as this one
    does, and whatever other mail systems do to the message on the way as long as they leave its Delivered-To fields,
    no address is forwarded to twice, in whatever case or brackets it is written, none the message was delivered to
    before, and so a message is sent on at most as often as there are addresses to send it to. *)
Theorem redirects_end (raw : string) (rows : list Queued) (everyone : list string) :
  path raw rows -> (forall row, row ∈ rows -> normalizeRedirectAddr (QuRecipient row) ∈ everyone) ->
  NoDup (normalizeRedirectAddr ∘ QuRecipient <$> rows) /\
  (forall row, row ∈ rows -> normalizeRedirectAddr (QuRecipient row) ∉ normalizeRedirectAddr <$> deliveredToChain raw) /\
  (length rows <= length everyone)%nat.
Proof.
  intros P K. destruct (path_fresh _ _ P) as [N F]. split; [done|]. split; [done|].
  rewrite <- (length_fmap (normalizeRedirectAddr ∘ QuRecipient)). apply NoDup_incl_length; [by apply NoDup_ListNoDup|].
  intros x I. apply list_elem_of_In in I. apply list_elem_of_fmap in I as (row & -> & I). apply list_elem_of_In. by apply K.
Qed.
End Paths.
End Chain.
End RedirectFacts.

(** * What becomes of a delivered message

    A delivery run on the tables, every statement able to fail and everything else answered
    at will: a message answered for is stored, held, forwarded, dropped with a trace that says
    so, or taken as a report; one refused leaves nothing behind. *)

Module LocalFacts.
Import GoTime GoStrings Auth Prog Accounts SignIn Access MessageStore Messages Forwards LocalDelivery.
Local Open Scope Z_scope.

(** ** Running a delivery *)

Record World := { tables : Tables; traces : list MessageTrace; reports : list string }.
Definition with_tables (t : Tables) (w : World) : World := {| tables := t; traces := traces w; reports := reports w |}.
Definition traced (t : MessageTrace) (w : World) : World := {| tables := tables w; traces := traces w ++ [t]; reports := reports w |}.
Definition reported (raw : string) (w : World) : World := {| tables := tables w; traces := traces w; reports := reports w ++ [raw] |}.

Section Runs.
Context `{Unicode, AuthLib, MailLib, CursorLib, DeliveryLib, PolicyLib} {Filter : Type}.
(** What the spool files hold. *)
Context (spool : string -> result refusal string).
Abbreviation Q := (@LocalDelivery.Q Filter).

(** What a question may be answered, and the world after it: a statement fails and does
    nothing, or is executed. *)
Definition answers (w : World) {X} (q : Q X) (x : X) (w' : World) : Prop :=
  match q in @LocalDelivery.Q _ X return X -> Prop with
  | LqMail mq =>
      match mq in Messages.Q X return X -> Prop with
      | Messages.QDb m => fun x => (x = Err tt /\ w' = w) \/ exists at_, x = Ok (fst (exec at_ m (tables w))) /\ w' = with_tables (snd (exec at_ m (tables w))) w
      | _ => fun _ => w' = w
      end
  | LqTrace t => fun _ => w' = traced t w
  | LqReport _ raw => fun x => w' = match x with Ok true => reported raw w | _ => w end
  | LqSpooled part => fun x => x = spool part /\ w' = w
  | _ => fun _ => w' = w
  end x.
Fixpoint every_run {A} (w : World) (p : prog Q A) (post : A -> World -> Prop) : Prop :=
  match p with
  | Ret a => post a w
  | Ask q k => forall x w', answers w q x w' -> every_run w' (k x) post
  end.
Lemma every_run_bind {A B} w (p : prog Q A) (f : A -> prog Q B) post :
  every_run w (bind p f) post <-> every_run w p (fun a w' => every_run w' (f a) post).
Proof. revert w. induction p as [a|X q k IH]; intros w; [done|]. cbn. by setoid_rewrite IH. Qed.
Lemma every_run_mono {A} w (p : prog Q A) (post post' : A -> World -> Prop) :
  (forall a w', post a w' -> post' a w') -> every_run w p post -> every_run w p post'.
Proof. intros M. revert w. induction p as [a|X q k IH]; intros w; cbn; [apply M|]. intros K x w' A'. by apply IH, K. Qed.
Lemma every_run_try {E A B} w (p : prog Q (result E A)) (f : A -> prog Q (result E B)) post :
  every_run w (try_ p f) post <-> every_run w p (fun r w' => match r with Ok a => every_run w' (f a) post | Err e => post (Err e) w' end).
Proof. unfold try_. rewrite every_run_bind. split; apply every_run_mono; by intros [a|e] w'. Qed.
Lemma every_run_failing {E F X} w (e : F) (p : prog Q (result E X)) post :
  every_run w (failing e p) post <-> every_run w p (fun r w' => post (match r with Ok a => Ok a | Err _ => Err e end) w').
Proof. unfold failing. apply every_run_bind. Qed.

(** A program whose questions change nothing. *)
Fixpoint silent {A} (p : prog Q A) : Prop :=
  match p with Ret _ => True | Ask q k => (forall w x w', answers w q x w' -> w' = w) /\ forall x, silent (k x) end.
Lemma every_run_quiet {A} w (p : prog Q A) post : silent p -> (forall a, post a w) -> every_run w p post.
Proof. intros K F. revert K. induction p as [a|X q k IH]; cbn; [by intros _; apply F|]. intros [K1 K2] x w' A'. rewrite (K1 _ _ _ A'). by apply IH. Qed.
Lemma silent_bind {A B} (p : prog Q A) (f : A -> prog Q B) : silent p -> (forall a, silent (f a)) -> silent (bind p f).
Proof. intros K F. induction p as [a|X q k IH]; cbn; [apply F|]. destruct K as [K1 K2]. split; [done|]. intros x. by apply IH. Qed.
Lemma silent_try {E A B} (p : prog Q (result E A)) (f : A -> prog Q (result E B)) : silent p -> (forall a, silent (f a)) -> silent (try_ p f).
Proof. intros K F. apply silent_bind; [done|]. by intros [a|e]. Qed.
Lemma silent_failing {E F X} (e : F) (p : prog Q (result E X)) : silent p -> silent (failing e p).
Proof. intros K. apply silent_bind; [done|]. done. Qed.
Lemma silent_ask {X} (q : Q X) : (forall w x w', answers w q x w' -> w' = w) -> silent (ask q).
Proof. by intros K. Qed.
Lemma silent_engine {A} (p : prog (@Pipeline.call Filter ref) A) : silent (within (@LqEngine Filter) p).
Proof. induction p as [a|X q k IH]; cbn; [done|]. split; [by intros w x w' ->|done]. Qed.
(** Of the mailbox's questions only a statement can change anything. *)
Definition reads_only {X} (q : Messages.Q X) : Prop := match q with Messages.QDb m => forall at_ t, snd (exec at_ m t) = t | _ => True end.
Fixpoint only_reads {A} (p : prog Messages.Q A) : Prop := match p with Ret _ => True | Ask q k => reads_only q /\ forall x, only_reads (k x) end.
Lemma silent_mail {A} (p : prog Messages.Q A) : only_reads p -> silent (mail p : prog Q A).
Proof.
  induction p as [a|X q k IH]; cbn; [done|]. intros [R K]. split; [|intros x; apply IH, K]. intros w x w'. destruct q; cbn; try by intros ->.
  intros [[_ ->]|(at_ & _ & ->)]; [done|]. cbn in R. rewrite R. by destruct w.
Qed.

(** ** What can become of a message *)

(** The rows of mail as they were. *)
Definition same_mail (t t' : Tables) : Prop :=
  messages t' = messages t /\ attachments t' = attachments t /\ quotas t' = quotas t /\ usage t' = usage t /\ versions t' = versions t.
Definition nothing_kept (w w' : World) : Prop := same_mail (tables w) (tables w') /\ held (tables w') = held (tables w) /\ reports w' = reports w.
(** Stored whole: the row, its attachments and the charge for them, the source with this
    run's verdicts before it. *)
Definition kept_in (mb : Z) (raw : string) (w w' : World) (m : Message) : Prop :=
  ID m = next_message (tables w) /\ messages (tables w') = messages (tables w) ++ [m] /\ MailboxID m = mb /\ IsDeleted m = false /\
  RawMessage (Stored m) = (if bool_decide (raw = "") then "" else AuthResults.AuthResultsHeader (MessageStore.AuthResults (Stored m)) +:+ raw) /\
  exists atts, attachments (tables w') = attachments (tables w) ++ (attached_to (ID m) <$> atts) /\
    quotas (tables w') = StorageQuota.charge mb (SizeBytes m + sum (AtSize <$> atts)) <$> quotas (tables w).
Definition held_for_it (mb : Z) (raw : string) (w w' : World) : Prop :=
  same_mail (tables w) (tables w') /\
  exists h, held (tables w') = held (tables w) ++ [h] /\ HlMailbox h = mb /\ HlRaw h = raw /\ Released h = false.
Definition sends (raw : string) (row : Queued) : Prop := QuRaw row = "Delivered-To: " +:+ QuRecipient row +:+ crlf +:+ raw.
Definition sent_on (raw : string) (w w' : World) : Prop :=
  same_mail (tables w) (tables w') /\ held (tables w') = held (tables w) /\
  exists rows, rows <> [] /\ queued (tables w') = queued (tables w) ++ rows /\ Forall (sends raw) rows.
Definition dropped (w w' : World) : Prop :=
  tables w' = tables w /\ exists t, traces w' = traces w ++ [t] /\ MtOutcome t = outcomeDiscarded /\ MtFinalAction t = Pipeline.ActionDiscard.
Definition accounted_for (mb : Z) (raw : string) (w : World) (r : result delivery_error (option Message)) (w' : World) : Prop :=
  match r with
  | Ok (Some m) => kept_in mb raw w w' m
  | Ok None => held_for_it mb raw w w' \/ sent_on raw w w' \/ dropped w w'
  | Err _ => nothing_kept w w'
  end.

(** ** The pipeline *)

Lemma same_mail_refl t : same_mail t t.
Proof. by repeat split. Qed.
Lemma silent_config (domain : Z) l d : silent (inbound_config domain l d : prog Q _).
Proof.
  apply silent_try; [apply silent_failing, silent_ask; by intros ? ? ? ->|]. intros [s|]; [done|]. apply silent_bind; [|done]. by apply silent_mail.
Qed.
Lemma silent_policy mb : silent (localInboundPolicy mb : prog Q _).
Proof.
  apply silent_try; [apply silent_config|]. intros cfg. apply silent_try; [apply silent_failing, silent_ask; by intros ? ? ? ->|]. done.
Qed.
Definition checked_well (p : localDeliveryParams) (w : World) (r : result delivery_error checked) (w' : World) : Prop :=
  match r with
  | Ok (Passed _ _ _) => w' = w
  | Ok Processed => held_for_it (Store.MbID (LdMailbox p)) (LdRawMessage p) w w' \/ dropped w w'
  | Err _ => nothing_kept w w'
  end.
Lemma runPipeline_well e p m w : every_run w (runPipeline e p m) (checked_well p w).
Proof.
  unfold runPipeline. apply every_run_try, every_run_quiet; [apply silent_policy|]. intros [cfg|e']; [|by repeat split].
  destruct (stageOf _ _ _ _) as [[stage run] m']. apply every_run_bind. cbn [every_run ask]. intros r w1 ->. apply every_run_bind, every_run_quiet; [apply silent_engine|].
  intros [[result run']|]; [|by repeat split]. apply every_run_bind. cbn [every_run ask]. intros seen w1 ->. cbv zeta.
  destruct (bool_decide (_ = Pipeline.ActionReject)). { apply every_run_bind. cbn. intros [] w1 ->. by repeat split. }
  destruct (bool_decide (_ = Pipeline.ActionQuarantine)).
  { apply every_run_bind, every_run_quiet; [by apply silent_mail|]. intros now. apply every_run_bind, every_run_quiet; [by apply silent_mail|]. intros later.
    apply every_run_try, every_run_failing. cbn. intros x w1 [[-> ->]|(at_ & -> & ->)]; [by repeat split|]. intros [] w2 ->. left.
    split; [by repeat split|]. eexists. cbn. by repeat split. }
  destruct (bool_decide (_ = Pipeline.ActionDiscard)) eqn:D.
  { apply every_run_bind. cbn. intros [] w1 ->. right. split; [done|]. eexists. split; [reflexivity|]. apply bool_decide_eq_true in D. by split. }
  destruct (bool_decide (_ = Pipeline.ActionDefer)). { apply every_run_bind. cbn. intros [] w1 ->. by repeat split. }
  destruct (bool_decide (_ = Pipeline.ActionContinue)); [|done]. apply every_run_bind. cbn [every_run ask]. intros final w1 ->. destruct (bool_decide (LdStage p = _)); [by repeat split|done].
Qed.

(** ** Storing *)

Lemma queue_forwards_well raw rows n w : Forall (sends raw) rows -> 0 <= n ->
  every_run w (queue_forwards rows n) (fun k w' => same_mail (tables w) (tables w') /\ held (tables w') = held (tables w) /\ traces w' = traces w /\
    reports w' = reports w /\ next_message (tables w') = next_message (tables w) /\
    exists more, queued (tables w') = queued (tables w) ++ more /\ Forall (sends raw) more /\ (k = n + Z.of_nat (length more))).
Proof.
  intros F. revert n w. induction F as [|row rows R F IH]; intros n w N; cbn [queue_forwards].
  { do 5 (split; [done|]). exists []. rewrite app_nil_r. repeat split; [constructor|cbn; lia]. }
  apply every_run_bind. cbn. intros x w1 [[-> ->]|(at_ & -> & ->)]; [by apply IH|].
  eapply every_run_mono; [|apply IH; lia]. cbn. intros k w' (S & HD & T & R' & NX & more & E & FM & K). split; [exact S|]. split; [exact HD|]. split; [exact T|].
  split; [exact R'|]. split; [exact NX|]. exists (row :: more). rewrite E, <- app_assoc. split; [done|]. split; [by constructor|]. cbn [length]. lia.
Qed.
Lemma forwards_send targets seen emitted sender raw domain auth : Forall (sends raw) (forwards_to targets seen emitted sender raw domain auth).
Proof.
  revert emitted. induction targets as [|t targets IH]; intros emitted; cbn [forwards_to]; [constructor|].
  destruct (_ || _); [done|]. destruct (bool_decide _); [done|]. by constructor.
Qed.
Lemma tagged_send raw tls rows : Forall (sends raw) rows -> Forall (sends raw) (tagged tls <$> rows).
Proof. intros F. apply Forall_fmap. eapply Forall_impl; [exact F|]. done. Qed.
Lemma silent_resolve mb a b c : silent (mail (ResolveThreadID mb a b c) : prog Q _).
Proof.
  apply silent_mail. unfold ResolveThreadID. cbn. split; [done|]. intros [parent|[]]; [|done]. cbn. by destruct (Threads.thread_under _ _ _ _).
Qed.
Lemma deliver_rows at_ m atts events t y t' : MessageStore.deliver at_ m atts events t = Ok (y, t') ->
  y = under_id (next_message t) (if IsZero (ReceivedAt m) then received at_ m else m) /\ messages t' = messages t ++ [y] /\ held t' = held t /\
  attachments t' = attachments t ++ (attached_to (ID y) <$> atts) /\
  quotas t' = StorageQuota.charge (MailboxID m) (SizeBytes m + sum (AtSize <$> atts)) <$> quotas t.
Proof.
  unfold MessageStore.deliver. destruct (StorageQuota.ReserveStorage _ _ _ _ _) as [qs|e] eqn:R; [|done]. cbn -[insert].
  apply StorageQuota.reserve_chain in R as (c & room & _ & _ & _ & -> & _). unfold insert. cbn. intros [= <- <-]. by repeat split.
Qed.

Lemma always_quiet_if {A B} w (p : prog Q A) (f : A -> prog Q B) post : silent p -> (forall a, every_run w (f a) post) -> every_run w (bind p f) post.
Proof. intros K F. by apply every_run_bind, every_run_quiet. Qed.
Lemma silent_first (raw : string) (parsed : option EmailJSON) :
  silent ((if bool_decide (raw = "") then Ret []
          else match parsed with
               | Some first => Ret (Emails.CalendarEvents first)
               | None => again <- ask (LqParse raw) ; Ret (match again with Ok first => Emails.CalendarEvents first | Err _ => [] end)
               end)%prog : prog Q (list Emails.CalendarEvent)).
Proof. destruct (bool_decide _); [done|]. destruct parsed; [done|]. cbn. split; [by intros ? ? ? ->|done]. Qed.
(** After the row is in: a trace, events and a push change no mail. *)
Definition unread_of (u : result unit Z) : Z := match u with Ok n => n | Err _ => 0 end.
Lemma announced (trace : option traceInputs) msg mb (ok : result delivery_error (option Message)) w post :
  (forall w', tables w' = tables w -> reports w' = reports w -> post ok w') ->
  every_run w (match trace with Some t => recordTrace (delivered_trace msg t) | None => Ret tt end ;;
     mail (publish mb (NewMessage (ID msg) (Folder msg) (Sender (Parts msg)) (Subject (Parts msg)))) ;;
     unread <- mail (db (MUnread mb)) ;
     mail (publish mb (UnreadUpdate "INBOX" (match unread with Ok n => n | Err _ => 0 end))) ;;
     (if bool_decide (Folder msg = "INBOX") && negb (IsRead (Marks msg)) then ask (LqNewMail mb) else Ret tt) ;;
     Ret ok)%prog post.
Proof.
  intros F. apply every_run_bind. assert (K : forall w1, tables w1 = tables w -> reports w1 = reports w -> every_run w1 (
     mail (publish mb (NewMessage (ID msg) (Folder msg) (Sender (Parts msg)) (Subject (Parts msg)))) ;;
     unread <- mail (db (MUnread mb)) ;
     mail (publish mb (UnreadUpdate "INBOX" (match unread with Ok n => n | Err _ => 0 end))) ;;
     (if bool_decide (Folder msg = "INBOX") && negb (IsRead (Marks msg)) then ask (LqNewMail mb) else Ret tt) ;;
     Ret ok)%prog post).
  { intros w1 T R. apply always_quiet_if; [by apply silent_mail|]. intros []. apply always_quiet_if; [by apply silent_mail|]. intros u.
    apply always_quiet_if; [by apply silent_mail|]. intros []. apply always_quiet_if; [by destruct (_ && _); [apply silent_ask; intros ? ? ? ->|]|]. intros []. by apply F. }
  destruct trace as [t|]; cbn [every_run ask recordTrace]; [intros [] w1 ->|]; by apply K.
Qed.
Lemma store_well p parsed m auth trace w :
  every_run w (store p parsed m auth trace) (accounted_for (Store.MbID (LdMailbox p)) (LdRawMessage p) w).
Proof.
  unfold store. cbv zeta. apply every_run_bind. eapply every_run_mono; [|apply queue_forwards_well; [|lia]].
  2: { apply tagged_send. unfold buildRedirectForwards. destruct (bool_decide _); [constructor|]. apply forwards_send. }
  intros forwarded w1 (S & HD & T & R & NX & more & EQ & FM & K). destruct (_ && _) eqn:SK.
  { apply andb_prop in SK as [POS _]. apply every_run_bind. assert (E : sent_on (LdRawMessage p) w w1).
    { split; [done|]. split; [done|]. exists more. split; [|done]. intros ->. cbn in K. lia. }
    destruct trace as [t|]; cbn [every_run ask recordTrace]; [intros [] w2 ->|]; right; left; exact E. }
  clear SK. apply every_run_bind, every_run_quiet. { destruct (bool_decide _); [apply silent_mail; by cbn|done]. }
  intros messageID. apply every_run_try, every_run_failing, every_run_quiet; [apply silent_resolve|]. assert (NK : nothing_kept w w1) by done.
  intros [threadID|]; [|exact NK]. apply every_run_try, every_run_quiet. { destruct (IndependentAttachments p); [apply silent_failing, silent_ask; by intros ? ? ? ->|done]. }
  intros [m'|]; [|exact NK]. apply always_quiet_if; [apply silent_first|]. intros calendar. apply every_run_try, every_run_failing. cbn [every_run mail db ask within].
  intros x w2 [[-> ->]|(at_ & -> & ->)]; [exact NK|]. cbn [exec].
  destruct (MessageStore.deliver _ _ _ _ _) as [[y t']|er] eqn:DL; cbn [fst snd].
  2: { assert (W : with_tables (tables w1) w1 = w1) by by destruct w1. rewrite W. by destruct er. }
  apply deliver_rows in DL as (-> & M & HL & A & Q). destruct S as (SM & SA & SQ & _ & _). rewrite NX in *. rewrite SM in M. rewrite SA in A. rewrite SQ in Q.
  apply announced. intros w3 T3 R3. unfold accounted_for, kept_in. rewrite T3. cbn [tables with_tables].
  set (row := new_message _ _ _ _ _ _ _ _ _ _) in *.
  assert (E : ID (under_id (next_message (tables w)) (if IsZero (ReceivedAt row) then received at_ row else row)) = next_message (tables w)) by done.
  assert (SZ : SizeBytes (under_id (next_message (tables w)) (if IsZero (ReceivedAt row) then received at_ row else row)) = SizeBytes row)
    by by destruct (IsZero _).
  rewrite E, SZ. split; [done|]. split; [exact M|]. split; [by destruct (IsZero _)|]. split; [by destruct (IsZero _)|]. split; [by destruct (IsZero _)|].
  exists (attachment_rows m'). rewrite E in A. by split.
Qed.

(** ** From the gateway to the mailbox *)

Definition source_of (r : Recipients.Recipient) (raw : string) : string :=
  if negb (bool_decide (Recipients.DeliveredTo r = "")) && negb (bool_decide (raw = "")) then "Delivered-To: " +:+ Recipients.DeliveredTo r +:+ crlf +:+ raw
  else raw.
Definition clean (source : string) : string := StripAuthResults source AuthResults.AuthServID.
(** Taken as a report on TLS to this server's domains. *)
Definition taken_as_report (source : string) (w : World) (r : result delivery_error (option Message)) (w' : World) : Prop :=
  r = Ok None /\ tables w' = tables w /\ reports w' = reports w ++ [source].
Lemma deliverToLocal_well engine p w : every_run w (deliverToLocal engine p) (fun r w' =>
  taken_as_report (LdRawMessage p) w r w' \/ accounted_for (Store.MbID (LdMailbox p)) (clean (LdRawMessage p)) w r w').
Proof.
  unfold deliverToLocal. cbv zeta. assert (NK : forall e, accounted_for (Store.MbID (LdMailbox p)) (clean (LdRawMessage p)) w (Err e) w)
    by by repeat split.
  assert (K : forall parsed m, every_run w (outcome <-! match engine with Some e => runPipeline e (with_source (clean (LdRawMessage p)) p) m
      | None => Ret (Ok (Passed m [] None)) end ;
    match outcome with Processed => Ret (Ok None) | Passed m auth trace => store (with_source (clean (LdRawMessage p)) p) parsed m auth trace end)%prog
    (accounted_for (Store.MbID (LdMailbox p)) (clean (LdRawMessage p)) w)).
  { intros parsed m. apply every_run_try. destruct engine as [e|].
    - eapply every_run_mono; [|apply runPipeline_well]. intros [[m' auth trace|]|er] w1 C; cbn in C; [|by destruct C; [left|right; right]|exact C].
      subst w1. apply store_well.
    - apply store_well. }
  apply every_run_try, every_run_quiet. { destruct (ReceiveChecked p); [done|]. apply silent_bind; [apply silent_ask; by intros ? ? ? ->|done]. }
  intros [[]|e]; [|right; apply NK]. apply every_run_try.
  assert (REST : every_run w (first <- (if bool_decide (clean (LdRawMessage p) = "") then Ret (Err Unparsed) else ask (LqParse (clean (LdRawMessage p)))) ;
    match first with
    | Err ErrStructureLimit => Ret (Err (rejected "message structure too complex: "))
    | _ =>
        let parsed := match first with Ok m => Some m | Err _ => None end in
        let m := addressed (with_source (clean (LdRawMessage p)) p) (default (built (with_source (clean (LdRawMessage p)) p)) parsed) in
        outcome <-! match engine with Some e => runPipeline e (with_source (clean (LdRawMessage p)) p) m | None => Ret (Ok (Passed m [] None)) end ;
        match outcome with
        | Processed => Ret (Ok None)
        | Passed m auth trace => store (with_source (clean (LdRawMessage p)) p) parsed m auth trace
        end
    end)%prog (fun r w' => taken_as_report (LdRawMessage p) w r w' \/ accounted_for (Store.MbID (LdMailbox p)) (clean (LdRawMessage p)) w r w')).
  { apply always_quiet_if; [destruct (bool_decide _); [done|apply silent_ask; by intros ? ? ? ->]|]. intros first. cbv zeta.
    eapply every_run_mono; [by right|]. destruct first as [m|[]]; try apply K. apply NK. }
  destruct (bool_decide (LdStage p = _)); [exact REST|]. apply every_run_failing. cbn [every_run ask]. intros [[]|[]] w1 ->; [left; by repeat split|exact REST|right; apply NK].
Qed.
Lemma queue_alias_well r p m auth trace w mb : every_run w (queue_alias r p m auth trace) (accounted_for mb (LdRawMessage p) w).
Proof.
  unfold queue_alias. destruct (buildRedirectForwards _ _ _ _ _ _) as [|row [|]] eqn:B; [by repeat split| |by repeat split].
  apply every_run_try, every_run_failing. cbn. intros x w1 [[-> ->]|(at_ & -> & ->)]; [by repeat split|].
  assert (F : Forall (sends (LdRawMessage p)) [row]).
  { rewrite <- B. unfold buildRedirectForwards. destruct (bool_decide _); [constructor|]. apply forwards_send. }
  assert (S : sent_on (LdRawMessage p) w (with_tables (with_queued (queued (tables w) ++ [tagged (LdRequireTLS p) row]) (tables w)) w)).
  { split; [by repeat split|]. split; [done|]. exists [tagged (LdRequireTLS p) row]. split; [done|]. split; [done|].
    apply (tagged_send _ _ [row]), F. }
  apply every_run_bind. destruct trace as [t|]; cbn; [intros [] w2 ->|]; right; left; exact S.
Qed.
Lemma forwardAlias_well engine r p w mb : every_run w (forwardAlias engine r p) (accounted_for mb (clean (LdRawMessage p)) w).
Proof.
  assert (NK : forall e, accounted_for mb (clean (LdRawMessage p)) w (Err e) w) by by repeat split.
  unfold forwardAlias. destruct (bool_decide (TrimSpace _ = "")); [apply NK|]. cbv zeta. fold (clean (LdRawMessage p)).
  apply every_run_try, every_run_failing, every_run_quiet; [apply silent_ask; by intros ? ? ? ->|]. intros [m|]; [|apply NK].
  change (LdRawMessage (with_source (clean (LdRawMessage p)) p)) with (clean (LdRawMessage p)). destruct engine as [e|].
  2: { destruct (bool_decide _); [apply NK|]. apply (queue_alias_well r (with_source (clean (LdRawMessage p)) p)). }
  apply every_run_try, every_run_failing, every_run_quiet.
  { unfold inboundPipeline. destruct (bool_decide _); [done|]. apply silent_try; [apply silent_failing, silent_ask; by intros ? ? ? ->|].
    intros [d|]; [|done]. apply silent_try; [apply silent_config|done]. }
  intros [[cfg|]|]; [|apply NK..]. destruct (stageOf _ _ _ _) as [[stage run] m']. apply every_run_bind. cbn [every_run ask]. intros ptr w1 ->.
  apply always_quiet_if; [apply silent_engine|]. intros [[result run']|]; [|apply NK]. apply every_run_bind. cbn [every_run ask]. intros seen w1 ->.
  destruct (bool_decide (_ = Pipeline.ActionContinue)).
  { apply every_run_bind. cbn [every_run ask]. intros final w1 ->. destruct (bool_decide (LdStage _ = _)); [apply NK|].
    apply (queue_alias_well r (with_source (clean (LdRawMessage p)) p)). }
  destruct (bool_decide (_ = Pipeline.ActionDefer)); apply every_run_bind; cbn; intros [] w1 ->; by repeat split.
Qed.
Definition mailbox_of (r : Recipients.Recipient) (p : localDeliveryParams) : Z :=
  match Recipients.RMailbox r with Some mb => Store.MbID mb | None => Store.MbID (LdMailbox p) end.
Lemma deliverToRecipient_well engine r p w : every_run w (deliverToRecipient engine r p) (fun x w' =>
  taken_as_report (source_of r (LdRawMessage p)) w x w' \/ accounted_for (mailbox_of r p) (clean (source_of r (LdRawMessage p))) w x w').
Proof.
  unfold deliverToRecipient, source_of, mailbox_of. cbv zeta.
  set (tracked := negb (bool_decide (Recipients.DeliveredTo r = "")) && negb (bool_decide (LdRawMessage p = ""))).
  destruct (tracked && _ && _); [right; by repeat split|].
  destruct tracked; (destruct (Recipients.RMailbox r) as [mb|]; [|destruct (Recipients.RAlias r)]).
  - apply (deliverToLocal_well engine (for_mailbox mb (with_source _ p))).
  - eapply every_run_mono; [by right|]. apply (forwardAlias_well engine r (with_source _ p)).
  - apply (deliverToLocal_well engine (with_source _ p)).
  - apply (deliverToLocal_well engine (for_mailbox mb p)).
  - eapply every_run_mono; [by right|]. apply forwardAlias_well.
  - apply deliverToLocal_well.
Qed.

End Runs.
End LocalFacts.
