(* ===== verification/ComposeText.v ===== *)
(** * What is written into a composed message

    handlers/list_unsubscribe.go's targets, handlers/outbound_raw.go's message for the
    serializer, handlers/messages.go's bodies of a forward, and mime/body.go's walk of a
    body. *)

From S2P Require Import Prelude GoTime GoStrings GoDate MailAddress Smtp Emails Threads GoBase64.
From Stdlib Require Import Ascii.
Import GoTime GoStrings.
Local Open Scope Z_scope.

(** net/mail's ParseAddress, with the display name. *)
Class NamedLib := { mail_ParseNamed : string -> option (string * string) }.

(** ** list_unsubscribe.go *)

Module Unsubscribe.

Definition headerListUnsubscribe : string := "List-Unsubscribe".
Definition headerListUnsubscribePost : string := "List-Unsubscribe-Post".
Definition listUnsubscribeOneClick : string := "List-Unsubscribe=One-Click".
Definition maxUnsubscribeURLLen : Z := 2048.
Record listUnsubscribe := { Mailto : string; HTTPS : string }.

Definition delimiters : list ascii := ["<"%char; ">"%char; ","%char; byte 34].
Definition safe_byte (c : ascii) : bool :=
  let n := nat_of_ascii c in ((32 <? n) && (n <? 127))%nat && negb (bool_decide (c ∈ delimiters)).
Definition headerSafeASCII (s : string) : bool := sforall safe_byte s.
Definition host_byte (c : ascii) : bool :=
  in_range 97 122 c || in_range 65 90 c || in_range 48 57 c || bool_decide (c = "-"%char) || bool_decide (c = "."%char).
Definition hostName (s : string) : bool :=
  negb (bool_decide (s = "")) && negb (HasPrefix s ".") && negb (HasSuffix s ".") && negb (Contains s "..") && sforall host_byte s.
(** Characters a mailto: URI gives a meaning of their own. *)
Definition uri_marks : list ascii := ["?"%char; "#"%char; "%"%char; "/"%char; "&"%char; "="%char; "["%char; "]"%char; byte 92].

Section Targets.
Context `{Unicode, NamedLib, WebLib}.

Definition validateUnsubscribeMailto (addr : string) : bool :=
  headerSafeASCII addr &&
  match mail_ParseNamed addr with
  | None => false
  | Some (name, address) => bool_decide (name = "") && bool_decide (address = addr)
  end &&
  let '(local, domain) := default (addr, "") (cut_byte "@"%char addr) in
  negb (ContainsAny local uri_marks) && hostName domain.
Definition validateUnsubscribeHTTPS (raw : string) : bool :=
  (len raw <=? maxUnsubscribeURLLen) && headerSafeASCII raw &&
  match url_Parse raw with
  | Err _ => false
  | Ok u => bool_decide (Scheme u = "https") && negb (bool_decide (Hostname u = "")) && bool_decide (Opaque u = "") && negb (has_user u)
  end.
Definition validateListUnsubscribe (l : listUnsubscribe) : bool :=
  negb (bool_decide (Mailto l = "") && bool_decide (HTTPS l = "")) &&
  (bool_decide (Mailto l = "") || validateUnsubscribeMailto (Mailto l)) &&
  (bool_decide (HTTPS l = "") || validateUnsubscribeHTTPS (HTTPS l)).

Definition in_brackets (uri : string) : string := "<" +:+ uri +:+ ">".
Definition targets (l : listUnsubscribe) : list string :=
  (if bool_decide (Mailto l = "") then [] else ["mailto:" +:+ Mailto l]) ++ (if bool_decide (HTTPS l = "") then [] else [HTTPS l]).
Definition listUnsubscribeHeaders (l : listUnsubscribe) : gmap string string :=
  let out := {[ headerListUnsubscribe := Join (in_brackets <$> targets l) ", " ]} in
  if bool_decide (HTTPS l = "") then out else <[headerListUnsubscribePost := listUnsubscribeOneClick]> out.
Definition unsubscribe_field (name : string) : bool := EqualFold name headerListUnsubscribe || EqualFold name headerListUnsubscribePost.
(** No header map and an empty one are the same to what reads them. *)
Definition withListUnsubscribe (extra : gmap string string) (l : option listUnsubscribe) : gmap string string :=
  match l with
  | None => extra
  | Some l => listUnsubscribeHeaders l ∪ filter (fun kv => unsubscribe_field (fst kv) = false) extra
  end.
End Targets.
End Unsubscribe.

(** ** mime/body.go, outbound_raw.go, messages.go's forwardBodies *)

Module Outgoing.

Section Bodies.
Context `{Unicode}.

Definition MediaType (contentType : string) : string :=
  ToLower (TrimSpace match cut_byte ";"%char contentType with Some (t, _) => t | None => contentType end).
Definition first_of (found content : string) : string := if bool_decide (found = "") then content else found.
(** [found]: the text and the HTML found so far. *)
Fixpoint walk (node : Emails.Body) (found : string * string) : string * string :=
  match node with
  | Emails.BodyPart contentType content parts =>
      let '(text, html) := found in
      let kind := MediaType contentType in
      let found := if bool_decide (kind = "text/plain") then (first_of text content, html)
                   else if bool_decide (kind = "text/html") then (text, first_of html content) else (text, html) in
      (fix each (l : list Emails.Body) (found : string * string) : string * string :=
         match l with [] => found | p :: l => each l (walk p found) end) parts found
  end.
Definition TextAndHTML (body : Emails.Body) : string * string := walk body ("", "").

Record outboundMessage := {
  OmSender : string; FromName : string; OmFrom : string; OmTo : list string; OmCc : list string; OmSubject : string; OmText : string;
  OmHTML : string; OmMessageID : string; OmInReplyTo : string; OmReferences : string; OmDate : Time; OmExtra : gmap string string;
  ICS : option string; ICSMethod : string; OmAttachments : list Emails.Attachment; CalendarReply : string
}.
Definition outboundBody (text html : string) : Emails.Body :=
  if negb (bool_decide (text = "")) && negb (bool_decide (html = "")) then
    Emails.BodyPart "multipart/alternative" "" [Emails.BodyPart "text/plain; charset=utf-8" text []; Emails.BodyPart "text/html; charset=utf-8" html []]
  else if negb (bool_decide (html = "")) then Emails.BodyPart "text/html; charset=utf-8" html []
  else Emails.BodyPart "text/plain; charset=utf-8" text [].
Definition bareAddressList (addrs : list string) : list Emails.Address := (fun a => {| Emails.AName := ""; Emails.AAddress := a |}) <$> addrs.
Definition signature_field (name : string) : bool :=
  EqualFold name "Sender" || EqualFold name "DKIM-Signature" || HasPrefix (ToLower name) "arc-".
Definition transformHeaders (extra : gmap string string) : gmap string string := filter (fun kv => signature_field (fst kv) = false) extra.
Definition calendarMethod (event : option Emails.CalendarEvent) : string := match event with Some e => Emails.CMethod e | None => "" end.
Definition invite (method ics : string) : Emails.Attachment := {|
  Emails.Filename := "invite.ics";
  Emails.AContentType := "text/calendar; charset=utf-8; method=" +:+ (let m := ToUpper method in if bool_decide (m = "") then "REQUEST" else m);
  Emails.Size := len ics; Emails.Disposition := "attachment"; Emails.ContentID := "";
  Emails.AContent := Base64.EncodeToString (Base64.bytes_of ics); Emails.Storage := ""; Emails.Ref := ""; Emails.Checksum := "" |}.
Definition is_inline (a : Emails.Attachment) : bool := bool_decide (Emails.Disposition a = "inline").
(** What buildOutboundRaw hands to the serializer; [zone]: the clock's offset from UTC, in
    seconds. *)
Definition outbound_email (zone : Z) (m : outboundMessage) : Emails.EmailJSON :=
  let extra := transformHeaders (OmExtra m) in {|
  Emails.EEnvelope := {| Emails.MailFrom := ""; Emails.RcptTo := []; Emails.ClientIP := ""; Emails.ClientHostname := ""; Emails.Helo := "";
                         Emails.TLS := false; Emails.EDirection := "" |};
  Emails.EHeaders := {|
    Emails.From := [ {| Emails.AName := FromName m; Emails.AAddress := OmFrom m |} ];
    Emails.To := bareAddressList (OmTo m); Emails.Cc := bareAddressList (OmCc m); Emails.Bcc := []; Emails.Subject := OmSubject m;
    Emails.Date := GoDate.RFC1123Z (OmDate m) zone; Emails.MessageID := OmMessageID m;
    Emails.InReplyTo := if bool_decide (OmInReplyTo m = "") then "" else Threads.CanonicalID (OmInReplyTo m);
    Emails.References := List.filter (fun r => negb (bool_decide (r = ""))) (Threads.CanonicalID <$> Fields (OmReferences m));
    Emails.Raw := ∅; Emails.Extra := if bool_decide (OmSender m = "") then extra else <["Sender" := OmSender m]> extra |};
  Emails.EBody :=
    if bool_decide (CalendarReply m = "") then outboundBody (OmText m) (OmHTML m)
    else Emails.BodyPart "multipart/alternative" ""
           [Emails.BodyPart "text/plain; charset=utf-8" (OmText m) []; Emails.BodyPart "text/calendar; charset=utf-8; method=REPLY" (CalendarReply m) []];
  Emails.Attachments := List.filter (fun a => negb (is_inline a)) (OmAttachments m) ++
    match ICS m with Some ics => [invite (ICSMethod m) ics] | None => [] end;
  Emails.Inline := List.filter is_inline (OmAttachments m); Emails.CalendarEvents := []; Emails.Metadata := ∅ |}.

(** html.EscapeString. *)
Definition escape_byte (c : ascii) : string :=
  if bool_decide (c = "&"%char) then "&amp;"
  else if bool_decide (c = byte 39) then "&#39;"
  else if bool_decide (c = "<"%char) then "&lt;"
  else if bool_decide (c = ">"%char) then "&gt;"
  else if bool_decide (c = byte 34) then "&#34;"
  else String c "".
Fixpoint EscapeString (s : string) : string := match s with EmptyString => "" | String c r => escape_byte c +:+ EscapeString r end.
(** [strings.ReplaceAll(s, "\n", "<br>")]. *)
Fixpoint broken_lines (s : string) : string :=
  match s with EmptyString => "" | String c r => (if bool_decide (c = lf) then "<br>" else String c "") +:+ broken_lines r end.
Definition newline : string := String lf "".
Definition forward_rule : string := "---------- Forwarded message ----------".
(** [sender], [subject], [body] and [html] are the forwarded message's. *)
Definition forward_text (note sender subject body : string) : string :=
  (if bool_decide (note = "") then "" else note +:+ newline +:+ newline) +:+ forward_rule +:+ newline +:+
  "From: " +:+ sender +:+ newline +:+ "Subject: " +:+ subject +:+ newline +:+ newline +:+ body.
Definition forward_head (note sender subject : string) : string :=
  (if bool_decide (note = "") then "" else "<p>" +:+ broken_lines (EscapeString note) +:+ "</p>" +:+ newline) +:+
  "<p>" +:+ forward_rule +:+ "<br>" +:+ newline +:+ "From: " +:+ EscapeString sender +:+ "<br>" +:+ newline +:+
  "Subject: " +:+ EscapeString subject +:+ "</p>" +:+ newline.
Definition forwardBodies (note sender subject body html : string) : string * string :=
  (forward_text note sender subject body, if bool_decide (html = "") then "" else forward_head note sender subject +:+ html).
End Bodies.

Section Checks.
#[local] Existing Instance unicode_caseless.
Example nested_body : TextAndHTML (Emails.BodyPart "multipart/mixed" "" [Emails.BodyPart "multipart/alternative" ""
    [Emails.BodyPart "TEXT/Plain; charset=utf-8" "a" []; Emails.BodyPart "text/html" "<b>" []]; Emails.BodyPart "text/plain" "later" []]) = ("a", "<b>").
Proof. vm_compute. reflexivity. Qed.
Example escaped : EscapeString ("5 < 6 & " +:+ quote) = "5 &lt; 6 &amp; &#34;".
Proof. vm_compute. reflexivity. Qed.
End Checks.
End Outgoing.
