(* ===== verification/Compose.v ===== *)
(** * Sending from an account: handlers/messages.go, send_identity.go, forward_attachments.go

    sendComposedMessage, which POST /messages/send, a forward, a draft, a scheduled message and
    a held one all end in: whom the sender may be, the domain's sending policy, scheduling,
    the outbound pipeline, the layered limits, the Sent copy, the queue rows and the local
    deliveries. handlers/scheduled_send.go and send_limits.go keep and release what waits.

    A program asks what local delivery asks ([CqLocal]) and, besides: where a recipient is,
    the domain's policy and key, the submission limiter, the layered limits ([SendLimits] is
    what answers), the rows of scheduled sends, stored objects, and the serializer. A
    transaction is its [CqBegin] and [CqCommit] or [CqRollback], and what a handler's copy
    holds back until the commit ([staged]) is asked after it. *)

From S2P Require Import Prelude GoTime GoStrings MailAddress Smtp Send Prog MailStore Grants GoCodec Pipeline Emails SendLimits StorageQuota.
From S2P Require Import Recipients Auth Accounts SignIn Access Threads MessageStore GoBase64 Messages Forwards SmtpText LocalDelivery ComposeText.
From Stdlib Require Import Ascii.
Import GoTime GoStrings MailAddress Auth Prog Accounts SignIn Access MessageStore Messages Forwards LocalDelivery Unsubscribe Outgoing.
Local Open Scope Z_scope.

Module Compose.
Local Open Scope prog_scope.

(** ** The request, and the message kept for later *)

Record sendMessageRequest := {
  OnBehalf : bool; RqSender : string; RqFrom : string; RqTo : list string; RqCc : list string; RqBcc : list string; RqSubject : string;
  RqBodyText : string; RqBodyHTML : string; RqInReplyTo : string; RqCalendar : option Emails.CalendarEvent;
  RqListUnsubscribe : option listUnsubscribe; RqRequireTLS : bool; ScheduledAt : option Time
}.
Definition recipients (r : sendMessageRequest) : list string := RqTo r ++ RqCc r ++ RqBcc r.
Definition as_sender (from sender : string) (r : sendMessageRequest) : sendMessageRequest := {|
  OnBehalf := OnBehalf r; RqSender := sender; RqFrom := from; RqTo := RqTo r; RqCc := RqCc r; RqBcc := RqBcc r; RqSubject := RqSubject r;
  RqBodyText := RqBodyText r; RqBodyHTML := RqBodyHTML r; RqInReplyTo := RqInReplyTo r; RqCalendar := RqCalendar r;
  RqListUnsubscribe := RqListUnsubscribe r; RqRequireTLS := RqRequireTLS r; ScheduledAt := ScheduledAt r |}.
Definition to_be_sent_now (r : sendMessageRequest) : sendMessageRequest := {|
  OnBehalf := OnBehalf r; RqSender := RqSender r; RqFrom := RqFrom r; RqTo := RqTo r; RqCc := RqCc r; RqBcc := RqBcc r; RqSubject := RqSubject r;
  RqBodyText := RqBodyText r; RqBodyHTML := RqBodyHTML r; RqInReplyTo := RqInReplyTo r; RqCalendar := RqCalendar r;
  RqListUnsubscribe := RqListUnsubscribe r; RqRequireTLS := RqRequireTLS r; ScheduledAt := None |}.
(** encoding/json, which leaves Sender out. *)
Definition marshal (r : sendMessageRequest) : sendMessageRequest := as_sender (RqFrom r) "" r.

(** A row of scheduled_sends. [SsRequest]: [None] for one that does not decode; [SsParts]:
    [None] for no attachments kept, not even an empty list. *)
Record ScheduledSend := {
  SsID : Z; SsAccount : Z; SsFrom : string; SsTo : list string; SsSubject : string; SendAt : Time; SsStatus : string; Attempts : Z;
  SsRequest : option sendMessageRequest; SsParts : option (list Emails.Attachment); SsCredential : Z; SsSession : string;
  SentMessageID : option Z; LastError : string; SsUpdatedAt : Time
}.
Definition pending : string := "pending".
Definition sending : string := "sending".
Definition sent : string := "sent".
Definition failed : string := "failed".
Definition cancelled : string := "cancelled".
Definition held_ : string := "held".
Definition with_status (status : string) (s : ScheduledSend) : ScheduledSend := {|
  SsID := SsID s; SsAccount := SsAccount s; SsFrom := SsFrom s; SsTo := SsTo s; SsSubject := SsSubject s; SendAt := SendAt s; SsStatus := status;
  Attempts := Attempts s; SsRequest := SsRequest s; SsParts := SsParts s; SsCredential := SsCredential s; SsSession := SsSession s;
  SentMessageID := SentMessageID s; LastError := LastError s; SsUpdatedAt := SsUpdatedAt s |}.
Definition with_outcome (status : string) (message : option Z) (error : string) (s : ScheduledSend) : ScheduledSend := {|
  SsID := SsID s; SsAccount := SsAccount s; SsFrom := SsFrom s; SsTo := SsTo s; SsSubject := SsSubject s; SendAt := SendAt s; SsStatus := status;
  Attempts := Attempts s; SsRequest := SsRequest s; SsParts := SsParts s; SsCredential := SsCredential s; SsSession := SsSession s;
  SentMessageID := match message with Some id => Some id | None => SentMessageID s end; LastError := error; SsUpdatedAt := SsUpdatedAt s |}.
Definition with_retry (attempts : Z) (at_ : Time) (error : string) (s : ScheduledSend) : ScheduledSend := {|
  SsID := SsID s; SsAccount := SsAccount s; SsFrom := SsFrom s; SsTo := SsTo s; SsSubject := SsSubject s; SendAt := at_; SsStatus := pending;
  Attempts := attempts; SsRequest := SsRequest s; SsParts := SsParts s; SsCredential := SsCredential s; SsSession := SsSession s;
  SentMessageID := SentMessageID s; LastError := error; SsUpdatedAt := SsUpdatedAt s |}.
(** What a held copy leaves of the row it is kept in. *)
Definition with_hold (h s : ScheduledSend) : ScheduledSend := {|
  SsID := SsID s; SsAccount := SsAccount s; SsFrom := SsFrom s; SsTo := SsTo s; SsSubject := SsSubject s; SendAt := SendAt h; SsStatus := held_;
  Attempts := Attempts s; SsRequest := SsRequest h; SsParts := SsParts h; SsCredential := SsCredential s; SsSession := SsSession s;
  SentMessageID := SentMessageID s; LastError := LastError h; SsUpdatedAt := SsUpdatedAt s |}.
Definition updated_at (now : Time) (s : ScheduledSend) : ScheduledSend := {|
  SsID := SsID s; SsAccount := SsAccount s; SsFrom := SsFrom s; SsTo := SsTo s; SsSubject := SsSubject s; SendAt := SendAt s; SsStatus := SsStatus s;
  Attempts := Attempts s; SsRequest := SsRequest s; SsParts := SsParts s; SsCredential := SsCredential s; SsSession := SsSession s;
  SentMessageID := SentMessageID s; LastError := LastError s; SsUpdatedAt := now |}.
Definition with_ss_id (id : Z) (s : ScheduledSend) : ScheduledSend := {|
  SsID := id; SsAccount := SsAccount s; SsFrom := SsFrom s; SsTo := SsTo s; SsSubject := SsSubject s; SendAt := SendAt s; SsStatus := SsStatus s;
  Attempts := Attempts s; SsRequest := SsRequest s; SsParts := SsParts s; SsCredential := SsCredential s; SsSession := SsSession s;
  SentMessageID := SentMessageID s; LastError := LastError s; SsUpdatedAt := SsUpdatedAt s |}.

(** *** The statements on scheduled sends *)

Inductive S : Type -> Type :=
| SCreate (row : ScheduledSend) : S ScheduledSend
| SReturnStale (before : Time) : S unit
| SDue (now : Time) (limit : nat) : S (list ScheduledSend)
| SClaim (id : Z) : S bool
| SFinish (id : Z) (status : string) (message : option Z) (error : string) : S unit
| SRetry (id attempts : Z) (at_ : Time) (error : string) : S unit
| SHold (id : Z) (h : ScheduledSend) : S (option ScheduledSend)
| SWaiting (account : Z) : S (list ScheduledSend)
| SHeldOf (account : Z) (limit : nat) : S (list ScheduledSend)
| SMine (id account : Z) : S (option ScheduledSend)
| SCancel (id : Z) : S bool
| SRead (id : Z) : S (option ScheduledSend).
Record Waiting := { sends : list ScheduledSend; next_send : Z }.
Definition of_id (id : Z) (s : ScheduledSend) : bool := SsID s =? id.
Definition in_status (statuses : list string) (s : ScheduledSend) : bool := bool_decide (SsStatus s ∈ statuses).
Definition sooner (a b : ScheduledSend) : Prop := SendAt a <= SendAt b.
#[export] Instance sooner_dec a b : Decision (sooner a b).
Proof. unfold sooner. apply _. Defined.
(** An UPDATE sets updated_at. *)
Definition change (now : Time) (p : ScheduledSend -> bool) (f : ScheduledSend -> ScheduledSend) (w : Waiting) : Waiting := {|
  sends := (fun s => if p s then updated_at now (f s) else s) <$> sends w; next_send := next_send w |}.
Definition row (id : Z) (w : Waiting) : option ScheduledSend := List.find (of_id id) (sends w).
Definition exec_send (at_ : Time) {X} (s : S X) (w : Waiting) : X * Waiting :=
  match s in S X return X * Waiting with
  | SCreate r =>
      let made := updated_at at_ (with_ss_id (next_send w) r) in
      (made, {| sends := sends w ++ [made]; next_send := next_send w + 1 |})
  | SReturnStale before => (tt, change at_ (fun s => in_status [sending] s && (SsUpdatedAt s <? before)) (with_status pending) w)
  | SDue now limit =>
      (take limit (merge_sort sooner (List.filter (fun s => in_status [pending] s && (SendAt s <=? now)) (sends w))), w)
  | SClaim id =>
      let p s := of_id id s && in_status [pending] s in
      (existsb p (sends w), change at_ p (with_status sending) w)
  | SFinish id status message error => (tt, change at_ (of_id id) (with_outcome status message error) w)
  | SRetry id attempts t error => (tt, change at_ (of_id id) (with_retry attempts t error) w)
  | SHold id h => let w' := change at_ (of_id id) (with_hold h) w in (row id w', w')
  | SWaiting account =>
      (merge_sort sooner (List.filter (fun s => (SsAccount s =? account) && in_status [pending; sending; held_] s) (sends w)), w)
  | SHeldOf account limit => (take limit (List.filter (fun s => (SsAccount s =? account) && in_status [held_] s) (sends w)), w)
  | SMine id account => (List.find (fun s => of_id id s && (SsAccount s =? account) && in_status [pending; held_] s) (sends w), w)
  | SCancel id =>
      let p s := of_id id s && in_status [pending; held_] s in
      (existsb p (sends w), change at_ p (with_status cancelled) w)
  | SRead id => (row id w, w)
  end.

(** ** The questions *)

(** encoding/json of an error's answer, as endpoint.WriteError writes it. *)
Class ErrorLib := { error_body : refusal -> string }.
(** What Reserve is told of a submission. *)
Record reservation := { RvAccount : Z; RvSender : Z; RvRecipients : Z; RvBypass : bool; RvForce : string }.
(** A row of attachments, with where its bytes are. *)
Record StoredPart := { StName : string; StType : string; StSize : Z; StStorage : string; StRef : string; StChecksum : string }.

Section Sending.
Context `{Unicode, AuthLib, MailLib, CursorLib, DeliveryLib, PolicyLib, NamedLib, WebLib, ErrorLib}.
Context {Filter : Type}.
Abbreviation Engine := (@Pipeline.Engine Filter).

Inductive Q : Type -> Type :=
| CqLocal {X} (q : @LocalDelivery.Q Filter X) : Q X
| CqActive (address : string) : Q (result MailStore.Mailboxes.find_error Store.Mailbox)
| CqPolicy (domain : Z) : Q (result unit string)
| CqHostedKey (name : string) : Q (result unit (option Wire.DomainKey))
| CqSign {X} (q : Outside.Q X) : Q X
| CqAllow (account : string) : Q bool
| CqOutPipeline (domain : Z) : Q (result unit (option StoredPipeline))
| CqReserve (a : reservation) : Q (result SendLimits.limit_error (option SendLimits.Hit))
| CqICS (e : Emails.CalendarEvent) : Q (result unit string)
| CqSerialize (m : EmailJSON) : Q (result unit string)
| CqTrace (t : MessageTrace) : Q unit
| CqContact (mb : Z) (email : string) : Q unit
| CqLimitHit (owner row : Z) (scope dimension : string) : Q unit
| CqScheduled {X} (s : S X) : Q (result unit X)
| CqCredential (id : Z) : Q (result unit (option Credential))
| CqParts (message : Z) : Q (result unit (list StoredPart))
| CqObject (storage ref : string) (limit : Z) : Q (result unit string)
| CqPut (data : string) : Q (result unit (string * string * string))
| CqStorage (mb cost : Z) : Q (result StorageQuota.quota_error unit)
| CqUsage (mb subject body attachments : Z) : Q (result unit Z)
| CqAttach (message : Z) (part : StoredPart) : Q (result unit unit)
| CqDelete (message : Z) : Q (result unit unit)
| CqUnread (mb : Z) : Q (result unit Z)
| CqAudit (action : string) (status row submitted_by : Z) : Q (result unit unit)
| CqBegin : Q (result unit unit)
| CqCommit : Q (result unit unit)
| CqRollback : Q unit.
Abbreviation P := (prog Q).

Definition local {A} (p : prog (@LocalDelivery.Q Filter) A) : P A := within (@CqLocal) p.
Definition mailbox {A} (p : prog Messages.Q A) : P A := local (LocalDelivery.mail p).
Definition accounts {A} (p : prog SignIn.Q A) : P A := mailbox (Messages.account p).
Definition store_ {X} (m : M X) : P (result unit X) := mailbox (Messages.db m).
Definition scheduled {X} (s : S X) : P (result unit X) := ask (CqScheduled s).
Definition now_ : P Time := mailbox (ask Messages.QNow).
Definition refusing {E F X} (e : F) (p : P (result E X)) : P (result F X) := x <- p ; Ret (match x with Ok a => Ok a | Err _ => Err e end).

(** The handler as this request has it: [inTransaction] for the copy a draft or a release
    sends with, [heldID] for the row being sent again, [releasing] for a person's release. *)
Record Handler := {
  engine : option Engine; maxRecipients : Z; layeredLimits : bool; inTransaction : bool; heldID : option Z; releasing : bool;
  maxForwardBytes : Z; zone : Z
}.
Inductive answer := Created (m : Message) | Accepted (row : ScheduledSend) | Discarded.

Definition errDeferred : refusal := Refuse 503 "deferred" "Try again later".
Definition errForwardTooLarge : refusal := Refuse 413 "message_too_large" "The forwarded message exceeds the message size limit".
Definition errForwardAttachment : refusal := Refuse 500 "attachment_unavailable" "Could not read an original attachment".
Definition errNotSender : refusal := Refuse 403 "forbidden" "You are not authorized to send from this address".

(** ** What is checked before anything is stored *)

Definition check_request (h : Handler) (r : sendMessageRequest) : result refusal unit :=
  let total := Z.of_nat (length (RqTo r) + length (RqCc r) + length (RqBcc r)) in
  if bool_decide (RqFrom r = "") then Err (Invalid ["from"])
  else if bool_decide (RqTo r = []) then Err (Invalid ["to"])
  else if (0 <? maxRecipients h) && (maxRecipients h <? total) then
    Err (Invalid (["to"] ++ (if bool_decide (RqCc r = []) then [] else ["cc"]) ++ (if bool_decide (RqBcc r = []) then [] else ["bcc"])))
  else if negb (forallb ValidateAddress (RqTo r)) then Err (Invalid ["to"])
  else if negb (forallb ValidateAddress (RqCc r)) then Err (Invalid ["cc"])
  else if negb (forallb ValidateAddress (RqBcc r)) then Err (Invalid ["bcc"])
  else if negb (ValidateAddress (RqFrom r)) then Err (Invalid ["from"])
  else match RqListUnsubscribe r with
       | Some l => if validateListUnsubscribe l then Ok tt else Err (Invalid ["list_unsubscribe"])
       | None => Ok tt
       end.
(** send_identity.go *)
Definition send_capability (c : Claims) (id : Z) (onBehalf : bool) : string :=
  if onBehalf then Held.CapMailSendOnBehalf else if id =? AccountID c then Held.CapMailSend else Held.CapMailSendAs.
Definition maySendFrom (c : Claims) (address : string) (onBehalf : bool) : prog SignIn.Q (result access_error Account) :=
  found <-! SignIn.or_else AccessFailed (SignIn.db (DAddress address)) ;
  match found with
  | None => Ret (Err errNoAccess)
  | Some mb => mayReach c (AcID mb) (send_capability c (AcID mb) onBehalf)
  end.
(** Whose message it is: the mailbox it is from, and the request with From and Sender as
    the server knows them. *)
Definition resolve_sender (c : Claims) (r : sendMessageRequest) : P (result refusal (Account * sendMessageRequest)) :=
  reached <- accounts (maySendFrom c (RqFrom r) (OnBehalf r)) ;
  match reached with
  | Err errNoAccess => Ret (Err errAccountNotFound)
  | Err Access.errNotAllowed => Ret (Err errNotSender)
  | Err AccessFailed => Ret (Err (internal "Failed to check the sender"))
  | Ok mb =>
      if OnBehalf r then
        actor <-! refusing (internal "Failed to check the sending account") (accounts (SignIn.db (DAccount (AccountID c)))) ;
        Ret (match actor with
             | Some a => Ok (mb, as_sender (AcAddress mb) (AcAddress a) r)
             | None => Err (internal "Failed to check the sending account")
             end)
      else Ret (Ok (mb, as_sender (AcAddress mb) (RqSender r) r))
  end.
Definition SendingPolicyBulk : string := "bulk".
Definition SendingPolicyTransactional : string := "transactional".
(** internal/outbound's HasDKIMKey. *)
Definition HasDKIMKey (senderDomain : string) : P (result unit bool) :=
  if bool_decide (senderDomain = "") then Ret (Ok false)
  else
    found <-! ask (CqHostedKey senderDomain) ;
    Ret (Ok match found with
            | Some k => negb (bool_decide (Wire.DKIMPrivateKey k = "")) && negb (bool_decide (Wire.DKIMSelector k = ""))
            | None => false
            end).
Definition one_click (r : sendMessageRequest) : bool :=
  match RqListUnsubscribe r with Some l => negb (bool_decide (HTTPS l = "")) | None => false end.
Definition check_policy (mb : Account) (r : sendMessageRequest) : P (result refusal unit) :=
  policy <-! refusing (internal "Failed to check the sender domain's sending policy") (ask (CqPolicy (AcDomain mb))) ;
  if bool_decide (policy = SendingPolicyBulk) && negb (is_some (RqListUnsubscribe r)) then Ret (Err (Invalid ["list_unsubscribe"]))
  else if bool_decide (policy = SendingPolicyTransactional) && is_some (RqListUnsubscribe r) then Ret (Err (Invalid ["list_unsubscribe"]))
  else if one_click r then
    signs <-! refusing (internal "Failed to check the sender domain's DKIM key") (HasDKIMKey (Threads.DomainFromAddress (RqFrom r))) ;
    Ret (if signs : bool then Ok tt else Err (Invalid ["list_unsubscribe.https"]))
  else Ret (Ok tt).

(** ** Kept for later *)

Definition schedule (c : Claims) (r : sendMessageRequest) (at_ : Time) : P (result refusal answer) :=
  now <- now_ ;
  if at_ <? now + Minute then Ret (Err (Invalid ["scheduled_at"]))
  else if now + 365 * 24 * Hour <? at_ then Ret (Err (Invalid ["scheduled_at"]))
  else
    kept <-! refusing (internal "Failed to store the scheduled message") (scheduled (SCreate {|
      SsID := 0; SsAccount := AccountID c; SsFrom := RqFrom r; SsTo := RqTo r; SsSubject := RqSubject r; SendAt := at_; SsStatus := pending;
      Attempts := 0; SsRequest := Some (marshal (to_be_sent_now r)); SsParts := None; SsCredential := CredentialID c; SsSession := SessionID c;
      SentMessageID := None; LastError := ""; SsUpdatedAt := GoTime.zero |})) ;
    Ret (Ok (Accepted kept)).
(** forward_attachments.go: a part's bytes, no more than [remaining], the bytes that were
    stored under its checksum. *)
Definition checksum (data : string) : string := Codec.EncodeToString (Sha256.Sum256 data).
Definition text_of_base64 (s : string) : option string := Base64.text_of <$> Base64.DecodeString s.
Definition base64_of (s : string) : string := Base64.EncodeToString (Base64.bytes_of s).
Definition forwardPartBytes (a : Emails.Attachment) (remaining : Z) : P (result refusal string) :=
  data <-! (if bool_decide (Emails.Ref a = "") then Ret (match text_of_base64 (Emails.AContent a) with Some d => Ok d | None => Err errForwardAttachment end)
            else refusing errForwardAttachment (ask (CqObject (Emails.Storage a) (Emails.Ref a) remaining))) ;
  Ret (if remaining <? len data then Err errForwardTooLarge
       else if negb (len data =? Emails.Size a) || (negb (bool_decide (Emails.Checksum a = "")) && negb (bool_decide (checksum data = Emails.Checksum a)))
       then Err errForwardAttachment else Ok data).
Definition with_content (data : string) (storage ref : string) (a : Emails.Attachment) : Emails.Attachment := {|
  Emails.Filename := Emails.Filename a; Emails.AContentType := Emails.AContentType a; Emails.Size := len data; Emails.Disposition := Emails.Disposition a;
  Emails.ContentID := Emails.ContentID a; Emails.AContent := base64_of data; Emails.Storage := storage; Emails.Ref := ref;
  Emails.Checksum := Emails.Checksum a |}.
(** [keep]: the part as it is kept with its bytes. *)
Fixpoint read_parts (keep : string -> Emails.Attachment -> Emails.Attachment) (parts : list Emails.Attachment) (remaining : Z)
    : P (result refusal (list Emails.Attachment)) :=
  match parts with
  | [] => Ret (Ok [])
  | a :: rest =>
      data <-! forwardPartBytes a remaining ;
      more <-! read_parts keep rest (remaining - len data) ;
      Ret (Ok (keep data a :: more))
  end.
(** send_limits.go. [None]: the message may go. *)
Definition held_send (c : Claims) (r : sendMessageRequest) (parts : option (list Emails.Attachment)) (hit : SendLimits.Hit) : ScheduledSend := {|
  SsID := 0; SsAccount := AccountID c; SsFrom := RqFrom r; SsTo := RqTo r; SsSubject := RqSubject r; SendAt := SendLimits.RetryAt hit; SsStatus := held_;
  Attempts := 0; SsRequest := Some (marshal r); SsParts := parts; SsCredential := CredentialID c; SsSession := SessionID c; SentMessageID := None;
  LastError := SendLimits.HScope hit +:+ ": " +:+ SendLimits.HDimension hit; SsUpdatedAt := GoTime.zero |}.
Definition errNotRetained : refusal := Refuse 503 "deferred" "Could not retain or account for the message; try again later".
Definition hold (h : Handler) (row : ScheduledSend) : P (result refusal ScheduledSend) :=
  match heldID h with
  | Some id =>
      if id =? 0 then refusing errNotRetained (scheduled (SCreate row))
      else
        kept <-! refusing errNotRetained (scheduled (SHold id row)) ;
        Ret (match kept with Some s => Ok s | None => Err errNotRetained end)
  | None => refusing errNotRetained (scheduled (SCreate row))
  end.
Definition reserveLayeredSend (h : Handler) (c : Claims) (r : sendMessageRequest) (parts : option (list Emails.Attachment)) (sender : Z) (force : string)
    : P (result refusal (option ScheduledSend)) :=
  reserved <- ask (CqReserve {| RvAccount := AccountID c; RvSender := sender; RvRecipients := Z.of_nat (length (recipients r));
                                RvBypass := releasing h; RvForce := force |}) ;
  match reserved with
  | Err SendLimits.ErrAccountInactive => Ret (Err errNotSender)
  | Err _ => Ret (Err errNotRetained)
  | Ok None => Ret (Ok None)
  | Ok (Some hit) =>
      retained <-! match parts with
                   | None => Ret (Ok None)
                   | Some l => kept <-! refusing errNotRetained (read_parts (fun data => with_content data "" "") l (maxForwardBytes h)) ; Ret (Ok (Some kept))
                   end ;
      row <-! hold h (held_send c r retained hit) ;
      ask (CqLimitHit (SendLimits.HOwner hit) (SsID row) (SendLimits.HScope hit) (SendLimits.HDimension hit)) ;;
      Ret (Ok (Some row))
  end.

(** ** What a handler's copy holds back *)

Inductive effect :=
| Published (mb : Z) (e : Messages.Event)
| Notified (mb : Z)
| Traced (t : MessageTrace)
| TracedOut (t : MessageTrace)
| HitTold (owner row : Z) (scope dimension : string).
Inductive when := AtOnce | OnCommit | Never.
(** The effect a question has, and its answer. *)
Definition effect_of {X} (q : Q X) : option (effect * X) :=
  match q in Q X return option (effect * X) with
  | CqLocal q =>
      match q in LocalDelivery.Q X return option (effect * X) with
      | LqMail q => match q in Messages.Q X return option (effect * X) with QPublish mb e => Some (Published mb e, tt) | _ => None end
      | LqNewMail mb => Some (Notified mb, tt)
      | LqTrace t => Some (Traced t, tt)
      | _ => None
      end
  | CqTrace t => Some (TracedOut t, tt)
  | CqLimitHit owner row scope dimension => Some (HitTold owner row scope dimension, tt)
  | _ => None
  end.
Fixpoint staged {A} (mode : effect -> when) (p : P A) (later : list effect) : P (A * list effect) :=
  match p with
  | Ret a => Ret (a, later)
  | Ask q k =>
      match effect_of q with
      | Some (e, x) =>
          match mode e with
          | AtOnce => Ask q (fun x => staged mode (k x) later)
          | OnCommit => staged mode (k x) (later ++ [e])
          | Never => staged mode (k x) later
          end
      | None => Ask q (fun x => staged mode (k x) later)
      end
  end.
Definition publish_ (mb : Z) (e : Messages.Event) : P unit := mailbox (Messages.publish mb e).
Definition perform (e : effect) : P unit :=
  match e with
  | Published mb e => publish_ mb e
  | Notified mb => local (ask (LqNewMail mb))
  | Traced t => local (recordTrace t)
  | TracedOut t => ask (CqTrace t)
  | HitTold owner row scope dimension => ask (CqLimitHit owner row scope dimension)
  end.
Fixpoint replay (later : list effect) : P unit := match later with [] => Ret tt | e :: rest => perform e ;; replay rest end.
(** draft_send.go's draftSendEffects: a refusal's trace is written at once. *)
Definition draft_effects (e : effect) : when :=
  match e with
  | Traced t | TracedOut t => if bool_decide (MtOutcome t = outcomeRejected) || bool_decide (MtOutcome t = outcomeDeferred) then AtOnce else OnCommit
  | _ => OnCommit
  end.
(** forward_attachments.go's copy for a local recipient: traces are kept, nobody is told. *)
Definition forward_effects (e : effect) : when := match e with Traced _ | TracedOut _ => OnCommit | _ => Never end.
Definition transaction {A} (p : P (result refusal A)) : P (result refusal A) :=
  _ <-! refusing (Failed "begin") (ask CqBegin) ;
  r <- p ;
  match r with
  | Ok a => _ <-! refusing (Failed "commit") (ask CqCommit) ; Ret (Ok a)
  | Err e => ask CqRollback ;; Ret (Err e)
  end.

(** ** The outbound pipeline *)

Definition outcomeQueued : string := "queued".
Definition out_email (c : Claims) (mb : Account) (r : sendMessageRequest) (parts : list Emails.Attachment) : EmailJSON := {|
  Emails.EEnvelope := {| Emails.MailFrom := RqFrom r; Emails.RcptTo := recipients r; Emails.ClientIP := ""; Emails.ClientHostname := "";
                         Emails.Helo := ""; Emails.TLS := false; Emails.EDirection := "outbound" |};
  Emails.EHeaders := {|
    Emails.From := [ {| Emails.AName := DisplayName mb; Emails.AAddress := RqFrom r |} ]; Emails.To := bareAddressList (RqTo r);
    Emails.Cc := bareAddressList (RqCc r); Emails.Bcc := []; Emails.Subject := RqSubject r; Emails.Date := ""; Emails.MessageID := "";
    Emails.InReplyTo := ""; Emails.References := []; Emails.Raw := ∅; Emails.Extra := ∅ |};
  Emails.EBody := built_body (RqBodyText r) (RqBodyHTML r);
  Emails.Attachments := List.filter (fun a => negb (is_inline a)) parts; Emails.Inline := List.filter is_inline parts;
  Emails.CalendarEvents := []; Emails.Metadata := {[ "auth_account" := itoa (AccountID c) ]} |}.
(** The stored pipeline, the default one when there is none, or none that reads. *)
Definition outbound_config (domain : Z) : P Pipeline.PipelineConfig :=
  stored <- ask (CqOutPipeline domain) ;
  match stored with
  | Ok (Some s) =>
      match decode_filters (SpFilters s) with
      | Some fs => Ret {| Pipeline.ID := SpID s; Pipeline.DomainID := SpDomainID s; Pipeline.Direction := SpDirection s; Pipeline.Filters := fs;
                          Pipeline.Active := SpActive s; Pipeline.CreatedAt := GoTime.zero; Pipeline.UpdatedAt := GoTime.zero |}
      | None => now <- now_ ; Ret (Pipeline.DefaultOutboundPipeline domain now)
      end
  | _ => now <- now_ ; Ret (Pipeline.DefaultOutboundPipeline domain now)
  end.
(** The request as the pipeline leaves it. *)
Definition transformed (m : EmailJSON) (r : sendMessageRequest) : sendMessageRequest :=
  let '(text, html) := TextAndHTML (Emails.EBody m) in
  let changed := negb (bool_decide (Emails.RcptTo (Emails.EEnvelope m) = [])) in {|
  OnBehalf := OnBehalf r; RqSender := RqSender r; RqFrom := RqFrom r; RqTo := if changed then Emails.RcptTo (Emails.EEnvelope m) else RqTo r;
  RqCc := if changed then [] else RqCc r; RqBcc := if changed then [] else RqBcc r; RqSubject := Emails.Subject (Emails.EHeaders m);
  RqBodyText := or_text text (RqBodyText r); RqBodyHTML := or_text html (RqBodyHTML r); RqInReplyTo := RqInReplyTo r; RqCalendar := RqCalendar r;
  RqListUnsubscribe := RqListUnsubscribe r; RqRequireTLS := RqRequireTLS r; ScheduledAt := ScheduledAt r |}.
Inductive piped :=
| Went (r : sendMessageRequest) (parts : option (list Emails.Attachment)) (extra : gmap string string) (trace : option traceInputs)
| Stopped (a : answer).
Definition run_outbound (h : Handler) (e : Engine) (c : Claims) (mb : Account) (r : sendMessageRequest) (parts : option (list Emails.Attachment))
    : P (result refusal piped) :=
  cfg <- outbound_config (AcDomain mb) ;
  ptr <- local (ask (LqNew (out_email c mb r (default [] parts)))) ;
  ran <- local (within (@LqEngine _) (Pipeline.Execute e cfg ptr)) ;
  match ran with
  | None => Ret (Err (Refuse 500 "pipeline_error" "Outbound pipeline execution failed"))
  | Some result =>
      seen <- local (ask (LqRead ptr)) ;
      let base := {| PipelineID := Pipeline.ID cfg; TrResult := result; TrEnvelope := Emails.EEnvelope seen; Transport := "";
                     RFCMessageID := ""; Outcome := ""; TrMessage := None |} in
      let action := Pipeline.FinalAction result in
      if bool_decide (action = Pipeline.ActionReject) then
        ask (CqTrace (ended outcomeRejected base)) ;;
        Ret (Err (Refuse 403 "rejected" (or_text (Pipeline.RejectMsg result) "Message rejected by outbound policy")))
      else if bool_decide (action = Pipeline.ActionQuarantine) then
        ask (CqTrace (ended outcomeQuarantined base)) ;; Ret (Err (Refuse 403 "quarantined" "Message held for review by outbound policy"))
      else if bool_decide (action = Pipeline.ActionDiscard) then
        ask (CqTrace (ended outcomeDiscarded base)) ;; Ret (Ok (Stopped Discarded))
      else if bool_decide (action = Pipeline.ActionDefer) then
        ask (CqTrace (ended outcomeDeferred base)) ;;
        if layeredLimits h then
          held <-! reserveLayeredSend h c r parts (AcID mb) "outbound_pipeline" ;
          Ret (match held with Some row => Ok (Stopped (Accepted row)) | None => Err (Failed "no hold") end)
        else Ret (Err errDeferred)
      else if bool_decide (action = Pipeline.ActionContinue) then
        final <- local (ask (LqRead (Pipeline.FinalEmail result))) ;
        Ret (Ok (Went (transformed final r) (match parts with Some _ => Some (Emails.Attachments final ++ Emails.Inline final) | None => None end)
                   (Emails.Extra (Emails.EHeaders final)) (Some base)))
      else Ret (Ok (Went r parts ∅ None))
  end.

(** ** The message *)

(** A calendar event with what it leaves to the server; [uid] when it has none. *)
Definition completed (mb : Account) (from : string) (now : Time) (uid : string) (e : Emails.CalendarEvent) : Emails.CalendarEvent := {|
  Emails.CMethod := Emails.CMethod e; Emails.UID := or_text (Emails.UID e) uid; Emails.Summary := Emails.Summary e;
  Emails.Description := Emails.Description e; Emails.Location := Emails.Location e; Emails.DTStart := Emails.DTStart e; Emails.DTEnd := Emails.DTEnd e;
  Emails.AllDay := Emails.AllDay e;
  Emails.Organizer := if bool_decide (Emails.CAddress (Emails.Organizer e) = "")
                      then {| Emails.CAddress := from; Emails.CName := DisplayName mb; Emails.Role := ""; Emails.PartStat := ""; Emails.RSVP := false |}
                      else Emails.Organizer e;
  Emails.Attendees := Emails.Attendees e; Emails.CStatus := Emails.CStatus e; Emails.Sequence := Emails.Sequence e;
  Emails.DTStamp := if IsZero (Emails.DTStamp e) then now else Emails.DTStamp e |}.
(** The event, and its iCalendar text. *)
Definition invitation (mb : Account) (r : sendMessageRequest) : P (result refusal (option (Emails.CalendarEvent * string))) :=
  match RqCalendar r with
  | None => Ret (Ok None)
  | Some e =>
      now <- now_ ;
      uid <- (if bool_decide (Emails.UID e = "") then mailbox (NewMessageID (Threads.DomainFromAddress (RqFrom r))) else Ret "") ;
      let e := completed mb (RqFrom r) now uid e in
      ics <-! refusing (Invalid ["calendar_event"]) (ask (CqICS e)) ;
      Ret (Ok (Some (e, ics)))
  end.
Definition sent_copy (mb : Account) (r : sendMessageRequest) (messageID references threadID : string) (now : Time) (event : option Emails.CalendarEvent)
    (raw : string) (attached : bool) : Message := {|
  ID := 0; MailboxID := AcID mb; Folder := "Sent";
  Ids := {| Threads.PMsgID := messageID; Threads.PInReplyTo := RqInReplyTo r; Threads.PReferences := references; Threads.PThreadID := threadID |};
  Parts := {| Sender := RqFrom r; SenderName := DisplayName mb; RecipientsTo := marshal_strings (RqTo r); RecipientsCc := marshal_strings (RqCc r);
              Subject := RqSubject r; BodyText := RqBodyText r; BodyHTML := RqBodyHTML r |};
  Stored := {| RawMessage := raw; AuthResults := []; Calendar := match event with Some e => [e] | None => [] end; ReceivedTLS := None;
               TLSVersion := ""; RequireTLS := false; RuleClass := "" |};
  Marks := {| IsAnswered := false; IsRead := true; IsFlagged := false; IsStarred := false; Keywords := []; IMAPDeleted := false; IsDraft := false |};
  SizeBytes := len (RqSubject r) + len (RqBodyText r) + len (RqBodyHTML r); HasAttachments := attached; IsDeleted := false; ReceivedAt := now |}.
Definition outgoing (mb : Account) (r : sendMessageRequest) (messageID references : string) (now : Time) (extra : gmap string string)
    (invited : option (Emails.CalendarEvent * string)) (parts : list Emails.Attachment) : outboundMessage := {|
  OmSender := RqSender r; FromName := DisplayName mb; OmFrom := RqFrom r; OmTo := RqTo r; OmCc := RqCc r; OmSubject := RqSubject r;
  OmText := RqBodyText r; OmHTML := RqBodyHTML r; OmMessageID := messageID; OmInReplyTo := RqInReplyTo r; OmReferences := references; OmDate := now;
  OmExtra := withListUnsubscribe extra (RqListUnsubscribe r); ICS := snd <$> invited; ICSMethod := calendarMethod (fst <$> invited);
  OmAttachments := parts; CalendarReply := "" |}.
(** The raw message, signed; a one-click claim never leaves unsigned. *)
Definition signed_raw (h : Handler) (r : sendMessageRequest) (what : string) (m : outboundMessage) : P (result refusal string) :=
  raw <-! refusing (internal what) (ask (CqSerialize (outbound_email (zone h) m))) ;
  signed <-! refusing errDeferred (within (@CqSign) (Send.SignDKIM (Threads.DomainFromAddress (RqFrom r)) raw)) ;
  Ret (if one_click r && bool_decide (signed = raw) then Err errDeferred else Ok signed).
Definition queued_trace (m : Message) (i : traceInputs) : MessageTrace := buildTrace {|
  PipelineID := PipelineID i; TrResult := TrResult i; TrEnvelope := TrEnvelope i; Transport := Transport i;
  RFCMessageID := Threads.PMsgID (Ids m); Outcome := outcomeQueued; TrMessage := Some (ID m) |}.
Definition record_queued (m : Message) (trace : option traceInputs) : P unit :=
  match trace with Some t => ask (CqTrace (queued_trace m t)) | None => Ret tt end.

(** ** Its recipients *)

Definition after_last_at (address : string) : string := match cut_last "@"%char address with Some (_, d) => d | None => address end.
Definition queue_row (m : Message) (from rcpt domain raw : string) (requireTLS : bool) : Queued := {|
  QuMessage := Some (ID m); QuSender := from; QuSendingDomain := ""; QuRecipient := rcpt; QuDomain := domain; QuRaw := raw;
  QuRequireTLS := requireTLS; QuARCResults := ""; QuARCChain := "" |}.
(** Who has a mailbox here, and the rows of those who have none that takes mail. *)
Fixpoint place (rcpts : list string) (row : string -> Queued) : P (result refusal (list Store.Mailbox * list Queued)) :=
  match rcpts with
  | [] => Ret (Ok ([], []))
  | rcpt :: rest =>
      found <- ask (CqActive rcpt) ;
      match found with
      | Err MailStore.Mailboxes.ErrDatabase => Ret (Err (internal "Failed to look up a recipient"))
      | Ok mb => more <-! place rest row ; Ret (Ok (mb :: fst more, snd more))
      | Err _ => more <-! place rest row ; Ret (Ok (fst more, row rcpt :: snd more))
      end
  end.
Definition local_copy (mb : Account) (r : sendMessageRequest) (m : Message) (raw : string) (independent : bool) (box : Store.Mailbox) : localDeliveryParams := {|
  LdMailbox := box; LdSender := RqFrom r; LdSenderName := DisplayName mb; LdRecipientsTo := marshal_strings (RqTo r);
  LdRecipientsCc := marshal_strings (RqCc r); LdSubject := RqSubject r; LdBodyText := RqBodyText r; LdBodyHTML := RqBodyHTML r;
  LdMessageID := Threads.PMsgID (Ids m); LdInReplyTo := RqInReplyTo r; LdReferences := Threads.PReferences (Ids m); LdRawMessage := raw;
  LdClientIP := ""; HeloName := ""; LdFolder := ""; LdIsAnswered := None; LdIsRead := None; LdIsFlagged := None; LdIsStarred := None;
  LdIsDraft := None; LdReceivedAt := None; LdReceivedTLS := None; LdTLSVersion := ""; LdRequireTLS := RqRequireTLS r; LdStage := deliverWhole;
  LdState := newDeliveryState; IndependentAttachments := independent; ReceiveChecked := false |}.
(** A delivery that fails is passed over, except within a transaction. *)
Fixpoint deliver_locals (h : Handler) (copy : Store.Mailbox -> localDeliveryParams) (boxes : list Store.Mailbox) : P (result refusal unit) :=
  match boxes with
  | [] => Ret (Ok tt)
  | box :: rest =>
      done <- local (deliverToLocal (engine h) (copy box)) ;
      match done with
      | Err _ => if inTransaction h then Ret (Err errDeferred) else deliver_locals h copy rest
      | Ok _ => deliver_locals h copy rest
      end
  end.
Fixpoint collect (mb : Z) (rcpts : list string) : P unit := match rcpts with [] => Ret tt | rcpt :: rest => ask (CqContact mb rcpt) ;; collect mb rest end.
Definition send_plain (h : Handler) (mb : Account) (r : sendMessageRequest) (m : string -> Message) (out : outboundMessage) (trace : option traceInputs)
    : P (result refusal answer) :=
  raw <-! signed_raw h r "Failed to build the outbound message" out ;
  stored <-! refusing (internal "Failed to save sent message") (store_ (MCreate (m raw))) ;
  record_queued stored trace ;;
  placed <-! place (recipients r) (fun rcpt => queue_row stored (RqFrom r) rcpt (after_last_at rcpt) raw (RqRequireTLS r)) ;
  _ <-! (if bool_decide (snd placed = []) then Ret (Ok tt) else refusing errDeferred (store_ (MQueue (snd placed)))) ;
  _ <-! deliver_locals h (local_copy mb r stored raw false) (fst placed) ;
  publish_ (AcID mb) (MessageSent (ID stored) (Subject (Parts stored))) ;;
  collect (AcID mb) (recipients r) ;;
  Ret (Ok (Created stored)).

(** ** forward_attachments.go *)

Definition stored_part (a : Emails.Attachment) (data : string) (put : string * string * string) : StoredPart :=
  let '(ref, sum, storage) := put in {|
  StName := Emails.Filename a; StType := Emails.AContentType a; StSize := len data; StStorage := storage; StRef := ref; StChecksum := sum |}.
Fixpoint store_parts (message : Z) (parts : list Emails.Attachment) : P (result refusal unit) :=
  match parts with
  | [] => Ret (Ok tt)
  | a :: rest =>
      data <-! Ret (match text_of_base64 (Emails.AContent a) with Some d => Ok d | None => Err (Failed "commit forwarded message") end) ;
      put <-! refusing (Failed "commit forwarded message") (ask (CqPut data)) ;
      _ <-! refusing (Failed "commit forwarded message") (ask (CqAttach message (stored_part a data put))) ;
      store_parts message rest
  end.
(** Each recipient within the transaction; the messages made here, and what their traces say. *)
Fixpoint hand_over (h : Handler) (rcpts : list string) (copy : Store.Mailbox -> localDeliveryParams) (row : string -> Queued)
    (made : list Message) (later : list effect) : P (result refusal (list Message * list effect)) :=
  match rcpts with
  | [] => Ret (Ok (made, later))
  | rcpt :: rest =>
      found <- ask (CqActive rcpt) ;
      match found with
      | Ok box =>
          ran <- staged forward_effects (local (deliverToLocal (engine h) (copy box))) later ;
          match fst ran with
          | Ok m => hand_over h rest copy row (made ++ match m with Some m => [m] | None => [] end) (snd ran)
          | Err _ => Ret (Err (Failed "commit forwarded message"))
          end
      | Err MailStore.Mailboxes.ErrRecordNotFound =>
          _ <-! refusing (Failed "commit forwarded message") (store_ (MQueue [row rcpt])) ; hand_over h rest copy row made later
      | Err _ => Ret (Err (Failed "commit forwarded message"))
      end
  end.
Definition announce (m : Message) : P unit :=
  publish_ (MailboxID m) (NewMessage (ID m) (Folder m) (Sender (Parts m)) (Subject (Parts m))) ;;
  unread <- ask (CqUnread (MailboxID m)) ;
  match unread with Ok n => publish_ (MailboxID m) (UnreadUpdate "INBOX" n) | Err _ => Ret tt end ;;
  (if bool_decide (Folder m = "INBOX") && negb (IsRead (Marks m)) then local (ask (LqNewMail (MailboxID m))) else Ret tt).
Fixpoint announce_all (made : list Message) : P unit := match made with [] => Ret tt | m :: rest => announce m ;; announce_all rest end.
Definition total_size (parts : list Emails.Attachment) : Z := MessageStore.sum (Emails.Size <$> parts).
Definition commit_parts (h : Handler) (mb : Account) (r : sendMessageRequest) (m : Message) (raw : string) (parts : list Emails.Attachment)
    : P (result refusal (Message * list Message * list effect)) :=
  let bytes := total_size parts in
  reserved <- ask (CqStorage (AcID mb) (SizeBytes m + bytes)) ;
  _ <-! Ret (match reserved with
             | Ok _ => Ok tt
             | Err StorageQuota.ErrStorageQuota => Err (Refuse 422 "mailbox_full" "The sender account has insufficient quota")
             | Err _ => Err (Failed "commit forwarded message")
             end) ;
  counted <-! refusing (Failed "commit forwarded message")
    (ask (CqUsage (AcID mb) (len (Subject (Parts m))) (len (BodyText (Parts m)) + len (BodyHTML (Parts m))) bytes)) ;
  _ <-! Ret (if counted =? 1 then Ok tt else Err (Failed "sender quota usage missing")) ;
  stored <-! refusing (Failed "commit forwarded message") (store_ (MCreate m)) ;
  _ <-! store_parts (ID stored) parts ;
  handed <-! hand_over h (recipients r) (local_copy mb r stored raw true)
               (fun rcpt => queue_row stored (RqFrom r) rcpt (Threads.DomainFromAddress rcpt) raw (RqRequireTLS r)) [] [] ;
  Ret (Ok (stored, fst handed, snd handed)).
Definition commitForward (h : Handler) (mb : Account) (r : sendMessageRequest) (m : string -> bool -> Message)
    (out : list Emails.Attachment -> outboundMessage) (parts : list Emails.Attachment) (trace : option traceInputs) : P (result refusal answer) :=
  parts <-! read_parts (fun data a => with_content data (Emails.Storage a) (Emails.Ref a) a) parts (maxForwardBytes h) ;
  raw <-! signed_raw h r "Failed to build the forwarded message" (out parts) ;
  if maxForwardBytes h <? len raw then Ret (Err errForwardTooLarge)
  else
    committed <-! transaction (commit_parts h mb r (m raw (negb (bool_decide (parts = [])))) raw parts) ;
    let '(stored, made, later) := committed in
    replay later ;;
    record_queued stored trace ;;
    publish_ (AcID mb) (MessageSent (ID stored) (Subject (Parts stored))) ;;
    announce_all made ;;
    collect (AcID mb) (recipients r) ;;
    Ret (Ok (Created stored)).
(** What parsing the original's source says of a stored part: the first that has its name and
    its bytes, and the others. *)
Fixpoint described (name data : string) (metadata : list Emails.Attachment) : option (Emails.Attachment * list Emails.Attachment) :=
  match metadata with
  | [] => None
  | c :: rest =>
      if bool_decide (text_of_base64 (Emails.AContent c) = Some data) && bool_decide (Emails.Filename c = name) then Some (c, rest)
      else match described name data rest with Some (d, others) => Some (d, c :: others) | None => None end
  end.
Definition forward_part (p : StoredPart) (data : string) (c : option Emails.Attachment) : Emails.Attachment := {|
  Emails.Filename := StName p; Emails.AContentType := StType p; Emails.Size := len data;
  Emails.Disposition := match c with Some c => Emails.Disposition c | None => "attachment" end;
  Emails.ContentID := match c with Some c => Emails.ContentID c | None => "" end;
  Emails.AContent := base64_of data; Emails.Storage := ""; Emails.Ref := ""; Emails.Checksum := checksum data |}.
(** The parts read, and what of the source's they do not account for. *)
Fixpoint read_stored (rows : list StoredPart) (remaining : Z) (metadata : list Emails.Attachment)
    : P (result refusal (list Emails.Attachment * list Emails.Attachment)) :=
  match rows with
  | [] => Ret (Ok ([], metadata))
  | p :: rest =>
      if (StSize p <? 0) || (remaining <? StSize p) then Ret (Err errForwardTooLarge)
      else
        data <-! refusing errForwardAttachment (ask (CqObject (StStorage p) (StRef p) remaining)) ;
        if remaining <? len data then Ret (Err errForwardTooLarge)
        else if negb (len data =? StSize p) || (negb (bool_decide (StChecksum p = "")) && negb (bool_decide (checksum data = StChecksum p)))
        then Ret (Err errForwardAttachment)
        else
          let found := described (StName p) data metadata in
          more <-! read_stored rest (remaining - len data) (match found with Some (_, others) => others | None => metadata end) ;
          Ret (Ok (forward_part p data (fst <$> found) :: fst more, snd more))
  end.
Definition readForwardParts (h : Handler) (original : Message) : P (result refusal (list Emails.Attachment)) :=
  rows <-! refusing errForwardAttachment (ask (CqParts (ID original))) ;
  if HasAttachments original && bool_decide (length rows = 0%nat) then Ret (Err errForwardAttachment)
  else
    source <- local (ask (LqParse (RawMessage (Stored original)))) ;
    let metadata := match source with Ok m => Emails.Inline m ++ Emails.Attachments m | Err _ => [] end in
    parts <-! read_stored rows (maxForwardBytes h) metadata ;
    Ret (Ok (fst parts ++ List.filter (fun a => (Emails.Size a =? 0) && bool_decide (Emails.AContent a = "")) (snd parts))).

(** ** sendComposedMessage *)

(** What follows the pipeline and the limits. [parts]: [None] for no forward. *)
Definition compose (h : Handler) (mb : Account) (r : sendMessageRequest) (parts : option (list Emails.Attachment)) (references : string)
    (extra : gmap string string) (trace : option traceInputs) : P (result refusal answer) :=
  invited <-! invitation mb r ;
  messageID <- mailbox (NewMessageID (Threads.DomainFromAddress (RqFrom r))) ;
  now <- now_ ;
  references <-! (if negb (bool_decide (RqInReplyTo r = "")) || bool_decide (references = "")
                  then refusing (internal "Failed to look up the reply parent") (mailbox (ReferencesForReply (AcID mb) (RqInReplyTo r)))
                  else Ret (Ok references)) ;
  threadID <-! refusing (internal "Failed to look up the reply thread") (mailbox (ResolveThreadID (AcID mb) messageID (RqInReplyTo r) references)) ;
  let copy := sent_copy mb r messageID references threadID now (fst <$> invited) in
  match parts with
  | Some parts => commitForward h mb r copy (outgoing mb r messageID references now extra None) parts trace
  | None => send_plain h mb r (fun raw => copy raw false) (outgoing mb r messageID references now extra invited []) trace
  end.
Definition sendComposedMessage (h : Handler) (claims : option Claims) (req : sendMessageRequest) (parts : option (list Emails.Attachment))
    (references : string) : P (result refusal answer) :=
  match claims with
  | None => Ret (Err (unauthorized "Authentication required"))
  | Some c =>
      _ <-! Ret (check_request h req) ;
      allowed <- (if layeredLimits h then Ret true else ask (CqAllow (itoa (AccountID c)))) ;
      if negb allowed then Ret (Err (Refuse 429 "rate_limited" "Account send rate limit exceeded; try again later"))
      else
        found <-! resolve_sender c req ;
        let '(mb, r) := found in
        _ <-! check_policy mb r ;
        match ScheduledAt r with
        | Some at_ => schedule c r at_
        | None =>
            piped <-! match engine h with Some e => run_outbound h e c mb r parts | None => Ret (Ok (Went r parts ∅ None)) end ;
            match piped with
            | Stopped a => Ret (Ok a)
            | Went r parts extra trace =>
                held <-! (if layeredLimits h then reserveLayeredSend h c r parts (AcID mb) "" else Ret (Ok None)) ;
                match held with
                | Some row => Ret (Ok (Accepted row))
                | None => compose h mb r parts references extra trace
                end
            end
        end
  end.
Definition sendMessageWithParts (h : Handler) (claims : option Claims) (req : sendMessageRequest) (parts : option (list Emails.Attachment))
    : P (result refusal answer) := sendComposedMessage h claims req parts "".
Definition sendMessage (h : Handler) (claims : option Claims) (req : sendMessageRequest) : P (result refusal answer) :=
  sendMessageWithParts h claims req None.

(** ** Forwards and drafts *)

Record forwardBody := { FwOnBehalf : bool; FwFrom : string; FwTo : list string; FwText : string; FwUnsubscribe : option listUnsubscribe }.
Definition composed (onBehalf : bool) (from : string) (to cc : list string) (subject text html inReplyTo : string) (l : option listUnsubscribe)
    : sendMessageRequest := {|
  OnBehalf := onBehalf; RqSender := ""; RqFrom := from; RqTo := to; RqCc := cc; RqBcc := []; RqSubject := subject; RqBodyText := text;
  RqBodyHTML := html; RqInReplyTo := inReplyTo; RqCalendar := None; RqListUnsubscribe := l; RqRequireTLS := false; ScheduledAt := None |}.
Definition forwardMessage (h : Handler) (claims : option Claims) (id : Z) (body : forwardBody) : P (result refusal answer) :=
  original <-! mailbox (ownedMessage claims id Held.CapMailRead) ;
  let missing := (if bool_decide (FwFrom body = "") then ["from"] else []) ++ (if bool_decide (FwTo body = []) then ["to"] else []) in
  if negb (bool_decide (missing = [])) then Ret (Err (Invalid missing))
  else
    let content := Parts original in
    let '(text, html) := forwardBodies (FwText body) (Sender content) (Subject content) (BodyText content) (BodyHTML content) in
    parts <-! readForwardParts h original ;
    sendMessageWithParts h claims
      (composed (FwOnBehalf body) (FwFrom body) (FwTo body) [] ("Fwd: " +:+ Subject content) text html "" (FwUnsubscribe body)) (Some parts).

Record sendDraftBody := { SbOnBehalf : bool; SbUnsubscribe : option listUnsubscribe }.
Definition in_transaction (held : option Z) (release : bool) (h : Handler) : Handler := {|
  engine := engine h; maxRecipients := maxRecipients h; layeredLimits := layeredLimits h; inTransaction := true; heldID := held; releasing := release;
  maxForwardBytes := maxForwardBytes h; zone := zone h |}.
Definition for_row (id : Z) (h : Handler) : Handler := {|
  engine := engine h; maxRecipients := maxRecipients h; layeredLimits := layeredLimits h; inTransaction := inTransaction h; heldID := Some id;
  releasing := releasing h; maxForwardBytes := maxForwardBytes h; zone := zone h |}.
Definition sentDraftRemovalAttempts : nat := 2.
Fixpoint removeSentDraft (attempts : nat) (id : Z) : P (result unit unit) :=
  match attempts with
  | O => Ret (Err tt)
  | Datatypes.S more => gone <- ask (CqDelete id) ; match gone with Ok _ => Ret (Ok tt) | Err _ => removeSentDraft more id end
  end.
Definition sendDraftInTransaction (h : Handler) (c : Claims) (id : Z) (body : option sendDraftBody) : P (result refusal answer) :=
  found <-! refusing Messages.Mailboxes.errDraftUnread (store_ (MDraft id)) ;
  match found with
  | None => Ret (Err Messages.Mailboxes.errDraftNotFound)
  | Some draft =>
      _ <-! mailbox (Messages.Mailboxes.draftAccess c draft) ;
      let content := Parts draft in
      let to := unmarshal_strings (RecipientsTo content) in
      if bool_decide (to = []) then Ret (Err (Refuse 400 "bad_request" "Draft has no recipients"))
      else
        sent <-! sendComposedMessage h (Some c)
          (composed (match body with Some b => SbOnBehalf b | None => false end) (Sender content) to (unmarshal_strings (RecipientsCc content))
             (Subject content) (BodyText content) (BodyHTML content) (Threads.PInReplyTo (Ids draft))
             (match body with Some b => SbUnsubscribe b | None => None end))
          None (Threads.PReferences (Ids draft)) ;
        _ <-! refusing errDeferred (removeSentDraft sentDraftRemovalAttempts (ID draft)) ;
        Ret (Ok sent)
  end.
(** An error that is no refusal of its own is answered 503. *)
Definition deferred_failure (e : refusal) : refusal := match e with Failed _ => errDeferred | _ => e end.
Definition sendDraft (h : Handler) (claims : option Claims) (id : Z) (body : option sendDraftBody) : P (result refusal answer) :=
  match claims with
  | None => Ret (Err errAuthenticationRequired)
  | Some c =>
      ran <- staged draft_effects (transaction (sendDraftInTransaction (in_transaction (heldID h) (releasing h) h) c id body)) [] ;
      match fst ran with
      | Err e => Ret (Err (deferred_failure e))
      | Ok a => replay (snd ran) ;; Ret (Ok a)
      end
  end.

(** ** scheduled_send.go *)

Definition scheduledSendBatch : nat := 10.
Definition scheduledSendRetry : Duration := Minute.
Definition scheduledSendMaxAttempts : Z := 10.
Definition scheduledSendStaleAfter : Duration := 10 * Minute.
Definition truncateForStore (s : string) : string := take_bytes 500 s.
Definition finishScheduled (id : Z) (status : string) (message : option Z) (error : string) : P unit :=
  scheduled (SFinish id status message (truncateForStore error)) ;; Ret tt.
Definition status_of (e : refusal) : Z := match e with Refuse code _ _ => code | Invalid _ => 422 | Failed _ => 500 | TooMany _ => 429 end.
Definition plain_claims (account : Z) (session : string) (credential : Z) (kind : string) : Claims := {|
  Auth.ID := ""; Auth.Subject := ""; Auth.Issuer := ""; Auth.IssuedAt := GoTime.zero; Auth.ExpiresAt := GoTime.zero; Auth.AccountID := account;
  Auth.Address := ""; Auth.AMR := []; Auth.TwoFactor := false; Auth.AuthTime := None; Auth.SetupPending := false; Auth.CredentialEpoch := 0;
  Auth.SessionID := session; Auth.TokenType := ""; Auth.MachineCredentialID := 0; Auth.CredentialID := credential; Auth.CredentialKind := kind;
  Auth.APIKeyPermissions := []; Auth.GatewaySessionID := 0; Auth.GatewayService := ""; Auth.GatewayProtocol := "" |}.
Definition account_alone (id : Z) : Account := {|
  AcID := id; AcAddress := ""; DisplayName := ""; Active := false; PasswordChangeRequired := false; TwoFactorRequired := false; Epoch := 0;
  BootstrapExpiresAt := None; LastPasswordChange := None; LastLoginAt := None; AcDomain := 0; AcOwner := None |}.
(** Whom the row is sent for; [None] when its credential no longer works. *)
Definition submitter (s : ScheduledSend) : P (option Claims) :=
  if SsCredential s =? 0 then Ret (Some (plain_claims (SsAccount s) (SsSession s) 0 ""))
  else
    found <- ask (CqCredential (SsCredential s)) ;
    now <- now_ ;
    Ret (match found with
         | Ok (Some cred) =>
             if negb (CrAccount cred =? SsAccount s) || negb (CredentialUsable cred now) then None
             else if bool_decide (Kind cred = CredentialKindAPIKey) then Some (APIKeyClaims cred (account_alone (SsAccount s)))
             else Some (plain_claims (SsAccount s) (SsSession s) (CrID cred) (Kind cred))
         | _ => None
         end).
Definition retried (s : ScheduledSend) (e : refusal) : P unit :=
  if ((status_of e =? 429) || (500 <=? status_of e)) && (Attempts s + 1 <? scheduledSendMaxAttempts) then
    now <- now_ ;
    done <- scheduled (SRetry (SsID s) (Attempts s + 1) (now + scheduledSendRetry) (truncateForStore (error_body e))) ;
    match done with Ok _ => Ret tt | Err _ => finishScheduled (SsID s) failed None (error_body e) end
  else finishScheduled (SsID s) failed None (error_body e).
Definition deliverScheduled (h : Handler) (s : ScheduledSend) : P unit :=
  match SsRequest s with
  | None => finishScheduled (SsID s) failed None "could not read the stored message: "
  | Some req =>
      who <- submitter s ;
      match who with
      | None => finishScheduled (SsID s) failed None "The submitting credential is no longer usable"
      | Some c =>
          outcome <- sendMessage (for_row (SsID s) h) (Some c) (to_be_sent_now req) ;
          match outcome with
          | Ok (Accepted row) => if bool_decide (SsStatus row = held_) then Ret tt else finishScheduled (SsID s) sent None ""
          | Ok (Created m) => finishScheduled (SsID s) sent (Some (ID m)) ""
          | Ok Discarded => finishScheduled (SsID s) sent None ""
          | Err e => retried s e
          end
      end
  end.
Fixpoint deliver_due (h : Handler) (due : list ScheduledSend) : P unit :=
  match due with
  | [] => Ret tt
  | s :: rest =>
      claimed <- scheduled (SClaim (SsID s)) ;
      match claimed with Ok true => deliverScheduled h s | _ => Ret tt end ;;
      deliver_due h rest
  end.
Definition runScheduledSends (h : Handler) : P unit :=
  now <- now_ ;
  due <- scheduled (SDue now scheduledSendBatch) ;
  match due with Ok l => deliver_due h l | Err _ => Ret tt end.
Definition StartScheduledSender : P unit := now <- now_ ; scheduled (SReturnStale (now - scheduledSendStaleAfter)) ;; Ret tt.

Definition errNoScheduledSend : refusal := Refuse 404 "not_found" "No scheduled message with that ID is waiting".
Definition on_behalf (s : ScheduledSend) : bool := match SsRequest s with Some r => OnBehalf r | None => false end.
Definition mayCallBack (c : Claims) (address : string) (onBehalf : bool) : P (result unit bool) :=
  reached <- accounts (maySendFrom c address onBehalf) ;
  Ret (match reached with Ok _ => Ok true | Err AccessFailed => Err tt | Err _ => Ok false end).
(** [allowed]: what was found of a sender and a mode before. *)
Fixpoint visible (c : Claims) (rows : list ScheduledSend) (allowed : gmap string bool) : P (result unit (list ScheduledSend)) :=
  match rows with
  | [] => Ret (Ok [])
  | s :: rest =>
      let key := if on_behalf s then SsFrom s +:+ ":on_behalf" else SsFrom s in
      may <-! match allowed !! key with Some b => Ret (Ok b) | None => mayCallBack c (SsFrom s) (on_behalf s) end ;
      more <-! visible c rest (<[key := may]> allowed) ;
      Ret (Ok (if may : bool then s :: more else more))
  end.
Definition listScheduledSends (claims : option Claims) : P (result refusal (list ScheduledSend)) :=
  match claims with
  | None => Ret (Err errAuthenticationRequired)
  | Some c =>
      rows <-! refusing (internal "Failed to list scheduled messages") (scheduled (SWaiting (AccountID c))) ;
      refusing (internal "Failed to list scheduled messages") (visible c rows ∅)
  end.
Definition cancelScheduledSend (claims : option Claims) (id : Z) : P (result refusal unit) :=
  match claims with
  | None => Ret (Err errAuthenticationRequired)
  | Some c =>
      found <-! refusing (internal "Failed to cancel the scheduled message") (scheduled (SMine id (AccountID c))) ;
      match found with
      | None => Ret (Err errNoScheduledSend)
      | Some s =>
          may <-! refusing (internal "Failed to cancel the scheduled message") (mayCallBack c (SsFrom s) (on_behalf s)) ;
          if negb may then Ret (Err errNoScheduledSend)
          else
            done <-! refusing (internal "Failed to cancel the scheduled message") (scheduled (SCancel (SsID s))) ;
            Ret (if done : bool then Ok tt else Err errNoScheduledSend)
      end
  end.

(** ** send_limits.go: what is held, and its release *)

Definition humanSendLimitSession (claims : option Claims) : result refusal Claims :=
  match claims with
  | None => Err errAuthenticationRequired
  | Some c =>
      if negb (TwoFactor c) || negb (CredentialID c =? 0) || negb (bool_decide (CredentialKind c = "")) || bool_decide (SessionID c = "")
      then Err (Refuse 403 "two_factor_required" "Sign in as a person with two-factor authentication") else Ok c
  end.
Definition limitService (h : Handler) : result refusal unit :=
  if layeredLimits h then Ok tt else Err (Refuse 503 "unavailable" "Persistent send limits are not configured").
Definition heldMessagesListed : nat := 200.
Definition listHeldMessages (claims : option Claims) (id : Z) : P (result refusal (list ScheduledSend)) :=
  match claims with
  | None => Ret (Err errAuthenticationRequired)
  | Some c =>
      _ <-! mailbox (reach c id Held.CapMailRead errAccountNotFound "check the account") ;
      refusing (Failed "list held messages") (scheduled (SHeldOf id heldMessagesListed))
  end.
Definition release_in_transaction (h : Handler) (c : Claims) (id : Z) : P (result refusal (Z * ScheduledSend)) :=
  found <-! refusing (Failed "read the held message") (scheduled (SRead id)) ;
  match found with
  | None => Ret (Err errNoScheduledSend)
  | Some s =>
      _ <-! mailbox (reach c (SsAccount s) Held.CapMailboxManage errNoScheduledSend "check the account") ;
      if negb (bool_decide (SsStatus s = held_)) then Ret (Err (Refuse 409 "not_held" "The message is not held"))
      else match SsRequest s with
           | None => Ret (Err (Failed "read the held request"))
           | Some req =>
               out <-! sendMessageWithParts (in_transaction (Some (SsID s)) true h) (Some c) (to_be_sent_now req) (SsParts s) ;
               _ <-! match out with
                     | Accepted _ => Ret (Ok tt)
                     | Created m => refusing (Failed "update the held message") (scheduled (SFinish (SsID s) sent (Some (ID m)) ""))
                     | Discarded => refusing (Failed "update the held message")
                                      (scheduled (SFinish (SsID s) cancelled None "Discarded by outbound policy"))
                     end ;
               again <-! refusing (Failed "read the held message") (scheduled (SRead (SsID s))) ;
               match again with
               | None => Ret (Err (Failed "read the held message"))
               | Some row =>
                   let code := match out with Accepted _ => 202 | _ => 200 end in
                   _ <-! refusing (Failed "audit") (ask (CqAudit "send_limits.release" code (SsID s) (SsAccount s))) ;
                   Ret (Ok (code, row))
               end
           end
  end.
Definition releaseHeldSend (h : Handler) (claims : option Claims) (id : Z) : P (result refusal (Z * ScheduledSend)) :=
  c <-! Ret (humanSendLimitSession claims) ;
  _ <-! Ret (limitService h) ;
  ran <- staged draft_effects (transaction (release_in_transaction h c id)) [] ;
  match fst ran with
  | Err e => Ret (Err e)
  | Ok a => replay (snd ran) ;; Ret (Ok a)
  end.
End Sending.
End Compose.
