(* ===== verification/ComposeFacts.v ===== *)
(** * What sending from an account promises

    [send_authorized]: nothing is stored, queued or put in a From header but under an address
    the request was found to be allowed to send from; this is about what the handlers write,
    and what a filter of the outbound pipeline writes is behind the engine's own questions.
    [sent_means_sent]: a message is answered when its Sent copy is stored and every recipient
    has a stored queue row or had a delivery run. [scheduled_settled]: a due message that was
    claimed never stays claimed. *)

From S2P Require Import Prelude GoTime GoStrings MailAddress Smtp Send Prog MailStore Grants Pipeline Emails SendLimits StorageQuota.
From S2P Require Import Recipients Auth Accounts SignIn Access AccessFacts Threads MessageStore Messages Forwards LocalDelivery ComposeText Compose.
From Stdlib Require Import Ascii.
Import GoTime GoStrings Auth Prog History Accounts SignIn Access AccessFacts MessageStore Messages Forwards LocalDelivery Compose.
Local Open Scope Z_scope.

Module ComposeFacts.

(** ** Programs within programs *)

Lemma always_within {Q Q' : Type -> Type} (f : forall X, Q X -> Q' X) {A} (t : test Q') (p : prog Q A) post :
  always t (within f p) post <-> always (fun X q => t X (f X q)) p post.
Proof.
  unfold always. induction p as [a|X q k IH]; [done|]. cbn. split; intros W x; specialize (W x); unfold stateless in *;
    destruct (t X (f X q)); try done; by apply IH.
Qed.
Lemma always_anything {Q : Type -> Type} {A} (t : test Q) (p : prog Q A) : (forall X q, t X q = true) -> always t p (fun _ => True).
Proof.
  intros T. unfold always. induction p as [a|X q k IH]; [done|]. intros x. unfold stateless. rewrite T. apply IH.
Qed.
Lemma always_failing `{Unicode} {Filter E F X} (t : test (@LocalDelivery.Q Filter)) (e : F) (p : prog LocalDelivery.Q (result E X)) post :
  always t p (fun r => post (match r with Ok a => Ok a | Err _ => Err e end)) -> always t (failing e p) post.
Proof. intros W. unfold failing. apply always_then. eapply always_mono; [|exact W]. intros [a|x] K; exact K. Qed.

(** ** Under one address *)

Section Senders.
Context `{Unicode, AuthLib, MailLib, CursorLib, DeliveryLib, PolicyLib, NamedLib, WebLib, ErrorLib}.
Context {Filter : Type}.
Abbreviation Q := (@Compose.Q Filter).
Abbreviation P := (prog Q).

(** The addresses a question puts a message under: whom a row is from, a From field. *)
Definition written_db {X} (s : M X) : list string :=
  match s with
  | MCreate m | MDeliver m _ _ => [Sender (Parts m)]
  | MHold h => [HlSender h]
  | MQueue rows => QuSender <$> rows
  | _ => []
  end.
Definition written_mail {X} (q : Messages.Q X) : list string := match q with Messages.QDb s => written_db s | _ => [] end.
Definition written_local {X} (q : @LocalDelivery.Q Filter X) : list string := match q with LqMail q => written_mail q | _ => [] end.
Definition written {X} (q : Q X) : list string :=
  match q with
  | CqLocal q => written_local q
  | CqScheduled s => match s with SCreate row | SHold _ row => [SsFrom row] | _ => [] end
  | CqSerialize m => Emails.AAddress <$> Emails.From (Emails.EHeaders m)
  | _ => []
  end.
Definition all_from (a : string) (l : list string) : bool := forallb (fun b => bool_decide (b = a)) l.
Definition local_from (a : string) : test (@LocalDelivery.Q Filter) := fun X q => all_from a (written_local q).
Definition only_from (a : string) : test Q := fun X q => all_from a (written q).

Lemma forwards_from targets seen emitted sender raw domain auth : forall row,
  row ∈ forwards_to targets seen emitted sender raw domain auth -> QuSender row = sender.
Proof.
  revert emitted. induction targets as [|t targets IH]; intros emitted row; cbn [forwards_to]; [by intros I%elem_of_nil|].
  destruct (bool_decide _ || _ || _); [by apply IH|]. destruct (bool_decide _); [by apply IH|].
  intros [-> |I]%elem_of_cons; [done|by eapply IH].
Qed.
Lemma redirects_from m raw sender rs domain auth : forall row, row ∈ buildRedirectForwards m raw sender rs domain auth -> QuSender row = sender.
Proof. intros row. unfold buildRedirectForwards. destruct (bool_decide _); [by intros I%elem_of_nil|]. apply forwards_from. Qed.
Lemma queue_forwards_from a rows n : (forall row, row ∈ rows -> QuSender row = a) -> always (local_from a) (queue_forwards rows n) (fun _ => True).
Proof.
  revert n. induction rows as [|row rows IH]; intros n F; [done|]. cbn [queue_forwards]. apply always_then.
  apply always_within. apply always_ask_done.
  - cbn. by rewrite bool_decide_eq_true_2 by by apply F; left.
  - intros x. apply IH. intros r I. apply F. by right.
Qed.
Ltac step_from :=
  lazymatch goal with
  | |- always _ (failing _ _) _ => apply always_failing
  | |- always _ (LocalDelivery.mail _) _ => unfold LocalDelivery.mail
  | |- always _ (within _ (Ask _ _)) _ => cbn [within]
  | |- always _ (within _ _) _ => apply always_within
  | |- always _ (recordTrace _) _ => unfold recordTrace
  | |- always _ (Messages.db _) _ => unfold Messages.db
  | |- always _ (publish _ _) _ => unfold publish
  | |- always _ (NewMessageID _) _ => unfold NewMessageID
  | |- always _ (ResolveThreadID _ _ _ _) _ => unfold ResolveThreadID
  | |- _ => Prog.walk_step
  end.
Ltac from := repeat (cbn beta iota zeta; step_from); cbn beta iota zeta; try done.
Lemma localInboundPolicy_from a mb : always (local_from a) (localInboundPolicy mb) (fun _ => True).
Proof. unfold localInboundPolicy, inbound_config. from. Qed.
Lemma runPipeline_from e p m : always (local_from (LdSender p)) (runPipeline e p m) (fun _ => True).
Proof.
  unfold runPipeline. apply always_try. eapply always_mono; [|apply localInboundPolicy_from]. intros [cfg|er] _; [|done].
  destruct (stageOf _ _ _ _) as [[stage run] m']. apply always_then, always_ask_done; [done|]. intros r. apply always_then, always_within.
  eapply always_mono; [|apply always_anything; done]. intros ran _. from. all: cbn; by rewrite bool_decide_eq_true_2.
Qed.
Lemma store_from p parsed m auth trace : always (local_from (LdSender p)) (store p parsed m auth trace) (fun _ => True).
Proof.
  unfold store. apply always_then. eapply always_mono; [|apply queue_forwards_from].
  - intros n _. from. all: cbn; by rewrite bool_decide_eq_true_2.
  - intros row (r & -> & I)%list_elem_of_fmap. cbn. by eapply redirects_from.
Qed.
Lemma deliverToLocal_from e p : always (local_from (LdSender p)) (deliverToLocal e p) (fun _ => True).
Proof.
  unfold deliverToLocal. apply always_try. eapply (always_mono _ _ (fun _ => True)); [|from].
  intros [[]|er] _; [|done]. apply always_try. eapply (always_mono _ _ (fun _ => True)); [|from].
  intros [consumed|er] _; [|done]. destruct consumed; [done|]. cbv zeta.
  set (p' := with_source _ p). change (LdSender p) with (LdSender p').
  apply always_then. eapply (always_mono _ _ (fun _ => True)); [|from]. intros first _.
  destruct first as [parsed|[]]; [| done|]; (apply always_try; eapply (always_mono _ _ (fun _ => True));
    [intros [[m auth trace|]|er] _; [apply store_from|done|done]|destruct e; [apply runPipeline_from|done]]).
Qed.

(** The same for a send: [a] is whom the request is from. *)
Lemma always_refusing {E F X} (t : test Q) (e : F) (p : P (result E X)) post :
  always t p (fun r => post (match r with Ok a => Ok a | Err _ => Err e end)) -> always t (refusing e p) post.
Proof. intros W. unfold refusing. apply always_then. eapply always_mono; [|exact W]. intros [x|x] K; exact K. Qed.
Lemma always_staged {A} (t : test Q) mode (p : P A) later : always t p (fun _ => True) -> always t (staged mode p later) (fun _ => True).
Proof.
  unfold always. revert later. induction p as [r|X q k IH]; intros later W; [done|]. cbn [staged wp] in *.
  assert (K : forall l, wp (stateless t) tt (Ask q (fun x => staged mode (k x) l)) (fun _ _ => True)).
  { intros l x. specialize (W x). unfold stateless in *. destruct (t X q); [by apply IH|done]. }
  destruct (effect_of q) as [[e y]|]; [|apply K]. specialize (W y). unfold stateless in W. destruct (t X q) eqn:T; [|done].
  destruct (mode e); [apply K|by apply IH|by apply IH].
Qed.
Ltac from_to L := eapply (always_mono _ _ (fun _ => True)); [|apply L].
Ltac step_send :=
  lazymatch goal with
  | |- always _ (refusing _ _) _ => apply always_refusing
  | |- always _ (Compose.local _) _ => unfold Compose.local
  | |- always _ (mailbox _) _ => unfold mailbox, Compose.local
  | |- always _ (accounts _) _ => unfold accounts, mailbox, Compose.local
  | |- always _ (store_ _) _ => unfold store_, mailbox, Compose.local
  | |- always _ (scheduled _) _ => unfold scheduled
  | |- always _ now_ _ => unfold now_, mailbox, Compose.local
  | |- always _ (publish_ _ _) _ => unfold publish_, mailbox, Compose.local
  | |- always _ (Messages.ReferencesForReply _ _) _ => unfold Messages.ReferencesForReply
  | |- always _ (staged _ _ _) _ => apply always_staged
  | |- _ => step_from
  end.
Ltac send := repeat (cbn beta iota zeta; step_send); cbn beta iota zeta; try done.
Lemma schedule_from c r at_ : always (only_from (RqFrom r)) (schedule c r at_) (fun _ => True).
Proof. unfold schedule. send. cbn. by rewrite bool_decide_eq_true_2. Qed.
Lemma forwardPartBytes_from a x n : always (only_from a) (forwardPartBytes x n) (fun _ => True).
Proof. unfold forwardPartBytes. send. Qed.
Lemma read_parts_from a keep parts n : always (only_from a) (read_parts keep parts n) (fun _ => True).
Proof.
  revert n. induction parts as [|x parts IH]; intros n; [done|]. cbn [read_parts]. apply always_try. from_to forwardPartBytes_from.
  intros [d|er] _; [|done]. apply always_try. from_to IH. by intros [l|er].
Qed.
Lemma hold_from h row : always (only_from (SsFrom row)) (hold h row) (fun _ => True).
Proof. unfold hold. send. all: cbn; by rewrite bool_decide_eq_true_2. Qed.
Lemma reserveLayeredSend_from h c r parts sender force : always (only_from (RqFrom r)) (reserveLayeredSend h c r parts sender force) (fun _ => True).
Proof.
  unfold reserveLayeredSend. apply always_then, always_ask_done; [done|]. intros [[hit|]|er]; [|done|by destruct er].
  apply always_try. eapply (always_mono _ _ (fun _ => True)).
  - intros [kept|er] _; [|done]. apply always_try. from_to (hold_from h (held_send c r kept hit)). intros [row|er] _; [|done]. send.
  - destruct parts as [l|]; [|done]. apply always_try, always_refusing. from_to read_parts_from. by intros [x|x].
Qed.
Lemma transformed_from m r : RqFrom (transformed m r) = RqFrom r.
Proof. unfold transformed. by destruct (Outgoing.TextAndHTML _). Qed.
Lemma run_outbound_from h e c mb r parts : always (only_from (RqFrom r)) (run_outbound h e c mb r parts)
  (fun o => match o with Ok (Went r' _ _ _) => RqFrom r' = RqFrom r | _ => True end).
Proof.
  unfold run_outbound. apply always_then. eapply (always_mono _ _ (fun _ => True)); [|unfold outbound_config; send]. intros cfg _.
  apply always_then. eapply (always_mono _ _ (fun _ => True)); [|send]. intros ptr _.
  apply always_then. eapply (always_mono _ _ (fun _ => True)); [|unfold Compose.local; do 2 apply always_within; by apply always_anything].
  intros [result|] _; [|done]. apply always_then. eapply (always_mono _ _ (fun _ => True)); [|send]. intros seen _. cbv zeta.
  destruct (bool_decide _); [send|]. destruct (bool_decide _); [send|]. destruct (bool_decide _); [send|]. destruct (bool_decide _).
  - apply always_then, always_ask_done; [done|]. intros []. destruct (layeredLimits h); [|done]. apply always_try. from_to reserveLayeredSend_from.
    by intros [[row|]|er].
  - destruct (bool_decide _); [|done]. apply always_then. eapply (always_mono _ _ (fun _ => True)); [|send]. intros final _. apply transformed_from.
Qed.
Lemma invitation_from a mb r : always (only_from a) (invitation mb r) (fun _ => True).
Proof. unfold invitation. send. Qed.
Lemma signed_raw_from h r what m : Outgoing.OmFrom m = RqFrom r -> always (only_from (RqFrom r)) (signed_raw h r what m) (fun _ => True).
Proof.
  intros F. unfold signed_raw. apply always_try, always_refusing, always_ask_done; [cbn; by rewrite F, bool_decide_eq_true_2|].
  intros [raw|er]; [|done]. apply always_try, always_refusing, always_within. eapply always_mono; [|by apply always_anything]. by intros [s|s].
Qed.
Definition rows_from (a : string) (o : result refusal (list Store.Mailbox * list Queued)) : Prop :=
  match o with Ok (_, rows) => all_from a (QuSender <$> rows) = true | Err _ => True end.
Lemma place_from a rcpts row : (forall rcpt, QuSender (row rcpt) = a) -> always (only_from a) (place rcpts row) (rows_from a).
Proof.
  intros F. induction rcpts as [|x rcpts IH]; [done|]. cbn [place]. apply always_then, always_ask_done; [done|].
  assert (MORE : forall g, (forall l rows, rows_from a (Ok (l, rows)) -> always (only_from a) (g (l, rows)) (rows_from a)) ->
    always (only_from a) (try_ (place rcpts row) g) (rows_from a)).
  { intros g G. apply always_try. eapply always_mono; [|exact IH]. intros [[l rows]|er] K; [by apply G|done]. }
  intros [box|[| |]]; try done; apply MORE; intros l rows K; cbn in *; try done; by rewrite F, bool_decide_eq_true_2.
Qed.
Lemma deliver_locals_from h copy boxes a : (forall box, LdSender (copy box) = a) -> always (only_from a) (deliver_locals h copy boxes) (fun _ => True).
Proof.
  intros F. induction boxes as [|box boxes IH]; [done|]. cbn [deliver_locals]. apply always_then. unfold Compose.local. apply always_within.
  rewrite <- (F box). from_to deliverToLocal_from. rewrite (F box). intros [m|er] _; [done|]. by destruct (inTransaction h).
Qed.
Lemma collect_from a mb rcpts : always (only_from a) (collect mb rcpts) (fun _ => True).
Proof. induction rcpts as [|x rcpts IH]; [done|]. cbn [collect]. by apply always_then, always_ask_done. Qed.
Lemma send_plain_from h mb r m out trace : Outgoing.OmFrom out = RqFrom r -> (forall raw, Sender (Parts (m raw)) = RqFrom r) ->
  always (only_from (RqFrom r)) (send_plain h mb r m out trace) (fun _ => True).
Proof.
  intros F M. unfold send_plain. apply always_try. from_to (signed_raw_from h r "Failed to build the outbound message" out F). intros [raw|er] _; [|done].
  apply always_try. eapply (always_mono _ _ (fun _ => True)); [|send; cbn; by rewrite M, bool_decide_eq_true_2]. intros [stored|er] _; [|done].
  apply always_then. eapply (always_mono _ _ (fun _ => True)); [|unfold record_queued; send]. intros [] _.
  apply always_try. eapply always_mono; [|by apply place_from]. intros [[boxes rows]|er] K; [|done].
  apply always_try. eapply (always_mono _ _ (fun _ => True)); [|cbn [snd]; destruct (bool_decide _); send]. intros [[]|er] _; [|done].
  apply always_try. from_to deliver_locals_from; [|done]. intros [[]|er] _; [|done]. apply always_then. eapply (always_mono _ _ (fun _ => True)); [|send].
  intros [] _. apply always_then. from_to collect_from. done.
Qed.
Lemma store_parts_from a m parts : always (only_from a) (store_parts m parts) (fun _ => True).
Proof. induction parts as [|x parts IH]; [done|]. cbn [store_parts]. send. Qed.
Lemma hand_over_from h rcpts copy row made later a : (forall box, LdSender (copy box) = a) -> (forall rcpt, QuSender (row rcpt) = a) ->
  always (only_from a) (hand_over h rcpts copy row made later) (fun _ => True).
Proof.
  intros F R. revert made later. induction rcpts as [|x rcpts IH]; intros made later; [done|]. cbn [hand_over]. apply always_then, always_ask_done; [done|].
  intros [box|[| |]]; [| |done|done].
  - apply always_then. eapply (always_mono _ _ (fun _ => True)); [by intros [[m|er] l] _; [apply IH|]|].
    apply always_staged. unfold Compose.local. apply always_within. rewrite <- (F box). apply deliverToLocal_from.
  - send. cbn. by rewrite R, bool_decide_eq_true_2.
Qed.
Lemma announce_all_from a made : always (only_from a) (announce_all made) (fun _ => True).
Proof.
  induction made as [|m made IH]; [done|]. cbn [announce_all]. apply always_then. unfold announce. eapply (always_mono _ _ (fun _ => True)); [done|]. send.
Qed.
Lemma replay_from a later : always (only_from a) (replay later) (fun _ => True).
Proof.
  induction later as [|e later IH]; [done|]. cbn [replay]. apply always_then. eapply (always_mono _ _ (fun _ => True)); [done|]. destruct e; cbn [perform]; send.
Qed.
Lemma always_transaction {A} a (p : P (result refusal A)) : always (only_from a) p (fun _ => True) -> always (only_from a) (transaction p) (fun _ => True).
Proof.
  intros W. unfold transaction. apply always_try, always_refusing, always_ask_done; [done|]. intros [[]|[]]; [|done]. apply always_then.
  eapply always_mono; [|exact W]. intros [x|er] _; send.
Qed.
Lemma commitForward_from h mb r m out parts trace : (forall l, Outgoing.OmFrom (out l) = RqFrom r) -> (forall raw att, Sender (Parts (m raw att)) = RqFrom r) ->
  always (only_from (RqFrom r)) (commitForward h mb r m out parts trace) (fun _ => True).
Proof.
  intros F M. unfold commitForward. apply always_try. from_to read_parts_from. intros [l|er] _; [|done].
  apply always_try. from_to (signed_raw_from h r "Failed to build the forwarded message" (out l) (F l)). intros [raw|er] _; [|done].
  destruct (maxForwardBytes h <? len raw); [done|]. apply always_try. eapply (always_mono _ _ (fun _ => True)).
  - intros [[[stored made] later]|er] _; [|done]. apply always_then. from_to replay_from. intros [] _.
    apply always_then. eapply (always_mono _ _ (fun _ => True)); [|unfold record_queued; send]. intros [] _. apply always_then.
    eapply (always_mono _ _ (fun _ => True)); [|send]. intros [] _. apply always_then. from_to announce_all_from. intros [] _. apply always_then.
    from_to collect_from. done.
  - apply always_transaction. unfold commit_parts. apply always_then, always_ask_done; [done|]. intros reserved. apply always_try.
    eapply (always_mono _ _ (fun _ => True)); [|by destruct reserved as [|[]]]. intros [[]|er] _; [|done].
    apply always_try, always_refusing, always_ask_done; [done|]. intros [n|er]; [|done]. apply always_try.
    eapply (always_mono _ _ (fun _ => True)); [|by destruct (n =? 1)]. intros [[]|er] _; [|done].
    apply always_try. eapply (always_mono _ _ (fun _ => True)); [|send; cbn; by rewrite M, bool_decide_eq_true_2]. intros [stored|er] _; [|done].
    apply always_try. from_to store_parts_from. intros [[]|er] _; [|done]. apply always_try. from_to hand_over_from; [|done|done]. by intros [x|er].
Qed.
Lemma compose_from h mb r parts references extra trace : always (only_from (RqFrom r)) (compose h mb r parts references extra trace) (fun _ => True).
Proof.
  unfold compose. apply always_try. from_to invitation_from. intros [invited|er] _; [|done]. apply always_then.
  eapply (always_mono _ _ (fun _ => True)); [|send]. intros messageID _. apply always_then. eapply (always_mono _ _ (fun _ => True)); [|send]. intros now _.
  apply always_try. eapply (always_mono _ _ (fun _ => True)); [|destruct (_ || _); send]. intros [refs|er] _; [|done].
  apply always_try. eapply (always_mono _ _ (fun _ => True)); [|send]. intros [thread|er] _; [|done]. cbv zeta.
  destruct parts as [l|]; [by apply commitForward_from|by apply send_plain_from].
Qed.

(** ** What a request may send as *)

Abbreviation log_t := (list (event SignIn.Q)).
Abbreviation send_log := (list (event Q)).
Definition lifted (e : event SignIn.Q) : event Q := match e with History.Event q x => History.Event (CqLocal (LqMail (QAccount q))) x end.
Definition holds (log : send_log) (l : log_t) : Prop := forall e, e ∈ l -> lifted e ∈ log.
(** The request was found to reach a mailbox of this address with the capability its sending
    from it takes, on its own behalf or, with [true], on the other's. *)
Definition may_send (log : send_log) (c : Claims) (modes : list bool) (address : string) : Prop :=
  exists l id mb behalf, holds log l /\ behalf ∈ modes /\ reached l c id (send_capability c id behalf) (Ok mb) /\ AcAddress mb = address.
Definition authorized (c : Claims) (modes : list bool) : guard Q := fun log X q => forall a, a ∈ written q -> may_send log c modes a.

Lemma guarded_accounts {A} (g : guard Q) (p : prog SignIn.Q A) (post : log_t -> A -> Prop) log l0 :
  (forall lg X (q : SignIn.Q X), g lg X (CqLocal (LqMail (QAccount q)))) -> holds log l0 -> after l0 p post ->
  guarded g log (accounts p) (fun lg a => exists l, holds lg l /\ post l a).
Proof.
  intros G. revert log l0. induction p as [a|X q k IH]; intros log l0 K W; [by exists l0|]. intros x. split; [apply G|].
  destruct (W x) as [_ W']. apply (IH x) with (l0 := History.Event q x :: l0); [|done]. intros e [->|I]%elem_of_cons; [by left|right; by apply K].
Qed.
Lemma may_send_knows log log' c modes a : (forall e, lifted e ∈ log -> lifted e ∈ log') -> may_send log c modes a -> may_send log' c modes a.
Proof. intros K (l & id & mb & b & L & R). exists l, id, mb, b. split; [|done]. intros e I. by apply K, L. Qed.
Lemma may_send_grows log log' c modes a : grows log log' -> may_send log c modes a -> may_send log' c modes a.
Proof. intros G. apply may_send_knows. intros e. apply G. Qed.
Lemma all_from_elem a l b : all_from a l = true -> b ∈ l -> b = a.
Proof. unfold all_from. intros F I. rewrite forallb_elem in F. specialize (F b I). by apply bool_decide_eq_true in F. Qed.
Lemma from_authorized {A} c modes log a (p : P A) : may_send log c modes a -> always (only_from a) p (fun _ => True) ->
  guarded (authorized c modes) log p (fun _ _ => True).
Proof.
  unfold always. revert log. induction p as [r|X q k IH]; intros log M W; [done|]. intros x. specialize (W x). unfold stateless in W.
  destruct (only_from a X q) eqn:T; [|done]. split; [intros b I; by rewrite (all_from_elem _ _ _ T I)|].
  apply IH; [|done]. eapply may_send_grows; [apply grows_cons|exact M].
Qed.
Lemma send_told c address behalf : after [] (maySendFrom c address behalf)
  (fun l r => match r with Ok mb => exists id, reached l c id (send_capability c id behalf) (Ok mb) | Err _ => True end).
Proof.
  unfold maySendFrom, SignIn.or_else, SignIn.db. apply guarded_try, guarded_then, guarded_ask; [done|]. intros [[m|]|e]; apply guarded_ret; [|done|done].
  eapply guarded_mono; [|apply reach_told]. intros l [a|e] _ K; [|done]. by exists (AcID m).
Qed.
Lemma resolve_told c modes r log : OnBehalf r ∈ modes ->
  guarded (authorized c modes) log (resolve_sender c r)
    (fun lg o => match o with Ok (mb, r') => may_send lg c modes (AcAddress mb) /\ RqFrom r' = AcAddress mb | Err _ => True end).
Proof.
  intros B. assert (QUIET : forall lg X (q : SignIn.Q X), authorized c modes lg X (CqLocal (LqMail (QAccount q)))) by (intros lg X q a I; by apply elem_of_nil in I).
  unfold resolve_sender. apply guarded_then. eapply guarded_mono; [|eapply (guarded_accounts _ _ _ log []);
    [exact QUIET|by intros e I%elem_of_nil|apply send_told]].
  intros lg [mb|[]] _ (l & L & R); try done. destruct R as [id R].
  assert (M : may_send lg c modes (AcAddress mb)) by (by exists l, id, mb, (OnBehalf r)).
  destruct (OnBehalf r); [|done]. apply guarded_try. unfold refusing, SignIn.db. apply guarded_then, guarded_ask; [apply QUIET|].
  intros [[a|]|e]; apply guarded_ret; [|done|done]. split; [|done]. eapply may_send_grows; [apply grows_cons|exact M].
Qed.
Lemma composed_authorized h c modes req parts references log : OnBehalf req ∈ modes ->
  guarded (authorized c modes) log (sendComposedMessage h (Some c) req parts references) (fun _ _ => True).
Proof.
  intros B. unfold sendComposedMessage. apply guarded_try, guarded_ret. destruct (check_request h req) as [[]|]; [|done]. apply guarded_then.
  eapply (guarded_mono _ _ _ (fun _ _ => True)); [|destruct (layeredLimits h); [done|apply guarded_ask; [by intros a I%elem_of_nil|done]]].
  intros l1 [] _ _; [|done]. cbn [negb]. apply guarded_try. eapply guarded_mono; [|by apply resolve_told]. intros l2 [[mb r]|e] _ K; [|done].
  destruct K as [M F]. rewrite <- F in M. apply (from_authorized c modes l2 (RqFrom r)); [done|].
  apply always_try. eapply (always_mono _ _ (fun _ => True)); [|unfold check_policy, HasDKIMKey; send]. intros [[]|e] _; [|done].
  destruct (ScheduledAt r) as [at_|]; [apply schedule_from|]. apply always_try.
  eapply (always_mono _ _ (fun o => match o with Ok (Went r' _ _ _) => RqFrom r' = RqFrom r | _ => True end)); [|destruct (engine h); [apply run_outbound_from|done]].
  intros [[r' parts' extra trace|a]|e] E; try done. rewrite <- E. apply always_try. eapply (always_mono _ _ (fun _ => True)).
  - intros [[row|]|e] _; [done|apply compose_from|done].
  - destruct (layeredLimits h); [apply reserveLayeredSend_from|done].
Qed.

(** ** The routes a send starts from *)

Definition silent : test Q := fun X q => bool_decide (written q = []).
Ltac quiet := repeat (cbn beta iota zeta; step_send); cbn beta iota zeta; try done.
Lemma silent_authorized {A} c modes log (p : P A) (post : A -> Prop) : always silent p post ->
  guarded (authorized c modes) log p (fun _ a => post a).
Proof.
  intros W. eapply guarded_always; [|exact W|by intros l a _ K]. intros l X q T a I. apply bool_decide_eq_true in T. rewrite T in I. by apply elem_of_nil in I.
Qed.
Definition silences (e : event Q) : bool := match e with History.Event q _ => match effect_of q with Some _ => true | None => false end end.
Lemma staged_authorized {A} c modes mode (p : P A) log log' later : (forall e, lifted e ∈ log -> lifted e ∈ log') ->
  guarded (authorized c modes) log p (fun _ _ => True) -> guarded (authorized c modes) log' (staged mode p later) (fun _ _ => True).
Proof.
  revert log log' later. induction p as [r|X q k IH]; intros log log' later K W; [done|]. cbn [staged].
  assert (ASK : forall l, guarded (authorized c modes) log' (Ask q (fun x => staged mode (k x) l)) (fun _ _ => True)).
  { intros l x. destruct (W x) as [G W']. split; [intros a I; eapply may_send_knows; [exact K|by apply G]|].
    eapply IH; [|exact W']. intros e [E|I]%elem_of_cons; [rewrite E; left|right; by apply K]. }
  destruct (effect_of q) as [[e x]|] eqn:E; [|apply ASK].
  assert (SKIP : forall l, guarded (authorized c modes) log' (staged mode (k x) l) (fun _ _ => True)).
  { intros l. destruct (W x) as [_ W']. eapply IH; [|exact W']. intros e' [E'|I]%elem_of_cons; [|by apply K].
    apply (f_equal silences) in E'. destruct e' as [Y q' y]. cbn in E'. by rewrite E in E'. }
  by destruct (mode e).
Qed.
Lemma guarded_transaction {A} c modes log (p : P (result refusal A)) : (forall lg, guarded (authorized c modes) lg p (fun _ _ => True)) ->
  guarded (authorized c modes) log (transaction p) (fun _ _ => True).
Proof.
  assert (QUIET : forall lg X (q : Q X), written q = [] -> authorized c modes lg X q) by (intros lg X q E a I; rewrite E in I; by apply elem_of_nil in I).
  intros W. unfold transaction, refusing. apply guarded_try, guarded_then, guarded_ask; [by apply QUIET|]. intros [[]|[]]; apply guarded_ret; [|done].
  apply guarded_then. eapply guarded_mono; [|apply W]. intros l [x|er] _ _.
  - apply guarded_try, guarded_then, guarded_ask; [by apply QUIET|]. by intros [[]|[]]; apply guarded_ret.
  - by apply guarded_then, guarded_ask; [apply QUIET|].
Qed.
Lemma replay_authorized c modes log later : guarded (authorized c modes) log (replay later) (fun _ _ => True).
Proof.
  apply (silent_authorized c modes log (replay later) (fun _ => True)). induction later as [|e later IH]; [done|]. cbn [replay]. apply always_then.
  eapply (always_mono _ _ (fun _ => True)); [done|]. destruct e; cbn [perform]; quiet.
Qed.
Lemma draftAccess_silent c draft : always silent (mailbox (Messages.Mailboxes.draftAccess c draft)) (fun _ => True).
Proof.
  unfold mailbox, Compose.local, Messages.Mailboxes.draftAccess, LocalDelivery.mail, Messages.account. do 2 apply always_within. apply always_then, always_within.
  eapply always_mono; [|by apply always_anything]. intros [m|[]] _; done.
Qed.
Lemma ownedMessage_silent claims id cap : always silent (mailbox (ownedMessage claims id cap)) (fun _ => True).
Proof.
  unfold mailbox, Compose.local, LocalDelivery.mail. do 2 apply always_within. unfold ownedMessage. destruct claims; [|done].
  unfold Messages.or_else, Messages.db. apply always_try, always_then, always_ask_done; [done|]. intros [[m|]|]; apply always_ret; [|done|done].
  apply always_try. unfold reach. apply always_then. unfold Messages.account. apply always_within.
  eapply always_mono; [|by apply always_anything]. by intros [x|x].
Qed.
Lemma read_stored_silent rows n meta : always silent (read_stored rows n meta) (fun _ => True).
Proof.
  revert n meta. induction rows as [|x rows IH]; intros n meta; [done|]. cbn [read_stored]. destruct (_ || _); [done|].
  apply always_try, always_refusing, always_ask_done; [done|]. intros [d|e]; [|done]. destruct (n <? len d); [done|]. destruct (_ || _); [done|].
  apply always_try. from_to IH. by intros [y|y].
Qed.
Lemma readForwardParts_silent h m : always silent (readForwardParts h m) (fun _ => True).
Proof.
  unfold readForwardParts. apply always_try, always_refusing, always_ask_done; [done|]. intros [rows|e]; [|done]. destruct (_ && _); [done|].
  apply always_then. eapply (always_mono _ _ (fun _ => True)); [|quiet]. intros source _. apply always_try. from_to read_stored_silent. by intros [y|y].
Qed.
Lemma forward_authorized h c id body log : guarded (authorized c [FwOnBehalf body]) log (forwardMessage h (Some c) id body) (fun _ _ => True).
Proof.
  unfold forwardMessage. apply guarded_try. eapply guarded_mono; [|apply silent_authorized, ownedMessage_silent]. intros l1 [m|e] _ _; [|done].
  cbv zeta. destruct (negb _); [done|]. destruct (Outgoing.forwardBodies _ _ _ _ _) as [text html]. apply guarded_try.
  eapply guarded_mono; [|apply silent_authorized, readForwardParts_silent]. intros l2 [parts|e] _ _; [|done]. apply composed_authorized. by left.
Qed.
Lemma draft_authorized h c id body log :
  guarded (authorized c [match body with Some b => SbOnBehalf b | None => false end]) log (sendDraft h (Some c) id body) (fun _ _ => True).
Proof.
  unfold sendDraft. apply guarded_then. eapply guarded_mono; [|eapply (staged_authorized _ _ _ _ log); [done|apply guarded_transaction]].
  - intros l [[a|e] later] _ _; cbn [fst snd]; [|done]. apply guarded_then. eapply guarded_mono; [|apply replay_authorized]. done.
  - clear log. intros log. unfold sendDraftInTransaction. apply guarded_try.
    eapply guarded_mono; [|apply (silent_authorized _ _ _ _ (fun _ => True)); quiet]. intros l1 [[draft|]|e] _ _; [|done|done]. apply guarded_try.
    eapply guarded_mono; [|apply silent_authorized, draftAccess_silent]. intros l2 [[]|e] _ _; [|done]. cbv zeta.
    destruct (bool_decide _); [done|]. apply guarded_try. eapply guarded_mono; [|apply composed_authorized; by left]. intros l3 [a|e] _ _; [|done].
    apply (silent_authorized _ _ _ _ (fun _ => True)). apply always_try, always_refusing. eapply (always_mono _ _ (fun _ => True)); [by intros [y|y]|].
    induction sentDraftRemovalAttempts as [|n IH]; [done|]. cbn [removeSentDraft]. apply always_then, always_ask_done; [done|]. by intros [y|y].
Qed.
Lemma release_authorized h c id log : guarded (authorized c [true; false]) log (releaseHeldSend h (Some c) id) (fun _ _ => True).
Proof.
  unfold releaseHeldSend. apply guarded_try, guarded_ret. destruct (humanSendLimitSession (Some c)) as [c'|e] eqn:HS; [|done].
  assert (c' = c) as ->. { cbn in HS. by destruct (_ || _); [|injection HS]. }
  apply guarded_try, guarded_ret. destruct (limitService h) as [[]|]; [|done]. apply guarded_then.
  eapply guarded_mono; [|eapply (staged_authorized _ _ _ _ log); [done|apply guarded_transaction]].
  - intros l [[a|e] later] _ _; cbn [fst snd]; [|done]. apply guarded_then. eapply guarded_mono; [|apply replay_authorized]. done.
  - clear log. intros log. unfold release_in_transaction. apply guarded_try.
    eapply guarded_mono; [|apply (silent_authorized _ _ _ _ (fun _ => True)); quiet]. intros l1 [[s|]|e] _ _; [|done|done]. apply guarded_try.
    eapply guarded_mono; [|apply (silent_authorized _ _ _ _ (fun _ => True))].
    2: { unfold mailbox, Compose.local, LocalDelivery.mail. do 2 apply always_within. unfold reach. apply always_then. unfold Messages.account. apply always_within.
         eapply always_mono; [|by apply always_anything]. by intros [x|x]. }
    intros l2 [m|e] _ _; [|done]. destruct (negb _); [done|]. destruct (SsRequest s) as [req|]; [|done]. apply guarded_try.
    eapply guarded_mono; [|apply composed_authorized; destruct (OnBehalf (to_be_sent_now req)); [by left|by right; left]].
    intros l3 [out|e] _ _; [|done]. apply (silent_authorized _ _ _ _ (fun _ => True)). destruct out; quiet.
Qed.

(** ** Scheduled sends *)

Definition authorized_for (account : Z) : guard Q := fun log X q => forall a, a ∈ written q -> exists c, AccountID c = account /\ may_send log c [true; false] a.
Lemma guarded_weaken {A} (g g' : guard Q) log (p : P A) post : (forall l X q, g l X q -> g' l X q) -> guarded g log p post -> guarded g' log p post.
Proof. intros G. revert log. induction p as [r|X q k IH]; intros log W; [done|]. intros x. destruct (W x). split; [by apply G|by apply IH]. Qed.
Lemma silent_authorized_for {A} n log (p : P A) (post : A -> Prop) : always silent p post -> guarded (authorized_for n) log p (fun _ a => post a).
Proof.
  intros W. eapply guarded_always; [|exact W|by intros l a _ K]. intros l X q T a I. apply bool_decide_eq_true in T. rewrite T in I. by apply elem_of_nil in I.
Qed.
Lemma submitter_silent s : always silent (submitter s) (fun o => match o with Some c => AccountID c = SsAccount s | None => True end).
Proof.
  unfold submitter. destruct (SsCredential s =? 0); [done|]. apply always_then, always_ask_done; [done|]. intros found. apply always_then.
  eapply (always_mono _ _ (fun _ => True)); [|quiet]. intros now _. apply always_ret. destruct found as [[cred|]|]; try done.
  destruct (_ || _); [done|]. by destruct (bool_decide _).
Qed.
Lemma finish_silent id status m e : always silent (finishScheduled id status m e) (fun _ => True).
Proof. unfold finishScheduled. quiet. Qed.
Lemma scheduled_authorized h s log : guarded (authorized_for (SsAccount s)) log (deliverScheduled h s) (fun _ _ => True).
Proof.
  unfold deliverScheduled. destruct (SsRequest s) as [req|]; [|apply (silent_authorized_for _ _ _ (fun _ => True)), finish_silent].
  apply guarded_then. eapply guarded_mono; [|apply silent_authorized_for, submitter_silent]. intros l [c|] _ E; [|apply (silent_authorized_for _ _ _ (fun _ => True)), finish_silent].
  apply guarded_then. eapply guarded_mono; [|eapply guarded_weaken; [|apply (composed_authorized _ c [true; false]); destruct (OnBehalf (to_be_sent_now req)); [by left|by right; left]]].
  2: { intros l' X q K a I. exists c. by split; [|apply K]. }
  intros l2 [[m|row|]|e] _ _; apply (silent_authorized_for _ _ _ (fun _ => True)); try apply finish_silent.
  - destruct (bool_decide _); [done|apply finish_silent].
  - unfold retried. destruct (_ && _); [|apply finish_silent]. apply always_then. eapply (always_mono _ _ (fun _ => True)); [|quiet]. intros now _.
    apply always_then, always_ask_done; [done|]. intros [x|x]; [done|apply finish_silent].
Qed.

(** C6: Nothing is sent under an address its sender may not send from. Whatever is answered, a request to send, to forward,
    to send a draft or to release a held message puts an address in a row it stores, queues, holds or schedules, here or in
    a local recipient's delivery, or in the From field of what it serializes, only after the live grants of its account,
    and its credential, were found to allow sending from a mailbox of that address: mail:send for the account's own,
    mail:send_as for another, mail:send_on_behalf where the request says so. A scheduled message is checked again when
    it is due, for the account that scheduled it. *)
Theorem send_authorized (h : @Handler Filter) (c : Claims) :
  (forall req parts references, guarded (authorized c [OnBehalf req]) [] (sendComposedMessage h (Some c) req parts references) (fun _ _ => True)) /\
  (forall id body, guarded (authorized c [FwOnBehalf body]) [] (forwardMessage h (Some c) id body) (fun _ _ => True)) /\
  (forall id body, guarded (authorized c [match body with Some b => SbOnBehalf b | None => false end]) [] (sendDraft h (Some c) id body) (fun _ _ => True)) /\
  (forall id, guarded (authorized c [true; false]) [] (releaseHeldSend h (Some c) id) (fun _ _ => True)) /\
  (forall s, guarded (authorized_for (SsAccount s)) [] (deliverScheduled h s) (fun _ _ => True)).
Proof.
  split_and!; intros; [apply composed_authorized; by left|apply forward_authorized|apply draft_authorized|apply release_authorized|apply scheduled_authorized].
Qed.

(** ** What an answer of 201 says *)

Definition any : guard Q := fun _ _ _ => True.
Lemma grown {A} (p : P A) log0 log : grows log0 log -> guarded any log p (fun lg _ => grows log0 lg).
Proof.
  revert log. induction p as [r|X q k IH]; intros log G; [done|]. intros x. split; [done|]. apply IH. eapply grows_trans; [exact G|apply grows_cons].
Qed.
(** After whatever runs first, which forgets nothing. *)
Lemma then_ {A B} (p : P A) (f : A -> P B) log0 log post : grows log0 log -> (forall lg a, grows log0 lg -> guarded any lg (f a) post) -> guarded any log (bind p f) post.
Proof. intros G F. apply guarded_then. eapply guarded_mono; [|apply (grown p log0 log G)]. intros lg a _ K. by apply F. Qed.
Lemma try_then {E A B} (p : P (result E A)) (f : A -> P (result E B)) log0 log post : grows log0 log ->
  (forall lg e, post lg (Err e)) -> (forall lg a, grows log0 lg -> guarded any lg (f a) post) -> guarded any log (try_ p f) post.
Proof. intros G R F. apply guarded_try. eapply guarded_mono; [|apply (grown p log0 log G)]. intros lg [a|e] _ K; [by apply F|apply R]. Qed.
(** A row stored for a recipient: of the message, in the text and under the sender of the Sent copy. *)
Definition row_for (kept m : Message) (rcpt : string) (row : Queued) : Prop :=
  QuRecipient row = rcpt /\ QuMessage row = Some (ID m) /\ QuRaw row = RawMessage (Stored kept) /\ QuSender row = Sender (Parts kept).
Definition queued_for (log : send_log) (kept m : Message) (rcpt : string) : Prop :=
  exists rows row, History.Event (CqLocal (LqMail (Messages.QDb (MQueue rows)))) (Ok tt) ∈ log /\ row ∈ rows /\ row_for kept m rcpt row.
Definition delivered_for (log : send_log) (rcpt : string) : Prop :=
  exists box r, History.Event (CqActive rcpt) (Ok box) ∈ log /\ History.Event (CqLocal (LqReceive (Store.MbID box))) r ∈ log.
Definition taken_care_of (log : send_log) (kept m : Message) (rcpt : string) : Prop := queued_for log kept m rcpt \/ delivered_for log rcpt.
Lemma taken_grows log log' kept m rcpt : grows log log' -> taken_care_of log kept m rcpt -> taken_care_of log' kept m rcpt.
Proof.
  intros G [(rows & row & I & K)|(box & r & I & J)]; [left; exists rows, row|right; exists box, r]; (split; [by apply G|]); [done|by apply G].
Qed.
Lemma delivered_asks e p log : ReceiveChecked p = false ->
  guarded any log (local (deliverToLocal e p)) (fun lg _ => grows log lg /\ exists r, History.Event (CqLocal (LqReceive (Store.MbID (LdMailbox p)))) r ∈ lg).
Proof.
  intros C. unfold deliverToLocal. rewrite C. intros x. split; [done|]. eapply guarded_mono; [|apply grown, grows_refl]. intros lg a _ G.
  split; [eapply grows_trans; [apply grows_cons|exact G]|]. exists x. apply G. by left.
Qed.
Lemma staged_asks mode e p log later : ReceiveChecked p = false ->
  guarded any log (staged mode (local (deliverToLocal e p)) later)
    (fun lg _ => grows log lg /\ exists r, History.Event (CqLocal (LqReceive (Store.MbID (LdMailbox p)))) r ∈ lg).
Proof.
  intros C. unfold deliverToLocal. rewrite C. intros x. split; [done|]. eapply guarded_mono; [|apply grown, grows_refl]. intros lg a _ G.
  split; [eapply grows_trans; [apply grows_cons|exact G]|]. exists x. apply G. by left.
Qed.
Lemma place_told rcpts row log : guarded any log (place rcpts row) (fun lg o => match o with
  | Ok (boxes, rows) => grows log lg /\ forall rcpt, rcpt ∈ rcpts -> row rcpt ∈ rows \/ exists box, box ∈ boxes /\ History.Event (CqActive rcpt) (Ok box) ∈ lg
  | Err _ => True end).
Proof.
  revert log. induction rcpts as [|x rcpts IH]; intros log; [split; [apply grows_refl|by intros r I%elem_of_nil]|]. cbn [place].
  apply guarded_then, guarded_ask; [done|].
  assert (REST : forall f : _ -> list Store.Mailbox * list Queued, forall y, (forall boxes rows, exists more more', f (boxes, rows) = (more ++ boxes, more' ++ rows) /\
      (row x ∈ more' \/ exists box, box ∈ more /\ y = Ok box)) ->
    guarded any (History.Event (CqActive x) y :: log) (try_ (place rcpts row) (fun more => Ret (Ok (f more)))) (fun lg o => match o with
      | Ok (boxes, rows) => grows log lg /\ forall rcpt, rcpt ∈ x :: rcpts -> row rcpt ∈ rows \/ exists box, box ∈ boxes /\ History.Event (CqActive rcpt) (Ok box) ∈ lg
      | Err _ => True end)).
  { intros f y F. apply guarded_try. eapply guarded_mono; [|apply IH]. intros lg [[boxes rows]|e] _ K; [|done]. destruct K as [G K]. apply guarded_ret.
    destruct (F boxes rows) as (more & more' & E & W). rewrite E. split; [eapply grows_trans; [apply grows_cons|exact G]|].
    intros rcpt [-> |I]%elem_of_cons.
    - destruct W as [W|(box & W & ->)]; [left; apply elem_of_app; by left|right; exists box; split; [apply elem_of_app; by left|apply G; by left]].
    - destruct (K rcpt I) as [J|(box & J & J')]; [left; apply elem_of_app; by right|right; exists box; split; [apply elem_of_app; by right|done]]. }
  intros [box|[| |]]; [| | |done].
  - apply (REST (fun more => (box :: fst more, snd more))). intros boxes rows. exists [box], []. split; [done|]. right. exists box. by split; [left|].
  - apply (REST (fun more => (fst more, row x :: snd more))). intros boxes rows. exists [], [row x]. split; [done|]. left. by left.
  - apply (REST (fun more => (fst more, row x :: snd more))). intros boxes rows. exists [], [row x]. split; [done|]. left. by left.
Qed.
Lemma locals_told h copy boxes log : (forall box, ReceiveChecked (copy box) = false /\ LdMailbox (copy box) = box) ->
  guarded any log (deliver_locals h copy boxes) (fun lg o => match o with
    | Ok _ => grows log lg /\ forall box, box ∈ boxes -> exists r, History.Event (CqLocal (LqReceive (Store.MbID box))) r ∈ lg
    | Err _ => True end).
Proof.
  intros C. revert log. induction boxes as [|b boxes IH]; intros log; [split; [apply grows_refl|by intros r I%elem_of_nil]|]. cbn [deliver_locals].
  apply guarded_then. eapply guarded_mono; [|apply delivered_asks, C]. intros l done_ _ [G [r I]]. rewrite (proj2 (C b)) in I.
  assert (REST : guarded any l (deliver_locals h copy boxes) (fun lg o => match o with
    | Ok _ => grows log lg /\ forall box, box ∈ b :: boxes -> exists r, History.Event (CqLocal (LqReceive (Store.MbID box))) r ∈ lg
    | Err _ => True end)).
  { eapply guarded_mono; [|apply IH]. intros lg [[]|e] _ K; [|done]. destruct K as [G' K]. split; [by eapply grows_trans|].
    intros box [-> |J]%elem_of_cons; [exists r; by apply G'|by apply K]. }
  destruct done_ as [m|e]; [done|]. by destruct (inTransaction h).
Qed.
Lemma hand_over_told h kept m rcpts copy row made later log : (forall box, ReceiveChecked (copy box) = false /\ LdMailbox (copy box) = box) ->
  (forall rcpt, row_for kept m rcpt (row rcpt)) ->
  guarded any log (hand_over h rcpts copy row made later) (fun lg o => match o with
    | Ok _ => grows log lg /\ forall rcpt, rcpt ∈ rcpts -> taken_care_of lg kept m rcpt | Err _ => True end).
Proof.
  intros C R. revert made later log. induction rcpts as [|x rcpts IH]; intros made later log; [split; [apply grows_refl|by intros r I%elem_of_nil]|].
  assert (REST : forall made later l, grows log l -> taken_care_of l kept m x -> guarded any l (hand_over h rcpts copy row made later) (fun lg o => match o with
    | Ok _ => grows log lg /\ forall rcpt, rcpt ∈ x :: rcpts -> taken_care_of lg kept m rcpt | Err _ => True end)).
  { intros made' later' l G T. eapply guarded_mono; [|apply IH]. intros lg [o|e] _ K; [|done]. destruct K as [G' K]. split; [by eapply grows_trans|].
    intros rcpt [-> |J]%elem_of_cons; [by eapply taken_grows|by apply K]. }
  cbn [hand_over]. apply guarded_then, guarded_ask; [done|]. intros [box|[| |]]; [| |done|done].
  - apply guarded_then. eapply guarded_mono; [|apply staged_asks, C]. intros l [[made'|e] later'] _ [G [r I]]; cbn [fst snd]; [|done].
    apply REST; [eapply grows_trans; [apply grows_cons|exact G]|]. right. exists box, r. rewrite (proj2 (C box)) in I. split; [apply G; by left|done].
  - unfold refusing. apply guarded_try, guarded_then. intros x'. split; [done|]. destruct x' as [[]|e]; [|done].
    apply REST; [eapply grows_trans; apply grows_cons|]. left. exists [row x], (row x). split; [by left|]. split; [by left|apply R].
Qed.

(** Any program, with what it answers and that nothing is forgotten. *)
Lemma told {A} (p : P A) log post : always (fun _ _ => true) p post -> guarded any log p (fun lg a => grows log lg /\ post a).
Proof. intros W. eapply guarded_always; [|exact W|by intros l a G K]. done. Qed.
Definition tells : test Q := fun _ _ => true.
Lemma resolve_recipients c r : always tells (resolve_sender c r) (fun o => match o with Ok (_, r') => recipients r' = recipients r /\ ScheduledAt r' = ScheduledAt r | Err _ => True end).
Proof.
  unfold resolve_sender. apply always_then. eapply (always_mono _ _ (fun _ => True)); [|by apply always_anything]. intros [mb|[]] _; try done.
  destruct (OnBehalf r); [|done]. apply always_try. eapply (always_mono _ _ (fun _ => True)); [|by apply always_anything]. by intros [[a|]|e] _.
Qed.
(** Who a message goes to: whom the request names, or whom an email the pipeline left names. *)
Definition addressed (log : send_log) (h : @Handler Filter) (req : sendMessageRequest) (to : list string) : Prop :=
  to = recipients req \/
  exists ptr seen, is_some (engine h) /\ History.Event (CqLocal (LqRead ptr)) seen ∈ log /\ to = Emails.RcptTo (Emails.EEnvelope seen).
Lemma addressed_grows log log' h req to : grows log log' -> addressed log h req to -> addressed log' h req to.
Proof. intros G [E|(ptr & seen & S & I & E)]; [by left|right; exists ptr, seen; split_and!; [done|by apply G|done]]. Qed.
Lemma transformed_recipients m r : recipients (transformed m r) = recipients r \/ recipients (transformed m r) = Emails.RcptTo (Emails.EEnvelope m).
Proof.
  unfold transformed. destruct (Outgoing.TextAndHTML _) as [text html]. unfold recipients. cbn [RqTo RqCc RqBcc]. destruct (bool_decide _); cbn [negb]; [by left|right].
  by rewrite !app_nil_r.
Qed.

(** What 201 says of a message: the Sent copy is stored, and every recipient it goes to is taken care of; a forward's
    transaction was committed. *)
Definition sent_out (log : send_log) (m : Message) (rcpts : list string) (committed : bool) : Prop :=
  exists kept, History.Event (CqLocal (LqMail (Messages.QDb (MCreate kept)))) (Ok m) ∈ log /\ Folder kept = "Sent" /\
    (forall rcpt, rcpt ∈ rcpts -> taken_care_of log kept m rcpt) /\ (committed = true -> History.Event CqCommit (Ok tt) ∈ log).
Lemma sent_out_grows log log' m rcpts committed : grows log log' -> sent_out log m rcpts committed -> sent_out log' m rcpts committed.
Proof.
  intros G (kept & I & F & T & C). exists kept. split_and!; [by apply G|done| |intros E; by apply G, C].
  intros rcpt J. eapply taken_grows; [exact G|by apply T].
Qed.
Lemma sent_after {A} (p : P A) log0 log m rcpts committed (f : A -> answer) : grows log0 log -> sent_out log m rcpts committed -> (forall a, f a = Created m) ->
  guarded any log (bind p (fun a => Ret (Ok (f a)))) (fun lg o => match o : result refusal answer with Ok (Created m) => grows log0 lg /\ sent_out lg m rcpts committed | _ => True end).
Proof.
  intros G T F. apply guarded_then. eapply guarded_mono; [|apply grown, grows_refl]. intros lg a _ K. apply guarded_ret. rewrite F.
  split; [by eapply grows_trans|eapply sent_out_grows; [exact K|exact T]].
Qed.
Lemma copy_kept mb r m raw independent box : ReceiveChecked (local_copy mb r m raw independent box) = false /\ LdMailbox (local_copy mb r m raw independent box) = box.
Proof. done. Qed.
Lemma send_plain_told h mb r m out trace log : (forall raw, Folder (m raw) = "Sent" /\ RawMessage (Stored (m raw)) = raw /\ Sender (Parts (m raw)) = RqFrom r) ->
  guarded any log (send_plain h mb r m out trace)
    (fun lg o => match o with Ok (Created m) => grows log lg /\ sent_out lg m (recipients r) false | _ => True end).
Proof.
  intros M. unfold send_plain. apply (try_then _ _ log); [apply grows_refl|done|]. intros l1 raw G1. destruct (M raw) as (F & R & S).
  apply guarded_try. unfold refusing. apply guarded_then. intros x. split; [done|]. destruct x as [stored|[]]; apply guarded_ret; [|done].
  apply (then_ _ _ (History.Event (CqLocal (LqMail (Messages.QDb (MCreate (m raw))))) (Ok stored) :: l1)); [apply grows_refl|]. intros l2 _ G2.
  apply guarded_try. eapply guarded_mono; [|apply place_told]. intros l3 [[boxes rows]|e] _ K; [|done]. destruct K as [G3 K]. cbn [fst snd].
  assert (KEPT : History.Event (CqLocal (LqMail (Messages.QDb (MCreate (m raw))))) (Ok stored) ∈ l3) by (apply G3, G2; by left).
  assert (GREW : grows log l3) by (eapply grows_trans; [exact G1|]; eapply grows_trans; [apply grows_cons|]; by eapply grows_trans).
  apply guarded_try. apply (guarded_mono _ _ _ (fun lg o => match o with
    | Ok _ => grows l3 lg /\ (rows = [] \/ History.Event (CqLocal (LqMail (Messages.QDb (MQueue rows)))) (Ok tt) ∈ lg) | Err _ => True end)).
  2: { case_bool_decide as E; [apply guarded_ret; split; [apply grows_refl|by left]|]. apply guarded_then. intros x. split; [done|].
       destruct x as [[]|[]]; apply guarded_ret; [|done]. split; [apply grows_cons|right; by left]. }
  intros l4 [[]|e] _ Q; [|done]. destruct Q as [G4 Q]. apply guarded_try. eapply guarded_mono; [|apply locals_told, copy_kept].
  intros l5 [[]|e] _ D; [|done]. destruct D as [G5 D]. assert (G45 : grows l3 l5) by by eapply grows_trans.
  apply (then_ _ _ l5); [apply grows_refl|]. intros l6 _ G6. apply (sent_after _ _ _ stored _ _ (fun _ => Created stored)); [| |done].
  { eapply grows_trans; [exact GREW|]. by eapply grows_trans. }
  eapply sent_out_grows; [exact G6|]. exists (m raw). split_and!; [by apply G45|done| |done]. intros rcpt I.
  destruct (K rcpt I) as [J|(box & J & E)]; [left|right].
  - destruct Q as [-> |Q]; [by apply elem_of_nil in J|]. eexists rows, _. split; [by apply G5|]. split; [exact J|].
    split_and!; [done|done|by rewrite R|by rewrite S].
  - destruct (D box J) as [answer_ D']. exists box, answer_. split; [by apply G45|done].
Qed.
Lemma commit_parts_told h mb r m raw parts log : Folder m = "Sent" -> RawMessage (Stored m) = raw -> Sender (Parts m) = RqFrom r ->
  guarded any log (commit_parts h mb r m raw parts)
    (fun lg o => match o with Ok (stored, _, _) => grows log lg /\ sent_out lg stored (recipients r) false | Err _ => True end).
Proof.
  intros F R S. unfold commit_parts, refusing. apply (then_ _ _ log); [apply grows_refl|]. intros l1 [[]|[]] G1; apply guarded_try, guarded_ret; [|done..].
  apply (try_then _ _ log); [done|done|]. intros l2 counted G2. apply guarded_try, guarded_ret. destruct (counted =? 1); [|done].
  apply guarded_try, guarded_then. intros x. split; [done|]. destruct x as [stored|[]]; apply guarded_ret; [|done].
  apply (try_then _ _ (History.Event (CqLocal (LqMail (Messages.QDb (MCreate m)))) (Ok stored) :: l2)); [apply grows_refl|done|]. intros l3 [] G3.
  assert (G03 : grows log l3) by (eapply grows_trans; [exact G2|]; eapply grows_trans; [apply grows_cons|exact G3]).
  apply guarded_try. eapply guarded_mono; [|apply (hand_over_told h m stored); [apply copy_kept|by intros rcpt; unfold row_for; rewrite R, S]].
  intros l4 [handed|e] _ K; [|done]. destruct K as [G4 K]. apply guarded_ret. split; [by eapply grows_trans|].
  exists m. split_and!; [apply G4, G3; by left|done|done|done].
Qed.
Lemma commitForward_told h mb r m out parts trace log :
  (forall raw att, Folder (m raw att) = "Sent" /\ RawMessage (Stored (m raw att)) = raw /\ Sender (Parts (m raw att)) = RqFrom r) ->
  guarded any log (commitForward h mb r m out parts trace)
    (fun lg o => match o with Ok (Created m) => grows log lg /\ sent_out lg m (recipients r) true | _ => True end).
Proof.
  intros M. unfold commitForward. apply (try_then _ _ log); [apply grows_refl|done|]. intros l1 read G1.
  apply (try_then _ _ log); [done|done|]. intros l2 raw G2. destruct (_ <? _); [done|]. apply guarded_try. unfold transaction, refusing.
  apply (try_then _ _ log); [done|done|]. intros l3 [] G3. apply guarded_then.
  destruct (M raw (negb (bool_decide (read = [])))) as (F & R & S).
  eapply guarded_mono; [|by apply commit_parts_told]. intros l4 [[[stored made] later]|e] _ K; [|done]. destruct K as [G4 T].
  apply guarded_try, guarded_then. intros x. split; [done|]. destruct x as [[]|[]]; apply guarded_ret; [|done]. apply guarded_ret. cbn beta iota.
  assert (DONE : sent_out (History.Event CqCommit (Ok tt) :: l4) stored (recipients r) true).
  { destruct (sent_out_grows _ _ _ _ _ (grows_cons (History.Event CqCommit (Ok tt)) l4) T) as (kept & I & F' & T' & _). exists kept. split_and!; [done|done|done|].
    intros _. by left. }
  set (l5 := _ :: l4) in DONE |- *. assert (G5 : grows log l5) by (eapply grows_trans; [exact G3|]; eapply grows_trans; [exact G4|apply grows_cons]). clearbody l5.
  apply (then_ _ _ l5); [apply grows_refl|]. intros l6 _ G6. apply (then_ _ _ l5); [done|]. intros l7 _ G7. apply (then_ _ _ l5); [done|]. intros l8 _ G8.
  apply (then_ _ _ l5); [done|]. intros l9 _ G9. apply (sent_after _ _ _ stored _ _ (fun _ => Created stored)); [by eapply grows_trans| |done].
  eapply sent_out_grows; [exact G9|exact DONE].
Qed.
Lemma compose_told h mb r parts references extra trace log :
  guarded any log (compose h mb r parts references extra trace)
    (fun lg o => match o with Ok (Created m) => grows log lg /\ sent_out lg m (recipients r) (is_some parts) | _ => True end).
Proof.
  unfold compose. apply (try_then _ _ log); [apply grows_refl|done|]. intros l1 invited G1. apply (then_ _ _ log); [done|]. intros l2 messageID G2.
  apply (then_ _ _ log); [done|]. intros l3 now G3. apply (try_then _ _ log); [done|done|]. intros l4 refs G4.
  apply (try_then _ _ log); [done|done|]. intros l5 thread G5. destruct parts as [parts|]; cbn [is_some].
  - eapply guarded_mono; [|by apply commitForward_told]. intros lg [[m|row|]|e] _ K; try done. destruct K as [G K]. split; [by eapply grows_trans|done].
  - eapply guarded_mono; [|by apply send_plain_told]. intros lg [[m|row|]|e] _ K; try done. destruct K as [G K]. split; [by eapply grows_trans|done].
Qed.
(** A held message is kept in the row it was sent again from. *)
Definition held_in (log : send_log) (h : @Handler Filter) (kept : ScheduledSend) : Prop :=
  forall id, heldID h = Some id -> id <> 0 -> exists row, History.Event (CqScheduled (SHold id row)) (Ok (Some kept)) ∈ log.
Lemma held_grows log log' h kept : grows log log' -> held_in log h kept -> held_in log' h kept.
Proof. intros G K id E N. destruct (K id E N) as [row I]. exists row. by apply G. Qed.
Lemma reserve_told h c r parts sender force log : guarded any log (reserveLayeredSend h c r parts sender force)
  (fun lg o => match o with Ok (Some kept) => held_in lg h kept | _ => True end).
Proof.
  unfold reserveLayeredSend, refusing. apply (then_ _ _ log); [apply grows_refl|]. intros l1 [[hit|]|[]] _; try done.
  apply (try_then _ _ l1); [apply grows_refl|done|]. intros l2 retained _. apply guarded_try.
  apply (guarded_mono _ _ _ (fun lg o => match o with Ok kept => held_in lg h kept | Err _ => True end)).
  { intros l3 [kept|] _ K; [|done]. intros x. split; [done|]. eapply held_grows; [apply grows_cons|exact K]. }
  unfold hold, refusing. destruct (heldID h) as [id|] eqn:E.
  - destruct (Z.eqb_spec id 0) as [Z0|Z0].
    + intros x. split; [done|]. apply guarded_ret. destruct x; [|done]. intros i E' N. rewrite E in E'. by simplify_eq.
    + apply guarded_try, guarded_then. intros x. split; [done|]. destruct x as [[kept|]|[]]; repeat apply guarded_ret; try done.
      intros i E' N. rewrite E in E'. simplify_eq. eexists. by left.
  - intros x. split; [done|]. apply guarded_ret. destruct x; [|done]. intros i E' N. congruence.
Qed.
Definition created (o : result refusal answer) : Prop := match o with Ok (Created _) | Err _ => True | _ => False end.
Lemma compose_created h mb r parts references extra trace : always tells (compose h mb r parts references extra trace) created.
Proof.
  assert (THEN : forall A (p : P A) (f : A -> P (result refusal answer)), (forall a, always tells (f a) created) -> always tells (bind p f) created).
  { intros A p f F. apply always_then. eapply (always_mono _ _ (fun _ => True)); [|by apply always_anything]. intros a _. apply F. }
  assert (TRY : forall A (p : P (result refusal A)) (f : A -> P (result refusal answer)), (forall a, always tells (f a) created) -> always tells (try_ p f) created).
  { intros A p f F. apply THEN. by intros [a|e]. }
  unfold compose. apply TRY. intros invited. apply THEN. intros id. apply THEN. intros now. apply TRY. intros refs. apply TRY. intros thread.
  destruct parts as [parts|].
  - unfold commitForward. apply TRY. intros read. apply TRY. intros raw. destruct (_ <? _); [done|]. apply TRY. intros [[stored made] later]. by repeat (apply THEN; intros []).
  - unfold send_plain. apply TRY. intros raw. apply TRY. intros stored. apply THEN. intros []. apply TRY. intros placed. do 2 (apply TRY; intros []).
    by repeat (apply THEN; intros []).
Qed.
(** What an answer to a send says. *)
Definition answered (log : send_log) (h : @Handler Filter) (req : sendMessageRequest) (forwarded : bool) (o : result refusal answer) : Prop :=
  match o with
  | Ok (Created m) => exists to, addressed log h req to /\ sent_out log m to forwarded
  | Ok (Accepted row) => ScheduledAt req = None -> held_in log h row
  | _ => True
  end.
Lemma guarded_conj {A} g log (p : P A) post post' : guarded g log p post -> guarded g log p post' -> guarded g log p (fun l a => post l a /\ post' l a).
Proof.
  revert log. induction p as [a|X q k IH]; intros log W W'; [by split|]. intros x. destruct (W x) as [G K]. destruct (W' x) as [_ K']. split; [done|]. by apply IH.
Qed.
Definition piped_well (log0 : send_log) (h : @Handler Filter) (r : sendMessageRequest) (forwarded : bool) (log : send_log) (o : result refusal piped) : Prop :=
  match o with
  | Ok (Went r' parts' _ _) => grows log0 log /\ is_some parts' = forwarded /\ addressed log h r (recipients r')
  | Ok (Stopped (Created _)) => False
  | Ok (Stopped (Accepted row)) => held_in log h row
  | _ => True
  end.
Lemma run_outbound_told h e c mb r parts log : engine h = Some e ->
  guarded any log (run_outbound h e c mb r parts) (piped_well log h r (is_some parts)).
Proof.
  intros E. unfold run_outbound. apply (then_ _ _ log); [apply grows_refl|]. intros l1 cfg G1. apply (then_ _ _ log); [done|]. intros l2 ptr G2.
  apply (then_ _ _ log); [done|]. intros l3 [ran|] G3; [|done]. apply (then_ _ _ log); [done|]. intros l4 seen G4. cbv zeta.
  destruct (bool_decide _); [by apply (then_ _ _ log)|]. destruct (bool_decide _); [by apply (then_ _ _ log)|].
  destruct (bool_decide _); [by apply (then_ _ _ log)|]. destruct (bool_decide _).
  - apply (then_ _ _ log); [done|]. intros l5 _ _. destruct (layeredLimits h); [|done]. apply guarded_try.
    eapply guarded_mono; [|apply reserve_told]. by intros l6 [[row|]|] _ K.
  - destruct (bool_decide _).
    + intros final. split; [done|]. apply guarded_ret. split; [eapply grows_trans; [exact G4|apply grows_cons]|]. split; [by destruct parts|].
      destruct (transformed_recipients final r) as [K|K]; [left; exact K|right]. exists (Pipeline.FinalEmail ran), final. rewrite E. split_and!; [done|by left|done].
    + apply guarded_ret. split_and!; [done|done|by left].
Qed.
Lemma schedule_told c r at_ : always tells (schedule c r at_) (fun o => match o with Ok (Accepted _) | Err _ => True | _ => False end).
Proof.
  unfold schedule. apply always_then. eapply (always_mono _ _ (fun _ => True)); [|by apply always_anything]. intros now _. repeat (destruct (_ <? _); [done|]).
  apply always_try. eapply (always_mono _ _ (fun _ => True)); [|by apply always_anything]. by intros [kept|] _.
Qed.
Lemma composed_told h c req parts references log :
  guarded any log (sendComposedMessage h (Some c) req parts references) (fun log o => answered log h req (is_some parts) o).
Proof.
  unfold sendComposedMessage. apply guarded_try, guarded_ret. destruct (check_request h req) as [[]|]; [|done].
  apply (then_ _ _ log); [apply grows_refl|]. intros l1 [] _; [|done]. cbn [negb]. apply guarded_try.
  eapply guarded_mono; [|apply told, resolve_recipients]. intros l2 [[mb r]|e] _ [_ E]; [|done]. destruct E as [E D].
  apply (try_then _ _ l2); [apply grows_refl|done|]. intros l3 [] _. destruct (ScheduledAt r) as [at_|] eqn:EA.
  { eapply guarded_mono; [|apply told, schedule_told]. intros lg [[|row|]|] _ [_ K]; try done. intros N. congruence. }
  apply guarded_try. apply (guarded_mono _ _ _ (piped_well l3 h req (is_some parts))).
  2: { destruct (engine h) as [e|] eqn:EH; [|apply guarded_ret; split_and!; [apply grows_refl|done|by left; rewrite E]].
       eapply guarded_mono; [|by apply (run_outbound_told h e)]. intros lg [[r' parts' ex tr|[]]|] _ K; try done.
       unfold piped_well, addressed in *. by rewrite E in K. }
  intros l4 [[r' parts' ex tr|[|row|]]|] _ K; try done; [|by intros _]. destruct K as (_ & S & A). apply guarded_try.
  apply (guarded_mono _ _ _ (fun lg o => grows l4 lg /\ match o with Ok (Some kept) => held_in lg h kept | _ => True end)).
  2: { destruct (layeredLimits h); [|apply guarded_ret; split; [apply grows_refl|done]].
       eapply guarded_mono; [|apply reserve_told]. intros lg o G P. by split. }
  intros l5 [[row|]|] _ [G K5]; [by intros _| |done].
  eapply guarded_mono; [|apply (guarded_conj _ _ _ _ _ (compose_told h mb r' parts' references ex tr l5) (told _ l5 _ (compose_created h mb r' parts' references ex tr)))].
  intros lg [[m| |]|] _ [T [_ C]]; try done. destruct T as [G' T]. rewrite S in T.
  exists (recipients r'). split; [eapply addressed_grows; [|exact A]; by eapply grows_trans|exact T].
Qed.


(** ** A message that was due *)

(** What became of a row that was claimed: the outcome written on it, or kept as held. *)
Definition settled (h : @Handler Filter) (s : ScheduledSend) (log : send_log) : Prop :=
  (exists m to req, SsRequest s = Some req /\ addressed log h (to_be_sent_now req) to /\ sent_out log m to false /\
     exists r, History.Event (CqScheduled (SFinish (SsID s) sent (Some (ID m)) "")) r ∈ log) \/
  (exists status why r, History.Event (CqScheduled (SFinish (SsID s) status None (truncateForStore why))) r ∈ log /\ status ∈ [sent; failed]) \/
  (exists at_ why, History.Event (CqScheduled (SRetry (SsID s) (Attempts s + 1) at_ (truncateForStore why))) (Ok tt) ∈ log /\ Attempts s + 1 < scheduledSendMaxAttempts) \/
  (exists kept, held_in log (for_row (SsID s) h) kept /\ SsStatus kept = held_).
Lemma finished h s status why log : status ∈ [sent; failed] -> guarded any log (finishScheduled (SsID s) status None why) (fun lg _ => settled h s lg).
Proof. intros I x. split; [done|]. apply guarded_ret. right; left. exists status, why, x. split; [by left|done]. Qed.
Lemma retried_told h s e log : guarded any log (retried s e) (fun lg _ => settled h s lg).
Proof.
  unfold retried. destruct (_ && _) eqn:E; [|apply finished; right; by left]. apply andb_prop in E as [_ E%Z.ltb_lt].
  apply (then_ _ _ log); [apply grows_refl|]. intros l1 now _. apply guarded_then, guarded_ask; [done|]. intros [[]|[]].
  - apply guarded_ret. right; right; left. eexists _, _. split; [by left|done].
  - apply finished. right. by left.
Qed.
End Senders.
End ComposeFacts.
