(* ===== verification/SmtpSession.v ===== *)
(** * An SMTP session of the gateway: internal/gateway/smtp/session.go

    [session] is the connection's state, one function per call go-smtp makes: [Auth], [Mail],
    [Rcpt], [Data], [Reset], [Logout]. What the session asks of the API (backend.go), of the
    database (the Store of backend.go), of the connection limiter, of the disk and of the clock
    are questions, so that a theorem on a run holds whatever they answer and whatever happens
    between two commands. The parser of internal/mime is a question too ([QParseStream]); what
    parseSpooled makes of its answer is here. Log lines are left out. *)

From S2P Require Import Prelude GoTime GoStrings MailAddress QueueModel SRS Prog Emails SmtpText.
From Stdlib Require Import Ascii.
Import GoTime GoStrings MailAddress Row Prog SmtpText.
Local Open Scope Z_scope.
Local Open Scope prog_scope.

(** net/mail's ReadMessage: the List-Unsubscribe field of a message, "" without one;
    [None] when its header block does not read. *)
Class MailReader := { list_unsubscribe : string -> option string }.

Module SmtpSession.

(** ** What the session is answered *)

(** internal/gateway/apiclient: an answer of the API that is no success, with the code and
    message of its JSON body ("" when the body is no such JSON), or none. *)
Inductive api_error := APIError (StatusCode : Z) (code message : string) | Unreachable.
Definition isAccessRestricted (code : string) : bool := bool_decide (code = "access_restricted").
Definition IsAuthRejection (err : api_error) : bool :=
  match err with
  | APIError st code _ => if isAccessRestricted code then false else (st =? 401) || (st =? 403)
  | Unreachable => false
  end.
Record GatewaySessionOpened := { OToken : string; OCredentialID : Z; OCredentialKind : string; OUserID : Z }.
Record DeliverRequest := {
  DAddress : string; DSender : string; DSenderName : string; DSubject : string; DMessageID : string;
  DInReplyTo : string; DReferences : string; DClientIP : string; DHeloName : string;
  DReceivedTLS : option bool; DTLSVersion : string; DTLSCipher : string; DRequireTLS : bool;
  DRecipientsTo : list string; DRecipientsCc : list string;
  DRawMessage : string; DBodyText : option string; DBodyHTML : option string
}.
Record OutboundMessage := {
  OSender : string; ORecipient : string; ODomain : string; ORawMessage : string; OBodyType : string;
  OMessageID : option Z; ORequireTLS : bool
}.
Record BounceRelay := {
  BRecipient : string; BSendingDomain : string; BRawMessage : string; BBodyType : string;
  MaxPerRecipient : Z; Window : Duration
}.
Record SubmittedMessage := {
  PSender : string; PMessageID : string; PSenderName : string; PSubject : string; PBodyText : string;
  PBodyHTML : string; PInReplyTo : string; PReferences : string; PRawMessage : string;
  PRecipientsTo : list string; PRecipientsCc : list string
}.
Record SubmissionAttempt := {
  AAccountID : Z; ACredentialID : Z; ASender : string; AHeaderSender : string; ARecipients : Z; ARemote : string
}.
Inductive reserve_error := ErrAccountInactive | ReserveFailed.
(** Reading the message off the connection: go-smtp's own error, or another. *)
Inductive receive_error := Protocol (e : SMTPError) | ReadFailed.
(** rmime.ParseStream, and the texts it handed [bodyTexts.take]. *)
Inductive parse_outcome := Parsed (h : Emails.Headers) | ErrStructureLimit | Unparseable.
Record parse_answer := {
  outcome : parse_outcome; first_text : option string; first_html : option string;
  source_failed : bool; texts_failed : bool
}.

Inductive Q : Type -> Type :=
| QNow : Q Time
| QSleep (d : Duration) : Q unit
| QObserve (outcome : string) (start : Time) : Q unit
(* the connection limiter *)
| QIsBanned (ip : string) : Q bool
| QIsUserBanned (user : string) : Q bool
| QRecordAuthFail (ip : string) : Q unit
| QRecordAuthFailUser (user : string) : Q unit
| QResetAuth (ip : string) : Q unit
| QResetAuthUser (user : string) : Q unit
(* Backend *)
| QOpenSession (email password : string) : Q (result api_error GatewaySessionOpened)
| QCloseSession (token : string) : Q unit
| QCheckMailbox (address : string) : Q (result api_error bool)
| QDeliver (req : DeliverRequest) : Q (result api_error unit)
(* Store *)
| QCredentialUsable (id : Z) : Q (result unit bool)
| QSenderMatches (account : Z) (from : string) : Q (result unit bool)
| QSenderAuthorized (account : Z) (from : string) : Q (result unit bool)
| QAccountMaySend (account : Z) : Q (result unit bool)
| QPersist (msg : SubmittedMessage) : Q (result unit (option Z))
| QEnqueue (msg : OutboundMessage) : Q (result unit unit)
| QHosted (domain : string) : Q (result unit bool)
| QRelay (msg : BounceRelay) : Q (result unit unit)
| QSendingPolicy (address : string) : Q (result unit string)
| QPrepare (sender raw : string) : Q (result unit string)
| QReserve (a : SubmissionAttempt) : Q (result reserve_error bool)
| QAllow (key : string) : Q bool
(* the message *)
| QReceive : Q (result receive_error string)
| QDisk : Q bool                                     (* the spool file does as asked *)
| QParseStream (input : string) : Q parse_answer
| QMessageID (domain : string) : Q string
| QQueueID : Q string.
Definition prog A := Prog.prog Q A.

(** ** The state *)

Record Conf := {
  isSubmission : bool;
  hostname : string;
  signer : option SRS.Signer;
  srsBounceMax : Z;
  srsWindow : Duration;
  tarpit : tarpitPolicy;
  persistent : bool;                 (* the store keeps the submission budgets *)
  maxReceived : nat;                 (* rmime.CurrentLimits *)
  zone : Z;                          (* seconds east of UTC *)
  ErrAuthUnknownMechanism : SMTPError
}.
(** The connection when a command comes: its TLS version and cipher, EHLO name and peer. *)
Record Conn := { TLSState : option (Z * string); ehlo : string; remoteAddr : string }.
Definition isTLS (k : Conn) : bool := match TLSState k with Some _ => true | None => false end.
Record session := {
  tarpitN : Z;
  authenticated : bool;
  authEmail : string;
  accountID : Z;
  apiSession : string;
  credentialID : Z;
  credentialKind : string;
  mailFrom : string;
  rcptTo : list string;
  srsRelays : gmap string string;
  bodyType : string;
  smtpUTF8 : bool;
  requireTLS : bool;
  txStart : Time
}.
Definition new_session : session := {|
  tarpitN := 0; authenticated := false; authEmail := ""; accountID := 0; apiSession := ""; credentialID := 0;
  credentialKind := ""; mailFrom := ""; rcptTo := []; srsRelays := ∅; bodyType := ""; smtpUTF8 := false;
  requireTLS := false; txStart := zero |}.
Definition with_tarpit (n : Z) (s : session) : session := {|
  tarpitN := n; authenticated := authenticated s; authEmail := authEmail s; accountID := accountID s;
  apiSession := apiSession s; credentialID := credentialID s; credentialKind := credentialKind s; mailFrom := mailFrom s;
  rcptTo := rcptTo s; srsRelays := srsRelays s; bodyType := bodyType s; smtpUTF8 := smtpUTF8 s; requireTLS := requireTLS s;
  txStart := txStart s |}.
Definition with_txStart (t : Time) (s : session) : session := {|
  tarpitN := tarpitN s; authenticated := authenticated s; authEmail := authEmail s; accountID := accountID s;
  apiSession := apiSession s; credentialID := credentialID s; credentialKind := credentialKind s; mailFrom := mailFrom s;
  rcptTo := rcptTo s; srsRelays := srsRelays s; bodyType := bodyType s; smtpUTF8 := smtpUTF8 s; requireTLS := requireTLS s;
  txStart := t |}.
Definition with_identity (yes : bool) (email : string) (account credential : Z) (kind : string) (s : session) : session := {|
  tarpitN := tarpitN s; authenticated := yes; authEmail := email; accountID := account;
  apiSession := apiSession s; credentialID := credential; credentialKind := kind; mailFrom := mailFrom s;
  rcptTo := rcptTo s; srsRelays := srsRelays s; bodyType := bodyType s; smtpUTF8 := smtpUTF8 s; requireTLS := requireTLS s;
  txStart := txStart s |}.
Definition with_apiSession (token : string) (s : session) : session := {|
  tarpitN := tarpitN s; authenticated := authenticated s; authEmail := authEmail s; accountID := accountID s;
  apiSession := token; credentialID := credentialID s; credentialKind := credentialKind s; mailFrom := mailFrom s;
  rcptTo := rcptTo s; srsRelays := srsRelays s; bodyType := bodyType s; smtpUTF8 := smtpUTF8 s; requireTLS := requireTLS s;
  txStart := txStart s |}.
(** A transaction's fields. *)
Definition with_transaction (from body : string) (utf8 tls : bool) (s : session) : session := {|
  tarpitN := tarpitN s; authenticated := authenticated s; authEmail := authEmail s; accountID := accountID s;
  apiSession := apiSession s; credentialID := credentialID s; credentialKind := credentialKind s; mailFrom := from;
  rcptTo := []; srsRelays := ∅; bodyType := body; smtpUTF8 := utf8; requireTLS := tls; txStart := txStart s |}.
Definition with_rcpt (to : string) (relay : option string) (s : session) : session := {|
  tarpitN := tarpitN s; authenticated := authenticated s; authEmail := authEmail s; accountID := accountID s;
  apiSession := apiSession s; credentialID := credentialID s; credentialKind := credentialKind s; mailFrom := mailFrom s;
  rcptTo := rcptTo s ++ [to];
  srsRelays := match relay with Some original => <[to := original]> (srsRelays s) | None => srsRelays s end;
  bodyType := bodyType s; smtpUTF8 := smtpUTF8 s; requireTLS := requireTLS s; txStart := txStart s |}.

Section Session.
Context `{Unicode, MailLib, SRSMac, MailReader} (c : Conf).

Definition answer : Type := session * result SMTPError unit.
Definition Reply (s : session) (r : result SMTPError unit) : prog answer := Ret (s, r).

Definition txAccepted : string := "accepted".
Definition txRejected : string := "rejected".
Definition txAborted : string := "aborted".
Definition endTransaction (outcome : string) (s : session) : prog session :=
  if IsZero (txStart s) then Ret s
  else ask (QObserve outcome (txStart s)) ;; Ret (with_txStart zero s).
Definition tarpitReject (s : session) : prog session :=
  let s := with_tarpit (GoInt.wrap64 (tarpitN s + 1)) s in
  let d := delayFor (tarpit c) (tarpitN s) in
  if d <=? 0 then Ret s else ask (QSleep d) ;; Ret s.
Definition closeAPISession (s : session) : prog session :=
  if bool_decide (apiSession s = "") then Ret s
  else ask (QCloseSession (apiSession s)) ;; Ret (with_apiSession "" s).

Definition tlsVersionName (v : Z) : string :=
  if v =? 772 then "TLS1.3" else if v =? 771 then "TLS1.2" else if v =? 770 then "TLS1.1"
  else if v =? 769 then "TLS1.0" else "".
Definition inboundTransportSecurity (state : option (Z * string)) : option bool * string * string :=
  if isSubmission c then (None, "", "")
  else match state with Some (v, cipher) => (Some true, tlsVersionName v, cipher) | None => (Some false, "", "") end.

(** ** AUTH *)

Definition tooManyAuthFailures : result SMTPError unit := refuse 421 (4, 7, 0) "Too many authentication failures".
(** [||] asks for the account only when the address is not banned. *)
Definition bannedNow (ip username : string) : prog bool :=
  banned <- ask (QIsBanned ip);
  if banned : bool then Ret true else ask (QIsUserBanned username).
Definition login (k : Conn) (username password : string) (s : session) : prog answer :=
  let ip := extractIP (remoteAddr k) in
  banned <- bannedNow ip username;
  if banned : bool then s <- tarpitReject s; Reply s tooManyAuthFailures
  else
    resp <- ask (QOpenSession username password);
    match resp with
    | Err err =>
        if negb (IsAuthRejection err) then
          Reply s (refuse 454 (4, 7, 0) "Temporary authentication failure, try again later")
        else
          ask (QRecordAuthFail ip) ;;
          ask (QRecordAuthFailUser username) ;;
          (s <- tarpitReject s;
          banned <- bannedNow ip username;
          if banned : bool then Reply s tooManyAuthFailures
          else Reply s (refuse 535 (5, 7, 8) "Authentication failed"))
    | Ok resp =>
        ask (QResetAuth ip) ;;
        ask (QResetAuthUser username) ;;
        (s <- closeAPISession s;
        Reply (with_apiSession (OToken resp)
                 (with_identity true username (OUserID resp) (OCredentialID resp) (OCredentialKind resp) s)) (Ok tt))
    end.

(** The LOGIN mechanism's exchange: what a response of the client's leads to. *)
Record loginSASLServer := { username : string; started : bool; gotUsername : bool }.
Definition Next (l : loginSASLServer) (response : option string) : loginSASLServer * (string + (string * string)) :=
  let text := default "" response in
  if negb (started l) && match response with None => true | Some _ => false end then
    ({| username := username l; started := true; gotUsername := gotUsername l |}, inl "Username:")
  else if negb (gotUsername l) then ({| username := text; started := true; gotUsername := true |}, inl "Password:")
  else ({| username := username l; started := true; gotUsername := true |}, inr (username l, text)).
Definition AuthMechanisms : list string := if isSubmission c then ["PLAIN"; "LOGIN"] else [].
(** The exchange done, with what the client gave in it. *)
Definition Auth (k : Conn) (mech identity username password : string) (s : session) : prog answer :=
  if negb (isSubmission c) then Reply s (refuse 503 (5, 5, 1) "AUTH not available on this port")
  else if bool_decide (mech = "PLAIN") then
    if negb (bool_decide (identity = "")) && negb (bool_decide (identity = username)) then
      Reply s (refuse 535 (5, 7, 8) "Authentication failed")
    else login k username password s
  else if bool_decide (mech = "LOGIN") then login k username password s
  else Reply s (Err (ErrAuthUnknownMechanism c)).
Definition rateLimitKey (s : session) : string :=
  if accountID s =? 0 then "user:" +:+ authEmail s else "acct:" +:+ itoa (accountID s).

(** ** MAIL *)

Definition maySendAs (addr : string) (s : session) : prog (result unit bool) :=
  same <-! (if bool_decide (addr = authEmail s) then Ret (Ok true) else ask (QSenderMatches (accountID s) addr));
  if same : bool then ask (QAccountMaySend (accountID s))
  else if negb (bool_decide (credentialKind s = "password")) then Ret (Ok false)
  else ask (QSenderAuthorized (accountID s) addr).
Definition allowed (r : result unit bool) : bool := match r with Ok b => b | Err _ => false end.
(** What MAIL's parameters say, all false without them. *)
Record MailOptions := { UTF8 : bool; RequireTLS : bool; OptBody : string }.
Definition signed_in (s : session) : bool := isSubmission c && authenticated s.
(** The credential the session signed in with still holds: the session afterwards. *)
Definition check_credential (s : session) : prog answer :=
  if signed_in s && negb (credentialID s =? 0) then
    usable <- ask (QCredentialUsable (credentialID s));
    match usable with
    | Err _ => Reply s (refuse 451 (4, 3, 0) "Temporary service failure")
    | Ok false =>
        s <- closeAPISession (with_identity false "" 0 0 "" s);
        Reply s (refuse 530 (5, 7, 0) "Authentication required")
    | Ok true => Reply s (Ok tt)
    end
  else Reply s (Ok tt).
Definition Mail (k : Conn) (from : string) (opts : MailOptions) (s : session) : prog answer :=
  if negb (isTLS k) && isSubmission c then Reply s (refuse 530 (5, 7, 0) "Must issue a STARTTLS command first")
  else if isSubmission c && negb (authenticated s) then Reply s (refuse 530 (5, 7, 0) "Authentication required")
  else match validateUTF8Address from (UTF8 opts) 550 with
  | Err e => Reply s (Err e)
  | Ok _ =>
      let* (s, checked) <- check_credential s;
      match checked with
      | Err e => Reply s (Err e)
      | Ok _ =>
          may <- (if signed_in s then maySendAs from s else Ret (Ok true));
          if negb (allowed may) then Reply s (refuse 553 (5, 7, 1) "Sender address not authorized for this account")
          else
            s <- endTransaction txAborted s;
            now <- ask QNow;
            Reply (with_transaction from (OptBody opts) (UTF8 opts) (RequireTLS opts) (with_txStart now s)) (Ok tt)
      end
  end.

(** ** RCPT *)

Definition aliasRoutingRefusal (err : api_error) : option string :=
  match err with
  | APIError st code message =>
      if ((st =? 403) || (st =? 550)) && bool_decide (code = "rejected")
         && bool_decide (message = "Alias delivery is not available for this recipient.")
      then Some message else None
  | Unreachable => None
  end.
(** [None]: the recipient is no SRS address of this server's. *)
Definition rcptSRS (to : string) (s : session) : prog (session * option (result SMTPError unit)) :=
  match signer c with
  | None => Ret (s, None)
  | Some signer =>
      if signed_in s || negb (SRS.IsAddress to) then Ret (s, None)
      else
        hosted <- ask (QHosted (DomainFromAddress to));
        match hosted with
        | Err _ => Ret (s, Some (refuse 451 (4, 3, 0) "Temporary service failure"))
        | Ok false => Ret (s, None)
        | Ok true =>
            now <- ask QNow;
            match SRS.Reverse signer to now with
            | Err _ => s <- tarpitReject s; Ret (s, Some (refuse 550 (5, 1, 1) "No such user"))
            | Ok original => Ret (with_rcpt to (Some original) s, Some (Ok tt))
            end
        end
  end.
Definition Rcpt (to : string) (s : session) : prog answer :=
  match validateUTF8Address to (smtpUTF8 s) 553 with
  | Err e => Reply s (Err e)
  | Ok _ =>
      let* (s, handled) <- rcptSRS to s;
      match handled with
      | Some r => Reply s r
      | None =>
          resp <- ask (QCheckMailbox to);
          match resp with
          | Err err =>
              match aliasRoutingRefusal err with
              | Some reason => s <- tarpitReject s; Reply s (refuse 550 (5, 1, 1) reason)
              | None => Reply s (refuse 451 (4, 3, 0) "Temporary service failure")
              end
          | Ok exists_ =>
              if negb exists_ && negb (signed_in s) then
                s <- tarpitReject s; Reply s (refuse 550 (5, 1, 1) "No such user")
              else Reply (with_rcpt to None s) (Ok tt)
          end
      end
  end.

(** ** The parsed message: spool.go *)

Record parsedMessage := {
  subject : string; messageID : string; senderName : string; inReplyTo : string; references : string; fromAddr : string;
  toList : list string; ccList : list string; text : option string; html : option string
}.
Definition no_fields (t h : option string) : parsedMessage := {|
  subject := ""; messageID := ""; senderName := ""; inReplyTo := ""; references := ""; fromAddr := "";
  toList := []; ccList := []; text := t; html := h |}.
Definition bracket (a : ascii) : bool := bool_decide (a = "<"%char) || bool_decide (a = ">"%char).
Definition applyHeaders (h : Emails.Headers) (p : parsedMessage) : parsedMessage := {|
  subject := Emails.Subject h;
  messageID := Trim bracket (Emails.MessageID h);
  senderName := match Emails.From h with a :: _ => Emails.AName a | [] => "" end;
  inReplyTo := Trim bracket (Emails.InReplyTo h);
  references := Join (Emails.References h) " ";
  fromAddr := match Emails.From h with a :: _ => Emails.AAddress a | [] => "" end;
  toList := bareAddresses (Emails.To h);
  ccList := bareAddresses (Emails.Cc h);
  text := text p; html := html p |}.
Inductive parse_error := TooComplex | DiskFailed.
Definition on_disk {A} (r : result unit A) : prog (result parse_error A) :=
  fine <- ask QDisk; Ret (if fine : bool then match r with Ok a => Ok a | Err _ => Err DiskFailed end else Err DiskFailed).
Definition reads : nat -> bool := fun _ => true.
Definition parseSpooled (message : string) : prog (result parse_error parsedMessage) :=
  blank <-! on_disk (Ok (onlyWhitespace message));
  if blank : bool then Ret (Ok (no_fields None None))
  else
    terminated <-! on_disk (hasBlankLine message reads);
    p <- ask (QParseStream (if terminated then message else message +:+ crlf2));
    match outcome p with
    | ErrStructureLimit => Ret (Err TooComplex)
    | o =>
        if source_failed p || texts_failed p then Ret (Err DiskFailed)
        else match o with
             | Parsed h => Ret (Ok (applyHeaders h (no_fields (first_text p) (first_html p))))
             | _ => body <-! on_disk (recoverBody message reads); Ret (Ok (no_fields body None))
             end
    end.

(** ** DATA: the checks before anyone is given the message *)

Definition authorizeFromHeader (from : string) (s : session) : prog (result SMTPError unit) :=
  if bool_decide (from = "") then Ret (refuse 550 (5, 6, 0) "A valid From header is required")
  else
    may <- maySendAs from s;
    if allowed may then Ret (Ok tt)
    else Ret (refuse 550 (5, 7, 1) "From header address not authorized for this account").
Definition followSendingPolicy (from message : string) : prog (result SMTPError unit) :=
  policy <- ask (QSendingPolicy from);
  match policy with
  | Err _ => Ret (refuse 451 (4, 3, 0) "Could not check the domain's sending policy, try again later")
  | Ok policy =>
      let unsubscribe := match list_unsubscribe message with
                         | Some v => negb (bool_decide (TrimSpace v = ""))
                         | None => false
                         end in
      if bool_decide (policy = "bulk") && negb unsubscribe then
        Ret (refuse 550 (5, 7, 1) "This domain sends bulk mail: a List-Unsubscribe header is required")
      else if bool_decide (policy = "transactional") && unsubscribe then
        Ret (refuse 550 (5, 7, 1) "This domain sends transactional mail: a List-Unsubscribe header is not allowed")
      else Ret (Ok tt)
  end.
Definition reserveBudget (k : Conn) (from : string) (s : session) : prog (result SMTPError unit) :=
  let sender := unless_empty (mailFrom s) from in
  limited <- ask (QReserve {| AAccountID := accountID s; ACredentialID := credentialID s; ASender := sender;
                              AHeaderSender := from; ARecipients := Z.of_nat (List.length (rcptTo s));
                              ARemote := remoteAddr k |});
  match limited with
  | Err ErrAccountInactive => Ret (refuse 550 (5, 7, 1) "The sending account is inactive")
  | Ok false => Ret (Ok tt)
  | _ => Ret (refuse 451 (4, 7, 1) "Sending temporarily held; retain this message and retry later")
  end.
(** The message off the connection, with what it parses to. *)
Definition takeMessage (s : session) : prog (result SMTPError (string * parsedMessage)) :=
  received <- ask QReceive;
  match received with
  | Err (Protocol e) => Ret (Err e)
  | Err ReadFailed => Ret (refuse 451 (4, 3, 0) "Error reading message data")
  | Ok message =>
      fine <- ask QDisk;
      match validateUTF8Headers (if fine : bool then Some message else None) (smtpUTF8 s) with
      | Err e => Ret (Err e)
      | Ok _ =>
          fine <- ask QDisk;
          if negb fine then Ret messageDiskFailure
          else if (maxReceived c <? CountReceived message + 1)%nat then
            Ret (refuse 554 (5, 4, 6) "Routing loop detected: too many Received headers")
          else
            within <- (if signed_in s && negb (persistent c) then ask (QAllow (rateLimitKey s)) else Ret true);
            if negb within then Ret (refuse 451 (4, 7, 1) "Account rate limit exceeded, try again later")
            else
              parsed <- parseSpooled message;
              match parsed with
              | Err TooComplex =>
                  Ret (refuse 554 (5, 6, 0) "Message structure too complex: too deeply nested or too many MIME parts")
              | Err DiskFailed => Ret messageDiskFailure
              | Ok parsed => Ret (Ok (message, parsed))
              end
      end
  end.
Definition checkSubmission (k : Conn) (s : session) (message : string) (parsed : parsedMessage) : prog (result SMTPError unit) :=
  if signed_in s then
    _ <-! authorizeFromHeader (fromAddr parsed) s;
    _ <-! followSendingPolicy (fromAddr parsed) message;
    if persistent c then reserveBudget k (fromAddr parsed) s else Ret (Ok tt)
  else Ret (Ok tt).

(** ** DATA: the recipients *)

(** The loop's variables. [whole]: whether the file read back, once it was read. [local]:
    what a local recipient is delivered. *)
Record Loop := {
  accepted : nat;
  failed : nat;
  fail : SMTPError;
  submittedOnce : bool;
  submittedMsgID : option Z;
  whole : option bool;
  prepareLocal : bool;
  localErr : bool;
  local : string;
  localClientIP : string;
  localHelo : string;
  aliasFailure : string
}.
Definition temporary : SMTPError := {| Code := 451; EnhancedCode := (4, 3, 0); Message := "Temporary delivery failure" |}.
Definition count_accepted (l : Loop) : Loop := {|
  accepted := S (accepted l); failed := failed l; fail := fail l; submittedOnce := submittedOnce l;
  submittedMsgID := submittedMsgID l; whole := whole l; prepareLocal := prepareLocal l; localErr := localErr l;
  local := local l; localClientIP := localClientIP l; localHelo := localHelo l; aliasFailure := aliasFailure l |}.
Definition count_failed (e : SMTPError) (l : Loop) : Loop := {|
  accepted := accepted l; failed := S (failed l); fail := e; submittedOnce := submittedOnce l;
  submittedMsgID := submittedMsgID l; whole := whole l; prepareLocal := prepareLocal l; localErr := localErr l;
  local := local l; localClientIP := localClientIP l; localHelo := localHelo l; aliasFailure := aliasFailure l |}.
Definition with_whole (fine : bool) (l : Loop) : Loop := {|
  accepted := accepted l; failed := failed l; fail := fail l; submittedOnce := submittedOnce l;
  submittedMsgID := submittedMsgID l; whole := Some fine; prepareLocal := prepareLocal l; localErr := localErr l;
  local := local l; localClientIP := localClientIP l; localHelo := localHelo l; aliasFailure := aliasFailure l |}.
Definition with_submitted (id : option Z) (l : Loop) : Loop := {|
  accepted := accepted l; failed := failed l; fail := fail l; submittedOnce := true;
  submittedMsgID := id; whole := whole l; prepareLocal := prepareLocal l; localErr := localErr l;
  local := local l; localClientIP := localClientIP l; localHelo := localHelo l; aliasFailure := aliasFailure l |}.
(** [None]: the message could not be prepared. *)
Definition with_local (prepared : option string) (l : Loop) : Loop := {|
  accepted := accepted l; failed := failed l; fail := fail l; submittedOnce := submittedOnce l;
  submittedMsgID := submittedMsgID l; whole := whole l; prepareLocal := false;
  localErr := match prepared with Some _ => localErr l | None => true end;
  local := default (local l) prepared; localClientIP := ""; localHelo := ""; aliasFailure := aliasFailure l |}.
Definition with_alias (reason : string) (l : Loop) : Loop := {|
  accepted := accepted l; failed := failed l; fail := fail l; submittedOnce := submittedOnce l;
  submittedMsgID := submittedMsgID l; whole := whole l; prepareLocal := prepareLocal l; localErr := localErr l;
  local := local l; localClientIP := localClientIP l; localHelo := localHelo l; aliasFailure := reason |}.
(** [wholeMessage]: read once, its failure remembered. *)
Definition wholeMessage (l : Loop) : prog (Loop * bool) :=
  match whole l with
  | Some fine => Ret (l, fine)
  | None => fine <- ask QDisk; Ret (with_whole fine l, fine)
  end.

(** What the loop does not change. *)
Record Mail_ := {
  source : string;                   (* the message under the trace header *)
  parsed : parsedMessage;
  mID : string;
  security : option bool * string * string;
  lookups : gmap string (result api_error bool)
}.
(** The recipients that are no bounces, looked up again, in order. *)
Fixpoint lookup_all (s : session) (rcpts : list string) (m : gmap string (result api_error bool))
    : prog (result SMTPError (gmap string (result api_error bool))) :=
  match rcpts with
  | [] => Ret (Ok m)
  | rcpt :: rcpts =>
      match srsRelays s !! rcpt with
      | Some _ => lookup_all s rcpts m
      | None =>
          check <- ask (QCheckMailbox rcpt);
          match check with
          | Err err =>
              match aliasRoutingRefusal err with
              | Some reason => Ret (refuse 550 (5, 1, 1) reason)
              | None => lookup_all s rcpts (<[rcpt := check]> m)
              end
          | Ok _ => lookup_all s rcpts (<[rcpt := check]> m)
          end
      end
  end.

Definition relay_bounce (s : session) (m : Mail_) (rcpt original : string) (l : Loop) : prog Loop :=
  let* (l, fine) <- wholeMessage l;
  queued <- (if fine : bool then
               ask (QRelay {| BRecipient := original; BSendingDomain := DomainFromAddress rcpt; BRawMessage := source m;
                              BBodyType := bodyType s; MaxPerRecipient := srsBounceMax c; Window := srsWindow c |})
             else Ret (Err tt));
  match queued with Ok _ => Ret (count_accepted l) | Err _ => Ret (count_failed (fail l) l) end.
(** The sender's own copy of a submission, kept once for the bounces it may get. *)
Definition persist_submitted (s : session) (m : Mail_) (l : Loop) : prog Loop :=
  if authenticated s && negb (submittedOnce l) then
    let* (l, fine) <- wholeMessage l;
    text_fine <- ask QDisk;
    html_fine <- ask QDisk;
    if fine && text_fine && html_fine then
      ref <- ask (QPersist {| PSender := mailFrom s; PMessageID := mID m; PSenderName := senderName (parsed m);
                              PSubject := subject (parsed m); PBodyText := default "" (text (parsed m));
                              PBodyHTML := default "" (html (parsed m)); PInReplyTo := inReplyTo (parsed m);
                              PReferences := references (parsed m); PRawMessage := source m;
                              PRecipientsTo := toList (parsed m); PRecipientsCc := ccList (parsed m) |});
      Ret (with_submitted (match ref with Ok id => id | Err _ => submittedMsgID l end) l)
    else Ret (with_submitted (submittedMsgID l) l)
  else Ret l.
Definition enqueue (s : session) (m : Mail_) (rcpt : string) (l : Loop) : prog Loop :=
  l <- persist_submitted s m l;
  let* (l, fine) <- wholeMessage l;
  queued <- (if fine : bool then
               ask (QEnqueue {| OSender := mailFrom s; ORecipient := rcpt; ODomain := DomainFromAddress rcpt;
                                ORawMessage := source m; OBodyType := bodyType s; OMessageID := submittedMsgID l;
                                ORequireTLS := requireTLS s |})
             else Ret (Err tt));
  match queued with Ok _ => Ret (count_accepted l) | Err _ => Ret (count_failed (fail l) l) end.
Definition prepareSubmitted (s : session) (m : Mail_) (l : Loop) : prog (Loop * option string) :=
  let* (l, fine) <- wholeMessage l;
  if negb fine then Ret (l, None)
  else
    prepared <- ask (QPrepare (mailFrom s) (source m));
    match prepared with
    | Err _ => Ret (l, None)
    | Ok raw => stored <- ask QDisk; Ret (l, if stored : bool then Some raw else None)
    end.
(** The reply kept for the case that nobody gets the message. *)
Definition delivery_failure (err : api_error) : SMTPError :=
  match err with
  | APIError st _ _ =>
      if st =? 404 then {| Code := 550; EnhancedCode := (5, 1, 1); Message := "No such user" |}
      else if (st =? 403) || (st =? 550) then {| Code := 550; EnhancedCode := (5, 7, 1); Message := "Rejected by policy" |}
      else if st =? 422 then {| Code := 452; EnhancedCode := (4, 2, 2); Message := "Mailbox full" |}
      else if (st =? 503) || (st =? 451) then {| Code := 451; EnhancedCode := (4, 3, 0); Message := "Try again later" |}
      else temporary
  | Unreachable => temporary
  end.
Definition request (s : session) (m : Mail_) (rcpt : string) (l : Loop) : DeliverRequest :=
  let '(tls, version, cipher) := security m in
  {| DAddress := rcpt; DSender := mailFrom s; DSenderName := senderName (parsed m); DSubject := subject (parsed m);
     DMessageID := mID m; DInReplyTo := inReplyTo (parsed m); DReferences := references (parsed m);
     DClientIP := localClientIP l; DHeloName := localHelo l; DReceivedTLS := tls; DTLSVersion := version;
     DTLSCipher := cipher; DRequireTLS := requireTLS s; DRecipientsTo := toList (parsed m);
     DRecipientsCc := ccList (parsed m); DRawMessage := local l; DBodyText := text (parsed m); DBodyHTML := html (parsed m) |}.
Definition deliver_local (s : session) (m : Mail_) (rcpt : string) (l : Loop) : prog Loop :=
  l <- (if prepareLocal l then let* (l, prepared) <- prepareSubmitted s m l; Ret (with_local prepared l) else Ret l);
  if localErr l then Ret (count_failed temporary l)
  else
    sent <- ask (QDeliver (request s m rcpt l));
    match sent with
    | Ok _ => Ret (count_accepted l)
    | Err err =>
        let l := match aliasRoutingRefusal err with Some reason => with_alias reason l | None => l end in
        Ret (count_failed (delivery_failure err) l)
    end.
Definition handle (s : session) (m : Mail_) (rcpt : string) (l : Loop) : prog Loop :=
  match srsRelays s !! rcpt with
  | Some original => relay_bounce s m rcpt original l
  | None =>
      match default (Err Unreachable) (lookups m !! rcpt) with
      | Err _ => Ret (count_failed (fail l) l)
      | Ok false =>
          if negb (signed_in s) then
            Ret (count_failed {| Code := 550; EnhancedCode := (5, 1, 1); Message := "No such user" |} l)
          else enqueue s m rcpt l
      | Ok true => deliver_local s m rcpt l
      end
  end.
Fixpoint handle_all (s : session) (m : Mail_) (rcpts : list string) (l : Loop) : prog Loop :=
  match rcpts with
  | [] => Ret l
  | rcpt :: rcpts => l <- handle s m rcpt l; handle_all s m rcpts l
  end.
Definition reply_of (l : Loop) : result SMTPError unit :=
  if negb (bool_decide (aliasFailure l = "")) then refuse 550 (5, 1, 1) (aliasFailure l)
  else if (accepted l =? 0)%nat then Err (fail l)
  else Ok tt.
Definition start (k : Conn) (s : session) (raw : string) : Loop := {|
  accepted := 0; failed := 0; fail := temporary; submittedOnce := false; submittedMsgID := None; whole := None;
  prepareLocal := signed_in s; localErr := false; local := raw; localClientIP := extractIP (remoteAddr k);
  localHelo := ehlo k; aliasFailure := "" |}.
(** The trace header above the message. *)
Definition stamp (k : Conn) (s : session) (message : string) : prog string :=
  id <- ask QQueueID;
  now <- ask QNow;
  Ret (BuildReceivedHeader "" now (zone c)
         {| RFrom := ehlo k; RemoteIP := extractIP (remoteAddr k); By := hostname c;
            With := receivedWith (isTLS k) (authenticated s) (smtpUTF8 s); RID := id;
            For := singleRecipient (rcptTo s); Timestamp := now |} +:+ message).
Definition handOver (k : Conn) (s : session) (message : string) (parsed : parsedMessage) : prog (result SMTPError unit) :=
  mID <- (if bool_decide (messageID parsed = "") then ask (QMessageID (DomainFromAddress (mailFrom s)))
          else Ret (messageID parsed));
  raw <- stamp k s message;
  lookups <-! lookup_all s (rcptTo s) ∅;
  l <- handle_all s {| source := raw; parsed := parsed; mID := mID; security := inboundTransportSecurity (TLSState k);
                       lookups := lookups |} (rcptTo s) (start k s raw);
  Ret (reply_of l).
Definition receive (k : Conn) (s : session) : prog (result SMTPError unit) :=
  taken <-! takeMessage s;
  _ <-! checkSubmission k s (fst taken) (snd taken);
  handOver k s (fst taken) (snd taken).
Definition Data (k : Conn) (s : session) : prog answer :=
  r <- receive k s;
  s <- endTransaction (match r with Ok _ => txAccepted | Err _ => txRejected end) s;
  Reply s r.

Definition Reset (s : session) : prog session :=
  s <- endTransaction txAborted s; Ret (with_transaction "" "" false false s).
Definition Logout (s : session) : prog session :=
  s <- endTransaction txAborted s; closeAPISession s.

(** ** The commands of a connection *)

Inductive command :=
| CAuth (mech identity username password : string)
| CMail (from : string) (opts : MailOptions)
| CRcpt (to : string)
| CData
| CReset
| CLogout.
Definition serve (k : Conn) (cmd : command) (s : session) : prog answer :=
  match cmd with
  | CAuth mech identity username password => Auth k mech identity username password s
  | CMail from opts => Mail k from opts s
  | CRcpt to => Rcpt to s
  | CData => Data k s
  | CReset => s <- Reset s; Reply s (Ok tt)
  | CLogout => s <- Logout s; Reply s (Ok tt)
  end.
(** Whatever a client sends, in any order, the connection as it is at each command. *)
Fixpoint converse (cmds : list (Conn * command)) (s : session) : prog (list (result SMTPError unit)) :=
  match cmds with
  | [] => Ret []
  | (k, cmd) :: cmds =>
      let* (s, r) <- serve k cmd s;
      rs <- converse cmds s;
      Ret (r :: rs)
  end.
End Session.
End SmtpSession.
