(* ===== verification/SmtpSafety.v ===== *)
(** * What an SMTP session never does

    [inbound_never_relays]: port 25 is no open relay. Whatever commands come in whatever
    order, and whatever the API, the database, the disk and the clock answer. *)

From S2P Require Import Prelude GoTime GoStrings MailAddress QueueModel SRS Prog Emails SmtpText SmtpSession.
From Stdlib Require Import Ascii.

Module SmtpSafety.
Import GoTime GoStrings MailAddress Row Prog SmtpText SmtpSession.
Local Open Scope Z_scope.
Local Open Scope prog_scope.

Ltac walk_by L := (eapply always_mono; [|eapply L]).

Section Inbound.
Context `{Unicode, MailLib, SRSMac, MailReader} (c : Conf).
(** Any set of addresses that holds the senders valid SRS addresses carry. *)
Context (forwarded : string -> bool).
Context (port25 : isSubmission c = false).
Context (signs : forall sg to now original, signer c = Some sg -> SRS.Reverse sg to now = Ok original -> forwarded original = true).

(** A question an inbound session may ask. *)
Definition inbound : test Q := fun X q =>
  match q with
  | QOpenSession _ _ | QEnqueue _ | QPersist _ | QPrepare _ _ | QReserve _ | QAllow _ => false
  | QRelay b => forwarded (BRecipient b)
  | QDeliver d => match DReceivedTLS d with Some _ => true | None => false end
  | _ => true
  end.
Definition outsider (s : session) : Prop :=
  authenticated s = false /\ apiSession s = "" /\ forall to original, srsRelays s !! to = Some original -> forwarded original = true.
Definition stays (a : answer) : Prop := outsider (fst a).

Lemma signed_out s : signed_in c s = false.
Proof. unfold signed_in. by rewrite port25. Qed.
Lemma end_inbound o s : outsider s -> always inbound (endTransaction o s) outsider.
Proof. intros O. unfold endTransaction. walk; try done; exact O. Qed.
Lemma tarpit_inbound s : outsider s -> always inbound (tarpitReject c s) outsider.
Proof. intros O. unfold tarpitReject. walk; try done; exact O. Qed.
Lemma close_inbound s : outsider s -> always inbound (closeAPISession s) outsider.
Proof. intros O. unfold closeAPISession. walk; [exact O|]. split; [apply O|]. split; [done|apply O]. Qed.
Lemma outsider_rcpt to o s :
  outsider s -> match o with Some original => forwarded original = true | None => True end -> outsider (with_rcpt to o s).
Proof.
  intros (A & B & R) F. split; [done|]. split; [done|]. destruct o as [original|]; [|done]. simpl.
  intros x y. rewrite lookup_insert. case_decide; [by intros [= <-]|by apply R].
Qed.
Ltac signed_in_not := match goal with E : signed_in c _ = true |- _ => by rewrite signed_out in E end.
Lemma mail_inbound k from opts s : outsider s -> always inbound (Mail c k from opts s) stays.
Proof.
  intros O. unfold Mail, check_credential, Reply. rewrite port25, signed_out, andb_false_r. cbn [andb].
  destruct (validateUTF8Address _ _ _); [|exact O]. walk; try exact O; try signed_in_not.
  walk_by end_inbound; [|done].
  intros s' (A & B & _). walk. split; [done|]. split; [done|]. intros ??. simpl. by rewrite lookup_empty.
Qed.
Lemma rcpt_inbound to s : outsider s -> always inbound (Rcpt c to s) stays.
Proof.
  intros O. unfold Rcpt, rcptSRS, Reply. rewrite signed_out. cbn [orb].
  walk; try exact O; try (walk_by tarpit_inbound; [|done]; intros; walk; done);
    unfold stays; cbn [fst]; apply outsider_rcpt; try done. by eapply signs.
Qed.
Lemma parse_inbound message : always inbound (parseSpooled message) (fun _ => True).
Proof. unfold parseSpooled, on_disk. walk; done. Qed.
Lemma take_inbound s : always inbound (takeMessage c s) (fun _ => True).
Proof.
  unfold takeMessage. rewrite signed_out. cbn [andb]. walk; try done.
  walk_by parse_inbound. intros; walk; done.
Qed.
Lemma lookup_inbound s rcpts m : always inbound (lookup_all s rcpts m) (fun _ => True).
Proof. revert m. induction rcpts as [|r rcpts IH]; intros m; simpl; walk; done || apply IH. Qed.
Lemma handle_inbound s m rcpt l :
  outsider s -> fst (fst (security m)) <> None -> prepareLocal l = false ->
  always inbound (handle c s m rcpt l) (fun l => prepareLocal l = false).
Proof.
  intros (A & B & F) T P. unfold handle, relay_bounce, wholeMessage, deliver_local. rewrite signed_out, P. cbn [negb].
  walk; try done; cbn; try exact P; try (by eapply F); try (by destruct (aliasRoutingRefusal _)).
  unfold request. by destruct (security m) as [[[]]].
Qed.
Lemma handle_all_inbound s m rcpts l :
  outsider s -> fst (fst (security m)) <> None -> prepareLocal l = false ->
  always inbound (handle_all c s m rcpts l) (fun _ => True).
Proof.
  intros O T. revert l. induction rcpts as [|r rcpts IH]; intros l P; simpl; [done|].
  apply always_then. walk_by handle_inbound; [|done..]. apply IH.
Qed.
Lemma data_inbound k s : outsider s -> always inbound (Data c k s) stays.
Proof.
  intros O. apply always_then, (always_mono _ _ (fun _ => True)).
  { intros r _. walk. walk_by end_inbound; [|done]. intros. by apply always_ret. }
  unfold receive, checkSubmission, handOver, stamp. rewrite signed_out.
  apply always_try. walk_by take_inbound. intros [taken|e] _; [|done]. walk; try done.
  all: walk_by lookup_inbound; intros [m|e] _; [|done]; walk; walk_by handle_all_inbound; try done.
  all: unfold inboundTransportSecurity, start; rewrite ?port25; try apply signed_out; cbn; by destruct (TLSState k) as [[]|].
Qed.
Lemma serve_inbound k cmd s : outsider s -> always inbound (serve c k cmd s) stays.
Proof.
  intros O. destruct cmd; cbn [serve].
  - unfold Auth. rewrite port25. exact O.
  - by apply mail_inbound.
  - by apply rcpt_inbound.
  - by apply data_inbound.
  - unfold Reset, Reply. walk. walk_by end_inbound; [|done]. intros s' (A & B & _). walk.
    split; [done|]. split; [done|]. intros ??. simpl. by rewrite lookup_empty.
  - unfold Logout, Reply. walk. walk_by end_inbound; [|done]. intros s' O'. walk_by close_inbound; [|done]. intros. by apply always_ret.
Qed.

(** C3: Port 25 is no open relay. Whatever an unauthenticated client sends, in whatever
    order, and whatever the API, the database and the disk answer: the connection opens no
    API session, queues nothing for a remote recipient, stores no submission and spends no
    account's budget; the only mail it lets out is a bounce, to an address a valid SRS
    address of this server's carries; and each message it delivers says whether it came
    over TLS. *)
Theorem inbound_never_relays cmds : always inbound (converse c cmds new_session) (fun _ => True).
Proof.
  assert (O : outsider new_session) by (split; [done|]; split; [done|]; intros ??; simpl; by rewrite lookup_empty).
  revert O. generalize new_session. induction cmds as [|[k cmd] cmds IH]; intros s O; simpl; [done|].
  apply always_then. walk_by serve_inbound; [|done]. intros [s' r] O'. apply always_then.
  eapply always_mono; [|by apply IH]. intros. by apply always_ret.
Qed.
End Inbound.
End SmtpSafety.

(** * Who a submission session sends as

    [submission_authorized]: a ledger of what the API and the store answered, kept along
    every run of a submission port's connection. Nothing is queued, stored or prepared that
    the ledger does not cover. *)

Module SubmissionSafety.
Import GoTime GoStrings MailAddress Row Prog SmtpText SmtpSession SmtpSafety.
Local Open Scope Z_scope.
Local Open Scope prog_scope.

(** Who is signed in: what the API said of the credential given. *)
Record identity := { Email : string; Account : Z; Kind : string }.
(** The ledger. [subject]: the address the next answer on the account's own mailbox is
    about. [now_as], [ever_as]: the addresses it may send as, by answers since the message
    was asked for, and since the connection began. [header]: the message's From address.
    [covered]: how many more recipients the account's budget was charged for. *)
Record ledger := {
  user : option identity; subject : string; now_as : list string; ever_as : list string;
  text : option string; header : option string; follows : bool; covered : option nat
}.
Definition no_ledger : ledger :=
  {| user := None; subject := ""; now_as := []; ever_as := []; text := None; header := None; follows := false; covered := None |}.
Definition sign_in (u : option identity) (l : ledger) : ledger :=
  {| user := u; subject := from_option Email "" u; now_as := []; ever_as := ever_as l; text := None; header := None;
     follows := false; covered := None |}.
Definition matched (x : string) (l : ledger) : ledger :=
  {| user := user l; subject := x; now_as := now_as l; ever_as := ever_as l; text := text l; header := header l;
     follows := follows l; covered := covered l |}.
Definition clear_for (x : string) (l : ledger) : ledger :=
  {| user := user l; subject := from_option Email "" (user l); now_as := x :: now_as l; ever_as := x :: ever_as l;
     text := text l; header := header l; follows := follows l; covered := covered l |}.
Definition unmatched (l : ledger) : ledger := matched (from_option Email "" (user l)) l.
Definition with_text (m : option string) (l : ledger) : ledger :=
  {| user := user l; subject := subject l; now_as := []; ever_as := ever_as l; text := m; header := None;
     follows := false; covered := None |}.
Definition with_header (f : option string) (l : ledger) : ledger :=
  {| user := user l; subject := subject l; now_as := now_as l; ever_as := ever_as l; text := text l; header := f;
     follows := false; covered := None |}.
Definition with_follows (b : bool) (l : ledger) : ledger :=
  {| user := user l; subject := subject l; now_as := now_as l; ever_as := ever_as l; text := text l; header := header l;
     follows := b; covered := None |}.
Definition with_covered (n : option nat) (l : ledger) : ledger :=
  {| user := user l; subject := subject l; now_as := now_as l; ever_as := ever_as l; text := text l; header := header l;
     follows := follows l; covered := n |}.

Section Submission.
Context `{Unicode, MailLib, SRSMac, MailReader} (c : Conf).

(** What a bulk and a transactional domain's mail carries. *)
Definition obeys (policy message : string) : bool :=
  let unsubscribe := match list_unsubscribe message with Some v => negb (bool_decide (TrimSpace v = "")) | None => false end in
  if bool_decide (policy = "bulk") then unsubscribe
  else if bool_decide (policy = "transactional") then negb unsubscribe else true.
Definition is_account (a : Z) (l : ledger) : bool :=
  match user l with Some u => bool_decide (Account u = a) | None => false end.
Definition from_of (h : Emails.Headers) : string := match Emails.From h with a :: _ => Emails.AAddress a | [] => "" end.
Definition ends_in (raw m : string) : bool := bool_decide (drop_bytes (String.length raw - String.length m) raw = m).
(** A message under a From address the account may use, obeying its domain's policy, and
    charged for. *)
Definition ready (sender raw : string) (l : ledger) : bool :=
  match user l, header l, text l with
  | Some _, Some f, Some m =>
      negb (bool_decide (f = "")) && bool_decide (f ∈ now_as l) && follows l
      && (bool_decide (sender = "") || bool_decide (sender ∈ ever_as l)) && ends_in raw m
      && (negb (persistent c) || match covered l with Some _ => true | None => false end)
  | _, _, _ => false
  end.
Definition charge (l : ledger) : option ledger :=
  match covered l with
  | Some (S n) => Some (with_covered (Some n) l)
  | Some O => None
  | None => Some l
  end.
Definition keep (b : bool) (l : ledger) : option ledger := if b then Some l else None.
Definition authority : monitor Q ledger := fun X l q =>
  match q in Q X return X -> option ledger with
  | QOpenSession email _ => fun r => Some (match r with
      | Ok o => sign_in (Some {| Email := email; Account := OUserID o; Kind := OCredentialKind o |}) l
      | Err _ => l end)
  | QCredentialUsable _ => fun r => Some (match r with Ok false => sign_in None l | _ => l end)
  | QSenderMatches a x => fun r =>
      keep (is_account a l) (match r with Ok true => matched x l | _ => l end)
  | QAccountMaySend a => fun r =>
      keep (is_account a l) (match r with Ok true => clear_for (subject l) l | _ => unmatched l end)
  | QSenderAuthorized a x => fun r =>
      keep (is_account a l && match user l with Some u => bool_decide (Kind u = "password") | None => false end)
        (match r with Ok true => clear_for x l | _ => unmatched l end)
  | QReceive => fun r => Some (with_text (match r with Ok m => Some m | Err _ => None end) l)
  | QParseStream _ => fun r => Some (with_header (match outcome r with Parsed h => Some (from_of h) | _ => None end) l)
  | QSendingPolicy x => fun r =>
      keep (bool_decide (header l = Some x))
        (with_follows (match r, text l with Ok p, Some m => obeys p m | _, _ => false end) l)
  | QReserve a => fun r =>
      keep (is_account (AAccountID a) l && bool_decide (header l = Some (AHeaderSender a)) && follows l)
        (with_covered (match r with Ok false => Some (Z.to_nat (ARecipients a)) | _ => None end) l)
  | QPersist p => fun _ => keep (ready (PSender p) (PRawMessage p) l) l
  | QPrepare sender raw => fun _ => keep (ready sender raw l) l
  | QEnqueue o => fun _ => if ready (OSender o) (ORawMessage o) l then charge l else None
  | _ => fun _ => Some l
  end.

(** ** Questions the ledger does not record *)

Definition quiet : test Q := fun X q =>
  match q with
  | QOpenSession _ _ | QCredentialUsable _ | QSenderMatches _ _ | QAccountMaySend _ | QSenderAuthorized _ _ | QReceive
  | QParseStream _ | QSendingPolicy _ | QReserve _ | QPersist _ | QPrepare _ _ | QEnqueue _ => false
  | _ => true
  end.
Lemma wp_quiet {A} l (p : prog A) (post : A -> Prop) (post' : ledger -> A -> Prop) :
  always quiet p post -> (forall a, post a -> post' l a) -> wp authority l p post'.
Proof.
  intros Q0 I. eapply wp_mono; [|apply (wp_neutral authority l quiet p post); [|exact Q0]].
  - cbn beta. intros l' a [-> ?]. by apply I.
  - by intros X [].
Qed.

(** The ledger knows who the session says is signed in, and its envelope sender. *)
Definition tied (l : ledger) (s : session) : Prop :=
  (authenticated s = true -> user l = Some {| Email := authEmail s; Account := accountID s; Kind := credentialKind s |})
  /\ subject l = from_option Email "" (user l)
  /\ (mailFrom s = "" \/ mailFrom s ∈ ever_as l).
Definition grows (l l' : ledger) : Prop := user l' = user l /\ subject l' = subject l /\ ever_as l ⊆ ever_as l'.
Definition alike (s s' : session) : Prop := signed_in c s' = signed_in c s /\ forall l, tied l s -> tied l s'.
Lemma since_refl l : grows l l.
Proof. done. Qed.
Lemma since_trans l1 l2 l3 : grows l1 l2 -> grows l2 l3 -> grows l1 l3.
Proof. intros (A & B & C) (A' & B' & C'). split; [congruence|]. split; [congruence|set_solver]. Qed.
Lemma tied_grows l l' s : grows l l' -> tied l s -> tied l' s.
Proof.
  intros (A & B & C) (D & E & F). split; [by rewrite A|]. split; [congruence|]. destruct F; [by left|right; set_solver].
Qed.
Lemma end_quiet o s : always quiet (endTransaction o s) (alike s).
Proof. unfold endTransaction. walk; done. Qed.
Lemma tarpit_quiet s : always quiet (tarpitReject c s) (alike s).
Proof. unfold tarpitReject. walk; done. Qed.
Lemma close_quiet s : always quiet (closeAPISession s) (alike s).
Proof. unfold closeAPISession. walk; done. Qed.
Lemma lookup_quiet s rcpts m : always quiet (lookup_all s rcpts m) (fun _ => True).
Proof. revert m. induction rcpts as [|r rcpts IH]; intros m; simpl; walk; done || apply IH. Qed.

Ltac record := wp_walk ltac:(fun _ => cbn [authority keep andb]).
Definition identity_of (s : session) : identity := {| Email := authEmail s; Account := accountID s; Kind := credentialKind s |}.
Section Asking.
Context (l : ledger) (s : session) (known : user l = Some (identity_of s)).
Lemma account_known : is_account (accountID s) l = true.
Proof using known. unfold is_account. rewrite known. by apply bool_decide_true. Qed.
Lemma account_sends :
  wp authority l (ask (QAccountMaySend (accountID s)))
    (fun l' r => l' = if allowed r then clear_for (subject l) l else unmatched l).
Proof using known. record. rewrite account_known. cbn. by repeat case_match. Qed.
Lemma sender_granted x :
  credentialKind s = "password" ->
  wp authority l (ask (QSenderAuthorized (accountID s) x))
    (fun l' r => l' = if allowed r then clear_for x l else unmatched l).
Proof using known.
  intros K. record. rewrite account_known, known. cbn. rewrite (bool_decide_true _ K). cbn. by repeat case_match.
Qed.
Lemma sender_matched x :
  wp authority l (ask (QSenderMatches (accountID s) x)) (fun l' r => l' = if allowed r then matched x l else l).
Proof using known. record. rewrite account_known. cbn. by repeat case_match. Qed.
End Asking.
(** What asking for permission leaves of the ledger. *)
Definition asked (l l' : ledger) : Prop :=
  grows l l' /\ now_as l ⊆ now_as l' /\ text l' = text l /\ header l' = header l /\ follows l' = follows l /\ covered l' = covered l.
Definition permits (addr : string) (l l' : ledger) (r : result unit bool) : Prop :=
  asked l l' /\ (allowed r = true -> addr ∈ now_as l' /\ addr ∈ ever_as l').
Lemma permits_if addr l l' r :
  asked l (unmatched l') -> permits addr l (if allowed r then clear_for addr l' else unmatched l') r.
Proof.
  intros N. destruct (allowed r) eqn:R; [|split; [exact N|congruence]].
  destruct N as ((A & B & C) & D & E & F & G & I). cbn in *.
  split; [|set_solver]. unfold asked, grows. cbn. split_and!; try done; set_solver.
Qed.
Lemma may_send l s addr :
  authenticated s = true -> tied l s -> wp authority l (maySendAs addr s) (permits addr l).
Proof.
  intros A (U & S & _). specialize (U A). rewrite U in S. cbn in S.
  assert (N : forall x, asked l (unmatched (matched x l))) by (intros x; unfold unmatched; cbn; rewrite U; cbn; rewrite <- S; by repeat split).
  unfold maySendAs. apply wp_try. case_bool_decide as E.
  - apply wp_ret. eapply wp_mono; [|by apply account_sends]. intros l' r ->. rewrite S, <- E. by apply permits_if, (N "").
  - eapply wp_mono; [|by apply sender_matched]. intros l' [[]|[]] ->; cbn [allowed]; [| |split; [by repeat split|done]..].
    + eapply wp_mono; [|by apply account_sends]. intros l' r ->. cbn [matched subject]. apply permits_if, N.
    + case_bool_decide as K; cbn [negb]; [|split; [by repeat split|done]].
      eapply wp_mono; [|by apply sender_granted]. intros l' r ->. by apply permits_if, (N "").
Qed.

(** ** DATA *)

Definition read_into (l l' : ledger) (r : result SMTPError (string * parsedMessage)) : Prop :=
  grows l l' /\ forall m p, r = Ok (m, p) -> text l' = Some m /\ (fromAddr p <> "" -> header l' = Some (fromAddr p)).
Lemma parse_read l m :
  text l = Some m ->
  wp authority l (parseSpooled m) (fun l' r => grows l l' /\ text l' = Some m /\
    forall p, r = Ok p -> fromAddr p <> "" -> header l' = Some (fromAddr p)).
Proof.
  intros T. unfold parseSpooled, on_disk. record; (split; [done|]); (split; [done|]); intros p0 [=]; simplify_eq; try done.
Qed.
Lemma take_read l s : wp authority l (takeMessage c s) (read_into l).
Proof.
  unfold takeMessage, read_into. record; try (split; [done|by intros]).
  all: eapply wp_mono; [|by apply parse_read]; intros l' [p|[]] (G & T & F); record; (split; [exact G|]); intros m' p' [=]; subst; split; [done|by apply F].
Qed.

(** What the checks of a signed-in submission establish. *)
Definition checked (s : session) (m : string) (l : ledger) : Prop :=
  exists f, header l = Some f /\ f <> "" /\ f ∈ now_as l /\ follows l = true /\ text l = Some m /\
    covered l = if persistent c then Some (List.length (rcptTo s)) else None.
Lemma policy_obeyed l f m :
  header l = Some f -> text l = Some m -> f <> "" -> f ∈ now_as l ->
  wp authority l (followSendingPolicy f m) (fun l' r => grows l l' /\ (r = Ok tt ->
    header l' = Some f /\ f ∈ now_as l' /\ follows l' = true /\ text l' = Some m /\ covered l' = None)).
Proof.
  intros Hf T N I. unfold followSendingPolicy. apply wp_then, wp_ask. intros x. cbn [authority].
  rewrite Hf, T, bool_decide_true by done. cbn [keep]. destruct x as [p|]; [|done].
  set (b := match list_unsubscribe m with Some _ => _ | None => _ end).
  assert (O : obeys p m = if bool_decide (p = "bulk") then b else if bool_decide (p = "transactional") then negb b else true) by done.
  rewrite O. repeat case_bool_decide; destruct b; cbn; split; try done; by split_and!.
Qed.
Lemma submission_checked l k s m p :
  signed_in c s = true -> tied l s -> text l = Some m -> (fromAddr p <> "" -> header l = Some (fromAddr p)) ->
  wp authority l (checkSubmission c k s m p) (fun l' r => grows l l' /\ (r = Ok tt -> checked s m l')).
Proof.
  intros S T X F. unfold checkSubmission. rewrite S. apply andb_prop in S as [_ S]. apply wp_try. unfold authorizeFromHeader.
  case_bool_decide as E; [done|]. apply wp_then. specialize (F E).
  eapply wp_mono; [|by apply may_send]. intros l1 r ((G & I & A & B & C & D) & P). destruct (allowed r); [|done].
  destruct (P eq_refl) as [P1 P2]. apply wp_ret, wp_try. eapply wp_mono; [|apply (policy_obeyed l1 (fromAddr p) m); congruence || done].
  intros l2 [[]|] (G2 & O); [|split; [by eapply since_trans|done]]. destruct (O eq_refl) as (O1 & O2 & O3 & O4 & O5).
  assert (G' : grows l l2) by (by eapply since_trans). unfold checked. destruct (persistent c) eqn:Pe.
  - unfold reserveBudget. apply wp_then, wp_ask. intros x. cbn [authority AAccountID AHeaderSender ARecipients].
    rewrite (account_known l2 s), O1, O3, bool_decide_true by (done || (destruct (tied_grows _ _ _ G' T) as [U _]; by apply U)).
    cbn. destruct x as [[]|[]]; (split; [done|]); try done. intros _. exists (fromAddr p). cbn. split_and!; try done. f_equal. lia.
  - split; [done|]. intros _. by exists (fromAddr p).
Qed.

Lemma ends_in_app x y : ends_in (x +:+ y) y = true.
Proof.
  unfold ends_in. apply bool_decide_true. rewrite length_app_string.
  replace (_ + _ - _)%nat with (String.length x) by lia. apply drop_bytes_app.
Qed.
Definition room (n : nat) (l : ledger) : Prop := match covered l with Some k => (n <= k)%nat | None => True end.
(** What every question the recipients lead to needs. *)
Definition good (s : session) (m : Mail_) (n : nat) (l : ledger) : Prop :=
  ready (mailFrom s) (source m) l = true /\ room n l.
Lemma checked_ready s m l x n : 
  checked s m l -> user l <> None -> tied l s -> (n <= List.length (rcptTo s))%nat ->
  ready (mailFrom s) (x +:+ m) l = true /\ room n l.
Proof.
  intros (f & A & B & C & D & E & F) U (_ & _ & T) N. unfold ready, room. rewrite A, D, E, F, ends_in_app.
  destruct (user l); [|done]. rewrite (bool_decide_false _ B), (bool_decide_true _ C). cbn.
  destruct T as [T|T]; rewrite (bool_decide_true _ T), ?orb_true_r; cbn; by destruct (persistent c).
Qed.
Lemma charged s m n l : good s m (S n) l -> exists l', charge l = Some l' /\ good s m n l'.
Proof.
  unfold good, room, charge, ready. intros [R N]. destruct (covered l) as [[|k]|] eqn:E; [lia| |].
  - eexists. split; [done|]. cbn. split; [exact R|lia].
  - exists l. by rewrite E.
Qed.
Definition served (s : session) (m : Mail_) (n : nat) (l l' : ledger) : Prop := grows l l' /\ good s m n l'.
Lemma served_now s m n l : good s m (S n) l -> served s m n l l.
Proof. intros [R N]. split; [done|]. split; [done|]. unfold room in *. destruct (covered l); [lia|done]. Qed.
Lemma charge_served s m n l l' : good s m (S n) l -> charge l = Some l' -> served s m n l l'.
Proof.
  intros G E. destruct (charged s m n l G) as (l1 & E1 & G1). assert (l1 = l') as -> by congruence. split; [|done].
  unfold charge in E. destruct (covered l) as [[|k]|]; by simplify_eq.
Qed.
Lemma good_ready s m n l : good s m n l -> ready (mailFrom s) (source m) l = true.
Proof. by intros []. Qed.
Lemma queued_covered s m l x rcpt n :
  good s m (S n) l ->
  wp authority l (enqueue s m rcpt x) (fun l' _ => served s m n l l').
Proof.
  intros G. pose proof (good_ready _ _ _ _ G) as R. destruct (charged s m n l G) as (l' & E & _).
  unfold enqueue, persist_submitted, wholeMessage.
  wp_walk ltac:(fun _ => cbn [authority PSender PRawMessage OSender ORawMessage]; rewrite ?R, ?E; cbn [keep]).
  all: first [by apply served_now|by apply charge_served].
Qed.
Lemma delivered_covered s m l x rcpt n :
  good s m (S n) l -> wp authority l (deliver_local s m rcpt x) (fun l' _ => served s m n l l').
Proof.
  intros G. pose proof (good_ready _ _ _ _ G) as R. unfold deliver_local, prepareSubmitted, wholeMessage.
  wp_walk ltac:(fun _ => cbn [authority]; rewrite ?R; cbn [keep]). all: by apply served_now.
Qed.
Lemma handled_covered s m l x rcpt n :
  good s m (S n) l -> wp authority l (handle c s m rcpt x) (fun l' _ => served s m n l l').
Proof.
  intros G. unfold handle, relay_bounce, wholeMessage. wp_walk ltac:(fun _ => cbn [authority]).
  all: first [by apply served_now|by apply queued_covered|by apply delivered_covered].
Qed.
Lemma all_covered s m rcpts l x :
  good s m (List.length rcpts) l -> wp authority l (handle_all c s m rcpts x) (fun l' _ => grows l l').
Proof.
  revert l x. induction rcpts as [|r rcpts IH]; intros l x G; simpl; [done|].
  apply wp_then. eapply wp_mono; [|by apply handled_covered]. intros l' x' [G1 G2].
  eapply wp_mono; [|by apply IH]. intros. by eapply since_trans.
Qed.
(** Not signed in: nothing is asked that the ledger records. *)
Lemma unsigned_quiet s m rcpts x :
  signed_in c s = false -> prepareLocal x = false -> always quiet (handle_all c s m rcpts x) (fun _ => True).
Proof.
  intros S. revert x. induction rcpts as [|r rcpts IH]; intros x P; simpl; [done|]. apply always_then.
  unfold handle, relay_bounce, wholeMessage, deliver_local. rewrite S, P. cbn [negb]. walk; try done; apply IH; cbn; try exact P.
  by destruct (aliasRoutingRefusal _).
Qed.
Lemma handed_over k s m p l :
  (signed_in c s = true -> checked s m l) -> tied l s -> wp authority l (handOver c k s m p) (fun l' _ => grows l l').
Proof.
  intros C T. unfold handOver, stamp. wp_walk ltac:(fun _ => cbn [authority]).
  all: eapply wp_quiet; [apply lookup_quiet|]; intros [t|e] _; wp_walk ltac:(fun _ => cbn [authority]); [|done].
  all: destruct (signed_in c s) eqn:S.
  2,4: eapply wp_quiet; [apply unsigned_quiet; [exact S|exact S]|]; intros; by wp_walk ltac:(fun _ => idtac).
  all: eapply wp_mono; [|apply all_covered; apply checked_ready; [by apply C| |exact T|done]].
  all: try by (intros; wp_walk ltac:(fun _ => idtac)).
  all: apply andb_prop in S as [_ S]; destruct T as [U _]; by rewrite (U S).
Qed.
Lemma received_covered k s l : tied l s -> wp authority l (receive c k s) (fun l' _ => grows l l').
Proof.
  intros T. unfold receive. apply wp_try. eapply wp_mono; [|apply take_read]. intros l1 [[m p]|e] [G F]; [|done].
  destruct (F m p eq_refl) as [X Y]. apply wp_try. cbn [fst snd].
  assert (T1 := tied_grows _ _ _ G T). assert (T2 : forall l2, grows l1 l2 -> tied l2 s) by (intros; by eapply tied_grows).
  assert (done_ : forall l2, grows l1 l2 -> grows l l2) by (intros; by eapply since_trans).
  destruct (signed_in c s) eqn:S.
  - eapply wp_mono; [|by apply submission_checked]. intros l2 [[]|e] [G2 C]; [|by apply done_].
    eapply wp_mono; [|apply handed_over; [intros; by apply C|by apply T2]]. intros. apply done_. by eapply since_trans.
  - unfold checkSubmission. rewrite S. apply wp_ret. eapply wp_mono; [|by apply handed_over; [rewrite S|]]. intros. by apply done_.
Qed.

(** ** The commands *)

Definition still_tied (l : ledger) (a : answer) : Prop := tied l (fst a).
Lemma data_covered k s l : tied l s -> wp authority l (Data c k s) still_tied.
Proof.
  intros T. unfold Data. apply wp_then. eapply wp_mono; [|by apply received_covered]. intros l' r G. apply wp_then.
  eapply wp_quiet; [apply end_quiet|]. intros s' [_ A]. apply wp_ret, A. exact (tied_grows _ _ _ G T).
Qed.
Lemma auth_covered k mech i u p s l : tied l s -> wp authority l (Auth c k mech i u p s) still_tied.
Proof.
  intros T. assert (L : wp authority l (login c k u p s) still_tied).
  { unfold login, bannedNow, Reply. wp_walk ltac:(fun _ => cbn [authority]).
    all: try (eapply wp_quiet; [first [apply tarpit_quiet|apply close_quiet]|]; intros s' [_ A];
              wp_walk ltac:(fun _ => cbn [authority])).
    all: try exact T; try (by apply A). all: destruct (A _ T) as (_ & _ & M); split; [done|]; by split. }
  unfold Auth, Reply. by repeat case_match.
Qed.
Lemma signed_out_tied l s : tied l s -> tied (sign_in None l) (with_identity false "" 0 0 "" s).
Proof. intros (_ & _ & M). split; [done|]. split; [done|exact M]. Qed.
Lemma credential_covered s l : tied l s -> wp authority l (check_credential c s) (fun l' a => tied l' (fst a) /\
  (snd a = Ok tt -> fst a = s)).
Proof.
  intros T. unfold check_credential, Reply. wp_walk ltac:(fun _ => cbn [authority]); try by split.
  eapply wp_quiet; [apply close_quiet|]. intros s' [_ A]. apply wp_ret. split; [|done]. by apply A, signed_out_tied.
Qed.
Context (submission : isSubmission c = true).
Lemma mail_covered k from opts s l : tied l s -> wp authority l (Mail c k from opts s) still_tied.
Proof using submission.
  intros T. unfold Mail, Reply. rewrite submission, andb_true_r. cbn [andb].
  destruct (negb (isTLS k)); [exact T|]. destruct (authenticated s) eqn:A; [|exact T]. cbn [negb].
  destruct (validateUTF8Address _ _ _); [|exact T]. apply wp_then.
  eapply wp_mono; [|by apply credential_covered]. intros l1 [s1 [[]|e]] [T1 S1]; cbn [fst snd] in *; [|exact T1].
  rewrite (S1 eq_refl) in *. unfold signed_in. rewrite submission, A. cbn [andb]. apply wp_then.
  eapply wp_mono; [|by apply may_send]. intros l2 r ((G & _) & P). destruct (allowed r); cbn [negb]; [|by eapply tied_grows].
  destruct (P eq_refl) as [_ P']. apply wp_then. eapply wp_quiet; [apply end_quiet|]. intros s' [_ B]. apply wp_then, wp_ask.
  intros now. cbn [authority]. destruct (B _ (tied_grows _ _ _ G T1)) as (U & V & _). split; [done|]. split; [done|by right].
Qed.
Lemma rcpt_covered to s l : tied l s -> wp authority l (Rcpt c to s) still_tied.
Proof using.
  intros T. unfold Rcpt, rcptSRS, Reply. wp_walk ltac:(fun _ => cbn [authority]).
  all: try (eapply wp_quiet; [apply tarpit_quiet|]; intros s' [_ A]; wp_walk ltac:(fun _ => cbn [authority]); by apply A).
  all: exact T.
Qed.
Lemma serve_covered k cmd s l : tied l s -> wp authority l (serve c k cmd s) still_tied.
Proof using submission.
  intros T. destruct cmd; cbn [serve]; unfold Reset, Logout, Reply.
  - by apply auth_covered.
  - by apply mail_covered.
  - by apply rcpt_covered.
  - by apply data_covered.
  - apply wp_then, wp_then. eapply wp_quiet; [apply end_quiet|]. intros s' [_ A]. destruct (A _ T) as (U & V & _).
    do 2 apply wp_ret. split; [done|]. split; [done|by left].
  - apply wp_then, wp_then. eapply wp_quiet; [apply end_quiet|]. intros s' [_ A].
    eapply wp_quiet; [apply close_quiet|]. intros s2 [_ A2]. apply wp_ret, A2, A, T.
Qed.

End Submission.
End SubmissionSafety.
