(* ===== verification/SmtpReplies.v ===== *)
(** * What the reply to DATA means

    [data_reply_exact]: the one reply to DATA against what was done for each recipient.
    [everyone_served]: all of them get the message when all goes well. *)

From S2P Require Import Prelude GoTime GoStrings MailAddress QueueModel SRS Prog Emails SmtpText SmtpSession SmtpSafety.
From Stdlib Require Import Ascii.

Module SmtpReplies.
Import GoTime GoStrings MailAddress Row Prog SmtpText SmtpSession SmtpSafety.
Local Open Scope Z_scope.
Local Open Scope prog_scope.
Section Replies.
Context `{Unicode, MailLib, SRSMac, MailReader} (c : Conf).

(** ** DATA *)

(** Whom the message was delivered, queued or sent back to, in order, and whether an alias
    was refused it. *)
Record tally := { committed : list string; alias_refused : bool }.
Definition nothing : tally := {| committed := []; alias_refused := false |}.
Definition commit {E} (to : string) (r : result E unit) (t : tally) : tally :=
  match r with Ok _ => {| committed := committed t ++ [to]; alias_refused := alias_refused t |} | Err _ => t end.
Definition commits : monitor Q tally := fun X t q =>
  match q in Q X return X -> option tally with
  | QDeliver d => fun r => Some (match r with
      | Err e => match aliasRoutingRefusal e with
                 | Some _ => {| committed := committed t; alias_refused := true |} | None => t end
      | Ok _ => commit (DAddress d) r t end)
  | QEnqueue o => fun r => Some (commit (ORecipient o) r t)
  | QRelay b => fun r => Some (commit (BRecipient b) r t)
  | _ => fun _ => Some t
  end.
(** Whom a recipient of the transaction stands for. *)
Definition target (s : session) (rcpt : string) : string := default rcpt (srsRelays s !! rcpt).

Definition before : test Q := fun X q => match q with QDeliver _ | QEnqueue _ | QRelay _ => false | _ => true end.
Lemma wp_before {A} t (p : prog A) (post : A -> Prop) (post' : tally -> A -> Prop) :
  always before p post -> (forall a, post a -> post' t a) -> wp commits t p post'.
Proof.
  intros B I. eapply wp_mono; [|apply (wp_neutral commits t before p post); [|exact B]].
  - cbn beta. intros t' a [-> ?]. by apply I.
  - by intros X [].
Qed.
(** Neither handing the message on nor a password's business. *)
Definition preliminary : test Q := fun X q =>
  match q with
  | QDeliver _ | QEnqueue _ | QRelay _ | QIsBanned _ | QIsUserBanned _ | QOpenSession _ _ | QRecordAuthFail _
  | QRecordAuthFailUser _ | QResetAuth _ | QResetAuthUser _ => false
  | _ => true
  end.
Lemma preliminary_before {A} (p : prog A) post : always preliminary p post -> always before p post.
Proof. apply always_weaken. by intros X []. Qed.
Lemma take_preliminary s : always preliminary (takeMessage c s) (fun _ => True).
Proof. unfold takeMessage, parseSpooled, on_disk. walk; done. Qed.
Lemma check_preliminary k s m p : always preliminary (checkSubmission c k s m p) (fun _ => True).
Proof. unfold checkSubmission, authorizeFromHeader, maySendAs, followSendingPolicy, reserveBudget. walk; done. Qed.
Lemma lookup_preliminary s rcpts m : always preliminary (lookup_all s rcpts m) (fun _ => True).
Proof. revert m. induction rcpts as [|r rcpts IH]; intros m; simpl; walk; done || apply IH. Qed.
Lemma end_preliminary o s : always preliminary (endTransaction o s) (fun _ => True).
Proof. unfold endTransaction. walk; done. Qed.
Lemma tarpit_preliminary s : always preliminary (tarpitReject c s) (fun _ => True).
Proof. unfold tarpitReject. walk; done. Qed.
Lemma close_preliminary s : always preliminary (closeAPISession s) (fun _ => True).
Proof. unfold closeAPISession. walk; done. Qed.

(** The loop's counts are the tally's. *)
Definition agree (l : Loop) (t : tally) : Prop :=
  accepted l = List.length (committed t) /\ (aliasFailure l <> "" <-> alias_refused t = true).
Lemma alias_reason e reason : aliasRoutingRefusal e = Some reason -> reason <> "".
Proof. destruct e as [st code m|]; cbn; [|done]. case_match; [|done]. intros [= <-]. by bprop; destruct_and?; subst. Qed.
(** One recipient done: committed, as its target, or not. *)
Definition one (s : session) (rcpt : string) (t t' : tally) (l' : Loop) : Prop :=
  agree l' t' /\ exists x, committed t' = committed t ++ x /\ (x = [] \/ x = [target s rcpt]).
Lemma one_none s rcpt t l : agree l t -> one s rcpt t t l.
Proof. intros A. split; [done|]. exists []. rewrite app_nil_r. by split; [|left]. Qed.
Lemma one_more {E} s rcpt t l to :
  agree l t -> to = target s rcpt -> one s rcpt t (@commit E to (Ok tt) t) (count_accepted l).
Proof.
  intros [A B] ->. split; [split; [cbn; rewrite length_app; cbn; lia|exact B]|].
  exists [target s rcpt]. by split; [|right].
Qed.
Lemma one_refused s rcpt t l l0 e reason :
  agree l t -> accepted l0 = accepted l -> aliasRoutingRefusal e = Some reason -> aliasFailure l0 = reason ->
  one s rcpt t {| committed := committed t; alias_refused := true |} l0.
Proof.
  intros [A B] C R F. split; [split; cbn; [congruence|split; [done|intros _; rewrite F; by eapply alias_reason]]|].
  exists []. rewrite app_nil_r. by split; [|left].
Qed.
Definition kept (l l' : Loop) : Prop := forall t, agree l t -> agree l' t.
Lemma whole_kept l : always before (wholeMessage l) (fun p => kept l (fst p)).
Proof. unfold wholeMessage. walk; intros t A; exact A. Qed.
Lemma persist_kept s m l : always before (persist_submitted s m l) (kept l).
Proof.
  unfold persist_submitted. destruct (_ && _); [|by intros t A]. apply always_then. walk_by whole_kept. intros [l' fine] K. cbn [fst] in K.
  walk; intros t A; exact (K t A).
Qed.
Lemma prepare_kept s m l :
  always before (let* (l, prepared) <- prepareSubmitted s m l; Ret (with_local prepared l)) (kept l).
Proof.
  unfold prepareSubmitted. apply always_then, always_then. walk_by whole_kept. intros [l' fine] K. cbn [fst] in K.
  walk; intros t A; exact (K t A).
Qed.
(** A question that commits, or does not. *)
Ltac tallies := wp_walk ltac:(fun _ => cbn [commits]).
Lemma counted s rcpt t l (r : result unit unit) to :
  agree l t -> to = target s rcpt ->
  wp commits (commit to r t) (match r with Ok _ => Ret (count_accepted l) | Err _ => Ret (count_failed (fail l) l) end)
    (fun t' l' => one s rcpt t t' l').
Proof. intros A T. destruct r as [[]|[]]; apply wp_ret; [by apply one_more|by apply one_none]. Qed.
Lemma relayed_agrees s m rcpt original l t :
  agree l t -> original = target s rcpt ->
  wp commits t (relay_bounce c s m rcpt original l) (fun t' l' => one s rcpt t t' l').
Proof.
  intros A T. unfold relay_bounce. apply wp_then. eapply wp_before; [apply whole_kept|]. intros [l' []] K; cbn [fst] in K; apply wp_then.
  - apply wp_ask. intros r. cbn [commits BRecipient]. apply counted; [by apply K|done].
  - by apply wp_ret, wp_ret, one_none, K.
Qed.
Lemma enqueued_agrees s m rcpt l t :
  agree l t -> rcpt = target s rcpt -> wp commits t (enqueue s m rcpt l) (fun t' l' => one s rcpt t t' l').
Proof.
  intros A T. unfold enqueue. apply wp_then. eapply wp_before; [apply persist_kept|]. intros l1 K1. apply wp_then.
  eapply wp_before; [apply whole_kept|]. intros [l' []] K; cbn [fst] in K; apply wp_then.
  - apply wp_ask. intros r. cbn [commits ORecipient]. apply counted; [by apply K, K1|done].
  - by apply wp_ret, wp_ret, one_none, K, K1.
Qed.
Lemma delivered_agrees s m rcpt l t :
  agree l t -> rcpt = target s rcpt -> wp commits t (deliver_local s m rcpt l) (fun t' l' => one s rcpt t t' l').
Proof.
  intros A T. unfold deliver_local. apply wp_then.
  assert (K : always before (if prepareLocal l then let* (l, prepared) <- prepareSubmitted s m l; Ret (with_local prepared l)
                             else Ret l) (kept l)) by (destruct (prepareLocal l); [apply prepare_kept|by intros t' A']).
  eapply wp_before; [exact K|]. intros l1 K1. specialize (K1 t A). destruct (localErr l1); [by apply wp_ret, one_none|].
  apply wp_then, wp_ask. intros [[]|e]; cbn [commits].
  - apply wp_ret, one_more; [done|]. unfold request. by destruct (security m) as [[]].
  - apply wp_ret. destruct (aliasRoutingRefusal e) as [reason|] eqn:R; [|by apply one_none].
    by apply (one_refused _ _ _ l1 _ e reason).
Qed.
Lemma handled_agrees s m rcpt l t :
  agree l t -> wp commits t (handle c s m rcpt l) (fun t' l' => one s rcpt t t' l').
Proof.
  intros A. unfold handle. destruct (srsRelays s !! rcpt) as [original|] eqn:E.
  - apply relayed_agrees; [done|]. unfold target. by rewrite E.
  - assert (T : rcpt = target s rcpt) by (unfold target; by rewrite E).
    destruct (default _ _) as [[]|]; [by apply delivered_agrees| |by apply wp_ret, one_none].
    destruct (negb _); [by apply wp_ret, one_none|by apply enqueued_agrees].
Qed.
Lemma all_agree s m rcpts l t :
  agree l t -> wp commits t (handle_all c s m rcpts l) (fun t' l' =>
    agree l' t' /\ exists x, committed t' = committed t ++ x /\ x `sublist_of` (target s <$> rcpts)).
Proof.
  revert l t. induction rcpts as [|r rcpts IH]; intros l t A; simpl.
  { split; [done|]. exists []. by rewrite app_nil_r. }
  apply wp_then. eapply wp_mono; [|by apply handled_agrees]. intros t1 l1 (A1 & x & E1 & X).
  eapply wp_mono; [|by apply IH]. intros t2 l2 (A2 & y & E2 & Y). split; [done|]. exists (x ++ y).
  split; [by rewrite E2, E1, app_assoc|]. destruct X as [->| ->]; simpl; by constructor.
Qed.

Lemma reply_agrees l t : agree l t -> (reply_of l = Ok tt <-> committed t <> [] /\ alias_refused t = false).
Proof.
  intros [A B]. unfold reply_of. case_bool_decide as F; cbn [negb].
  - assert (N : alias_refused t = false) by (destruct (alias_refused t); [by apply B in F|done]).
    rewrite A, N. destruct (committed t); cbn; split; [done|by intros []|done|done].
  - assert (N : alias_refused t = true) by (by apply B). rewrite N. by split; [|intros []].
Qed.

(** C22: What the one reply to DATA means. It is a success exactly when the message was
    delivered, queued or relayed for some recipient and no alias refused it, whatever was
    answered; and whoever got it got it once for each time the transaction named it, in
    the transaction's order: no recipient is handled twice. *)
Theorem data_reply_exact k s :
  wp commits nothing (Data c k s) (fun t a =>
    (snd a = Ok tt <-> committed t <> [] /\ alias_refused t = false) /\
    committed t `sublist_of` (target s <$> rcptTo s)).
Proof.
  unfold Data. apply wp_then. eapply wp_mono with (post := fun t r => (r = Ok tt <-> committed t <> [] /\ alias_refused t = false) /\
    committed t `sublist_of` (target s <$> rcptTo s)).
  { intros t r E. apply wp_then. eapply wp_before; [apply preliminary_before, end_preliminary|]. done. }
  assert (no : forall e : SMTPError, (Err e = Ok tt <-> committed nothing <> [] /\ alias_refused nothing = false) /\
    committed nothing `sublist_of` (target s <$> rcptTo s)) by (intros e; split; [by split; [|intros []]|apply sublist_nil_l]).
  unfold receive, handOver, stamp. apply wp_try. eapply wp_before; [apply preliminary_before, take_preliminary|]. intros [[m p]|e] _; [|apply no].
  apply wp_try. eapply wp_before; [apply preliminary_before, check_preliminary|]. intros [[]|e] _; [|apply no]. tallies.
  all: eapply wp_before; [apply preliminary_before, lookup_preliminary|]; intros [ms|e] _; tallies; [|apply no].
  all: eapply wp_mono; [|apply all_agree; by split].
  all: intros t l (A & y & E & X); apply wp_ret; rewrite E; split; [rewrite <- E; by apply reply_agrees|exact X].
Qed.

(** ** When everyone answers well *)

(** The API delivers, the store queues, the disk works; every recipient is a mailbox here,
    or this is a submission. *)
Definition willing (h : outside Q) (s : session) : Prop :=
  (forall d, h _ (QDeliver d) = Ok tt) /\ (forall o, h _ (QEnqueue o) = Ok tt) /\ (forall b, h _ (QRelay b) = Ok tt)
  /\ h _ QDisk = true /\ (forall sender raw, is_ok (h _ (QPrepare sender raw)) = true)
  /\ (forall a, exists b, h _ (QCheckMailbox a) = Ok b /\ (b = true \/ signed_in c s = true)).
Definition smooth (l : Loop) : Prop := whole l <> Some false /\ localErr l = false /\ aliasFailure l = "".
Section Willing.
Context (h : outside Q) (s : session) (W : willing h s).
Definition leads {A} (t : tally) (p : prog A) (t' : tally) (a : A) : Prop := watch commits t h p = Some (t', a).
Lemma leads_ret {A} t (a : A) : leads t (Ret a) t a.
Proof. done. Qed.
Lemma leads_then {A B} t (p : prog A) (f : A -> prog B) t1 a t2 b :
  leads t p t1 a -> leads t1 (f a) t2 b -> leads t (bind p f) t2 b.
Proof. intros E. unfold leads. by rewrite (watch_then _ _ _ _ _ _ _ E). Qed.
Lemma leads_ask {X} t (q : Q X) x t' : h _ q = x -> commits X t q x = Some t' -> leads t (ask q) t' x.
Proof. unfold leads. cbn. by intros -> ->. Qed.
Lemma disk_well t : leads t (ask QDisk) t true.
Proof using W. by apply leads_ask; [apply W|]. Qed.
Lemma whole_well t l : smooth l ->
  exists l', leads t (wholeMessage l) t (l', true) /\ smooth l' /\ accepted l' = accepted l.
Proof using W.
  intros (A & B & C). unfold wholeMessage. destruct (whole l) as [[]|] eqn:E; [|done|].
  - exists l. split; [apply leads_ret|]. split; [|done]. by split; [congruence|].
  - exists (with_whole true l). split; [|done].
    eapply leads_then; [apply disk_well|]. apply leads_ret.
Qed.
Definition well_done (t : tally) (l : Loop) (p : prog Loop) (to : list string) : Prop :=
  exists l', leads t p {| committed := committed t ++ to; alias_refused := alias_refused t |} l' /\ smooth l' /\
    accepted l' = (accepted l + List.length to)%nat.
Lemma persist_well m t l : smooth l ->
  exists l', leads t (persist_submitted s m l) t l' /\ smooth l' /\ accepted l' = accepted l.
Proof using W.
  intros S. unfold persist_submitted. destruct (_ && _); [|by exists l].
  destruct (whole_well t l S) as (l1 & E & S1 & A1).
  eexists (with_submitted _ l1). split; [|split; [exact S1|exact A1]].
  eapply leads_then; [exact E|]. cbn beta iota. do 2 (eapply leads_then; [apply disk_well|]). cbn [andb].
  eapply leads_then; [by apply leads_ask|]. apply leads_ret.
Qed.
Lemma relay_well m rcpt original t l : smooth l -> well_done t l (relay_bounce c s m rcpt original l) [original].
Proof using W.
  intros S. unfold well_done, relay_bounce. destruct (whole_well t l S) as (l1 & E & S1 & A1).
  exists (count_accepted l1). split; [|split; [exact S1|cbn; lia]].
  eapply leads_then; [exact E|]. eapply leads_then; [apply leads_ask; [apply W|done]|]. apply leads_ret.
Qed.
Lemma enqueue_well m rcpt t l : smooth l -> well_done t l (enqueue s m rcpt l) [rcpt].
Proof using W.
  intros S. unfold well_done, enqueue. destruct (persist_well m t l S) as (l0 & E0 & S0 & A0).
  destruct (whole_well t l0 S0) as (l1 & E & S1 & A1).
  exists (count_accepted l1). split; [|split; [exact S1|cbn; lia]].
  eapply leads_then; [exact E0|]. eapply leads_then; [exact E|].
  eapply leads_then; [apply leads_ask; [apply W|done]|]. apply leads_ret.
Qed.
Lemma prepare_well m t l : smooth l ->
  exists l', leads t (let* (l, prepared) <- prepareSubmitted s m l; Ret (with_local prepared l)) t l' /\ smooth l' /\ accepted l' = accepted l.
Proof using W.
  intros S. destruct (whole_well t l S) as (l1 & E & S1 & A1). destruct W as (_ & _ & _ & _ & P & _).
  specialize (P (mailFrom s) (source m)). destruct (h _ (QPrepare (mailFrom s) (source m))) as [raw|] eqn:R; [|done].
  exists (with_local (Some raw) l1). split; [|split; [exact S1|exact A1]]. unfold prepareSubmitted.
  eapply leads_then; [eapply leads_then; [exact E|]; cbn [negb]; eapply leads_then; [by apply leads_ask|];
    eapply leads_then; [apply disk_well|]; apply leads_ret|]. apply leads_ret.
Qed.
Lemma deliver_well m rcpt t l : smooth l -> well_done t l (deliver_local s m rcpt l) [rcpt].
Proof using W.
  intros S. unfold well_done, deliver_local.
  assert (P : exists l1, leads t (if prepareLocal l then let* (l, prepared) <- prepareSubmitted s m l; Ret (with_local prepared l)
                                  else Ret l) t l1 /\ smooth l1 /\ accepted l1 = accepted l)
    by (destruct (prepareLocal l); [by apply prepare_well|by exists l]).
  destruct P as (l1 & E & S1 & A1). exists (count_accepted l1). split; [|split; [exact S1|cbn; lia]].
  eapply leads_then; [exact E|]. destruct S1 as (_ & -> & _).
  eapply leads_then; [apply leads_ask; [apply W|done]|]. cbn beta iota. unfold request. destruct (security m) as [[]]. apply leads_ret.
Qed.
Lemma handle_well m rcpt t l :
  (srsRelays s !! rcpt = None -> exists b, lookups m !! rcpt = Some (Ok b) /\ (b = true \/ signed_in c s = true)) ->
  smooth l -> well_done t l (handle c s m rcpt l) [target s rcpt].
Proof using W.
  intros K S. unfold handle, target. destruct (srsRelays s !! rcpt) as [original|]; [by apply relay_well|].
  destruct (K eq_refl) as (b & -> & B). cbn [default from_option]. destruct b; [by apply deliver_well|].
  destruct B as [|B]; [done|]. rewrite B. by apply enqueue_well.
Qed.
Definition known (m : gmap string (result api_error bool)) (r : string) : Prop :=
  srsRelays s !! r = None -> exists b, m !! r = Some (Ok b) /\ (b = true \/ signed_in c s = true).
Lemma lookup_well rcpts m t :
  exists m', leads t (lookup_all s rcpts m) t (Ok m') /\ forall r, known m r \/ r ∈ rcpts -> known m' r.
Proof using W.
  revert m. induction rcpts as [|a rcpts IH]; intros m; cbn [lookup_all].
  { exists m. split; [apply leads_ret|]. by intros r [?|?%elem_of_nil]. }
  destruct (srsRelays s !! a) as [o|] eqn:E.
  - destruct (IH m) as (m' & L & K). exists m'. split; [exact L|]. intros r [?|[->|?]%elem_of_cons]; [by apply K; left| |by apply K; right].
    intros N. congruence.
  - destruct W as (_ & _ & _ & _ & _ & C). destruct (C a) as (b & A & B). destruct (IH (<[a := Ok b]> m)) as (m' & L & K).
    exists m'. split; [eapply leads_then; [apply leads_ask; [exact A|done]|]; exact L|].
    assert (Ka : known (<[a := Ok b]> m) a) by (intros _; exists b; by rewrite lookup_insert_eq).
    intros r [R|[->|?]%elem_of_cons]; [|by apply K; left|by apply K; right]. apply K. left.
    destruct (decide (r = a)) as [->|N]; [done|]. intros M. rewrite lookup_insert_ne by done. by apply R.
Qed.
Lemma all_well m rcpts t l :
  (forall r, r ∈ rcpts -> known (lookups m) r) -> smooth l -> well_done t l (handle_all c s m rcpts l) (target s <$> rcpts).
Proof using W.
  revert t l. induction rcpts as [|r rcpts IH]; intros t l K S; cbn [handle_all fmap list_fmap].
  { exists l. split; [|split; [done|cbn; lia]]. rewrite app_nil_r. by destruct t. }
  destruct (handle_well m r t l) as (l1 & E1 & S1 & A1); [by apply K; left|done|].
  destruct (IH {| committed := committed t ++ [target s r]; alias_refused := alias_refused t |} l1) as (l2 & E2 & S2 & A2);
    [intros; apply K; by right|done|].
  exists l2. split; [|split; [done|cbn in *; lia]]. eapply leads_then; [exact E1|].
  cbn [committed alias_refused] in E2. by rewrite <- app_assoc in E2.
Qed.
Lemma leads_before {A} t (p : prog A) (post : A -> Prop) : always before p post -> leads t p t (run h p).
Proof using.
  intros B. assert (P : wp commits t p (fun t' _ => t' = t)) by by apply (wp_before _ _ _ _ B).
  destruct (wp_watch _ h _ _ _ P) as (t' & E & ->). exact E.
Qed.
Lemma hand_over_well k message p :
  rcptTo s <> [] ->
  leads nothing (handOver c k s message p) {| committed := target s <$> rcptTo s; alias_refused := false |} (Ok tt).
Proof using W.
  intros N. unfold handOver. eapply leads_then; [apply leads_before with (post := fun _ => True); by destruct (bool_decide _); walk|].
  eapply leads_then; [unfold stamp; do 2 (eapply leads_then; [by apply leads_ask|]); apply leads_ret|].
  destruct (lookup_well (rcptTo s) ∅ nothing) as (ms & L & K). unfold try_.
  eapply leads_then; [exact L|]. cbn beta iota.
  edestruct all_well as (l & E & (S1 & S2 & S3) & A); [..|eapply leads_then; [exact E|]].
  - intros r I. apply K. by right.
  - done.
  - unfold reply_of. rewrite S3. cbn [bool_decide decide]. rewrite A. by destruct (rcptTo s).
Qed.
End Willing.

(** C31: Nobody is forgotten. When the message was read and the checks passed, and then the
    API, the store and the disk do as they are asked, and each recipient is a mailbox here
    or the session is a signed-in submission, DATA succeeds and the message was handed on
    for every recipient of the transaction, once each, in order: the bounces to the senders
    their SRS addresses carry, the rest to the recipients as named. *)
Theorem everyone_served h k s message p :
  willing h s -> rcptTo s <> [] -> run h (takeMessage c s) = Ok (message, p) -> run h (checkSubmission c k s message p) = Ok tt ->
  exists s', watch commits nothing h (Data c k s) =
    Some ({| committed := target s <$> rcptTo s; alias_refused := false |}, (s', Ok tt)).
Proof.
  intros W N T C. unfold Data, receive, try_, Reply. eexists.
  eapply (leads_then h); [eapply (leads_then h)|].
  - eapply leads_before, preliminary_before, take_preliminary.
  - rewrite T. cbn beta iota zeta. eapply (leads_then h); [eapply leads_before, preliminary_before, check_preliminary|].
    cbn [fst snd]. rewrite C. by apply hand_over_well.
  - cbn beta iota. eapply (leads_then h); [eapply leads_before, preliminary_before, end_preliminary|]. apply leads_ret.
Qed.
End Replies.
End SmtpReplies.

(** * Passwords on an SMTP session

    [login_counts]: which passwords are tried, and what a refused one costs. *)

Module SmtpLogin.
Import GoTime GoStrings MailAddress Row Prog SmtpText SmtpSession SmtpSafety SmtpReplies.
Local Open Scope Z_scope.
Local Open Scope prog_scope.
Section Login.
Context `{Unicode, MailLib, SRSMac, MailReader} (c : Conf).

(** [ip_clear], [user_clear]: not banned, when last asked, since the last password tried;
    [ip_owed], [user_owed]: a refused password not counted yet; [ip_free], [user_free]: a
    password that was right, its failures not forgotten yet. *)
Record guard := {
  ip_clear : bool; user_clear : option string; ip_owed : bool; user_owed : option string; ip_free : bool; user_free : option string
}.
Definition idle : guard :=
  {| ip_clear := false; user_clear := None; ip_owed := false; user_owed := None; ip_free := false; user_free := None |}.
Definition settled (g : guard) : Prop := ip_owed g = false /\ user_owed g = None /\ ip_free g = false /\ user_free g = None.
Definition owing (u : string) : guard :=
  {| ip_clear := false; user_clear := None; ip_owed := true; user_owed := Some u; ip_free := false; user_free := None |}.
Definition freeing (u : string) : guard :=
  {| ip_clear := false; user_clear := None; ip_owed := false; user_owed := None; ip_free := true; user_free := Some u |}.
Definition with_bans (i : bool) (u : option string) (g : guard) : guard :=
  {| ip_clear := i; user_clear := u; ip_owed := ip_owed g; user_owed := user_owed g; ip_free := ip_free g; user_free := user_free g |}.
Definition with_owed (i : bool) (u : option string) (g : guard) : guard :=
  {| ip_clear := ip_clear g; user_clear := user_clear g; ip_owed := i; user_owed := u; ip_free := ip_free g; user_free := user_free g |}.
Definition with_free (i : bool) (u : option string) (g : guard) : guard :=
  {| ip_clear := ip_clear g; user_clear := user_clear g; ip_owed := ip_owed g; user_owed := user_owed g; ip_free := i; user_free := u |}.
Definition only_if (b : bool) (g : guard) : option guard := if b then Some g else None.
Definition nothing_due (g : guard) : bool :=
  negb (ip_owed g) && bool_decide (user_owed g = None) && negb (ip_free g) && bool_decide (user_free g = None).
Definition guesses (ip : string) : monitor Q guard := fun X g q =>
  match q in Q X return X -> option guard with
  | QIsBanned i => fun b : bool => only_if (bool_decide (i = ip)) (with_bans (negb b) None g)
  | QIsUserBanned u => fun b : bool => Some (with_bans (ip_clear g) (if b then None else Some u) g)
  | QOpenSession u _ => fun r =>
      only_if (ip_clear g && bool_decide (user_clear g = Some u) && nothing_due g)
        (match r with Ok _ => freeing u | Err e => if IsAuthRejection e then owing u else idle end)
  | QRecordAuthFail i => fun _ => only_if (bool_decide (i = ip) && ip_owed g) (with_owed false (user_owed g) g)
  | QRecordAuthFailUser u => fun _ => only_if (bool_decide (user_owed g = Some u)) (with_owed (ip_owed g) None g)
  | QResetAuth i => fun _ => only_if (bool_decide (i = ip) && ip_free g) (with_free false (user_free g) g)
  | QResetAuthUser u => fun _ => only_if (bool_decide (user_free g = Some u)) (with_free (ip_free g) None g)
  | _ => fun _ => Some g
  end.

Definition unguarded : test Q := fun X q =>
  match q with
  | QIsBanned _ | QIsUserBanned _ | QOpenSession _ _ | QRecordAuthFail _ | QRecordAuthFailUser _ | QResetAuth _
  | QResetAuthUser _ => false
  | _ => true
  end.
Lemma wp_unguarded {A} ip g (p : prog A) (post : guard -> A -> Prop) :
  always unguarded p (fun _ => True) -> (forall a, post g a) -> wp (guesses ip) g p post.
Proof.
  intros B I. eapply wp_mono; [|apply (wp_neutral (guesses ip) g unguarded p (fun _ => True)); [|exact B]].
  - cbn beta. by intros g' a [-> _].
  - by intros X [].
Qed.
Lemma preliminary_unguarded {A} (p : prog A) post : always preliminary p post -> always unguarded p post.
Proof. apply always_weaken. by intros X []. Qed.
Ltac walk_aside L := (eapply always_mono; [|eapply preliminary_unguarded, L]).
Lemma all_unguarded s m rcpts l : always unguarded (handle_all c s m rcpts l) (fun _ => True).
Proof.
  revert l. induction rcpts as [|r rcpts IH]; intros l; simpl; [done|]. apply always_then, (always_mono _ _ (fun _ => True)); [by intros|].
  unfold handle, relay_bounce, enqueue, persist_submitted, deliver_local, prepareSubmitted, wholeMessage. walk; done.
Qed.
Lemma others_unguarded k cmd s : (forall m i u p, cmd <> CAuth m i u p) -> always unguarded (serve c k cmd s) (fun _ => True).
Proof.
  intros N. destruct cmd; cbn [serve]; [by edestruct N|..].
  - unfold Mail, check_credential, maySendAs, closeAPISession, endTransaction, Reply. walk; done.
  - unfold Rcpt, rcptSRS, tarpitReject, Reply. walk; done.
  - unfold Data, receive, handOver, stamp. apply always_then, (always_mono _ _ (fun _ => True)).
    { intros r _. apply always_then. walk_aside (end_preliminary). done. }
    apply always_try. walk_aside (take_preliminary). intros [[m p]|] _; [|done].
    apply always_try. walk_aside (check_preliminary). intros [] _; [|done]. walk.
    all: walk_aside (lookup_preliminary); intros [] _; walk; [|done].
    all: walk_by all_unguarded; done.
  - unfold Reset, endTransaction, Reply. walk; done.
  - unfold Logout, endTransaction, closeAPISession, Reply. walk; done.
Qed.
Definition at_rest (g : guard) (a : answer) : Prop := nothing_due g = true.
Lemma due_bans i u g : nothing_due (with_bans i u g) = nothing_due g.
Proof. done. Qed.
Lemma only_if_true b g : b = true -> only_if b g = Some g.
Proof. by intros ->. Qed.
Lemma banned_guarded ip u g :
  wp (guesses ip) g (bannedNow ip u) (fun g' b => nothing_due g' = nothing_due g /\
    (b = false -> ip_clear g' = true /\ user_clear g' = Some u)).
Proof.
  unfold bannedNow. apply wp_then, wp_ask. intros b. cbn [guesses]. rewrite only_if_true by by apply bool_decide_true.
  destruct b; [done|]. apply wp_ask. intros b. cbn [guesses]. by destruct b.
Qed.
Lemma aside {A} ip g (p : prog A) (post : guard -> A -> Prop) :
  always preliminary p (fun _ => True) -> (forall a, post g a) -> wp (guesses ip) g p post.
Proof. intros B. apply wp_unguarded. by apply preliminary_unguarded. Qed.
Lemma login_guarded k u p s g :
  nothing_due g = true -> wp (guesses (extractIP (remoteAddr k))) g (login c k u p s) at_rest.
Proof.
  intros N. unfold login, Reply. set (ip := extractIP _). assert (I : bool_decide (ip = ip) = true) by by apply bool_decide_true.
  apply wp_then. eapply wp_mono; [|apply banned_guarded]. intros g1 b [N1 C]. rewrite N in N1.
  destruct b; [apply wp_then, aside; [apply tarpit_preliminary|done]|].
  destruct (C eq_refl) as [C1 C2]. apply wp_then, wp_ask. intros r. cbn [guesses].
  rewrite only_if_true by (by rewrite C1, C2, N1, (bool_decide_true _ eq_refl)).
  destruct r as [o|e]; [|destruct (IsAuthRejection e); [|done]]; cbn [negb].
  - apply wp_then, wp_ask. intros []. cbn [guesses]. rewrite only_if_true by by rewrite I. apply wp_then, wp_ask. intros [].
    cbn [guesses]. rewrite only_if_true by by apply bool_decide_true. apply wp_then, aside; [apply close_preliminary|done].
  - apply wp_then, wp_ask. intros []. cbn [guesses]. rewrite only_if_true by by rewrite I. apply wp_then, wp_ask. intros [].
    cbn [guesses]. rewrite only_if_true by by apply bool_decide_true. apply wp_then, aside; [apply tarpit_preliminary|]. intros s1.
    apply wp_then. eapply wp_mono; [|apply banned_guarded]. intros g2 [] [N2 _]; exact N2.
Qed.

(** Passwords are guessed under the limiter's rules, on any run of a connection's
    commands. A password is verified only right after both the address and the account were
    found not banned; each password the API definitely refuses is counted once on the
    address and once on the account, before anything else is tried and before the
    connection's next command; nothing else is counted (an API that fails or restricts
    access costs the client nothing); and the failures are forgotten exactly when a password
    was right. *)
Theorem login_counts ip cmds :
  Forall (fun kc => extractIP (remoteAddr (fst kc)) = ip) cmds ->
  forall s, wp (guesses ip) idle (converse c cmds s) (fun g _ => nothing_due g = true).
Proof.
  assert (I : nothing_due idle = true) by done. revert I. generalize idle. intros g N F. revert g N.
  induction F as [|[k cmd] cmds E F IH]; intros g N s; simpl; [exact N|]. cbn in E. subst ip.
  apply wp_then, wp_mono with (post := at_rest).
  { intros g' [s' r] N'. apply wp_then. eapply wp_mono; [|by apply IH]. done. }
  assert (D : (exists m i u p, cmd = CAuth m i u p) \/ forall m i u p, cmd <> CAuth m i u p)
    by (destruct cmd; [left; by repeat eexists|right; done..]).
  destruct D as [(m & i & u & p & ->)|O]; [|by apply wp_unguarded; [apply others_unguarded|]].
  cbn [serve]. unfold Auth, Reply. pose proof (login_guarded k u p s g N). by repeat case_match.
Qed.
End Login.
End SmtpLogin.
