(* ===== verification/Witnesses.v ===== *)
(** * The conditional theorems at concrete inputs

    Each theorem whose statement has hypotheses is applied here to an input that meets
    them, with the outsides of [Samples]; where the theorem is of the form "never", the
    same input also runs to a success, so that it is about something. *)

From S2P Require Import Prelude GoTime GoStrings GoDate GoNet MailAddress Classify Retry QueueModel SRS Prog Outbound Dsn Smtp Send.
From S2P Require Import SendSafety Delivery DeliverySafety MailStore Queue AdminQueue QueueSafety QueueBounds Samples Grants AuditLog.
From S2P Require Import GrantStore Pipeline PipelineFacts AuthResults Emails Greylist RateLimit SenderAuth SendLimits SendLimitsSafety.
From S2P Require Import StorageQuota Recipients SmtpText SmtpTextFacts SmtpSession SmtpSafety SmtpReplies.
From Stdlib Require Import Ascii.

Module Witnesses.
Import GoTime GoStrings Errors Failure Row Prog Wire Outside Send SendSafety Route DeliverySafety Store Queue
  AdminQueue QueueSafety QueueBounds Samples.
Local Open Scope Z_scope.
#[local] Existing Instances sample_unicode sample_mail sample_text sample_sts_text sample_sts sample_web
  sample_mac.


Lemma every_step_timed_witness :
  wp (timed worker) None (deliverSMTPWith worker "mx.b.example:25" "mx.b.example" first_row None None None)
    (fun _ _ => True)
  /\ forall s, 0 < timeouts worker s < Timeouts.Reclaim (smtpTimeouts worker).
Proof.
  apply (every_step_timed worker); [intros s; simpl; lia|vm_compute; reflexivity].
Defined.

Definition pinned_row : OutboundQueue := {|
  ID := 3; MessageID := None; Sender := "alice@a.example"; Recipient := "bob@b.example";
  Domain := "b.example"; SendingDomain := ""; RawMessage := RawMessage first_row; BodyType := "";
  Status := Delivering; Attempts := 1; LastAttempt := None; NextAttempt := 0; LastError := "";
  LastErrorCode := 0; Category := FailureNone; MaxRetries := 60; IsDSN := false; CreatedAt := 0;
  ExpiresAt := RowLimits.QueueLifetime; ARCResults := ""; ARCChain := ""; TLSReport := false;
  RequireTLS := false; Transport := TransportRESTMAIL |}.

Lemma pinned_never_smtp_witness : always off_smtp (deliver worker pinned_row) (fun _ => True).
Proof. apply (pinned_never_smtp worker). reflexivity. Defined.


(** *** The queue *)

Lemma store_keyed : rows_keyed store.
Proof. unfold rows_keyed. apply (bool_decide_unpack _). vm_compute. exact I. Qed.

Lemma claim_exact_witness :
  exists item db1 r, claim settings (fun _ => false) store 100 = Some (item, db1)
    /\ queue store !! ID r = Some r /\ claimable settings store 100 r = true
    /\ db1 = with_queue store (<[ID r := item]> (queue store)) /\ ID item = 2 /\ Attempts item = 1.
Proof.
  pose proof (claim_exact settings (fun _ => false) store 100 store_keyed) as C.
  assert (F : (fun c => (ID (fst c), Attempts (fst c))) <$> claim settings (fun _ => false) store 100
              = Some (2, 1)) by (vm_compute; reflexivity).
  destruct (claim settings (fun _ => false) store 100) as [[item db1]|]; [|discriminate].
  injection F as F1 F2. destruct C as (r & L & _ & C & M & E & D). exists item, db1, r.
  split; [reflexivity|]. split; [exact L|]. split; [exact C|]. split; [exact D|]. split; [exact F1|exact F2].
Defined.

(** A worker has claimed the row due first; a beat of the default heartbeat and its write
    fit twice in the default reclaim interval. *)
Definition beat : Duration := defaultHeartbeat + heartbeatWriteTimeout.
Definition second_claimed : OutboundQueue := claimed second_row 100.
Definition after_claim : sys := {|
  s_now := 100; s_db := update_row store 2 (fun _ => second_claimed);
  s_live := [taken beat second_claimed 100] |}.
Lemma after_claim_reached : reached (fun _ => 0) settings beat after_claim.
Proof.
  exists {| s_now := 100; s_db := store; s_live := [] |}. split; [split; [exact store_keyed|reflexivity]|].
  apply rtc_once, (Claim _ _ _ 100 100 (fun _ => false) store second_claimed); [vm_compute; split; discriminate|].
  vm_compute. reflexivity.
Qed.

Lemma one_worker_per_row_witness :
  NoDup (row_of <$> s_live after_claim) /\
  match queue (s_db after_claim) !! 2 with
  | None => True
  | Some row => Status row = Bounced
                \/ Status row = Delivering /\ Attempts row = 1
                   /\ claimable settings (s_db after_claim) 100 row = false
  end.
Proof.
  destruct (one_worker_per_row (fun _ => 0) settings beat after_claim) as [N A].
  - vm_compute. discriminate.
  - vm_compute. discriminate.
  - exact after_claim_reached.
  - split; [exact N|]. exact (A (taken beat second_claimed 100) (or_introl eq_refl)).
Defined.

(** bob@b.example does not exist: the row bounces and alice is told in her INBOX. *)
Definition no_such_user : error := ESMTP {|
  Code := 550; Enhanced := "5.1.1"; Message := "no such user"; RemoteMTA := "mx.b.example" |}.

Definition strict_settings : Settings := SetBounceRateLimit settings 1 Hour.
Definition bounce_at (t : Time) : outcome_of := {|
  o_item := first_row; o_verdict := Attempted (Err no_such_user); o_clocks := clocks t; o_broken := sound |}.
Definition two_bounces : list outcome_of := [bounce_at 100; bounce_at 200].

Lemma notices_bounded_witness :
  let db' := fst (record_all (fun _ => 0) strict_settings two_bounces (store, counters)) in
  (forall mailbox t', count_messages (in_window strict_settings mailbox t') db' <= 1)
  /\ count_messages (notice_in 10 0) db' = 1.
Proof.
  split; [|vm_compute; reflexivity].
  apply (notices_bounded (fun _ => 0) strict_settings two_bounces 0 (store, counters)).
  - vm_compute. reflexivity.
  - apply bounded_empty; vm_compute; reflexivity.
  - repeat split; vm_compute; discriminate.
Defined.

(** A stranger's mail bounces here: the notice queued to them fails too, and ends there. *)
Definition strange_row : OutboundQueue := row 1 "eve@c.example" "bob@b.example" Delivering 50.
Definition strange_outcome : outcome_of := {|
  o_item := strange_row; o_verdict := Attempted (Err no_such_user); o_clocks := clocks 100; o_broken := sound |}.
Definition after_notice : DB * Counters :=
  record_all (fun _ => 0) settings [strange_outcome] (store, counters).
Definition the_notice : OutboundQueue := default first_row (queue (fst after_notice) !! 3).

Lemma bounces_never_loop_witness :
  let db2 := fst (settle (fun _ => 0) settings sound the_notice (Attempted (Err no_such_user)) (clocks 200)
                    after_notice) in
  (Sender the_notice = "" /\ messages db2 = messages (fst after_notice)
   /\ next_queue db2 = next_queue (fst after_notice))
  /\ Recipient the_notice = "eve@c.example".
Proof.
  split; [|vm_compute; reflexivity].
  apply (bounces_never_loop (fun _ => 0) settings [strange_outcome] (store, counters) 3 the_notice).
  - unfold notices_null. apply (bool_decide_unpack _). vm_compute. exact I.
  - vm_compute. reflexivity.
  - vm_compute. reflexivity.
Defined.

Definition loud_row : OutboundQueue := row 2 "alice@A.example" "Bob@B.example" Delivering 20.
Lemma suppressed_until_expiry_witness :
  let db1 := suppress settings sound first_row FailureBadMailbox "550" 100 store in
  fst (process (fun _ => 0) settings sound loud_row 200 (fun _ => Ok tt) (clocks 200) (db1, counters))
  = bounceSuppressed (fun _ => 0) settings sound loud_row
      {| SFailureCategory := FailureBadMailbox; SLastError := "550"; SMessageID := None;
         SExpiresAt := 100 + DefaultSuppressionTTL |} (clocks 200) db1.
Proof.
  cbv zeta.
  rewrite (suppressed_until_expiry (fun _ => 0) settings first_row loud_row a_example FailureBadMailbox "550"
             100 200 (fun _ => Ok tt) (clocks 200) counters store).
  - reflexivity.
  - vm_compute. discriminate.
  - split; [vm_compute; reflexivity|]. intros d [<-|[]] _. reflexivity.
  - vm_compute. reflexivity.
  - vm_compute. reflexivity.
Defined.

Definition stopped_store : DB :=
  update_domain store 1 (stopped 500 "spam run" "admin@a.example").
Definition restarted_store : DB :=
  match restartOutbound false stopped_store 1 9000 9000 with Ok db => db | Err _ => store end.
Definition row_after : OutboundQueue := default first_row (queue restarted_store !! 1).

Lemma stop_costs_no_lifetime_witness :
  claimable settings stopped_store 1000 first_row = false /\
  ExpiresAt row_after - 9000 = ExpiresAt first_row - 500 /\
  OutboundQueueHeldSQL restarted_store row_after = false.
Proof.
  apply (stop_costs_no_lifetime settings store 1 a_example "spam run" "admin@a.example" 500 9000
           stopped_store restarted_store 1 first_row row_after 1000).
  - split; [vm_compute; reflexivity|]. intros d [<-|[]] _. reflexivity.
  - reflexivity.
  - vm_compute. reflexivity.
  - vm_compute. reflexivity.
  - vm_compute. reflexivity.
  - vm_compute. reflexivity.
  - vm_compute. reflexivity.
  - vm_compute. split; discriminate.
  - vm_compute. discriminate.
  - vm_compute. reflexivity.
Defined.
End Witnesses.

(** * A pipeline at work

    The default inbound pipeline on an engine whose registry knows every filter by name, and
    outsides that answer for the filters: the properties' hypotheses hold there. *)

Module PipelineWitnesses.
Import GoTime GoStrings Prog Pipeline PipelineFacts.
Local Open Scope Z_scope.

Definition sample_registry : Registry (Filter := string) :=
  foldr (fun name r => Register name (fun _ => Ok name) r) NewRegistry
    ("vacation" :: "sieve" :: "extract_attachments" :: "dmarc_reports_received" :: requiredChecks).
Definition sample_engine : Engine (Filter := string) := NewEngine sample_registry.
Definition inbound : PipelineConfig := DefaultInboundPipeline 1 0.

Definition passing : FilterResult nat :=
  {| RType := FilterTypeAction; RAction := ActionContinue; RMessage := None; SkipFilters := [];
     RRejectMsg := ""; RLog := no_log |}.
(** Every filter lets the message pass; the allowlist asks to skip greylisting. *)
Definition all_pass : outside (call (Filter := string) (Email := nat)) :=
  fun X q => match q in call X return X with
             | FilterExecute f _ _ _ =>
                 {| recorded := []; how := Returned (Some (
                      if bool_decide (f = "domain_allowlist")
                      then {| RType := FilterTypeAction; RAction := ActionContinue; RMessage := None;
                              SkipFilters := ["greylist"; "size_check"]; RRejectMsg := ""; RLog := no_log |}
                      else passing)) |}
             | ObserveStep _ => tt
             | ObserveTerminal _ _ _ => tt
             end.
(** The same, but the filter [bad] hangs until the engine's timeout. *)
Definition one_hangs (bad : string) : outside (call (Filter := string) (Email := nat)) :=
  fun X q => match q in call X return X -> X with
             | FilterExecute f _ _ _ => fun o =>
                 if bool_decide (f = bad) then {| recorded := []; how := ContextDone false "context deadline exceeded" |} else o
             | _ => fun o => o
             end (all_pass X q).

Definition ends_with (h : outside call) : option (Action * nat * string) :=
  '(r, _) ← run h (ExecuteStage sample_engine inbound 7%nat NewRunState);
  Some (FinalAction r, List.length (filter (fun s => Skipped s = true) (Steps r)), RejectMsg r).
Example default_inbound_accepts : ends_with all_pass = Some (ActionContinue, 1%nat, "").
Proof. vm_compute. reflexivity. Qed.
Example default_inbound_defers : ends_with (one_hangs "spf_check")
  = Some (ActionDefer, 0%nat, "filter " +:+ quote +:+ "spf_check" +:+ quote +:+ " failed").
Proof. vm_compute. reflexivity. Qed.
Example timeout_text : duration_string (90 * Second + 500 * Millisecond) = "1m30.5s".
Proof. vm_compute. reflexivity. Qed.
Example default_timeout_text : duration_string DefaultFilterTimeout = "1m0s".
Proof. vm_compute. reflexivity. Qed.
Example default_inbound_ordered :
  Name <$> Filters (fst (Split inbound)) ++ Filters (snd (Split inbound)) = Name <$> Filters inbound.
Proof. vm_compute. reflexivity. Qed.

(** An action no switch knows lets the message go on: what a webhook that answers
    "Reject" gets. *)
Example unknown_action_goes_on p r :
  RAction r = "Reject" -> act (Email := nat) r p = Onward p.
Proof. intros E. unfold act. by rewrite E. Qed.

Lemma accepted_means_checked_witness :
  filterErrorAction sample_engine <> ActionContinue /\
  forall fc, fc ∈ Filters inbound ->
    exists log, checked sample_engine log fc \/
                Unskippable fc = false /\ skip_asked (Email := nat) ∅ log (Name fc).
Proof.
  assert (S : filterErrorAction sample_engine <> ActionContinue) by done. split; [exact S|].
  intros fc F.
  destruct (wp_watch _ all_pass _ _ _ (accepted_means_checked sample_engine inbound 7%nat NewRunState S))
    as (log & _ & K).
  exists log. destruct (run all_pass (ExecuteStage sample_engine inbound 7%nat NewRunState)) as [[r after]|] eqn:E.
  - apply (K r after eq_refl); [|done|].
    + apply (f_equal (fmap (fun x => FinalAction (fst x)))) in E. vm_compute in E. by injection E.
    + revert fc F. apply Forall_forall. by repeat constructor.
  - apply (f_equal (fun o => match o with Some _ => true | None => false end)) in E. by vm_compute in E.
Defined.

(** ** The stored field *)

#[local] Existing Instance unicode_caseless.
Definition spf_pass : AuthResult :=
  {| Method := "spf"; AResult := "pass"; Property := "smtp.mailfrom"; Domain := "example.com"; Selector := "" |}.
Definition dkim_odd : AuthResult :=
  {| Method := "dkim"; AResult := "fail"; Property := "header.d"; Domain := "a.b; dkim=pass header.d=bank.example";
     Selector := "s1" |}.
Definition message_text : string := "From: a@example.com" +:+ crlf +:+ crlf +:+ "body".

(** A message whose first line is folded extends the field put before it: the reader then
    sees a signature the server never verified. *)
Definition folded_text : string := " ; dkim=pass header.d=bank.example" +:+ crlf +:+ message_text.
Example leading_fold_adds_a_verdict :
  AuthResults.AuthVerdict <$>
    AuthResults.ParseStoredAuthResults (AuthResults.AuthResultsHeader [spf_pass] +:+ folded_text)
  = Some AuthResults.AuthVerdictSigned.
Proof. vm_compute. reflexivity. Qed.
End PipelineWitnesses.

(** * The filters at work

    Messages for the inbound and outbound filters, with the libraries of [Samples] and a
    published DMARC policy: the filters' theorems applied there, and inputs on which a filter
    does what its settings do not say. *)

Module FilterWitnesses.
Import GoTime GoStrings Emails.
Import Pipeline(AuthResult, Method, AResult, Property, Domain, RAction, SkipFilters, Action, ActionContinue,
  ActionReject, ActionDefer).
Local Open Scope Z_scope.
#[local] Existing Instances Samples.sample_mail Samples.sample_unicode.

(** A message from an envelope sender, with a From address. *)
Definition mail_from (sender from : string) : EmailJSON := {|
  EEnvelope := {| MailFrom := sender; RcptTo := ["bob@b.example"]; ClientIP := "192.0.2.7"; ClientHostname := "";
                  Helo := "mx.a.example"; TLS := true; EDirection := "inbound" |};
  EHeaders := {| From := [{| AName := ""; AAddress := from |}]; To := []; Cc := []; Bcc := []; Subject := "hi";
                 Date := ""; MessageID := ""; InReplyTo := ""; References := []; Raw := ∅; Extra := ∅ |};
  EBody := BodyPart "text/plain" "hi" []; Attachments := []; Inline := []; CalendarEvents := []; Metadata := ∅ |}.
Definition hello : EmailJSON := mail_from "alice@a.example" "alice@a.example".

(** ** Greylisting *)

Definition grey : Greylist.greylistConfig :=
  Greylist.NewGreylist {| Greylist.delay_minutes := None; Greylist.ttl_days := None; Greylist.whitelist_after_pass := None |}.
Definition fine {A} : A -> bool := fun _ => false.
Definition first_try : Greylist.Table * result string Result :=
  Greylist.Execute grey fine (10 * Second) hello (Greylist.table Greylist.start).
Definition deferred : Greylist.world := {|
  Greylist.table := fst first_try; Greylist.clock := 10 * Second;
  Greylist.deferrals := [(Greylist.triple_of hello, 10 * Second)] |}.
Lemma greylist_waits_witness :
  exists w now t r,
    rtc (Greylist.step grey) Greylist.start w /\ Greylist.clock w <= now /\
    Greylist.Execute grey fine now hello (Greylist.table w) = (t, Ok r) /\ RAction r = ActionContinue /\
    exists at_, (Greylist.triple_of hello, at_) ∈ Greylist.deferrals w /\ at_ + Greylist.delay grey <= now.
Proof.
  assert (R : rtc (Greylist.step grey) Greylist.start deferred).
  { apply rtc_once. apply (Greylist.step_message grey (10 * Second) fine hello Greylist.start (fst first_try) (snd first_try));
      [done|by rewrite <- surjective_pairing]. }
  set (now := 10 * Second + 5 * Minute).
  destruct (Greylist.Execute grey fine now hello (Greylist.table deferred)) as [t res] eqn:X.
  assert (A : Greylist.action_of res = Some ActionContinue).
  { apply (f_equal (fun x => Greylist.action_of (snd x))) in X. simpl in X. rewrite <- X. vm_compute. reflexivity. }
  destruct res as [r|]; [|done]. injection A as A. exists deferred, now, t, r. split_and!; [done|done|done|done|].
  apply (Greylist.greylist_waits grey deferred now fine hello t r R); done.
Defined.

(** ** Sending rates *)

Definition caps : RateLimit.rateLimitConfig := {| RateLimit.MaxPerHour := 100; RateLimit.MaxPerMinute := 3 |}.
Definition at_second (s : Z) : RateLimit.sent :=
  {| RateLimit.at_ := s * Second; RateLimit.released := false; RateLimit.mail := hello |}.
(** One message opens a window; the minute from its last second on holds more than the
    limit of three, but not twice it. *)
Definition opening : list RateLimit.sent := [at_second 1].
Definition burst : list RateLimit.sent := at_second <$> [58; 59; 59; 62; 63; 63; 64].
Definition sender : string := "sender:alice@a.example".
Lemma rates_bounded_witness :
  exists s out1 s' out,
    RateLimit.run caps RateLimit.newRateLimitStore opening = (s, out1) /\ RateLimit.run caps s burst = (s', out) /\
    Forall (fun m => 58 * Second <= RateLimit.at_ m <= 58 * Second + Minute) burst /\
    RateLimit.MaxPerMinute caps < RateLimit.passed sender out <= 2 * Z.max 1 (RateLimit.MaxPerMinute caps) - 1.
Proof.
  destruct (RateLimit.run caps RateLimit.newRateLimitStore opening) as [s out1] eqn:E1.
  destruct (RateLimit.run caps s burst) as [s' out] eqn:E2.
  assert (F : Forall (fun m => 58 * Second <= RateLimit.at_ m <= 58 * Second + Minute) burst)
    by (apply (bool_decide_unpack _); vm_compute; exact I).
  exists s, out1, s', out. split_and!; [done|done|done| |].
  - apply (f_equal fst) in E1. simpl in E1. subst s. apply (f_equal (fun x => RateLimit.passed sender (snd x))) in E2.
    simpl in E2. rewrite <- E2. vm_compute. reflexivity.
  - exact (proj1 (RateLimit.rates_bounded caps sender opening burst s out1 s' out (58 * Second) E1 E2) F).
Defined.

(** ** DMARC and known senders *)

(** A.example asks for its mail to be refused when it does not authenticate; a domain is
    aligned with itself. *)
Definition refuse : Policy := {| PRaw := "v=DMARC1; p=reject"; Requested := "reject"; Applied := "reject";
  ASPF := AlignmentRelaxed; ADKIM := AlignmentRelaxed |}.
#[local] Instance sample_auth : AuthLib := {|
  netip_ParseAddr s := Some s;
  spf_CheckHELO _ _ := ("none", "no record");
  spf_CheckMailFrom _ _ _ := ("none", "no record");
  dkim_Verify _ := [];
  arc_Verify _ := ("none", "");
  dmarc_Discover d := if bool_decide (d = "a.example") then Ok refuse else Err "no record";
  dmarc_AlignedMode a f _ := (bool_decide (a = f), None);
  re_instance _ := None;
  re_cv _ := None;
  re_seal_domain _ := None |}.

Definition signed_by (domain : string) : AuthResult :=
  {| Method := AuthResults.AuthDKIM; AResult := "pass"; Property := AuthResults.PropHeaderD; Domain := domain;
     Pipeline.Selector := "s1" |}.
Definition through_list : EmailJSON :=
  with_headers (with_raw {[ "List-Id" := ["<l.example>"] ]} (EHeaders hello)) hello.
(** Signed for another domain the message is refused, or held when it came over a list;
    signed for the From domain it passes. *)
Example dmarc_runs :
  SenderFacts.outcome (SenderAuth.dmarc_check ∅ true [signed_by "evil.example"] hello)
    = ([SenderAuth.dmarc_verdict "fail" "a.example"], Some ActionReject) /\
  SenderFacts.outcome (SenderAuth.dmarc_check ∅ true [signed_by "evil.example"] through_list)
    = ([SenderAuth.dmarc_verdict "fail" "a.example"], Some Pipeline.ActionQuarantine) /\
  SenderFacts.outcome (SenderAuth.dmarc_check ∅ true [signed_by "a.example"] hello)
    = ([SenderAuth.dmarc_verdict "pass" "a.example"], Some ActionContinue).
Proof. split_and!; vm_compute; reflexivity. Qed.

Definition rules : SenderAuth.Rules := {|
  SenderAuth.hosted := [("b.example", 4)];
  SenderAuth.domain_rules := [(4, ("allow", "@a.example")); (4, ("block", "@evil.example"))];
  SenderAuth.installation_rules := [] |}.
Definition allowlist : SenderAuth.domainAllowlistConfig := SenderAuth.NewDomainAllowlist None None None.
Definition trusts_alice : SenderAuth.contacts := fun _ _ sender =>
  if bool_decide (sender = "alice@a.example") then Some "trusted" else None.
Lemma known_senders_proven_witness :
  splitn_byte "@"%char (SenderAuth.sender_of hello) 2 = ["alice"; "a.example"] /\
  SkipFilters (SenderAuth.domain_allowlist rules fine allowlist [signed_by "a.example"] hello) <> [] /\
  SkipFilters (SenderAuth.domain_allowlist rules fine allowlist [] hello) = [] /\
  SenderFacts.proven [signed_by "a.example"] "a.example".
Proof.
  assert (S : splitn_byte "@"%char (SenderAuth.sender_of hello) 2 = ["alice"; "a.example"]) by (vm_compute; reflexivity).
  assert (K : SkipFilters (SenderAuth.domain_allowlist rules fine allowlist [signed_by "a.example"] hello) <> [])
    by (vm_compute; discriminate).
  split_and!; [exact S|exact K|vm_compute; reflexivity|].
  exact (proj1 (SenderFacts.known_senders_proven rules fine allowlist trusts_alice [signed_by "a.example"] hello
                  "alice" "a.example" S) K).
Defined.

(** A blocked domain's mail is let through when the sender spells the domain with a capital,
    puts an at sign in a quoted local part, or the rules cannot be read. *)
Definition allowlist_action (broken : SenderAuth.rule_stmt -> bool) (sender : string) : Action :=
  RAction (SenderAuth.domain_allowlist rules broken allowlist [] (mail_from sender "alice@a.example")).
Definition rules_unread (q : SenderAuth.rule_stmt) : bool :=
  match q with SenderAuth.QDomainRules _ _ => true | _ => false end.
Example block_evaded :
  allowlist_action fine "mallory@evil.example" = ActionReject /\
  allowlist_action fine "mallory@EVIL.example" = ActionContinue /\
  allowlist_action fine (quote +:+ "x@y" +:+ quote +:+ "@evil.example") = ActionContinue /\
  allowlist_action rules_unread "mallory@evil.example" = ActionContinue.
Proof. split_and!; vm_compute; reflexivity. Qed.

(** A sender's mailbox that cannot be looked up counts as missing, and the refusal is final. *)
Example unread_sender_refused :
  RAction (SenderAuth.sender_verify (fun _ _ => None) hello) = ActionReject.
Proof. vm_compute. reflexivity. Qed.
End FilterWitnesses.

(** * An SMTP session at work

    Concrete connections on port 25 and on a submission port: the theorems on sessions
    applied to them, and runs that show what the replies come to. *)

Module SmtpWitnesses.
Import GoTime GoStrings MailAddress Row Prog SmtpText SmtpSession SmtpSafety SmtpReplies.
Local Open Scope Z_scope.
#[local] Existing Instances Samples.sample_unicode Samples.sample_mail Samples.sample_mac.
(** A message that says nothing of unsubscribing. *)
#[local] Instance plain_messages : MailReader := {| list_unsubscribe _ := None |}.

(** ** The readers *)

Definition patient : tarpitPolicy := defaultTarpitPolicy.
Lemma tarpit_delay_exact_witness :
  delayFor patient 13 = Z.min (max patient) (base patient * Z.max 0 (13 - softLimit patient)).
Proof. apply (SmtpTextFacts.tarpit_delay_exact patient 13); [split; vm_compute; discriminate|vm_compute; discriminate|split; vm_compute; discriminate]. Defined.
Definition letter : string := "From: a@a.example" +:+ crlf2 +:+ "hello" +:+ crlf2.
Lemma index_in_file_exact_witness :
  indexInFile letter (fun _ => true) crlf2 = Ok (Some 17%nat) /\ blankLineAt letter (fun _ => true) = Ok (Some 21%nat).
Proof.
  destruct (SmtpTextFacts.index_in_file_exact letter crlf2) as [A B]; [vm_compute; discriminate|].
  split; [rewrite A|rewrite B]; vm_compute; reflexivity.
Defined.

Definition relayed : string := "RECEIVED: by a" +:+ crlf2.
Lemma received_counts_agree_witness :
  SmtpTextFacts.folds_alone /\ CountReceived relayed = ReceivedCount relayed /\ ReceivedCount relayed = 1%nat.
Proof.
  assert (F : SmtpTextFacts.folds_alone).
  { intros s E. cbn. apply bool_decide_eq_false. intros L.
    apply (f_equal is_ascii) in L. rewrite !smap_lower_ascii, E in L. discriminate L. }
  split; [exact F|]. split; [exact (SmtpTextFacts.received_counts_agree F relayed)|vm_compute; reflexivity].
Defined.

(** ** Two listeners *)

Definition key : SRS.Signer := {| SRS.current := "key"; SRS.previous := None |}.
Definition conf (submission : bool) : Conf := {|
  isSubmission := submission; hostname := "mx.a.example"; signer := Some key; srsBounceMax := 5; srsWindow := Hour;
  tarpit := patient; persistent := true; maxReceived := 50; zone := 0;
  ErrAuthUnknownMechanism := {| Code := 504; EnhancedCode := (5, 7, 4); Message := "Unsupported authentication mechanism" |} |}.
Definition port25 : Conf := conf false.
Definition submission : Conf := conf true.
Definition client : Conn := {| TLSState := Some (772, "TLS_AES_128_GCM_SHA256"); ehlo := "client.example"; remoteAddr := "192.0.2.7:4000" |}.
Definition plain : MailOptions := {| UTF8 := false; RequireTLS := false; OptBody := "" |}.

(** The header fields read of [letter]. *)
Definition by_alice : Emails.Headers := {|
  Emails.From := [{| Emails.AName := "Alice"; Emails.AAddress := "alice@a.example" |}]; Emails.To := []; Emails.Cc := []; Emails.Bcc := [];
  Emails.Subject := ""; Emails.Date := ""; Emails.MessageID := ""; Emails.InReplyTo := ""; Emails.References := [];
  Emails.Raw := ∅; Emails.Extra := ∅ |}.
(** Alice signs in and may send as herself; bob@a.example is a mailbox here; deliveries and
    lookups answer as said. *)
Definition world (lookup : string -> result api_error bool) (deliver : string -> result api_error unit) : outside Q :=
  fun X q => match q in Q X return X with
  | QNow => 10 * Hour
  | QSleep _ | QObserve _ _ | QRecordAuthFail _ | QRecordAuthFailUser _ | QResetAuth _ | QResetAuthUser _ | QCloseSession _ => tt
  | QIsBanned _ | QIsUserBanned _ => false
  | QOpenSession email _ =>
      if bool_decide (email = "alice@a.example")
      then Ok {| OToken := "t"; OCredentialID := 0; OCredentialKind := "password"; OUserID := 10 |}
      else Err (APIError 401 "unauthorized" "")
  | QCheckMailbox a => lookup a
  | QDeliver d => deliver (DAddress d)
  | QCredentialUsable _ | QAccountMaySend _ | QHosted _ => Ok true
  | QSenderMatches _ _ | QSenderAuthorized _ _ => Ok false
  | QPersist _ => Ok None
  | QEnqueue _ | QRelay _ => Ok tt
  | QSendingPolicy _ => Ok ""
  | QPrepare _ raw => Ok raw
  | QReserve _ => Ok false
  | QAllow _ => true
  | QReceive => Ok letter
  | QDisk => true
  | QParseStream _ => {| outcome := Parsed by_alice; first_text := Some "hello"; first_html := None; source_failed := false; texts_failed := false |}
  | QMessageID _ => "id@a.example"
  | QQueueID => "q1"
  end.
Definition mailboxes (a : string) : result api_error bool := Ok (bool_decide (a = "bob@a.example")).
Definition delivers (a : string) : result api_error unit := Ok tt.
Definition all_well : outside Q := world mailboxes delivers.
Definition codes : list (result SMTPError unit) -> list Z := map (fun r => match r with Ok _ => 250 | Err e => Code e end).
Definition replies (c : Conf) (h : outside Q) (cmds : list command) : list Z :=
  codes (run h (converse c (map (pair client) cmds) new_session)).

Definition strangers_mail : list command :=
  [CAuth "PLAIN" "" "alice@a.example" "secret"; CMail "carol@c.example" plain; CRcpt "dave@d.example"; CRcpt "bob@a.example"; CData].
Example a_stranger_at_port25 : replies port25 all_well strangers_mail = [503; 250; 550; 250; 250].
Proof. vm_compute. reflexivity. Qed.
Definition alices_mail : list command :=
  [CMail "alice@a.example" plain; CAuth "LOGIN" "" "alice@a.example" "secret"; CMail "carol@c.example" plain;
   CMail "alice@a.example" plain; CRcpt "dave@d.example"; CRcpt "bob@a.example"; CData].
Example alice_at_submission : replies submission all_well alices_mail = [530; 250; 553; 250; 250; 250; 250].
Proof. vm_compute. reflexivity. Qed.

(** What a valid SRS address carries has an @. *)
Definition has_at (a : string) : bool := negb (sforall (fun b => negb (bool_decide (b = "@"%char))) a).
Lemma reversed_has_at sg to now original : SRS.Reverse sg to now = Ok original -> has_at original = true.
Proof.
  unfold SRS.Reverse. intros E. repeat (case_match; simplify_eq). unfold has_at. rewrite !sforall_app. cbn.
  by rewrite andb_false_r.
Qed.
Lemma inbound_never_relays_witness :
  always (inbound has_at) (converse port25 (map (pair client) strangers_mail) new_session) (fun _ => True).
Proof.
  apply (SmtpSafety.inbound_never_relays port25 has_at); [reflexivity|]. intros sg to now original _. apply reversed_has_at.
Defined.
Definition guesses : list command := [CAuth "PLAIN" "" "bob@a.example" "x"; CAuth "PLAIN" "" "alice@a.example" "secret"].
Lemma login_counts_witness :
  Forall (fun kc => extractIP (remoteAddr (fst kc)) = "192.0.2.7") (map (pair client) guesses) /\
  wp (SmtpLogin.guesses "192.0.2.7") SmtpLogin.idle (converse submission (map (pair client) guesses) new_session)
    (fun g _ => SmtpLogin.nothing_due g = true).
Proof.
  assert (F : Forall (fun kc => extractIP (remoteAddr (fst kc)) = "192.0.2.7") (map (pair client) guesses))
    by (repeat constructor; vm_compute; reflexivity).
  split; [exact F|]. apply (SmtpLogin.login_counts submission _ _ F).
Defined.

(** Alice's session as it is when she says DATA. *)
Definition ready : session :=
  with_rcpt "bob@a.example" None (with_rcpt "dave@d.example" None
    (with_transaction "alice@a.example" "" false false (with_identity true "alice@a.example" 10 0 "password" new_session))).
Lemma everyone_served_witness :
  exists s', watch commits nothing all_well (Data submission client ready) =
    Some ({| committed := ["dave@d.example"; "bob@a.example"]; alias_refused := false |}, (s', Ok tt)).
Proof.
  refine (SmtpReplies.everyone_served submission all_well client ready letter
    (applyHeaders by_alice (no_fields (Some "hello") None)) _ _ _ _).
  - split_and!; try reflexivity. intros a. eexists. split; [reflexivity|]. right. reflexivity.
  - discriminate.
  - vm_compute. reflexivity.
  - vm_compute. reflexivity.
Defined.

(** ** What the replies come to *)

(** An alias whose routing stops between the lookup and the delivery: the sender is told
    550 for the message bob has got. *)
Definition alias_gone (a : string) : result api_error unit :=
  if bool_decide (a = "alias@a.example")
  then Err (APIError 403 "rejected" "Alias delivery is not available for this recipient.") else Ok tt.
Example refused_and_delivered :
  option_map (fun '(t, (_, r)) => (committed t, codes [r]))
    (watch commits nothing (world (fun _ => Ok true) alias_gone)
       (Data port25 client (with_rcpt "alias@a.example" None (with_rcpt "bob@a.example" None new_session))))
  = Some (["bob@a.example"], [550]).
Proof. vm_compute. reflexivity. Qed.
(** A recipient whose lookup failed for the moment, and one that is gone: the whole message
    is refused for good. *)
Definition looked_up (a : string) : result api_error bool :=
  if bool_decide (a = "erin@a.example") then Err Unreachable else Ok false.
Example temporary_made_permanent :
  codes [snd (run (world looked_up delivers)
     (Data port25 client (with_rcpt "gone@a.example" None (with_rcpt "erin@a.example" None new_session))))] = [550].
Proof. vm_compute. reflexivity. Qed.
(** A credential revoked after RCPT: the MAIL that finds out signs the session out, and its
    DATA still hands the first transaction's message to bob, its From never checked. *)
Definition revoked : outside Q := fun X q =>
  match q in Q X return X -> X with
  | QCredentialUsable _ => fun _ => Ok false
  | QAccountMaySend _ => fun _ => Ok false
  | _ => fun x => x
  end (all_well X q).
Definition with_app_password : session :=
  with_rcpt "bob@a.example" None
    (with_transaction "alice@a.example" "" false false (with_identity true "alice@a.example" 10 7 "app" new_session)).
Example signed_out_but_served :
  codes (run revoked (converse submission (map (pair client) [CMail "alice@a.example" plain; CData]) with_app_password)) = [530; 250] /\
  option_map (fun '(t, _) => committed t)
    (watch commits nothing revoked (converse submission (map (pair client) [CMail "alice@a.example" plain; CData]) with_app_password))
  = Some ["bob@a.example"].
Proof. split; vm_compute; reflexivity. Qed.
End SmtpWitnesses.

(** * Sending limits at work

    An account below an owner whose hourly limit was lowered after the account's own was
    set: the theorems on limits applied there, and a run of submissions up to the refusal.
    A school's quota over its mailboxes, and an alias of one of them. *)

Module LimitWitnesses.
Import GoTime GoStrings SendLimits.
Local Open Scope Z_scope.

Definition per_hour (messages recipients : Z) : SendLimitValues := fromValues [messages; 0; recipients; 0].
Definition service : Service := {| Defaults := per_hour 100 0; Domain := unlimited; Server := per_hour 0 50; PerMinute := 2 |}.
Definition school : Mailbox := {| AccID := 1; Address := "school@a.example"; OwnerID := None; DomainID := 1; Active := true |}.
Definition alice : Mailbox := {| AccID := 2; Address := "alice@a.example"; OwnerID := Some 1; DomainID := 1; Active := true |}.
Definition start : DB unit := {|
  mailboxes := [school; alice];
  policies := <["account:1" := per_hour 3 0]> {[ "account:2" := per_hour 9 20 ]};
  counters := ∅; notices := ∅; inbox := ∅; next_message := 1; audit_log := []; held := tt |}.
Definition fine : stmt -> bool := fun _ => false.
Definition by_alice (recipients : Z) : Attempt unit := {|
  AccountID := 2; SenderID := 2; HeaderSenderID := 0; ARecipients := recipients; Entry := None;
  BypassAccounts := false; Hold := None; ForceHit := "" |}.

Lemma owned_limits_within_owner_witness :
  EffectiveAccount service fine start 2 = Ok (per_hour 3 20) /\
  exists p, EffectiveAccount service fine start 1 = Ok p /\ Within p (per_hour 3 20) = true.
Proof.
  assert (E : EffectiveAccount service fine start 2 = Ok (per_hour 3 20)) by (vm_compute; reflexivity).
  split; [exact E|].
  apply (SendLimitsFacts.owned_limits_within_owner service fine start 2 alice 1 (per_hour 3 20));
    [split; [reflexivity|apply (bool_decide_unpack _); vm_compute; exact I]|reflexivity|reflexivity|discriminate|exact E].
Defined.

(** The tables after submissions at given times, and the refusals' dimensions. *)
Fixpoint submit (db : DB unit) (ts : list (Time * Z)) : DB unit * list string :=
  match ts with
  | [] => (db, [])
  | (t, r) :: ts =>
      match Reserve service fine db (by_alice r) t with
      | Ok (db, hit) => let '(db, out) := submit db ts in
                        (db, match hit with Some h => HDimension h | None => "sent" end :: out)
      | Err NoEntry => let '(db, out) := submit db ts in (db, "refused" :: out)
      | Err _ => (db, ["failed"])
      end
  end.
Example hour_of_submissions :
  snd (submit start [(1, 4); (2, 4); (3, 4); (2 * Minute, 4); (3 * Minute, 1); (Hour + 1, 17); (Hour + 2, 4)])
  = ["sent"; "sent"; "refused"; "sent"; "refused"; "sent"; "refused"].
Proof. vm_compute. reflexivity. Qed.

Definition first_world : SendLimitsSafety.world (R := unit) := {| SendLimitsSafety.db := start; SendLimitsSafety.log := [] |}.
Definition sixteen : Attempt unit := by_alice 16.

(** ** Quotas *)

Definition quota_row (id : Z) (owner : option Z) (quota used : Z) : StorageQuota.Mailbox := {|
  StorageQuota.ID := id; StorageQuota.OwnerID := owner; StorageQuota.QuotaBytes := quota;
  StorageQuota.QuotaUsedBytes := used |}.
Definition shelves : list StorageQuota.Mailbox :=
  [quota_row 1 None 1000 100; quota_row 2 (Some 1) 900 400; quota_row 3 (Some 1) 0 300].
Definition charged_to (id cost : Z) : option (list Z) :=
  match StorageQuota.ReserveStorage (fun _ => false) shelves shelves id cost with
  | Ok t => Some (StorageQuota.QuotaUsedBytes <$> t)
  | Err _ => None
  end.
(** The second mailbox's own quota has room for 500 bytes, its owner's for 200. *)
Example owner_is_full : charged_to 2 200 = Some [100; 600; 300] /\ charged_to 2 201 = None.
Proof. by vm_compute. Qed.

(** ** Recipients *)

Definition fine_at : Recipients.stmt -> bool := fun _ => false.
#[local] Existing Instances Samples.sample_unicode Samples.sample_mail Samples.sample_text.
Definition receivers : GrantStore.GDB := {|
  GrantStore.accounts := [ {| GrantStore.AcID := 10; GrantStore.AcAddress := "alice@a.example"; GrantStore.AcActive := true;
                              GrantStore.OwnerID := None |} ];
  GrantStore.roles := [ {| GrantStore.RlID := 1; GrantStore.RlName := GrantStore.RoleReceiver; GrantStore.SystemRole := true |} ];
  GrantStore.next_role := 2;
  GrantStore.capabilities := [ {| GrantStore.CapID := 1; GrantStore.CapName := Held.CapMailReceive |} ];
  GrantStore.role_capabilities := [(1, 1)];
  GrantStore.grants := [ {| GrantStore.GID := 1; GrantStore.HolderKind := GrantStore.GrantHolderAccount; GrantStore.HolderID := 10;
    GrantStore.RoleID := 1; GrantStore.GScope := "mailbox:alice@a.example"; GrantStore.Mode := GrantStore.GrantActive;
    GrantStore.GrantedByKind := "system"; GrantStore.GrantedByID := None; GrantStore.GrantedAt := 1;
    GrantStore.GExpiresAt := None |} ];
  GrantStore.next_grant := 2; GrantStore.activations := []; GrantStore.next_activation := 1;
  GrantStore.credentials := []; GrantStore.audit_log := [] |}.
Definition alias_to (source target : string) (active : bool) : Recipients.Alias := {|
  Recipients.AlDomainID := 1; Recipients.SourceAddress := source; Recipients.DestinationAddress := target;
  Recipients.AlActive := active |}.
Definition post : Recipients.Tables := {|
  Recipients.store := Samples.store; Recipients.granted := receivers;
  Recipients.aliases := [alias_to "info@a.example" "office@a.example" true; alias_to "office@a.example" "alice@a.example" true;
                         alias_to "away@a.example" "carol@c.example" true; alias_to "old@a.example" "alice@a.example" false;
                         alias_to "ring@a.example" "ring@a.example" true];
  Recipients.live := {[ 1 ]}; Recipients.quotas := [quota_row 10 None 1000 999] |}.
Definition everything : option Held.Held := Some [ {| Held.EScope := Scope.All; Held.Capability := Held.CapMailReceive |} ].
Definition resolved (address : string) : result Recipients.resolve_error (string * bool) :=
  (fun r => (Recipients.RAddress r, Recipients.RAlias r)) <$>
    Recipients.ResolveRecipient fine_at (fun _ => false) everything 5 post address true.
Example resolutions :
  resolved <$> ["alice@a.example"; "alice+lists@a.example"; "info@a.example"; "away@a.example"; "old@a.example";
                "ring@a.example"; "bob@a.example"]
  = [Ok ("alice@a.example", false); Ok ("alice@a.example", false); Ok ("alice@a.example", true); Ok ("carol@c.example", true);
     Err (Recipients.ErrAliasRouting "inactive alias"); Err (Recipients.ErrAliasRouting "alias loop"); Err Recipients.NotFound].
Proof. vm_compute. reflexivity. Qed.

Definition to_info : Emails.EmailJSON := {|
  Emails.EEnvelope := {| Emails.MailFrom := "bob@b.example"; Emails.RcptTo := ["info@a.example"]; Emails.ClientIP := "192.0.2.7";
    Emails.ClientHostname := ""; Emails.Helo := ""; Emails.TLS := true; Emails.EDirection := "inbound" |};
  Emails.EHeaders := {| Emails.From := []; Emails.To := []; Emails.Cc := []; Emails.Bcc := []; Emails.Subject := "";
    Emails.Date := ""; Emails.MessageID := ""; Emails.InReplyTo := ""; Emails.References := []; Emails.Raw := ∅; Emails.Extra := ∅ |};
  Emails.EBody := Emails.BodyPart "text/plain" "hi" []; Emails.Attachments := []; Emails.Inline := [];
  Emails.CalendarEvents := []; Emails.Metadata := ∅ |}.
Lemma checked_recipients_arrive_witness :
  exists r n a,
    Recipients.ResolveRecipient fine_at (fun _ => false) everything 5 post "info@a.example" true = Ok r /\
    (n <= Recipients.MaxAliasHops)%nat /\ RecipientFacts.reaches fine_at (fun _ => false) everything 5 post "info@a.example" true n a /\
    RecipientFacts.arrived fine_at (fun _ => false) everything 5 post "info@a.example" true n a r.
Proof.
  destruct (RecipientFacts.checked_recipients_arrive fine_at (fun _ => false) (fun _ => false) everything 5 post to_info
    "info@a.example") as (r & n & a & E & L & P & _ & V & _); [by vm_compute|by left|].
  by exists r, n, a.
Defined.
End LimitWitnesses.
