(* ===== verification/MailWitnesses.v ===== *)
(** * Signing in at a concrete server

    One account, its password and a reset token; requests driven step by step through the
    interleaving semantics of [Sessions]: a sign-in, a refresh caught between exchanging its
    token and minting the next, and a reset in between. The theorems on sessions are applied
    to the states reached. *)

From S2P Require Import Prelude GoTime GoStrings MailAddress Prog MailStore Samples Grants GrantStore GrantWitnesses Pipeline Emails.
From S2P Require Import StorageQuota Auth Accounts SignIn Sessions AccountsFacts SessionsSafety Access AccessFacts AccessSafety.
From S2P Require Import Threads MessageStore Messages StorageExact MailRuns Forwards LocalDelivery LocalFacts.
From Stdlib Require Import Ascii.
From stdpp Require Import sorting.

Module AuthWitnesses.
Import GoTime GoStrings Auth Prog Accounts SignIn Sessions AccountsFacts SessionsInv Access.
Local Open Scope Z_scope.
#[local] Existing Instances Samples.sample_unicode Samples.sample_mail Samples.sample_text.

(** Libraries that only show what they were given. *)
Definition toy_auth : AuthLib := {|
  bcrypt_matches p h := bool_decide (h = "hash:" +:+ p); imported_matches _ _ := false; sha256_hex s := "sha:" +:+ s;
  DecryptString s _ := Some s; NewNumericDate t := t |}.
#[local] Existing Instance toy_auth.

(** ** Driving requests *)

Section Drive.
Context (jwt : JWTService) (masterKey : string) (enabled : bool) (window : Duration) (override : option Held.Held) (h : outside Q).

(** What the world answers: fresh random values, tokens numbered as they are signed, the
    database from its tables, and [h] for the rest. *)
Definition respond (w : World) {X} (q : Q X) : X * World :=
  match q in Q X return X * World with
  | QRandom => let s := "r" +:+ itoa (Z.of_nat (length (used w))) in
               if bool_decide (s ∈ used w) then (Err tt, w) else (Ok s, drew s w)
  | QSign c => let token := "t" +:+ itoa (Z.of_nat (length (issued w))) in (Ok token, signs token c w)
  | QParse token =>
      match head (List.filter (fun e => bool_decide (fst e = token)) (issued w)) with
      | Some e => if bool_decide (Issuer (snd e) = issuer jwt) then (Ok (snd e), w) else (Err ErrInvalidToken, w)
      | None => (Err ErrInvalidToken, w)
      end
  | QDb d => (fst (exec override (h _ QNow) d (tables w)), done_db override (h _ QNow) d w)
  | QForget _ => (tt, w) | QCharge _ => (tt, w) | QRefused _ _ => (tt, w) | QRemember _ _ => (tt, w)
  | q => (h _ q, w)
  end.
Lemma respond_answers w X (q : Q X) : answers jwt override w X q (fst (respond w q)) (snd (respond w q)).
Proof.
  destruct q; try constructor.
  - cbn [respond]. destruct (bool_decide _) eqn:E; constructor. by apply bool_decide_eq_false in E.
  - cbn [respond]. destruct (head _) as [e|] eqn:E; [|constructor]. destruct (bool_decide (Issuer _ = _)) eqn:I; constructor.
    + destruct (List.filter _ _) as [|x l] eqn:F; [done|]. injection E as ->. assert (J : In e (e :: l)) by by left.
      rewrite <- F in J. apply filter_In in J as [J T]. apply bool_decide_eq_true in T. subst token. apply list_elem_of_In. by destruct e.
    + by apply bool_decide_eq_true in I.
Qed.

(** One question of request [i], or nothing when it has none left; [n] of them. *)
Definition turn (i : nat) (w : World) : World :=
  match @lookup nat (prog Q unit) _ _ i (threads w) with
  | Some (Ask q k) => with_threads (@insert nat (prog Q unit) _ _ i (k (fst (respond w q))) (threads w)) (snd (respond w q))
  | _ => w
  end.
Definition turns (i n : nat) (w : World) : World := Nat.iter n (turn i) w.
Definition arrives (r : request) (w : World) : World := with_threads (threads w ++ [serve jwt masterKey enabled window r]) w.
Abbreviation Steps := (steps jwt masterKey enabled window override).
Abbreviation Step := (step jwt masterKey enabled window override).

Lemma turn_step i w : (exists X (q : Q X) k, threads w !! i = Some (Ask q k)) -> Step w (turn i w).
Proof. intros (X & q & k & E). unfold turn. rewrite E. eapply st_ask; [exact E|apply respond_answers]. Qed.
Definition asks (i : nat) (w : World) : bool := match @lookup nat (prog Q unit) _ _ i (threads w) with Some (Ask _ _) => true | _ => false end.
Lemma asks_step i w : asks i w = true -> Step w (turn i w).
Proof.
  unfold asks. intros E. apply turn_step. destruct (@lookup nat (prog Q unit) _ _ i (threads w)) as [[a|X q k]|]; [done| |done]. by exists X, q, k.
Qed.
Lemma turn_steps i w w' : Steps w w' -> Steps w (turn i w').
Proof.
  intros S. destruct (threads w' !! i) as [[a|X q k]|] eqn:E; [unfold turn; by rewrite E| |unfold turn; by rewrite E].
  eapply steps_more; [exact S|]. apply turn_step. by exists X, q, k.
Qed.
Lemma turns_steps i n w w' : Steps w w' -> Steps w (turns i n w').
Proof. intros S. unfold turns. induction n as [|n IH]; [exact S|]. cbn. by apply turn_steps. Qed.
Lemma arrives_steps r w w' : Steps w w' -> Steps w (arrives r w').
Proof. intros S. eapply steps_more; [exact S|constructor]. Qed.
Lemma reachable_steps w w' : reachable jwt masterKey enabled window override w -> Steps w w' -> reachable jwt masterKey enabled window override w'.
Proof. intros R S. induction S as [w|w w' w'' S IH T]; [done|]. eapply reach_step; [by apply IH|exact T]. Qed.
End Drive.

(** ** A server *)

Definition alice : Account := {|
  AcID := 1; AcAddress := "alice@a.example"; DisplayName := "Alice"; Active := true; PasswordChangeRequired := false;
  TwoFactorRequired := false; Epoch := 0; BootstrapExpiresAt := None; LastPasswordChange := None; LastLoginAt := None; AcDomain := 1;
  AcOwner := None |}.
Definition her_password : Credential := new_credential 1 KindPassword "Password" "p0" "hash:secret" "" None 1.
Definition her_secret : Credential := {|
  CrID := 2; CrAccount := 1; Kind := CredentialKindClientSecret; Name := "machine"; CrPublicID := "m0"; SecretHash := "sha:x";
  EncryptedSecret := ""; Permissions := [ {| PCapability := "mail:read"; PScope := "domain:a.example" |} ]; CreatedByID := Some 1;
  ConfirmedAt := None; LastUsedAt := None; CrExpiresAt := None; RevokedAt := None |}.
Definition start_tables : Tables := {|
  accounts := [alice]; credentials := [her_password; her_secret]; next_credential := 3; refresh_tokens := []; gateway_sessions := [];
  next_session := 1;
  one_time_tokens := [ {| Purpose := OneTimeTokenResetAdmin; OtHash := "sha:reset"; OtAccount := Some 1; OtExpiresAt := 1000 * Second; UsedAt := None |} ];
  revocations := []; granted := GrantWitnesses.installation; hosted := [Samples.a_example] |}.
Definition start : World := {| tables := start_tables; used := []; issued := []; taken := []; threads := [] |}.
Definition keys : JWTService := {| secret := "k"; accessExpiry := 900 * Second; refreshExpiry := 168 * Hour; issuer := TokenIssuer |}.
Definition calm_outside : outside Q := fun X q =>
  match q in Q X return X with
  | QNow => 100 * Second
  | QPublicID => Ok "p" | QHash p => Ok ("hash:" +:+ p) | QTotp _ _ => false | QTotpKey _ _ => Err tt | QEncrypt _ _ => Err tt
  | QRecoveryCode => Err tt | QRandom => Err tt | QSign _ => Err tt | QParse _ => Err ErrInvalidToken | QDb _ => Err tt
  | QForget _ => tt | QDevices _ => Ok 0 | QAvailable _ => None | QCharge _ => tt | QAllow _ => None | QRefused _ _ => tt
  | QToken => Ok "gw" | QRemembered _ _ => false | QRemember _ _ => tt
  end.
Abbreviation Go := (turns keys None calm_outside).
Abbreviation Arrive := (arrives keys "" true (5 * Minute)).
Definition login_request : loginRequest := {| Email := "alice@a.example"; Password := "secret"; TOTPCode := ""; RecoveryCode := ""; Client := clientNative |}.

Definition signed_in : World := Go 0 40 (Arrive (Login login_request) start).
Example signing_in_signs : length (issued signed_in) = 2%nat /\ length (refresh_tokens (tables signed_in)) = 1%nat.
Proof. vm_compute. split; reflexivity. Qed.

(** A refresh that has exchanged its token when the reset is redeemed, and goes on after. *)
Definition new_password : string := "a longer one".
Definition before : World :=
  Go 2 2 (Arrive (ResetPassword {| RtToken := "reset"; RtPassword := new_password; RtClient := clientNative |})
    (Go 1 6 (Arrive (Refresh None (Some "t1")) signed_in))).
Definition after_reset : World := turn keys None calm_outside 2 before.
Definition after_refresh : World := Go 1 20 after_reset.
Definition no_claims : Claims := session_claims keys 0 "" 0 [] false sign_in_options 0 "" "" "" 0.
(** What a token says. *)
Definition says (w : World) (token : string) : Claims :=
  match head (List.filter (fun e => bool_decide (fst e = token)) (issued w)) with Some e => snd e | None => no_claims end.
Abbreviation Reachable := (reachable keys "" true (5 * Minute) None).

Lemma start_reachable : Reachable start.
Proof. constructor. unfold initial, start, start_tables. cbn. split_and!; try done; [repeat constructor; lia|apply (bool_decide_unpack _); vm_compute; exact I..]. Qed.
Lemma signed_in_steps : steps keys "" true (5 * Minute) None start signed_in.
Proof. apply turns_steps, arrives_steps. constructor. Qed.
Lemma before_steps : steps keys "" true (5 * Minute) None start before.
Proof. do 2 apply turns_steps, arrives_steps. apply signed_in_steps. Qed.
Lemma before_reachable : Reachable before.
Proof. eapply reachable_steps; [apply start_reachable|apply before_steps]. Qed.
Lemma after_reachable : Reachable after_refresh.
Proof.
  eapply reachable_steps; [apply before_reachable|]. apply turns_steps. apply turn_steps. constructor.
Qed.

Lemma ended_sessions_stay_ended_witness :
  issued before <> [] /\ HasAMR (says before "t1") AMRPassword = true /\ SessionID (says after_refresh "t3") = SessionID (says before "t1")
  /\ current (says after_refresh "t3") after_refresh (100 * Second) = false.
Proof.
  split; [vm_compute; discriminate|]. split; [vm_compute; reflexivity|]. split; [vm_compute; reflexivity|].
  apply (SessionsSafety.ended_sessions_stay_ended keys "" true (5 * Minute) None before after_reset after_refresh (100 * Second)
           _ (DResetAdmin "sha:reset" ("hash:" +:+ new_password) "p") 1 "t1" "t3" (says before "t1")).
  - apply before_reachable.
  - apply asks_step. vm_compute. reflexivity.
  - eexists _, _. split; [vm_compute; reflexivity|reflexivity].
  - vm_compute. reflexivity.
  - apply turns_steps. constructor.
  - apply (bool_decide_unpack _). vm_compute. exact I.
  - vm_compute. reflexivity.
  - apply (bool_decide_unpack _). vm_compute. exact I.
  - vm_compute. reflexivity.
Defined.

Lemma one_refresh_token_per_session_witness :
  length (live_rows "r0" (tables signed_in)) = 1%nat /\ (length (live_rows "r0" (tables after_refresh)) <= 1)%nat.
Proof.
  split; [vm_compute; reflexivity|].
  apply (SessionsSafety.one_refresh_token_per_session keys "" true (5 * Minute) None after_refresh "r0"). apply after_reachable.
Defined.
Lemma used_once_witness :
  taken after_refresh = [Redeemed "sha:reset"; Exchanged "r2"] /\ NoDup (taken after_refresh).
Proof.
  split; [vm_compute; reflexivity|]. apply (SessionsSafety.used_once keys "" true (5 * Minute) None after_refresh). apply after_reachable.
Defined.
Lemma refreshing_never_upgrades_witness :
  AccountID (says after_refresh "t0") = AccountID (says after_refresh "t2") /\ AMR (says after_refresh "t0") = AMR (says after_refresh "t2").
Proof.
  destruct (SessionsSafety.refreshing_never_upgrades keys "" true (5 * Minute) None after_refresh "t0" "t2"
    (says after_refresh "t0") (says after_refresh "t2")) as (A & _ & M & _).
  - apply after_reachable.
  - apply (bool_decide_unpack _). vm_compute. exact I.
  - apply (bool_decide_unpack _). vm_compute. exact I.
  - vm_compute. reflexivity.
  - split; [exact A|exact M].
Defined.

(** ** Credentials *)

Definition root_held : Held.Held := [ {| Held.EScope := Scope.All; Held.Capability := Held.Wildcard |} ].
Lemma machine_within_grants_witness :
  Held.Allows root_held "mail:read" "mailbox:bob@a.example" = true
  /\ existsb (permits (Kind her_secret) "mail:read" "mailbox:bob@a.example") (Permissions her_secret) = true.
Proof. apply (AccessFacts.machine_within_grants no_claims her_secret alice root_held); vm_compute; reflexivity. Defined.

(** A POP3 session of hers, and the reset. *)
Definition her_session : GatewaySession := new_session "sha:rmgs_gw" 1 1 KindPassword GatewayServicePOP3 "pop3" (50 * Second) 1.
Definition reading : Tables := with_sessions [her_session] 2 start_tables.
Example session_usable : fst (AccessSafety.run_on None calm_outside 0 (Use "rmgs_gw" GatewayServicePOP3 (100 * Second)) reading) = Ok her_session.
Proof. vm_compute. reflexivity. Qed.
Lemma ending_spares_nothing_witness :
  let t' := snd (exec None (100 * Second) (DResetAdmin "sha:reset" ("hash:" +:+ new_password) "p") reading) in
  AccessSafety.closed_out 1 t' /\ is_ok (fst (AccessSafety.run_on None calm_outside 0 (Use "rmgs_gw" GatewayServicePOP3 (100 * Second)) t')) = false.
Proof.
  cbv zeta. destruct (AccessSafety.ending_spares_nothing None (100 * Second) _ (DResetAdmin "sha:reset" ("hash:" +:+ new_password) "p") reading 1) as [C _].
  - eexists _, _. split; [vm_compute; reflexivity|reflexivity].
  - split; [exact C|vm_compute; reflexivity].
Defined.

(** ** Who gets in *)

Definition hers : Claims := says signed_in "t0".
Definition knowing : outside Q := fun X q =>
  match q in Q X return X with QParse t => if bool_decide (t = "t0") then Ok hers else Err ErrInvalidToken | q => calm_outside _ q end.
Definition with_bearer (token : string) : Request := {|
  Method := "POST"; Authorization := "Bearer " +:+ token; AccessCookie := None; CSRFCookie := None; CSRFHeader := "";
  ClientIP := "192.0.2.7"; ClientService := "" |}.
Definition by_cookie (csrf : string) : Request := {|
  Method := "POST"; Authorization := ""; AccessCookie := Some "t0"; CSRFCookie := Some "r"; CSRFHeader := csrf;
  ClientIP := "192.0.2.7"; ClientService := "" |}.
Definition served (r : Request) (t : Tables) : bool := is_ok (fst (AccessSafety.run_on None knowing (100 * Second) (mail_routes SessionCurrent r) t)).
Example who_is_served :
  served (with_bearer "t0") start_tables = true /\ served (with_bearer "t1") start_tables = false
  /\ served (by_cookie "r") start_tables = true /\ served (by_cookie "") start_tables = false
  /\ served (with_bearer "t0") (tables after_refresh) = false.
Proof. vm_compute. repeat split. Qed.
Definition opened (password : string) : result refusal (string * Claims) :=
  fst (AccessSafety.run_on None calm_outside (100 * Second)
         (open_route GatewayServicePOP3 "192.0.2.7" "alice@a.example" password "pop3") start_tables).
Example who_opens : (fst <$> match opened "secret" with Ok x => Some x | Err _ => None end) = Some "rmgs_gw" /\ is_ok (opened "guess") = false.
Proof. vm_compute. split; reflexivity. Qed.
Example who_reaches :
  is_ok (fst (AccessSafety.run_on None calm_outside (100 * Second) (mayReach hers 1 Held.CapMailRead) start_tables)) = true
  /\ fst (AccessSafety.run_on None calm_outside (100 * Second) (mayReach hers 2 Held.CapMailRead) start_tables) = Err errNoAccess.
Proof. vm_compute. split; reflexivity. Qed.
End AuthWitnesses.

(** * A mailbox with a few messages

    Requests run against one account's mailbox of a few messages, one of them with an
    attachment, signed in as in AuthWitnesses; the theorems on charges, the reconciler,
    renames, snoozes and listings are applied to what they leave. *)

Module MailWitnesses.
Import GoTime GoStrings Auth Prog SignIn Access MessageStore Messages Mailboxes StorageExact MailRuns Paging.
Local Open Scope Z_scope.
#[local] Existing Instances Samples.sample_unicode Samples.sample_mail Samples.sample_text AuthWitnesses.toy_auth.

(** ** Her mailbox *)

Definition hour : Duration := 3600 * Second.
Definition arrived (n : Z) : Time := 1000 * hour + n * hour.
Definition letter (id : Z) (folder threadID : string) (at_ : Time) (size : Z) (atts : bool) : Message := {|
  ID := id; MailboxID := 1; Folder := folder;
  Ids := {| Threads.PMsgID := "<m" +:+ itoa id +:+ "@a.example>"; Threads.PInReplyTo := ""; Threads.PReferences := ""; Threads.PThreadID := threadID |};
  Parts := {| Sender := "bob@b.example"; SenderName := ""; RecipientsTo := JNull; RecipientsCc := JNull; Subject := "hello"; BodyText := "text"; BodyHTML := "" |};
  Stored := no_source; Marks := no_flags; SizeBytes := size; HasAttachments := atts; IsDeleted := false; ReceivedAt := at_ |}.
Definition first_letter : Message := letter 1 "Trips" "t1" (arrived 1) 100 true.
Definition letters : list Message :=
  [first_letter; letter 2 "INBOX" "t2" (arrived 2) 40 false; letter 3 "Trips" "t1" (arrived 3) 60 false;
   letter 4 "Trips" "t3" (arrived 3) 5 false; letter 5 "Trips" "t3" (arrived 4) 7 false].
Definition charged (n : Z) : StorageQuota.Mailbox := {|
  StorageQuota.ID := 1; StorageQuota.OwnerID := None; StorageQuota.QuotaBytes := 10000; StorageQuota.QuotaUsedBytes := n |}.
Definition holding (n : Z) : Tables := {|
  messages := letters; next_message := 6; attachments := [{| AtMessage := 1; AtSize := 500; AtFilename := "map.png"; AtRef := "k1" |}];
  quotas := [charged n]; active := {[1]}; usage := ∅; held := []; next_held := 1; versions := []; queued := []; snoozes := ∅; dues := ∅;
  choices := ∅ |}.

(** ** Her requests *)

Definition reading_cursor (s : string) : option (Time * Z) :=
  head (List.filter (fun p => bool_decide (marshal_cursor (fst p) (snd p) = s)) ((fun m => (ReceivedAt m, ID m)) <$> letters)).
#[local] Instance toy_cursors : CursorLib := {| unmarshal_cursor := reading_cursor |}.
#[local] Instance toy_headers : HeaderLib := {| header_ids _ := None; parse_RFC3339 _ := None |}.
Definition signed_in_world (now : Time) : World := {|
  answers := fun _ q => fst (AccessSafety.answer None AuthWitnesses.calm_outside (100 * Second) AuthWitnesses.start_tables q);
  clock_now := now; random16 := replicate 16 7; awaiting _ _ := None |}.
Definition now : World := signed_in_world (arrived 10).
Definition hers : option Auth.Claims := Some AuthWitnesses.hers.
Lemma she_reaches capability : capability = Held.CapMailRead \/ capability = Held.CapMailWrite -> reaches now hers 1 capability 1.
Proof. intros [-> | ->]; (eexists _, _; split; [reflexivity|split; [vm_compute; reflexivity|reflexivity]]). Defined.

(** ** Charges *)

Lemma holding_wf n : wf (holding n).
Proof.
  split; [|split; [|split]].
  - apply (bool_decide_unpack _). vm_compute. exact I.
  - apply (bool_decide_unpack _). vm_compute. exact I.
  - repeat (apply Forall_cons_2; [split; [done|split; [done|]]; intros a J; apply list_elem_of_singleton in J as ->; by cbn|]). by apply Forall_nil.
  - by repeat constructor.
Qed.
Definition new_letter : Message := letter 0 "INBOX" "t4" 0 30 true.
Definition kept (n : Z) : Attachment := {| AtMessage := 0; AtSize := n; AtFilename := "f"; AtRef := "k2" |}.
(** A delivery, the first letter deleted twice over, and a folder renamed. *)
Definition some_steps : list step := [
  Step (arrived 11) (MDeliver new_letter [kept 9; kept 8] []); Step (arrived 12) (MPurge first_letter); Step (arrived 12) (MPurge first_letter);
  Step (arrived 13) (MRename 1 "Trips" "Travel") ].
Definition after_some : Tables := foldl after_step (holding 712) some_steps.
Lemma loaded_rows m t :
  forallb (fun x => negb (ID x =? ID m) || bool_decide (MailboxID m = MailboxID x /\ SizeBytes m = SizeBytes x /\ IsDeleted m = IsDeleted x
    /\ HasAttachments m = HasAttachments x)) (messages t) = true -> as_loaded m t.
Proof.
  intros F x I E. rewrite forallb_forall in F. apply list_elem_of_In, F in I. rewrite E, Z.eqb_refl in I. cbn in I. by apply bool_decide_eq_true in I.
Qed.
Lemma reconciled_witness :
  exists n t', serve now (holding 3) reconcile = (Ok n, t') /\ messages t' = letters /\
    (forall q, q ∈ quotas t' -> StorageQuota.ID q ∈ active (holding 3) ->
       StorageQuota.QuotaUsedBytes q = message_bytes (StorageQuota.ID q) t' + attachment_bytes (StorageQuota.ID q) t').
Proof.
  destruct (reconciled now (holding 3)) as (n & t' & S & M & A & Q & _).
  - apply (bool_decide_unpack _). vm_compute. exact I.
  - exists n, t'. split_and!; [exact S|exact M|exact Q].
Defined.

(** ** Folders, snoozes and listings *)

Lemma renamed_whole_witness :
  fst (serve now (holding 712) (renameFolder hers 1 "Trips" "Travel")) = Ok "Travel" /\
  Folder <$> messages (snd (serve now (holding 712) (renameFolder hers 1 "Trips" "Travel"))) = ["Travel"; "INBOX"; "Travel"; "Travel"; "Travel"] /\
  (exists m, m ∈ letters /\ of_folder 1 "Trips" m = true).
Proof.
  pose proof (renamed_whole now (holding 712) hers 1 1 "Trips" "Travel" (she_reaches _ (or_intror eq_refl))) as K.
  destruct (serve now (holding 712) (renameFolder hers 1 "Trips" "Travel")) as [r t'] eqn:E.
  assert (R : r = Ok "Travel") by (change r with (fst (r, t')); rewrite <- E; vm_compute; reflexivity). subst r.
  destruct K as (_ & _ & _ & _ & X & T). split_and!; [reflexivity|rewrite T; vm_compute; reflexivity|exact X].
Defined.
Definition snoozed : Tables := snd (serve now (holding 712) (snoozeThread hers 1 "t1" (Some (arrived 20)))).
Definition woken : Tables := snd (serve (signed_in_world (arrived 20)) snoozed returnSnoozedThreads).
Lemma snooze_ends_witness :
  listed 1 "Trips" false false snoozed first_letter = false /\ listed 1 "Trips" false false woken first_letter = true.
Proof.
  assert (S : exists g, serve now (holding 712) (snoozeThread hers 1 "t1" (Some (arrived 20))) = (Ok g, snoozed)) by (eexists; vm_compute; reflexivity).
  destruct S as [g S]. destruct (snooze_ends now (signed_in_world (arrived 20)) _ _ hers 1 1 "t1" (arrived 20) g (she_reaches _ (or_intror eq_refl)) S)
    as (_ & _ & _ & _ & A & B & _). split.
  - destruct (listed 1 "Trips" false false snoozed first_letter) eqn:L; [|reflexivity]. exfalso. exact (A _ _ _ L eq_refl).
  - unfold woken. rewrite B; [reflexivity|apply Z.le_refl|reflexivity].
Defined.
Definition two_at_a_time : listMessagesRequest := {|
  LmAccount := 1; LmFolder := "Trips"; LmLimit := Some 2; LmCursor := ""; IncludeIMAPDeleted := false; IncludeSnoozed := false |}.
Lemma pages_are_the_folder_witness :
  exists l, follow now 6 hers two_at_a_time (holding 712) = Some l /\ ID <$> l = [5; 4; 3; 1] /\ StronglySorted newer_first l /\ NoDup l.
Proof.
  destruct (pages_are_the_folder now hers two_at_a_time (holding 712) 1) as (l & F & S & N & _).
  - apply she_reaches. left. reflexivity.
  - apply (bool_decide_unpack _). vm_compute. exact I.
  - repeat constructor; done.
  - intros m I. assert (K : Forall (fun m => unmarshal_cursor (marshal_cursor (ReceivedAt m) (ID m)) = Some (ReceivedAt m, ID m)) letters)
      by (repeat (constructor; [vm_compute; reflexivity|]); constructor).
    exact (proj1 (Forall_forall _ _) K m I).
  - reflexivity.
  - exists l. split_and!; [exact F| |exact S|exact N].
    assert (E : option_map (fun l => ID <$> l) (follow now 6 hers two_at_a_time (holding 712)) = Some [5%Z; 4%Z; 3%Z; 1%Z]) by (vm_compute; reflexivity).
    change (follow now 6 hers two_at_a_time (holding 712) = Some l) in F. rewrite F in E. by injection E.
Defined.

(** ** Redirects *)

#[local] Instance toy_json : DeliveryLib := {| decode_strings s := Some [s]; encode_strings := concat_all; step_script _ := None; sieve_config _ _ _ := "" |}.
Definition to_send_on (target : string) : Emails.EmailJSON := {|
  Emails.EEnvelope := LocalDelivery.no_envelope;
  Emails.EHeaders := {| Emails.From := []; Emails.To := []; Emails.Cc := []; Emails.Bcc := []; Emails.Subject := "hi"; Emails.Date := "";
    Emails.MessageID := ""; Emails.InReplyTo := ""; Emails.References := []; Emails.Raw := ∅; Emails.Extra := ∅ |};
  Emails.EBody := LocalDelivery.built_body "hi" ""; Emails.Attachments := []; Emails.Inline := []; Emails.CalendarEvents := [];
  Emails.Metadata := {[ Forwards.redirectMetaTargets := target ]} |}.
Definition as_sent : string := "From: a@a.example" +:+ crlf +:+ crlf +:+ "hi".
Definition sent_on (target raw : string) : Queued := Forwards.forward_row "a@a.example" "b.example" raw target [].
Definition via_bob : Queued := sent_on "Bob@b.example" as_sent.
Definition via_carol : Queued := sent_on "carol@c.example" (QuRaw via_bob).
(** Bob's account sends a message on to Carol's, whose redirect to bob is dropped. *)
Lemma redirects_end_witness :
  NoDup (Forwards.normalizeRedirectAddr ∘ QuRecipient <$> [via_bob; via_carol]) /\
  Forwards.buildRedirectForwards (to_send_on "bob@B.example") (QuRaw via_carol) "a@a.example" ["carol@c.example"] "c.example" [] = [].
Proof.
  destruct (RedirectFacts.redirects_end as_sent [via_bob; via_carol] ["bob@b.example"; "carol@c.example"]) as (N & _ & _).
  - apply (RedirectFacts.There _ _ (QuRaw via_bob)); [|apply (RedirectFacts.There _ _ (QuRaw via_carol)); [|apply RedirectFacts.Here]].
    + apply (RedirectFacts.Hop _ (to_send_on "Bob@b.example") "a@a.example" ["a@a.example"] "b.example" []);
        [vm_compute; reflexivity| |vm_compute; reflexivity|done]. apply list_elem_of_singleton. vm_compute. reflexivity.
    + apply (RedirectFacts.Hop _ (to_send_on "carol@c.example") "a@a.example" ["bob@b.example"] "b.example" []);
        [vm_compute; reflexivity| |vm_compute; reflexivity|done]. apply list_elem_of_singleton. vm_compute. reflexivity.
  - intros row [-> |[-> |[]%elem_of_nil]%elem_of_cons]%elem_of_cons; apply (bool_decide_unpack _); vm_compute; exact I.
  - split; [exact N|vm_compute; reflexivity].
Defined.
End MailWitnesses.
